(* ===== verification/_CoqProject ===== *)
-Q . S2P
Prelude.v
JsMap.v
Text.v
WriteLock.v
Codec.v
Framing.v
HelloSeeker.v
SendQueue.v
SpoolDal.v
OutputChunker.v
Replay.v
SpoolGc.v
SnapshotScheduler.v
Acquisition.v
PaneGeometry.v
PaneTree.v
TabManager.v
Auth.v
Pairing.v
PromptContext.v
HostPaths.v
UploadTree.v
KnownHosts.v
ExpandVars.v
TransferItems.v
TransferFlow.v
TransferCounts.v
TransferOps.v
TransferProps.v
TransferPump.v
TransferRecords.v
TransferRestart.v
ChannelData.v
ChannelTrackers.v
StateBroadcaster.v
ChannelLifecycle.v
ChannelChanges.v
ChannelOps.v
ChannelTruth.v
ChannelExample.v
ChannelsStore.v
ChannelWindows.v
ChannelEnds.v
ChannelJudging.v
ChannelRates.v
ChannelStarts.v
ChannelsListed.v
Validation.v
Versions.v
AgentRetirement.v
RetirementStarts.v
RetirementSafety.v
RetirementEnds.v
WsHandler.v
WsExample.v
WsFrames.v
WsSockets.v
WsSafety.v
HostWires.v
HostLink.v
HostLinkExample.v
HostLinkRuns.v
HostQuiet.v
HostSafety.v
HostEnds.v
