(* ===== verification/Prelude.v ===== *)
(** * lasterm: a verification library

    lasterm keeps terminals alive on remote hosts. A hub ([packages/hub]) connects to an agent on
    each host, relays the terminals' output to the windows attached to them, spools it, and decides
    who may type, who is asked for a passphrase and who may connect; a web client
    ([packages/clients/web]) lays the terminals out in tabs and panes; both speak the messages of
    [packages/shared]. The library models the parts of these that hold the program's own logic, each
    as its source has it: a record for its state, one definition per operation, and the steps that
    interleave them; paths below are under [src/packages/] unless they begin with [crates/].

    ** The wire
    - [Codec] ([shared/src/codec.ts], [utils.ts]): the keys of messages, snake_case on the wire.
      MessagePack is a class with its documented round trip. [codec_roundtrip].
    - [Framing] ([shared/src/framing.ts]): [encodeFrame] and [FrameReader.push]. Frames come back
      however the stream is cut ([frames_roundtrip], [push_chunking]); the loop ends and the buffer
      stays under one frame ([push_bounds]); its fuel is the buffer's length plus one.
    - [HelloSeeker] ([hub/src/session/hello-seeker.ts]): the first frame after a shell's prelude
      ([seek_finds_hello]).
    - [SendQueue] ([session/send-queue.ts]): the backpressure queue, in order, the oldest frames
      dropped at the cap ([send_queue_fifo]).

    ** A terminal's output
    - [SpoolDal] ([hub/src/storage/spool.ts]): the table of output chunks, and [SpoolStore], the
      class of what its writers rely on, of which it is the instance.
    - [OutputChunker] ([session/output-chunker.ts]), against [SpoolStore]: no byte of output is lost
      or doubled ([chunker_lossless]) and nothing throws ([chunker_never_throws]).
    - [Replay] ([channel-lifecycle-manager.ts]: [storeSnapshot], [boundTail], [buildAttachPayload]):
      an attach replays the newest snapshot and the output after it ([attach_replay]).
    - [SpoolGc] ([session/spool-gc.ts]): the collector as a monad of steps between which the hub
      does anything. What a pass leaves ([gc_pass_exact]), what it spares ([gc_spares_new_chunks]),
      that its loops end with the fuel given ([gc_loops_terminate]).
    - [SnapshotScheduler] ([session/snapshot-scheduler.ts]): when snapshots are asked for
      ([changed_is_asked], [unchanged_is_quiet]).

    ** The life of a terminal
    The hub's state for it is one record, [StateBroadcaster.Hub], the part of [SharedSessionContext]
    its components share.
    - [ChannelData] ([session-context.ts], [storage/channels-dal.ts], [live-cwd.ts], and the shared
      entities): the state of a terminal and of a session, the row of a terminal, its name.
    - [ChannelTrackers]: [Screens] and [Outputs], the classes of what the life of a terminal asks of
      [SnapshotScheduler] and of [Replay], which are their instances.
    - [StateBroadcaster] ([session/state-broadcaster.ts]): what every window is told, and the rate
      limit of bells ([ChannelRates], [rate_limited]).
    - [ChannelLifecycle] ([channel-lifecycle-manager.ts], [host-reachability.ts], and what drives them
      in [session-manager.ts] and [agent-connection-manager.ts]): starting, restarting, attaching,
      judging and ending terminals; [Ev] and [step] are what may happen, in any order.
    - [ChannelsStore] ([clients/web/src/stores/channels.ts], with the handlers of [stores/session.ts]):
      what a window makes of what it hears ([hear]) and of the lists it fetches.
    - The proofs: [ChannelChanges] has the small changes of a hub ([change]) and what may not happen
      but by name ([Odd]); [ChannelOps] shows every operation, and so every step, to be a sequence of
      them ([evolves]); [ChannelTruth] what is true of the hub and of what a window heard. A property
      then looks at one change. A window reports what runs ([ChannelWindows],
      [windows_told_the_truth]); a terminal killed stays so, and nothing starts after a quit
      ([ChannelEnds], [killed_stays_killed], [nothing_starts_after_quit]); what a daemon's list
      decides, and that it spares what started since ([ChannelJudging], [reconcile_exact],
      [answers_spare_new_starts]); no terminal is being started twice ([ChannelStarts],
      [one_start_at_a_time]); the list in view ([ChannelsListed], [list_in_view]). [ChannelExample] is
      the hub the witnesses run. The last lemmas of [ChannelEnds] are runs in which the code does
      something else than it means.

    ** Who may do what
    - [WriteLock] ([session/write-lock.ts]): who types into a channel. The manager refines an
      abstract lock, free, held or kept for a window that left ([write_lock_refines]); a reload
      gets its lock back ([reload_keeps_lock]) and windows are told the truth
      ([write_lock_announced]).
    - [Acquisition] ([session/session-acquisition.ts], [quit-fence.ts], [session-manager.ts]): the
      shared connecting of a host and the quit ([acquisition_safe], [release_correct],
      [nothing_revived]).
    - [PromptContext] ([session/prompt-context.ts], [ssh-connection-manager.ts]): the questions asked
      of a person, over the leases of [Acquisition]: answered once ([prompts_answered_once]), by who
      was asked ([only_the_route_answers]), never left to who departed
      ([departed_client_left_nothing]).
    - [Auth] ([hub/src/auth.ts], [server.ts], [hub-startup.ts]): the credentials
      ([refused_for_good], [restart_leaves_primary]).
    - [Pairing] ([hub/src/api/pair.ts] and its two tables), over the table of [Auth]: one token per
      code, and how much guessing costs ([pairing_safe], [guessing_bounded], [code_redeems_once]).
    - [KnownHosts] ([hub/src/ssh/known-hosts.ts], [fingerprint.ts]): the verdict on a host's key, a
      withdrawal above all ([known_hosts_verdict], [revocation_wins]).

    - [Validation] ([shared/src/validation.ts]): what a message may hold, over values of any type; a
      shell and a command that elevates one are accepted alike ([commands_accepted]).

    ** The sockets
    The route of the windows' sockets composes the parts above: its state, [WsHandler.Route], holds
    the locks of [WriteLock], the hub of [ChannelLifecycle] and the store of [Auth] side by side with
    the sockets, and a frame runs their operations in the order of the code.
    - [WsHandler] ([hub/src/ws/ws-handler.ts], [ws/handlers/*.ts], [api/tokens.ts]): the opening of a
      socket, its sign-in and timeout, the check of its credential at every frame, the handlers, its
      end on each path, the revocation of a token and what a REST route asks; [step] interleaves them
      with the events of the hub and of the store.
    - [WsFrames] shows which frames reach a terminal; [WsSockets] what is true of every socket at
      every step ([inv]) and how one goes on ([goes_on]); [WsSafety] concludes: only the writer types
      ([only_the_writer_types]), a refused credential acts no more ([refused_sockets_act_no_more]), a
      revoked token ends its sockets at once ([revocation_ends_sockets]), and a request speaks only for
      its own window ([writer_check_exact]). [WsExample] is the route the witnesses run; its last
      examples are runs in which the code does something else than it means.

    ** How a host is reached
    - [HostLink] ([session/session-manager.ts], [ssh-connection-manager.ts], [host-connection.ts],
      [remote-daemon.ts]): its state, [HostLink.Link], holds the hub of [ChannelLifecycle] and the
      acquisitions of [Acquisition] beside the timers and the controllers of reconnects, those no map
      holds any more among them. A dial is what waits on [SshAgent.start]; [step] interleaves its
      outcome, and what a daemon then lists, with the gestures of users (Connect, Reconnect,
      Disconnect, a session closed), the ends of connections, the timers, each of which may fire at
      any step once it is due, and the events of the terminals. What is done to terminals and sessions
      is events of [ChannelLifecycle], so the hub of a link lives as that file has it, and what is
      proved there holds here; [HostLinkRuns] has that the copy it keeps of the hosts being
      reconnected is true of the two maps the code reads ([link_refines_lifecycle]).
    - [HostWires] has what the events of [ChannelLifecycle] leave of what a link goes by ([calm]);
      [HostQuiet] what every operation leaves of a host the user disconnected, and of the times of
      retries ([quiet]); [HostSafety] and [HostEnds] conclude: a host disconnected is reached for by
      nothing until a user acts on it ([disconnected_host_left_alone]), what Disconnect leaves on every
      branch ([disconnect_exact]), how a retry goes on or gives up ([retry_goes_on_or_gives_up]) and
      within what time ([retries_bounded]). The examples of [HostLinkExample] are runs in which the
      code does something else than it means.
    - [Versions] ([session/agent-retirement.ts]): when an agent is older than the hub, against the
      precedence of semver ([older_versions]).
    - [AgentRetirement] ([session/agent-retirement.ts], [session/daemon-stop.ts],
      [session/session-manager.ts]), over the hub of [ChannelLifecycle], which says when an agent may be
      idle: an agent older than the hub is stopped once the hub holds nothing there, and starts wait
      for it. A stop is cut at each [await]; its timer may fire at any step. [RetirementStarts] has
      what the events of the hub leave of the starts in flight ([leaves]); [RetirementSafety] that no
      STOP of a retirement crosses a start, and that starts are counted ([stop_crosses_no_start]);
      [RetirementEnds] that what waits for a retirement goes on ([waiters_go_on]).

    ** Files
    - [HostPaths] ([hub/src/files/host-paths.ts]): the one form of a path, and its climbing
      ([normalised_paths], [join_then_climb]).
    - [UploadTree] ([hub/src/transfers/upload-tree.ts], [shared/src/transfer-protocol.ts]), over
      [HostPaths]: what an upload takes and the tree it builds ([upload_tree_correct]).
    - Uploads to a host ([hub/src/transfers/transfer-service.ts], with the names of
      [files/upload-backend.ts]), over [UploadTree]:
      [TransferItems] has what an upload keeps of its items, the counts kept of them, and what is
      done to an item at once; [TransferFlow] has what waits on the host, cut at each [await] into
      continuations the host may answer in any order or never, the messages of the windows, the
      pump, the start, and [step], which interleaves them all. Windows, hosts and timers are events;
      a timer set is a flag and may fire at any later step.
      [TransferCounts] states what the counts are to say and shows one change of an upload to keep
      it; [TransferOps] shows every operation, and so every step, to be a sequence of such changes;
      [TransferProps] and [TransferPump] conclude: the counts kept folder by folder are those of the
      items ([counts_exact]), nothing is replaced unasked ([replaces_only_when_asked]), the walks
      down a tree, with one level of fuel per item, end where they should ([tree_walks_end]), and a
      pump starts every file there is room for and no more ([pump_fills]).
      [TransferRecords] ([storage/transfers-dal.ts]) has the rows of an upload in meta.db, what is
      written of it as it goes, and how its rows are read by a hub that starts again; each union of
      strings is [Named]. [TransferRestart] shows each of them [ReadBack], the rows to be [current]
      but for what waits to be written, and so the upload brought back to be the one there was
      ([restart_brings_back]).
    - [ExpandVars] ([hub/src/files/expand-vars.ts], [crates/lasterm-agent/src/expand.rs]): variables
      in a folder, expanded as the agent does ([hub_expands_as_agent], [expansion_reads_once]).

    ** The layout of the web client
    - [PaneGeometry] ([clients/web/src/utils/pane-geometry.ts]): where panes are on screen
      ([panes_tile_the_tab]); ratios are rationals.
    - [PaneTree] ([composables/usePaneTree.ts]): splitting, closing, moving panes
      ([closePane_correct], [movePaneTo_correct]).
    - [TabManager] ([composables/useTabManager.ts] and the purges): the tab bar and the invariant of
      the whole layout ([layout_invariant], [purges_exact]).

    ** Shared
    - [Prelude] (this file): the notation, the update of one field of a record, [run] and
      [reachable] for the machines, lemmas on lists.
    - [JsMap]: ECMAScript maps and sets, whose insertion order the program observes.
    - [Text]: strings as UTF-16 code units, with [split], [join] and [lastIndexOf].

    ** Conventions
    A state that several maps and pending calls may hold is an object of a store, reached by its
    place, so that a change is seen by all of them. What an [async] function does is cut at each
    [await]: what goes on after it is a value that waits, and its answer an event.
    Instants are milliseconds in [Z]; ids drawn by [generateId], hashes, random draws and the
    answers of sockets are arguments or parameters, with what is relied on of them as named
    hypotheses. An exception is a value of the result. Fuel appears in the loops of [Framing],
    [SpoolGc] and [ExpandVars] and in the walks of a tree of [TransferItems] and [TransferFlow], each
    with a theorem or a lemma that the fuel given is enough ([folders_up_inside] for the climb). JavaScript
    numbers are [Z] or [nat] where they count, [Q] where they are ratios, and rounded to 53 bits
    where [UploadTree] sums an upload's bytes; the totals of [TransferItems] are exact integers.

    ** Not modelled, and next
    Of the transfers: a write meta.db refuses, the removal of what was dropped, the sweep of old
    temporaries, holding a host for its retirement, and the checks of a start before its tree. Of the
    terminals: elevated starts, the environment of a SPAWN, what is read of the table at a start, and the
    groups, names and requests of the web store. Of the hosts: the questions asked and the agent
    deployed while a connection is made (what comes of them is an event), an agent no longer
    kept, and the start of the agent beside the hub; a host is reached ([HostLink]) and an agent retired
    ([AgentRetirement]) each over a hub of its own. Left out for good: SSH, SFTP,
    processes, file and log I/O and the Rust agent (third-party callbacks and effects with no logic
    of the hub's own), the SQL tables without an algorithm, the REST routes that only check a body,
    and the Vue components, and the other stores, over the browser's DOM. *)

From stdpp Require Export base tactics option list strings numbers gmap.

Set Default Proof Using "Type".

(** ** Scope, tactics and hint databases *)

Declare Scope lasterm_scope.
Delimit Scope lasterm_scope with lasterm.

(** Reverse application, to read a sequence of state updates in program order. *)
Notation "x |> f" := (f x) (at level 45, left associativity, only parsing) : lasterm_scope.

Create HintDb lasterm.

(** ** Updating one field of a record

    [r <{ f := v }>] is [r] with [f] changed. A record declares its [Fields] (itself, rebuilt field
    by field), and each field written a [Setter], derived from them. *)
Class Fields (R : Type) := rebuild : R → R.
Class Setter {R T : Type} (proj : R → T) := set_field : (T → T) → R → R.
Arguments set_field {R T} proj {_} _ _ /.

Ltac derive_setter :=
  lazymatch goal with
  | |- @Setter ?R _ ?proj =>
      let upd := fresh "upd" in let r := fresh "r" in
      unfold Setter; intros upd r;
      let t := eval cbv [rebuild] in (rebuild (R := R) r) in
      let t := eval red in t in
      lazymatch eval pattern (proj r) in t with
      | ?g _ => let t := eval cbv beta in (g (upd (proj r))) in exact t
      end
  end.

Notation "r <{ f := v }>" := (set_field f (λ _, v) r)
  (at level 12, left associativity, format "r  <{ f  :=  v }>") : lasterm_scope.
Notation "r <{ f ::= g }>" := (set_field f g r)
  (at level 12, left associativity, format "r  <{ f  ::=  g }>") : lasterm_scope.

(** ** Reachability *)

(** States reached from [init] by finitely many [step]s: the way every state machine of the
    development quantifies over interleavings of its operations. *)
Inductive reachable {St Ev : Type} (init : St) (step : St → Ev → St) : St → Prop :=
| reach_init : reachable init step init
| reach_step s e : reachable init step s → reachable init step (step s e).

(** Running a list of operations in order. *)
Definition run {St Ev : Type} (step : St → Ev → St) (s : St) (es : list Ev) : St :=
  fold_left step es s.

(** JavaScript truthiness of a string: only the empty string is falsy. *)
Definition truthy (s : string) : bool := negb (String.eqb s "").

(** [Array.prototype.findIndex]: the index of the first element satisfying [P], or [None] for -1. *)
Fixpoint find_index {A : Type} (P : A → bool) (l : list A) : option nat :=
  match l with
  | [] => None
  | x :: l' => if P x then Some 0 else S <$> find_index P l'
  end.

(** [Math.max(0, Math.min(i, n))]: an index clamped to [0..n]. *)
Definition clamp (i : Z) (n : nat) : nat := Z.to_nat (Z.max 0 (Z.min i (Z.of_nat n))).

(** [arr.splice(i, 0, x)] for [i] within bounds. *)
Definition splice_in {A : Type} (i : nat) (x : A) (l : list A) : list A :=
  take i l ++ x :: drop i l.

(** ** Tactics *)

(** Case analysis on every [match]/[decide] in the goal and hypotheses, then simplification. *)
Ltac split_matches := repeat (case_match || case_decide); simplify_eq/=.

(** Split every conjunction and existential of the context. *)
Ltac break := repeat match goal with
  | H : _ ∧ _ |- _ => destruct H
  | H : ∃ _, _ |- _ => destruct H
  end.

(** ** Lemmas on reachability *)

Section reachability.
Context {St Ev : Type} (init : St) (step : St → Ev → St).

(** Rule induction: what holds at first and is kept by every step holds in every state. *)
Lemma reachable_invariant (I : St → Prop) :
  I init → (∀ s e, I s → I (step s e)) → ∀ s, reachable init step s → I s.
Proof. intros H0 Hs s. induction 1; auto. Qed.

Lemma run_app s es es' : run step s (es ++ es') = run step (run step s es) es'.
Proof. apply fold_left_app. Qed.

Lemma run_reachable s es : reachable init step s → reachable init step (run step s es).
Proof.
  revert s. induction es as [|e es IH]; intros s Hs; [done|].
  apply IH. by constructor.
Qed.

Lemma reachable_run s : reachable init step s ↔ ∃ es, s = run step init es.
Proof.
  split.
  - induction 1 as [|s e _ [es ->]]; [by exists []|].
    exists (es ++ [e]). by rewrite run_app.
  - intros [es ->]. apply run_reachable. constructor.
Qed.

(** A property kept by the operations of a list is kept by running it. *)
Lemma run_invariant (P : Ev → Prop) (I : St → Prop) s es :
  (∀ s e, P e → I s → I (step s e)) → Forall P es → I s → I (run step s es).
Proof.
  intros Hstep HP. revert s. induction HP as [|e es He _ IH]; intros s Hs; [done|].
  apply IH. by apply Hstep.
Qed.
End reachability.

(** ** Lemmas on lists *)

Section lists.
Context {A : Type}.
Implicit Types (l : list A) (P : A → bool).

Lemma find_index_Some P l i :
  find_index P l = Some i →
  ∃ x, l !! i = Some x ∧ P x = true ∧ ∀ j y, j < i → l !! j = Some y → P y = false.
Proof.
  revert i. induction l as [|x l IH]; intros i Hi; simplify_eq/=.
  destruct (P x) eqn:HP; simplify_eq/=.
  - exists x. split_and!; [done..|lia].
  - destruct (find_index P l) as [k|] eqn:Hk; simplify_eq/=.
    destruct (IH k eq_refl) as (y & Hy & HPy & Hmin).
    exists y. split_and!; [done..|]. intros [|j] z Hj Hz; simplify_eq/=; [done|].
    eapply Hmin; [|done]. lia.
Qed.

Lemma find_index_None P l : find_index P l = None ↔ Forall (λ x, P x = false) l.
Proof.
  induction l as [|x l IH]; simpl; [by split|].
  destruct (P x) eqn:HP; simpl.
  - split; [done|]. intros H. inversion H; congruence.
  - rewrite fmap_None, IH. split; [by constructor|]. by inversion 1.
Qed.

Lemma clamp_le i n : clamp i n ≤ n.
Proof. unfold clamp. lia. Qed.

Lemma clamp_id (i n : nat) : i ≤ n → clamp (Z.of_nat i) n = i.
Proof. unfold clamp. lia. Qed.

Lemma length_splice_in i x l : length (splice_in i x l) = S (length l).
Proof.
  unfold splice_in. rewrite length_app. simpl.
  rewrite length_take, length_drop. lia.
Qed.

Lemma splice_in_Permutation i x l : splice_in i x l ≡ₚ x :: l.
Proof. unfold splice_in. by rewrite <- Permutation_middle, take_drop. Qed.

Lemma lookup_splice_in i x l : i ≤ length l → splice_in i x l !! i = Some x.
Proof.
  intros Hi. unfold splice_in. rewrite list_lookup_middle; [done|].
  rewrite length_take. lia.
Qed.

Lemma lookup_splice_in_lt i j x l : i ≤ length l → j < i → splice_in i x l !! j = l !! j.
Proof.
  intros Hi Hj. unfold splice_in. rewrite lookup_app_l; [|rewrite length_take; lia].
  by rewrite lookup_take_lt.
Qed.

Lemma lookup_splice_in_ge i j x l : i ≤ j → i ≤ length l → splice_in i x l !! S j = l !! j.
Proof.
  intros Hij Hi. unfold splice_in.
  rewrite lookup_app_r; rewrite length_take; [|lia].
  replace (S j - i `min` length l) with (S (j - i)) by lia. simpl.
  rewrite lookup_drop. f_equal. lia.
Qed.

Lemma NoDup_fmap_filter {B} (f : A → B) (Q : A → Prop) `{∀ x, Decision (Q x)} l :
  NoDup (f <$> l) → NoDup (f <$> filter Q l).
Proof.
  intros Hnd. eapply sublist_NoDup; [exact Hnd|].
  apply fmap_sublist, sublist_filter.
Qed.

Lemma filter_all (Q : A → Prop) `{∀ x, Decision (Q x)} l : Forall Q l → filter Q l = l.
Proof. induction 1; [done|]. rewrite filter_cons_True by done. by f_equal. Qed.

Lemma filter_none (Q : A → Prop) `{∀ x, Decision (Q x)} l :
  Forall (λ x, ¬ Q x) l → filter Q l = [].
Proof. induction 1; [done|]. by rewrite filter_cons_False. Qed.

Lemma filter_ext_in (P Q : A → Prop) `{∀ x, Decision (P x), ∀ x, Decision (Q x)} l :
  (∀ x, x ∈ l → P x ↔ Q x) → filter P l = filter Q l.
Proof.
  induction l as [|x l IH]; intros HPQ; [done|].
  pose proof (HPQ x ltac:(by left)) as Hx. assert (filter P l = filter Q l) as Hl.
  { apply IH. intros y Hy. apply HPQ. by right. }
  rewrite !filter_cons, Hl. repeat case_decide; tauto.
Qed.
End lists.

#[export] Hint Resolve clamp_le : lasterm.
