(* ===== verification/JsMap.v ===== *)
(** * ECMAScript [Map] and [Set]

    The hub and the web client keep their state in [Map]s, [Set]s and object records, and iterate
    over them, so the insertion order is part of the model: [set] on a present key keeps its place
    and on an absent key appends; [delete] removes the entry; iteration follows the entries.
    Maps get stdpp's notations ([m !! k], [<[k:=v]> m], [delete k m]); [js_equiv] is the equality
    of what the lookups see, under which the operations are [Proper]. *)

From S2P Require Import Prelude.

(** ** Maps *)

Record jsmap (K V : Type) := JsMap { entries : list (K * V) }.
Arguments JsMap {K V} _.
Arguments entries {K V} _.

Section operations.
Context {K : Type} `{EqDecision K}.

Fixpoint assoc_get {V} (k : K) (l : list (K * V)) : option V :=
  match l with
  | [] => None
  | (k', v) :: l' => if decide (k = k') then Some v else assoc_get k l'
  end.

Fixpoint assoc_set {V} (k : K) (v : V) (l : list (K * V)) : list (K * V) :=
  match l with
  | [] => [(k, v)]
  | (k', v') :: l' => if decide (k = k') then (k', v) :: l' else (k', v') :: assoc_set k v l'
  end.

(** [m.get(k)], [m.set(k, v)], [m.delete(k)], [new Map()]. *)
#[export] Instance jsmap_lookup {V} : Lookup K V (jsmap K V) := λ k m, assoc_get k (entries m).
#[export] Instance jsmap_insert {V} : Insert K V (jsmap K V) :=
  λ k v m, JsMap (assoc_set k v (entries m)).
#[export] Instance jsmap_delete {V} : Delete K (jsmap K V) :=
  λ k m, JsMap (filter (λ kv, kv.1 ≠ k) (entries m)).
#[export] Instance jsmap_empty {V} : Empty (jsmap K V) := JsMap [].

(** [m.has(k)] *)
Definition js_has {V} (k : K) (m : jsmap K V) : bool :=
  match m !! k with Some _ => true | None => false end.

(** [m.keys()] and [m.values()] *)
Definition js_keys {V} (m : jsmap K V) : list K := (entries m).*1.
Definition js_values {V} (m : jsmap K V) : list V := (entries m).*2.

(** The value in place, for code that mutates the object a map holds. *)
Definition js_alter {V} (f : V → V) (k : K) (m : jsmap K V) : jsmap K V :=
  match m !! k with Some v => <[k := f v]> m | None => m end.

(** A map whose iteration yields each key once. *)
Definition js_wf {V} (m : jsmap K V) : Prop := NoDup (js_keys m).

(** What lookups cannot tell apart. *)
Definition js_equiv {V} (m1 m2 : jsmap K V) : Prop := ∀ k, m1 !! k = m2 !! k.

(** ** Sets, as their elements in insertion order *)

(** [s.has(x)], [s.add(x)], [s.delete(x)]. *)
Definition set_has (x : K) (s : list K) : bool := bool_decide (x ∈ s).
Definition set_add (x : K) (s : list K) : list K := if decide (x ∈ s) then s else s ++ [x].
Definition set_delete (x : K) (s : list K) : list K := filter (λ y, y ≠ x) s.
End operations.

Infix "≡ₘ" := js_equiv (at level 70, no associativity) : lasterm_scope.

(** ** Laws of the map operations *)

Section laws.
Context {K : Type} `{EqDecision K} {V : Type}.
Implicit Types (m : jsmap K V) (k : K) (v : V).

Lemma js_lookup_empty k : (∅ : jsmap K V) !! k = None.
Proof. done. Qed.

Lemma js_lookup_insert k v m k' :
  <[k:=v]> m !! k' = if decide (k = k') then Some v else m !! k'.
Proof.
  destruct m as [l]. unfold insert, jsmap_insert, lookup, jsmap_lookup. simpl.
  induction l as [|[a w] l IH]; simpl; [repeat case_decide; congruence|].
  destruct (decide (k = a)); simpl; [|rewrite IH]; repeat case_decide; congruence.
Qed.

Lemma js_lookup_insert_eq k v m : <[k:=v]> m !! k = Some v.
Proof. rewrite js_lookup_insert. by case_decide. Qed.

Lemma js_lookup_insert_ne k k' v m : k ≠ k' → <[k:=v]> m !! k' = m !! k'.
Proof. intros. rewrite js_lookup_insert. by case_decide. Qed.

Lemma js_lookup_delete k m k' :
  delete k m !! k' = if decide (k = k') then None else m !! k'.
Proof.
  destruct m as [l]. unfold delete, jsmap_delete, lookup, jsmap_lookup. simpl.
  induction l as [|[a w] l IH]; simpl; [by case_decide|].
  rewrite filter_cons. simpl.
  destruct (decide (a ≠ k)) as [Hn|Hn]; [|apply dec_stable in Hn]; simpl; rewrite IH;
    repeat case_decide; congruence.
Qed.

Lemma js_lookup_delete_eq k m : delete k m !! k = None.
Proof. rewrite js_lookup_delete. by case_decide. Qed.

Lemma js_lookup_delete_ne k k' m : k ≠ k' → delete k m !! k' = m !! k'.
Proof. intros. rewrite js_lookup_delete. by case_decide. Qed.

Lemma js_lookup_alter f k m k' :
  js_alter f k m !! k' = if decide (k = k') then f <$> m !! k else m !! k'.
Proof.
  unfold js_alter. destruct (m !! k) as [v|] eqn:Hk.
  - rewrite js_lookup_insert. by case_decide.
  - case_decide; by subst.
Qed.

Lemma js_lookup_elem k v m : m !! k = Some v → (k, v) ∈ entries m.
Proof.
  destruct m as [l]. unfold lookup, jsmap_lookup. simpl.
  induction l as [|[a w] l IH]; simpl; [done|].
  intros H. case_decide; simplify_eq; [constructor|]. constructor. auto.
Qed.

Lemma js_elem_lookup k v m : js_wf m → (k, v) ∈ entries m → m !! k = Some v.
Proof.
  destruct m as [l]. unfold js_wf, js_keys, lookup, jsmap_lookup. simpl.
  induction l as [|[a w] l IH]; simpl; intros Hnd Hin; [by inversion Hin|].
  apply NoDup_cons in Hnd as [Ha Hnd].
  apply elem_of_cons in Hin as [?|Hin]; simplify_eq; [by case_decide|].
  case_decide as Hd; [subst a|by apply IH].
  exfalso. apply Ha. apply list_elem_of_fmap. by exists (k, v).
Qed.

Lemma js_elem_keys k m : k ∈ js_keys m ↔ is_Some (m !! k).
Proof.
  destruct m as [l]. unfold js_keys, lookup, jsmap_lookup. simpl.
  induction l as [|[a w] l IH]; simpl.
  - split; [by inversion 1|by intros [? ?]].
  - rewrite elem_of_cons, IH. case_decide; split; [by eauto|by left|intros [?|?]; done|by right].
Qed.

Lemma js_has_true k m : js_has k m = true ↔ is_Some (m !! k).
Proof. unfold js_has. destruct (m !! k); naive_solver. Qed.

Lemma js_has_false k m : js_has k m = false ↔ m !! k = None.
Proof. unfold js_has. destruct (m !! k); naive_solver. Qed.

Lemma js_keys_insert k v m :
  js_keys (<[k:=v]> m) = if decide (k ∈ js_keys m) then js_keys m else js_keys m ++ [k].
Proof.
  destruct m as [l]. unfold js_keys, insert, jsmap_insert. simpl.
  induction l as [|[a w] l IH]; simpl; [done|].
  destruct (decide (k = a)) as [->|Hk]; csimpl; [by rewrite decide_True by left|].
  rewrite IH.
  destruct (decide (k ∈ l.*1)) as [Hin|Hin];
    destruct (decide (k ∈ a :: l.*1)) as [Hin'|Hin']; try done.
  - exfalso. apply Hin'. by right.
  - exfalso. apply elem_of_cons in Hin' as [?|?]; congruence.
Qed.

Lemma js_keys_delete k m : js_keys (delete k m) = filter (λ a, a ≠ k) (js_keys m).
Proof.
  destruct m as [l]. unfold js_keys, delete, jsmap_delete. simpl.
  induction l as [|[a w] l IH]; simpl; [done|].
  csimpl. rewrite !filter_cons. csimpl. case_decide; csimpl; congruence.
Qed.

Lemma js_wf_empty : js_wf (∅ : jsmap K V).
Proof. constructor. Qed.

Lemma js_wf_insert k v m : js_wf m → js_wf (<[k:=v]> m).
Proof.
  unfold js_wf. rewrite js_keys_insert. case_decide; [done|]. intros Hnd.
  apply NoDup_app. split_and!; [done| |apply NoDup_singleton].
  intros x Hx Hx'. apply list_elem_of_singleton in Hx'. congruence.
Qed.

Lemma js_wf_delete k m : js_wf m → js_wf (delete k m).
Proof. unfold js_wf. rewrite js_keys_delete. apply NoDup_filter. Qed.

Lemma js_wf_alter f k m : js_wf m → js_wf (js_alter f k m).
Proof. unfold js_alter. case_match; auto using js_wf_insert. Qed.

Lemma assoc_set_fresh k v (l : list (K * V)) : k ∉ l.*1 → assoc_set k v l = l ++ [(k, v)].
Proof.
  induction l as [|[a w] l IH]; csimpl; [done|]. rewrite not_elem_of_cons. intros [??].
  rewrite decide_False by done. by rewrite IH.
Qed.

(** Building an object by setting distinct keys in turn lists them in that order. *)
Lemma assoc_set_fold {A} (f : A → K) (g : A → V) (xs : list A) (acc : list (K * V)) :
  NoDup (acc.*1 ++ (f <$> xs)) →
  fold_left (λ out x, assoc_set (f x) (g x) out) xs acc = acc ++ ((λ x, (f x, g x)) <$> xs).
Proof.
  revert acc. induction xs as [|x xs IH]; intros acc Hnd; [by rewrite app_nil_r|].
  cbn [fold_left]. assert (f x ∉ acc.*1) as Hx.
  { apply NoDup_app in Hnd as (_ & Hd & _). intros Hin. by apply (Hd (f x) Hin); left. }
  rewrite assoc_set_fresh by done. rewrite IH; [by rewrite <- app_assoc|].
  rewrite fmap_app, <- app_assoc. done.
Qed.

#[export] Instance js_equiv_equivalence : Equivalence (@js_equiv K _ V).
Proof. split; unfold js_equiv; red; intros; congruence. Qed.

#[export] Instance js_insert_proper k v : Proper (js_equiv ==> js_equiv) (insert k v : jsmap K V → _).
Proof. intros m1 m2 Hm k'. rewrite !js_lookup_insert. case_decide; auto. Qed.

#[export] Instance js_delete_proper k : Proper (js_equiv ==> js_equiv) (delete k : jsmap K V → _).
Proof. intros m1 m2 Hm k'. rewrite !js_lookup_delete. case_decide; auto. Qed.

#[export] Instance js_lookup_proper k : Proper (js_equiv ==> eq) (lookup k : jsmap K V → _).
Proof. intros m1 m2 Hm. apply Hm. Qed.
End laws.

(** ** Laws of the set operations *)

Section set_laws.
Context {K : Type} `{EqDecision K}.
Implicit Types (s : list K) (x : K).

Lemma elem_of_set_add y x s : y ∈ set_add x s ↔ y = x ∨ y ∈ s.
Proof.
  unfold set_add. case_decide.
  - split; [by right|by intros [->|?]].
  - rewrite elem_of_app, list_elem_of_singleton. tauto.
Qed.

Lemma elem_of_set_delete y x s : y ∈ set_delete x s ↔ y ≠ x ∧ y ∈ s.
Proof. unfold set_delete. by rewrite list_elem_of_filter. Qed.

Lemma NoDup_set_add x s : NoDup s → NoDup (set_add x s).
Proof.
  unfold set_add. case_decide; [done|]. intros Hnd. apply NoDup_app.
  split_and!; [done| |apply NoDup_singleton].
  intros y Hy Hy'. apply list_elem_of_singleton in Hy'. congruence.
Qed.

Lemma NoDup_set_delete x s : NoDup s → NoDup (set_delete x s).
Proof. apply NoDup_filter. Qed.
End set_laws.

Create HintDb jsmap.
#[export] Hint Resolve js_wf_empty js_wf_insert js_wf_delete js_wf_alter
  NoDup_set_add NoDup_set_delete : jsmap.
#[export] Hint Rewrite @js_lookup_insert @js_lookup_delete @js_lookup_alter @js_lookup_empty : jsmap.

(** Decides lookups in updated maps by case analysis on the keys. *)
Ltac js_simpl :=
  repeat (rewrite js_lookup_insert || rewrite js_lookup_delete || rewrite js_lookup_alter ||
          rewrite js_lookup_empty); simpl.
Ltac js_simpl_in H :=
  repeat (rewrite js_lookup_insert in H || rewrite js_lookup_delete in H ||
          rewrite js_lookup_alter in H || rewrite js_lookup_empty in H).
Ltac js_solve :=
  intros; js_simpl; repeat match goal with
  | H : context [_ !! _] |- _ => progress js_simpl_in H
  end; simpl in *; repeat case_decide; simplify_eq/=; eauto.
