(* ===== verification/Text.v ===== *)
(** * Texts: the strings of the program as lists of UTF-16 code units

    What the source uses of JavaScript's strings: [split], [join], [lastIndexOf], [slice],
    [startsWith], [includes], the order of [<] and the length of a text in UTF-8. *)

From Stdlib Require Import Ascii.
From stdpp Require Import sorting strings.
From S2P Require Import Prelude.
#[local] Open Scope lasterm_scope.

Notation unit_ := N (only parsing).
Notation text := (list N).
Definition ch (c : Ascii.ascii) : unit_ := Ascii.N_of_ascii c.

Fixpoint txt (s : string) : text :=
  match s with
  | EmptyString => []
  | String c s => ch c :: txt s
  end.

Definition startsWith (p t : text) : bool := bool_decide (p `prefix_of` t).
Definition includes (c : unit_) (t : text) : bool := bool_decide (c ∈ t).

(** [t.split(c)] for a separator of one unit; never empty. *)
Fixpoint split (c : unit_) (t : text) : list text :=
  match t with
  | [] => [[]]
  | x :: t =>
      if decide (x = c) then [] :: split c t
      else match split c t with
           | [] => [[x]]
           | s :: ss => (x :: s) :: ss
           end
  end.

(** [ss.join(c)] *)
Fixpoint join (c : unit_) (ss : list text) : text :=
  match ss with
  | [] => []
  | [s] => s
  | s :: ss => s ++ c :: join c ss
  end.

Fixpoint lastIndexOf (c : unit_) (t : text) : option nat :=
  match t with
  | [] => None
  | x :: t =>
      match lastIndexOf c t with
      | Some i => Some (S i)
      | None => if decide (x = c) then Some 0 else None
      end
  end.

(** The order of [<] on strings. *)
Fixpoint text_leb (a b : text) : bool :=
  match a, b with
  | [], _ => true
  | _ :: _, [] => false
  | x :: a, y :: b => if decide (x = y) then text_leb a b else (x <? y)%N
  end.
Definition text_le (a b : text) : Prop := text_leb a b = true.
#[export] Instance text_le_dec a b : Decision (text_le a b).
Proof. unfold text_le. apply _. Defined.

(** [new TextEncoder().encode(t).length]: a lone surrogate counts as U+FFFD. *)
Definition is_high (c : unit_) : bool := (0xD800 <=? c)%N && (c <=? 0xDBFF)%N.
Definition is_low (c : unit_) : bool := (0xDC00 <=? c)%N && (c <=? 0xDFFF)%N.
Fixpoint utf8_length (t : text) : nat :=
  match t with
  | [] => 0
  | x :: t' =>
      match t' with
      | y :: t'' =>
          if is_high x && is_low y then 4 + utf8_length t''
          else (if (x <? 0x80)%N then 1 else if (x <? 0x800)%N then 2 else 3) + utf8_length t'
      | [] => if (x <? 0x80)%N then 1 else if (x <? 0x800)%N then 2 else 3
      end
  end.

(** [\p{Cc}]: the control characters. *)
Definition is_control (c : unit_) : bool := (c <? 0x20)%N || (0x7F <=? c)%N && (c <=? 0x9F)%N.
(** What [.] does not match. *)
Definition is_line_end (c : unit_) : bool := bool_decide (c ∈ [0x0A; 0x0D; 0x2028; 0x2029]%N).
Definition in_range (a b : Ascii.ascii) (c : unit_) : bool := (ch a <=? c)%N && (c <=? ch b)%N.
Definition is_upper_letter (c : unit_) : bool := in_range "A"%char "Z"%char c.
Definition is_letter (c : unit_) : bool := in_range "A"%char "Z"%char c || in_range "a"%char "z"%char c.
Definition is_digit (c : unit_) : bool := in_range "0"%char "9"%char c.
Definition ascii_upper (c : unit_) : unit_ := if in_range "a"%char "z"%char c then (c - 32)%N else c.

(** ** Lemmas *)

Section texts.
Implicit Types (c x : unit_) (t s : text) (ss : list text).

Lemma split_not_nil c t : split c t ≠ [].
Proof. destruct t as [|x t]; simpl; [done|]. case_decide; [done|]. by destruct (split c t). Qed.

Lemma join_cons c s ss : ss ≠ [] → join c (s :: ss) = s ++ c :: join c ss.
Proof. by destruct ss. Qed.

Lemma join_split c t : join c (split c t) = t.
Proof.
  induction t as [|x t IH]; simpl; [done|]. pose proof (split_not_nil c t).
  case_decide as Hx; [subst|].
  - rewrite join_cons by done. by rewrite IH.
  - destruct (split c t) as [|s ss] eqn:Hs; [done|]. simpl. rewrite <- IH. by destruct ss.
Qed.

Lemma split_no_sep c t : Forall (λ s, c ∉ s) (split c t).
Proof.
  induction t as [|x t IH]; simpl; [repeat constructor; apply not_elem_of_nil|].
  case_decide; [constructor; [apply not_elem_of_nil|done]|].
  destruct (split c t) as [|s ss]; [repeat constructor|].
  - rewrite list_elem_of_singleton. congruence.
  - inversion IH; subst. constructor; [|done]. rewrite elem_of_cons. intros [->|?]; done.
Qed.

Lemma split_free c t : c ∉ t → split c t = [t].
Proof.
  induction t as [|x t IH]; simpl; [done|]. rewrite elem_of_cons. intros Hc.
  rewrite decide_False by (intros ->; tauto). rewrite IH by tauto. done.
Qed.

Lemma split_app c t1 t2 : split c (t1 ++ c :: t2) = split c t1 ++ split c t2.
Proof.
  induction t1 as [|x t1 IH]; simpl; [by rewrite decide_True|].
  case_decide; [by rewrite IH|]. rewrite IH. pose proof (split_not_nil c t1).
  by destruct (split c t1).
Qed.

Lemma split_join c ss : ss ≠ [] → Forall (λ s, c ∉ s) ss → split c (join c ss) = ss.
Proof.
  intros Hn Hss. induction Hss as [|s ss Hs Hss IH]; [done|].
  destruct ss as [|s' ss]; [by apply split_free|].
  rewrite join_cons, split_app, split_free, IH; done.
Qed.

Lemma lastIndexOf_None c t : lastIndexOf c t = None ↔ c ∉ t.
Proof.
  induction t as [|x t IH]; simpl; [split; [intros _; apply not_elem_of_nil|done]|].
  rewrite elem_of_cons. destruct (lastIndexOf c t).
  - split; [done|]. intros Hc. assert (c ∉ t) as Ht by tauto. by apply IH in Ht.
  - case_decide; [split; [done|intros []; auto]|]. split; [|done]. intros _ [->|?]; [done|tauto].
Qed.

Lemma lastIndexOf_Some c t i :
  lastIndexOf c t = Some i ↔ t = take i t ++ c :: drop (S i) t ∧ c ∉ drop (S i) t ∧ i < length t.
Proof.
  revert i. induction t as [|x t IH]; intros i; simpl; [split; [done|intros (? & _ & ?); lia]|].
  destruct (lastIndexOf c t) as [j|] eqn:Hj.
  - split.
    + intros [= <-]. destruct (proj1 (IH j) eq_refl) as (Ht & Hc & ?).
      split_and!; [simpl; by rewrite <- Ht|done|lia].
    + intros (Ht & Hc & ?). destruct i as [|i]; simpl in *.
      * rewrite drop_0 in Hc. apply lastIndexOf_None in Hc. congruence.
      * f_equal. injection Ht as Ht. assert (Some j = Some i) by (apply IH; split_and!; [done|done|lia]).
        congruence.
  - apply lastIndexOf_None in Hj. split.
    + case_decide; [|done]. intros [= <-]. subst. simpl. rewrite drop_0. split_and!; [done|done|lia].
    + intros (Ht & Hc & ?). destruct i as [|i]; simpl in *.
      * injection Ht as ->. by rewrite decide_True.
      * injection Ht as Ht. destruct Hj. rewrite Ht. apply elem_of_app. right. by left.
Qed.

Lemma lastIndexOf_app c t s : c ∉ s → lastIndexOf c (t ++ c :: s) = Some (length t).
Proof.
  intros Hs. apply lastIndexOf_Some. rewrite take_app_length, drop_app_ge by lia.
  replace (S (length t) - length t) with 1 by lia. simpl. rewrite drop_0, length_app. simpl.
  split_and!; [done|done|lia].
Qed.

Lemma join_snoc c ss s : ss ≠ [] → join c (ss ++ [s]) = join c ss ++ c :: s.
Proof.
  induction ss as [|s1 ss IH]; [done|]. intros _. destruct ss as [|s2 ss]; [done|].
  change ((s1 :: s2 :: ss) ++ [s]) with (s1 :: ((s2 :: ss) ++ [s])).
  rewrite !join_cons by done. rewrite IH by done. by rewrite <- app_assoc.
Qed.

Lemma elem_of_join c ss x : x ∈ join c ss → x = c ∨ ∃ s, s ∈ ss ∧ x ∈ s.
Proof.
  induction ss as [|s ss IH]; [by inversion 1|]. destruct ss as [|s' ss].
  - intros Hx. right. exists s. split; [by left|done].
  - rewrite join_cons by done. rewrite elem_of_app, elem_of_cons. intros [Hx|[->|Hx]].
    + right. exists s. split; [by left|done].
    + by left.
    + destruct (IH Hx) as [?|(s0 & ? & ?)]; [by left|]. right. exists s0. split; [by right|done].
Qed.

Lemma elem_of_split c t x s : s ∈ split c t → x ∈ s → x ∈ t ∧ x ≠ c.
Proof.
  intros Hs Hx. split.
  - rewrite <- (join_split c t). apply list_elem_of_split in Hs as (l1 & l2 & ->).
    induction l1 as [|s1 l1 IH]; simpl.
    + destruct l2; [done|]. apply elem_of_app. by left.
    + destruct (l1 ++ s :: l2) eqn:E; [by destruct l1|]. rewrite <- E in *. clear E.
      apply elem_of_app. right. by right.
  - pose proof (split_no_sep c t) as Hall. rewrite Forall_forall in Hall. intros ->. by eapply Hall.
Qed.

Lemma text_leb_refl t : text_leb t t = true.
Proof. induction t; simpl; [done|]. by rewrite decide_True. Qed.

#[export] Instance text_le_total : Total text_le.
Proof.
  intros a. unfold text_le. induction a as [|x a IH]; intros [|y b]; simpl; auto.
  destruct (decide (x = y)) as [->|Hxy]; [rewrite decide_True by done; apply IH|].
  rewrite decide_False by done. rewrite !N.ltb_lt. lia.
Qed.

#[export] Instance text_le_trans : Transitive text_le.
Proof.
  intros a. unfold text_le. induction a as [|x a IH]; intros [|y b] [|z d]; simpl; try done.
  destruct (decide (x = y)) as [->|Hxy].
  - destruct (decide (y = z)) as [->|Hyz]; [apply IH|done].
  - destruct (decide (y = z)) as [->|Hyz]; [by rewrite decide_False|].
    rewrite !N.ltb_lt. intros. rewrite decide_False by lia. apply N.ltb_lt. lia.
Qed.

Lemma text_le_antisymm a b : text_le a b → text_le b a → a = b.
Proof.
  revert b. unfold text_le. induction a as [|x a IH]; intros [|y b]; simpl; try done.
  destruct (decide (x = y)) as [->|Hxy].
  - rewrite decide_True by done. intros. f_equal. auto.
  - rewrite decide_False by done. rewrite !N.ltb_lt. lia.
Qed.
End texts.
