(* ===== verification/WriteLock.v ===== *)
(** * The write lock of a channel ([packages/hub/src/session/write-lock.ts])

    [WriteLockManager]'s maps, its grace timers and the callbacks it makes, as one state record;
    one definition per method, private helpers included. [exec] runs one operation, the firing of
    a grace timer among them, so that [reachable init exec] covers every interleaving.

    [lock_spec] is the abstract contract: what each operation does to the lock of one channel,
    which is free, held by a client, or kept for the window of a client that left. *)

From Stdlib Require Import Ascii.
From S2P Require Import Prelude JsMap.
#[local] Open Scope lasterm_scope.

(** ** Windows and their keys *)

(** Lower-case hexadecimal digit. *)
Definition hex_digit (n : nat) : ascii := ascii_of_nat (if n <? 10 then 48 + n else 87 + n).

(** How [JSON.stringify] writes one character of a string: 34 is the quote, 92 the backslash,
    8, 9, 10, 12 and 13 have short escapes, other control characters are [\u00XX]. *)
Definition json_escape (c : ascii) : list ascii :=
  let n := nat_of_ascii c in
  let esc (k : nat) := [ascii_of_nat 92; ascii_of_nat k] in
  if (n =? 34) || (n =? 92) then esc n
  else if n =? 8 then esc 98
  else if n =? 9 then esc 116
  else if n =? 10 then esc 110
  else if n =? 12 then esc 102
  else if n =? 13 then esc 114
  else if n <? 32 then
    esc 117 ++ [ascii_of_nat 48; ascii_of_nat 48; hex_digit (n / 16); hex_digit (n mod 16)]
  else [c].

(** [JSON.stringify] of a string. *)
Definition json_string (s : string) : list ascii :=
  [ascii_of_nat 34] ++ (String.list_ascii_of_string s ≫= json_escape) ++ [ascii_of_nat 34].

Record ClientWindow := { tokenId : string; windowId : string }.

Definition windowKey (window : ClientWindow) : string :=
  String.string_of_list_ascii
    (["["%char] ++ json_string (tokenId window) ++ [","%char] ++
     json_string (windowId window) ++ ["]"%char]).

(** ** Messages and callbacks *)

Inductive message :=
| WRITE_LOCK (channelId : string) (holder : option string) (reserved : bool)
| WRITE_REQUEST (channelId fromClientId : string)
| WRITE_DENY (channelId toClientId : string)
| WRITE_REVOKED (channelId : string).

Inductive effect :=
| SendToClient (clientId : string) (msg : message)
| BroadcastToChannel (channelId : string) (msg : message)
| OnForce (channelId byClientId fromClientId : string)
| OnChange (channelId : string).

(** ** The manager's state

    [timers] are the grace timers that are set, by handle: what [setTimeout] adds and
    [clearTimeout] or the firing removes. [effects] are the callbacks made so far, in order. *)

Record Reservation := { window : string; timer : nat }.

Record WriteLockManager := Manager {
  holders : jsmap string string;
  attached : jsmap string (list string);
  windows : jsmap string string;
  reservations : jsmap string Reservation;
  stopped : bool;
  timers : jsmap nat string;
  nextTimer : nat;
  effects : list effect
}.

Definition init : WriteLockManager := Manager ∅ ∅ ∅ ∅ false ∅ 0 [].

Definition with_holders (f : jsmap string string → jsmap string string) (m : WriteLockManager) :=
  Manager (f (holders m)) (attached m) (windows m) (reservations m) (stopped m) (timers m)
          (nextTimer m) (effects m).
Definition with_attached (f : jsmap string (list string) → jsmap string (list string))
  (m : WriteLockManager) :=
  Manager (holders m) (f (attached m)) (windows m) (reservations m) (stopped m) (timers m)
          (nextTimer m) (effects m).
Definition with_windows (f : jsmap string string → jsmap string string) (m : WriteLockManager) :=
  Manager (holders m) (attached m) (f (windows m)) (reservations m) (stopped m) (timers m)
          (nextTimer m) (effects m).
Definition with_reservations (f : jsmap string Reservation → jsmap string Reservation)
  (m : WriteLockManager) :=
  Manager (holders m) (attached m) (windows m) (f (reservations m)) (stopped m) (timers m)
          (nextTimer m) (effects m).
Definition emit (e : effect) (m : WriteLockManager) :=
  Manager (holders m) (attached m) (windows m) (reservations m) (stopped m) (timers m)
          (nextTimer m) (effects m ++ [e]).

(** [setTimeout] and [clearTimeout] of a grace timer. *)
Definition setTimeout (channelId : string) (m : WriteLockManager) :=
  Manager (holders m) (attached m) (windows m) (reservations m) (stopped m)
          (<[nextTimer m := channelId]> (timers m)) (S (nextTimer m)) (effects m).
Definition clearTimeout (t : nat) (m : WriteLockManager) :=
  Manager (holders m) (attached m) (windows m) (reservations m) (stopped m)
          (delete t (timers m)) (nextTimer m) (effects m).

(** ** Private helpers *)

Definition lockMessage (channelId : string) (holder : option string) (reserved : bool) : message :=
  WRITE_LOCK channelId holder reserved.

Definition _broadcastLock (channelId : string) (holder : option string) (reserved : bool)
  (m : WriteLockManager) : WriteLockManager :=
  m |> emit (BroadcastToChannel channelId (lockMessage channelId holder reserved))
    |> emit (OnChange channelId).

Definition _verifyHolder (channelId clientId : string) (m : WriteLockManager) : bool :=
  bool_decide (holders m !! channelId = Some clientId).

Definition _endReservation (channelId : string) (m : WriteLockManager) : WriteLockManager :=
  match reservations m !! channelId with
  | None => m
  | Some reservation =>
      m |> clearTimeout (timer reservation) |> with_reservations (delete channelId)
  end.

Definition _grantToSoleAttachedClient (channelId : string) (m : WriteLockManager)
  : WriteLockManager :=
  if js_has channelId (holders m) then m
  else match attached m !! channelId with
       | Some [only] =>
           m |> with_holders (insert channelId only) |> _broadcastLock channelId (Some only) false
       | _ => m
       end.

Definition _graceEnded (channelId : string) (m : WriteLockManager) : WriteLockManager :=
  m |> with_reservations (delete channelId)
    |> _broadcastLock channelId None false
    |> _grantToSoleAttachedClient channelId.

Definition _keepFor (channelId window : string) (m : WriteLockManager) : WriteLockManager :=
  match list_find (λ other, windows m !! other = Some window)
                  (default [] (attached m !! channelId)) with
  | Some (_, other) =>
      m |> with_holders (insert channelId other) |> _broadcastLock channelId (Some other) false
  | None =>
      let t := nextTimer m in
      m |> setTimeout channelId
        |> with_reservations (insert channelId {| window := window; timer := t |})
        |> _broadcastLock channelId None true
  end.

(** ** Operations *)

Definition identify (clientId : string) (w : ClientWindow) (m : WriteLockManager) :=
  m |> with_windows (insert clientId (windowKey w)).

Definition attach (channelId clientId : string) (m : WriteLockManager) : WriteLockManager :=
  let clients := default [] (attached m !! channelId) in
  let m := m |> with_attached (insert channelId (set_add clientId clients)) in
  match reservations m !! channelId with
  | Some reservation =>
      if decide (windows m !! clientId = Some (window reservation)) then
        m |> _endReservation channelId
          |> with_holders (insert channelId clientId)
          |> _broadcastLock channelId (Some clientId) false
      else m |> emit (SendToClient clientId (lockMessage channelId None true))
  | None =>
      match holders m !! channelId with
      | None =>
          m |> with_holders (insert channelId clientId)
            |> _broadcastLock channelId (Some clientId) false
      | Some holder =>
          m |> emit (SendToClient clientId (WRITE_LOCK channelId (Some holder) false))
      end
  end.

Definition detach (channelId clientId : string) (m : WriteLockManager) : WriteLockManager :=
  let m := m |> with_attached (js_alter (set_delete clientId) channelId) in
  if decide (holders m !! channelId = Some clientId) then
    m |> with_holders (delete channelId)
      |> _broadcastLock channelId None false
      |> _grantToSoleAttachedClient channelId
  else m.

(** [const current = this.holders.get(channelId)], as the truthiness tests below it see it. *)
Definition current_holder (channelId : string) (m : WriteLockManager) : option string :=
  match holders m !! channelId with
  | Some h => if truthy h then Some h else None
  | None => None
  end.

Definition claim (channelId clientId : string) (m : WriteLockManager) : WriteLockManager :=
  match current_holder channelId m with
  | None =>
      m |> _endReservation channelId
        |> with_holders (insert channelId clientId)
        |> _broadcastLock channelId (Some clientId) false
  | Some current =>
      if decide (current = clientId) then m
      else m |> emit (SendToClient current (WRITE_REQUEST channelId clientId))
  end.

Definition grant (channelId fromClientId toClientId : string) (m : WriteLockManager)
  : WriteLockManager :=
  if _verifyHolder channelId fromClientId m then
    m |> with_holders (insert channelId toClientId)
      |> _broadcastLock channelId (Some toClientId) false
  else m.

Definition deny (channelId fromClientId toClientId : string) (m : WriteLockManager)
  : WriteLockManager :=
  if _verifyHolder channelId fromClientId m then
    m |> emit (SendToClient toClientId (WRITE_DENY channelId toClientId))
  else m.

Definition force (channelId clientId : string) (m : WriteLockManager) : WriteLockManager :=
  let m :=
    match current_holder channelId m with
    | Some current =>
        if decide (current = clientId) then m
        else m |> emit (SendToClient current (WRITE_REVOKED channelId))
               |> emit (OnForce channelId clientId current)
    | None => m
    end in
  m |> _endReservation channelId
    |> with_holders (insert channelId clientId)
    |> _broadcastLock channelId (Some clientId) false.

Definition release (channelId clientId : string) (m : WriteLockManager) : WriteLockManager :=
  if _verifyHolder channelId clientId m then
    m |> with_holders (delete channelId) |> _broadcastLock channelId None false
  else m.

(** The first loop of [onClientDisconnect]: the locks the client held go, in the map's order. *)
Definition free_one (clientId : string) (acc : WriteLockManager * list string)
  (entry : string * string) : WriteLockManager * list string :=
  let '(m, freed) := acc in
  let '(channelId, holder) := entry in
  if decide (holder = clientId)
  then (m |> with_holders (delete channelId), freed ++ [channelId])
  else (m, freed).

Definition free_held (clientId : string) (m : WriteLockManager) : WriteLockManager * list string :=
  fold_left (free_one clientId) (entries (holders m)) (m, []).

(** The body of its last loop: a freed lock is kept for the window, or handed on. *)
Definition after_leaving (window : option string) (channelId : string) (m : WriteLockManager)
  : WriteLockManager :=
  match window with
  | Some w =>
      if stopped m
      then m |> _broadcastLock channelId None false |> _grantToSoleAttachedClient channelId
      else m |> _keepFor channelId w
  | None => m |> _broadcastLock channelId None false |> _grantToSoleAttachedClient channelId
  end.

Definition onClientDisconnect (clientId : string) (m : WriteLockManager) : WriteLockManager :=
  let window := windows m !! clientId in
  let m := m |> with_windows (delete clientId) in
  let '(m, freed) := free_held clientId m in
  let m := m |> with_attached (λ a, JsMap (prod_map id (set_delete clientId) <$> entries a)) in
  fold_left (λ m channelId, after_leaving window channelId m) freed m.

Definition removeChannel (channelId : string) (m : WriteLockManager) : WriteLockManager :=
  m |> _endReservation channelId
    |> with_holders (delete channelId)
    |> with_attached (delete channelId).

Definition shutdown (m : WriteLockManager) : WriteLockManager :=
  let ts := fold_left (λ ts r, delete (timer r) ts) (js_values (reservations m)) (timers m) in
  Manager ∅ ∅ ∅ ∅ true ts (nextTimer m) (effects m).

(** ** Queries *)

Definition isHolder (channelId clientId : string) (m : WriteLockManager) : bool :=
  bool_decide (holders m !! channelId = Some clientId).

Definition isWriteLockHolder (channelId clientId : string) (m : WriteLockManager) : bool :=
  if js_has channelId (reservations m) then false
  else match holders m !! channelId with
       | None => true
       | Some holder => bool_decide (holder = clientId)
       end.

Definition getHolder (channelId : string) (m : WriteLockManager) : option string :=
  holders m !! channelId.

Definition heldBy (clientId : string) (m : WriteLockManager) : list string :=
  (filter (λ kv, kv.2 = clientId) (entries (holders m))).*1.

(** ** The operations as one step function *)

Inductive op :=
| Identify (clientId : string) (w : ClientWindow)
| Attach (channelId clientId : string)
| Detach (channelId clientId : string)
| Claim (channelId clientId : string)
| Grant (channelId fromClientId toClientId : string)
| Deny (channelId fromClientId toClientId : string)
| Force (channelId clientId : string)
| Release (channelId clientId : string)
| Disconnect (clientId : string)
| RemoveChannel (channelId : string)
| Shutdown
| GraceTimer (t : nat).

(** A timer that is set fires once: its callback is [_graceEnded]. One that is not does nothing. *)
Definition fireTimer (t : nat) (m : WriteLockManager) : WriteLockManager :=
  match timers m !! t with
  | Some channelId => m |> clearTimeout t |> _graceEnded channelId
  | None => m
  end.

Definition exec (m : WriteLockManager) (o : op) : WriteLockManager :=
  match o with
  | Identify c w => identify c w m
  | Attach ch c => attach ch c m
  | Detach ch c => detach ch c m
  | Claim ch c => claim ch c m
  | Grant ch from to => grant ch from to m
  | Deny ch from to => deny ch from to m
  | Force ch c => force ch c m
  | Release ch c => release ch c m
  | Disconnect c => onClientDisconnect c m
  | RemoveChannel ch => removeChannel ch m
  | Shutdown => shutdown m
  | GraceTimer t => fireTimer t m
  end.

(** A small run used to exercise the theorems: two clients, the first of a known window. *)
Definition demo_window : ClientWindow := {| tokenId := "tok"; windowId := "w1" |}.
Definition demo_ops : list op :=
  [Identify "a" demo_window; Attach "ch" "a"; Attach "ch" "b"; Claim "ch" "b"].
Definition demo : WriteLockManager := run exec init demo_ops.

(** ** The contract of one channel's lock *)

Inductive lock := Free | Held (clientId : string) | Reserved (window : string).

#[export] Instance lock_eq_dec : EqDecision lock.
Proof. solve_decision. Defined.

(** The lock of a channel as the manager's maps have it. *)
Definition lock_of (channelId : string) (m : WriteLockManager) : lock :=
  match reservations m !! channelId with
  | Some r => Reserved (window r)
  | None => match holders m !! channelId with Some c => Held c | None => Free end
  end.

Definition attachedTo (channelId : string) (m : WriteLockManager) : list string :=
  default [] (attached m !! channelId).

(** Who gets a lock nobody holds any more: the one client attached, if there is exactly one. *)
Definition handed_on (clients : list string) : lock :=
  match clients with [only] => Held only | _ => Free end.

(** Whose a lock is once its holder disconnected: another connection of its window's, or kept for
    that window; with no window known, or once the hub stopped, it is handed on. *)
Definition after_disconnect (win : option string) (stop : bool) (wins : jsmap string string)
  (clients : list string) : lock :=
  match win with
  | Some w =>
      if stop then handed_on clients
      else match list_find (λ other, wins !! other = Some w) clients with
           | Some (_, other) => Held other
           | None => Reserved w
           end
  | None => handed_on clients
  end.

(** What an operation makes of the lock [l] of [ch], in a hub whose state is [m]. *)
Definition lock_spec (m : WriteLockManager) (o : op) (ch : string) (l : lock) : lock :=
  let here ch' l' := if decide (ch' = ch) then l' else l in
  match o with
  | Identify _ _ | Deny _ _ _ => l
  | Attach ch' c => here ch'
      match l with
      | Free => Held c
      | Held h => Held h
      | Reserved w => if decide (windows m !! c = Some w) then Held c else Reserved w
      end
  | Detach ch' c => here ch'
      (if decide (l = Held c) then handed_on (set_delete c (attachedTo ch m)) else l)
  | Claim ch' c => here ch'
      match l with Held h => if truthy h then Held h else Held c | _ => Held c end
  | Grant ch' from to => here ch' (if decide (l = Held from) then Held to else l)
  | Force ch' c => here ch' (Held c)
  | Release ch' c => here ch' (if decide (l = Held c) then Free else l)
  | Disconnect c =>
      if decide (l = Held c)
      then after_disconnect (windows m !! c) (stopped m) (delete c (windows m))
             (set_delete c (attachedTo ch m))
      else l
  | RemoveChannel ch' => here ch' Free
  | Shutdown => Free
  | GraceTimer t => if decide (timers m !! t = Some ch) then handed_on (attachedTo ch m) else l
  end.

(** What every client of a channel last heard of its lock: the last WRITE_LOCK broadcast on it. *)
Definition announced (ch : string) (es : list effect) : option string * bool :=
  fold_left (λ v e,
    match e with
    | BroadcastToChannel ch' (WRITE_LOCK _ h r) => if decide (ch' = ch) then (h, r) else v
    | _ => v
    end) es (None, false).

Definition announcement (l : lock) : option string * bool :=
  match l with Free => (None, false) | Held c => (Some c, false) | Reserved _ => (None, true) end.

(** ** The invariant of the manager's maps and timers *)

Record wf (m : WriteLockManager) : Prop := {
  wf_holders : js_wf (holders m);
  wf_clients : ∀ ch clients, attached m !! ch = Some clients → NoDup clients;
  wf_exclusive : ∀ ch c, holders m !! ch = Some c → reservations m !! ch = None;
  wf_timer : ∀ ch r, reservations m !! ch = Some r → timers m !! timer r = Some ch;
  wf_live : ∀ t ch, timers m !! t = Some ch →
    ∃ r, reservations m !! ch = Some r ∧ timer r = t;
  wf_fresh : ∀ t ch, timers m !! t = Some ch → t < nextTimer m;
  wf_stopped : stopped m = true → ∀ ch, reservations m !! ch = None
}.

(** From [m] to [m'] the lock of [ch] became [l] and its clients were told so; nothing else of the
    locks, the clients, their windows or what they were told changed. *)
Record settles (ch : string) (l : lock) (m m' : WriteLockManager) : Prop := {
  settles_wf : wf m';
  settles_attached : attached m' = attached m;
  settles_windows : windows m' = windows m;
  settles_stopped : stopped m' = stopped m;
  settles_lock : ∀ ch', lock_of ch' m' = if decide (ch = ch') then l else lock_of ch' m;
  settles_announced : ∀ ch', announced ch' (effects m') =
    if decide (ch = ch') then announcement l else announced ch' (effects m)
}.

(** The operations that forget a channel without a word to its clients. *)
Definition forgets (o : op) : bool :=
  match o with RemoveChannel _ | Shutdown => true | _ => false end.

(** An operation that ends a reservation of [ch]: a claim, a force, the end of the grace, or the
    window it is kept for attaching again. *)
Definition ends_reservation (ch : string) (m : WriteLockManager) (o : op) : bool :=
  match o with
  | Claim ch' _ | Force ch' _ | RemoveChannel ch' => bool_decide (ch' = ch)
  | Shutdown => true
  | GraceTimer t => bool_decide (timers m !! t = Some ch)
  | Attach ch' c =>
      match lock_of ch m with
      | Reserved w => bool_decide (ch' = ch ∧ windows m !! c = Some w)
      | _ => false
      end
  | _ => false
  end.

(** No operation of the list ends a reservation of [ch], at the state it runs in. *)
Fixpoint undisturbed (ch : string) (m : WriteLockManager) (os : list op) : bool :=
  match os with
  | [] => true
  | o :: os' => negb (ends_reservation ch m o) && undisturbed ch (exec m o) os'
  end.

(** Reading one character of a [JSON.stringify] string back. *)
Definition hex_value (a : ascii) : nat :=
  let n := nat_of_ascii a in if n <? 58 then n - 48 else n - 87.
Definition json_unescape (l : list ascii) : option (ascii * list ascii) :=
  match l with
  | [] => None
  | a :: l' =>
      if nat_of_ascii a =? 34 then None
      else if nat_of_ascii a =? 92 then
        match l' with
        | [] => None
        | b :: l'' =>
            let n := nat_of_ascii b in
            if n =? 117 then
              match l'' with
              | _ :: _ :: h :: l :: rest => Some (ascii_of_nat (hex_value h * 16 + hex_value l), rest)
              | _ => None
              end
            else if n =? 98 then Some (ascii_of_nat 8, l'')
            else if n =? 116 then Some (ascii_of_nat 9, l'')
            else if n =? 110 then Some (ascii_of_nat 10, l'')
            else if n =? 102 then Some (ascii_of_nat 12, l'')
            else if n =? 114 then Some (ascii_of_nat 13, l'')
            else Some (b, l'')
        end
      else Some (a, l')
  end.

(** ** Preservation of the invariant, by the primitive updates *)

Section preservation.
Implicit Types (m : WriteLockManager) (ch c w : string).

Lemma wf_init : wf init.
Proof. split; try done; intros; apply js_wf_empty. Qed.

Lemma wf_emit e m : wf m → wf (emit e m).
Proof. intros []. by split. Qed.

Lemma wf_broadcast ch h r m : wf m → wf (_broadcastLock ch h r m).
Proof. intros. by apply wf_emit, wf_emit. Qed.

Lemma wf_windows f m : wf m → wf (with_windows f m).
Proof. intros []. by split. Qed.

Lemma wf_set_holder ch c m :
  wf m → reservations m !! ch = None → wf (with_holders (insert ch c) m).
Proof.
  intros [] Hr. split; simpl; auto with jsmap.
  js_solve.
Qed.

Lemma wf_delete_holder ch m : wf m → wf (with_holders (delete ch) m).
Proof.
  intros []. split; simpl; auto with jsmap.
  js_solve.
Qed.

Lemma wf_set_attached ch clients m :
  wf m → NoDup clients → wf (with_attached (insert ch clients) m).
Proof. intros [] Hnd. split; simpl; auto. js_solve. Qed.

Lemma wf_delete_attached ch m : wf m → wf (with_attached (delete ch) m).
Proof. intros []. split; simpl; auto. js_solve. Qed.

Lemma attachedTo_NoDup ch m : wf m → NoDup (attachedTo ch m).
Proof.
  intros Hm. unfold attachedTo. destruct (attached m !! ch) eqn:Ha; simpl; [|constructor].
  by eapply wf_clients.
Qed.

Lemma wf_detach_one ch c m : wf m → wf (with_attached (js_alter (set_delete c) ch) m).
Proof.
  intros []. split; simpl; auto. intros ch' cl. js_simpl. case_decide; subst; eauto.
  intros (cl' & ? & ->)%fmap_Some. eauto with jsmap.
Qed.

Lemma lookup_detach_all c (a : jsmap string (list string)) ch :
  JsMap (prod_map id (set_delete c) <$> entries a) !! ch = set_delete c <$> a !! ch.
Proof.
  destruct a as [l]. unfold lookup, jsmap_lookup. simpl.
  induction l as [|[k v] l IH]; simpl; [done|]. by case_decide.
Qed.

Lemma wf_detach_all c m :
  wf m → wf (with_attached (λ a, JsMap (prod_map id (set_delete c) <$> entries a)) m).
Proof.
  intros []. split; simpl; auto. intros ch cl. rewrite lookup_detach_all.
  intros (cl' & ? & ->)%fmap_Some. eauto with jsmap.
Qed.

Lemma end_reservation_none ch m ch' :
  reservations (_endReservation ch m) !! ch' =
    if decide (ch = ch') then None else reservations m !! ch'.
Proof. unfold _endReservation. destruct (reservations m !! ch) eqn:Hr; simpl; js_solve. Qed.

(** A reservation and its timer go together. *)
Lemma wf_end_reservation ch m : wf m → wf (_endReservation ch m).
Proof.
  intros Hm. unfold _endReservation. destruct (reservations m !! ch) as [r|] eqn:Hr; [|done].
  pose proof (wf_timer m Hm ch r Hr) as Ht. destruct Hm. split; simpl; auto.
  - js_solve.
  - intros ch' r' Hr'. js_simpl_in Hr'. case_decide; [done|].
    pose proof (wf_timer0 _ _ Hr'). js_simpl. rewrite decide_False by congruence. done.
  - intros t ch' Hl. js_simpl_in Hl. case_decide; [done|].
    destruct (wf_live0 _ _ Hl) as (r' & Hr' & <-). exists r'. js_solve.
  - js_solve.
  - js_solve.
Qed.

(** A fired timer is gone, and so is its reservation. *)
Lemma wf_fire t ch m : wf m → timers m !! t = Some ch →
  wf (with_reservations (delete ch) (clearTimeout t m)).
Proof.
  intros Hm Ht. destruct (wf_live m Hm t ch Ht) as (r & Hr & <-).
  pose proof (wf_end_reservation ch m Hm) as He. unfold _endReservation in He. by rewrite Hr in He.
Qed.

Lemma wf_reserve ch w m :
  wf m → holders m !! ch = None → reservations m !! ch = None → stopped m = false →
  wf (with_reservations (insert ch {| window := w; timer := nextTimer m |}) (setTimeout ch m)).
Proof.
  intros [] Hh Hr Hs. split; simpl; auto.
  - intros ch' c' Hc. js_simpl. case_decide; [congruence|]. eauto.
  - intros ch' r' Hr'. js_simpl_in Hr'. destruct (decide (ch = ch')); simplify_eq/=; js_simpl.
    + by rewrite decide_True.
    + pose proof (wf_timer0 _ _ Hr') as Hl. pose proof (wf_fresh0 _ _ Hl).
      rewrite decide_False; [done|lia].
  - intros t ch'. js_simpl. case_decide; intros Hl; simplify_eq.
    + eexists. by rewrite decide_True.
    + destruct (wf_live0 _ _ Hl) as (r' & Hr' & <-). exists r'.
      rewrite decide_False; [done|congruence].
  - intros t ch'. js_simpl. case_decide; [lia|]. intros Hl. pose proof (wf_fresh0 _ _ Hl). lia.
  - intros Hs'. congruence.
Qed.

Lemma wf_sole ch m :
  wf m → reservations m !! ch = None → wf (_grantToSoleAttachedClient ch m).
Proof.
  intros. unfold _grantToSoleAttachedClient. repeat case_match; auto.
  by apply wf_broadcast, wf_set_holder.
Qed.
End preservation.

Create HintDb wl.
#[local] Hint Resolve wf_emit wf_broadcast wf_windows wf_set_holder wf_delete_holder
  wf_set_attached wf_delete_attached wf_detach_one wf_detach_all wf_end_reservation
  wf_sole attachedTo_NoDup : wl.

(** ** What the primitive updates do to the locks and to what the clients were told *)

Section settling.
Implicit Types (m : WriteLockManager) (ch c w : string).

Lemma announced_snoc ch es e :
  announced ch (es ++ [e]) =
    match e with
    | BroadcastToChannel ch' (WRITE_LOCK _ h r) =>
        if decide (ch' = ch) then (h, r) else announced ch es
    | _ => announced ch es
    end.
Proof. unfold announced. by rewrite fold_left_app. Qed.

Lemma announced_broadcast ch h r m ch' :
  announced ch' (effects (_broadcastLock ch h r m)) =
    if decide (ch = ch') then (h, r) else announced ch' (effects m).
Proof. simpl. by rewrite !announced_snoc. Qed.

Lemma lock_of_cases ch m :
  wf m → (reservations m !! ch = None ∧ holders m !! ch = None ∧ lock_of ch m = Free) ∨
  (∃ c, reservations m !! ch = None ∧ holders m !! ch = Some c ∧ lock_of ch m = Held c) ∨
  (∃ r, reservations m !! ch = Some r ∧ holders m !! ch = None ∧ lock_of ch m = Reserved (window r)).
Proof.
  intros Hm. unfold lock_of.
  destruct (reservations m !! ch) as [r|] eqn:Hr, (holders m !! ch) as [c|] eqn:Hh; eauto 10.
  by rewrite (wf_exclusive m Hm _ _ Hh) in Hr.
Qed.

Lemma lock_of_Held ch c m : wf m → lock_of ch m = Held c ↔ holders m !! ch = Some c.
Proof. intros Hm. destruct (lock_of_cases ch m Hm) as [?|[?|?]]; break; split; congruence. Qed.

Lemma lock_of_Free ch m :
  lock_of ch m = Free ↔ reservations m !! ch = None ∧ holders m !! ch = None.
Proof. unfold lock_of. destruct (reservations m !! ch), (holders m !! ch); intuition congruence. Qed.

(** Granting a lock that is not reserved. *)
Lemma settles_grant ch c m :
  wf m → reservations m !! ch = None →
  settles ch (Held c) m (_broadcastLock ch (Some c) false (with_holders (insert ch c) m)).
Proof.
  intros Hm Hr. split; auto with wl; intros ch'.
  - unfold lock_of; simpl. js_solve. by rewrite Hr.
  - by rewrite announced_broadcast.
Qed.

Lemma settles_free ch m :
  wf m → reservations m !! ch = None →
  settles ch Free m (_broadcastLock ch None false (with_holders (delete ch) m)).
Proof.
  intros Hm Hr. split; auto with wl; intros ch'.
  - unfold lock_of; simpl. js_solve. by rewrite Hr.
  - by rewrite announced_broadcast.
Qed.

Lemma settles_trans ch l l' m m' m'' :
  settles ch l m m' → settles ch l' m' m'' → settles ch l' m m''.
Proof.
  intros [] []. split; try congruence; intros ch'.
  - rewrite settles_lock1, settles_lock0. by case_decide.
  - rewrite settles_announced1, settles_announced0. by case_decide.
Qed.

Lemma settles_same ch m :
  wf m → announced ch (effects m) = announcement (lock_of ch m) → settles ch (lock_of ch m) m m.
Proof. intros Hm Ha. split; auto; intros ch'; case_decide; by subst. Qed.

(** A free lock, announced as free, is handed to the one client attached. *)
Lemma settles_sole ch m :
  wf m → lock_of ch m = Free → announced ch (effects m) = (None, false) →
  settles ch (handed_on (attachedTo ch m)) m (_grantToSoleAttachedClient ch m).
Proof.
  intros Hm Hl Ha. pose proof Hl as Hl'. apply lock_of_Free in Hl' as [Hr Hh].
  assert (settles ch Free m m) as Hsame.
  { rewrite <- Hl. apply settles_same; [done|]. by rewrite Hl. }
  unfold _grantToSoleAttachedClient, js_has, attachedTo. rewrite Hh.
  destruct (attached m !! ch) as [[|only [|]]|]; simpl; auto using settles_grant.
Qed.

Lemma settles_end_reservation ch m :
  wf m → wf (_endReservation ch m) ∧ reservations (_endReservation ch m) !! ch = None ∧
  holders (_endReservation ch m) = holders m ∧ attached (_endReservation ch m) = attached m ∧
  windows (_endReservation ch m) = windows m ∧ stopped (_endReservation ch m) = stopped m ∧
  effects (_endReservation ch m) = effects m.
Proof.
  intros Hm. split_and!; auto with wl; try (unfold _endReservation; by case_match).
  rewrite end_reservation_none. by case_decide.
Qed.

(** Taking a lock, reserved or not: [claim] of a free one, [force], the window coming back. *)
Lemma settles_take ch c m :
  wf m → settles ch (Held c) m
    (_broadcastLock ch (Some c) false (with_holders (insert ch c) (_endReservation ch m))).
Proof.
  intros Hm. destruct (settles_end_reservation ch m Hm) as (? & Hn & Hh & Ha & Hw & Hs & He).
  pose proof (settles_grant ch c (_endReservation ch m)) as [] ; auto.
  split; simpl in *; try congruence.
  - intros ch'. rewrite settles_lock0. case_decide as Hd; [done|].
    unfold lock_of. rewrite end_reservation_none, Hh. by rewrite decide_False.
  - intros ch'. by rewrite settles_announced0, He.
Qed.

Lemma settles_keep ch w m :
  wf m → lock_of ch m = Free → stopped m = false →
  settles ch (after_disconnect (Some w) false (windows m) (attachedTo ch m)) m (_keepFor ch w m).
Proof.
  intros Hm [Hr Hh]%lock_of_Free Hs. unfold _keepFor, after_disconnect, attachedTo.
  destruct (list_find _ _) as [[i other]|] eqn:Hf; [by apply settles_grant|].
  split; simpl; auto.
  - apply wf_broadcast. by apply wf_reserve.
  - intros ch'. unfold lock_of; simpl. js_solve.
  - intros ch'. by rewrite !announced_snoc.
Qed.

Lemma settles_hand_on ch m :
  wf m → lock_of ch m = Free →
  settles ch (handed_on (attachedTo ch m)) m
    (_grantToSoleAttachedClient ch (_broadcastLock ch None false m)).
Proof.
  intros Hm Hl. eapply (settles_trans ch Free _ m (_broadcastLock ch None false m)).
  - split; simpl; auto with wl; intros ch'.
    + unfold lock_of in *; simpl. case_decide; by subst.
    + by rewrite !announced_snoc.
  - apply (settles_sole ch (_broadcastLock ch None false m)); auto with wl.
    rewrite announced_broadcast. by rewrite decide_True.
Qed.

Lemma settles_after_leaving win ch m :
  wf m → lock_of ch m = Free →
  settles ch (after_disconnect win (stopped m) (windows m) (attachedTo ch m)) m
    (after_leaving win ch m).
Proof.
  intros Hm Hl. unfold after_leaving. destruct win as [w|]; simpl; [|by apply settles_hand_on].
  destruct (stopped m) eqn:Hs; [by apply settles_hand_on|by apply settles_keep].
Qed.

(** The last loop of [onClientDisconnect], over distinct free channels. *)
Lemma after_leaving_loop win freed m :
  wf m → NoDup freed → (∀ ch, ch ∈ freed → lock_of ch m = Free) →
  let m' := fold_left (λ m ch, after_leaving win ch m) freed m in
  wf m' ∧
  (∀ ch, ch ∈ freed →
     lock_of ch m' = after_disconnect win (stopped m) (windows m) (attachedTo ch m) ∧
     announced ch (effects m') = announcement (lock_of ch m')) ∧
  (∀ ch, ch ∉ freed →
     lock_of ch m' = lock_of ch m ∧ announced ch (effects m') = announced ch (effects m)).
Proof.
  revert m. induction freed as [|ch0 freed IH]; intros m Hm Hnd Hfree m'.
  { split_and!; [done| |done]. by intros ch ?%not_elem_of_nil. }
  apply NoDup_cons in Hnd as [Hnin Hnd].
  destruct (settles_after_leaving win ch0 m Hm) as [Hwf Ha Hw Hs Hlock Hann];
    [apply Hfree; by left|].
  set (m1 := after_leaving win ch0 m) in *.
  destruct (IH m1 Hwf Hnd) as (Hwf' & Hin & Hout).
  { intros ch Hch. rewrite Hlock, decide_False by congruence. apply Hfree. by right. }
  change (fold_left _ freed m1) with m' in Hwf', Hin, Hout.
  unfold attachedTo in *. rewrite Ha, Hw, Hs in Hin.
  split_and!; [done|..]; intros ch; rewrite ?not_elem_of_cons, ?elem_of_cons.
  - intros [->|Hch]; [|by apply Hin].
    destruct (Hout ch0 Hnin) as [-> ->]. rewrite Hlock, Hann, !decide_True by done. done.
  - intros [Hne Hch]. destruct (Hout ch Hch) as [-> ->].
    rewrite Hlock, Hann, !decide_False by congruence. done.
Qed.

(** The first loop of [onClientDisconnect], over any list of entries. *)
Lemma free_held_loop c l m freed :
  let r := fold_left (free_one c) l (m, freed) in
  let gone := (filter (λ kv, kv.2 = c) l).*1 in
  r.2 = freed ++ gone ∧ r.1 = with_holders (λ _, holders r.1) m ∧
  (js_wf (holders m) → js_wf (holders r.1)) ∧
  ∀ ch, holders r.1 !! ch = if decide (ch ∈ gone) then None else holders m !! ch.
Proof.
  revert m freed. induction l as [|[ch h] l IH]; intros m freed r gone.
  { subst r gone. cbn. rewrite app_nil_r. split_and!; [done|by destruct m|done|]. intros ch.
    rewrite decide_False; [done|apply not_elem_of_nil]. }
  assert (gone = if decide (h = c) then ch :: (filter (λ kv, kv.2 = c) l).*1
                 else (filter (λ kv, kv.2 = c) l).*1) as ->.
  { subst gone. rewrite filter_cons. simpl. by case_decide. }
  subst r. cbn [fold_left free_one].
  destruct (decide (h = c)) as [->|Hne]; [|apply IH].
  destruct (IH (m |> with_holders (delete ch)) (freed ++ [ch])) as (H1 & H2 & H3 & H4).
  rewrite H1. split_and!; [by rewrite <- app_assoc|by rewrite H2| |].
  { intros. by apply H3, js_wf_delete. }
  intros ch'. rewrite H4. simpl. js_simpl.
  destruct (decide (ch' ∈ ch :: _)) as [Hin|Hnin].
  - apply elem_of_cons in Hin as [->|Hin]; repeat case_decide; congruence.
  - apply not_elem_of_cons in Hnin as [? ?]. by rewrite !decide_False by congruence.
Qed.

Lemma free_held_spec c m :
  js_wf (holders m) →
  let '(m', freed) := free_held c m in
  m' = with_holders (λ _, holders m') m ∧ js_wf (holders m') ∧
  (∀ ch, holders m' !! ch = if decide (holders m !! ch = Some c) then None else holders m !! ch) ∧
  NoDup freed ∧ ∀ ch, ch ∈ freed ↔ holders m !! ch = Some c.
Proof.
  intros Hm. pose proof (free_held_loop c (entries (holders m)) m []) as Hloop.
  unfold free_held. destruct (fold_left _ _ _) as [m' freed]. simpl in Hloop.
  destruct Hloop as (-> & Heq & Hwf & Hlook).
  assert (∀ ch, ch ∈ (filter (λ kv, kv.2 = c) (entries (holders m))).*1 ↔ holders m !! ch = Some c)
    as Hiff.
  { intros ch. rewrite list_elem_of_fmap. split.
    - intros ([ch' c'] & -> & [Hc Hin]%list_elem_of_filter). simpl in *. subst.
      by apply js_elem_lookup.
    - intros Hl%js_lookup_elem. exists (ch, c). by rewrite list_elem_of_filter. }
  split_and!; [done|auto| |by apply NoDup_fmap_filter|done].
  intros ch. rewrite Hlook. destruct (decide (ch ∈ _)) as [Hi|Hi]; rewrite Hiff in Hi; by case_decide.
Qed.
End settling.

(** ** Every operation conforms to the contract *)

(** What the invariant, the contract and the announcements say of one step. *)
Definition conforms (m : WriteLockManager) (o : op) (m' : WriteLockManager) : Prop :=
  wf m' ∧ ∀ ch,
    lock_of ch m' = lock_spec m o ch (lock_of ch m) ∧
    (forgets o = false → announced ch (effects m) = announcement (lock_of ch m) →
     announced ch (effects m') = announcement (lock_of ch m')).

Section conformance.
Implicit Types (m : WriteLockManager) (ch c w : string).

(** An operation on [ch0] that starts by an update [m1] the locks do not depend on. *)
Lemma settles_conforms ch0 l o m m1 m' :
  settles ch0 l m1 m' →
  (∀ ch, lock_of ch m1 = lock_of ch m ∧ announced ch (effects m1) = announced ch (effects m)) →
  (∀ ch, lock_spec m o ch (lock_of ch m) = if decide (ch0 = ch) then l else lock_of ch m) →
  conforms m o m'.
Proof.
  intros [] Hm1 Hspec. split; [done|]. intros ch. destruct (Hm1 ch) as [Hl Ha].
  rewrite Hspec, settles_lock0, settles_announced0, Hl, Ha. split; [done|].
  by case_decide.
Qed.

Lemma unchanged_conforms o m m' :
  wf m' →
  (∀ ch, lock_of ch m' = lock_of ch m ∧ announced ch (effects m') = announced ch (effects m)) →
  (∀ ch, lock_spec m o ch (lock_of ch m) = lock_of ch m) →
  conforms m o m'.
Proof.
  intros Hwf Hm' Hspec. split; [done|]. intros ch. destruct (Hm' ch) as [-> ->]. by rewrite Hspec.
Qed.

(** The effects that say nothing of a lock. *)
Lemma emit_same e m :
  match e with BroadcastToChannel _ _ => False | _ => True end →
  ∀ ch, lock_of ch (emit e m) = lock_of ch m ∧
        announced ch (effects (emit e m)) = announced ch (effects m).
Proof. intros He ch. split; [done|]. simpl. rewrite announced_snoc. by destruct e. Qed.

Lemma wf_add_client ch c m :
  wf m → wf (with_attached (insert ch (set_add c (default [] (attached m !! ch)))) m).
Proof. intros Hm. apply wf_set_attached; [done|]. apply NoDup_set_add. by apply attachedTo_NoDup. Qed.

Lemma attach_conforms ch c m : wf m → conforms m (Attach ch c) (attach ch c m).
Proof.
  intros Hm. unfold attach.
  set (m1 := with_attached _ m). assert (wf m1) as Hm1 by by apply wf_add_client.
  destruct (lock_of_cases ch m Hm) as [(Hr & Hh & Hl)|[(h & Hr & Hh & Hl)|(r & Hr & Hh & Hl)]];
    change (reservations m1) with (reservations m); change (holders m1) with (holders m);
    change (windows m1) with (windows m); rewrite Hr, ?Hh.
  - apply (settles_conforms ch (Held c) _ m m1); [by apply settles_grant|done|].
    intros ch'; simpl. case_decide; [subst; by rewrite Hl|done].
  - apply unchanged_conforms; [by apply wf_emit| |].
    + intros ch'. by apply (emit_same (SendToClient _ _) m1).
    + intros ch'. simpl. case_decide; [subst; by rewrite Hl|done].
  - destruct (decide (windows m !! c = Some (window r))) as [Hw|Hw].
    + apply (settles_conforms ch (Held c) _ m m1); [by apply settles_take|done|].
      intros ch'; simpl. case_decide; [subst; by rewrite Hl, decide_True|done].
    + apply unchanged_conforms; [by apply wf_emit| |].
      * intros ch'. by apply (emit_same (SendToClient _ _) m1).
      * intros ch'. simpl. case_decide; [subst; by rewrite Hl, decide_False|done].
Qed.

Lemma attachedTo_detach_one ch c m :
  attachedTo ch (with_attached (js_alter (set_delete c) ch) m) = set_delete c (attachedTo ch m).
Proof. unfold attachedTo. simpl. js_simpl. rewrite decide_True by done. by destruct (attached m !! ch). Qed.

Lemma detach_conforms ch c m : wf m → conforms m (Detach ch c) (detach ch c m).
Proof.
  intros Hm. unfold detach. set (m1 := with_attached _ m).
  assert (wf m1) as Hm1 by by apply wf_detach_one.
  change (holders m1) with (holders m).
  destruct (decide (holders m !! ch = Some c)) as [Hh|Hh]; rewrite <- lock_of_Held in Hh by done.
  - pose proof Hh as Hr. rewrite lock_of_Held in Hr by done.
    pose proof (settles_free ch m1 Hm1 (wf_exclusive m Hm ch c Hr)) as Hfree.
    eapply (settles_conforms ch _ _ m m1); [eapply settles_trans; [exact Hfree|]|done|].
    + apply settles_sole; [apply Hfree|..].
      * by rewrite (settles_lock _ _ _ _ Hfree), decide_True.
      * by rewrite (settles_announced _ _ _ _ Hfree), decide_True.
    + intros ch'; simpl. case_decide; [subst|done]. rewrite decide_True by done.
      f_equal. symmetry. apply attachedTo_detach_one.
  - apply unchanged_conforms; [done..|].
    intros ch'; simpl. case_decide; [subst|done]. by rewrite decide_False.
Qed.

Lemma current_holder_lock ch m :
  wf m → current_holder ch m = match lock_of ch m with
                               | Held h => if truthy h then Some h else None
                               | _ => None
                               end.
Proof.
  intros Hm. unfold current_holder.
  by destruct (lock_of_cases ch m Hm) as [(?&->&->)|[(h&?&->&->)|(r&?&->&->)]].
Qed.

Lemma claim_conforms ch c m : wf m → conforms m (Claim ch c) (claim ch c m).
Proof.
  intros Hm. unfold claim. rewrite current_holder_lock by done.
  destruct (match lock_of ch m with Held h => truthy h | _ => false end) eqn:Hb.
  - destruct (lock_of ch m) as [|h|] eqn:Hl; [done| |done]. rewrite Hb.
    apply unchanged_conforms.
    + case_decide; auto with wl.
    + intros ch'. case_decide; [done|]. by apply (emit_same (SendToClient _ _) m).
    + intros ch'; simpl. case_decide; [subst|done]. by rewrite Hl, Hb.
  - assert (match lock_of ch m with
            | Held h => if truthy h then Some h else None | _ => None end = None) as ->.
    { destruct (lock_of ch m); [done| |done]. by rewrite Hb. }
    apply (settles_conforms ch (Held c) _ m m); [by apply settles_take|done|].
    intros ch'; simpl. case_decide; [subst|done].
    destruct (lock_of ch' m); [done| |done]. by rewrite Hb.
Qed.

Lemma verify_holder ch c m :
  wf m → _verifyHolder ch c m = bool_decide (lock_of ch m = Held c).
Proof. intros Hm. apply bool_decide_ext. symmetry. by apply lock_of_Held. Qed.

(** [grant] and [release]: the holder gives the lock up, to [l]. *)
Lemma by_holder_conforms ch c l o m m' :
  wf m → (lock_of ch m = Held c → settles ch l m m') →
  (∀ ch', lock_spec m o ch' (lock_of ch' m) =
     if decide (ch = ch') then if decide (lock_of ch' m = Held c) then l else lock_of ch' m
     else lock_of ch' m) →
  conforms m o (if _verifyHolder ch c m then m' else m).
Proof.
  intros Hm Hs Hspec. rewrite verify_holder by done. case_bool_decide as Hl.
  - apply (settles_conforms ch l _ m m); [auto|done|].
    intros ch'. rewrite Hspec. case_decide; [subst|done]. by rewrite decide_True.
  - apply unchanged_conforms; [done..|].
    intros ch'. rewrite Hspec. case_decide; [subst|done]. by rewrite decide_False.
Qed.

Lemma held_not_reserved ch c m : wf m → lock_of ch m = Held c → reservations m !! ch = None.
Proof. intros Hm Hl. rewrite lock_of_Held in Hl by done. by eapply wf_exclusive. Qed.

Lemma grant_conforms ch from to m : wf m → conforms m (Grant ch from to) (grant ch from to m).
Proof.
  intros Hm. apply (by_holder_conforms ch from (Held to)); [done| |done].
  intros Hl. apply settles_grant; [done|]. by eapply held_not_reserved.
Qed.

Lemma release_conforms ch c m : wf m → conforms m (Release ch c) (release ch c m).
Proof.
  intros Hm. apply (by_holder_conforms ch c Free); [done| |done].
  intros Hl. apply settles_free; [done|]. by eapply held_not_reserved.
Qed.

Lemma deny_conforms ch from to m : wf m → conforms m (Deny ch from to) (deny ch from to m).
Proof.
  intros Hm. unfold deny. apply unchanged_conforms; [|intros ch'|done].
  - case_match; auto with wl.
  - case_match; [by apply (emit_same (SendToClient _ _) m)|done].
Qed.

Lemma force_conforms ch c m : wf m → conforms m (Force ch c) (force ch c m).
Proof.
  intros Hm. unfold force.
  set (m1 := match current_holder ch m with Some _ => _ | None => _ end).
  assert (wf m1 ∧ ∀ ch', lock_of ch' m1 = lock_of ch' m ∧
            announced ch' (effects m1) = announced ch' (effects m)) as [Hm1 Hsame].
  { subst m1. case_match; [case_decide|]; (split; [auto with wl|]); intros ch'; [done| |done].
    split; [done|]. simpl. by rewrite !announced_snoc. }
  apply (settles_conforms ch (Held c) _ m m1); [by apply settles_take|done|done].
Qed.

Lemma identify_conforms c (w : ClientWindow) m : wf m → conforms m (Identify c w) (identify c w m).
Proof. intros Hm. by apply unchanged_conforms; [by apply wf_windows|..]. Qed.

Lemma removeChannel_conforms ch m : wf m → conforms m (RemoveChannel ch) (removeChannel ch m).
Proof.
  intros Hm. destruct (settles_end_reservation ch m Hm) as (? & Hn & Hh & _).
  split; [by apply wf_delete_attached, wf_delete_holder|]. intros ch'. split; [|done].
  unfold removeChannel, lock_of at 1. simpl. rewrite end_reservation_none, Hh. js_simpl.
  by case_decide.
Qed.

(** [shutdown] clears the timer of every reservation, and there is no other timer. *)
Lemma delete_timers l (ts : jsmap nat string) t :
  fold_left (λ ts r, delete (timer r) ts) l ts !! t =
    if decide (t ∈ timer <$> l) then None else ts !! t.
Proof.
  revert ts. induction l as [|r l IH]; intros ts; [done|].
  cbn [fold_left]. rewrite fmap_cons, IH. js_simpl.
  destruct (decide (t ∈ timer r :: _)) as [Hin|Hnin].
  - apply elem_of_cons in Hin as [->|?]; by repeat case_decide.
  - apply not_elem_of_cons in Hnin as [? ?]. by rewrite !decide_False by congruence.
Qed.

Lemma shutdown_timers m t : wf m → timers (shutdown m) !! t = None.
Proof.
  intros Hm. unfold shutdown. simpl. rewrite delete_timers. case_decide as Hin; [done|].
  destruct (timers m !! t) as [ch|] eqn:Ht; [|done]. exfalso. apply Hin.
  destruct (wf_live m Hm t ch Ht) as (r & Hr%js_lookup_elem & <-).
  apply list_elem_of_fmap. exists r. split; [done|].
  apply list_elem_of_fmap. by exists (ch, r).
Qed.

Lemma shutdown_conforms m : wf m → conforms m Shutdown (shutdown m).
Proof.
  intros Hm. split; [|by intros ch].
  split; try done; [apply js_wf_empty| |].
  all: intros t ch Ht; by rewrite (shutdown_timers m t Hm) in Ht.
Qed.

Lemma fireTimer_conforms t m : wf m → conforms m (GraceTimer t) (fireTimer t m).
Proof.
  intros Hm. unfold fireTimer. destruct (timers m !! t) as [ch|] eqn:Ht.
  - pose proof (wf_fire t ch m Hm Ht) as Hm1. unfold _graceEnded.
    set (m1 := with_reservations _ _) in *.
    destruct (wf_live m Hm t ch Ht) as (r & Hr & _).
    assert (lock_of ch m1 = Free) as Hfree.
    { apply lock_of_Free. split; simpl; [js_solve|].
      destruct (holders m !! ch) as [c|] eqn:Hh; [|done].
      by rewrite (wf_exclusive m Hm _ _ Hh) in Hr. }
    destruct (settles_hand_on ch m1 Hm1 Hfree) as [Hwf _ _ _ Hlock Hann].
    split; [done|]. intros ch'. rewrite Hlock, Hann. simpl. rewrite Ht.
    destruct (decide (ch = ch')) as [->|Hne]; [by rewrite decide_True|].
    rewrite decide_False by congruence.
    assert (lock_of ch' m1 = lock_of ch' m) as -> by (unfold lock_of; simpl; js_solve).
    done.
  - apply unchanged_conforms; [done..|]. intros ch. simpl. by rewrite Ht.
Qed.

Lemma disconnect_conforms c m : wf m → conforms m (Disconnect c) (onClientDisconnect c m).
Proof.
  intros Hm. unfold onClientDisconnect.
  pose proof (free_held_spec c (with_windows (delete c) m) (wf_holders m Hm)) as Hfree.
  destruct (free_held c _) as [m1 freed]. destruct Hfree as (Heq & Hwfh & Hlook & Hnd & Hin).
  simpl in Hlook, Hin. set (m2 := with_attached _ m1).
  assert (holders m2 = holders m1 ∧ reservations m2 = reservations m ∧ stopped m2 = stopped m ∧
          windows m2 = delete c (windows m) ∧ effects m2 = effects m ∧
          ∀ ch, attachedTo ch m2 = set_delete c (attachedTo ch m)) as (Eh & Er & Es & Ew & Ee & Ea).
  { subst m2. rewrite Heq. split_and!; try done. intros ch. unfold attachedTo. simpl.
    rewrite lookup_detach_all. by destruct (attached m !! ch). }
  assert (wf m2) as Hm2.
  { apply wf_detach_all. rewrite Heq. destruct Hm. split; simpl; try done.
    intros ch c'. rewrite Hlook. case_decide; [done|]. apply wf_exclusive0. }
  assert (∀ ch, lock_of ch m2 = if decide (lock_of ch m = Held c) then Free else lock_of ch m)
    as Hlock2.
  { intros ch. unfold lock_of. rewrite Er, Eh, Hlook. destruct (reservations m !! ch); [done|].
    by destruct (holders m !! ch); simpl; repeat case_decide; simplify_eq. }
  assert (∀ ch, ch ∈ freed ↔ lock_of ch m = Held c) as Hfreed.
  { intros ch. by rewrite Hin, lock_of_Held. }
  destruct (after_leaving_loop (windows m !! c) freed m2 Hm2 Hnd) as (Hwf & Hkept & Hother).
  { intros ch Hch%Hfreed. by rewrite Hlock2, decide_True. }
  split; [done|]. intros ch. simpl. rewrite <- Es, <- Ew, <- Ea.
  case_decide as Hl.
  - destruct (Hkept ch) as [-> ?]; [by apply Hfreed|]. done.
  - destruct (Hother ch) as [-> ->]; [by rewrite Hfreed|].
    rewrite Hlock2, decide_False by done. by rewrite Ee.
Qed.

Lemma exec_conforms m o : wf m → conforms m o (exec m o).
Proof.
  intros Hm. destruct o; simpl.
  all: auto using identify_conforms, attach_conforms, detach_conforms, claim_conforms,
    grant_conforms, deny_conforms, force_conforms, release_conforms, disconnect_conforms,
    removeChannel_conforms, shutdown_conforms, fireTimer_conforms.
Qed.

Lemma lock_reachable_wf m : reachable init exec m → wf m.
Proof.
  apply reachable_invariant; [apply wf_init|]. intros m' o Hm'. by apply exec_conforms.
Qed.
End conformance.

(** ** Window keys *)

Section window_keys.

Lemma json_unescape_escape c rest : json_unescape (json_escape c ++ rest) = Some (c, rest).
Proof. destruct c as [[] [] [] [] [] [] [] []]; reflexivity. Qed.

(** The quoted string is found again in front of anything. *)
Lemma json_chars_inj (l1 l2 : list ascii) r1 r2 :
  (l1 ≫= json_escape) ++ [ascii_of_nat 34] ++ r1 = (l2 ≫= json_escape) ++ [ascii_of_nat 34] ++ r2 →
  l1 = l2 ∧ r1 = r2.
Proof.
  revert l2. induction l1 as [|c l1 IH]; intros [|c' l2]; cbn [mbind list_bind].
  - simpl. intros H. by simplify_eq.
  - rewrite <- app_assoc. intros H. apply (f_equal json_unescape) in H.
    rewrite json_unescape_escape in H. discriminate.
  - rewrite <- app_assoc. intros H. apply (f_equal json_unescape) in H.
    rewrite json_unescape_escape in H. discriminate.
  - rewrite <- !app_assoc. intros H. apply (f_equal json_unescape) in H.
    rewrite !json_unescape_escape in H. injection H as -> H.
    destruct (IH l2 H) as [-> ->]. done.
Qed.

Lemma json_string_inj s1 s2 r1 r2 :
  json_string s1 ++ r1 = json_string s2 ++ r2 → s1 = s2 ∧ r1 = r2.
Proof.
  unfold json_string. rewrite <- !app_assoc. intros [= H].
  destruct (json_chars_inj _ _ _ _ H) as [Hs ->]. split; [|done].
  rewrite <- (String.string_of_list_ascii_of_string s1), Hs. apply String.string_of_list_ascii_of_string.
Qed.

(** Two windows have the same key only if they are the same window under the same token: neither
    two windows that share a token nor two tokens naming the same window id are confused, whatever
    characters the ids hold. *)
Theorem windowKey_inj w1 w2 : windowKey w1 = windowKey w2 ↔ w1 = w2.
Proof.
  split; [|by intros ->]. unfold windowKey. intros H.
  apply (f_equal String.list_ascii_of_string) in H.
  rewrite !String.list_ascii_of_string_of_list_ascii in H. destruct w1 as [t1 i1], w2 as [t2 i2].
  apply (f_equal (@tail ascii)) in H. cbn [app tail tokenId windowId] in H.
  apply json_string_inj in H as [-> H]. apply (f_equal (@tail ascii)) in H.
  cbn [tail] in H. by apply json_string_inj in H as [-> _].
Qed.
End window_keys.

(** ** The properties *)

(** C1 Refinement: in every reachable state each operation (attach, detach, claim, grant, deny,
    force, release, disconnect, channel removal, shutdown, a grace timer firing) does to the lock
    of every channel exactly what the contract [lock_spec] says, and nothing to the others. *)
Theorem write_lock_refines m o ch :
  reachable init exec m → lock_of ch (exec m o) = lock_spec m o ch (lock_of ch m).
Proof. intros Hm%lock_reachable_wf. by apply exec_conforms. Qed.

Lemma write_lock_refines_witness :
  lock_of "ch" (exec demo (Disconnect "a")) = Reserved (windowKey demo_window).
Proof.
  transitivity (lock_spec demo (Disconnect "a") "ch" (lock_of "ch" demo)); [|reflexivity].
  apply (write_lock_refines demo (Disconnect "a") "ch"). apply run_reachable. constructor.
Defined.

(** What the clients were last told is the truth: after any operations other than the removal of
    a channel and the shutdown, the last WRITE_LOCK broadcast on a channel names its holder, and is
    marked reserved exactly while the lock is kept for a window. *)
Theorem write_lock_announced os ch :
  Forall (λ o, forgets o = false) os →
  let m := run exec init os in announced ch (effects m) = announcement (lock_of ch m).
Proof.
  intros Hos. apply (run_invariant exec (λ o, forgets o = false)
    (λ m, wf m ∧ announced ch (effects m) = announcement (lock_of ch m))); [|done|].
  - intros m o Ho [Hm Ha]. destruct (exec_conforms m o Hm) as [Hwf Hch].
    split; [done|]. by apply (Hch ch).
  - split; [apply wf_init|done].
Qed.

Lemma write_lock_announced_witness :
  announced "ch" (effects (run exec init demo_ops)) = (Some "a", false).
Proof.
  transitivity (announcement (lock_of "ch" (run exec init demo_ops))); [|reflexivity].
  apply (write_lock_announced demo_ops "ch"). repeat constructor.
Defined.

(** The invariant of the locks: a lock is never held and reserved at once; every reservation has
    its own running grace timer and every running timer its reservation, so a timer never ends
    another client's claim; a stopped hub keeps no lock; and while a lock is held the holder is
    the only client whose input is taken, while it is reserved no client's is. *)
Theorem write_lock_invariant m ch :
  reachable init exec m →
  (∀ c, getHolder ch m = Some c → reservations m !! ch = None) ∧
  (∀ r, reservations m !! ch = Some r → timers m !! timer r = Some ch) ∧
  (∀ t, timers m !! t = Some ch → ∃ r, reservations m !! ch = Some r ∧ timer r = t) ∧
  (stopped m = true → reservations m !! ch = None) ∧
  (∀ c, isWriteLockHolder ch c m = bool_decide (lock_of ch m = Free ∨ lock_of ch m = Held c)).
Proof.
  intros Hm%lock_reachable_wf. split_and!; [by apply wf_exclusive|by apply wf_timer| | |].
  { intros t. by apply wf_live. }
  { intros Hs. by apply wf_stopped. }
  intros c. unfold isWriteLockHolder, js_has.
  destruct (lock_of_cases ch m Hm) as [(Hr & Hh & Hl)|[(h & Hr & Hh & Hl)|(r & Hr & Hh & Hl)]];
    rewrite Hr, ?Hh, Hl.
  - rewrite bool_decide_true; [done|by left].
  - apply bool_decide_ext. split; [intros ->; by right|intros [?|?]; congruence].
  - rewrite bool_decide_false; [done|intros [?|?]; congruence].
Qed.

Lemma write_lock_invariant_witness :
  isWriteLockHolder "ch" "b" demo = bool_decide (lock_of "ch" demo = Free ∨ lock_of "ch" demo = Held "b").
Proof.
  assert (reachable init exec demo) as Hr by (apply run_reachable; constructor).
  apply (write_lock_invariant demo "ch" Hr).
Defined.

Lemma reserved_undisturbed ch w os m :
  wf m → lock_of ch m = Reserved w → undisturbed ch m os = true →
  wf (run exec m os) ∧ lock_of ch (run exec m os) = Reserved w.
Proof.
  revert m. induction os as [|o os IH]; intros m Hm Hl; [done|].
  cbn [undisturbed]. intros [Ho Hos]%andb_prop. destruct (exec_conforms m o Hm) as [Hwf Hch].
  apply IH; [done| |done]. destruct (Hch ch) as [-> _]. rewrite Hl.
  destruct o; simpl in *; repeat case_decide; simplify_eq/=; try done.
  all: rewrite ?Hl, ?bool_decide_true in Ho by done; done.
Qed.

Lemma after_disconnect_reserved w wins clients :
  Forall (λ other, wins !! other ≠ Some w) clients →
  after_disconnect (Some w) false wins clients = Reserved w.
Proof.
  intros Hall. simpl.
  destruct (list_find (λ other, wins !! other = Some w) clients) as [[i other]|] eqn:Hf; [|done].
  apply list_find_Some in Hf as (Hin%list_elem_of_lookup_2 & Hf & _).
  rewrite Forall_forall in Hall. by destruct (Hall other Hin).
Qed.

(** C27 A reload gets its lock back: when the client holding a lock disconnects from a running hub
    and no other connection of its window is attached, then whatever the other clients do (short of
    a claim, a force, the channel's removal, the shutdown or the end of the grace), the next
    connection that names the same window holds the lock as soon as it attaches. *)
Theorem reload_keeps_lock m ch old new win os :
  reachable init exec m →
  lock_of ch m = Held old → windows m !! old = Some (windowKey win) → stopped m = false →
  Forall (λ other, windows m !! other ≠ Some (windowKey win)) (set_delete old (attachedTo ch m)) →
  undisturbed ch (exec m (Disconnect old)) os = true →
  let m' := run exec m (Disconnect old :: os ++ [Identify new win; Attach ch new]) in
  lock_of ch m' = Held new ∧ isHolder ch new m' = true.
Proof.
  intros Hm%lock_reachable_wf Hl Hw Hs Hothers Hos m'.
  destruct (exec_conforms m (Disconnect old) Hm) as [Hm1 Hc].
  assert (lock_of ch (exec m (Disconnect old)) = Reserved (windowKey win)) as Hres.
  { destruct (Hc ch) as [-> _]. simpl. rewrite decide_True, Hw, Hs by done.
    apply after_disconnect_reserved. rewrite Forall_forall in Hothers |- *.
    intros other Hin. rewrite js_lookup_delete_ne; [by apply Hothers|].
    by apply elem_of_set_delete in Hin as [? _]. }
  destruct (reserved_undisturbed ch _ os _ Hm1 Hres Hos) as [Hm2 Hl2].
  assert (wf m' ∧ lock_of ch m' = Held new) as [Hm' Hnew].
  { subst m'. cbn [run fold_left]. rewrite fold_left_app. cbn [fold_left].
    change (fold_left exec os (exec m (Disconnect old))) with (run exec (exec m (Disconnect old)) os).
    set (m2 := run _ _ _) in *. destruct (exec_conforms m2 (Identify new win) Hm2) as [Hm3 _].
    destruct (exec_conforms _ (Attach ch new) Hm3) as [Hm4 Ha]. split; [done|].
    destruct (Ha ch) as [-> _]. simpl. rewrite decide_True by done.
    change (lock_of ch (identify new win m2)) with (lock_of ch m2). rewrite Hl2.
    by rewrite decide_True by (simpl; js_solve). }
  split; [done|]. apply bool_decide_true. by apply lock_of_Held.
Qed.

Lemma reload_keeps_lock_witness :
  lock_of "ch" (run exec demo (Disconnect "a" :: [Detach "ch" "b"; Attach "ch" "c"] ++
    [Identify "a2" demo_window; Attach "ch" "a2"])) = Held "a2".
Proof.
  apply (reload_keeps_lock demo "ch" "a" "a2" demo_window [Detach "ch" "b"; Attach "ch" "c"]).
  - apply run_reachable. constructor.
  - reflexivity.
  - reflexivity.
  - reflexivity.
  - repeat constructor; discriminate.
  - reflexivity.
Defined.
