(* ===== verification/Codec.v ===== *)
(** * The wire codec ([packages/shared/src/codec.ts], [packages/shared/src/utils.ts])

    Messages are MessagePack maps whose keys are snake_case on the wire and camelCase in the
    program. The conversion of keys is modelled here; MessagePack itself is a third-party package
    and comes in through the class [MsgPack], whose one law is its documented round trip on the
    values it represents. *)

From Stdlib Require Import Ascii.
From Stdlib.Strings Require Import Byte.
From S2P Require Import Prelude JsMap.
#[local] Open Scope lasterm_scope.

(** ** JavaScript values, as the codec tells them apart

    A plain object is the list of its own entries; numbers are opaque to the codec. Protocol keys
    are never integer-like, so entries stay in insertion order. *)

Inductive value :=
| VUndefined
| VNull
| VBool (b : bool)
| VNumber (n : Z)
| VString (s : string)
| VBytes (bs : list byte)
| VArray (vs : list value)
| VObject (fields : list (string * value)).

(** [isPlainObject] *)
Definition isPlainObject (v : value) : bool :=
  match v with VObject _ => true | _ => false end.

(** ** Keys *)

Definition is_upper (c : ascii) : bool := let n := nat_of_ascii c in (65 <=? n) && (n <=? 90).
Definition is_lower (c : ascii) : bool := let n := nat_of_ascii c in (97 <=? n) && (n <=? 122).
Definition to_lower (c : ascii) : ascii := ascii_of_nat (nat_of_ascii c + 32).
Definition to_upper (c : ascii) : ascii := ascii_of_nat (nat_of_ascii c - 32).
Definition is_underscore (c : ascii) : bool := nat_of_ascii c =? 95.

(** [key.replace(/([A-Z])/g, ...)] *)
Fixpoint camelToSnake (key : string) : string :=
  match key with
  | EmptyString => EmptyString
  | String c key' =>
      if is_upper c then String (ascii_of_nat 95) (String (to_lower c) (camelToSnake key'))
      else String c (camelToSnake key')
  end.

(** [key.replace(/_([a-z])/g, ...)] *)
Fixpoint snakeToCamel (key : string) : string :=
  match key with
  | EmptyString => EmptyString
  | String c key' =>
      match key' with
      | String d key'' =>
          if is_underscore c && is_lower d then String (to_upper d) (snakeToCamel key'')
          else String c (snakeToCamel key')
      | EmptyString => String c EmptyString
      end
  end.

(** [RAW_VALUE_KEYS.has(key)] *)
Definition RAW_VALUE_KEYS : list string := ["env"].
Definition is_raw (key : string) : bool := set_has key RAW_VALUE_KEYS.

(** ** Values *)

Fixpoint toSnakeCase (v : value) (rawValue : bool) {struct v} : value :=
  match v with
  | VArray vs => VArray (map (λ v, toSnakeCase v false) vs)
  | VObject fields =>
      if rawValue then v
      else VObject (fold_left (λ out kv,
             let snakeKey := camelToSnake kv.1 in
             assoc_set snakeKey (toSnakeCase kv.2 (is_raw snakeKey)) out) fields [])
  | _ => v
  end.

Fixpoint toCamelCase (v : value) (rawValue : bool) {struct v} : value :=
  match v with
  | VArray vs => VArray (map (λ v, toCamelCase v false) vs)
  | VObject fields =>
      if rawValue then v
      else VObject (fold_left (λ out kv,
             let camelKey := snakeToCamel kv.1 in
             assoc_set camelKey (toCamelCase kv.2 (is_raw kv.1)) out) fields [])
  | _ => v
  end.

(** ** MessagePack, and the codec over it *)

(** [encode]/[decode] of [@msgpack/msgpack] with [useBigInt64: false]: [None] where they throw;
    [mp_exact] are the values whose encoding decodes to themselves. *)
Class MsgPack := {
  msgpackEncode : value → option (list byte);
  msgpackDecode : list byte → option value;
  mp_exact : value → Prop;
  mp_roundtrip : ∀ v bs, mp_exact v → msgpackEncode v = Some bs → msgpackDecode bs = Some v
}.

Definition encodeMessage `{MsgPack} (message : value) : option (list byte) :=
  msgpackEncode (toSnakeCase message false).

Definition decodeMessage `{MsgPack} (data : list byte) : option value :=
  raw ← msgpackDecode data; Some (toCamelCase raw false).

(** ** What survives the trip *)

(** No underscore is followed by a lower-case letter: what camelCase names satisfy. *)
Fixpoint camel_key (key : string) : bool :=
  match key with
  | EmptyString => true
  | String c key' =>
      match key' with
      | String d _ => negb (is_underscore c && is_lower d) && camel_key key'
      | EmptyString => true
      end
  end.

(** Every key outside the raw values is a camelCase key, and objects have distinct keys. *)
Fixpoint camel_value (v : value) (rawValue : bool) {struct v} : Prop :=
  match v with
  | VArray vs => fold_right (λ v P, camel_value v false ∧ P) True vs
  | VObject fields =>
      if rawValue then True
      else NoDup fields.*1 ∧
           fold_right (λ kv P, camel_key kv.1 = true ∧ camel_value kv.2 (is_raw kv.1) ∧ P)
                      True fields
  | _ => True
  end.

(** A codec that knows two messages, used to exercise the theorems. *)
Definition demo_hello : value :=
  VObject [("type", VString "HELLO"); ("protocolVersion", VNumber 1);
           ("env", VObject [("MY_Var_x", VString "1")])].
Definition demo_bye : value := VObject [("type", VString "BYE"); ("exitCode", VNull)].
Definition demo_codec_encode (v : value) : option (list byte) :=
  match v with
  | VObject ((_, VString "HELLO") :: _) => Some [x01]
  | VObject ((_, VString "BYE") :: _) => Some [x02; x00]
  | _ => None
  end.
Definition demo_codec_decode (bs : list byte) : option value :=
  match bs with
  | [x01] => Some (toSnakeCase demo_hello false)
  | [x02; x00] => Some (toSnakeCase demo_bye false)
  | _ => None
  end.
Definition demo_exact (v : value) : Prop :=
  v = toSnakeCase demo_hello false ∨ v = toSnakeCase demo_bye false.

Lemma demo_codec_law v bs :
  demo_exact v → demo_codec_encode v = Some bs → demo_codec_decode bs = Some v.
Proof.
  intros [-> | ->] H; vm_compute in H; injection H as <-; vm_compute; reflexivity.
Qed.

Definition demo_msgpack : MsgPack :=
  {| msgpackEncode := demo_codec_encode; msgpackDecode := demo_codec_decode;
     mp_exact := demo_exact; mp_roundtrip := demo_codec_law |}.

(** ** Keys: when the conversions undo each other *)

Section keys.

Lemma is_upper_facts c : is_upper c = true →
  is_lower (to_lower c) = true ∧ to_upper (to_lower c) = c ∧ is_underscore c = false.
Proof. destruct c as [[] [] [] [] [] [] [] []]; vm_compute; intros H; first [discriminate H|repeat split]. Qed.

Lemma is_lower_facts c : is_lower c = true →
  is_upper c = false ∧ is_underscore c = false ∧ is_underscore (to_upper c) = false ∧
  is_upper (to_upper c) = true ∧ to_lower (to_upper c) = c.
Proof. destruct c as [[] [] [] [] [] [] [] []]; vm_compute; intros H; first [discriminate H|repeat split]. Qed.

Lemma underscore_char c : is_underscore c = true → c = ascii_of_nat 95.
Proof. destruct c as [[] [] [] [] [] [] [] []]; vm_compute; intros H; first [discriminate H|reflexivity]. Qed.

(** The first character [camelToSnake] writes is a lower-case letter only if it read one. *)
Lemma camelToSnake_first key d rest :
  camelToSnake key = String d rest → is_lower d = true →
  ∃ key', key = String d key' ∧ rest = camelToSnake key'.
Proof.
  destruct key as [|c key']; simpl; [done|]. case_match eqn:Hc; intros [= <- <-] Hd; [|by eauto].
  by vm_compute in Hd.
Qed.

Lemma snakeToCamel_plain c key :
  is_underscore c = false → snakeToCamel (String c key) = String c (snakeToCamel key).
Proof. intros Hc. simpl. rewrite Hc. by destruct key. Qed.

(** camelCase to snake_case and back is the identity exactly on the camelCase keys. *)
Lemma camel_key_roundtrip key : snakeToCamel (camelToSnake key) = key ↔ camel_key key = true.
Proof.
  induction key as [|c key IH]; [done|]. cbn [camelToSnake].
  destruct (is_upper c) eqn:Hup.
  - destruct (is_upper_facts c Hup) as (Hl & Hback & Hnu).
    cbn [snakeToCamel]. rewrite Hl, Hback. cbn [camel_key]. rewrite Hnu.
    replace (is_underscore (ascii_of_nat 95) && true) with true by reflexivity.
    destruct key; [done|]. rewrite andb_true_l, <- IH. split; congruence.
  - destruct (is_underscore c) eqn:Hu.
    + cbn [snakeToCamel]. destruct (camelToSnake key) as [|d rest] eqn:Hk.
      * destruct key as [|d key]; [done|]. simpl in Hk. by case_match.
      * rewrite Hu. destruct (is_lower d) eqn:Hd.
        -- destruct (camelToSnake_first key d rest Hk Hd) as (key' & -> & ->).
           cbn [camel_key]. rewrite Hu, Hd. split; [|done]. intros [= Hc _].
           destruct (is_lower_facts d Hd) as (_ & _ & H & _). congruence.
        -- cbn [andb]. rewrite <- Hk. destruct key as [|d' key']; [done|].
           cbn [camel_key]. rewrite Hu. cbn [andb].
           assert (is_lower d' = false) as ->.
           { destruct (is_lower d') eqn:Hd'; [|done]. simpl in Hk.
             destruct (is_lower_facts d' Hd') as (Hup' & _). rewrite Hup' in Hk. congruence. }
           rewrite andb_true_l, <- IH. rewrite Hk. split; congruence.
    + rewrite snakeToCamel_plain by done. cbn [camel_key]. rewrite Hu.
      destruct key; [done|]. rewrite andb_true_l, <- IH. split; congruence.
Qed.

Lemma camelToSnake_inj k1 k2 :
  camel_key k1 = true → camel_key k2 = true → camelToSnake k1 = camelToSnake k2 → k1 = k2.
Proof. intros H1%camel_key_roundtrip H2%camel_key_roundtrip H. congruence. Qed.

Lemma is_raw_snake key : camel_key key = true → is_raw (camelToSnake key) = is_raw key.
Proof.
  intros Hk. apply bool_decide_ext. unfold RAW_VALUE_KEYS. rewrite !list_elem_of_singleton.
  split; [|by intros ->]. intros H. by apply camelToSnake_inj.
Qed.
End keys.

(** ** Values: induction through arrays and objects *)

Section value_induction.
Context (P : value → Prop).
Hypotheses (Hundef : P VUndefined) (Hnull : P VNull) (Hbool : ∀ b, P (VBool b))
  (Hnum : ∀ n, P (VNumber n)) (Hstr : ∀ s, P (VString s)) (Hbytes : ∀ bs, P (VBytes bs))
  (Harr : ∀ vs, Forall P vs → P (VArray vs))
  (Hobj : ∀ fields, Forall (λ kv, P kv.2) fields → P (VObject fields)).

Fixpoint value_nested_ind (v : value) : P v :=
  match v with
  | VUndefined => Hundef
  | VNull => Hnull
  | VBool b => Hbool b
  | VNumber n => Hnum n
  | VString s => Hstr s
  | VBytes bs => Hbytes bs
  | VArray vs => Harr vs
      ((fix go (l : list value) : Forall P l :=
          match l with
          | [] => List.Forall_nil _
          | x :: l' => List.Forall_cons _ _ _ (value_nested_ind x) (go l')
          end) vs)
  | VObject fields => Hobj fields
      ((fix go (l : list (string * value)) : Forall (λ kv, P kv.2) l :=
          match l with
          | [] => List.Forall_nil _
          | (k, x) :: l' => List.Forall_cons (λ kv, P kv.2) (k, x) _ (value_nested_ind x) (go l')
          end) fields)
  end.
End value_induction.

Section roundtrip.

Lemma camel_fields fields :
  fold_right (λ kv P, camel_key kv.1 = true ∧ camel_value kv.2 (is_raw kv.1) ∧ P) True fields ↔
  Forall (λ kv, camel_key kv.1 = true ∧ camel_value kv.2 (is_raw kv.1)) fields.
Proof.
  induction fields as [|kv fields IH]; simpl; [by split; constructor|].
  rewrite Forall_cons, IH. tauto.
Qed.

(** The conversion of an object whose keys stay distinct converts each entry in place. *)
Lemma toSnakeCase_object fields :
  NoDup fields.*1 → Forall (λ kv, camel_key kv.1 = true) fields →
  toSnakeCase (VObject fields) false =
    VObject ((λ kv, (camelToSnake kv.1, toSnakeCase kv.2 (is_raw kv.1))) <$> fields).
Proof.
  intros Hnd Hkeys. cbn [toSnakeCase]. f_equal.
  rewrite (assoc_set_fold (λ kv : string * value, camelToSnake kv.1)
    (λ kv, toSnakeCase kv.2 (is_raw (camelToSnake kv.1)))).
  - apply list_fmap_ext. intros i kv Hkv%list_elem_of_lookup_2.
    rewrite Forall_forall in Hkeys. by rewrite is_raw_snake by auto.
  - simpl. rewrite Forall_forall in Hkeys.
    induction fields as [|[k v] fields IH]; csimpl in *; [constructor|].
    apply NoDup_cons in Hnd as [Hk Hnd]. apply NoDup_cons. split.
    + intros ([k' v'] & Heq & Hin)%list_elem_of_fmap. apply Hk. simpl in Heq.
      apply list_elem_of_fmap. exists (k', v'). split; [|done].
      apply camelToSnake_inj; [|by apply (Hkeys (k', v')); right|done].
      by apply (Hkeys (k, v)); left.
    + apply IH; [done|]. intros x Hx. apply Hkeys. by right.
Qed.

Lemma value_roundtrip v raw : camel_value v raw → toCamelCase (toSnakeCase v raw) raw = v.
Proof.
  revert raw. induction v as [| | | | | |vs IH|fields IH] using value_nested_ind;
    intros raw; try done.
  - intros Hok. cbn. f_equal. rewrite map_map. cbn in Hok.
    induction IH as [|v vs Hv _ IHvs]; cbn in *; [done|]. destruct Hok as [??].
    f_equal; auto.
  - destruct raw; [done|]. intros [Hnd Hok%camel_fields].
    rewrite toSnakeCase_object; [|done|eapply Forall_impl; [done|]; by intros ? []].
    cbn [toCamelCase]. f_equal.
    set (fs := (λ kv : string * value, _) <$> fields).
    rewrite (assoc_set_fold (λ kv : string * value, snakeToCamel kv.1)
      (λ kv, toCamelCase kv.2 (is_raw kv.1)) fs []).
    + subst fs. simpl. clear Hnd. rewrite <- list_fmap_compose.
      induction Hok as [|[k v] fields [Hk Hv] Hok IHf]; [done|].
      apply Forall_cons in IH as [IHv IH]. csimpl. rewrite IHf by done. simpl in *.
      rewrite is_raw_snake, IHv by done.
      by rewrite (proj2 (camel_key_roundtrip k) Hk).
    + subst fs. simpl. rewrite <- list_fmap_compose.
      rewrite (list_fmap_ext _ fst fields); [done|].
      intros i kv Hkv%list_elem_of_lookup_2. simpl. apply camel_key_roundtrip.
      rewrite Forall_forall in Hok. by apply Hok.
Qed.
End roundtrip.

(** ** The properties *)

(** A message whose keys are camelCase names comes back unchanged from the wire, the user's own
    keys under [env] included; and camelCase names are the only keys that do: the key conversions
    undo each other exactly on the keys where no underscore precedes a lower-case letter. *)
Theorem codec_roundtrip `{MsgPack} message bs :
  camel_value message false → mp_exact (toSnakeCase message false) →
  encodeMessage message = Some bs →
  decodeMessage bs = Some message ∧
  ∀ key, snakeToCamel (camelToSnake key) = key ↔ camel_key key = true.
Proof.
  intros Hok Hexact Henc. split; [|apply camel_key_roundtrip].
  unfold decodeMessage. rewrite (mp_roundtrip _ _ Hexact Henc). simpl.
  by rewrite value_roundtrip.
Qed.

Lemma demo_camel : camel_value demo_hello false ∧ camel_value demo_bye false.
Proof.
  cbn. split_and!; try done; apply (bool_decide_unpack _); vm_compute; exact I.
Qed.

Lemma codec_roundtrip_witness :
  @decodeMessage demo_msgpack [x01] = Some demo_hello.
Proof.
  apply (@codec_roundtrip demo_msgpack demo_hello [x01]).
  - apply demo_camel.
  - left. reflexivity.
  - reflexivity.
Defined.
