(* ===== verification/Framing.v ===== *)
(** * Length-prefixed frames on stdio ([packages/shared/src/framing.ts])

    [encodeFrame] and [FrameReader]: a frame is a 32-bit little-endian payload length and the
    payload. [push] is the reader's loop, with the buffer the reader keeps whether the loop ends
    normally or throws; its fuel, the buffer's length plus one, is never exhausted
    ([push_total]), every turn that goes on consuming at least the four bytes of a prefix. *)

From Stdlib.Strings Require Import Byte.
From S2P Require Import Prelude JsMap Codec.
#[local] Open Scope lasterm_scope.
#[local] Open Scope Z_scope.

Notation bytes := (list byte).

Definition MAX_FRAME_SIZE : Z := 10 * 1024 * 1024.
Definition LENGTH_PREFIX_BYTES : nat := 4.

(** ** Integers of 32 bits in bytes *)

Definition byte_value (b : byte) : Z := Z.of_N (Byte.to_N b).
Definition byte_of (z : Z) : byte := default x00 (Byte.of_N (Z.to_N (z mod 256))).

(** [view.setUint32(0, n, true)] and [buffer.readUInt32LE(0)]. *)
Definition setUint32LE (n : Z) : bytes :=
  [byte_of n; byte_of (Z.shiftr n 8); byte_of (Z.shiftr n 16); byte_of (Z.shiftr n 24)].
Definition readUInt32LE (buffer : bytes) : Z :=
  match buffer with
  | b0 :: b1 :: b2 :: b3 :: _ =>
      byte_value b0 + Z.shiftl (byte_value b1) 8 + Z.shiftl (byte_value b2) 16 +
      Z.shiftl (byte_value b3) 24
  | _ => 0
  end.

(** [buffer.subarray(from, to)] *)
Definition subarray (from to : nat) (buffer : bytes) : bytes := drop from (take to buffer).

Section framing.
Context `{MsgPack}.

(** ** [encodeFrame] *)

Inductive encode_result :=
| Encoded (frame : bytes)
| PayloadTooLarge (byteLength : Z)
| EncodeThrew.

Definition encodeFrame (message : value) : encode_result :=
  match encodeMessage message with
  | None => EncodeThrew
  | Some payload =>
      if MAX_FRAME_SIZE <? Z.of_nat (length payload)
      then PayloadTooLarge (Z.of_nat (length payload))
      else Encoded (setUint32LE (Z.of_nat (length payload)) ++ payload)
  end.

(** ** [FrameReader] *)

Inductive push_result :=
| Messages (messages : list value)
| FrameTooLargeError (payloadLength : Z)
| DecodeThrew.

(** What one turn of the loop makes of the buffer: it breaks, throws, or takes a message and
    leaves the rest. *)
Inductive turn :=
| Break
| Throw (e : push_result)
| Take (message : value) (rest : bytes).

Definition next_frame (buffer : bytes) : turn :=
  if (length buffer <? LENGTH_PREFIX_BYTES)%nat then Break
  else
    let payloadLength := readUInt32LE buffer in
    if MAX_FRAME_SIZE <? payloadLength then Throw (FrameTooLargeError payloadLength)
    else
      let totalLength := (LENGTH_PREFIX_BYTES + Z.to_nat payloadLength)%nat in
      if (length buffer <? totalLength)%nat then Break
      else
        match decodeMessage (subarray LENGTH_PREFIX_BYTES totalLength buffer) with
        | None => Throw DecodeThrew
        | Some message => Take message (drop totalLength buffer)
        end.

Fixpoint push_loop (fuel : nat) (buffer : bytes) (messages : list value)
  : option (bytes * push_result) :=
  match fuel with
  | O => None
  | S fuel =>
      match next_frame buffer with
      | Break => Some (buffer, Messages messages)
      | Throw e => Some (buffer, e)
      | Take message rest => push_loop fuel rest (messages ++ [message])
      end
  end.

(** [push]: the buffer it leaves, and what it returns or throws. *)
Definition push (buffer data : bytes) : option (bytes * push_result) :=
  let buffer := buffer ++ data in
  push_loop (S (length buffer)) buffer [].

Definition bufferedBytes (buffer : bytes) : nat := length buffer.

(** The reader fed chunk after chunk, as its usage comment has it: all messages in order, and the
    error that ended the stream, if any. *)
Fixpoint feed (buffer : bytes) (chunks : list bytes) (messages : list value)
  : bytes * list value * option push_result :=
  match chunks with
  | [] => (buffer, messages, None)
  | data :: chunks' =>
      match push buffer data with
      | Some (buffer', Messages ms) => feed buffer' chunks' (messages ++ ms)
      | Some (buffer', e) => (buffer', messages, Some e)
      | None => (buffer, messages, None)
      end
  end.

(** ** Reading a buffer, without fuel *)

Inductive reads : bytes → list value → bytes → option push_result → Prop :=
| reads_break buffer : next_frame buffer = Break → reads buffer [] buffer None
| reads_throw buffer e : next_frame buffer = Throw e → reads buffer [] buffer (Some e)
| reads_take buffer m rest ms left o :
    next_frame buffer = Take m rest → reads rest ms left o → reads buffer (m :: ms) left o.

(** A thrown error, as opposed to returned messages. *)
Definition is_error (e : push_result) : Prop :=
  match e with Messages _ => False | _ => True end.
End framing.

(** ** 32-bit lengths *)

Section integers.

Lemma byte_value_range b : 0 <= byte_value b < 256.
Proof. destruct b; vm_compute; split; congruence. Qed.

Lemma byte_value_of z : byte_value (byte_of z) = z mod 256.
Proof.
  unfold byte_value, byte_of. pose proof (Z.mod_pos_bound z 256 eq_refl) as Hz.
  destruct (Byte.of_N (Z.to_N (z mod 256))) as [b|] eqn:Hb.
  - apply Byte.to_of_N in Hb. simpl. rewrite Hb. lia.
  - apply Byte.of_N_None_iff in Hb. lia.
Qed.

Lemma length_setUint32LE n : length (setUint32LE n) = LENGTH_PREFIX_BYTES.
Proof. done. Qed.

Lemma read_set_uint32 n rest :
  0 <= n < 2 ^ 32 → readUInt32LE (setUint32LE n ++ rest) = n.
Proof.
  intros Hn. cbn [setUint32LE app readUInt32LE]. rewrite !byte_value_of, !Z.shiftr_div_pow2, !Z.shiftl_mul_pow2 by lia.
  change (2 ^ 8) with 256. change (2 ^ 16) with 65536. change (2 ^ 24) with 16777216.
  change (2 ^ 32) with 4294967296 in Hn. Z.to_euclidean_division_equations. lia.
Qed.

Lemma read_uint32_app buffer more :
  (4 <= length buffer)%nat → readUInt32LE (buffer ++ more) = readUInt32LE buffer.
Proof. intros Hl. destruct buffer as [|b0 [|b1 [|b2 [|b3 buffer]]]]; simpl in *; lia || done. Qed.

Lemma read_uint32_nonneg buffer : 0 <= readUInt32LE buffer.
Proof.
  destruct buffer as [|b0 [|b1 [|b2 [|b3 buffer]]]]; cbn [readUInt32LE]; try lia.
  rewrite !Z.shiftl_mul_pow2 by lia.
  pose proof (byte_value_range b0). pose proof (byte_value_range b1).
  pose proof (byte_value_range b2). pose proof (byte_value_range b3). lia.
Qed.
End integers.

(** ** The loop *)

Section reading.
Context `{MsgPack}.
Implicit Types (buffer rest : bytes).

(** More bytes behind a frame change nothing of the turn that takes it, or throws on it. *)
Lemma next_frame_app buffer more :
  match next_frame buffer with
  | Break => True
  | Throw e => next_frame (buffer ++ more) = Throw e
  | Take m rest => next_frame (buffer ++ more) = Take m (rest ++ more)
  end.
Proof.
  unfold next_frame. destruct (Nat.ltb_spec (length buffer) LENGTH_PREFIX_BYTES) as [|H4]; [done|].
  unfold LENGTH_PREFIX_BYTES in *. rewrite read_uint32_app, length_app by done.
  rewrite (proj2 (Nat.ltb_ge _ 4)) by lia.
  destruct (MAX_FRAME_SIZE <? _); [done|].
  set (total := (4 + Z.to_nat (readUInt32LE buffer))%nat).
  destruct (Nat.ltb_spec (length buffer) total) as [|Ht]; [done|].
  rewrite (proj2 (Nat.ltb_ge _ total)) by lia.
  unfold subarray. rewrite take_app_le, drop_app_le by done.
  by destruct (decodeMessage _).
Qed.

Lemma next_frame_shrinks buffer m rest :
  next_frame buffer = Take m rest → (length rest + 4 <= length buffer)%nat.
Proof.
  unfold next_frame, LENGTH_PREFIX_BYTES. destruct (_ <? 4)%nat; [done|].
  destruct (MAX_FRAME_SIZE <? _); [done|].
  destruct (Nat.ltb_spec (length buffer) (4 + Z.to_nat (readUInt32LE buffer))) as [|Hl]; [done|].
  destruct (decodeMessage _); intros [= _ <-]. rewrite length_drop. lia.
Qed.

Lemma next_frame_throws buffer e : next_frame buffer = Throw e → is_error e.
Proof. unfold next_frame. repeat case_match; intros [= <-]; done. Qed.

Lemma reads_error buffer ms left e : reads buffer ms left (Some e) → is_error e.
Proof. remember (Some e) as o. induction 1; simplify_eq; eauto using next_frame_throws. Qed.

(** Enough fuel: the loop does what [reads] says, and there is always something to say. *)
Lemma push_loop_reads fuel buffer acc :
  (length buffer < fuel)%nat → ∃ ms left o, reads buffer ms left o ∧
    push_loop fuel buffer acc =
      Some (left, match o with None => Messages (acc ++ ms) | Some e => e end).
Proof.
  revert buffer acc. induction fuel as [|fuel IH]; intros buffer acc Hf; [lia|].
  cbn [push_loop]. destruct (next_frame buffer) as [|e|m rest] eqn:Hn.
  - exists [], buffer, None. split; [by constructor|]. by rewrite app_nil_r.
  - exists [], buffer, (Some e). split; [by constructor|done].
  - pose proof (next_frame_shrinks _ _ _ Hn).
    destruct (IH rest (acc ++ [m])) as (ms & left & o & Hr & ->); [lia|].
    exists (m :: ms), left, o. split; [by eapply reads_take|]. by rewrite <- app_assoc.
Qed.

Lemma reads_det buffer ms left o ms' left' o' :
  reads buffer ms left o → reads buffer ms' left' o' → ms = ms' ∧ left = left' ∧ o = o'.
Proof.
  intros Hr. revert ms' left' o'.
  induction Hr as [b Hn|b e Hn|b m rest ms left o Hn Hr IH]; intros ms' left' o' Hr';
    inversion Hr' as [b' Hn'|b' e' Hn'|b' m' rest' ms0 left0 o0 Hn' Hr0]; subst;
    rewrite Hn in Hn'; simplify_eq; try done.
  by destruct (IH _ _ _ Hr0) as (-> & -> & ->).
Qed.

Lemma push_reads buffer data :
  ∃ ms left o, reads (buffer ++ data) ms left o ∧
    push buffer data = Some (left, match o with None => Messages ms | Some e => e end).
Proof.
  unfold push. destruct (push_loop_reads (S (length (buffer ++ data))) (buffer ++ data) [])
    as (ms & left & o & Hr & ->); [lia|]. eauto.
Qed.

(** What is left over is read on together with what comes next. *)
Lemma reads_app buffer ms left more ms' left' o :
  reads buffer ms left None → reads (left ++ more) ms' left' o →
  reads (buffer ++ more) (ms ++ ms') left' o.
Proof.
  intros Hr Hr'. remember None as o0.
  induction Hr as [| |buffer m rest ms left o0 Hn Hr IH]; simplify_eq; [done|].
  apply (reads_take _ m (rest ++ more)); [|by apply IH].
  pose proof (next_frame_app buffer more) as Happ. by rewrite Hn in Happ.
Qed.

Lemma reads_app_error buffer ms left e more :
  reads buffer ms left (Some e) → reads (buffer ++ more) ms (left ++ more) (Some e).
Proof.
  intros Hr. remember (Some e) as o0.
  induction Hr as [|buffer e0 Hn|buffer m rest ms left o0 Hn Hr IH]; simplify_eq.
  - apply reads_throw. pose proof (next_frame_app buffer more) as Happ. by rewrite Hn in Happ.
  - apply (reads_take _ m (rest ++ more)); [|by apply IH].
    pose proof (next_frame_app buffer more) as Happ. by rewrite Hn in Happ.
Qed.

Lemma reads_total buffer : ∃ ms left o, reads buffer ms left o.
Proof.
  destruct (push_loop_reads (S (length buffer)) buffer []) as (ms & left & o & Hr & _); eauto.
Qed.

Lemma reads_left buffer ms left : reads buffer ms left None → next_frame left = Break.
Proof. remember None as o. induction 1; simplify_eq; auto. Qed.

(** The reader fed in chunks, from a buffer that holds no frame, does what one reading of the whole
    stream does; a chunk that ends in an error keeps its messages to itself. *)
Lemma feed_reads chunks buffer acc ms left o :
  next_frame buffer = Break → reads (buffer ++ concat chunks) ms left o →
  match o with
  | None => feed buffer chunks acc = (left, acc ++ ms, None)
  | Some e => ∃ left' delivered, feed buffer chunks acc = (left', acc ++ delivered, Some e) ∧
                delivered `prefix_of` ms ∧ left' `prefix_of` left
  end.
Proof.
  revert buffer acc ms left o.
  induction chunks as [|data chunks IH]; intros buffer acc ms left o Hb Hr; simpl in Hr.
  { rewrite app_nil_r in Hr.
    destruct (reads_det _ _ _ _ _ _ _ Hr (reads_break buffer Hb)) as (-> & -> & ->).
    simpl. by rewrite app_nil_r. }
  rewrite app_assoc in Hr. cbn [feed].
  destruct (push_reads buffer data) as (ms1 & left1 & [e|] & Hr1 & ->).
  - destruct (reads_det _ _ _ _ _ _ _ Hr (reads_app_error _ _ _ _ (concat chunks) Hr1))
      as (-> & -> & ->).
    exists left1, []. rewrite app_nil_r. split; [|by eauto using prefix_nil, prefix_app_r].
    by destruct e; [apply reads_error in Hr1|..].
  - destruct (reads_total (left1 ++ concat chunks)) as (ms2 & left2 & o2 & Hr2).
    destruct (reads_det _ _ _ _ _ _ _ Hr (reads_app _ _ _ _ _ _ _ Hr1 Hr2)) as (-> & -> & ->).
    specialize (IH left1 (acc ++ ms1) ms2 left2 o2 (reads_left _ _ _ Hr1) Hr2).
    destruct o2 as [e|]; [|by rewrite IH, app_assoc].
    destruct IH as (left' & delivered & -> & Hp & Hl).
    exists left', (ms1 ++ delivered). rewrite app_assoc. split_and!; [done|by apply prefix_app|done].
Qed.

(** A whole encoded frame in front of the buffer is the next message. *)
Lemma next_frame_encoded message frame rest :
  mp_exact (toSnakeCase message false) → camel_value message false →
  encodeFrame message = Encoded frame → next_frame (frame ++ rest) = Take message rest.
Proof.
  intros Hexact Hok. unfold encodeFrame.
  destruct (encodeMessage message) as [payload|] eqn:Henc; [|done].
  destruct (Z.ltb_spec MAX_FRAME_SIZE (Z.of_nat (length payload))) as [|Hsize]; [done|].
  intros Hf. assert (frame = setUint32LE (Z.of_nat (length payload)) ++ payload) as -> by congruence.
  unfold next_frame. rewrite <- app_assoc.
  assert (0 <= Z.of_nat (length payload) < 2 ^ 32) as Hrange by (unfold MAX_FRAME_SIZE in *; lia).
  rewrite (read_set_uint32 _ (payload ++ rest) Hrange).
  rewrite !length_app, length_setUint32LE, Nat2Z.id.
  rewrite (proj2 (Nat.ltb_ge _ LENGTH_PREFIX_BYTES)) by lia.
  rewrite (proj2 (Z.ltb_ge _ _)) by done.
  rewrite (proj2 (Nat.ltb_ge _ (LENGTH_PREFIX_BYTES + _))) by lia.
  unfold subarray, LENGTH_PREFIX_BYTES. cbn [setUint32LE app Nat.add take drop].
  rewrite take_app_length, drop_app_length, drop_0. unfold decodeMessage.
  unfold encodeMessage in Henc. rewrite (mp_roundtrip _ _ Hexact Henc). simpl.
  by rewrite value_roundtrip.
Qed.

Lemma reads_encoded messages frames :
  Forall2 (λ m f, camel_value m false ∧ mp_exact (toSnakeCase m false) ∧
                  encodeFrame m = Encoded f) messages frames →
  reads (concat frames) messages [] None.
Proof.
  induction 1 as [|m f messages frames (Hok & Hexact & Henc) _ IH]; [by apply reads_break|].
  apply (reads_take _ m (concat frames)); [|done]. by apply next_frame_encoded.
Qed.
End reading.

(** ** The properties *)

Section properties.
Context `{MsgPack}.

(** C24 Round trip through any transport: messages encoded into frames and delivered as one byte
    stream cut into chunks at arbitrary places are read back, all of them and in order, with no
    byte left over and no error. *)
Theorem frames_roundtrip messages frames chunks :
  Forall2 (λ m f, camel_value m false ∧ mp_exact (toSnakeCase m false) ∧
                  encodeFrame m = Encoded f) messages frames →
  concat chunks = concat frames →
  feed [] chunks [] = ([], messages, None).
Proof.
  intros Hms Hc. apply (feed_reads chunks [] [] messages [] None); [done|].
  rewrite app_nil_l, Hc. by apply reads_encoded.
Qed.

(** How a stream is cut into chunks does not matter: if one [push] of the whole stream returns
    its messages, pushing it chunk by chunk returns the same messages in the same order and keeps
    the same bytes; if it throws, so does some push of a chunk, with the same error, after messages
    that are the first of the stream's. *)
Theorem push_chunking chunks :
  ∃ left result, push [] (concat chunks) = Some (left, result) ∧
    match result with
    | Messages ms => feed [] chunks [] = (left, ms, None)
    | e => ∃ left' delivered, feed [] chunks [] = (left', delivered, Some e) ∧ left' `prefix_of` left
    end.
Proof.
  destruct (push_reads [] (concat chunks)) as (ms & left & o & Hr & ->).
  pose proof (feed_reads chunks [] [] ms left o eq_refl Hr) as Hfeed.
  destruct o as [e|]; [|by eauto]. exists left, e. split; [done|].
  destruct Hfeed as (left' & delivered & Hf & _ & Hl).
  destruct e; [by apply reads_error in Hr|by eauto..].
Qed.

(** The reader terminates and holds little: every [push] ends, and one that returns keeps fewer
    bytes than one frame of the largest size; one that throws because of a length prefix reports a
    length past [MAX_FRAME_SIZE], and since the prefix stays at the head of the buffer every later
    push throws the same. *)
Theorem push_bounds buffer data :
  ∃ left result, push buffer data = Some (left, result) ∧
    match result with
    | Messages _ => Z.of_nat (bufferedBytes left) < Z.of_nat LENGTH_PREFIX_BYTES + MAX_FRAME_SIZE
    | FrameTooLargeError n => MAX_FRAME_SIZE < n ∧
        ∀ more, push left more = Some (left ++ more, FrameTooLargeError n)
    | DecodeThrew => ∀ more, push left more = Some (left ++ more, DecodeThrew)
    end.
Proof.
  destruct (push_reads buffer data) as (ms & left & o & Hr & ->). eexists left, _. split; [done|].
  assert (∀ e, o = Some e → next_frame left = Throw e) as Hstuck.
  { clear -Hr. induction Hr; intros; simplify_eq; auto. }
  assert (∀ e, o = Some e → ∀ more, push left more = Some (left ++ more, e)) as Hsticky.
  { intros e He more. pose proof (next_frame_app left more) as Happ. rewrite (Hstuck e He) in Happ.
    unfold push. cbn [push_loop]. by rewrite Happ. }
  destruct o as [[|n|]|].
  - by apply reads_error in Hr.
  - split; [|by apply Hsticky]. specialize (Hstuck _ eq_refl). unfold next_frame in Hstuck.
    destruct (_ <? LENGTH_PREFIX_BYTES)%nat; [done|].
    destruct (Z.ltb_spec MAX_FRAME_SIZE (readUInt32LE left)); [congruence|].
    repeat case_match; congruence.
  - by apply Hsticky.
  - pose proof (reads_left _ _ _ Hr) as Hb. unfold next_frame, bufferedBytes in *.
    pose proof (read_uint32_nonneg left).
    destruct (Nat.ltb_spec (length left) LENGTH_PREFIX_BYTES); [unfold MAX_FRAME_SIZE; lia|].
    destruct (Z.ltb_spec MAX_FRAME_SIZE (readUInt32LE left)); [done|].
    destruct (Nat.ltb_spec (length left) (LENGTH_PREFIX_BYTES + Z.to_nat (readUInt32LE left)));
      [lia|]. by case_match.
Qed.

(** What [encodeFrame] writes: the payload's length as an unsigned 32-bit little-endian integer,
    then the payload, nothing else, and only for payloads of at most [MAX_FRAME_SIZE] bytes; a
    longer one is refused with its length. *)
Theorem encodeFrame_layout message payload :
  encodeMessage message = Some payload →
  let n := Z.of_nat (length payload) in
  (n <= MAX_FRAME_SIZE → ∃ frame, encodeFrame message = Encoded frame ∧
     readUInt32LE frame = n ∧ drop LENGTH_PREFIX_BYTES frame = payload) ∧
  (MAX_FRAME_SIZE < n → encodeFrame message = PayloadTooLarge n).
Proof.
  intros Henc n. unfold encodeFrame. rewrite Henc. fold n. split; intros Hn.
  - rewrite (proj2 (Z.ltb_ge _ _)) by done. eexists. split; [done|].
    rewrite read_set_uint32 by (unfold MAX_FRAME_SIZE in *; lia). done.
  - by rewrite (proj2 (Z.ltb_lt _ _)).
Qed.
End properties.

Lemma frames_roundtrip_witness :
  @feed demo_msgpack [] [[x01; x00]; [x00; x00; x01; x02; x00; x00; x00; x02]; [x00]] [] =
    ([], [demo_hello; demo_bye], None).
Proof.
  apply (@frames_roundtrip demo_msgpack [demo_hello; demo_bye]
    [[x01; x00; x00; x00; x01]; [x02; x00; x00; x00; x02; x00]]).
  - constructor; [|constructor; [|constructor]].
    + split; [apply demo_camel|split; [by left|reflexivity]].
    + split; [apply demo_camel|split; [by right|reflexivity]].
  - reflexivity.
Defined.

Lemma encodeFrame_layout_witness :
  ∃ frame, @encodeFrame demo_msgpack demo_bye = Encoded frame ∧ readUInt32LE frame = 2 ∧
    drop LENGTH_PREFIX_BYTES frame = [x02; x00].
Proof.
  apply (proj1 (@encodeFrame_layout demo_msgpack demo_bye [x02; x00] eq_refl)).
  vm_compute. discriminate.
Defined.
