(* ===== verification/HelloSeeker.v ===== *)
(** * Where a stdio agent's frames start ([packages/hub/src/session/hello-seeker.ts])

    The remote shell may print before the agent's first frame, its HELLO; [HelloSeeker] skips what
    came before it, up to a limit, and gives the stream up past it. *)

From Stdlib.Strings Require Import Byte.
From S2P Require Import Prelude JsMap Codec Framing.
#[local] Open Scope lasterm_scope.

Section seeker.
Context `{MsgPack}.

Definition MAX_SHELL_PRELUDE_BYTES : nat := Z.to_nat (64 * 1024).
Definition MAX_HELLO_FRAME_BYTES : nat := Z.to_nat (64 * 1024).

(** What a [HelloSeeker] made of the bytes so far. *)
Inductive HelloSeek :=
| Found (prelude : nat) (frames : bytes)
| NotFound (given : bool).

(** [isHello]: a payload that decodes to an object whose [type] is HELLO. *)
Definition isHello (payload : bytes) : bool :=
  match decodeMessage payload with
  | Some (VObject fields) =>
      match assoc_get "type" fields with
      | Some (VString t) => String.eqb t "HELLO"
      | _ => false
      end
  | _ => false
  end.

(** One turn of the search: whether a whole HELLO frame starts at [start]. *)
Definition hello_at (buffer : bytes) (start : nat) : bool :=
  let length_ := readUInt32LE (drop start buffer) in
  if ((length_ =? 0) || (Z.of_nat MAX_HELLO_FRAME_BYTES <? length_))%Z then false
  else
    let end_ := start + LENGTH_PREFIX_BYTES + Z.to_nat length_ in
    if length buffer <? end_ then false
    else isHello (subarray (start + LENGTH_PREFIX_BYTES) end_ buffer).

(** The starts tried, in order: 0 to [last] included, none when [last] is negative. *)
Definition starts (buffer : bytes) : list nat :=
  seq 0 (Nat.min (S MAX_SHELL_PRELUDE_BYTES) (length buffer - LENGTH_PREFIX_BYTES)).

Definition findHelloFrame (buffer : bytes) : option nat := find_index (hello_at buffer) (starts buffer).

(** [push]: the buffer kept, and the answer. *)
Definition push (buffer chunk : bytes) : bytes * HelloSeek :=
  let buffer := buffer ++ chunk in
  match findHelloFrame buffer with
  | Some start => (buffer, Found start (drop start buffer))
  | None =>
      (buffer, NotFound (MAX_SHELL_PRELUDE_BYTES + LENGTH_PREFIX_BYTES + MAX_HELLO_FRAME_BYTES
                           <? length buffer))
  end.

(** Chunk after chunk until HELLO is found or the stream is given up; [None] while neither. *)
Fixpoint seek (buffer : bytes) (chunks : list bytes) : option HelloSeek :=
  match chunks with
  | [] => None
  | chunk :: chunks' =>
      match push buffer chunk with
      | (_, Found prelude frames) => Some (Found prelude frames)
      | (_, NotFound true) => Some (NotFound true)
      | (buffer', NotFound false) => seek buffer' chunks'
      end
  end.

(** ** The search *)

Implicit Types (buffer : bytes) (start : nat).

Lemma starts_lookup buffer i :
  i ≤ MAX_SHELL_PRELUDE_BYTES → i + LENGTH_PREFIX_BYTES < length buffer → starts buffer !! i = Some i.
Proof. intros Hi Hb. unfold starts. rewrite lookup_seq_lt by lia. done. Qed.

Lemma starts_lookup_Some buffer i j :
  starts buffer !! i = Some j →
  j = i ∧ i ≤ MAX_SHELL_PRELUDE_BYTES ∧ i + LENGTH_PREFIX_BYTES < length buffer.
Proof. unfold starts. rewrite lookup_seq. lia. Qed.

(** A frame needs a payload, so it never starts past [last]. *)
Lemma hello_at_in_range buffer start :
  hello_at buffer start = true → start + LENGTH_PREFIX_BYTES < length buffer.
Proof.
  unfold hello_at. pose proof (read_uint32_nonneg (drop start buffer)).
  destruct (Z.eqb_spec (readUInt32LE (drop start buffer)) 0); [done|].
  simpl. destruct (_ <? _)%Z; [done|].
  destruct (Nat.ltb_spec (length buffer)
    (start + LENGTH_PREFIX_BYTES + Z.to_nat (readUInt32LE (drop start buffer)))); [done|lia].
Qed.

Lemma findHelloFrame_Some buffer start :
  findHelloFrame buffer = Some start ↔
  start ≤ MAX_SHELL_PRELUDE_BYTES ∧ hello_at buffer start = true ∧
  ∀ j, j < start → hello_at buffer j = false.
Proof.
  unfold findHelloFrame. split.
  - intros (x & Hx & Hh & Hmin)%find_index_Some.
    apply starts_lookup_Some in Hx as (-> & ? & ?). split_and!; [done..|].
    intros j Hj. apply (Hmin j j Hj). apply starts_lookup; lia.
  - intros (Hle & Hh & Hmin). destruct (find_index (hello_at buffer) (starts buffer)) as [i|] eqn:Hf.
    + apply find_index_Some in Hf as (x & Hx & Hhx & Hminx).
      apply starts_lookup_Some in Hx as (-> & ? & ?). f_equal.
      destruct (Nat.lt_trichotomy i start) as [Hlt|[->|Hlt]]; [|done|].
      * rewrite (Hmin i Hlt) in Hhx. done.
      * rewrite (Hminx start start Hlt) in Hh; [done|]. apply starts_lookup; [done|].
        by apply hello_at_in_range.
    + apply find_index_None in Hf. rewrite Forall_forall in Hf.
      rewrite (Hf start) in Hh; [done|]. apply (list_elem_of_lookup_2 _ start).
      apply starts_lookup; [done|]. by apply hello_at_in_range.
Qed.

Lemma findHelloFrame_None buffer :
  findHelloFrame buffer = None ↔ ∀ start, start ≤ MAX_SHELL_PRELUDE_BYTES → hello_at buffer start = false.
Proof.
  split.
  - intros Hf start Hle. destruct (hello_at buffer start) eqn:Hh; [|done]. exfalso.
    unfold findHelloFrame in Hf. apply find_index_None in Hf. rewrite Forall_forall in Hf.
    rewrite (Hf start) in Hh; [done|]. apply (list_elem_of_lookup_2 _ start).
    apply starts_lookup; [done|]. by apply hello_at_in_range.
  - intros Hno. destruct (findHelloFrame buffer) as [s|] eqn:Hf; [|done].
    apply findHelloFrame_Some in Hf as (Hle & Hh & _). by rewrite Hno in Hh.
Qed.

Lemma drop_app_read buffer more start :
  start + LENGTH_PREFIX_BYTES ≤ length buffer →
  readUInt32LE (drop start (buffer ++ more)) = readUInt32LE (drop start buffer).
Proof.
  intros Hl. unfold LENGTH_PREFIX_BYTES in *. rewrite drop_app_le by lia.
  apply read_uint32_app. rewrite length_drop. lia.
Qed.

(** A start is judged once and for all when a frame of the largest size from it has arrived, and a
    HELLO frame found stays found. *)
Lemma hello_at_app buffer more start :
  start + LENGTH_PREFIX_BYTES ≤ length buffer →
  (hello_at buffer start = true ∨
   start + LENGTH_PREFIX_BYTES + MAX_HELLO_FRAME_BYTES ≤ length buffer) →
  hello_at (buffer ++ more) start = hello_at buffer start.
Proof.
  intros Hl Hdone. unfold hello_at in *. rewrite drop_app_read by done. rewrite length_app.
  set (n := readUInt32LE (drop start buffer)) in *.
  destruct (Z.eqb_spec n 0); [done|]. cbn [orb] in *.
  destruct (Z.ltb_spec (Z.of_nat MAX_HELLO_FRAME_BYTES) n); [done|].
  destruct (Nat.ltb_spec (length buffer) (start + LENGTH_PREFIX_BYTES + Z.to_nat n)).
  { destruct Hdone; [done|lia]. }
  rewrite (proj2 (Nat.ltb_ge _ _)) by lia. unfold subarray. by rewrite take_app_le by lia.
Qed.

(** The frame of a HELLO message, where it starts. *)
Lemma hello_at_frame before frame after payload :
  frame = setUint32LE (Z.of_nat (length payload)) ++ payload →
  0 < length payload ≤ MAX_HELLO_FRAME_BYTES → isHello payload = true →
  hello_at (before ++ frame ++ after) (length before) = true.
Proof.
  intros -> Hlen Hhello. unfold hello_at. rewrite drop_app_length, <- app_assoc.
  rewrite read_set_uint32 by (unfold MAX_HELLO_FRAME_BYTES in *; lia). rewrite Nat2Z.id.
  rewrite (proj2 (Z.eqb_neq _ _)) by lia. rewrite (proj2 (Z.ltb_ge _ _)) by lia. cbn [orb].
  rewrite !length_app, length_setUint32LE.
  rewrite (proj2 (Nat.ltb_ge _ _)) by lia. unfold subarray.
  replace (length before + LENGTH_PREFIX_BYTES + length payload)
    with (length before + (length (setUint32LE (Z.of_nat (length payload))) + length payload))
    by (rewrite length_setUint32LE; lia).
  rewrite !take_app_add, drop_app_add, take_app_length. exact Hhello.
Qed.

(** A search that found nothing in a longer buffer found nothing in a shorter one. *)
Lemma found_later buffer more start :
  hello_at (buffer ++ more) start = false → hello_at buffer start = false.
Proof.
  intros Hno. destruct (hello_at buffer start) eqn:Hh; [|done].
  rewrite hello_at_app in Hno; [congruence| |by left]. apply hello_at_in_range in Hh. lia.
Qed.

(** A buffer that is long enough to hold the whole frame holds it. *)
Lemma prefix_holds (b rest before frame after : bytes) :
  b ++ rest = before ++ frame ++ after → length before + length frame ≤ length b →
  ∃ after', b = before ++ frame ++ after'.
Proof.
  intros Heq Hl. exists (drop (length before + length frame) b).
  rewrite app_assoc in *. rewrite <- (take_drop (length (before ++ frame)) b) at 1.
  rewrite !length_app in *. f_equal.
  rewrite <- (take_app_le b rest) by (rewrite ?length_app; lia). rewrite Heq.
  rewrite <- length_app. by rewrite take_app_length.
Qed.

(** ** The properties *)

(** A stream is given up only when nothing can come of it: once [push] gives up, no continuation
    of the stream whatever holds a HELLO frame at a place within the limit; until then the bytes
    kept are bounded; and what it finds is the first place a whole HELLO frame decodes, with every
    byte from there on. *)
Theorem push_correct buffer chunk :
  match push buffer chunk with
  | (b, NotFound true) => ∀ more, findHelloFrame (b ++ more) = None
  | (b, NotFound false) => findHelloFrame b = None ∧
      length b ≤ MAX_SHELL_PRELUDE_BYTES + LENGTH_PREFIX_BYTES + MAX_HELLO_FRAME_BYTES
  | (b, Found prelude frames) => b = take prelude b ++ frames ∧
      prelude ≤ MAX_SHELL_PRELUDE_BYTES ∧ hello_at b prelude = true ∧
      ∀ j, j < prelude → hello_at b j = false
  end.
Proof.
  unfold push. set (b := buffer ++ chunk).
  destruct (findHelloFrame b) as [start|] eqn:Hf.
  - split; [by rewrite take_drop|]. by apply findHelloFrame_Some.
  - destruct (Nat.ltb_spec (MAX_SHELL_PRELUDE_BYTES + LENGTH_PREFIX_BYTES + MAX_HELLO_FRAME_BYTES)
                           (length b)) as [Hlt|]; [|done].
    intros more. apply findHelloFrame_None. intros start Hs.
    rewrite hello_at_app; [by apply findHelloFrame_None|lia|right; lia].
Qed.

(** HELLO is found: if the remote prints at most [MAX_SHELL_PRELUDE_BYTES] before a HELLO frame of
    at most [MAX_HELLO_FRAME_BYTES], and nothing else up to that frame's end decodes to a HELLO,
    then however the stream is cut into chunks the seeker answers with that frame's place, never
    giving the stream up, and hands over the bytes that had come from there on. *)
Theorem seek_finds_hello chunks before payload after :
  let frame := setUint32LE (Z.of_nat (length payload)) ++ payload in
  concat chunks = before ++ frame ++ after →
  length before ≤ MAX_SHELL_PRELUDE_BYTES →
  0 < length payload ≤ MAX_HELLO_FRAME_BYTES → isHello payload = true →
  (∀ j, j < length before + length frame → j ≠ length before → hello_at (concat chunks) j = false) →
  ∃ more, seek [] chunks = Some (Found (length before) (frame ++ more)) ∧ more `prefix_of` after.
Proof.
  intros frame Hstream Hbefore Hpayload Hhello Hunique.
  assert (findHelloFrame [] = None) as Hnone by done.
  change (concat chunks) with ([] ++ concat chunks) in Hstream, Hunique.
  revert Hstream Hunique Hnone. generalize (@nil byte) as buffer.
  induction chunks as [|chunk chunks IH]; intros buffer Hstream Hunique Hnone;
    cbn [concat seek] in *.
  { rewrite app_nil_r in Hstream. rewrite findHelloFrame_None in Hnone.
    specialize (Hnone (length before) Hbefore). rewrite Hstream in Hnone.
    by rewrite (hello_at_frame before frame after payload) in Hnone. }
  rewrite (app_assoc buffer chunk) in Hstream, Hunique. unfold push. set (b := buffer ++ chunk) in *.
  assert (length before + length frame ≤ length b →
          ∃ after', b = before ++ frame ++ after' ∧ hello_at b (length before) = true) as Hwhole.
  { intros Hl. destruct (prefix_holds _ _ _ _ _ Hstream Hl) as [after' Hb]. exists after'.
    split; [done|]. rewrite Hb. by apply (hello_at_frame before frame after' payload). }
  assert (length frame = LENGTH_PREFIX_BYTES + length payload) as Hframe
    by (subst frame; by rewrite length_app).
  destruct (findHelloFrame b) as [s|] eqn:Hf.
  - apply findHelloFrame_Some in Hf as (Hsle & Hsh & Hsmin).
    pose proof (hello_at_in_range _ _ Hsh) as Hin.
    assert (hello_at (b ++ concat chunks) s = true) as Hs
      by (rewrite hello_at_app; [done|lia|by left]).
    assert (s = length before) as ->.
    { destruct (decide (s = length before)); [done|exfalso].
      destruct (Nat.lt_ge_cases s (length before + length frame)) as [Hlt|Hge].
      - by rewrite Hunique in Hs.
      - destruct Hwhole as (_ & _ & Hw); [lia|]. rewrite Hsmin in Hw; [done|lia]. }
    destruct (Nat.lt_ge_cases (length b) (length before + length frame)) as [Hlt|Hge].
    { exfalso. unfold hello_at in Hsh. revert Hsh. rewrite <- (drop_app_read b (concat chunks)) by lia.
      rewrite Hstream, drop_app_length. subst frame. rewrite <- app_assoc.
      rewrite read_set_uint32 by (unfold MAX_HELLO_FRAME_BYTES in *; lia). rewrite Nat2Z.id.
      rewrite (proj2 (Nat.ltb_lt (length b) _)) by lia. by case_match. }
    destruct Hwhole as (after' & Hb & _); [done|]. exists after'. rewrite Hb, drop_app_length.
    split; [done|]. rewrite Hb in Hstream. rewrite <- !app_assoc in Hstream. simplify_list_eq.
    by apply prefix_app_r.
  - destruct (Nat.lt_ge_cases (length b) (length before + length frame)) as [Hlt|Hge].
    + rewrite (proj2 (Nat.ltb_ge _ _)) by lia. by apply IH.
    + exfalso. destruct Hwhole as (_ & _ & Hw); [done|].
      rewrite findHelloFrame_None in Hf. by rewrite Hf in Hw.
Qed.
End seeker.

Lemma seek_finds_hello_witness :
  ∃ more, @seek demo_msgpack [] [[x09; x0a]; [x01; x00; x00; x00; x01; x07]; [x08]] =
    Some (Found 2 ((setUint32LE 1 ++ [x01]) ++ more)) ∧ more `prefix_of` [x07; x08].
Proof.
  apply (@seek_finds_hello demo_msgpack _ [x09; x0a] [x01] [x07; x08]).
  - reflexivity.
  - apply Nat.leb_le. vm_compute. reflexivity.
  - split; apply Nat.leb_le; vm_compute; reflexivity.
  - vm_compute. reflexivity.
  - intros j Hj Hne.
    assert (forallb (λ j, (j =? 2) || negb (@hello_at demo_msgpack
      [x09; x0a; x01; x00; x00; x00; x01; x07; x08] j)) (seq 0 7) = true) as Hall
      by (vm_compute; reflexivity).
    rewrite forallb_forall in Hall. specialize (Hall j).
    rewrite (proj2 (Nat.eqb_neq j 2)) in Hall by exact Hne.
    apply negb_true_iff, Hall, in_seq. simpl in Hj. lia.
Defined.
