(* ===== verification/SendQueue.v ===== *)
(** * The backpressure queue in front of a writable stream ([packages/hub/src/session/send-queue.ts])

    [SendQueue] with the streams it is attached to in turn. A stream's [write] takes the frame
    either way and answers whether it wants more; that answer is the stream's, so it is a parameter,
    by stream and number of writes so far. A drain event reaches every listener the queue added to
    that stream and nobody removed. *)

From S2P Require Import Prelude.
#[local] Open Scope lasterm_scope.

Section send_queue.
Context {Buffer : Type}.

Definition MAX_QUEUE_SIZE : nat := 1000.

(** [listeners]: the streams that hold one of the queue's drain listeners, one entry each.
    [written] and [warnings]: what went to the streams, and to stderr, so far. *)
Record SendQueue := Queue {
  queue : list Buffer;
  draining : bool;
  stream : option nat;
  listeners : list nat;
  written : list (nat * Buffer);
  warnings : nat
}.

Definition new : SendQueue := Queue [] false None [] [] 0.

Context (accepts : nat → nat → bool).

(** [stream.write(frame)] *)
Definition write (s : nat) (frame : Buffer) (q : SendQueue) : bool * SendQueue :=
  (accepts s (length (written q)),
   Queue (queue q) (draining q) (stream q) (listeners q) (written q ++ [(s, frame)]) (warnings q)).

Definition set_queue (l : list Buffer) (q : SendQueue) : SendQueue :=
  Queue l (draining q) (stream q) (listeners q) (written q) (warnings q).
Definition set_draining (b : bool) (q : SendQueue) : SendQueue :=
  Queue (queue q) b (stream q) (listeners q) (written q) (warnings q).

Definition attach (s : nat) (q : SendQueue) : SendQueue :=
  let kept := match stream q with
              | Some old => filter (λ l, l ≠ old) (listeners q)
              | None => listeners q
              end in
  Queue (queue q) (draining q) (Some s) (kept ++ [s]) (written q) (warnings q).

Definition enqueue (frame : Buffer) (q : SendQueue) : SendQueue :=
  if MAX_QUEUE_SIZE <=? length (queue q) then
    let w := if length (queue q) =? MAX_QUEUE_SIZE then S (warnings q) else warnings q in
    Queue (tail (queue q) ++ [frame]) (draining q) (stream q) (listeners q) (written q) w
  else set_queue (queue q ++ [frame]) q.

Definition send (frame : Buffer) (q : SendQueue) : SendQueue :=
  match stream q with
  | None => q
  | Some s =>
      if draining q then enqueue frame q
      else let '(ok, q) := write s frame q in
           if ok then q else set_draining true q
  end.

(** The loop of [flush] over the queued frames [l]. *)
Fixpoint flush_loop (l : list Buffer) (q : SendQueue) : SendQueue :=
  match l with
  | [] => set_queue [] q
  | frame :: l' =>
      let '(ok, q) := match stream q with
                      | Some s => write s frame q
                      | None => (false, q)
                      end in
      if ok then flush_loop l' q else set_draining true (set_queue l' q)
  end.

Definition flush (q : SendQueue) : SendQueue := flush_loop (queue q) (set_draining false q).

Definition clear (q : SendQueue) : SendQueue :=
  Queue [] false None (listeners q) (written q) (warnings q).

Definition pending (q : SendQueue) : nat := length (queue q).
Definition isDraining (q : SendQueue) : bool := draining q.
Definition frames (q : SendQueue) : list Buffer := queue q.

Inductive op := Attach (s : nat) | Send (frame : Buffer) | Drain (s : nat) | Clear.

(** A drain event of stream [s] runs [flush] once per listener the queue left on it. *)
Definition exec (q : SendQueue) (o : op) : SendQueue :=
  match o with
  | Attach s => attach s q
  | Send frame => send frame q
  | Drain s => fold_left (λ q _, flush q) (filter (λ l, l = s) (listeners q)) q
  | Clear => clear q
  end.

(** The frames sent, and those operations that neither attach nor clear. *)
Definition sent (os : list op) : list Buffer :=
  os ≫= λ o, match o with Send f => [f] | _ => [] end.
Definition in_session (o : op) : bool := match o with Attach _ | Clear => false | _ => true end.

(** Frames wait only under backpressure, and never more than the cap. *)
Record wf (q : SendQueue) : Prop := {
  wf_waiting : queue q ≠ [] → draining q = true;
  wf_cap : length (queue q) ≤ MAX_QUEUE_SIZE
}.

(** What happened to the frames sent since [q0]: written in order, waiting, or dropped. *)
Record accounts (q0 q : SendQueue) (fs : list Buffer) : Prop := {
  acc_wf : wf q;
  acc_stream : stream q = stream q0;
  acc_order : ∃ out, (written q).*2 = (written q0).*2 ++ out ∧
    (out ++ queue q) `sublist_of` (queue q0 ++ fs) ∧
    length (queue q0 ++ fs) + warnings q0 = length (out ++ queue q) + warnings q;
  acc_mono : warnings q0 ≤ warnings q
}.

(** ** Lemmas *)

(** A sublist as long as the whole list is the whole list. *)
Lemma sublist_all (l k : list Buffer) : l `sublist_of` k → length k ≤ length l → l = k.
Proof.
  induction 1 as [|x l k Hs IH|x l k Hs IH]; simpl; intros Hl; [done|f_equal; apply IH; lia|].
  apply sublist_length in Hs. lia.
Qed.

Lemma queue_wf_new : wf new.
Proof. split; simpl; [done|lia]. Qed.

Lemma flush_loop_spec l q :
  let q' := flush_loop l q in
  stream q' = stream q ∧ warnings q' = warnings q ∧ listeners q' = listeners q ∧
  (queue q' ≠ [] → draining q' = true) ∧ length (queue q') ≤ length l ∧
  (stream q ≠ None → ∃ out, (written q').*2 = (written q).*2 ++ out ∧ out ++ queue q' = l).
Proof.
  revert q. induction l as [|f l IH]; intros q; simpl.
  { split_and!; try done. exists []. by rewrite app_nil_r. }
  destruct (stream q) as [s|] eqn:Hs; simpl.
  - set (q1 := Queue _ _ _ _ _ _). destruct (accepts _ _).
    + destruct (IH q1) as (H1 & H2 & H3 & H4 & H5 & H6). subst q1; simpl in *.
      split_and!; [congruence|done|done|done|lia|]. intros _.
      destruct H6 as (out & Hw & Ho); [congruence|]. exists (f :: out).
      split; [by rewrite Hw, fmap_app, <- app_assoc|]. simpl. by rewrite Ho.
    + simpl. split_and!; try done; [lia|]. intros _. exists [f]. by rewrite fmap_app.
  - split_and!; [done..|lia|done].
Qed.

Lemma wf_flush q : wf q → wf (flush q).
Proof.
  intros [_ Hc]. destruct (flush_loop_spec (queue q) (set_draining false q)) as (_&_&_&Hd&Hl&_).
  split; [done|]. unfold flush. lia.
Qed.

Lemma wf_exec q o : wf q → wf (exec q o).
Proof.
  intros Hq. destruct o as [s|f|s|]; simpl.
  - destruct Hq. by split.
  - unfold send. destruct (stream q); [|done]. destruct (draining q) eqn:Hd.
    + unfold enqueue. destruct (Nat.leb_spec MAX_QUEUE_SIZE (length (queue q))) as [Hge|Hlt];
        destruct Hq as [_ Hc]; split; simpl; try done; rewrite length_app; simpl; [|lia].
      unfold MAX_QUEUE_SIZE in *. destruct (queue q); simpl in *; lia.
    + assert (queue q = []) as Hnil by (destruct (queue q) eqn:Hql; [done|];
        destruct Hq as [Hw _]; rewrite Hql, Hd in Hw; by discriminate Hw).
      simpl. destruct (accepts _ _); split; simpl; rewrite ?Hnil; simpl; (done || lia).
  - generalize (filter (λ l, l = s) (listeners q)) as ls. intros ls. revert q Hq.
    induction ls as [|l ls IH]; intros q Hq; [done|]. simpl. by apply IH, wf_flush.
  - split; simpl; [done|lia].
Qed.

Lemma accounts_refl q : wf q → accounts q q [].
Proof.
  intros Hq. split; [done|done| |lia]. exists []. rewrite !app_nil_r. simpl. split_and!; done.
Qed.

Lemma accounts_flush q0 q fs :
  stream q0 ≠ None → accounts q0 q fs → accounts q0 (flush q) fs.
Proof.
  intros Hs [Hwf Hst (out & Hw & Hsub & Hlen) Hm].
  destruct (flush_loop_spec (queue q) (set_draining false q)) as (H1&H2&_&_&_&H6).
  simpl in *. fold (flush q) in *. split; [by apply wf_flush|congruence| |lia].
  destruct H6 as (out' & Hw' & Ho); [congruence|]. exists (out ++ out').
  rewrite Hw', Hw, <- app_assoc. rewrite <- app_assoc, Ho. split_and!; [done..|]. lia.
Qed.

Lemma accounts_send q0 q fs f :
  stream q0 ≠ None → accounts q0 q fs → accounts q0 (send f q) (fs ++ [f]).
Proof.
  intros Hs [Hwf Hst (out & Hw & Hsub & Hlen) Hm].
  pose proof (wf_exec q (Send f) Hwf) as Hwf'. simpl in Hwf'.
  destruct (stream q0) as [s|] eqn:Hs0; [|done]. unfold send in *. rewrite Hst in *.
  rewrite !length_app in Hlen. destruct (draining q) eqn:Hd.
  - unfold enqueue in *. destruct (Nat.leb_spec MAX_QUEUE_SIZE (length (queue q))) as [Hge|Hlt].
    + assert (length (queue q) = MAX_QUEUE_SIZE) as Hcap by (destruct Hwf; lia).
      rewrite Hcap, Nat.eqb_refl in *. destruct (queue q) as [|x l] eqn:Hq; [done|].
      split; simpl; [done|by rewrite Hst| |lia]. exists out. split; [done|]. split.
      * rewrite (app_assoc out), (app_assoc (queue q0)). apply sublist_app; [|done].
        etrans; [|exact Hsub]. apply sublist_app; [done|]. by apply sublist_cons.
      * rewrite !length_app in *. simpl in *. lia.
    + split; simpl; [done|by rewrite Hst| |lia]. exists out. split; [done|]. split.
      * rewrite !app_assoc. by apply sublist_app.
      * rewrite !length_app. simpl. lia.
  - assert (queue q = []) as Hnil by (destruct (queue q) eqn:Hql; [done|];
      destruct Hwf as [Hwt _]; rewrite Hql, Hd in Hwt; by discriminate Hwt).
    cbn [write] in *. set (q1 := Queue _ _ _ _ _ _) in *.
    destruct (accepts s _); (split; simpl; [done|by rewrite Hst| |lia]);
      exists (out ++ [f]); rewrite Hnil in *; rewrite fmap_app, Hw, app_nil_r in *;
      rewrite !app_assoc, !length_app in *; simpl in *;
      (split_and!; [done|by apply sublist_app|lia]).
Qed.

Lemma accounts_drain q0 q fs s :
  stream q0 ≠ None → accounts q0 q fs → accounts q0 (exec q (Drain s)) fs.
Proof.
  intros Hs Hacc. simpl. generalize (filter (λ l, l = s) (listeners q)) as ls. intros ls.
  revert q Hacc. induction ls as [|l ls IH]; intros q Hacc; [done|].
  simpl. by apply IH, accounts_flush.
Qed.

Lemma accounts_run q0 os :
  wf q0 → stream q0 ≠ None → Forall (λ o, in_session o = true) os →
  accounts q0 (run exec q0 os) (sent os).
Proof.
  intros Hwf Hs Hos. change (sent os) with ([] ++ sent os).
  pose proof (accounts_refl q0 Hwf) as Hacc. revert Hacc. generalize (@nil Buffer) as fs.
  generalize q0 at 2 4 as q. induction Hos as [|o os Ho _ IH]; intros q fs Hacc.
  { by rewrite app_nil_r. }
  destruct o as [s|f|s|]; try done.
  - change (sent (Send f :: os)) with ([f] ++ sent os). rewrite app_assoc.
    apply IH. by apply accounts_send.
  - apply IH. by apply (accounts_drain q0 q fs s).
Qed.

(** ** The properties *)

(** Frames keep their order and none is lost unnoticed: over any sends and drain events of an
    attached queue, what was written to the stream followed by what still waits is the frames sent,
    in order, less those dropped; each drop is one warning on stderr, so with no warning it is
    exactly the frames sent. *)
Theorem send_queue_fifo q0 os :
  reachable new exec q0 → stream q0 ≠ None → Forall (λ o, in_session o = true) os →
  let q := run exec q0 os in
  ∃ out, (written q).*2 = (written q0).*2 ++ out ∧
    (out ++ queue q) `sublist_of` (queue q0 ++ sent os) ∧
    length (out ++ queue q) + (warnings q - warnings q0) = length (queue q0 ++ sent os) ∧
    (warnings q = warnings q0 → out ++ queue q = queue q0 ++ sent os).
Proof.
  intros Hr Hs Hos q.
  assert (wf q0) as Hwf by (revert Hr; apply reachable_invariant; auto using queue_wf_new, wf_exec).
  destruct (accounts_run q0 os Hwf Hs Hos) as [_ _ (out & Hw & Hsub & Hlen) Hm].
  exists out. split_and!; [done|done|subst q; lia|]. intros Hnone.
  apply sublist_all; [done|]. subst q. lia.
Qed.

(** The queue is bounded and drains: in every reachable state at most [MAX_QUEUE_SIZE] frames
    wait, and only under backpressure; and once a stream takes everything, one [flush] writes all
    that waited, in order, and ends the backpressure. *)
Theorem send_queue_bounded q :
  reachable new exec q →
  pending q ≤ MAX_QUEUE_SIZE ∧ (isDraining q = false → frames q = []) ∧
  ∀ s, stream q = Some s → (∀ n, length (written q) ≤ n → accepts s n = true) →
    frames (flush q) = [] ∧ isDraining (flush q) = false ∧
    written (flush q) = written q ++ (pair s <$> frames q).
Proof.
  intros Hr. assert (wf q) as [Hw Hc]
    by (revert Hr; apply reachable_invariant; auto using queue_wf_new, wf_exec).
  split_and!; [done| |].
  { unfold isDraining, frames. intros Hd. destruct (queue q); [done|].
    rewrite Hd in Hw. by discriminate Hw. }
  intros s Hs Hall. unfold flush, frames, isDraining. clear Hw Hc Hr.
  assert (draining (set_draining false q) = false) as Hd by done.
  assert (stream (set_draining false q) = Some s) as Hs' by done.
  change (written q) with (written (set_draining false q)) in Hall |- *. revert Hd Hs' Hall.
  generalize (set_draining false q) as q1. generalize (queue q) as l.
  induction l as [|f l IH]; intros q1 Hd Hs' Hall; simpl.
  - by rewrite app_nil_r.
  - rewrite Hs'. simpl. rewrite Hall by done. cbn iota.
    destruct (IH (Queue (queue q1) (draining q1) (stream q1) (listeners q1)
                        (written q1 ++ [(s, f)]) (warnings q1))) as (-> & -> & ->); simpl; try done.
    + intros n. rewrite length_app. simpl. intros. apply Hall. lia.
    + by rewrite <- app_assoc.
Qed.
End send_queue.

(** A stream that stops taking frames after two, and takes again from the fifth on. *)
Definition demo_accepts (_ n : nat) : bool := negb ((1 <=? n) && (n <? 3)).

Lemma send_queue_fifo_witness :
  let q := run (exec demo_accepts) (attach 7 (new (Buffer := nat)))
               [Send 1; Send 2; Send 3; Send 4; Drain 7] in
  (written q).*2 = [1; 2; 3] ∧ queue q = [4] ∧ isDraining q = true ∧
  ∃ out, (written q).*2 = [] ++ out ∧ (out ++ queue q) `sublist_of` [1; 2; 3; 4].
Proof.
  split_and!; [reflexivity..|].
  destruct (send_queue_fifo demo_accepts (attach 7 (new (Buffer := nat)))
              [Send 1; Send 2; Send 3; Send 4; Drain 7]) as (out & H1 & H2 & _).
  - apply (reach_step new (exec demo_accepts) new (Attach 7)). constructor.
  - discriminate.
  - repeat constructor.
  - exists out. split; [exact H1|exact H2].
Defined.

Lemma send_queue_bounded_witness :
  frames (flush (λ _ _, true) (Queue [8; 9] true (Some 7) [7] [(7, 5)] 0)) = [] ∧
  pending (exec (λ _ _, true) (attach 7 (new (Buffer := nat))) (Send 1)) ≤ MAX_QUEUE_SIZE.
Proof.
  split; [reflexivity|].
  apply (send_queue_bounded (λ _ _, true)).
  apply (reach_step new (exec (λ _ _, true)) (attach 7 new) (Send 1)).
  apply (reach_step new (exec (λ _ _, true)) new (Attach 7)). constructor.
Defined.
