(* ===== verification/SpoolDal.v ===== *)
(** * The spool's table of output chunks ([packages/hub/src/storage/spool.ts])

    [SpoolDAL] over its one table: the rows in insertion order, the [UNIQUE(channel_id, seq)]
    constraint, and each statement as what SQLite computes for it. Ids are drawn from a counter (a
    ULID never drawn before), instants are milliseconds (ISO 8601 texts in UTC order as they do),
    and a blob is its bytes. [rows ch db] is the channel as the index on [(channel_id, seq)] has it;
    every query is shown to read from it. [SpoolStore] is what the writers of output rely on. *)

From Stdlib.Strings Require Import Byte.
From stdpp Require Import sorting.
From S2P Require Import Prelude.
#[local] Open Scope lasterm_scope.
#[local] Open Scope Z_scope.

Inductive kind := output | snapshot | resize.
Inductive codec := raw | zstd.

#[export] Instance kind_eq_dec : EqDecision kind.
Proof. solve_decision. Defined.

Record InsertChunkInput := {
  in_channelId : string; in_seq : Z; in_kind : kind; in_codec : option codec;
  in_dataBlob : list byte; in_uncompressedLen : Z
}.

Record Chunk := {
  id : nat; channelId : string; seq : Z; ts : Z; kind_of : kind; codec_of : codec;
  dataBlob : list byte; uncompressedLen : Z
}.

#[export] Instance codec_eq_dec : EqDecision codec.
Proof. solve_decision. Defined.
#[export] Instance byte_eq_dec : EqDecision byte := Byte.byte_eq_dec.
#[export] Instance Chunk_eq_dec : EqDecision Chunk.
Proof. solve_decision. Defined.

Inductive ChunkKinds := snapshots | others | all.
Record ChunkBatchLimits := { maxRows : nat; maxBytes : Z }.
Record ChunkBatchResult := { deleted : Z; bytes : Z; lastSeq : option Z }.
Record ChunkSize := { cs_seq : Z; cs_kind : kind; cs_ts : Z; cs_bytes : Z }.

(** The database: its rows, the next id [generateId] gives, and the time. *)
Record Db := { chunks : list Chunk; nextId : nat; clock : Z }.
Definition set_chunks (l : list Chunk) (db : Db) : Db :=
  {| chunks := l; nextId := nextId db; clock := clock db |}.

Definition blob_length (c : Chunk) : Z := Z.of_nat (length (dataBlob c)).
Definition to_size (c : Chunk) : ChunkSize :=
  {| cs_seq := seq c; cs_kind := kind_of c; cs_ts := ts c; cs_bytes := blob_length c |}.

(** [ORDER BY seq] and [ORDER BY seq DESC]. *)
Definition seq_le (c d : Chunk) : Prop := seq c ≤ seq d.
#[export] Instance seq_le_dec c d : Decision (seq_le c d) := Z_le_dec (seq c) (seq d).
Definition order_asc (l : list Chunk) : list Chunk := merge_sort seq_le l.
Definition order_desc (l : list Chunk) : list Chunk := reverse (order_asc l).

(** ** Statements *)

Definition insertChunk (input : InsertChunkInput) (db : Db) : option (nat * Db) :=
  if decide (Exists (λ c, channelId c = in_channelId input ∧ seq c = in_seq input) (chunks db))
  then None
  else
    let row := {| id := nextId db; channelId := in_channelId input; seq := in_seq input;
                  ts := clock db; kind_of := in_kind input;
                  codec_of := default raw (in_codec input);
                  dataBlob := in_dataBlob input; uncompressedLen := in_uncompressedLen input |} in
    Some (nextId db, {| chunks := chunks db ++ [row]; nextId := S (nextId db); clock := clock db |}).

Definition getChunk (i : nat) (db : Db) : option Chunk :=
  snd <$> list_find (λ c, id c = i) (chunks db).

(** A condition of the query, when its option is given. *)
Definition when_given {A} (P : A → Prop) (o : option A) : Prop :=
  match o with Some a => P a | None => True end.
#[export] Instance when_given_dec {A} (P : A → Prop) `{∀ a, Decision (P a)} o :
  Decision (when_given P o).
Proof. destruct o; simpl; apply _. Defined.

Definition getChunksByChannel (ch : string) (k : option kind) (afterSeq : option Z)
  (limit : option nat) (db : Db) : list Chunk :=
  let rows := order_asc (filter (λ c, channelId c = ch ∧
                when_given (λ k, kind_of c = k) k ∧
                when_given (λ s, s < seq c) afterSeq) (chunks db)) in
  match limit with Some n => take n rows | None => rows end.

(** [SELECT MAX(seq)]: NULL, read as 0, when there is no row. *)
Definition getMaxSeq (ch : string) (db : Db) : Z :=
  default 0 (foldr (λ c m, Some (match m with Some s => Z.max (seq c) s | None => seq c end)) None
                   (filter (λ c, channelId c = ch) (chunks db))).

Definition getLatestSnapshot (ch : string) (db : Db) : option Chunk :=
  head (order_desc (filter (λ c, channelId c = ch ∧ kind_of c = snapshot) (chunks db))).

Definition getLatestSnapshotSize (ch : string) (db : Db) : option (Z * Z) :=
  (λ c, (seq c, blob_length c)) <$> getLatestSnapshot ch db.

(** [insertSnapshot]: one transaction, so a failed insert leaves everything as it was. *)
Definition insertSnapshot (input : InsertChunkInput) (db : Db) : option (nat * Db) :=
  let previous := getLatestSnapshot (in_channelId input) db in
  match insertChunk {| in_channelId := in_channelId input; in_seq := in_seq input;
                       in_kind := snapshot; in_codec := in_codec input;
                       in_dataBlob := in_dataBlob input;
                       in_uncompressedLen := in_uncompressedLen input |} db with
  | None => None
  | Some (i, db') =>
      match previous with
      | Some p => if seq p <? in_seq input
                  then Some (i, set_chunks (filter (λ c, id c ≠ id p) (chunks db')) db')
                  else Some (i, db')
      | None => Some (i, db')
      end
  end.

(** The first channel id after [after], in SQLite's binary order of texts. *)
Definition text_lt (a b : string) : Prop := String.le a b ∧ a ≠ b.
#[export] Instance text_lt_dec a b : Decision (text_lt a b).
Proof. unfold text_lt. apply _. Defined.
Definition nextChannelId (after : string) (db : Db) : option string :=
  head (merge_sort String.le (filter (λ ch, text_lt after ch) (channelId <$> chunks db))).

Definition listChunkSizesBefore (ch : string) (beforeSeq : Z) (limit : nat) (db : Db)
  : list ChunkSize :=
  to_size <$> take limit
    (order_desc (filter (λ c, channelId c = ch ∧ seq c < beforeSeq) (chunks db))).

(** [@kinds = 'all' OR (kind = 'snapshot') = (@kinds = 'snapshots')] *)
Definition of_kinds (k : ChunkKinds) (c : Chunk) : Prop :=
  match k with
  | all => True
  | snapshots => kind_of c = snapshot
  | others => kind_of c ≠ snapshot
  end.
#[export] Instance of_kinds_dec k c : Decision (of_kinds k c).
Proof. destruct k; simpl; apply _. Defined.

(** The rows a delete batch ranges over. *)
Definition in_range (ch : string) (afterSeq throughSeq : Z) (k : ChunkKinds) (c : Chunk) : Prop :=
  channelId c = ch ∧ afterSeq < seq c ∧ seq c ≤ throughSeq ∧ of_kinds k c.
#[export] Instance in_range_dec ch a t k c : Decision (in_range ch a t k c).
Proof. unfold in_range. apply _. Defined.

(** The loop over the rows picked: their bytes, and the seq to delete through. *)
Fixpoint pick_loop (rows : list Chunk) (limit : Z) (bytes : Z) (last : option Z) : Z * option Z :=
  match rows with
  | [] => (bytes, last)
  | row :: rows' =>
      let bytes := bytes + blob_length row in
      if limit <=? bytes then (bytes, Some (seq row))
      else pick_loop rows' limit bytes (Some (seq row))
  end.

Definition deleteChunkBatch (ch : string) (afterSeq throughSeq : Z) (k : ChunkKinds)
  (limits : ChunkBatchLimits) (db : Db) : ChunkBatchResult * Db :=
  let rows := take (maxRows limits)
                (order_asc (filter (in_range ch afterSeq throughSeq k) (chunks db))) in
  match pick_loop rows (maxBytes limits) 0 None with
  | (_, None) => ({| deleted := 0; bytes := 0; lastSeq := None |}, db)
  | (b, Some last) =>
      let gone := filter (in_range ch afterSeq last k) (chunks db) in
      ({| deleted := Z.of_nat (length gone); bytes := b; lastSeq := Some last |},
       set_chunks (filter (λ c, ¬ in_range ch afterSeq last k c) (chunks db)) db)
  end.

Definition getChannelChunkCount (ch : string) (db : Db) : nat :=
  length (filter (λ c, channelId c = ch) (chunks db)).

Definition total_bytes (l : list Chunk) : Z := foldr (λ c n, blob_length c + n) 0 l.
Definition getChannelSize (ch : string) (db : Db) : Z :=
  total_bytes (filter (λ c, channelId c = ch) (chunks db)).

(** ** The channel as its index has it *)

Definition rows (ch : string) (db : Db) : list Chunk :=
  order_asc (filter (λ c, channelId c = ch) (chunks db)).

(** The constraints of the table: one row per (channel, seq), one per id, and ids drawn so far. *)
Record wf (db : Db) : Prop := {
  wf_unique : ∀ c d, c ∈ chunks db → d ∈ chunks db →
    channelId c = channelId d → seq c = seq d → c = d;
  wf_nodup : NoDup (id <$> chunks db);
  wf_ids : ∀ c, c ∈ chunks db → (id c < nextId db)%nat
}.

Definition seq_lt (c d : Chunk) : Prop := seq c < seq d.

(** ** Ordered lists of rows *)

Section ordering.

#[export] Instance seq_le_trans : Transitive seq_le.
Proof. intros c d e. unfold seq_le. lia. Qed.
#[export] Instance seq_le_total : Total seq_le.
Proof. intros c d. unfold seq_le. lia. Qed.

Lemma order_asc_Permutation l : order_asc l ≡ₚ l.
Proof. apply merge_sort_Permutation. Qed.

Lemma elem_of_order_asc c l : c ∈ order_asc l ↔ c ∈ l.
Proof. by rewrite order_asc_Permutation. Qed.

Lemma order_asc_sorted l : StronglySorted seq_le (order_asc l).
Proof. apply StronglySorted_merge_sort; apply _. Qed.

Lemma StronglySorted_filter {A} (R : relation A) (P : A → Prop) `{∀ x, Decision (P x)} l :
  StronglySorted R l → StronglySorted R (filter P l).
Proof.
  induction 1 as [|x l Hl IH Hx]; [constructor|]. rewrite filter_cons. case_decide; [|done].
  constructor; [done|]. rewrite Forall_forall in *. intros y [_ Hy]%list_elem_of_filter. auto.
Qed.

(** Distinct seqs order one way only. *)
Definition unique_seqs (l : list Chunk) : Prop := ∀ c d, c ∈ l → d ∈ l → seq c = seq d → c = d.

Lemma order_asc_unique l l' :
  unique_seqs l → StronglySorted seq_le l' → l' ≡ₚ l → order_asc l = l'.
Proof.
  intros Hu Hs Hp. apply (StronglySorted_unique_strong seq_le).
  - intros c d Hc Hd H1 H2. rewrite elem_of_order_asc in Hc. rewrite Hp in Hd.
    apply Hu; [done..|]. unfold seq_le in *. lia.
  - apply order_asc_sorted.
  - done.
  - by rewrite order_asc_Permutation, Hp.
Qed.

Lemma order_asc_filter (P : Chunk → Prop) `{∀ c, Decision (P c)} l :
  unique_seqs l → order_asc (filter P l) = filter P (order_asc l).
Proof.
  intros Hu. apply order_asc_unique.
  - intros c d [_ Hc]%list_elem_of_filter [_ Hd]%list_elem_of_filter. by apply Hu.
  - apply StronglySorted_filter, order_asc_sorted.
  - by rewrite order_asc_Permutation.
Qed.

Lemma order_asc_snoc l c :
  (∀ d, d ∈ l → seq d < seq c) → unique_seqs l → order_asc (l ++ [c]) = order_asc l ++ [c].
Proof.
  intros Hlt Hu. apply order_asc_unique.
  - intros d e. rewrite !elem_of_app, !list_elem_of_singleton.
    intros [Hd| ->] [He| ->] Hs; [by apply Hu| | |done].
    + specialize (Hlt _ Hd). lia.
    + specialize (Hlt _ He). lia.
  - apply StronglySorted_app_2; [|apply order_asc_sorted|repeat constructor].
    intros d e Hd ->%list_elem_of_singleton. rewrite elem_of_order_asc in Hd.
    by apply Z.lt_le_incl, Hlt.
  - by rewrite order_asc_Permutation.
Qed.

Lemma sorted_strict l :
  NoDup l → unique_seqs l → StronglySorted seq_le l → StronglySorted seq_lt l.
Proof.
  intros Hnd Hu Hs. induction Hs as [|c l Hl IH Hc]; [constructor|].
  apply NoDup_cons in Hnd as [Hcl Hnd]. constructor.
  - apply IH; [done|]. intros d e Hd He. apply Hu; by right.
  - rewrite Forall_forall in *. intros d Hd. specialize (Hc d Hd). unfold seq_le, seq_lt in *.
    destruct (decide (seq c = seq d)) as [Heq|]; [|lia].
    assert (c = d) by (apply Hu; [by left|by right|done]). congruence.
Qed.
End ordering.

(** ** The table's constraints, kept by every statement *)

Section constraints.
Implicit Types (db : Db) (ch : string).

Lemma wf_unique_seqs ch (P : Chunk → Prop) `{∀ c, Decision (P c)} db :
  wf db → (∀ c, P c → channelId c = ch) → unique_seqs (filter P (chunks db)).
Proof.
  intros Hwf HP c d [Pc Hc]%list_elem_of_filter [Pd Hd]%list_elem_of_filter Hs.
  apply (wf_unique db Hwf); [done..| |done]. by rewrite (HP c Pc), (HP d Pd).
Qed.

Lemma wf_chunks_nodup db : wf db → NoDup (chunks db).
Proof. intros [_ Hnd _]. by apply NoDup_fmap_1 in Hnd. Qed.

Lemma rows_sorted ch db : wf db → StronglySorted seq_lt (rows ch db).
Proof.
  intros Hwf. apply sorted_strict.
  - unfold rows. rewrite order_asc_Permutation. apply NoDup_filter. by apply wf_chunks_nodup.
  - intros c d. unfold rows. rewrite !elem_of_order_asc.
    by apply (wf_unique_seqs ch (λ c, channelId c = ch) db).
  - apply order_asc_sorted.
Qed.

Lemma elem_of_rows c ch db : c ∈ rows ch db ↔ channelId c = ch ∧ c ∈ chunks db.
Proof. unfold rows. by rewrite elem_of_order_asc, list_elem_of_filter. Qed.

Lemma NoDup_rows ch db : wf db → NoDup (rows ch db).
Proof. intros. unfold rows. rewrite order_asc_Permutation. by apply NoDup_filter, wf_chunks_nodup. Qed.

(** The rows of a channel are their set, in the one order it has. *)
Lemma rows_ext ch db db' :
  wf db → wf db' → (∀ c, c ∈ rows ch db' ↔ c ∈ rows ch db) → rows ch db' = rows ch db.
Proof.
  intros Hwf Hwf' Hin. apply (StronglySorted_unique_strong seq_lt); [|by apply rows_sorted..|].
  - intros c d _ _ H1 H2. unfold seq_lt in *. lia.
  - apply NoDup_Permutation; [by apply NoDup_rows..|done].
Qed.

(** What a query on one channel orders is a part of the channel's rows. *)
Lemma order_channel ch (P Q : Chunk → Prop) `{∀ c, Decision (P c), ∀ c, Decision (Q c)} db :
  wf db → (∀ c, P c ↔ channelId c = ch ∧ Q c) →
  order_asc (filter P (chunks db)) = filter Q (rows ch db).
Proof.
  intros Hwf HPQ. unfold rows. rewrite <- order_asc_filter.
  - f_equal. rewrite list_filter_filter. apply list_filter_iff. intros c. rewrite HPQ. tauto.
  - by apply (wf_unique_seqs ch (λ c, channelId c = ch)).
Qed.

Lemma wf_delete (P : Chunk → Prop) `{∀ c, Decision (P c)} db :
  wf db → wf (set_chunks (filter P (chunks db)) db).
Proof.
  intros [Hu Hnd Hid]. split; simpl.
  - intros c d [_ Hc]%list_elem_of_filter [_ Hd]%list_elem_of_filter. by apply Hu.
  - by apply NoDup_fmap_filter.
  - intros c [_ Hc]%list_elem_of_filter. by apply Hid.
Qed.

Lemma wf_insert input db i db' : wf db → insertChunk input db = Some (i, db') → wf db'.
Proof.
  intros [Hu Hnd Hid]. unfold insertChunk. case_decide as Hex; [done|].
  intros [= <- <-]. split; simpl.
  - assert (∀ c, c ∈ chunks db → channelId c = in_channelId input → seq c = in_seq input → False)
      as Hno.
    { intros c Hc H1 H2. apply Hex. apply Exists_exists. by exists c. }
    intros c d. rewrite !elem_of_app, !list_elem_of_singleton.
    intros [Hc| ->] [Hd| ->]; simpl; intros H1 H2; [by apply Hu| | |done].
    + by destruct (Hno c Hc).
    + by destruct (Hno d Hd).
  - rewrite fmap_app. simpl. apply NoDup_app. split_and!; [done| |apply NoDup_singleton].
    intros j (c & -> & Hc)%list_elem_of_fmap Hj%list_elem_of_singleton. specialize (Hid c Hc). lia.
  - intros c. rewrite elem_of_app, list_elem_of_singleton.
    intros [Hc| ->]; simpl; [specialize (Hid c Hc)|]; lia.
Qed.

Lemma wf_insertSnapshot input db i db' : wf db → insertSnapshot input db = Some (i, db') → wf db'.
Proof.
  intros Hwf. unfold insertSnapshot. destruct (insertChunk _ db) as [[j db1]|] eqn:Hi; [|done].
  pose proof (wf_insert _ _ _ _ Hwf Hi). repeat case_match; intros [= <- <-]; auto using wf_delete.
Qed.

Lemma wf_deleteBatch ch a t k l db : wf db → wf (deleteChunkBatch ch a t k l db).2.
Proof. intros. unfold deleteChunkBatch. repeat case_match; simpl; auto using wf_delete. Qed.
End constraints.

(** ** What the statements do to a channel's rows *)

Section statements.
Implicit Types (db : Db) (ch : string).

Lemma total_bytes_app l1 l2 : total_bytes (l1 ++ l2) = total_bytes l1 + total_bytes l2.
Proof. induction l1 as [|c l1 IH]; simpl; [done|]. rewrite IH. lia. Qed.

Lemma total_bytes_cons c l : total_bytes (c :: l) = blob_length c + total_bytes l.
Proof. done. Qed.

Lemma total_bytes_nonneg l : 0 ≤ total_bytes l.
Proof. induction l as [|c l IH]; simpl; [done|]. unfold blob_length. lia. Qed.

Lemma total_bytes_perm l1 l2 : l1 ≡ₚ l2 → total_bytes l1 = total_bytes l2.
Proof. induction 1; simpl; lia. Qed.

Lemma total_bytes_subset l1 l2 :
  NoDup l1 → (∀ c, c ∈ l1 → c ∈ l2) → total_bytes l1 ≤ total_bytes l2.
Proof.
  intros Hnd Hsub. destruct (submseteq_Permutation l1 l2) as [l Hl]; [by apply NoDup_submseteq|].
  rewrite (total_bytes_perm _ _ Hl), total_bytes_app. pose proof (total_bytes_nonneg l). lia.
Qed.

Lemma rows_delete ch (P : Chunk → Prop) `{∀ c, Decision (P c)} db :
  wf db → rows ch (set_chunks (filter P (chunks db)) db) = filter P (rows ch db).
Proof.
  intros Hwf. unfold rows. simpl. rewrite <- order_asc_filter.
  - f_equal. rewrite !list_filter_filter. apply list_filter_iff. tauto.
  - by apply (wf_unique_seqs ch (λ c, channelId c = ch)).
Qed.

(** The row [insertChunk] writes. *)
Definition row_of (input : InsertChunkInput) db : Chunk :=
  {| id := nextId db; channelId := in_channelId input; seq := in_seq input;
     ts := clock db; kind_of := in_kind input; codec_of := default raw (in_codec input);
     dataBlob := in_dataBlob input; uncompressedLen := in_uncompressedLen input |}.

Lemma insertChunk_Some input db i db' :
  insertChunk input db = Some (i, db') →
  i = nextId db ∧ chunks db' = chunks db ++ [row_of input db] ∧ clock db' = clock db ∧
  nextId db' = S (nextId db).
Proof. unfold insertChunk. case_decide; [done|]. by intros [= <- <-]. Qed.

Lemma insertChunk_None input db :
  insertChunk input db = None ↔
  ∃ c, c ∈ rows (in_channelId input) db ∧ seq c = in_seq input.
Proof.
  unfold insertChunk. case_decide as Hex.
  - split; [|done]. intros _. apply Exists_exists in Hex as (c & Hc & Hch & Hs).
    exists c. by rewrite elem_of_rows.
  - split; [done|]. intros (c & [Hch Hc]%elem_of_rows & Hs). destruct Hex.
    apply Exists_exists. eauto.
Qed.

Lemma rows_insert_last input db i db' :
  wf db → insertChunk input db = Some (i, db') →
  (∀ c, c ∈ rows (in_channelId input) db → seq c < in_seq input) →
  rows (in_channelId input) db' = rows (in_channelId input) db ++ [row_of input db].
Proof.
  intros Hwf (_ & Hc & _)%insertChunk_Some Hlt. unfold rows at 1. rewrite Hc, filter_app.
  rewrite filter_cons_True, filter_nil by done. apply order_asc_snoc.
  - intros d Hd. apply Hlt. by apply elem_of_order_asc.
  - by apply (wf_unique_seqs (in_channelId input) (λ c, channelId c = in_channelId input)).
Qed.

Lemma rows_insert_other input db i db' ch :
  insertChunk input db = Some (i, db') → ch ≠ in_channelId input → rows ch db' = rows ch db.
Proof.
  intros (_ & Hc & _)%insertChunk_Some Hne. unfold rows. rewrite Hc, filter_app.
  rewrite filter_cons_False by (simpl; congruence). by rewrite filter_nil, app_nil_r.
Qed.

(** [MAX(seq)] is the greatest seq there is, and NULL for no row. *)
Lemma max_seq_spec l :
  match foldr (λ c m, Some (match m with Some s => Z.max (seq c) s | None => seq c end)) None l with
  | Some m => (∃ c, c ∈ l ∧ seq c = m) ∧ ∀ c, c ∈ l → seq c ≤ m
  | None => l = []
  end.
Proof.
  induction l as [|d l IH]; simpl; [done|]. setoid_rewrite elem_of_cons.
  destruct (foldr _ None l) as [m|] eqn:Hf; rewrite ?Hf.
  - destruct IH as [(c & Hc & <-) Hmax]. split; [|intros e [->|He]; [lia|specialize (Hmax e He); lia]].
    destruct (Z.max_spec (seq d) (seq c)) as [[_ ->]|[_ ->]]; [by exists c; auto|by exists d; auto].
  - subst l. split; [by exists d; auto|]. intros e [->|He%not_elem_of_nil]; [lia|done].
Qed.

Lemma getMaxSeq_ge ch db c : c ∈ rows ch db → seq c ≤ getMaxSeq ch db.
Proof.
  intros Hc. unfold rows in Hc. rewrite elem_of_order_asc in Hc. unfold getMaxSeq.
  pose proof (max_seq_spec (filter (λ c, channelId c = ch) (chunks db))) as Hm.
  case_match; simpl; [by apply Hm|]. rewrite Hm in Hc. by apply not_elem_of_nil in Hc.
Qed.

Lemma getMaxSeq_rows ch db :
  wf db → getMaxSeq ch db = default 0 (seq <$> last (rows ch db)).
Proof.
  intros Hwf. pose proof (rows_sorted ch db Hwf) as Hs. unfold getMaxSeq.
  pose proof (max_seq_spec (filter (λ c, channelId c = ch) (chunks db))) as Hm.
  unfold rows in *. destruct (foldr _ _ _) as [m|]; [|by rewrite Hm].
  destruct Hm as [(c & Hc & <-) Hmax]. setoid_rewrite <- elem_of_order_asc in Hmax.
  rewrite <- elem_of_order_asc in Hc.
  destruct (last (order_asc _)) as [d|] eqn:Hl; simpl.
  - pose proof (last_Some_elem_of _ _ Hl) as Hd. apply last_Some in Hl as [l' Hl'].
    rewrite Hl' in Hs, Hc. specialize (Hmax d Hd).
    apply elem_of_app in Hc as [Hc| ->%list_elem_of_singleton]; [|done].
    apply StronglySorted_app in Hs as (Hlt & _). specialize (Hlt c d Hc ltac:(by left)).
    unfold seq_lt in Hlt. lia.
  - apply last_None in Hl. rewrite Hl in Hc. by apply not_elem_of_nil in Hc.
Qed.

Lemma pick_loop_spec l limit b last0 :
  ∃ n, (n ≤ length l)%nat ∧ (0 < length l → 0 < n)%nat ∧
    pick_loop l limit b last0 =
      (b + total_bytes (take n l), match last (take n l) with Some c => Some (seq c) | None => last0 end) ∧
    (∀ m, (0 < m < n)%nat → b + total_bytes (take m l) < limit) ∧
    (n = length l ∨ limit ≤ b + total_bytes (take n l)).
Proof.
  revert b last0. induction l as [|c l IH]; intros b last0.
  - exists 0%nat. simpl. split_and!; [lia..| |lia|by left]. by rewrite Z.add_0_r.
  - cbn [pick_loop]. destruct (limit <=? b + blob_length c) eqn:Hle.
    + exists 1%nat. rewrite firstn_cons, take_0, total_bytes_cons. simpl.
      split_and!; [lia..| |lia|right; lia]. f_equal. lia.
    + destruct (IH (b + blob_length c) (Some (seq c))) as (n & Hn & Hpos & -> & Hlt & Hor).
      exists (S n). rewrite firstn_cons, total_bytes_cons, last_cons. cbn [length].
      split_and!; [lia..| | |].
      * f_equal; [lia|]. by case_match.
      * intros [|m] Hm; [lia|]. rewrite firstn_cons, total_bytes_cons.
        destruct m as [|m]; [rewrite take_0; simpl; lia|]. specialize (Hlt (S m)). lia.
      * destruct Hor as [->|Hor]; [by left|right; lia].
Qed.

(** Of rows in order, one's seq parts those up to it from those after it. *)
Lemma sorted_take n l c :
  StronglySorted seq_lt l → last (take n l) = Some c →
  Forall (λ d, seq d ≤ seq c) (take n l) ∧ Forall (λ d, seq c < seq d) (drop n l).
Proof.
  intros Hs Hl. rewrite <- (take_drop n l) in Hs.
  apply StronglySorted_app in Hs as (Hlt & Hs1 & _). split; apply Forall_forall.
  - apply last_Some in Hl as [l' Hl']. rewrite Hl' in *.
    intros d [Hd| ->%list_elem_of_singleton]%elem_of_app; [|done].
    apply StronglySorted_app in Hs1 as (Hlt1 & _). apply Z.lt_le_incl, (Hlt1 d c Hd). by left.
  - intros d Hd. apply (Hlt c d); [by apply last_Some_elem_of|done].
Qed.

Lemma filter_through n l c :
  StronglySorted seq_lt l → last (take n l) = Some c →
  filter (λ d, seq d ≤ seq c) l = take n l.
Proof.
  intros Hs Hl. destruct (sorted_take n l c Hs Hl) as [Hle Hgt].
  rewrite <- (take_drop n l) at 1. rewrite filter_app, filter_all, filter_none; [|..|done].
  - by rewrite app_nil_r.
  - eapply Forall_impl; [exact Hgt|]. intros; simpl in *; lia.
Qed.

Lemma filter_after n l c :
  StronglySorted seq_lt l → last (take n l) = Some c →
  filter (λ d, seq c < seq d) l = drop n l.
Proof.
  intros Hs Hl. destruct (sorted_take n l c Hs Hl) as [Hle Hgt].
  rewrite <- (take_drop n l) at 1. rewrite filter_app, filter_none, filter_all; [done..|].
  eapply Forall_impl; [exact Hle|]. intros; simpl in *; lia.
Qed.
End statements.

(** ** The delete batch *)

Section batches.
Implicit Types (db : Db) (ch : string).

(** Deleting through the seq of the last row picked deletes the rows picked. *)
Lemma in_range_through ch a t k n c db :
  wf db → let M := filter (in_range ch a t k) (rows ch db) in
  last (take n M) = Some c → filter (in_range ch a (seq c) k) (rows ch db) = take n M.
Proof.
  intros Hwf M Hl. assert (in_range ch a t k c) as (_ & _ & Hct & _).
  { apply last_Some_elem_of in Hl. apply elem_of_take in Hl as (i & Hi & _).
    apply list_elem_of_lookup_2, list_elem_of_filter in Hi. tauto. }
  rewrite <- (filter_through n M c); [|by apply StronglySorted_filter, rows_sorted|done].
  unfold M. rewrite list_filter_filter. apply list_filter_iff. intros d. unfold in_range.
  split; [|tauto]. intros (? & ? & ? & ?). split_and!; [done..|lia|done].
Qed.

Lemma rows_remove ch (P : Chunk → Prop) `{∀ c, Decision (P c)} db :
  filter (λ c, ¬ P c) (rows ch db) = filter (λ c, c ∉ filter P (rows ch db)) (rows ch db).
Proof.
  apply filter_ext_in. intros c Hc. rewrite list_elem_of_filter. tauto.
Qed.

Lemma deleteChunkBatch_rows ch a t k limits db :
  wf db →
  let M := filter (in_range ch a t k) (rows ch db) in
  let r := deleteChunkBatch ch a t k limits db in
  ∃ n, let gone := take n M in
    rows ch r.2 = filter (λ c, c ∉ gone) (rows ch db) ∧
    (∀ ch', ch' ≠ ch → rows ch' r.2 = rows ch' db) ∧
    r.1 = {| deleted := Z.of_nat (length gone); bytes := total_bytes gone;
             lastSeq := seq <$> last gone |} ∧
    (n ≤ maxRows limits `min` length M)%nat ∧ (0 < maxRows limits → M ≠ [] → 0 < n)%nat ∧
    (∀ m, (0 < m < n)%nat → total_bytes (take m M) < maxBytes limits) ∧
    (n = (maxRows limits `min` length M)%nat ∨ maxBytes limits ≤ total_bytes gone).
Proof.
  intros Hwf M r. unfold r, deleteChunkBatch. clear r.
  rewrite (order_channel ch (in_range ch a t k) (in_range ch a t k))
    by (done || unfold in_range; tauto). fold M.
  destruct (pick_loop_spec (take (maxRows limits) M) (maxBytes limits) 0 None)
    as (n & Hn & Hpos & -> & Hlt & Hor).
  rewrite length_take in Hn, Hpos, Hor. rewrite take_take in Hor |- *.
  rewrite (Nat.min_l n) in Hor |- * by lia. exists n.
  assert ((length M = 0)%nat → M = []) by apply nil_length_inv.
  assert ((∀ m, (0 < m < n)%nat → total_bytes (take m M) < maxBytes limits)) as Hlt'.
  { intros m Hm. specialize (Hlt m Hm). rewrite take_take, Nat.min_l in Hlt by lia. lia. }
  assert (0 < maxRows limits → M ≠ [] → 0 < n)%nat.
  { intros. destruct (decide (length M = 0%nat)); [exfalso; auto|lia]. }
  destruct (last (take n M)) as [c|] eqn:Hl; simpl.
  - pose proof (in_range_through ch a t k n c db Hwf Hl) as Hgone.
    split_and!; [| | |lia|done..|lia].
    + by rewrite rows_delete, rows_remove, Hgone.
    + intros ch' Hne. rewrite rows_delete by done. apply filter_all, Forall_forall.
      intros d [Hd _]%elem_of_rows (Hd' & _). congruence.
    + rewrite Z.add_0_l. f_equal. f_equal. fold M in Hgone. rewrite <- Hgone.
      rewrite <- (order_channel ch (in_range ch a (seq c) k) (in_range ch a (seq c) k))
        by (done || unfold in_range; tauto). by rewrite order_asc_Permutation.
  - apply last_None in Hl. rewrite Hl in *. split_and!; [|done|done|lia|done..|lia].
    symmetry. apply filter_all, Forall_forall. intros d _. apply not_elem_of_nil.
Qed.
End batches.

(** ** Queries read from the channel's rows *)

Section queries.
Implicit Types (db : Db) (ch : string).

Lemma getLatestSnapshot_rows ch db :
  wf db → getLatestSnapshot ch db = last (filter (λ c, kind_of c = snapshot) (rows ch db)).
Proof.
  intros Hwf. unfold getLatestSnapshot, order_desc.
  rewrite (order_channel ch _ (λ c, kind_of c = snapshot)) by done.
  by rewrite <- last_reverse, reverse_involutive.
Qed.

Lemma getLatestSnapshot_Some ch db c :
  wf db → getLatestSnapshot ch db = Some c ↔
  c ∈ rows ch db ∧ kind_of c = snapshot ∧
  ∀ d, d ∈ rows ch db → kind_of d = snapshot → seq d ≤ seq c.
Proof.
  intros Hwf. rewrite getLatestSnapshot_rows by done.
  pose proof (rows_sorted ch db Hwf) as Hs.
  set (l := filter _ _). assert (StronglySorted seq_lt l) as Hl by by apply StronglySorted_filter.
  assert (∀ d, d ∈ l ↔ kind_of d = snapshot ∧ d ∈ rows ch db) as Hin
    by (intros d; unfold l; by rewrite list_elem_of_filter).
  destruct (last l) as [d|] eqn:Hd.
  - pose proof (last_Some_elem_of _ _ Hd) as Hdl. apply last_Some in Hd as [l' Hl'].
    assert (∀ e, e ∈ l → e = d ∨ seq e < seq d) as Hmax.
    { rewrite Hl' in *. intros e [He| ->%list_elem_of_singleton]%elem_of_app; [right|by left].
      apply StronglySorted_app in Hl as (Hlt & _). apply (Hlt e d He). by left. }
    apply Hin in Hdl as [Hk Hdr]. split.
    + intros [= ->]. split_and!; [done..|]. intros e He Hke.
      destruct (Hmax e) as [->|]; [by apply Hin|lia..].
    + intros (Hc & Hkc & Hcmax). f_equal. specialize (Hcmax d Hdr Hk).
      destruct (Hmax c) as [->|]; [by apply Hin|done|lia].
  - split; [done|]. intros (Hc & Hk & _). apply last_None in Hd.
    assert (c ∈ l) as Hcl by by apply Hin. rewrite Hd in Hcl. by apply not_elem_of_nil in Hcl.
Qed.

Lemma listChunkSizesBefore_rows ch before limit db :
  wf db → listChunkSizesBefore ch before limit db =
    to_size <$> take limit (reverse (filter (λ c, seq c < before) (rows ch db))).
Proof.
  intros Hwf. unfold listChunkSizesBefore, order_desc. do 3 f_equal.
  by apply order_channel.
Qed.

Lemma getChunksByChannel_rows ch k afterSeq limit db :
  wf db → getChunksByChannel ch k afterSeq limit db =
    let l := filter (λ c, when_given (λ k, kind_of c = k) k ∧ when_given (λ s, s < seq c) afterSeq)
                    (rows ch db) in
    match limit with Some n => take n l | None => l end.
Proof.
  intros Hwf. unfold getChunksByChannel.
  rewrite (order_channel ch _ (λ c, when_given (λ k, kind_of c = k) k ∧
                                    when_given (λ s, s < seq c) afterSeq)); [done|done|].
  intros c. tauto.
Qed.

Lemma elem_insertSnapshot input db i db' :
  wf db → insertSnapshot input db = Some (i, db') →
  let ch := in_channelId input in
  let new := row_of {| in_channelId := ch; in_seq := in_seq input; in_kind := snapshot;
                       in_codec := in_codec input; in_dataBlob := in_dataBlob input;
                       in_uncompressedLen := in_uncompressedLen input |} db in
  i = id new ∧
  ∀ c, c ∈ chunks db' ↔
       c = new ∨ (c ∈ chunks db ∧ ¬ (getLatestSnapshot ch db = Some c ∧ seq c < in_seq input)).
Proof.
  intros Hwf Hins ch new. unfold insertSnapshot in Hins.
  destruct (insertChunk _ db) as [[j db1]|] eqn:Hi; [|done].
  pose proof (wf_insert _ _ _ _ Hwf Hi) as Hwf1.
  apply insertChunk_Some in Hi as (-> & Hc1 & _). fold ch new in Hc1, Hins.
  assert (∀ c, c ∈ chunks db1 ↔ c ∈ chunks db ∨ c = new) as Hin.
  { intros c. by rewrite Hc1, elem_of_app, list_elem_of_singleton. }
  destruct (getLatestSnapshot ch db) as [p|] eqn:Hp.
  - destruct (seq p <? in_seq input) eqn:Hlt; injection Hins as <- <-.
    + split; [done|]. intros c. simpl. rewrite list_elem_of_filter, Hin.
      assert (p ∈ chunks db) as Hpin.
      { destruct (proj1 (getLatestSnapshot_Some ch db p Hwf) Hp) as (Hr & _).
        by apply elem_of_rows in Hr as [_ ?]. }
      assert (c ∈ chunks db → id c = id p → c = p) as Huniq.
      { intros Hc Heq. destruct Hwf as [_ Hnd _].
        apply list_elem_of_lookup in Hc as [n Hn]. apply list_elem_of_lookup in Hpin as [m Hm].
        assert (n = m) as ->; [|congruence].
        apply (NoDup_lookup _ n m (id c)) in Hnd; [done|by rewrite list_lookup_fmap, Hn|].
        by rewrite list_lookup_fmap, Hm, Heq. }
      assert (id p < id new)%nat by (destruct Hwf as [_ _ Hid]; by apply Hid).
      split.
      * intros [Hne [Hc| ->]]; [right; split; [done|]; intros [[= ->] _]; done|by left].
      * intros [->|[Hc Hn]]; [split; [lia|by right]|]. split; [|by left].
        intros Heq. apply Hn. rewrite (Huniq Hc Heq). split; [done|lia].
    + split; [done|]. intros c. rewrite Hin. split; [|tauto].
      intros [Hc| ->]; [right|by left]. split; [done|]. intros [[= ->] ?]. lia.
  - injection Hins as <- <-. split; [done|]. intros c. rewrite Hin. split; [|tauto].
    intros [Hc| ->]; [right|by left]. split; [done|]. by intros [? _].
Qed.

Lemma insertSnapshot_None input db :
  insertSnapshot input db = None → ∃ c, c ∈ rows (in_channelId input) db ∧ seq c = in_seq input.
Proof.
  unfold insertSnapshot. destruct (insertChunk _ db) as [[j db1]|] eqn:Hi.
  - intros Hins. repeat case_match; done.
  - intros _. by apply insertChunk_None in Hi.
Qed.

(** When every snapshot of the channel is older, the new one becomes its newest. *)
Lemma insertSnapshot_latest input db i db' :
  wf db → insertSnapshot input db = Some (i, db') →
  (∀ c, c ∈ rows (in_channelId input) db → kind_of c = snapshot → seq c < in_seq input) →
  getLatestSnapshot (in_channelId input) db' =
    Some (row_of {| in_channelId := in_channelId input; in_seq := in_seq input;
                    in_kind := snapshot; in_codec := in_codec input;
                    in_dataBlob := in_dataBlob input;
                    in_uncompressedLen := in_uncompressedLen input |} db).
Proof.
  intros Hwf Hins Hold. pose proof (wf_insertSnapshot _ _ _ _ Hwf Hins) as Hwf'.
  destruct (elem_insertSnapshot _ _ _ _ Hwf Hins) as [-> Hin].
  apply getLatestSnapshot_Some; [done|]. rewrite elem_of_rows, Hin.
  split_and!; [done|by left|done|]. intros d [Hch Hd]%elem_of_rows Hk.
  apply Hin in Hd as [->|[Hd _]]; [done|]. apply Z.lt_le_incl, Hold; [by apply elem_of_rows|done].
Qed.
End queries.

(** ** The spool, for those who write to it *)

(** What a writer relies on: its rows are read back in order, an insert above a channel's seqs
    appends there and nowhere else, and never fails. *)
Class SpoolStore (D : Type) := {
  st_ok : D → Prop;
  st_rows : string → D → list Chunk;
  st_insert : InsertChunkInput → D → option (nat * D);
  st_maxSeq : string → D → Z;
  st_insert_ok input d i d' : st_ok d → st_insert input d = Some (i, d') → st_ok d';
  st_insert_None input d :
    st_insert input d = None → ∃ c, c ∈ st_rows (in_channelId input) d ∧ seq c = in_seq input;
  st_insert_same input d i d' :
    st_ok d → st_insert input d = Some (i, d') →
    (∀ c, c ∈ st_rows (in_channelId input) d → seq c < in_seq input) →
    ∃ c, st_rows (in_channelId input) d' = st_rows (in_channelId input) d ++ [c] ∧
      seq c = in_seq input ∧ kind_of c = in_kind input ∧ dataBlob c = in_dataBlob input ∧
      uncompressedLen c = in_uncompressedLen input;
  st_insert_other input d i d' ch :
    st_insert input d = Some (i, d') → ch ≠ in_channelId input → st_rows ch d' = st_rows ch d;
  st_maxSeq_ge ch d c : c ∈ st_rows ch d → seq c ≤ st_maxSeq ch d
}.

#[export] Instance SpoolDal_store : SpoolStore Db := {
  st_ok := wf; st_rows := rows; st_insert := insertChunk; st_maxSeq := getMaxSeq;
  st_insert_ok := wf_insert;
  st_insert_None input d H := proj1 (insertChunk_None input d) H;
  st_insert_same := λ input d i d' Hwf Hi Hlt,
    ex_intro _ (row_of input d) (conj (rows_insert_last input d i d' Hwf Hi Hlt)
      (conj eq_refl (conj eq_refl (conj eq_refl eq_refl))));
  st_insert_other := rows_insert_other;
  st_maxSeq_ge := getMaxSeq_ge
}.

(** ** Properties *)

(** [insertSnapshot] is atomic: it fails only on a seq the channel already has, and then
    changes nothing; otherwise the rows are the new snapshot and all those there were, less the
    snapshot that was the newest if the new one is newer. So when every snapshot of the channel is
    older, the new one is what an attach finds, and the table's constraints still hold. *)
Theorem insertSnapshot_replaces input db :
  wf db →
  let ch := in_channelId input in
  match insertSnapshot input db with
  | None => ∃ c, c ∈ rows ch db ∧ seq c = in_seq input
  | Some (i, db') =>
      wf db' ∧
      ∃ new, id new = i ∧ kind_of new = snapshot ∧ seq new = in_seq input ∧
        dataBlob new = in_dataBlob input ∧
        (∀ c, c ∈ chunks db' ↔ c = new ∨
           (c ∈ chunks db ∧ ¬ (getLatestSnapshot ch db = Some c ∧ seq c < in_seq input))) ∧
        ((∀ c, c ∈ rows ch db → kind_of c = snapshot → seq c < in_seq input) →
         getLatestSnapshot ch db' = Some new)
  end.
Proof.
  intros Hwf ch. destruct (insertSnapshot input db) as [[i db']|] eqn:Hins.
  - pose proof (wf_insertSnapshot _ _ _ _ Hwf Hins) as Hwf'. split; [done|].
    destruct (elem_insertSnapshot _ _ _ _ Hwf Hins) as [-> Hin]. eexists.
    do 4 (split; [reflexivity|]). split; [exact Hin|].
    exact (insertSnapshot_latest _ _ _ _ Hwf Hins).
  - by apply insertSnapshot_None.
Qed.

(** A delete batch deletes the oldest rows of its range and kinds, as many as its limits allow
    and no others: never more than [maxRows], stopping at the first row that reaches [maxBytes],
    at least one when there is one. It reports their count, their bytes and the last one's seq,
    from which the next batch continues; other channels keep every row. *)
Theorem deleteChunkBatch_exact ch a t k limits db :
  wf db →
  let M := filter (in_range ch a t k) (rows ch db) in
  let r := deleteChunkBatch ch a t k limits db in
  wf r.2 ∧
  ∃ n, let gone := take n M in
    rows ch r.2 = filter (λ c, c ∉ gone) (rows ch db) ∧
    (∀ ch', ch' ≠ ch → rows ch' r.2 = rows ch' db) ∧
    r.1 = {| deleted := Z.of_nat (length gone); bytes := total_bytes gone;
             lastSeq := seq <$> last gone |} ∧
    (n ≤ maxRows limits `min` length M)%nat ∧ (0 < maxRows limits → M ≠ [] → 0 < n)%nat ∧
    (∀ m, (0 < m < n)%nat → total_bytes (take m M) < maxBytes limits) ∧
    (n = (maxRows limits `min` length M)%nat ∨ maxBytes limits ≤ total_bytes gone).
Proof. intros Hwf. split; [by apply wf_deleteBatch|by apply deleteChunkBatch_rows]. Qed.

(** Every query of a channel reads the channel's rows in the order of their seqs, which are
    distinct: chunks after a seq and of a kind, the newest snapshot, and the sizes the collector
    walks, newest first. *)
Theorem spool_queries ch db :
  wf db →
  StronglySorted seq_lt (rows ch db) ∧
  (∀ k a limit, getChunksByChannel ch k a limit db =
     let l := filter (λ c, when_given (λ k, kind_of c = k) k ∧ when_given (λ s, s < seq c) a)
                     (rows ch db) in
     match limit with Some n => take n l | None => l end) ∧
  getLatestSnapshot ch db = last (filter (λ c, kind_of c = snapshot) (rows ch db)) ∧
  (∀ before limit, listChunkSizesBefore ch before limit db =
     to_size <$> take limit (reverse (filter (λ c, seq c < before) (rows ch db)))) ∧
  getMaxSeq ch db = default 0 (seq <$> last (rows ch db)) ∧
  getChannelChunkCount ch db = length (rows ch db) ∧
  getChannelSize ch db = total_bytes (rows ch db).
Proof.
  intros Hwf. split_and!.
  - by apply rows_sorted.
  - intros. by apply getChunksByChannel_rows.
  - by apply getLatestSnapshot_rows.
  - intros. by apply listChunkSizesBefore_rows.
  - by apply getMaxSeq_rows.
  - unfold getChannelChunkCount, rows. by rewrite order_asc_Permutation.
  - apply total_bytes_perm. unfold rows. by rewrite order_asc_Permutation.
Qed.

(** ** Witnesses *)

Definition demo_input (s : Z) (k : kind) (n : nat) : InsertChunkInput :=
  {| in_channelId := "c"; in_seq := s; in_kind := k; in_codec := None;
     in_dataBlob := repeat x61 n; in_uncompressedLen := Z.of_nat n |}.
Definition demo_empty : Db := {| chunks := []; nextId := 0; clock := 0 |}.
Definition demo_insert (db : Db) (i : InsertChunkInput) : Db :=
  from_option snd db (insertChunk i db).
Definition demo_db : Db :=
  fold_left demo_insert [demo_input 1 output 3; demo_input 2 snapshot 5; demo_input 3 output 2]
            demo_empty.

Lemma wf_empty n t : wf {| chunks := []; nextId := n; clock := t |}.
Proof. split; simpl; [by intros ?? ?%not_elem_of_nil|constructor|by intros ? ?%not_elem_of_nil]. Qed.

Lemma wf_demo_insert db i : wf db → wf (demo_insert db i).
Proof.
  unfold demo_insert. intros. destruct (insertChunk i db) as [[]|] eqn:Hi; simpl; [|done].
  by eapply wf_insert.
Qed.

Lemma wf_demo : wf demo_db.
Proof. unfold demo_db. cbn [fold_left]. do 3 apply wf_demo_insert. apply wf_empty. Qed.

Lemma insertSnapshot_replaces_witness :
  ∃ r, insertSnapshot (demo_input 4 snapshot 6) demo_db = Some r ∧
       seq <$> getLatestSnapshot "c" r.2 = Some 4 ∧ (seq <$> rows "c" r.2) = [1; 3; 4] ∧ wf r.2.
Proof.
  eexists. split; [reflexivity|]. split; [reflexivity|]. split; [reflexivity|].
  exact (proj1 (insertSnapshot_replaces (demo_input 4 snapshot 6) demo_db wf_demo)).
Defined.

Lemma deleteChunkBatch_exact_witness :
  let r := deleteChunkBatch "c" 0 3 others {| maxRows := 256; maxBytes := 1 |} demo_db in
  r.1 = {| deleted := 1; bytes := 3; lastSeq := Some 1 |} ∧ wf r.2.
Proof.
  split; [reflexivity|].
  exact (proj1 (deleteChunkBatch_exact "c" 0 3 others {| maxRows := 256; maxBytes := 1 |}
                  demo_db wf_demo)).
Defined.

Lemma spool_queries_witness :
  getMaxSeq "c" demo_db = 3 ∧ StronglySorted seq_lt (rows "c" demo_db).
Proof. split; [reflexivity|]. exact (proj1 (spool_queries "c" demo_db wf_demo)). Defined.
