(* ===== verification/OutputChunker.v ===== *)
(** * Spooling a terminal's output ([packages/hub/src/session/output-chunker.ts])

    [OutputChunker] gathers each channel's output and writes it to the spool in chunks: at 256 KB,
    one second after the first byte waiting, or when asked. It is written against [SpoolStore], so
    its theorems hold for any store with those laws, [SpoolDal]'s table among them. A call that
    throws is [(threw, s)], with the state it leaves. *)

From Stdlib.Strings Require Import Byte.
From S2P Require Import Prelude JsMap SpoolDal.
#[local] Open Scope lasterm_scope.
#[local] Open Scope Z_scope.

Definition CHUNK_MAX_BYTES : Z := 256 * 1024.

(** The buffer of a channel; [timer] says whether its flush timer is armed. *)
Record ChannelBuffer := { chunks : list (list byte); totalBytes : Z; timer : bool; nextSeq : Z }.

Record OutputChunker (D : Type) := { channels : jsmap string ChannelBuffer; spoolDal : D }.
Arguments channels {D} _.
Arguments spoolDal {D} _.

Inductive outcome := ok | threw.

Inductive op :=
| TrackChannel (channelId : string) (startSeq : option Z)
| OnOutput (channelId : string) (data : list byte)
| Timeout (channelId : string)
| Flush (channelId : string)
| UntrackChannel (channelId : string)
| BumpSeq (channelId : string) (minSeq : Z)
| Shutdown.

(** [result.set(chunk, offset)] for each chunk: a [RangeError] is [None]. *)
Fixpoint concat_loop (cs : list (list byte)) (offset : nat) (result : list byte)
  : option (list byte) :=
  match cs with
  | [] => Some result
  | c :: cs' =>
      if decide (offset + length c <= length result)%nat
      then concat_loop cs' (offset + length c) (list_inserts offset c result)
      else None
  end.

Definition concatChunks (cs : list (list byte)) (total : Z) : option (list byte) :=
  concat_loop cs 0 (replicate (Z.to_nat total) x00).

Section operations.
Context {D : Type} `{SpoolStore D}.
Implicit Types (s : OutputChunker D) (ch : string).

Definition set_channels (f : jsmap string ChannelBuffer → jsmap string ChannelBuffer) s :=
  {| channels := f (channels s); spoolDal := spoolDal s |}.
Definition set_dal (d : D) s := {| channels := channels s; spoolDal := d |}.

Definition trackChannel ch (startSeq : option Z) s : OutputChunker D :=
  if js_has ch (channels s) then s
  else
    let resumeSeq := default (st_maxSeq ch (spoolDal s) + 1) startSeq in
    set_channels (insert ch {| chunks := []; totalBytes := 0; timer := false;
                               nextSeq := resumeSeq |}) s.

Definition flush ch s : outcome * OutputChunker D :=
  match channels s !! ch with
  | None => (ok, s)
  | Some buf =>
      if totalBytes buf =? 0 then (ok, s)
      else
        match concatChunks (chunks buf) (totalBytes buf) with
        | None => (threw, s)
        | Some blob =>
            match st_insert {| in_channelId := ch; in_seq := nextSeq buf; in_kind := output;
                               in_codec := None; in_dataBlob := blob;
                               in_uncompressedLen := Z.of_nat (length blob) |} (spoolDal s) with
            | None => (threw, s)
            | Some (_, d) =>
                (ok, set_dal d (set_channels (insert ch
                       {| chunks := []; totalBytes := 0; timer := false;
                          nextSeq := nextSeq buf + 1 |}) s))
            end
        end
  end.

Definition onOutput ch (data : list byte) s : outcome * OutputChunker D :=
  match channels s !! ch with
  | None => (ok, s)
  | Some buf =>
      let total := totalBytes buf + Z.of_nat (length data) in
      let buf' := {| chunks := chunks buf ++ [data]; totalBytes := total; timer := timer buf;
                     nextSeq := nextSeq buf |} in
      if CHUNK_MAX_BYTES <=? total then flush ch (set_channels (insert ch buf') s)
      else (ok, set_channels (insert ch {| chunks := chunks buf'; totalBytes := total;
                                           timer := true; nextSeq := nextSeq buf |}) s)
  end.

(** The callback of the flush timer; the timer that is not armed does not fire. *)
Definition onTimeout ch s : outcome * OutputChunker D :=
  match channels s !! ch with
  | Some buf =>
      if timer buf then
        flush ch (set_channels (insert ch {| chunks := chunks buf; totalBytes := totalBytes buf;
                                             timer := false; nextSeq := nextSeq buf |}) s)
      else (ok, s)
  | None => (ok, s)
  end.

Definition untrackChannel ch s : outcome * OutputChunker D :=
  match flush ch s with
  | (threw, s') => (threw, s')
  | (ok, s') => (ok, set_channels (delete ch) s')
  end.

Fixpoint shutdown_loop (ks : list string) s : outcome * OutputChunker D :=
  match ks with
  | [] => (ok, s)
  | ch :: ks' =>
      match untrackChannel ch s with
      | (threw, s') => (threw, s')
      | (ok, s') => shutdown_loop ks' s'
      end
  end.
Definition shutdown s : outcome * OutputChunker D := shutdown_loop (js_keys (channels s)) s.

Definition getNextSeq ch s : Z :=
  match channels s !! ch with Some buf => nextSeq buf | None => 1 end.

Definition bumpSeq ch (minSeq : Z) s : OutputChunker D :=
  match channels s !! ch with
  | Some buf =>
      if nextSeq buf <? minSeq
      then set_channels (insert ch {| chunks := chunks buf; totalBytes := totalBytes buf;
                                      timer := timer buf; nextSeq := minSeq |}) s
      else s
  | None => s
  end.

Definition exec s (o : op) : outcome * OutputChunker D :=
  match o with
  | TrackChannel ch startSeq => (ok, trackChannel ch startSeq s)
  | OnOutput ch data => onOutput ch data s
  | Timeout ch => onTimeout ch s
  | Flush ch => flush ch s
  | UntrackChannel ch => untrackChannel ch s
  | BumpSeq ch n => (ok, bumpSeq ch n s)
  | Shutdown => shutdown s
  end.
Definition step s (o : op) : OutputChunker D := (exec s o).2.

(** ** What is kept of a channel's output *)

(** The output of a channel the spool holds, and what waits to be written. *)
Definition spooled ch (d : D) : list byte :=
  concat (dataBlob <$> filter (λ c, kind_of c = output) (st_rows ch d)).
Definition buffered ch s : list byte :=
  match channels s !! ch with Some buf => concat (chunks buf) | None => [] end.
Definition kept ch s : list byte := spooled ch (spoolDal s) ++ buffered ch s.

(** What an operation adds to a channel's output: what arrives while the channel is tracked. *)
Definition heard ch s (o : op) : list byte :=
  match o with
  | OnOutput ch' data => if decide (ch' = ch) then if js_has ch (channels s) then data else []
                         else []
  | _ => []
  end.
Fixpoint heard_all ch s (os : list op) : list byte :=
  match os with
  | [] => []
  | o :: os' => heard ch s o ++ heard_all ch (step s o) os'
  end.

(** A channel is tracked from the seq the spool is at, as every caller does. *)
Definition resumes (o : op) : Prop :=
  match o with TrackChannel _ (Some _) => False | _ => True end.

(** The buffers agree with their totals, hold less than a chunk, have a timer running when they
    hold anything, and write above what the spool holds. *)
Record buffer_ok (d : D) ch (buf : ChannelBuffer) : Prop := {
  buf_total : totalBytes buf = Z.of_nat (length (concat (chunks buf)));
  buf_bound : totalBytes buf < CHUNK_MAX_BYTES;
  buf_timer : 0 < totalBytes buf → timer buf = true;
  buf_seq : ∀ c, c ∈ st_rows ch d → seq c < nextSeq buf
}.
Definition inv s : Prop :=
  st_ok (spoolDal s) ∧ ∀ ch buf, channels s !! ch = Some buf → buffer_ok (spoolDal s) ch buf.
End operations.

(** ** Lemmas *)

Section lemmas.
Context {D : Type} `{SpoolStore D}.
Implicit Types (s : OutputChunker D) (ch : string).

Lemma concat_loop_spec cs offset result :
  length result = (offset + length (concat cs))%nat →
  concat_loop cs offset result = Some (take offset result ++ concat cs).
Proof.
  revert offset result. induction cs as [|c cs IH]; intros offset result Hl; simpl in *.
  - rewrite app_nil_r, take_ge by lia. done.
  - rewrite length_app in Hl. rewrite decide_True by lia. rewrite IH.
    + f_equal. rewrite app_assoc. f_equal. apply list_eq. intros i.
      destruct (decide (i < offset)%nat) as [Hi|Hi].
      * rewrite lookup_take_lt by lia. rewrite list_lookup_inserts_lt by done.
        by rewrite lookup_app_l, lookup_take_lt by (rewrite ?length_take; lia).
      * rewrite lookup_app_r by (rewrite length_take; lia).
        rewrite length_take, Nat.min_l by lia.
        destruct (decide (i < offset + length c)%nat).
        -- rewrite lookup_take_lt by lia. by rewrite list_lookup_inserts by lia.
        -- rewrite lookup_take_ge by lia. symmetry. apply lookup_ge_None. lia.
    + rewrite length_inserts. lia.
Qed.

(** The copies fill the buffer: it is the chunks in a row. *)
Lemma concatChunks_spec cs :
  concatChunks cs (Z.of_nat (length (concat cs))) = Some (concat cs).
Proof.
  unfold concatChunks. rewrite concat_loop_spec; [done|].
  by rewrite length_replicate, Nat2Z.id.
Qed.

(** What [flush] needs: every other buffer is as it should be, this one may be over full. *)
Definition inv_but ch s : Prop :=
  st_ok (spoolDal s) ∧
  (∀ ch' buf, ch' ≠ ch → channels s !! ch' = Some buf → buffer_ok (spoolDal s) ch' buf) ∧
  ∀ buf, channels s !! ch = Some buf →
    totalBytes buf = Z.of_nat (length (concat (chunks buf))) ∧
    ∀ c, c ∈ st_rows ch (spoolDal s) → seq c < nextSeq buf.

Lemma inv_inv_but ch s : inv s → inv_but ch s.
Proof.
  intros [Hok Hb]. split_and!; [done|by auto|]. intros buf Hbuf.
  by destruct (Hb _ _ Hbuf).
Qed.

Lemma buffer_ok_empty (d : D) ch n :
  (∀ c, c ∈ st_rows ch d → seq c < n) →
  buffer_ok d ch {| chunks := []; totalBytes := 0; timer := false; nextSeq := n |}.
Proof. by split. Qed.

Lemma kept_ext ch s s' :
  st_rows ch (spoolDal s') = st_rows ch (spoolDal s) → buffered ch s' = buffered ch s →
  kept ch s' = kept ch s.
Proof. intros Hr Hb. unfold kept, spooled. by rewrite Hr, Hb. Qed.

Lemma buffered_insert ch ch' buf s :
  buffered ch' (set_channels (insert ch buf) s) =
  if decide (ch = ch') then concat (chunks buf) else buffered ch' s.
Proof. unfold buffered. simpl. rewrite js_lookup_insert. by case_decide. Qed.

(** The spool only gains output, above what each channel has. *)
Definition grows (d d' : D) : Prop :=
  ∀ ch, ∃ new, st_rows ch d' = st_rows ch d ++ new ∧
    Forall (λ c, kind_of c = output ∧ ∀ e, e ∈ st_rows ch d → seq e < seq c) new.

#[export] Instance grows_refl : Reflexive grows.
Proof. intros d ch. exists []. by rewrite app_nil_r. Qed.

#[export] Instance grows_trans : Transitive grows.
Proof.
  intros d1 d2 d3 H12 H23 ch. destruct (H12 ch) as (n1 & Hr1 & Hf1).
  destruct (H23 ch) as (n2 & Hr2 & Hf2). exists (n1 ++ n2).
  split; [by rewrite Hr2, Hr1, app_assoc|]. apply Forall_app. split; [done|].
  eapply Forall_impl; [exact Hf2|]. intros c [Hk Hc]. split; [done|].
  intros e He. apply Hc. rewrite Hr1. apply elem_of_app. by left.
Qed.

(** A flush that meets a sound buffer succeeds, and loses and repeats nothing. *)
Lemma flush_spec ch s :
  inv_but ch s →
  ∃ s', flush ch s = (ok, s') ∧ inv s' ∧ buffered ch s' = [] ∧
    (∀ ch', kept ch' s' = kept ch' s) ∧
    (∀ ch', js_has ch' (channels s') = js_has ch' (channels s)) ∧
    grows (spoolDal s) (spoolDal s').
Proof.
  intros (Hok & Hother & Hthis). unfold flush.
  destruct (channels s !! ch) as [buf|] eqn:Hbuf.
  2:{ exists s. split_and!; [done| |by unfold buffered; rewrite Hbuf|done..]. split; [done|].
      intros ch' buf Hb. apply Hother; [congruence|done]. }
  destruct (Hthis buf eq_refl) as [Htot Hseq]. destruct (Z.eqb_spec (totalBytes buf) 0) as [Hz|Hz].
  - assert (concat (chunks buf) = []) as Hnil by (apply nil_length_inv; lia).
    exists s. split_and!; [done| |by unfold buffered; rewrite Hbuf|done..]. split; [done|].
    intros ch' buf' Hb. destruct (decide (ch' = ch)) as [->|]; [|by apply Hother].
    replace buf' with buf by congruence. split; [done|rewrite Hz; done|lia|done].
  - rewrite Htot, concatChunks_spec. set (input := Build_InsertChunkInput _ _ _ _ _ _).
    destruct (st_insert input (spoolDal s)) as [[i d']|] eqn:Hi.
    2:{ apply st_insert_None in Hi as (c & Hc & Heq). specialize (Hseq c Hc). simpl in Heq. lia. }
    pose proof (st_insert_same _ _ _ _ Hok Hi Hseq) as (c & Hr & Hc & Hk & Hd & _).
    pose proof (λ ch', st_insert_other _ _ _ _ ch' Hi) as Hro. simpl in *.
    eexists. split; [done|]. split_and!.
    + split; [by eapply st_insert_ok|]. simpl. intros ch' buf'. rewrite js_lookup_insert.
      case_decide as Hch; [intros [= <-]; subst ch'|intros Hb].
      * apply buffer_ok_empty. rewrite Hr. intros e [He| ->%list_elem_of_singleton]%elem_of_app.
        -- specialize (Hseq e He). lia.
        -- lia.
      * destruct (Hother ch' buf') as [? ? ? Hs]; [congruence|done|]. split; [done..|].
        by rewrite Hro by congruence.
    + unfold buffered. simpl. by rewrite js_lookup_insert_eq.
    + intros ch'. unfold kept, spooled, buffered. simpl. rewrite js_lookup_insert.
      case_decide as Hch; [subst ch'|by rewrite Hro by congruence].
      rewrite Hr, Hbuf, filter_app, filter_cons_True, filter_nil by done.
      rewrite fmap_app, concat_app. csimpl. by rewrite Hd, !app_nil_r.
    + intros ch'. unfold js_has. simpl. rewrite js_lookup_insert. case_decide; [|done].
      subst ch'. by rewrite Hbuf.
    + intros ch'. simpl. destruct (decide (ch' = ch)) as [->|Hne].
      * exists [c]. split; [done|]. repeat constructor; [done|]. intros e He.
        specialize (Hseq e He). lia.
      * exists []. by rewrite Hro, app_nil_r.
Qed.

Lemma inv_set_channel ch buf s :
  inv s → buffer_ok (spoolDal s) ch buf → inv (set_channels (insert ch buf) s).
Proof.
  intros [Hok Hb] Hbuf. split; [done|]. simpl. intros ch' buf'. rewrite js_lookup_insert.
  case_decide; [intros [= <-]; by subst ch'|by apply Hb].
Qed.

Lemma untrack_spec ch s :
  inv s → ∃ s', untrackChannel ch s = (ok, s') ∧ inv s' ∧
    (∀ ch', kept ch' s' = kept ch' s) ∧ grows (spoolDal s) (spoolDal s').
Proof.
  intros Hinv. destruct (flush_spec ch s (inv_inv_but _ _ Hinv))
    as (s1 & Hf & [Hok Hb] & Hnil & Hk & _ & Hg).
  unfold untrackChannel. rewrite Hf. eexists. split; [done|]. split_and!; [| |done].
  - split; [done|]. simpl. intros ch' buf. rewrite js_lookup_delete.
    case_decide; [done|by apply Hb].
  - intros ch'. rewrite <- Hk. apply kept_ext; [done|].
    unfold buffered in *. simpl. rewrite js_lookup_delete. case_decide; [by subst|done].
Qed.

Lemma chunker_shutdown_spec ks s :
  inv s → ∃ s', shutdown_loop ks s = (ok, s') ∧ inv s' ∧
    (∀ ch', kept ch' s' = kept ch' s) ∧ grows (spoolDal s) (spoolDal s').
Proof.
  revert s. induction ks as [|ch ks IH]; intros s Hinv; simpl; [by exists s|].
  destruct (untrack_spec ch s Hinv) as (s1 & -> & Hinv1 & Hk1 & Hg1).
  destruct (IH s1 Hinv1) as (s2 & Hs2 & Hinv2 & Hk2 & Hg2). exists s2.
  split_and!; [done..| |by transitivity (spoolDal s1)]. intros ch'. by rewrite Hk2, Hk1.
Qed.

Lemma onOutput_spec ch data s :
  inv s → ∃ s', onOutput ch data s = (ok, s') ∧ inv s' ∧
    (∀ ch', kept ch' s' = kept ch' s ++ heard ch' s (OnOutput ch data)) ∧
    grows (spoolDal s) (spoolDal s').
Proof.
  intros Hinv. pose proof Hinv as [Hok Hb]. unfold onOutput.
  destruct (channels s !! ch) as [buf|] eqn:Hbuf.
  2:{ exists s. split_and!; [done..| |done]. intros ch'. simpl. unfold js_has.
      case_decide; subst; rewrite ?Hbuf; by rewrite app_nil_r. }
  destruct (Hb ch buf Hbuf) as [Htot Hbound Htimer Hseq]. cbn [chunks].
  assert (∀ t n, ∀ ch',
    kept ch' (set_channels (insert ch {| chunks := chunks buf ++ [data]; totalBytes := t;
      timer := n; nextSeq := nextSeq buf |}) s) = kept ch' s ++ heard ch' s (OnOutput ch data))
    as Hkept.
  { intros t n ch'. unfold kept. rewrite buffered_insert. simpl. unfold js_has, buffered.
    case_decide; [subst ch'|by rewrite app_nil_r].
    by rewrite Hbuf, concat_app, app_assoc; simpl; rewrite app_nil_r. }
  assert (totalBytes buf + Z.of_nat (length data)
          = Z.of_nat (length (concat (chunks buf ++ [data])))) as Htot'.
  { rewrite concat_app, length_app. simpl. rewrite app_nil_r. lia. }
  destruct (CHUNK_MAX_BYTES <=? _) eqn:Hle.
  - match goal with |- context [flush ch ?s1] => destruct (flush_spec ch s1) as
      (s2 & Hf & Hinv2 & _ & Hk & _ & Hg) end.
    + split_and!; [done| |].
      * intros ch' buf' Hne. simpl. rewrite js_lookup_insert_ne by congruence. by apply Hb.
      * simpl. rewrite js_lookup_insert_eq. intros ? [= <-]. by split.
    + exists s2. split_and!; [done..| |done]. intros ch'. by rewrite Hk, Hkept.
  - eexists. split; [done|]. split_and!; [|by intros; rewrite Hkept|done].
    apply inv_set_channel; [done|]. split; simpl; [done|lia|done|done].
Qed.

(** [bumpSeq] only raises the next seq of its channel. *)
Lemma bumpSeq_spec ch n s :
  spoolDal (bumpSeq ch n s) = spoolDal s ∧
  (∀ ch', buffered ch' (bumpSeq ch n s) = buffered ch' s) ∧
  ∀ ch' buf', channels (bumpSeq ch n s) !! ch' = Some buf' →
    ∃ buf, channels s !! ch' = Some buf ∧ chunks buf' = chunks buf ∧
      totalBytes buf' = totalBytes buf ∧ timer buf' = timer buf ∧
      nextSeq buf ≤ nextSeq buf' ∧ (ch' = ch → n ≤ nextSeq buf').
Proof.
  unfold bumpSeq. destruct (channels s !! ch) as [buf|] eqn:Hbuf.
  2:{ split_and!; [done..|]. intros ch' buf' Hb. exists buf'. split_and!; [done..|].
      intros ->. congruence. }
  destruct (nextSeq buf <? n) eqn:Hlt.
  - split_and!; [done| |].
    + intros ch'. rewrite buffered_insert. case_decide; [subst|done]. unfold buffered.
      by rewrite Hbuf.
    + intros ch' buf'. simpl. rewrite js_lookup_insert. case_decide as Hch.
      * intros [= <-]. subst ch'. exists buf. split_and!; simpl; [done..|lia|lia].
      * intros Hb. exists buf'. split_and!; [done..|]. congruence.
  - split_and!; [done..|]. intros ch' buf' Hb. exists buf'. split_and!; [done..|].
    intros ->. replace buf' with buf by congruence. lia.
Qed.

Lemma exec_spec s o :
  inv s → resumes o →
  ∃ s', exec s o = (ok, s') ∧ inv s' ∧
    (∀ ch, kept ch s' = kept ch s ++ heard ch s o) ∧ grows (spoolDal s) (spoolDal s').
Proof.
  intros Hinv Hres. destruct o as [ch start|ch data|ch|ch|ch|ch n|]; cbn [exec].
  - destruct start; [done|]. exists (trackChannel ch None s). split; [done|].
    unfold trackChannel. simpl. setoid_rewrite app_nil_r.
    destruct (js_has ch (channels s)) eqn:Hhas; [done|]. split_and!; [| |done].
    + apply inv_set_channel; [done|]. apply buffer_ok_empty. intros c Hc.
      apply st_maxSeq_ge in Hc. lia.
    + intros ch'. apply kept_ext; [done|]. rewrite buffered_insert. apply js_has_false in Hhas.
      case_decide; [subst|done]. unfold buffered. by rewrite Hhas.
  - by apply onOutput_spec.
  - unfold onTimeout. destruct (channels s !! ch) as [buf|] eqn:Hbuf;
      [destruct (timer buf)|]; simpl; setoid_rewrite app_nil_r; [|by exists s..].
    pose proof Hinv as [Hok Hb]. destruct (Hb ch buf Hbuf) as [Htot Hbound Htimer Hseq].
    match goal with |- context [flush ch ?s1] => destruct (flush_spec ch s1) as
      (s2 & Hf & Hinv2 & _ & Hk & _ & Hg) end.
    + split_and!; [done| |].
      * intros ch' buf' Hne. simpl. rewrite js_lookup_insert_ne by congruence. by apply Hb.
      * simpl. rewrite js_lookup_insert_eq. intros ? [= <-]. by split.
    + exists s2. split_and!; [done..| |done]. intros ch'. rewrite Hk. apply kept_ext; [done|].
      rewrite buffered_insert. case_decide; [subst|done]. unfold buffered. by rewrite Hbuf.
  - destruct (flush_spec ch s (inv_inv_but _ _ Hinv)) as (s1 & Hf & Hi & _ & Hk & _ & Hg).
    exists s1. simpl. setoid_rewrite app_nil_r. by split_and!.
  - simpl. setoid_rewrite app_nil_r. by apply untrack_spec.
  - exists (bumpSeq ch n s). split; [done|]. simpl. setoid_rewrite app_nil_r.
    destruct (bumpSeq_spec ch n s) as (Hdal & Hbuf & Hch). pose proof Hinv as [Hok Hb].
    split_and!; [|intros ch'; apply kept_ext; by rewrite ?Hdal|by rewrite Hdal].
    split; rewrite Hdal; [done|]. intros ch' buf' (buf & Hb' & Hc & Ht & Htm & Hn & _)%Hch.
    destruct (Hb ch' buf Hb') as [Htot Hbound Htimer Hseq].
    split; rewrite ?Ht, ?Htm, ?Hc; [done..|]. intros c He. specialize (Hseq c He). lia.
  - simpl. setoid_rewrite app_nil_r. by apply chunker_shutdown_spec.
Qed.

Lemma run_spec s os :
  inv s → Forall resumes os →
  inv (run step s os) ∧
  (∀ ch, kept ch (run step s os) = kept ch s ++ heard_all ch s os) ∧
  grows (spoolDal s) (spoolDal (run step s os)).
Proof.
  intros Hinv Hos. revert s Hinv. induction Hos as [|o os Ho _ IH]; intros s Hinv.
  - split_and!; [done| |done]. intros ch. simpl. by rewrite app_nil_r.
  - destruct (exec_spec s o Hinv Ho) as (s' & He & Hinv' & Hk & Hg).
    assert (step s o = s') as Hstep by (unfold step; by rewrite He).
    simpl. rewrite Hstep. destruct (IH s' Hinv') as (? & Hk' & Hg').
    split_and!; [done| |by transitivity (spoolDal s')].
    intros ch. by rewrite Hk', Hk, app_assoc.
Qed.
End lemmas.

(** ** Properties *)

Section properties.
Context {D : Type} `{SpoolStore D}.
Implicit Types (s : OutputChunker D) (ch : string).

(** C5 Whatever the order of output, timers, flushes, tracking and shutdown, nothing is lost,
    repeated or reordered: a channel's output in the spool followed by what waits in its buffer
    is what was there at first followed by all that arrived while it was tracked. *)
Theorem chunker_lossless s os :
  inv s → Forall resumes os →
  inv (run step s os) ∧
  ∀ ch, kept ch (run step s os) = kept ch s ++ heard_all ch s os.
Proof.
  intros Hinv Hos. by destruct (run_spec s os Hinv Hos) as (? & ? & _).
Qed.

(** C40 No operation of a chunker that resumed from the spool ever throws: each insert goes above
    every seq of its channel, so [UNIQUE(channel_id, seq)] is never violated. Between operations
    a channel holds less than 256 KB, and whatever it holds has a timer that will write it. *)
Theorem chunker_never_throws s os o :
  inv s → Forall resumes os → resumes o →
  let s' := run step s os in
  (exec s' o).1 = ok ∧
  ∀ ch buf, channels s' !! ch = Some buf →
    totalBytes buf < CHUNK_MAX_BYTES ∧ (concat (chunks buf) ≠ [] → timer buf = true).
Proof.
  intros Hinv Hos Ho s'. assert (inv s') as Hinv' by by apply run_spec.
  split.
  - by destruct (exec_spec s' o Hinv' Ho) as (s1 & -> & _).
  - intros ch buf Hbuf. destruct Hinv' as [_ Hb]. destruct (Hb ch buf Hbuf) as [Ht Hbd Htm _].
    split; [done|]. intros Hne. apply Htm. rewrite Ht.
    destruct (concat (chunks buf)); simpl; [done|lia].
Qed.
End properties.

(** ** Witnesses *)

Definition demo_chunker : OutputChunker Db := {| channels := ∅; spoolDal := demo_empty |}.
Definition demo_ops : list op :=
  [TrackChannel "c" None; OnOutput "c" [x61; x62]; OnOutput "c" [x63]; Flush "c";
   OnOutput "c" [x64]].

Lemma inv_demo : inv demo_chunker.
Proof. split; [apply wf_empty|done]. Qed.

Lemma chunker_lossless_witness :
  let s := run step demo_chunker demo_ops in
  inv s ∧ kept "c" s = [x61; x62; x63; x64] ∧ spooled "c" (spoolDal s) = [x61; x62; x63].
Proof.
  destruct (chunker_lossless demo_chunker demo_ops inv_demo) as [Hi Hk]; [by repeat constructor|].
  cbv zeta. split; [exact Hi|]. split; [by rewrite Hk|reflexivity].
Defined.

Lemma chunker_never_throws_witness :
  (exec (run step demo_chunker demo_ops) Shutdown).1 = ok.
Proof.
  apply (chunker_never_throws demo_chunker demo_ops Shutdown inv_demo);
    [by repeat constructor|exact I].
Defined.
