(* ===== verification/Replay.v ===== *)
(** * Snapshots and what an attach replays
      ([storeSnapshot], [boundTail] and [buildAttachPayload] of
       [packages/hub/src/session/channel-lifecycle-manager.ts])

    The chunker over [SpoolDal]'s table, with the cache index of meta.db (the [UPDATE] of
    [storage/channels-dal.ts]). A snapshot is what [JSON.stringify] and [JSON.parse] make of it,
    the two parameters of the section. *)

From Stdlib.Strings Require Import Byte.
From stdpp Require Import sorting.
From S2P Require Import Prelude JsMap SpoolDal OutputChunker.
#[local] Open Scope lasterm_scope.
#[local] Open Scope Z_scope.

Definition MAX_ATTACH_TAIL_BYTES : Z := 128 * 1024.

Record CacheIndex := { snapshotChunkId : nat; lastSeq : Z; lastSeenAt : Z }.
(** The chunker over the spool, and the [cache_index] table of meta.db by channel. *)
Record Hub := { chunker : OutputChunker Db; cacheIndex : jsmap string CacheIndex }.

(** [INSERT ... ON CONFLICT(channel_id) DO UPDATE] *)
Definition updateCacheIndex (ch : string) (chunkId : nat) (seq : Z) (h : Hub) : Hub :=
  {| chunker := chunker h;
     cacheIndex := <[ch := {| snapshotChunkId := chunkId; lastSeq := seq;
                          lastSeenAt := clock (spoolDal (chunker h)) |}]> (cacheIndex h) |}.
Definition set_chunker (c : OutputChunker Db) (h : Hub) : Hub :=
  {| chunker := c; cacheIndex := cacheIndex h |}.

(** The output after a snapshot, or nothing when there is too much of it. *)
Fixpoint boundTail_loop (all : list Chunk) (cs : list Chunk) (total : Z)
  : list (list byte) * bool :=
  match cs with
  | [] => (dataBlob <$> all, false)
  | c :: cs' =>
      let total := total + Z.of_nat (length (dataBlob c)) in
      if MAX_ATTACH_TAIL_BYTES <? total then ([], true) else boundTail_loop all cs' total
  end.
Definition boundTail (cs : list Chunk) : list (list byte) * bool := boundTail_loop cs cs 0.

Section replay.
Context {J : Type} (stringify : J → list byte) (parse : list byte → option J).

Record AttachPayload := { snapshot_of : option J; tail : list (list byte); truncated : bool }.

Definition buildAttachPayload (ch : string) (h : Hub) : AttachPayload :=
  let db := spoolDal (chunker h) in
  match getLatestSnapshot ch db with
  | None => {| snapshot_of := None; tail := []; truncated := false |}
  | Some snapshotChunk =>
      let tailChunks := getChunksByChannel ch (Some output) (Some (seq snapshotChunk)) None db in
      let bounded := boundTail tailChunks in
      {| snapshot_of := parse (dataBlob snapshotChunk); tail := bounded.1;
         truncated := bounded.2 |}
  end.

Definition storeSnapshot (ch : string) (snapshot : J) (agentLastSeq : Z) (h : Hub)
  : option (nat * Hub) :=
  let blob := stringify snapshot in
  match flush ch (chunker h) with
  | (threw, _) => None
  | (ok, c) =>
      let maxSeq := getMaxSeq ch (spoolDal c) in
      let snapshotSeq := Z.max maxSeq agentLastSeq + 1 in
      match insertSnapshot {| in_channelId := ch; in_seq := snapshotSeq;
                              in_kind := SpoolDal.snapshot; in_codec := None; in_dataBlob := blob;
                              in_uncompressedLen := Z.of_nat (length blob) |} (spoolDal c) with
      | None => None
      | Some (chunkId, db) =>
          let c' := bumpSeq ch (snapshotSeq + 1) (set_dal db c) in
          Some (chunkId, updateCacheIndex ch chunkId (snapshotSeq - 1) (set_chunker c' h))
      end
  end.

(** ** Lemmas *)

Lemma boundTail_loop_spec all cs total :
  total ≤ MAX_ATTACH_TAIL_BYTES →
  boundTail_loop all cs total =
    if decide (MAX_ATTACH_TAIL_BYTES < total + total_bytes cs)
    then ([], true) else (dataBlob <$> all, false).
Proof.
  revert total. induction cs as [|c cs IH]; intros total Hle.
  - rewrite decide_False by (simpl; lia). done.
  - cbn [boundTail_loop]. rewrite total_bytes_cons. fold (blob_length c).
    pose proof (total_bytes_nonneg cs). destruct (MAX_ATTACH_TAIL_BYTES <? _) eqn:Hlt.
    + by rewrite decide_True by lia.
    + rewrite IH by lia. by rewrite Z.add_assoc.
Qed.

Lemma length_concat_blobs cs : Z.of_nat (length (concat (dataBlob <$> cs))) = total_bytes cs.
Proof.
  induction cs as [|c cs IH]; csimpl; [done|]. rewrite length_app, <- IH.
  unfold blob_length. lia.
Qed.

(** The tail is all of the chunks, or none of them when they pass the limit. *)
Lemma boundTail_spec cs :
  boundTail cs =
    if decide (MAX_ATTACH_TAIL_BYTES < total_bytes cs) then ([], true)
    else (dataBlob <$> cs, false).
Proof.
  unfold boundTail. rewrite boundTail_loop_spec by (unfold MAX_ATTACH_TAIL_BYTES; lia).
  by rewrite Z.add_0_l.
Qed.

(** ** Storing a snapshot *)

(** [d'] has the output of [d], and perhaps not its snapshots. *)
Definition same_output (d d' : Db) : Prop := ∀ ch, spooled ch d' = spooled ch d.

Lemma insertSnapshot_output input db i db' :
  wf db → insertSnapshot input db = Some (i, db') →
  (∀ ch, filter (λ c, kind_of c = output) (rows ch db') =
         filter (λ c, kind_of c = output) (rows ch db)).
Proof.
  intros Hwf Hins ch. pose proof (wf_insertSnapshot _ _ _ _ Hwf Hins) as Hwf'.
  destruct (elem_insertSnapshot _ _ _ _ Hwf Hins) as [_ Hin].
  apply (StronglySorted_unique_strong seq_lt).
  - intros c d _ _ H1 H2. unfold seq_lt in *. lia.
  - by apply StronglySorted_filter, rows_sorted.
  - by apply StronglySorted_filter, rows_sorted.
  - apply NoDup_Permutation.
    1,2: apply NoDup_filter; unfold rows; rewrite order_asc_Permutation;
      by apply NoDup_filter, wf_chunks_nodup.
    intros c. rewrite !list_elem_of_filter, !elem_of_rows, Hin. split.
    + intros (Hk & Hch & [->|[Hc _]]); [done|done].
    + intros (Hk & Hch & Hc). split_and!; [done..|]. right. split; [done|].
      intros [Hl _]. apply (getLatestSnapshot_Some _ _ _ Hwf) in Hl as (_ & Hs & _). congruence.
Qed.

Lemma storeSnapshot_spec ch (j : J) agentLastSeq h :
  inv (chunker h) →
  ∃ i h' new, storeSnapshot ch j agentLastSeq h = Some (i, h') ∧ inv (chunker h') ∧
    getLatestSnapshot ch (spoolDal (chunker h')) = Some new ∧
    id new = i ∧ dataBlob new = stringify j ∧ agentLastSeq < seq new ∧
    (∀ c, c ∈ rows ch (spoolDal (chunker h')) → seq c ≤ seq new) ∧
    buffered ch (chunker h') = [] ∧
    (∀ ch', kept ch' (chunker h') = kept ch' (chunker h)) ∧
    (λ c, (snapshotChunkId c, lastSeq c)) <$> cacheIndex h' !! ch = Some (i, seq new - 1).
Proof.
  intros Hinv. unfold storeSnapshot.
  destruct (flush_spec ch (chunker h) (inv_inv_but _ _ Hinv))
    as (c & -> & [Hok Hb] & Hnil & Hk & _ & _).
  set (n := Z.max _ _ + 1). set (input := Build_InsertChunkInput _ _ _ _ _ _).
  assert (∀ d, d ∈ rows ch (spoolDal c) → seq d < n) as Hn.
  { intros d Hd. apply getMaxSeq_ge in Hd. lia. }
  destruct (insertSnapshot input (spoolDal c)) as [[i db]|] eqn:Hins.
  2:{ apply insertSnapshot_None in Hins as (d & Hd & Heq). specialize (Hn d Hd).
      simpl in Heq. lia. }
  pose proof (wf_insertSnapshot _ _ _ _ Hok Hins) as Hwf.
  pose proof (insertSnapshot_output _ _ _ _ Hok Hins) as Hout.
  pose proof (insertSnapshot_latest _ _ _ _ Hok Hins) as Hlast.
  destruct (elem_insertSnapshot _ _ _ _ Hok Hins) as [-> Hin].
  set (new := row_of _ _) in Hlast, Hin. simpl in Hlast.
  assert (∀ d, d ∈ rows ch db → seq d ≤ n) as Hmax.
  { intros d [Hch Hd]%elem_of_rows. apply Hin in Hd as [->|[Hd _]]; [done|].
    apply Z.lt_le_incl, Hn. by apply elem_of_rows. }
  destruct (bumpSeq_spec ch (n + 1) (set_dal db c)) as (Hdal & Hbuf & Hbump).
  eexists _, _, new. split; [done|]. simpl. rewrite Hdal. simpl.
  split_and!; [|by apply Hlast; auto|done|done|simpl; lia|exact Hmax| | |].
  - split; rewrite Hdal; simpl; [done|].
    intros ch' buf' (buf & Hb' & Hc & Ht & Htm & Hge & Hge')%Hbump.
    destruct (Hb ch' buf Hb') as [Htot Hbound Htimer Hseq].
    split; rewrite ?Ht, ?Htm, ?Hc; [done..|]. intros d Hd.
    destruct (decide (ch' = ch)) as [->|Hne].
    + specialize (Hge' eq_refl). specialize (Hmax d Hd). lia.
    + apply elem_of_rows in Hd as [Hch [->|[Hd _]]%Hin]; [done|].
      assert (seq d < nextSeq buf) by (apply Hseq; by apply elem_of_rows). lia.
  - by rewrite Hbuf.
  - intros ch'. rewrite <- Hk. unfold kept, spooled. rewrite Hdal, Hbuf. simpl. by rewrite Hout.
  - by rewrite js_lookup_insert_eq.
Qed.

(** ** Properties *)

(** Storing a snapshot never fails on a channel the chunker keeps: what was buffered goes to
    the spool first, the snapshot becomes the newest of the channel with a seq above every other
    (whatever seq the agent reports), no output is lost, the cache index names it, and the chunker
    goes on above it. *)
Theorem storeSnapshot_correct ch (j : J) agentLastSeq h :
  inv (chunker h) →
  ∃ i h' new, storeSnapshot ch j agentLastSeq h = Some (i, h') ∧ inv (chunker h') ∧
    getLatestSnapshot ch (spoolDal (chunker h')) = Some new ∧
    id new = i ∧ dataBlob new = stringify j ∧ agentLastSeq < seq new ∧
    (∀ c, c ∈ rows ch (spoolDal (chunker h')) → seq c ≤ seq new) ∧
    buffered ch (chunker h') = [] ∧
    (∀ ch', kept ch' (chunker h') = kept ch' (chunker h)) ∧
    (λ c, (snapshotChunkId c, lastSeq c)) <$> cacheIndex h' !! ch = Some (i, seq new - 1).
Proof. apply storeSnapshot_spec. Qed.

(** C6 What an attach replays continues the snapshot exactly: after a snapshot is stored, and
    any operations of the chunker, the payload has that snapshot; its tail, with what is still in
    the buffer, is all the output that arrived since, in order; unless the tail passes 128 KB,
    where the payload has none of it and says so. *)
Theorem attach_replay ch (j : J) agentLastSeq h i h1 os :
  (∀ j, parse (stringify j) = Some j) →
  inv (chunker h) → storeSnapshot ch j agentLastSeq h = Some (i, h1) → Forall resumes os →
  let c2 := run step (chunker h1) os in
  let p := buildAttachPayload ch (set_chunker c2 h1) in
  snapshot_of p = Some j ∧
  ∃ since, since ++ buffered ch c2 = heard_all ch (chunker h1) os ∧
    if decide (MAX_ATTACH_TAIL_BYTES < Z.of_nat (length since))
    then tail p = [] ∧ truncated p = true
    else concat (tail p) = since ∧ truncated p = false.
Proof.
  intros Hparse Hinv Hst Hos c2 p.
  destruct (storeSnapshot_spec ch j agentLastSeq h Hinv)
    as (i' & h' & new & Hst' & Hinv1 & Hlast & _ & Hblob & _ & Hmax & Hnil & _).
  rewrite Hst in Hst'. injection Hst' as <- <-.
  destruct (run_spec (chunker h1) os Hinv1 Hos) as (Hinv2 & Hk & Hg). fold c2 in Hinv2, Hk, Hg.
  destruct (Hg ch) as (l & Hl & Hnew). simpl in Hl.
  pose proof (proj1 (getLatestSnapshot_Some _ _ _ (proj1 Hinv1)) Hlast) as (Hin & Hkind & _).
  destruct Hinv2 as [Hwf2 _].
  assert (filter (λ c, kind_of c = output) l = l) as Hlout.
  { apply filter_all. eapply Forall_impl; [exact Hnew|]. by intros c [??]. }
  assert (∀ c, c ∈ l → kind_of c = output ∧ seq new < seq c) as Hl'.
  { intros c Hc. rewrite Forall_forall in Hnew. destruct (Hnew c Hc) as [? Hlt]. auto. }
  assert (getLatestSnapshot ch (spoolDal c2) = Some new) as Hlast2.
  { apply getLatestSnapshot_Some; [done|]. simpl in Hl. rewrite Hl.
    split_and!; [apply elem_of_app; by left|done|].
    intros d [Hd|Hd]%elem_of_app Hk'; [by apply Hmax|]. apply Hl' in Hd as []. congruence. }
  assert (p = {| snapshot_of := parse (dataBlob new); tail := (boundTail l).1;
                 truncated := (boundTail l).2 |}) as ->.
  { unfold p, buildAttachPayload. cbv zeta.
    change (spoolDal (chunker (set_chunker c2 h1))) with (spoolDal c2). rewrite Hlast2.
    rewrite getChunksByChannel_rows by done. cbv zeta. rewrite Hl, filter_app.
    rewrite filter_none, filter_all; [done| |].
    - apply Forall_forall. intros c [Hk' Hs]%Hl'. done.
    - apply Forall_forall. intros c Hc [_ Hs]. simpl in Hs. specialize (Hmax c Hc). lia. }
  cbn [snapshot_of tail truncated]. split; [by rewrite Hblob, Hparse|].
  exists (concat (dataBlob <$> l)). split.
  - specialize (Hk ch). unfold kept in Hk. rewrite Hnil, app_nil_r in Hk.
    unfold spooled in Hk at 1. simpl in Hk. rewrite Hl, filter_app, Hlout in Hk.
    rewrite fmap_app, concat_app, <- app_assoc in Hk. by apply app_inv_head in Hk.
  - rewrite length_concat_blobs, boundTail_spec. by case_decide.
Qed.
End replay.

(** ** Witnesses *)

Definition demo_hub : Hub := {| chunker := run step demo_chunker demo_ops; cacheIndex := ∅ |}.

Lemma inv_demo_hub : inv (chunker demo_hub).
Proof. apply run_spec; [apply inv_demo|by repeat constructor]. Qed.

Lemma storeSnapshot_correct_witness :
  ∃ h', snd <$> storeSnapshot (λ b, b) "c" [x7b; x7d] 0 demo_hub = Some h' ∧
    kept "c" (chunker h') = [x61; x62; x63; x64] ∧
    cacheIndex h' !! "c" = Some {| snapshotChunkId := 2; lastSeq := 2; lastSeenAt := 0 |}.
Proof.
  destruct (storeSnapshot_correct (λ b, b) "c" [x7b; x7d] 0 demo_hub inv_demo_hub)
    as (i & h' & new & Hs & _ & _ & _ & _ & _ & _ & _ & Hk & _).
  exists h'. rewrite Hs, Hk. split; [reflexivity|]. split; [reflexivity|].
  revert Hs. vm_compute. by intros [= <- <-].
Defined.

Lemma attach_replay_witness :
  ∃ i h1, storeSnapshot (λ b, b) "c" [x7b; x7d] 0 demo_hub = Some (i, h1) ∧
    snapshot_of (buildAttachPayload Some "c" (set_chunker (run step (chunker h1)
      [OnOutput "c" [x65]; Timeout "c"; OnOutput "c" [x66]]) h1)) = Some [x7b; x7d].
Proof.
  destruct (storeSnapshot (λ b, b) "c" [x7b; x7d] 0 demo_hub) as [[i h1]|] eqn:Hs;
    [|vm_compute in Hs; discriminate].
  exists i, h1. split; [reflexivity|].
  apply (attach_replay (λ b, b) Some "c" [x7b; x7d] 0 demo_hub i h1
           [OnOutput "c" [x65]; Timeout "c"; OnOutput "c" [x66]] (λ j, eq_refl) inv_demo_hub Hs).
  by repeat constructor.
Defined.
