(* ===== verification/SpoolGc.v ===== *)
(** * The spool's garbage collector ([packages/hub/src/session/spool-gc.ts])

    A pass is a series of short steps, and the rest of the hub runs between them. [step] is
    [Slicer.step]: the hub first turns ([env], any function of the world, at every step), then the
    pass stops if it was told to, then the step runs in one go. [M] is the monad of such passes:
    an ended pass is [Stopped], a loop cut by its fuel is [OutOfFuel], and the theorems give the
    fuel that is enough. When a slice ends is left to [env]; the two timings kept for the log
    ([slices], [longestSliceMs]) are not modelled. *)

From Stdlib.Strings Require Import Byte.
From stdpp Require Import sorting.
From S2P Require Import Prelude SpoolDal.
#[local] Open Scope lasterm_scope.
#[local] Open Scope Z_scope.

Definition GC_MAX_AGE_HOURS : Z := 168.
Definition DELETE_BATCH : ChunkBatchLimits := {| maxRows := 256; maxBytes := 1024 * 1024 |}.
Definition WALK_ROWS : nat := 512.
Definition VACUUM_PAGES : Z := 128.
Definition FIRST_SEQ : Z := - (2 ^ 53 - 1).
Definition LAST_SEQ : Z := 2 ^ 53 - 1.

Record GcConfig := { deadRetentionHours : Z; maxSizePerChannelMb : Z }.

(** What one pass, or one purge, did. *)
Record GcPassStats := {
  completed : bool; deletedChunks : Z; deletedBytes : Z; orphans : nat; freePages : nat
}.

(** A channel's row in meta.db, as the collector asks about it. *)
Record MetaChannel := { mc_id : string; mc_dead : bool; mc_updatedAt : Z }.

(** The two databases, and whatever state the rest of the hub has. *)
Record World (E : Type) := {
  db : Db; meta : list MetaChannel; autoVacuum : bool; freeList : nat; rest : E
}.
Arguments db {E} _.
Arguments meta {E} _.
Arguments autoVacuum {E} _.
Arguments freeList {E} _.
Arguments rest {E} _.

Inductive result (A : Type) := Done (a : A) | Stopped | OutOfFuel.
Arguments Done {A} _.
Arguments Stopped {A}.
Arguments OutOfFuel {A}.

(** The state of a running pass: the steps taken, the world, and the counts. *)
Record Pass (E : Type) := { tick : nat; world : World E; stats : GcPassStats }.
Arguments tick {E} _.
Arguments world {E} _.
Arguments stats {E} _.

Section collector.
Context {E : Type} (env : nat → World E → World E) (stopped : nat → bool).

Definition set_db (d : Db) (w : World E) : World E :=
  {| db := d; meta := meta w; autoVacuum := autoVacuum w; freeList := freeList w; rest := rest w |}.
Definition set_free (n : nat) (w : World E) : World E :=
  {| db := db w; meta := meta w; autoVacuum := autoVacuum w; freeList := n; rest := rest w |}.

(** ** Statements of meta.db and the vacuum *)

Definition listStaleDeadChannelIds (before : Z) (w : World E) : list string :=
  mc_id <$> filter (λ c, mc_dead c = true ∧ mc_updatedAt c < before) (meta w).
Definition hasChannel (ch : string) (w : World E) : bool :=
  bool_decide (Exists (λ c, mc_id c = ch) (meta w)).

(** [PRAGMA incremental_vacuum(count)], then [PRAGMA freelist_count]. *)
Definition incrementalVacuum (pages : Z) (w : World E) : nat * World E :=
  let count := Z.max 1 pages in
  let w' := if autoVacuum w then set_free (freeList w - Z.to_nat count) w else w in
  (freeList w', w').

(** ** The monad of passes *)

Definition M (A : Type) : Type := Pass E → result A * Pass E.
Definition ret {A} (a : A) : M A := λ s, (Done a, s).
Definition bind {A B} (m : M A) (k : A → M B) : M B := λ s,
  match m s with
  | (Done a, s') => k a s'
  | (Stopped, s') => (Stopped, s')
  | (OutOfFuel, s') => (OutOfFuel, s')
  end.
Definition out_of_fuel {A} : M A := λ s, (OutOfFuel, s).
Definition update_stats (f : GcPassStats → GcPassStats) : M unit := λ s,
  (Done tt, {| tick := tick s; world := world s; stats := f (stats s) |}).

(** [Slicer.step] *)
Definition step {A} (work : World E → A * World E) : M A := λ s,
  let w := env (tick s) (world s) in
  if stopped (tick s)
  then (Stopped, {| tick := S (tick s); world := w; stats := stats s |})
  else (Done (work w).1, {| tick := S (tick s); world := (work w).2; stats := stats s |}).

(** A step that only reads. *)
Definition query {A} (f : World E → A) : M A := step (λ w, (f w, w)).

#[local] Notation "'let*' x := m 'in' k" := (bind m (λ x, k))
  (at level 200, x pattern, m at level 100, k at level 200, right associativity).

(** ** Deleting *)

Definition count_batch (b : ChunkBatchResult) (st : GcPassStats) : GcPassStats :=
  {| completed := completed st; deletedChunks := deletedChunks st + deleted b;
     deletedBytes := deletedBytes st + bytes b; orphans := orphans st; freePages := freePages st |}.

Fixpoint deleteRange_loop (fuel : nat) (ch : string) (kinds : ChunkKinds)
  (throughSeq afterSeq : Z) : M unit :=
  match fuel with
  | O => out_of_fuel
  | S fuel =>
      let* batch := step (λ w,
        let r := deleteChunkBatch ch afterSeq throughSeq kinds DELETE_BATCH (db w) in
        (r.1, set_db r.2 w)) in
      let* _ := update_stats (count_batch batch) in
      match lastSeq batch with
      | None => ret tt
      | Some last => deleteRange_loop fuel ch kinds throughSeq last
      end
  end.
Definition deleteRange (fuel : nat) (ch : string) (kinds : ChunkKinds) (throughSeq : Z) : M unit :=
  deleteRange_loop fuel ch kinds throughSeq FIRST_SEQ.

Definition count_orphan (st : GcPassStats) : GcPassStats :=
  {| completed := completed st; deletedChunks := deletedChunks st;
     deletedBytes := deletedBytes st; orphans := S (orphans st); freePages := freePages st |}.

Definition collectOrphan (fuel : nat) (ch : string) : M bool :=
  let* through := query (λ w, if hasChannel ch w then None else Some (getMaxSeq ch (db w))) in
  match through with
  | None => ret false
  | Some through =>
      let* _ := deleteRange fuel ch all through in
      let* _ := update_stats count_orphan in
      ret true
  end.

(** ** Keeping a channel within its bounds *)

(** The walk over the chunks one step read: the total so far, and where it stops fitting. *)
Fixpoint walk_chunks (newest : option Z) (cap ageCutoff : Z) (cs : list ChunkSize) (total : Z)
  : Z * option Z :=
  match cs with
  | [] => (total, None)
  | c :: cs' =>
      if bool_decide (Some (cs_seq c) = newest) then walk_chunks newest cap ageCutoff cs' total
      else
        let total := total + cs_bytes c in
        if bool_decide (cs_kind c = snapshot) then walk_chunks newest cap ageCutoff cs' total
        else if (cap <? total) || (cs_ts c <? ageCutoff) then (total, Some (cs_seq c))
        else walk_chunks newest cap ageCutoff cs' total
  end.

Fixpoint walk_loop (fuel : nat) (ch : string) (newest : option Z) (cap ageCutoff : Z)
  (before total : Z) : M (option Z) :=
  match fuel with
  | O => out_of_fuel
  | S fuel =>
      let* cs := query (λ w, listChunkSizesBefore ch before WALK_ROWS (db w)) in
      match walk_chunks newest cap ageCutoff cs total with
      | (_, Some cut) => ret (Some cut)
      | (total, None) =>
          match last cs with
          | None => ret None
          | Some c => if (length cs <? WALK_ROWS)%nat then ret None
                      else walk_loop fuel ch newest cap ageCutoff (cs_seq c) total
          end
      end
  end.

Definition collectChannel (fuel : nat) (cap ageCutoff : Z) (ch : string) : M unit :=
  let* newest := query (λ w, getLatestSnapshotSize ch (db w)) in
  let* _ := match newest with
            | Some (s, _) => deleteRange fuel ch snapshots (s - 1)
            | None => ret tt
            end in
  let* cut := walk_loop fuel ch (fst <$> newest) cap ageCutoff LAST_SEQ
                        (from_option snd 0 newest) in
  match cut with
  | Some cut => deleteRange fuel ch others cut
  | None => ret tt
  end.

(** ** The vacuum, a pass and a purge *)

Fixpoint vacuum_loop (fuel : nat) (free : option nat) : M nat :=
  match fuel with
  | O => out_of_fuel
  | S fuel =>
      let* free' := step (incrementalVacuum VACUUM_PAGES) in
      if (free' =? 0)%nat || match free with Some before => (before <=? free')%nat | None => false end
      then ret free'
      else vacuum_loop fuel (Some free')
  end.
Definition vacuum (fuel : nat) : M nat := vacuum_loop fuel None.

Definition set_freePages (n : nat) (st : GcPassStats) : GcPassStats :=
  {| completed := completed st; deletedChunks := deletedChunks st;
     deletedBytes := deletedBytes st; orphans := orphans st; freePages := n |}.

Fixpoint each (f : string → M unit) (chs : list string) : M unit :=
  match chs with
  | [] => ret tt
  | ch :: chs' => let* _ := f ch in each f chs'
  end.

Fixpoint channels_loop (fuel : nat) (cap ageCutoff : Z) (next : option string) : M unit :=
  match next with
  | None => ret tt
  | Some ch =>
      match fuel with
      | O => out_of_fuel
      | S fuel' =>
          let* orphan := collectOrphan fuel ch in
          let* _ := if orphan then ret tt else collectChannel fuel cap ageCutoff ch in
          let* next := query (λ w, nextChannelId ch (db w)) in
          channels_loop fuel' cap ageCutoff next
      end
  end.

(** [now] is [Date.now()] at each of the two places a pass asks. *)
Definition runPass (fuel : nat) (cfg : GcConfig) (now1 now2 : Z) : M unit :=
  let deadCutoff := now1 - deadRetentionHours cfg * 60 * 60 * 1000 in
  let* staleDead := query (listStaleDeadChannelIds deadCutoff) in
  let* _ := each (λ ch, let* through := query (λ w, getMaxSeq ch (db w)) in
                        deleteRange fuel ch all through) staleDead in
  let ageCutoff := now2 - GC_MAX_AGE_HOURS * 3600 * 1000 in
  let cap := maxSizePerChannelMb cfg * 1024 * 1024 in
  let* first := query (λ w, nextChannelId EmptyString (db w)) in
  let* _ := channels_loop fuel cap ageCutoff first in
  let* free := vacuum fuel in
  update_stats (set_freePages free).

Definition purge (fuel : nat) (channelIds : list string) : M unit :=
  let* _ := each (λ ch, let* _ := collectOrphan fuel ch in ret tt) channelIds in
  let* free := vacuum fuel in
  update_stats (set_freePages free).

Definition no_stats : GcPassStats :=
  {| completed := false; deletedChunks := 0; deletedBytes := 0; orphans := 0; freePages := 0 |}.
Definition complete (st : GcPassStats) : GcPassStats :=
  {| completed := true; deletedChunks := deletedChunks st; deletedBytes := deletedBytes st;
     orphans := orphans st; freePages := freePages st |}.

(** [runJob]: a pass that was stopped leaves its stats not completed. *)
Definition runJob (job : M unit) (t : nat) (w : World E) : GcPassStats * World E :=
  match job {| tick := t; world := w; stats := no_stats |} with
  | (Done _, s) => (complete (stats s), world s)
  | (_, s) => (stats s, world s)
  end.
End collector.

Arguments M E A : clear implicits.

(** ** The monad *)

Section monad.
Context {E : Type} (env : nat → World E → World E) (stopped : nat → bool).

Lemma bind_Done {A B} (m : M E A) (k : A → M E B) s b s2 :
  bind m k s = (Done b, s2) ↔ ∃ a s1, m s = (Done a, s1) ∧ k a s1 = (Done b, s2).
Proof.
  unfold bind. destruct (m s) as [[a| |] s1] eqn:Hm; split.
  1: intros; by exists a, s1.
  1: by intros (? & ? & [= <- <-] & ?).
  all: try done; by intros (? & ? & [=] & _).
Qed.

Lemma bind_run {A B} (m : M E A) (k : A → M E B) s a s1 :
  m s = (Done a, s1) → bind m k s = k a s1.
Proof. intros Hm. unfold bind. by rewrite Hm. Qed.

Lemma bind_assoc {A B C} (m : M E A) (k1 : A → M E B) (k2 : B → M E C) s :
  bind m (λ x, bind (k1 x) k2) s = bind (bind m k1) k2 s.
Proof. unfold bind. by destruct (m s) as [[a| |] s1]. Qed.

(** Not ending for want of fuel is kept by sequencing. *)
Lemma bind_fuel {A B} (m : M E A) (k : A → M E B) s :
  (m s).1 ≠ OutOfFuel → (∀ a s1, m s = (Done a, s1) → (k a s1).1 ≠ OutOfFuel) →
  (bind m k s).1 ≠ OutOfFuel.
Proof. unfold bind. destruct (m s) as [[a| |] s1] eqn:Hm; simpl; eauto. Qed.

Lemma step_fuel {A} (work : World E → A * World E) s : (step env stopped work s).1 ≠ OutOfFuel.
Proof. unfold step. by destruct (stopped (tick s)). Qed.

Lemma step_Done {A} (work : World E → A * World E) s a s1 :
  step env stopped work s = (Done a, s1) →
  let w := env (tick s) (world s) in
  a = (work w).1 ∧ world s1 = (work w).2 ∧ stats s1 = stats s ∧ tick s1 = S (tick s).
Proof. unfold step. destruct (stopped (tick s)); [done|]. by intros [= <- <-]. Qed.
End monad.

(** ** Delete batches *)

Section delete.
Implicit Types (d : Db) (ch : string).

Lemma batch_last_in_range ch a t k limits d l :
  lastSeq (deleteChunkBatch ch a t k limits d).1 = Some l → a < l ≤ t.
Proof.
  unfold deleteChunkBatch. set (rows := take _ _).
  destruct (pick_loop_spec rows (maxBytes limits) 0 None) as (n & _ & _ & -> & _).
  destruct (last (take n rows)) as [c|] eqn:Hl; [|done]. simpl. intros [= <-].
  apply last_Some_elem_of, elem_of_take in Hl as (i & Hi & _).
  unfold rows in Hi. apply lookup_take_Some in Hi as [Hi _].
  apply list_elem_of_lookup_2 in Hi. rewrite elem_of_order_asc, list_elem_of_filter in Hi.
  destruct Hi as [(_ & ? & ? & _) _]. lia.
Qed.

Lemma in_range_split ch a l t k c :
  a < l ≤ t → in_range ch a t k c ↔ in_range ch a l k c ∨ in_range ch l t k c.
Proof.
  intros Hl. unfold in_range. split.
  - intros (? & ? & ? & ?). destruct (decide (seq c ≤ l)); [left|right]; split_and!; (done || lia).
  - intros [(? & ? & ? & ?)|(? & ? & ? & ?)]; split_and!; (done || lia).
Qed.

(** One batch of a range: the rows up to where it stopped are gone, or there were none. *)
Lemma batch_progress ch a t k d :
  wf d →
  let M := filter (in_range ch a t k) (rows ch d) in
  let r := deleteChunkBatch ch a t k DELETE_BATCH d in
  wf r.2 ∧ (∀ ch', ch' ≠ ch → rows ch' r.2 = rows ch' d) ∧
  match lastSeq r.1 with
  | None => M = [] ∧ r = ({| deleted := 0; bytes := 0; lastSeq := None |}, r.2) ∧
      rows ch r.2 = rows ch d
  | Some l => ∃ n, (0 < n)%nat ∧ seq <$> last (take n M) = Some l ∧
      rows ch r.2 = filter (λ c, ¬ in_range ch a l k c) (rows ch d) ∧
      filter (in_range ch l t k) (rows ch r.2) = drop n M ∧
      deleted r.1 = Z.of_nat (length (take n M)) ∧ bytes r.1 = total_bytes (take n M)
  end.
Proof.
  intros Hwf M r. split; [by apply wf_deleteBatch|].
  destruct (deleteChunkBatch_rows ch a t k DELETE_BATCH d Hwf)
    as (n & Hrows & Hother & Hres & Hn & Hpos & _ & _).
  fold M r in Hrows, Hother, Hres, Hn, Hpos. split; [done|].
  destruct r as [res d'] eqn:Hr. simpl in *. subst res. simpl.
  destruct (last (take n M)) as [c|] eqn:Hl; simpl.
  - exists n. pose proof (in_range_through ch a t k n c d Hwf Hl) as Hgone.
    assert (in_range ch a t k c) as (_ & Hac & Hct & _).
    { apply last_Some_elem_of, elem_of_take in Hl as (i & Hi & _).
      apply list_elem_of_lookup_2 in Hi. unfold M in Hi. rewrite list_elem_of_filter in Hi. tauto. }
    assert (rows ch d' = filter (λ e, ¬ in_range ch a (seq c) k e) (rows ch d)) as Hrows'.
    { by rewrite Hrows, (rows_remove ch (in_range ch a (seq c) k)), Hgone. }
    split_and!; [|by rewrite Hl|done| |done..].
    + destruct n; [done|lia].
    + rewrite Hrows', list_filter_filter, <- (filter_after n M c)
        by (done || by apply StronglySorted_filter, rows_sorted).
      unfold M. rewrite list_filter_filter. apply list_filter_iff. intros e. unfold in_range.
      destruct (decide (seq e ≤ seq c)); split; intros; split_and?; try done; try lia; tauto.
  - apply last_None in Hl. rewrite Hl. split_and!; [|done|].
    + destruct M as [|m M'] eqn:HM; [done|]. destruct n; [|done]. simpl in Hpos.
      exfalso. assert (0 < 0)%nat; [|lia]. apply Hpos; [unfold DELETE_BATCH; simpl; lia|done].
    + rewrite Hrows, Hl. apply filter_all, Forall_forall. intros e _. apply not_elem_of_nil.
Qed.
End delete.

(** ** A pass nothing interrupts *)

Section quiet.
Context {E : Type}.
Implicit Types (s : Pass E) (w : World E) (ch : string).

(** Nothing else runs, and nobody stops the pass. *)
Definition alone (t : nat) (w : World E) : World E := w.
Definition never (t : nat) : bool := false.

(** Only the table of chunks differs. *)
Definition same_rest w w' : Prop :=
  meta w' = meta w ∧ autoVacuum w' = autoVacuum w ∧ freeList w' = freeList w ∧ rest w' = rest w.
#[export] Instance same_rest_refl : Reflexive same_rest.
Proof. done. Qed.
#[export] Instance same_rest_trans : Transitive same_rest.
Proof.
  intros w1 w2 w3 (?&?&?&?) (?&?&?&?). unfold same_rest. split_and!; congruence.
Qed.

(** From [w] to [w'], channel [ch] lost the rows satisfying [P], and nothing else changed. *)
Definition emptied (ch : string) (P : Chunk → Prop) `{∀ c, Decision (P c)} w w' : Prop :=
  wf (db w') ∧ rows ch (db w') = filter (λ c, ¬ P c) (rows ch (db w)) ∧
  (∀ ch', ch' ≠ ch → rows ch' (db w') = rows ch' (db w)) ∧ same_rest w w'.

Lemma query_alone {A} (f : World E → A) s :
  query alone never f s =
    (Done (f (world s)), {| tick := S (tick s); world := world s; stats := stats s |}).
Proof. done. Qed.

Lemma deleteRange_loop_alone fuel ch k t a s :
  wf (db (world s)) →
  let M := filter (in_range ch a t k) (rows ch (db (world s))) in
  (length M < fuel)%nat →
  ∃ s', deleteRange_loop alone never fuel ch k t a s = (Done tt, s') ∧
    emptied ch (in_range ch a t k) (world s) (world s') ∧
    stats s' = {| completed := completed (stats s);
                  deletedChunks := deletedChunks (stats s) + Z.of_nat (length M);
                  deletedBytes := deletedBytes (stats s) + total_bytes M;
                  orphans := orphans (stats s); freePages := freePages (stats s) |}.
Proof.
  revert a s. induction fuel as [|fuel IH]; intros a s Hwf M Hlen; [lia|]. cbn [deleteRange_loop].
  pose proof (batch_progress ch a t k (db (world s)) Hwf) as (Hwf' & Hother & Hres).
  fold M in Hres. set (r := deleteChunkBatch ch a t k DELETE_BATCH (db (world s))) in *.
  set (w1 := set_db r.2 (world s)).
  rewrite (bind_run _ _ s r.1 {| tick := S (tick s); world := w1; stats := stats s |}) by done.
  rewrite (bind_run _ _ _ tt {| tick := S (tick s); world := w1;
    stats := count_batch r.1 (stats s) |}) by done.
  pose proof (batch_last_in_range ch a t k DELETE_BATCH (db (world s))) as Hrange. fold r in Hrange.
  destruct (lastSeq r.1) as [l|] eqn:Hl.
  - destruct Hres as (n & Hn & Hlast & Hrows & Hdrop & Hdel & Hbytes). specialize (Hrange l eq_refl).
    destruct (IH l {| tick := S (tick s); world := w1; stats := count_batch r.1 (stats s) |})
      as (s' & -> & (Hwf2 & Hrows2 & Hother2 & Hsame) & Hst).
    + done.
    + simpl. rewrite Hdrop, length_drop.
      assert (length M ≠ 0)%nat; [|lia]. destruct M; [by rewrite take_nil in Hlast|done].
    + exists s'. split; [done|]. simpl in *. split.
      * unfold emptied. split_and!; [done| | |done].
        -- rewrite Hrows2, Hrows, list_filter_filter. apply list_filter_iff. intros c.
           rewrite (in_range_split ch a l t k c) by lia. tauto.
        -- intros ch' Hne. rewrite Hother2, Hother by done. done.
      * rewrite Hst, Hdrop. unfold count_batch. simpl. rewrite Hdel, Hbytes. f_equal.
        -- rewrite <- (take_drop n M) at 3. rewrite length_app. lia.
        -- rewrite <- (take_drop n M) at 3. rewrite total_bytes_app. lia.
  - destruct Hres as (HM & Hr & Hrows). eexists. split; [done|]. simpl. rewrite HM. simpl.
    rewrite Hr. simpl. split.
    + unfold emptied. split_and!; [done| |done..]. simpl. rewrite Hrows. symmetry.
      apply filter_all, Forall_forall. intros c Hc Hin.
      assert (c ∈ M) as HcM by (unfold M; rewrite list_elem_of_filter; auto).
      rewrite HM in HcM. by apply not_elem_of_nil in HcM.
    + unfold count_batch. simpl. destruct (stats s). simpl. f_equal; lia.
Qed.
End quiet.

(** ** The walk *)

Section walk.
Implicit Types (l : list Chunk).

Definition seq_gt (c d : Chunk) : Prop := seq d < seq c.

Lemma StronglySorted_reverse {A} (R : relation A) (l : list A) :
  StronglySorted R l → StronglySorted (flip R) (reverse l).
Proof.
  induction 1 as [|x l Hl IH Hx]; [constructor|]. rewrite reverse_cons.
  apply StronglySorted_app_2; [|done|repeat constructor].
  intros y z Hy ->%list_elem_of_singleton. rewrite elem_of_reverse in Hy.
  rewrite Forall_forall in Hx. by apply Hx.
Qed.

Lemma filter_below n l c :
  StronglySorted seq_gt l → last (take n l) = Some c →
  filter (λ d, seq d < seq c) l = drop n l.
Proof.
  intros Hs Hl. rewrite <- (take_drop n l) in Hs.
  apply StronglySorted_app in Hs as (Hlt & Hs1 & _).
  rewrite <- (take_drop n l) at 1. rewrite filter_app, filter_none, filter_all; [done| |].
  - apply Forall_forall. intros d Hd. apply (Hlt c d); [by apply last_Some_elem_of|done].
  - apply Forall_forall. apply last_Some in Hl as [l' Hl']. rewrite Hl' in *.
    intros d [Hd| ->%list_elem_of_singleton]%elem_of_app; [|lia].
    apply StronglySorted_app in Hs1 as (Hlt1 & _). specialize (Hlt1 d c Hd ltac:(by left)).
    unfold seq_gt in Hlt1. lia.
Qed.

Lemma filter_from (p q : list Chunk) c :
  StronglySorted seq_gt (p ++ c :: q) → filter (λ d, seq c ≤ seq d) (p ++ c :: q) = p ++ [c].
Proof.
  intros Hs. apply StronglySorted_app in Hs as (Hlt & _ & Hs2). apply StronglySorted_inv in Hs2 as [_ Hq].
  rewrite filter_app, filter_cons_True by lia. rewrite filter_all, filter_none; [done| |].
  - eapply Forall_impl; [exact Hq|]. intros d Hd. unfold seq_gt in Hd. lia.
  - apply Forall_forall. intros d Hd. specialize (Hlt d c Hd ltac:(by left)).
    unfold seq_gt in Hlt. lia.
Qed.

Section weighed.
Context (newest : option Z) (cap ageCutoff : Z).

(** What the walk weighs, and what it judges. *)
Definition weighed (c : Chunk) : Prop := Some (seq c) ≠ newest.
Definition judged (c : Chunk) : Prop := weighed c ∧ kind_of c ≠ snapshot.
#[export] Instance weighed_dec c : Decision (weighed c).
Proof. unfold weighed. apply _. Defined.

Definition unfit (total : Z) (p : list Chunk) (c : Chunk) : Prop :=
  judged c ∧ (cap < total + total_bytes (filter weighed (p ++ [c])) ∨ ts c < ageCutoff).

Lemma walk_chunks_app cs1 cs2 total :
  walk_chunks newest cap ageCutoff (cs1 ++ cs2) total =
  match walk_chunks newest cap ageCutoff cs1 total with
  | (t, Some cut) => (t, Some cut)
  | (t, None) => walk_chunks newest cap ageCutoff cs2 t
  end.
Proof.
  revert total. induction cs1 as [|c cs1 IH]; intros total; simpl; [done|].
  case_bool_decide; [apply IH|]. case_bool_decide; [apply IH|].
  destruct (_ || _); [done|apply IH].
Qed.

(** The walk stops at the first chunk that does not fit, and only there. *)
Lemma walk_chunks_spec l total :
  match (walk_chunks newest cap ageCutoff (to_size <$> l) total).2 with
  | Some cut => ∃ p c q, l = p ++ c :: q ∧ seq c = cut ∧ unfit total p c ∧
      ∀ p' c' q', p = p' ++ c' :: q' → ¬ unfit total p' c'
  | None => ∀ p c q, l = p ++ c :: q → ¬ unfit total p c
  end.
Proof.
  revert total. induction l as [|c l IH]; intros total; csimpl.
  { intros p c q Hl. by destruct p. }
  assert (∀ total', (∀ p d, unfit total (c :: p) d ↔ unfit total' p d) → ¬ unfit total [] c →
    match (walk_chunks newest cap ageCutoff (to_size <$> l) total').2 with
    | Some cut => ∃ p d q, c :: l = p ++ d :: q ∧ seq d = cut ∧ unfit total p d ∧
        ∀ p' c' q', p = p' ++ c' :: q' → ¬ unfit total p' c'
    | None => ∀ p d q, c :: l = p ++ d :: q → ¬ unfit total p d
    end) as Hrest.
  { intros total' Heq Hfit. specialize (IH total'). case_match.
    - destruct IH as (p & d & q & -> & Hs & Hbad & Hmin). exists (c :: p), d, q.
      split_and!; [done..|by apply Heq|]. intros [|x p'] c' q' Hp; simplify_eq/=; [done|].
      rewrite Heq. by eapply Hmin.
    - intros [|x p] d q Hl; simplify_eq/=; [done|]. rewrite Heq. by eapply IH. }
  case_bool_decide as Hnew; [|case_bool_decide as Hk].
  - apply Hrest.
    + intros p d. unfold unfit. csimpl. rewrite filter_cons_False; [done|].
      unfold weighed. intros Hne. by apply Hne.
    + intros [[Hw _] _]. by apply Hw.
  - apply Hrest.
    + intros p d. unfold unfit. csimpl. rewrite filter_cons_True by done.
      by rewrite total_bytes_cons, Z.add_assoc.
    + intros [[_ Hj] _]. by apply Hj.
  - destruct ((cap <? _) || _) eqn:Hbad; simpl in Hbad.
    + simpl. exists [], c, l. split_and!; [done..| |].
      * split; [done|]. simpl. rewrite filter_cons_True, filter_nil by done. simpl.
        unfold blob_length in *. lia.
      * by intros [|] ???.
    + apply Hrest.
      * intros p d. unfold unfit. csimpl. rewrite filter_cons_True by done.
        by rewrite total_bytes_cons, Z.add_assoc.
      * intros [_ Hb]. simpl in Hb. rewrite filter_cons_True, filter_nil in Hb by done.
        simpl in Hb. unfold blob_length in *. lia.
Qed.
End weighed.
End walk.

(** ** Collecting one channel *)

Section collect.
Context {E : Type}.
Implicit Types (s : Pass E) (w : World E) (ch : string).

Lemma walk_loop_alone fuel ch newest cap cutoff before total s :
  wf (db (world s)) →
  let l := reverse (filter (λ c, seq c < before) (rows ch (db (world s)))) in
  (length l < fuel)%nat →
  ∃ s', walk_loop alone never fuel ch newest cap cutoff before total s =
    (Done (walk_chunks newest cap cutoff (to_size <$> l) total).2, s') ∧ world s' = world s.
Proof.
  revert before total s. induction fuel as [|fuel IH]; intros before total s Hwf l Hlen; [lia|].
  cbn [walk_loop]. rewrite (bind_run _ _ _ _ _ (query_alone _ s)).
  rewrite listChunkSizesBefore_rows by done. fold l.
  assert (to_size <$> l = (to_size <$> take WALK_ROWS l) ++ (to_size <$> drop WALK_ROWS l)) as ->
    by by rewrite <- fmap_app, take_drop.
  rewrite walk_chunks_app.
  destruct (walk_chunks _ _ _ (to_size <$> take WALK_ROWS l) total) as [t [cut|]].
  { eexists. by split. }
  rewrite fmap_last. destruct (last (take WALK_ROWS l)) as [c|] eqn:Hl; simpl.
  - rewrite length_fmap, length_take.
    destruct ((WALK_ROWS `min` length l) <? WALK_ROWS)%nat eqn:Hlt.
    + apply Nat.ltb_lt in Hlt. rewrite drop_ge by lia. simpl. eexists. by split.
    + apply Nat.ltb_ge in Hlt.
      assert (StronglySorted seq_gt l) as Hs.
      { unfold l. apply (StronglySorted_reverse seq_lt), StronglySorted_filter. by apply rows_sorted. }
      pose proof (filter_below WALK_ROWS l c Hs Hl) as Hbelow.
      assert (drop WALK_ROWS l = reverse (filter (λ d, seq d < seq c) (rows ch (db (world s))))) as Hd.
      { rewrite <- Hbelow. unfold l. rewrite filter_reverse, list_filter_filter. f_equal.
        apply list_filter_iff. intros d. apply last_Some_elem_of, elem_of_take in Hl as (i & Hi & _).
        apply list_elem_of_lookup_2 in Hi. unfold l in Hi.
        rewrite elem_of_reverse, list_elem_of_filter in Hi. lia. }
      set (s1 := Build_Pass _ _ _ _).
      destruct (IH (seq c) t s1) as (s' & Hr & Hw); [done| |].
      * simpl. rewrite <- Hd, length_drop. unfold WALK_ROWS in *. lia.
      * exists s'. unfold s1 in Hr. simpl in Hr. rewrite Hd. by split.
  - apply last_None in Hl.
    assert (length (take WALK_ROWS l) = 0%nat) as Hz by by rewrite Hl.
    rewrite length_take in Hz. unfold WALK_ROWS in Hz. rewrite drop_ge by (unfold WALK_ROWS; lia).
    simpl. eexists. by split.
Qed.

(** The size of the channel from a chunk to its end, the newest snapshot counted first. *)
Definition base ch (d : Db) : Z := from_option snd 0 (getLatestSnapshotSize ch d).
Definition size_from ch (d : Db) (c : Chunk) : Z :=
  base ch d + total_bytes (filter (λ e, kind_of e ≠ snapshot ∧ seq c ≤ seq e) (rows ch d)).
Definition fits cap cutoff ch (d : Db) (c : Chunk) : Prop :=
  size_from ch d c ≤ cap ∧ cutoff ≤ ts c.

#[export] Instance fits_dec cap cutoff ch d c : Decision (fits cap cutoff ch d c).
Proof. unfold fits. apply _. Defined.

(** What the collector means to keep of a channel: its newest snapshot, and the chunks from which
    on every one fits. *)
Definition keeps cap cutoff ch (d : Db) (c : Chunk) : Prop :=
  getLatestSnapshot ch d = Some c ∨
  (kind_of c ≠ snapshot ∧
   ∀ e, e ∈ rows ch d → kind_of e ≠ snapshot → seq c ≤ seq e → fits cap cutoff ch d e).

(** Seqs the code can walk: JavaScript's safe integers. *)
Definition safe_seqs ch (d : Db) : Prop := ∀ c, c ∈ rows ch d → FIRST_SEQ < seq c < LAST_SEQ.

(** [l] is the channel's rows without the snapshots older than the newest. *)
Definition trimmed ch (d : Db) (l : list Chunk) : Prop :=
  StronglySorted seq_lt l ∧
  ∀ c, c ∈ l ↔ c ∈ rows ch d ∧ (kind_of c = snapshot → getLatestSnapshot ch d = Some c).

Lemma trimmed_weighed ch d l c :
  wf d → trimmed ch d l → c ∈ l →
  (Some (seq c) ≠ (fst <$> getLatestSnapshotSize ch d) ↔ kind_of c ≠ snapshot).
Proof.
  intros Hwf [_ Hl] Hc. apply Hl in Hc as [Hc Hsnap]. unfold getLatestSnapshotSize.
  destruct (getLatestSnapshot ch d) as [n|] eqn:Hn; simpl.
  - pose proof (proj1 (getLatestSnapshot_Some ch d n Hwf) Hn) as (Hnr & Hnk & _).
    split.
    + intros Hne Hk. specialize (Hsnap Hk). congruence.
    + intros Hk [= Heq]. apply elem_of_rows in Hc as [Hc1 Hc2].
      apply elem_of_rows in Hnr as [Hn1 Hn2].
      assert (c = n) by (apply (wf_unique d Hwf); congruence). congruence.
  - split; [|done]. intros _ Hk. by specialize (Hsnap Hk).
Qed.

Lemma trimmed_size ch d l p c q :
  wf d → trimmed ch d l → reverse l = p ++ c :: q →
  base ch d + total_bytes (filter (weighed (fst <$> getLatestSnapshotSize ch d)) (p ++ [c])) =
  size_from ch d c.
Proof.
  intros Hwf Htr Hl. pose proof Htr as [Hs Hin]. unfold size_from. f_equal.
  rewrite <- (filter_from p q c).
  2:{ rewrite <- Hl. by apply (StronglySorted_reverse seq_lt). }
  rewrite <- Hl, list_filter_filter. apply total_bytes_perm, NoDup_Permutation.
  - apply NoDup_filter. rewrite reverse_Permutation.
    clear -Hs. induction Hs as [|x l Hl IH Hx]; constructor; [|done].
    intros Hin. rewrite Forall_forall in Hx. specialize (Hx x Hin). unfold seq_lt in Hx. lia.
  - by apply NoDup_filter, NoDup_rows.
  - intros e. rewrite !list_elem_of_filter, elem_of_reverse. split.
    + intros [[Hw Hle] He]. split; [split; [|done]|by apply Hin].
      by apply (trimmed_weighed ch d l e Hwf Htr He).
    + intros [[Hk Hle] He]. assert (e ∈ l) as Hel by (by apply Hin).
      split; [split; [|done]|done]. by apply (trimmed_weighed ch d l e Hwf Htr Hel).
Qed.

(** What the walk judges is what [fits] says. *)
Lemma trimmed_unfit cap cutoff ch d l p c q :
  wf d → trimmed ch d l → reverse l = p ++ c :: q →
  unfit (fst <$> getLatestSnapshotSize ch d) cap cutoff (base ch d) p c ↔
  kind_of c ≠ snapshot ∧ ¬ fits cap cutoff ch d c.
Proof.
  intros Hwf Htr Hl. unfold unfit, judged, fits. rewrite (trimmed_size ch d l p c q) by done.
  assert (c ∈ l) as Hc.
  { rewrite <- elem_of_reverse, Hl. apply elem_of_app. right. by left. }
  pose proof (trimmed_weighed ch d l c Hwf Htr Hc) as Hw. unfold weighed. rewrite Hw.
  split; [|intros [? Hn]].
  - intros [[_ ?] Hn]. split; [done|]. lia.
  - split; [done|]. lia.
Qed.

Lemma collectChannel_walk cap cutoff ch d l :
  wf d → trimmed ch d l →
  match (walk_chunks (fst <$> getLatestSnapshotSize ch d) cap cutoff
           (to_size <$> reverse l) (base ch d)).2 with
  | Some cut => ∀ c, c ∈ l → kind_of c ≠ snapshot → (cut < seq c ↔ keeps cap cutoff ch d c)
  | None => ∀ c, c ∈ l → keeps cap cutoff ch d c
  end.
Proof.
  intros Hwf Htr. pose proof Htr as [Hs Hin].
  assert (StronglySorted seq_gt (reverse l)) as Hsr by by apply (StronglySorted_reverse seq_lt).
  assert (∀ c, c ∈ l → ∃ p q, reverse l = p ++ c :: q) as Hsplit.
  { intros c Hc. apply list_elem_of_split. by apply elem_of_reverse. }
  pose proof (walk_chunks_spec (fst <$> getLatestSnapshotSize ch d) cap cutoff (reverse l)
                (base ch d)) as Hwalk.
  destruct (walk_chunks _ _ _ _ _).2 as [cut|].
  - destruct Hwalk as (p & x & q & Hl & Hx & Hbad & Hmin).
    apply (trimmed_unfit cap cutoff ch d l p x q Hwf Htr Hl) in Hbad as [Hxk Hxbad].
    assert (x ∈ l) as Hxl.
    { rewrite <- elem_of_reverse, Hl. apply elem_of_app. right. by left. }
    intros c Hc Hk. split.
    + intros Hlt. right. split; [done|]. intros e He Hek Hle.
      assert (e ∈ l) as Hel by by apply Hin.
      assert (e ∈ p) as Hep.
      { assert (e ∈ reverse l) as Her by by apply elem_of_reverse.
        rewrite Hl in Her, Hsr. apply StronglySorted_app in Hsr as (_ & _ & Hsr).
        apply StronglySorted_inv in Hsr as [_ Hq]. rewrite Forall_forall in Hq.
        apply elem_of_app in Her as [?|[->|Heq]%elem_of_cons]; [done|lia|].
        specialize (Hq e Heq). unfold seq_gt in Hq. lia. }
      apply list_elem_of_split in Hep as (p' & q' & Hp).
      specialize (Hmin p' e q' Hp). rewrite Hp, <- app_assoc in Hl.
      rewrite (trimmed_unfit cap cutoff ch d l p' e (q' ++ x :: q) Hwf Htr Hl) in Hmin.
      destruct (decide (fits cap cutoff ch d e)); [done|tauto].
    + intros [Hlast|[_ Hkeep]].
      * apply (getLatestSnapshot_Some ch d c Hwf) in Hlast as (_ & ? & _). done.
      * destruct (decide (cut < seq c)); [done|]. exfalso. apply Hxbad, Hkeep; [by apply Hin|done|lia].
  - intros c Hc. destruct (decide (kind_of c = snapshot)) as [Hk|Hk].
    + left. by apply Hin.
    + right. split; [done|]. intros e He Hek _. assert (e ∈ l) as Hel by by apply Hin.
      destruct (Hsplit e Hel) as (p & q & Hl). specialize (Hwalk p e q Hl).
      rewrite (trimmed_unfit cap cutoff ch d l p e q Hwf Htr Hl) in Hwalk.
      destruct (decide (fits cap cutoff ch d e)); [done|tauto].
Qed.

Lemma emptied_trans ch (P Q : Chunk → Prop) `{∀ c, Decision (P c), ∀ c, Decision (Q c)} w1 w2 w3 :
  emptied ch P w1 w2 → emptied ch Q w2 w3 →
  wf (db w3) ∧ (∀ c, c ∈ rows ch (db w3) ↔ c ∈ rows ch (db w1) ∧ ¬ P c ∧ ¬ Q c) ∧
  (∀ ch', ch' ≠ ch → rows ch' (db w3) = rows ch' (db w1)) ∧ same_rest w1 w3.
Proof.
  intros (_ & Hr1 & Ho1 & Hs1) (Hwf & Hr2 & Ho2 & Hs2). split_and!; [done| | |by transitivity w2].
  - intros c. rewrite Hr2, Hr1, !list_elem_of_filter. tauto.
  - intros ch' Hne. by rewrite Ho2, Ho1.
Qed.

(** The snapshots older than the newest go first. *)
Lemma trim_alone fuel ch s :
  wf (db (world s)) → safe_seqs ch (db (world s)) →
  (length (rows ch (db (world s))) < fuel)%nat →
  ∃ s', match getLatestSnapshotSize ch (db (world s)) with
        | Some (n, _) => deleteRange alone never fuel ch snapshots (n - 1)
        | None => ret tt
        end s = (Done tt, s') ∧
    wf (db (world s')) ∧ trimmed ch (db (world s)) (rows ch (db (world s'))) ∧
    (∀ ch', ch' ≠ ch → rows ch' (db (world s')) = rows ch' (db (world s))) ∧
    same_rest (world s) (world s').
Proof.
  intros Hwf Hsafe Hfuel. unfold getLatestSnapshotSize.
  pose proof (rows_sorted ch _ Hwf) as Hs.
  destruct (getLatestSnapshot ch (db (world s))) as [n|] eqn:Hn; simpl.
  - pose proof (proj1 (getLatestSnapshot_Some _ _ n Hwf) Hn) as (Hnr & Hnk & Hmax).
    destruct (deleteRange_loop_alone fuel ch snapshots (seq n - 1) FIRST_SEQ s Hwf)
      as (s' & Hr & (Hwf' & Hrows & Ho & Hsame) & _).
    { eapply Nat.le_lt_trans; [|exact Hfuel]. apply length_filter. }
    exists s'. split_and!; [done..| |done|done]. split; [by apply rows_sorted|].
    intros c. rewrite Hrows, list_elem_of_filter. split.
    + intros [Hni Hc]. split; [done|]. intros Hk. rewrite Hn. f_equal.
      pose proof (Hmax c Hc Hk). destruct (decide (seq c ≤ seq n - 1)).
      * exfalso. apply Hni. pose proof (Hsafe c Hc). apply elem_of_rows in Hc as [? _].
        split_and!; [done|lia|lia|done].
      * apply elem_of_rows in Hc as [??]. apply elem_of_rows in Hnr as [??].
        apply (wf_unique _ Hwf); [done..|congruence|lia].
    + intros [Hc Hk]. split; [|done]. intros (_ & _ & Hle & Hks). simpl in Hks.
      specialize (Hk Hks). rewrite Hn in Hk. injection Hk as <-. lia.
  - exists s. split_and!; [done..| |done|done]. split; [done|]. intros c. split; [|tauto].
    intros Hc. split; [done|]. intros Hk. exfalso.
    rewrite getLatestSnapshot_rows, last_None in Hn by done.
    assert (c ∈ filter (λ c, kind_of c = snapshot) (rows ch (db (world s)))) as Hc'
      by (rewrite list_elem_of_filter; auto).
    rewrite Hn in Hc'. by apply not_elem_of_nil in Hc'.
Qed.

(** What a pass leaves of a channel, and that it leaves the others alone. *)
Definition left_with (ch : string) (K : Chunk → Prop) w w' : Prop :=
  wf (db w') ∧ (∀ c, c ∈ rows ch (db w') ↔ c ∈ rows ch (db w) ∧ K c) ∧
  (∀ ch', ch' ≠ ch → rows ch' (db w') = rows ch' (db w)) ∧ same_rest w w'.

Lemma collectChannel_alone fuel cap cutoff ch s :
  wf (db (world s)) → safe_seqs ch (db (world s)) →
  (length (rows ch (db (world s))) < fuel)%nat →
  ∃ s', collectChannel alone never fuel cap cutoff ch s = (Done tt, s') ∧
    left_with ch (keeps cap cutoff ch (db (world s))) (world s) (world s').
Proof.
  intros Hwf Hsafe Hfuel. unfold collectChannel. rewrite (bind_run _ _ _ _ _ (query_alone _ s)).
  set (s1 := Build_Pass _ _ _ _).
  destruct (trim_alone fuel ch s1 Hwf Hsafe Hfuel) as (s2 & Htrim & Hwf2 & Htr & Ho2 & Hsame2).
  rewrite (bind_run _ _ _ tt s2) by exact Htrim. clear Htrim. simpl in Htr, Ho2, Hsame2.
  set (l := rows ch (db (world s2))) in *.
  assert (filter (λ c, seq c < LAST_SEQ) l = l) as Hl.
  { apply filter_all, Forall_forall. intros c Hc. apply Htr in Hc as [Hc _].
    apply Hsafe in Hc. lia. }
  assert (length l ≤ length (rows ch (db (world s))))%nat as Hlen.
  { apply submseteq_length, NoDup_submseteq.
    - by apply NoDup_rows.
    - intros c Hc. by apply Htr in Hc as [? _]. }
  destruct (walk_loop_alone fuel ch (fst <$> getLatestSnapshotSize ch (db (world s))) cap cutoff
              LAST_SEQ (base ch (db (world s))) s2 Hwf2) as (s3 & Hwalk & Hw3).
  { fold l. rewrite Hl, length_reverse. lia. }
  fold l in Hwalk. rewrite Hl in Hwalk. rewrite (bind_run _ _ _ _ _ Hwalk). clear Hwalk.
  pose proof (collectChannel_walk cap cutoff ch (db (world s)) l Hwf Htr) as Hcut.
  destruct (walk_chunks _ _ _ _ _).2 as [cut|].
  - destruct (deleteRange_loop_alone fuel ch others cut FIRST_SEQ s3) as (s4 & Hr & (Hwf4 & Hrows & Ho & Hsame) & _).
    { by rewrite Hw3. }
    { rewrite Hw3. fold l. eapply Nat.le_lt_trans; [apply length_filter|lia]. }
    rewrite Hw3 in Hrows, Ho, Hsame. fold l in Hrows.
    exists s4. split; [done|]. split_and!; [done| | |by transitivity (world s2)].
    + intros c. rewrite Hrows, list_elem_of_filter. split.
      * intros [Hni Hc]. pose proof (proj1 (proj2 Htr c) Hc) as [Hcr Hsnap]. split; [done|].
        destruct (decide (kind_of c = snapshot)) as [Hk|Hk]; [left; auto|].
        apply (Hcut c Hc Hk). destruct (decide (cut < seq c)); [done|]. exfalso. apply Hni.
        pose proof (Hsafe c Hcr). apply elem_of_rows in Hcr as [? _]. split_and!; (done || lia).
      * intros [Hcr Hkeep]. assert (c ∈ l) as Hc.
        { apply Htr. split; [done|]. intros Hk. destruct Hkeep as [?|[? _]]; done. }
        split; [|done]. intros (_ & _ & Hle & Hk). simpl in Hk.
        apply (Hcut c Hc Hk) in Hkeep. lia.
    + intros ch' Hne. by rewrite Ho, Ho2.
  - exists s3. split; [done|]. rewrite Hw3. split_and!; [done| |done|done].
    intros c. fold l. split.
    + intros Hc. split; [by apply Htr in Hc as [? _]|by apply Hcut].
    + intros [Hcr Hkeep]. apply Htr. split; [done|]. intros Hk.
      destruct Hkeep as [?|[? _]]; done.
Qed.

(** What is kept fits the cap, but for a newest snapshot that alone passes it. *)
Lemma keeps_bound cap cutoff ch d d' :
  wf d → wf d' →
  (∀ c, c ∈ rows ch d' → c ∈ rows ch d ∧ keeps cap cutoff ch d c) →
  getChannelSize ch d' ≤ Z.max cap (base ch d).
Proof.
  intros Hwf Hwf' Hin.
  assert (getChannelSize ch d' = total_bytes (rows ch d')) as ->.
  { apply total_bytes_perm. unfold rows. by rewrite order_asc_Permutation. }
  set (K := rows ch d') in *.
  assert (NoDup K) as HndK by by apply NoDup_rows.
  assert (K ≡ₚ filter (λ c, kind_of c = snapshot) K ++ filter (λ c, kind_of c ≠ snapshot) K) as Hsplit.
  { clear. induction K as [|c K IH]; [done|]. rewrite !filter_cons. repeat case_decide; try tauto.
    - simpl. by rewrite <- IH.
    - rewrite <- Permutation_middle. by rewrite <- IH. }
  rewrite (total_bytes_perm _ _ Hsplit), total_bytes_app.
  assert (total_bytes (filter (λ c, kind_of c = snapshot) K) ≤ base ch d) as Hsnap.
  { unfold base, getLatestSnapshotSize.
    destruct (getLatestSnapshot ch d) as [n|] eqn:Hn; simpl.
    - assert (∀ c, c ∈ filter (λ c, kind_of c = snapshot) K → c = n) as Hall.
      { intros c [Hk Hc]%list_elem_of_filter. apply Hin in Hc as [_ [?|[? _]]]; congruence. }
      pose proof (NoDup_filter (λ c, kind_of c = snapshot) K HndK) as Hnd.
      destruct (filter _ K) as [|x [|y m]]; simpl; unfold blob_length; [lia| |].
      + rewrite (Hall x) by by left. lia.
      + exfalso. apply NoDup_cons in Hnd as [Hx _]. apply Hx.
        rewrite (Hall x), <- (Hall y) by (by left || (right; by left)). by left.
    - rewrite filter_none; [done|]. apply Forall_forall. intros c Hc Hk.
      apply Hin in Hc as [_ [?|[? _]]]; congruence. }
  set (N := filter (λ c, kind_of c ≠ snapshot) K) in *.
  assert (StronglySorted seq_lt N) as HsN by by apply StronglySorted_filter, rows_sorted.
  destruct N as [|x N'] eqn:HN; [simpl; lia|].
  assert (x ∈ K ∧ kind_of x ≠ snapshot) as [Hx Hxk].
  { assert (x ∈ N) as HxN by (rewrite HN; by left). unfold N in HxN.
    rewrite list_elem_of_filter in HxN. tauto. }
  assert (size_from ch d x ≤ cap) as Hcap.
  { apply Hin in Hx as [Hxr [Hl|[_ Hfit]]].
    - apply (getLatestSnapshot_Some _ _ _ Hwf) in Hl as (_ & ? & _). done.
    - by apply (Hfit x Hxr Hxk). }
  unfold size_from in Hcap. rewrite <- HN.
  assert (total_bytes N ≤ total_bytes (filter (λ e, kind_of e ≠ snapshot ∧ seq x ≤ seq e)
    (rows ch d))); [|lia].
  apply total_bytes_subset; [by apply NoDup_filter|]. intros c Hc.
  assert (seq x ≤ seq c) as Hle.
  { rewrite HN in Hc. apply StronglySorted_inv in HsN as [_ HxN]. rewrite Forall_forall in HxN.
    apply elem_of_cons in Hc as [->|Hc]; [done|]. apply Z.lt_le_incl. by apply HxN. }
  unfold N in Hc. apply list_elem_of_filter in Hc as [Hk Hc]. apply Hin in Hc as [Hc _].
  rewrite list_elem_of_filter. auto.
Qed.
End collect.

(** ** A whole pass *)

Section pass.
Context {E : Type}.
Implicit Types (s : Pass E) (w : World E) (ch after : string).

Lemma nextChannelId_Some after d ch :
  nextChannelId after d = Some ch →
  text_lt after ch ∧ (∃ c, c ∈ chunks d ∧ channelId c = ch) ∧
  ∀ c, c ∈ chunks d → text_lt after (channelId c) → channelId c = ch ∨ text_lt ch (channelId c).
Proof.
  unfold nextChannelId. set (l := filter _ _). intros Hh.
  assert (StronglySorted String.le (merge_sort String.le l)) as Hs
    by (apply StronglySorted_merge_sort; apply _).
  assert (∀ x, x ∈ merge_sort String.le l ↔ text_lt after x ∧ ∃ c, c ∈ chunks d ∧ channelId c = x) as Hin.
  { intros x. rewrite merge_sort_Permutation. unfold l. rewrite list_elem_of_filter.
    rewrite list_elem_of_fmap. split; intros [Hx (c & Hc)]; (split; [done|]); exists c; 
      destruct Hc; auto. }
  destruct (merge_sort String.le l) as [|x m]; [done|]. simplify_eq/=.
  destruct (proj1 (Hin ch) ltac:(by left)) as [? ?]. split_and!; [done..|].
  intros c Hc Hlt. assert (channelId c ∈ ch :: m) as Hcm by (apply Hin; eauto).
  apply StronglySorted_inv in Hs as [_ Hall]. rewrite Forall_forall in Hall.
  destruct (decide (channelId c = ch)) as [|Hne]; [by left|right].
  apply elem_of_cons in Hcm as [?|Hcm]; [done|]. split; [by apply Hall|congruence].
Qed.

Lemma nextChannelId_None after d c :
  nextChannelId after d = None → c ∈ chunks d → ¬ text_lt after (channelId c).
Proof.
  unfold nextChannelId. intros Hh Hc Hlt.
  assert (channelId c ∈ merge_sort String.le (filter (λ ch, text_lt after ch) (channelId <$> chunks d)))
    as Hin.
  { rewrite merge_sort_Permutation, list_elem_of_filter. split; [done|].
    by apply list_elem_of_fmap_2. }
  destruct (merge_sort _ _); [by apply not_elem_of_nil in Hin|done].
Qed.

Lemma rows_nil ch d : rows ch d = [] ↔ ∀ c, c ∈ chunks d → channelId c ≠ ch.
Proof.
  split.
  - intros Hr c Hc Hch. assert (c ∈ rows ch d) as Hin by (by apply elem_of_rows).
    rewrite Hr in Hin. by apply not_elem_of_nil in Hin.
  - intros Hn. destruct (rows ch d) as [|c l] eqn:Hr; [done|]. exfalso.
    assert (c ∈ rows ch d) as [? ?]%elem_of_rows by (rewrite Hr; by left). by apply (Hn c).
Qed.

(** Deleting a channel through its highest seq empties it. *)
Lemma empty_channel_alone fuel ch s :
  wf (db (world s)) → safe_seqs ch (db (world s)) →
  (length (rows ch (db (world s))) < fuel)%nat →
  ∃ s', deleteRange alone never fuel ch all (getMaxSeq ch (db (world s))) s = (Done tt, s') ∧
    left_with ch (λ _, False) (world s) (world s').
Proof.
  intros Hwf Hsafe Hfuel.
  destruct (deleteRange_loop_alone fuel ch all (getMaxSeq ch (db (world s))) FIRST_SEQ s Hwf)
    as (s' & Hr & (Hwf' & Hrows & Ho & Hsame) & _).
  { eapply Nat.le_lt_trans; [apply length_filter|done]. }
  exists s'. split; [done|]. split_and!; [done| |done|done].
  intros c. rewrite Hrows, list_elem_of_filter. split; [|tauto]. intros [Hn Hc]. exfalso. apply Hn.
  pose proof (Hsafe c Hc). pose proof (getMaxSeq_ge ch _ c Hc). apply elem_of_rows in Hc as [? _].
  split_and!; (done || lia).
Qed.

Lemma collectOrphan_alone fuel ch s :
  wf (db (world s)) → safe_seqs ch (db (world s)) →
  (length (rows ch (db (world s))) < fuel)%nat →
  ∃ s', collectOrphan alone never fuel ch s = (Done (negb (hasChannel ch (world s))), s') ∧
    left_with ch (λ _, hasChannel ch (world s) = true) (world s) (world s').
Proof.
  intros Hwf Hsafe Hfuel. unfold collectOrphan. rewrite (bind_run _ _ _ _ _ (query_alone _ s)).
  set (s1 := Build_Pass _ _ _ _). destruct (hasChannel ch (world s)) eqn:Hh.
  - exists s1. split; [done|]. split_and!; [done| |done|done]. intros c. tauto.
  - destruct (empty_channel_alone fuel ch s1 Hwf Hsafe Hfuel) as (s2 & Hr & Hl).
    rewrite (bind_run _ _ _ tt s2) by exact Hr.
    eexists. split; [done|]. destruct Hl as (? & Hin & ? & ?). split_and!; [done| |done|done].
    intros c. rewrite (Hin c). split; [by intros [_ []]|intros [_ ?]; congruence].
Qed.

(** The pass, channel by channel: emptied when meta.db no longer has it, kept in bounds otherwise. *)
Definition pass_keeps cap cutoff ch w (c : Chunk) : Prop :=
  hasChannel ch w = true ∧ keeps cap cutoff ch (db w) c.

Lemma keeps_ext cap cutoff ch d d' c :
  wf d → wf d' → rows ch d' = rows ch d → keeps cap cutoff ch d' c ↔ keeps cap cutoff ch d c.
Proof.
  intros Hwf Hwf' Hr. unfold keeps, fits, size_from, base, getLatestSnapshotSize.
  by rewrite !getLatestSnapshot_rows, Hr.
Qed.

Lemma channel_alone fuel cap cutoff ch s :
  wf (db (world s)) → safe_seqs ch (db (world s)) →
  (length (rows ch (db (world s))) < fuel)%nat →
  ∃ s', bind (collectOrphan alone never fuel ch)
          (λ orphan, if orphan then ret tt else collectChannel alone never fuel cap cutoff ch) s
        = (Done tt, s') ∧
    left_with ch (pass_keeps cap cutoff ch (world s)) (world s) (world s').
Proof.
  intros Hwf Hsafe Hfuel.
  destruct (collectOrphan_alone fuel ch s Hwf Hsafe Hfuel) as (s1 & Hr & Hwf1 & Hin1 & Ho1 & Hs1).
  rewrite (bind_run _ _ _ _ _ Hr). destruct (hasChannel ch (world s)) eqn:Hh; simpl.
  - assert (rows ch (db (world s1)) = rows ch (db (world s))) as Hsame.
    { apply rows_ext; [done..|]. intros c. rewrite Hin1. tauto. }
    destruct (collectChannel_alone fuel cap cutoff ch s1) as (s2 & Hr2 & Hwf2 & Hin2 & Ho2 & Hs2).
    1: done. 1: intros c; rewrite Hsame; apply Hsafe. 1: by rewrite Hsame.
    exists s2. split; [done|]. split_and!; [done| | |by transitivity (world s1)].
    + intros c. rewrite Hin2, Hsame. unfold pass_keeps.
      rewrite (keeps_ext cap cutoff ch (db (world s)) (db (world s1)) c) by done. tauto.
    + intros ch' Hne. by rewrite Ho2, Ho1.
  - exists s1. split; [done|]. split_and!; [done| |done|done]. intros c. rewrite Hin1.
    unfold pass_keeps. rewrite Hh. split; [by intros [_ ?]|by intros [_ [? _]]].
Qed.

#[export] Instance text_lt_trans : Transitive text_lt.
Proof.
  intros a b c [Hab Hne1] [Hbc Hne2]. split; [by transitivity b|]. intros ->.
  apply Hne1. by apply (anti_symm String.le).
Qed.

Lemma pass_keeps_ext cap cutoff ch w w' c :
  wf (db w) → wf (db w') → same_rest w w' → rows ch (db w') = rows ch (db w) →
  pass_keeps cap cutoff ch w' c ↔ pass_keeps cap cutoff ch w c.
Proof.
  intros Hwf Hwf' (Hm & _) Hr. unfold pass_keeps, hasChannel. rewrite Hm.
  by rewrite (keeps_ext cap cutoff ch (db w) (db w')).
Qed.

Lemma left_with_chunks ch K w w' c :
  left_with ch K w w' → c ∈ chunks (db w') → c ∈ chunks (db w).
Proof.
  intros (_ & Hin & Ho & _) Hc. destruct (decide (channelId c = ch)) as [Hch|Hne].
  - assert (c ∈ rows ch (db w')) as Hr%Hin by (by apply elem_of_rows).
    destruct Hr as [[_ ?]%elem_of_rows _]. done.
  - assert (c ∈ rows (channelId c) (db w')) as Hr by (by apply elem_of_rows).
    rewrite (Ho _ Hne), elem_of_rows in Hr. by destruct Hr.
Qed.

(** The channels after [after] that hold anything: what is left of the loop. *)
Definition remaining after (d : Db) : nat :=
  length (filter (λ c, text_lt after (channelId c)) (chunks d)).

Lemma remaining_rows after ch d :
  wf d → nextChannelId after d = Some ch → (length (rows ch d) ≤ remaining after d)%nat.
Proof.
  intros Hwf (Hlt & _)%nextChannelId_Some. unfold remaining, rows. rewrite order_asc_Permutation.
  apply submseteq_length, NoDup_submseteq; [by apply NoDup_filter, wf_chunks_nodup|].
  intros e. rewrite !list_elem_of_filter. by intros [-> ?].
Qed.

Lemma remaining_lt after ch K w w' :
  left_with ch K w w' → nextChannelId after (db w) = Some ch →
  (remaining ch (db w') < remaining after (db w))%nat.
Proof.
  intros Hl (Hlt & (c & Hc & Hch) & _)%nextChannelId_Some. unfold remaining.
  change (length (c :: filter (λ c, text_lt ch (channelId c)) (chunks (db w'))) ≤
    length (filter (λ c, text_lt after (channelId c)) (chunks (db w))))%nat.
  apply submseteq_length, NoDup_submseteq.
  - constructor; [|by apply NoDup_filter, wf_chunks_nodup, Hl].
    intros [[_ Hne] _]%list_elem_of_filter. congruence.
  - intros e. rewrite elem_of_cons, !list_elem_of_filter. intros [->|[He Hin]].
    + by rewrite Hch.
    + split; [by transitivity ch|]. by eapply left_with_chunks.
Qed.

Lemma channels_loop_alone fuel cap cutoff after s :
  wf (db (world s)) → (∀ ch, safe_seqs ch (db (world s))) →
  (remaining after (db (world s)) < fuel)%nat →
  ∃ s', channels_loop alone never fuel cap cutoff (nextChannelId after (db (world s))) s
        = (Done tt, s') ∧
    wf (db (world s')) ∧ same_rest (world s) (world s') ∧
    ∀ ch, if decide (text_lt after ch)
          then ∀ c, c ∈ rows ch (db (world s')) ↔
                    c ∈ rows ch (db (world s)) ∧ pass_keeps cap cutoff ch (world s) c
          else rows ch (db (world s')) = rows ch (db (world s)).
Proof.
  revert after s. induction fuel as [|fuel IH]; intros after s Hwf Hsafe Hfuel; [lia|].
  cbn [channels_loop]. destruct (nextChannelId after (db (world s))) as [ch|] eqn:Hnext.
  2:{ exists s. split_and!; [done..|]. intros ch. case_decide as Hlt; [|done].
      assert (rows ch (db (world s)) = []) as ->.
      { apply rows_nil. intros c Hc <-. by eapply nextChannelId_None. }
      intros c. by split; [intros ?%not_elem_of_nil|intros [?%not_elem_of_nil _]]. }
  destruct (channel_alone (S fuel) cap cutoff ch s Hwf (Hsafe ch)) as (s1 & Hr & Hl).
  { eapply Nat.le_lt_trans; [by apply remaining_rows|exact Hfuel]. }
  rewrite bind_assoc, (bind_run _ _ _ _ _ Hr), (bind_run _ _ _ _ _ (query_alone _ s1)).
  pose proof (remaining_lt after ch _ _ _ Hl Hnext) as Hrem.
  assert (∀ c, c ∈ chunks (db (world s1)) → c ∈ chunks (db (world s))) as Hsub
    by (intros c; by eapply left_with_chunks).
  destruct Hl as (Hwf1 & Hin1 & Ho1 & Hs1). set (s1' := Build_Pass _ _ _ _).
  destruct (IH ch s1') as (s2 & Hr2 & Hwf2 & Hs2 & Hin2); [done| |simpl; lia|].
  { intros x c. rewrite elem_of_rows. intros [<- Hc]. apply (Hsafe (channelId c)).
    apply elem_of_rows. split; [done|]. by apply Hsub. }
  exists s2. split_and!; [done..|by transitivity (world s1)|]. simpl in Hin2.
  apply nextChannelId_Some in Hnext as (Hlt & _ & Hmin). intros x. specialize (Hin2 x).
  assert (¬ text_lt ch ch) as Hirr by (by intros [_ ?]).
  destruct (decide (x = ch)) as [->|Hne].
  - rewrite (decide_False _ _ Hirr) in Hin2. rewrite decide_True by done.
    intros c. by rewrite Hin2.
  - rewrite (Ho1 x Hne) in Hin2. destruct (decide (text_lt ch x)) as [Hchx|Hchx].
    + rewrite decide_True by (by transitivity ch). intros c. rewrite Hin2.
      by rewrite (pass_keeps_ext cap cutoff x (world s) (world s1) c) by auto.
    + case_decide as Hax; [|done]. assert (rows x (db (world s)) = []) as Hnil.
      { apply rows_nil. intros c Hc <-. by destruct (Hmin c Hc Hax). }
      intros c. rewrite Hin2, Hnil. by split; [intros ?%not_elem_of_nil|intros [?%not_elem_of_nil _]].
Qed.

(** Enough fuel for a pass over [d]: more than its rows. *)
Definition enough (fuel : nat) (d : Db) : Prop :=
  (length (chunks d) < fuel)%nat ∧ ∀ ch, safe_seqs ch d.

Lemma rows_length ch d : (length (rows ch d) ≤ length (chunks d))%nat.
Proof. unfold rows. rewrite order_asc_Permutation. apply length_filter. Qed.

Lemma enough_smaller fuel d d' :
  wf d' → (∀ c, c ∈ chunks d' → c ∈ chunks d) → enough fuel d → enough fuel d'.
Proof.
  intros Hwf' Hsub [Hlen Hsafe]. split.
  - eapply Nat.le_lt_trans; [|exact Hlen]. apply submseteq_length, NoDup_submseteq; [|done].
    by apply wf_chunks_nodup.
  - intros ch c [<- Hc]%elem_of_rows. apply (Hsafe (channelId c)), elem_of_rows. auto.
Qed.

(** Running a job on each of some channels, where [f] leaves the rows of its channel when [K]
    holds of it and none otherwise. *)
Lemma each_alone (f : string → M E unit) (K : list MetaChannel → string → Prop) fuel chs s :
  (∀ ch s, wf (db (world s)) → enough fuel (db (world s)) →
    ∃ s', f ch s = (Done tt, s') ∧ left_with ch (λ _, K (meta (world s)) ch) (world s) (world s')) →
  wf (db (world s)) → enough fuel (db (world s)) →
  ∃ s', each f chs s = (Done tt, s') ∧ wf (db (world s')) ∧ same_rest (world s) (world s') ∧
    ∀ ch c, c ∈ rows ch (db (world s')) ↔
            c ∈ rows ch (db (world s)) ∧ (ch ∈ chs → K (meta (world s)) ch).
Proof.
  intros Hf. revert s. induction chs as [|ch chs IH]; intros s Hwf Hen; cbn [each].
  { exists s. split_and!; [done..|]. intros ch c. split; [|tauto]. intros Hc. split; [done|].
    by intros ?%not_elem_of_nil. }
  destruct (Hf ch s Hwf Hen) as (s1 & Hr & Hl). rewrite (bind_run _ _ _ _ _ Hr).
  assert (∀ c, c ∈ chunks (db (world s1)) → c ∈ chunks (db (world s))) as Hsub
    by (intros c; by eapply left_with_chunks).
  destruct Hl as (Hwf1 & Hin1 & Ho1 & Hs1).
  destruct (IH s1 Hwf1) as (s2 & Hr2 & Hwf2 & Hs2 & Hin2).
  { apply (enough_smaller fuel (db (world s))); done. }
  exists s2. split_and!; [done..|by transitivity (world s1)|].
  intros x c. rewrite Hin2, elem_of_cons. destruct Hs1 as (-> & _).
  destruct (decide (x = ch)) as [->|Hne].
  - rewrite Hin1. tauto.
  - rewrite (Ho1 x Hne). split; intros [? HK]; (split; [done|]); [intros [?|?]; auto; done|auto].
Qed.

(** The vacuum ends within as many steps as there are free pages, and two more. *)
Lemma vacuum_loop_alone fuel free s :
  match free with
  | Some before => (before < fuel)%nat
  | None => (freeList (world s) + 1 < fuel)%nat
  end →
  ∃ n s', vacuum_loop alone never fuel free s = (Done n, s') ∧ db (world s') = db (world s) ∧
    meta (world s') = meta (world s) ∧ stats s' = stats s ∧ n = freeList (world s').
Proof.
  revert free s. induction fuel as [|fuel IH]; intros free s Hfuel; [destruct free; lia|].
  cbn [vacuum_loop].
  set (r := incrementalVacuum VACUUM_PAGES (world s)).
  rewrite (bind_run _ _ s r.1 {| tick := S (tick s); world := r.2; stats := stats s |}) by done.
  assert (r.1 = freeList r.2 ∧ db r.2 = db (world s) ∧ meta r.2 = meta (world s) ∧
    (freeList r.2 ≤ freeList (world s))%nat) as (H1 & H2 & H3 & H4).
  { unfold r, incrementalVacuum. destruct (autoVacuum (world s)); simpl; split_and!; (done || lia). }
  destruct (_ || _) eqn:Hstop.
  - eexists _, _. split; [done|]. simpl. by split_and!.
  - apply orb_false_iff in Hstop as [Hz Hge]. set (s1 := Build_Pass _ _ _ _).
    destruct (IH (Some r.1) s1) as (n & s' & Hr & Hdb & Hm & Hst & Hn).
    + destruct free as [before|]; [apply Nat.leb_gt in Hge; lia|lia].
    + exists n, s'. simpl in *. split_and!; congruence.
Qed.

Lemma runPass_alone fuel cfg now1 now2 s :
  wf (db (world s)) → enough fuel (db (world s)) → (freeList (world s) + 1 < fuel)%nat →
  let stale := listStaleDeadChannelIds (now1 - deadRetentionHours cfg * 60 * 60 * 1000) (world s) in
  let cap := maxSizePerChannelMb cfg * 1024 * 1024 in
  let cutoff := now2 - GC_MAX_AGE_HOURS * 3600 * 1000 in
  ∃ s', runPass alone never fuel cfg now1 now2 s = (Done tt, s') ∧ wf (db (world s')) ∧
    freePages (stats s') = freeList (world s') ∧
    ∀ ch, text_lt EmptyString ch → ∀ c, c ∈ rows ch (db (world s')) ↔
      c ∈ rows ch (db (world s)) ∧ ch ∉ stale ∧ pass_keeps cap cutoff ch (world s) c.
Proof.
  intros Hwf Hen Hfree stale cap cutoff. unfold runPass. fold cap cutoff.
  rewrite (bind_run _ _ _ _ _ (query_alone _ s)). fold stale. set (s0 := Build_Pass _ _ _ _).
  destruct (each_alone (λ ch, bind (query alone never (λ w, getMaxSeq ch (db w)))
      (λ through, deleteRange alone never fuel ch all through)) (λ _ _, False) fuel stale s0)
    as (s1 & Hr1 & Hwf1 & Hs1 & Hin1); [|done|done|].
  { intros ch s2 Hwf2 [Hlen Hsafe]. rewrite (bind_run _ _ _ _ _ (query_alone _ s2)).
    apply (empty_channel_alone fuel ch (Build_Pass _ (S (tick s2)) (world s2) (stats s2))); [done..|].
    simpl. pose proof (rows_length ch (db (world s2))). lia. }
  rewrite (bind_run _ _ _ _ _ Hr1), (bind_run _ _ _ _ _ (query_alone _ s1)). simpl in Hs1, Hin1.
  assert (∀ c, c ∈ chunks (db (world s1)) → c ∈ chunks (db (world s))) as Hsub.
  { intros c Hc. assert (c ∈ rows (channelId c) (db (world s1))) as Hr%Hin1 by (by apply elem_of_rows).
    destruct Hr as [[_ ?]%elem_of_rows _]. done. }
  assert (enough fuel (db (world s1))) as Hen1 by by eapply enough_smaller.
  set (s1' := Build_Pass _ _ _ _).
  destruct (channels_loop_alone fuel cap cutoff EmptyString s1') as (s2 & Hr2 & Hwf2 & Hs2 & Hin2).
  { done. }
  { apply Hen1. }
  { destruct Hen1 as [Hlen _]. eapply Nat.le_lt_trans; [apply length_filter|exact Hlen]. }
  rewrite (bind_run _ _ _ _ _ Hr2). simpl in Hs2, Hin2.
  destruct (vacuum_loop_alone fuel None s2) as (n & s3 & Hr3 & Hdb & Hm & Hst & Hn).
  { destruct Hs2 as (_ & _ & -> & _), Hs1 as (_ & _ & -> & _). done. }
  rewrite (bind_run _ _ _ _ _ Hr3). eexists. split; [done|]. simpl. rewrite Hdb.
  split_and!; [done|done|]. intros ch Hch c. specialize (Hin2 ch). rewrite decide_True in Hin2 by done.
  rewrite Hin2, Hin1. destruct (decide (ch ∈ stale)) as [Hst'|Hst']; [tauto|].
  rewrite (pass_keeps_ext cap cutoff ch (world s) (world s1) c); [tauto|done..|].
  apply rows_ext; [done..|]. intros x. rewrite Hin1. tauto.
Qed.
End pass.

(** ** A pass among the rest of the hub *)

Section interference.
Context {E : Type} (env : nat → World E → World E) (stopped : nat → bool).

Lemma deleteRange_fuel fuel ch k t a s :
  (Z.to_nat (t - a) < fuel)%nat → (deleteRange_loop env stopped fuel ch k t a s).1 ≠ OutOfFuel.
Proof.
  revert a s. induction fuel as [|fuel IH]; intros a s Hfuel; [lia|]. cbn [deleteRange_loop].
  apply bind_fuel; [apply step_fuel|]. intros b s1 (Hb & _)%step_Done.
  apply bind_fuel; [done|]. intros [] s2 _. destruct (lastSeq b) as [l|] eqn:Hl; [|done].
  apply IH. rewrite Hb in Hl. apply batch_last_in_range in Hl. lia.
Qed.

Lemma vacuum_loop_fuel fuel before s :
  (before < fuel)%nat → (vacuum_loop env stopped fuel (Some before) s).1 ≠ OutOfFuel.
Proof.
  revert before s. induction fuel as [|fuel IH]; intros before s Hfuel; [lia|]. cbn [vacuum_loop].
  apply bind_fuel; [apply step_fuel|]. intros n s1 _. destruct (_ || _) eqn:Hstop; [done|].
  apply orb_false_iff in Hstop as [_ Hge%Nat.leb_gt]. apply IH. lia.
Qed.

Lemma walk_loop_fuel fuel ch newest cap cutoff before total s :
  (∀ t w c, c ∈ chunks (db (env t w)) → FIRST_SEQ < seq c) →
  (Z.to_nat (before - FIRST_SEQ) < fuel)%nat →
  (walk_loop env stopped fuel ch newest cap cutoff before total s).1 ≠ OutOfFuel.
Proof.
  intros Henv. revert before total s. induction fuel as [|fuel IH]; intros before total s Hfuel; [lia|].
  cbn [walk_loop]. apply bind_fuel; [apply step_fuel|]. intros cs s1 (Hcs & _)%step_Done.
  destruct (walk_chunks _ _ _ cs total) as [t' [cut|]]; [done|].
  destruct (last cs) as [c|] eqn:Hl; [|done]. destruct (_ <? _)%nat; [done|]. apply IH.
  rewrite Hcs in Hl. simpl in Hl. unfold listChunkSizesBefore in Hl. rewrite fmap_last in Hl.
  destruct (last (take _ _)) as [e|] eqn:He; [|done]. injection Hl as <-. simpl.
  apply last_Some_elem_of, elem_of_take in He as (i & Hi & _).
  apply list_elem_of_lookup_2 in Hi. unfold order_desc in Hi.
  rewrite elem_of_reverse, elem_of_order_asc, list_elem_of_filter in Hi.
  destruct Hi as [[_ Hlt] Hin]. apply Henv in Hin. lia.
Qed.
End interference.

Section appends.
Context (env : nat → World (list Chunk) → World (list Chunk)) (stopped : nat → bool) (ch : string).

(** While the pass yields, the rest of the hub only appends to channel [ch], above what the spool
    holds of it, and keeps in [rest] the rows it appended. *)
Definition appends : Prop := ∀ t w, wf (db w) →
  wf (db (env t w)) ∧ ∃ new, rows ch (db (env t w)) = rows ch (db w) ++ new ∧
    rest (env t w) = rest w ++ new ∧ Forall (λ c, getMaxSeq ch (db w) < seq c) new.

(** In the middle of a delete through [t]: what is left of the rows judged, then those appended. *)
Definition deleting (t a : Z) (w : World (list Chunk)) (old : list Chunk) : Prop :=
  wf (db w) ∧ rows ch (db w) = old ++ rest w ∧ Forall (λ c, a < seq c ≤ t) old ∧
  ((old = [] ∧ t ≤ a) ∨ (t ≤ getMaxSeq ch (db w) ∧ Forall (λ c, t < seq c) (rest w))).

Lemma getMaxSeq_app d d' new :
  wf d → wf d' → rows ch d' = rows ch d ++ new → Forall (λ c, getMaxSeq ch d < seq c) new →
  getMaxSeq ch d ≤ getMaxSeq ch d'.
Proof.
  intros Hwf Hwf' Hr Hnew. rewrite !getMaxSeq_rows in * by done. rewrite Hr, last_app.
  destruct (last new) as [c|] eqn:Hl; [|done]. apply last_Some_elem_of in Hl.
  rewrite Forall_forall in Hnew. specialize (Hnew c Hl). simpl. lia.
Qed.

Lemma deleting_env t a n w old : appends → deleting t a w old → deleting t a (env n w) old.
Proof.
  intros Happ (Hwf & Hr & Hold & Hor). destruct (Happ n w Hwf) as (Hwf' & new & Hr' & Hrest & Hnew).
  split_and!; [done|by rewrite Hr', Hr, Hrest, app_assoc|done|].
  destruct Hor as [?|[Hmax Hgt]]; [by left|right]. split.
  - etrans; [exact Hmax|]. by eapply getMaxSeq_app.
  - rewrite Hrest. apply Forall_app. split; [done|]. eapply Forall_impl; [exact Hnew|].
    simpl. lia.
Qed.

(** What a batch ranges over is exactly what is left of the rows judged. *)
Lemma deleting_range t a w old :
  deleting t a w old → filter (in_range ch a t all) (rows ch (db w)) = old.
Proof.
  intros (Hwf & Hr & Hold & Hor). assert (∀ c, c ∈ rows ch (db w) → channelId c = ch) as Hch
    by (intros c [? _]%elem_of_rows; done).
  rewrite Hr in Hch |- *. rewrite filter_app, filter_all, filter_none; [by rewrite app_nil_r| |].
  - apply Forall_forall. intros c Hc (_ & ? & ? & _). destruct Hor as [[_ ?]|[_ Hgt]]; [lia|].
    rewrite Forall_forall in Hgt. specialize (Hgt c Hc). lia.
  - apply Forall_forall. intros c Hc. rewrite Forall_forall in Hold. specialize (Hold c Hc).
    split_and!; [|lia..|done]. apply Hch, elem_of_app. by left.
Qed.

Lemma deleteRange_appends fuel t a s s' old :
  appends → deleting t a (world s) old →
  deleteRange_loop env stopped fuel ch all t a s = (Done tt, s') →
  wf (db (world s')) ∧ rows ch (db (world s')) = rest (world s') ∧
  deletedChunks (stats s') = deletedChunks (stats s) + Z.of_nat (length old) ∧
  deletedBytes (stats s') = deletedBytes (stats s) + total_bytes old.
Proof.
  intros Happ. revert a s old. induction fuel as [|fuel IH]; intros a s old Hd Hrun; [done|].
  cbn [deleteRange_loop] in Hrun. apply bind_Done in Hrun as (b & s1 & Hstep & Hrun).
  apply step_Done in Hstep as (Hb & Hw1 & Hst1 & _).
  apply bind_Done in Hrun as (u & s2 & [= <- <-] & Hrun).
  pose proof (deleting_env t a (tick s) (world s) old Happ Hd) as Hd'.
  pose proof (deleting_range t a _ old Hd') as HM.
  set (w := env (tick s) (world s)) in *. destruct Hd' as (Hwf & Hr & Hold & Hor).
  pose proof (batch_progress ch a t all (db w) Hwf) as (Hwf' & _ & Hres).
  rewrite HM in Hres. set (r := deleteChunkBatch ch a t all DELETE_BATCH (db w)) in *.
  simpl in Hb, Hw1. subst b.
  destruct (lastSeq r.1) as [l|] eqn:Hl.
  - destruct Hres as (n & Hn & Hlast & Hrows & Hdrop & Hdel & Hbytes).
    destruct Hor as [[-> _]|[Hmax Hgt]]; [by rewrite take_nil in Hlast|].
    destruct (last (take n old)) as [c|] eqn:Hc; [|done]. injection Hlast as <-.
    assert (StronglySorted seq_lt old) as Hsort.
    { pose proof (rows_sorted ch (db w) Hwf) as Hs. rewrite Hr in Hs. by apply StronglySorted_app in Hs as (_ & ? & _). }
    assert (c ∈ old) as Hcin.
    { apply last_Some_elem_of, elem_of_take in Hc as (i & Hi & _). by eapply list_elem_of_lookup_2. }
    assert (rows ch r.2 = drop n old ++ rest w) as Hr2.
    { rewrite <- (filter_after n old c), Hrows, Hr, filter_app by done.
      rewrite Forall_forall in Hold, Hgt. pose proof (Hold c Hcin). f_equal.
      - apply filter_ext_in. intros e He. pose proof (Hold e He).
        assert (channelId e = ch) as Hech.
        { assert (e ∈ rows ch (db w)) as [? _]%elem_of_rows by (rewrite Hr; apply elem_of_app; by left). done. }
        unfold in_range. simpl. split; [intros Hn'|intros ? (_ & _ & ? & _); lia].
        destruct (decide (seq c < seq e)); [done|]. exfalso. apply Hn'. split_and!; (done || lia).
      - apply filter_all, Forall_forall. intros e He (_ & _ & ? & _). specialize (Hgt e He). lia. }
    apply (IH (seq c) _ (drop n old)) in Hrun.
    + destruct Hrun as (? & ? & Hc1 & Hc2). split_and!; [done..| |]; rewrite ?Hc1, ?Hc2; simpl;
        rewrite Hst1, ?Hdel, ?Hbytes; rewrite <- (take_drop n old) at 3.
      * rewrite length_app. lia.
      * rewrite total_bytes_app. lia.
    + simpl. rewrite Hw1. destruct (sorted_take n old c Hsort Hc) as [_ Hafter].
      split_and!; [done|done| |].
      * rewrite Forall_forall in *. intros e He. specialize (Hafter e He).
        assert (e ∈ old) as Heo by (rewrite <- (take_drop n old); apply elem_of_app; by right).
        specialize (Hold e Heo). lia.
      * simpl. rewrite getMaxSeq_rows in Hmax |- * by done. rewrite Hr2. rewrite Hr in Hmax.
        rewrite <- (take_drop n old), <- app_assoc, last_app in Hmax.
        destruct (last (drop n old ++ rest w)) as [e|] eqn:Hlast'; [by right|left].
        apply last_None in Hlast'. apply app_eq_nil in Hlast' as [-> _]. split; [done|].
        by rewrite Hc in Hmax.
  - destruct Hres as (-> & Hr0 & Hrows). injection Hrun as <-. simpl. rewrite Hw1. simpl.
    rewrite Hrows, Hr, Hst1, Hr0. simpl. split_and!; [done|done|lia|lia].
Qed.
End appends.

(** ** Properties *)

Section properties.
Context {E : Type}.
Implicit Types (w : World E) (ch : string).

(** C4 A pass that nothing interrupts completes, and leaves of each channel exactly what it means
    to: nothing of a channel dead past its retention or gone from meta.db; of any other its newest
    snapshot, and the chunks from which on every one is young enough and within the size cap, the
    newest snapshot counted first. *)
Theorem gc_pass_exact fuel cfg now1 now2 t w :
  wf (db w) → enough fuel (db w) → (freeList w + 1 < fuel)%nat →
  let stale := listStaleDeadChannelIds (now1 - deadRetentionHours cfg * 60 * 60 * 1000) w in
  let cap := maxSizePerChannelMb cfg * 1024 * 1024 in
  let cutoff := now2 - GC_MAX_AGE_HOURS * 3600 * 1000 in
  let (st, w') := runJob (runPass alone never fuel cfg now1 now2) t w in
  completed st = true ∧ freePages st = freeList w' ∧ wf (db w') ∧
  ∀ ch, ch ≠ EmptyString → ∀ c,
    c ∈ rows ch (db w') ↔ c ∈ rows ch (db w) ∧ ch ∉ stale ∧ hasChannel ch w = true ∧
      (getLatestSnapshot ch (db w) = Some c ∨
       (kind_of c ≠ snapshot ∧
        ∀ e, e ∈ rows ch (db w) → kind_of e ≠ snapshot → seq c ≤ seq e →
          size_from ch (db w) e ≤ cap ∧ cutoff ≤ ts e)).
Proof.
  intros Hwf Hen Hfree stale cap cutoff. unfold runJob.
  destruct (runPass_alone fuel cfg now1 now2 {| tick := t; world := w; stats := no_stats |}
              Hwf Hen Hfree) as (s' & -> & Hwf' & Hpages & Hin).
  split_and!; [done..|]. intros ch Hne c. apply (Hin ch). split; [|done]. by destruct ch.
Qed.

(** After such a pass the spool is bounded: no channel holds more bytes than the cap, except
    that a newest snapshot is kept whatever its size, and then nothing past it is. *)
Theorem gc_pass_bounded fuel cfg now1 now2 t w :
  wf (db w) → enough fuel (db w) → (freeList w + 1 < fuel)%nat →
  ∀ ch, ch ≠ EmptyString →
  getChannelSize ch (db (runJob (runPass alone never fuel cfg now1 now2) t w).2) ≤
  Z.max (maxSizePerChannelMb cfg * 1024 * 1024) (base ch (db w)).
Proof.
  intros Hwf Hen Hfree ch Hne. unfold runJob.
  destruct (runPass_alone fuel cfg now1 now2 {| tick := t; world := w; stats := no_stats |}
              Hwf Hen Hfree) as (s' & -> & Hwf' & _ & Hin).
  eapply keeps_bound; [done..|]. intros c Hc. apply Hin in Hc as (? & _ & _ & ?); [done|].
  split; [|done]. by destruct ch.
Qed.

(** A purge that nothing interrupts empties the channels it was given that meta.db no longer
    has, and deletes not a chunk of any other, those it was given included. *)
Theorem purge_exact fuel chs t w :
  wf (db w) → enough fuel (db w) → (freeList w + 1 < fuel)%nat →
  let (st, w') := runJob (purge alone never fuel chs) t w in
  completed st = true ∧
  ∀ ch, rows ch (db w') = if decide (ch ∈ chs ∧ hasChannel ch w = false) then [] else rows ch (db w).
Proof.
  intros Hwf Hen Hfree. unfold runJob, purge. set (s := Build_Pass _ _ _ _).
  destruct (each_alone (λ ch, bind (collectOrphan alone never fuel ch) (λ _, ret tt))
    (λ m ch, Exists (λ c, mc_id c = ch) m) fuel chs s) as (s1 & Hr1 & Hwf1 & Hs1 & Hin1); [|done..|].
  { intros ch s2 Hwf2 [Hlen Hsafe]. destruct (collectOrphan_alone fuel ch s2) as (s3 & Hr & Hl);
      [done..|pose proof (rows_length ch (db (world s2))); lia|].
    exists s3. rewrite (bind_run _ _ _ _ _ Hr). split; [done|].
    destruct Hl as (? & Hin & ? & ?). split_and!; [done| |done|done]. intros c. rewrite Hin.
    unfold hasChannel. by rewrite bool_decide_eq_true. }
  rewrite (bind_run _ _ _ _ _ Hr1). simpl in Hs1, Hin1.
  destruct (vacuum_loop_alone fuel None s1) as (n & s3 & Hr3 & Hdb & _).
  { destruct Hs1 as (_ & _ & -> & _). done. }
  unfold vacuum. rewrite (bind_run _ _ _ _ _ Hr3). simpl. split; [done|]. intros ch. rewrite Hdb.
  unfold hasChannel. destruct (decide (_ ∧ _)) as [[Hch Hno]|Hno].
  - apply bool_decide_eq_false in Hno. apply rows_nil. intros c Hc Hcc.
    assert (c ∈ rows ch (db (world s1))) as [_ Hk]%Hin1 by (by apply elem_of_rows). auto.
  - apply rows_ext; [done..|]. intros c. rewrite Hin1. split; [tauto|]. intros Hc. split; [done|].
    intros Hch. destruct (decide (Exists (λ c, mc_id c = ch) (meta w))) as [?|Hn]; [done|].
    exfalso. apply Hno. split; [done|]. by apply bool_decide_eq_false.
Qed.

(** C39 The collector's loops end whatever the rest of the hub does between their steps: a delete
    within as many batches as there are seqs in its range, a walk within as many reads as there
    are seqs below it, a vacuum within as many steps as there were free pages after its first. *)
Theorem gc_loops_terminate env stopped fuel (s : Pass E) ch k newest cap cutoff before free total
    through :
  (∀ t w c, c ∈ chunks (db (env t w)) → FIRST_SEQ < seq c) →
  (Z.to_nat (through - FIRST_SEQ) < fuel)%nat → (Z.to_nat (before - FIRST_SEQ) < fuel)%nat →
  (free < fuel)%nat →
  (deleteRange env stopped fuel ch k through s).1 ≠ OutOfFuel ∧
  (walk_loop env stopped fuel ch newest cap cutoff before total s).1 ≠ OutOfFuel ∧
  (vacuum_loop env stopped fuel (Some free) s).1 ≠ OutOfFuel.
Proof.
  intros Henv Hd Hw Hv. split_and!.
  - by apply deleteRange_fuel.
  - by apply walk_loop_fuel.
  - by apply vacuum_loop_fuel.
Qed.
End properties.

(** C29 A channel brought back while it is being emptied loses nothing: however its new chunks
    interleave with the delete's batches, when the delete ends the channel holds exactly the
    chunks appended since it began, and it counted exactly those it had before. *)
Theorem gc_spares_new_chunks env stopped ch fuel s s' :
  appends env ch → wf (db (world s)) → safe_seqs ch (db (world s)) → rest (world s) = [] →
  deleteRange env stopped fuel ch all (getMaxSeq ch (db (world s))) s = (Done tt, s') →
  rows ch (db (world s')) = rest (world s') ∧
  deletedChunks (stats s') =
    deletedChunks (stats s) + Z.of_nat (getChannelChunkCount ch (db (world s))) ∧
  deletedBytes (stats s') = deletedBytes (stats s) + getChannelSize ch (db (world s)).
Proof.
  intros Happ Hwf Hsafe Hrest Hrun.
  destruct (deleteRange_appends env stopped ch fuel (getMaxSeq ch (db (world s))) FIRST_SEQ s s'
              (rows ch (db (world s)))) as (_ & ? & Hc & Hb); [done| |done|].
  - split_and!; [done|by rewrite Hrest, app_nil_r| |right; split; [done|by rewrite Hrest]].
    apply Forall_forall. intros c Hin. pose proof (Hsafe c Hin). pose proof (getMaxSeq_ge _ _ _ Hin).
    lia.
  - split_and!; [done| |].
    + rewrite Hc. unfold getChannelChunkCount, rows. by rewrite order_asc_Permutation.
    + rewrite Hb. f_equal. apply total_bytes_perm. unfold rows. by rewrite order_asc_Permutation.
Qed.

(** ** Witnesses *)

Definition demo_world (db : Db) (known : list string) : World (list Chunk) :=
  {| db := db; meta := (λ ch, {| mc_id := ch; mc_dead := false; mc_updatedAt := 0 |}) <$> known;
     autoVacuum := true; freeList := 3; rest := [] |}.

Lemma demo_enough : enough 10 demo_db.
Proof.
  split; [vm_compute; lia|]. intros ch c [_ Hc]%elem_of_rows.
  assert (Forall (λ c, FIRST_SEQ < seq c < LAST_SEQ) (chunks demo_db)) as Hall
    by (apply (bool_decide_unpack _); vm_compute; exact I).
  rewrite Forall_forall in Hall. by apply Hall.
Qed.

Definition demo_cfg : GcConfig := {| deadRetentionHours := 24; maxSizePerChannelMb := 0 |}.

(** A cap of nothing leaves the newest snapshot. *)
Lemma gc_pass_exact_witness :
  let r := runJob (runPass alone never 10 demo_cfg 0 0) 0 (demo_world demo_db ["c"]) in
  (seq <$> rows "c" (db r.2)) = [2] ∧ completed r.1 = true ∧ wf (db r.2).
Proof.
  pose proof (gc_pass_exact 10 demo_cfg 0 0 0 (demo_world demo_db ["c"]) wf_demo demo_enough
                ltac:(simpl; lia)) as H.
  cbv zeta in *. destruct (runJob _ _ _) as [st w'] eqn:Hr. destruct H as (Hc & _ & Hwf & _).
  split; [|by split]. change w' with (st, w').2. rewrite <- Hr. vm_compute. reflexivity.
Defined.

Lemma gc_pass_bounded_witness :
  getChannelSize "c"
    (db (runJob (runPass alone never 10 demo_cfg 0 0) 0 (demo_world demo_db ["c"])).2) ≤ 5.
Proof.
  exact (gc_pass_bounded 10 demo_cfg 0 0 0 (demo_world demo_db ["c"]) wf_demo demo_enough
           ltac:(simpl; lia) "c" ltac:(done)).
Defined.

Lemma purge_exact_witness :
  rows "c" (db (runJob (purge alone never 10 ["c"; "d"]) 0 (demo_world demo_db [])).2) = [].
Proof.
  pose proof (purge_exact 10 ["c"; "d"] 0 (demo_world demo_db []) wf_demo demo_enough
                ltac:(simpl; lia)) as H.
  destruct (runJob _ _ _) as [st w'] eqn:Hr. simpl. by rewrite (proj2 H "c").
Defined.

Lemma gc_loops_terminate_witness :
  (deleteRange (λ _ w, set_db demo_db w) never 5 "c" all (FIRST_SEQ + 3)
     {| tick := 0; world := demo_world demo_db []; stats := no_stats |}).1 ≠ OutOfFuel.
Proof.
  apply (gc_loops_terminate (λ _ w, set_db demo_db w) never 5
           {| tick := 0; world := demo_world demo_db []; stats := no_stats |} "c" all None 0 0
           (FIRST_SEQ + 3) 3 0 (FIRST_SEQ + 3)); [|vm_compute; lia..].
  intros t w c Hc. apply (proj2 demo_enough (channelId c)). by apply elem_of_rows.
Defined.

(** A hub that appends a chunk to "c" at every turn. *)
Definition demo_append (w : World (list Chunk)) : World (list Chunk) :=
  let input := demo_input (getMaxSeq "c" (db w) + 1) output 1 in
  match insertChunk input (db w) with
  | Some (_, d) => {| db := d; meta := meta w; autoVacuum := autoVacuum w; freeList := freeList w;
                      rest := rest w ++ [row_of input (db w)] |}
  | None => w
  end.

Lemma demo_appends : appends (λ _, demo_append) "c".
Proof.
  intros _ w Hwf. unfold demo_append. set (input := demo_input _ output 1).
  assert (∀ c, c ∈ rows "c" (db w) → seq c < in_seq input) as Hlt.
  { intros c Hc. apply getMaxSeq_ge in Hc. simpl. lia. }
  destruct (insertChunk input (db w)) as [[i d]|] eqn:Hi; simpl.
  - split; [by eapply wf_insert|]. eexists. split; [by eapply (rows_insert_last input)|].
    split; [done|]. repeat constructor. simpl. lia.
  - split; [done|]. exists []. rewrite !app_nil_r. by split_and!.
Qed.

Lemma gc_spares_new_chunks_witness :
  ∃ s', deleteRange (λ _, demo_append) never 5 "c" all 3
      {| tick := 0; world := demo_world demo_db []; stats := no_stats |} = (Done tt, s') ∧
    (seq <$> rows "c" (db (world s'))) = [4; 5] ∧ rows "c" (db (world s')) = rest (world s').
Proof.
  eexists. split; [reflexivity|]. split; [vm_compute; reflexivity|].
  apply (gc_spares_new_chunks (λ _, demo_append) never "c" 5
    {| tick := 0; world := demo_world demo_db []; stats := no_stats |}).
  - exact demo_appends.
  - exact wf_demo.
  - exact (proj2 demo_enough "c").
  - reflexivity.
  - reflexivity.
Defined.
