(* ===== verification/SnapshotScheduler.v ===== *)
(** * When snapshots are asked for ([packages/hub/src/session/snapshot-scheduler.ts])

    [SnapshotScheduler]: per channel an idle timer, a forced tick and whether the screen changed
    since a snapshot was last asked for; in all, how many requests are in flight and the timeouts
    that free their slots. Timers are flags: one that is armed may fire at any step. What
    [getAgent] answers ([connected]) and the time are given with each step. *)

From S2P Require Import Prelude JsMap.
#[local] Open Scope lasterm_scope.

Definition DEFAULT_MAX_CONCURRENT_SNAPSHOTS : nat := 4.

Record ChannelTimers := {
  lastOutputAt : Z; lastSnapshotAt : Z; changed : bool; idleTimer : bool; forcedTimer : bool
}.

(** [requests] is what was sent to the agents, newest first. *)
Record SnapshotScheduler := {
  channels : jsmap string ChannelTimers;
  inFlight : nat;
  maxConcurrent : nat;
  timeouts : list string;
  requests : list string
}.

Definition new (maxConcurrentSnapshots : option nat) : SnapshotScheduler :=
  {| channels := ∅; inFlight := 0;
     maxConcurrent := default DEFAULT_MAX_CONCURRENT_SNAPSHOTS maxConcurrentSnapshots;
     timeouts := []; requests := [] |}.

Definition set_channels (f : jsmap string ChannelTimers → jsmap string ChannelTimers)
  (s : SnapshotScheduler) : SnapshotScheduler :=
  {| channels := f (channels s); inFlight := inFlight s; maxConcurrent := maxConcurrent s;
     timeouts := timeouts s; requests := requests s |}.
Definition set_slots (n : nat) (ts : list string) (s : SnapshotScheduler) : SnapshotScheduler :=
  {| channels := channels s; inFlight := n; maxConcurrent := maxConcurrent s; timeouts := ts;
     requests := requests s |}.
Definition send (ch : string) (s : SnapshotScheduler) : SnapshotScheduler :=
  {| channels := channels s; inFlight := inFlight s; maxConcurrent := maxConcurrent s;
     timeouts := timeouts s; requests := ch :: requests s |}.

Definition set_changed (b : bool) (t : ChannelTimers) : ChannelTimers :=
  {| lastOutputAt := lastOutputAt t; lastSnapshotAt := lastSnapshotAt t; changed := b;
     idleTimer := idleTimer t; forcedTimer := forcedTimer t |}.
Definition set_snapshotAt (now : Z) (t : ChannelTimers) : ChannelTimers :=
  {| lastOutputAt := lastOutputAt t; lastSnapshotAt := now; changed := changed t;
     idleTimer := idleTimer t; forcedTimer := forcedTimer t |}.
Definition set_idle (b : bool) (t : ChannelTimers) : ChannelTimers :=
  {| lastOutputAt := lastOutputAt t; lastSnapshotAt := lastSnapshotAt t; changed := changed t;
     idleTimer := b; forcedTimer := forcedTimer t |}.

(** [setTimeout] for a channel replaces the timeout it had. *)
Definition requestSnapshot (now : Z) (connected : bool) (ch : string) (s : SnapshotScheduler)
  : SnapshotScheduler :=
  if maxConcurrent s <=? inFlight s then s
  else
    let s := set_channels (js_alter (set_snapshotAt now) ch) s in
    if negb connected then s
    else
      let s := set_channels (js_alter (set_changed false) ch) s in
      let s := send ch (set_slots (S (inFlight s)) (timeouts s) s) in
      set_slots (inFlight s) (set_add ch (timeouts s)) s.

Definition trackChannel (now : Z) (ch : string) (s : SnapshotScheduler) : SnapshotScheduler :=
  if js_has ch (channels s) then s
  else set_channels (insert ch {| lastOutputAt := now; lastSnapshotAt := 0; changed := true;
                                  idleTimer := true; forcedTimer := true |}) s.

Definition onOutput (now : Z) (ch : string) (s : SnapshotScheduler) : SnapshotScheduler :=
  set_channels (js_alter (λ t, {| lastOutputAt := now; lastSnapshotAt := lastSnapshotAt t;
                                  changed := true; idleTimer := true;
                                  forcedTimer := forcedTimer t |}) ch) s.
Definition onResize (now : Z) (ch : string) (s : SnapshotScheduler) : SnapshotScheduler :=
  onOutput now ch s.
Definition onDetach (now : Z) (connected : bool) (ch : string) (s : SnapshotScheduler)
  : SnapshotScheduler := requestSnapshot now connected ch s.

(** Both of its timers are cleared, so neither fires again. *)
Definition untrackChannel (ch : string) (s : SnapshotScheduler) : SnapshotScheduler :=
  set_channels (delete ch) s.
Definition shutdown (s : SnapshotScheduler) : SnapshotScheduler :=
  let s := foldl (λ s ch, untrackChannel ch s) s (js_keys (channels s)) in
  set_slots (inFlight s) [] s.

Definition onIdleTimeout (now : Z) (connected : bool) (ch : string) (s : SnapshotScheduler)
  : SnapshotScheduler :=
  match channels s !! ch with
  | None => s
  | Some t =>
      let s := set_channels (js_alter (set_idle false) ch) s in
      if changed t then requestSnapshot now connected ch s else s
  end.
Definition onForcedTimeout (now : Z) (connected : bool) (ch : string) (s : SnapshotScheduler)
  : SnapshotScheduler :=
  match channels s !! ch with
  | Some t => if changed t then requestSnapshot now connected ch s else s
  | None => s
  end.

Definition free_slot (s : SnapshotScheduler) : nat :=
  if 0 <? inFlight s then inFlight s - 1 else inFlight s.

Definition onSnapshotResponse (ch : string) (s : SnapshotScheduler) : SnapshotScheduler :=
  set_slots (free_slot s) (set_delete ch (timeouts s)) s.

(** The callback of a request's timeout. *)
Definition onSnapshotTimeout (ch : string) (s : SnapshotScheduler) : SnapshotScheduler :=
  let s := set_slots (inFlight s) (set_delete ch (timeouts s)) s in
  let s := set_slots (free_slot s) (timeouts s) s in
  set_channels (js_alter (set_changed true) ch) s.

Inductive event :=
| TrackChannel (ch : string) | OnOutput (ch : string) | OnResize (ch : string)
| OnDetach (ch : string) | UntrackChannel (ch : string) | Shutdown
| IdleTimer (ch : string) | ForcedTimer (ch : string)
| SnapshotResponse (ch : string) | SnapshotTimer (ch : string).

(** An event, what [getAgent] says of each channel's agent, and the time. *)
Record moment := At { ev : event; connected : string → bool; now : Z }.

(** A timer fires only while it is armed. *)
Definition armed (s : SnapshotScheduler) (e : event) : bool :=
  match e with
  | IdleTimer ch => match channels s !! ch with Some t => idleTimer t | None => false end
  | ForcedTimer ch => match channels s !! ch with Some t => forcedTimer t | None => false end
  | SnapshotTimer ch => set_has ch (timeouts s)
  | _ => true
  end.

Definition exec (s : SnapshotScheduler) (m : moment) : SnapshotScheduler :=
  match ev m with
  | TrackChannel ch => trackChannel (now m) ch s
  | OnOutput ch => onOutput (now m) ch s
  | OnResize ch => onResize (now m) ch s
  | OnDetach ch => onDetach (now m) (connected m ch) ch s
  | UntrackChannel ch => untrackChannel ch s
  | Shutdown => shutdown s
  | IdleTimer ch => onIdleTimeout (now m) (connected m ch) ch s
  | ForcedTimer ch => onForcedTimeout (now m) (connected m ch) ch s
  | SnapshotResponse ch => onSnapshotResponse ch s
  | SnapshotTimer ch => onSnapshotTimeout ch s
  end.
Definition step (s : SnapshotScheduler) (m : moment) : SnapshotScheduler :=
  if armed s (ev m) then exec s m else s.

(** Events that say the screen of [ch] may have changed, or that ask for it outright. *)
Definition wakes (ch : string) (e : event) : bool :=
  match e with
  | TrackChannel c | OnOutput c | OnResize c | OnDetach c | SnapshotTimer c => bool_decide (c = ch)
  | _ => false
  end.

(** How many requests of [ch] were sent. *)
Definition asked (ch : string) (s : SnapshotScheduler) : nat :=
  length (filter (λ c, c = ch) (requests s)).

(** The forced tick of a tracked channel never stops; no more than [maxConcurrent] in flight. *)
Record wf (s : SnapshotScheduler) : Prop := {
  wf_bound : inFlight s ≤ maxConcurrent s;
  wf_forced : ∀ ch t, channels s !! ch = Some t → forcedTimer t = true
}.

(** ** Lemmas *)

Section lemmas.
Implicit Types (s : SnapshotScheduler) (ch : string) (e : event).

(** Whether a snapshot of [ch] is still to be taken; an untracked channel has none. *)
Definition pending ch s : bool :=
  match channels s !! ch with Some t => changed t | None => false end.

Lemma pending_alter ch ch' f s :
  (∀ t, changed (f t) = changed t) → pending ch (set_channels (js_alter f ch') s) = pending ch s.
Proof.
  intros Hf. unfold pending. simpl. rewrite js_lookup_alter. case_decide as Hch; [subst|done].
  destruct (channels s !! ch); simpl; auto.
Qed.

(** What a request does: nothing without a free slot, and nothing but the time without an agent. *)
Lemma requestSnapshot_spec n c ch s :
  let s' := requestSnapshot n c ch s in
  maxConcurrent s' = maxConcurrent s ∧
  (if decide (inFlight s < maxConcurrent s ∧ c = true)
   then inFlight s' = S (inFlight s) ∧ requests s' = ch :: requests s ∧ pending ch s' = false
   else inFlight s' = inFlight s ∧ requests s' = requests s ∧ pending ch s' = pending ch s) ∧
  (∀ ch', ch' ≠ ch → channels s' !! ch' = channels s !! ch') ∧
  (∀ ch' t', channels s' !! ch' = Some t' →
     ∃ t, channels s !! ch' = Some t ∧ forcedTimer t' = forcedTimer t).
Proof.
  unfold requestSnapshot. destruct (maxConcurrent s <=? inFlight s) eqn:Hle.
  { apply Nat.leb_le in Hle. rewrite decide_False by lia. simpl. split_and!; eauto. }
  apply Nat.leb_gt in Hle. destruct c; simpl.
  - rewrite decide_True by done. split_and!; [done|done|done| | |].
    + unfold pending. simpl. rewrite !js_lookup_alter, !decide_True by done.
      by destruct (channels s !! ch).
    + intros ch' Hne. by rewrite !js_lookup_alter, !decide_False by congruence.
    + intros ch' t'. rewrite !js_lookup_alter. repeat case_decide; simplify_eq; [|by eauto].
      destruct (channels s !! ch'); simpl; [|done]. intros [= <-]. eauto.
  - rewrite decide_False by (by intros []). split_and!; [done|done|done|by apply pending_alter| |].
    + intros ch' Hne. by rewrite js_lookup_alter, decide_False by congruence.
    + intros ch' t'. rewrite js_lookup_alter. case_decide; [subst|by eauto].
      destruct (channels s !! ch'); simpl; [|done]. intros [= <-]. eauto.
Qed.

Lemma wf_alter f ch s :
  wf s → (∀ t, forcedTimer (f t) = forcedTimer t) → wf (set_channels (js_alter f ch) s).
Proof.
  intros [Hb Hf] Hff. split; [done|]. simpl. intros ch' t. rewrite js_lookup_alter.
  case_decide; [subst|by apply Hf]. destruct (channels s !! ch') as [t'|] eqn:Ht; [|done].
  intros [= <-]. rewrite Hff. by eapply Hf.
Qed.

Lemma wf_request n c ch s : wf s → wf (requestSnapshot n c ch s).
Proof.
  intros [Hb Hf]. destruct (requestSnapshot_spec n c ch s) as (Hm & Hin & _ & Hfw).
  split.
  - rewrite Hm. case_decide; destruct Hin as (-> & _); [lia|done].
  - intros ch' t' (t & Ht & ->)%Hfw. by eapply Hf.
Qed.

Lemma wf_slots n ts s : n ≤ inFlight s → wf s → wf (set_slots n ts s).
Proof. intros Hn [Hb Hf]. split; simpl; [lia|done]. Qed.

Lemma free_slot_le s : free_slot s ≤ inFlight s.
Proof. unfold free_slot. case_match; lia. Qed.

Lemma shutdown_channels ks s ch :
  channels (foldl (λ s ch, untrackChannel ch s) s ks) !! ch =
  if decide (ch ∈ ks) then None else channels s !! ch.
Proof.
  revert s. induction ks as [|k ks IH]; intros s; simpl; [done|]. rewrite IH. simpl.
  rewrite js_lookup_delete. destruct (decide (ch ∈ ks)) as [Hin|Hin].
  - by rewrite decide_True by (by right).
  - case_decide as Hk; [subst; by rewrite decide_True by left|].
    rewrite decide_False; [done|]. by intros [?|?]%elem_of_cons.
Qed.

Lemma foldl_untrack ks s :
  let s' := foldl (λ s ch, untrackChannel ch s) s ks in
  inFlight s' = inFlight s ∧ maxConcurrent s' = maxConcurrent s ∧ requests s' = requests s.
Proof. revert s. induction ks as [|k ks IH]; intros s; [done|]. apply (IH (untrackChannel k s)). Qed.

Lemma sched_shutdown_spec s :
  let s' := shutdown s in
  inFlight s' = inFlight s ∧ maxConcurrent s' = maxConcurrent s ∧ requests s' = requests s ∧
  ∀ ch, channels s' !! ch = None.
Proof.
  unfold shutdown. simpl. destruct (foldl_untrack (js_keys (channels s)) s) as (-> & -> & ->).
  split_and!; [done..|]. intros ch. rewrite shutdown_channels. case_decide as Hin; [done|].
  destruct (channels s !! ch) eqn:Hch; [|done]. destruct Hin. apply js_elem_keys. by rewrite Hch.
Qed.

Lemma sched_wf_step s m : wf s → wf (step s m).
Proof.
  intros Hwf. unfold step. destruct (armed s (ev m)); [|done]. unfold exec.
  destruct (ev m) as [ch|ch|ch|ch|ch| |ch|ch|ch|ch].
  - unfold trackChannel. case_match; [done|]. destruct Hwf as [Hb Hf]. split; [done|]. simpl.
    intros ch' t. rewrite js_lookup_insert. case_decide; [by intros [= <-]|apply Hf].
  - by apply wf_alter.
  - by apply wf_alter.
  - by apply wf_request.
  - destruct Hwf as [Hb Hf]. split; [done|]. simpl. intros ch' t. rewrite js_lookup_delete.
    case_decide; [done|apply Hf].
  - destruct (sched_shutdown_spec s) as (Hi & Hm & _ & Hc). destruct Hwf as [Hb Hf].
    split; [by rewrite Hi, Hm|]. intros ch t. by rewrite Hc.
  - unfold onIdleTimeout. case_match; [|done]. case_match; [apply wf_request|]; by apply wf_alter.
  - unfold onForcedTimeout. repeat case_match; auto using wf_request.
  - apply wf_slots; [apply free_slot_le|done].
  - apply wf_alter; [|done]. apply wf_slots; [apply free_slot_le|]. by apply wf_slots.
Qed.

Lemma sched_reachable_wf n s : reachable (new n) step s → wf s.
Proof. apply reachable_invariant; [|apply sched_wf_step]. split; [simpl; lia|done]. Qed.

(** A request of another channel says nothing of this one. *)
Lemma request_other n c ch ch' s :
  ch' ≠ ch →
  pending ch (requestSnapshot n c ch' s) = pending ch s ∧
  asked ch (requestSnapshot n c ch' s) = asked ch s.
Proof.
  intros Hne. destruct (requestSnapshot_spec n c ch' s) as (_ & Hr & Ho & _).
  split; [unfold pending; by rewrite Ho|].
  unfold asked. case_decide; destruct Hr as (_ & -> & _); [|done].
  by rewrite filter_cons_False by congruence.
Qed.

(** An event that does not wake a channel with nothing pending asks nothing of it. *)
Lemma quiet_step ch s m :
  pending ch s = false → wakes ch (ev m) = false →
  pending ch (step s m) = false ∧
  asked ch (step s m) = asked ch s.
Proof.
  intros Hp Hw. unfold step. destruct (armed s (ev m)) eqn:Harm; [|done]. unfold exec.
  destruct (ev m) as [c|c|c|c|c| |c|c|c|c]; simpl in Hw; try apply bool_decide_eq_false in Hw.
  - unfold trackChannel. case_match; [done|]. split; [|done]. unfold pending. simpl.
    by rewrite js_lookup_insert_ne.
  - split; [|done]. unfold pending. simpl. by rewrite js_lookup_alter, decide_False.
  - split; [|done]. unfold pending. simpl. by rewrite js_lookup_alter, decide_False.
  - rewrite <- Hp. apply request_other. congruence.
  - split; [|done]. unfold pending in *. simpl. rewrite js_lookup_delete. by case_decide.
  - destruct (sched_shutdown_spec s) as (_ & _ & Hr & Hc). unfold pending, asked. by rewrite Hr, Hc.
  - unfold onIdleTimeout. destruct (channels s !! c) as [t|] eqn:Ht; [|done].
    set (s1 := set_channels _ s). assert (pending ch s1 = false) as Hp1 by by rewrite <- Hp; apply pending_alter.
    destruct (changed t) eqn:Hc; [|done]. rewrite <- Hp1. apply (request_other _ _ ch c s1).
    intros ->. unfold pending in Hp. rewrite Ht in Hp. congruence.
  - unfold onForcedTimeout. destruct (channels s !! c) as [t|] eqn:Ht; [|done].
    destruct (changed t) eqn:Hc; [|done]. rewrite <- Hp. apply request_other.
    intros ->. unfold pending in Hp. rewrite Ht in Hp. congruence.
  - done.
  - split; [|done]. unfold pending. simpl. by rewrite js_lookup_alter, decide_False.
Qed.
End lemmas.

(** ** Properties *)

(** Never more snapshots in flight than the limit, whatever the agents answer, late, twice or
    never; and every tracked channel has its forced tick running. *)
Theorem scheduler_bounded n s :
  reachable (new n) step s →
  inFlight s ≤ maxConcurrent s ∧
  ∀ ch t, channels s !! ch = Some t → armed s (ForcedTimer ch) = true.
Proof.
  intros [Hb Hf]%sched_reachable_wf. split; [done|]. intros ch t Ht. simpl. rewrite Ht. by eapply Hf.
Qed.

(** A screen that changed is taken: while its channel is tracked, the next forced tick that
    finds the agent connected and a free slot asks for it, and takes one slot. *)
Theorem changed_is_asked n s ch t c now :
  reachable (new n) step s → channels s !! ch = Some t → changed t = true →
  c ch = true → inFlight s < maxConcurrent s →
  let s' := step s {| ev := ForcedTimer ch; connected := c; now := now |} in
  requests s' = ch :: requests s ∧ inFlight s' = S (inFlight s) ∧ pending ch s' = false.
Proof.
  intros [Hb Hf]%sched_reachable_wf Ht Hch Hc Hlt. unfold step, exec, onForcedTimeout.
  simpl. rewrite Ht, (Hf _ _ Ht), Hch.
  destruct (requestSnapshot_spec now (c ch) ch s) as (_ & Hr & _).
  rewrite decide_True in Hr by done. tauto.
Qed.

(** An idle terminal is left alone: once a channel's screen is the one last asked for, no timer,
    no event of another channel and no answer makes the hub ask again, until output, a resize, a
    detach, a request that timed out, or tracking it anew. *)
Theorem unchanged_is_quiet s ch ms :
  pending ch s = false → Forall (λ m, wakes ch (ev m) = false) ms →
  asked ch (run step s ms) = asked ch s.
Proof.
  intros Hp Hms. revert s Hp. induction Hms as [|m ms Hm _ IH]; intros s Hp; [done|].
  destruct (quiet_step ch s m Hp Hm) as [Hp' Hc]. simpl. by rewrite IH.
Qed.

(** Two requests of one channel share one timeout: when the agent never answers, the slot of the
    first is never freed. *)
Lemma slot_leak :
  let at_ e := {| ev := e; connected := λ _, true; now := 0 |} in
  let s := run step (new None) (at_ <$> [TrackChannel "c"; OnDetach "c"; OnDetach "c"; OnDetach "c";
                                         OnDetach "c"; SnapshotTimer "c"]) in
  inFlight s = 3 ∧ timeouts s = [].
Proof. by vm_compute. Qed.

(** ** Witnesses *)

Definition demo_at (e : event) : moment := {| ev := e; connected := λ _, true; now := 5 |}.
Definition demo_tracked : SnapshotScheduler := step (new None) (demo_at (TrackChannel "c")).

Lemma scheduler_bounded_witness :
  inFlight (run step demo_tracked [demo_at (OnDetach "c"); demo_at (SnapshotResponse "d")]) ≤ 4.
Proof.
  apply (scheduler_bounded None). apply run_reachable. apply reach_step. constructor.
Defined.

Lemma changed_is_asked_witness :
  requests (step demo_tracked (demo_at (ForcedTimer "c"))) = ["c"].
Proof.
  apply (changed_is_asked None demo_tracked "c"
    {| lastOutputAt := 5; lastSnapshotAt := 0; changed := true; idleTimer := true;
       forcedTimer := true |} (λ _, true) 5); [|reflexivity..|vm_compute; lia].
  apply reach_step. constructor.
Defined.

Lemma unchanged_is_quiet_witness :
  let s := step demo_tracked (demo_at (ForcedTimer "c")) in
  asked "c" (run step s [demo_at (ForcedTimer "c"); demo_at (IdleTimer "c");
    demo_at (SnapshotResponse "c"); demo_at (ForcedTimer "c")]) = 1.
Proof.
  cbv zeta. rewrite (unchanged_is_quiet (step demo_tracked (demo_at (ForcedTimer "c"))) "c");
    [reflexivity..|by repeat constructor].
Defined.
