(* ===== verification/Acquisition.v ===== *)
(** * Connecting a host once ([packages/hub/src/session/session-acquisition.ts],
      [quit-fence.ts], and their uses in [session-manager.ts])

    While a host is being connected its [SessionAcquisition] is the one authority for it: the first
    SPAWN acquires it, the others join it, each with a [Lease], and all wait on its promise.
    Acquisitions and leases are objects shared by reference: they live in a store by identity, and
    [acquisitions] maps a host to the identity of the one connecting it. A promise keeps the first
    settlement it is given. Each operation is one synchronous block of the source, and the steps
    interleave them in any order: [Commit] and [Fail] may come for an acquisition that was closed
    meanwhile. *)

From stdpp Require Import gmap.
From S2P Require Import Prelude JsMap.
#[local] Open Scope lasterm_scope.

Inductive AcqState := CONNECTING | RECONNECTING | CLOSING | FAILED.
#[export] Instance AcqState_eq_dec : EqDecision AcqState.
Proof. solve_decision. Defined.

Inductive settlement := Resolved (sessionId : string) | Rejected (err : string).

Record SessionAcquisition := {
  acq_hostId : string; state : AcqState; aborted : bool;
  connectPromise : option settlement; leases : list nat
}.
Record Lease := { lease_hostId : string; acqId : nat; clientId : string; released : bool }.

(** The part of [SharedSessionContext] these operations share, and the objects it reaches. *)
Record Ctx := {
  acqs : gmap nat SessionAcquisition; leaseObjs : gmap nat Lease;
  acquisitions : jsmap string nat; nextId : nat; quitting : bool; quitEpoch : nat;
  agents : jsmap string nat; sessions : jsmap string string; stoppingAgents : list string
}.

Definition new : Ctx :=
  {| acqs := ∅; leaseObjs := ∅; acquisitions := ∅; nextId := 0; quitting := false;
     quitEpoch := 0; agents := ∅; sessions := ∅; stoppingAgents := [] |}.

Definition with_acqs (f : gmap nat SessionAcquisition → gmap nat SessionAcquisition) (c : Ctx) : Ctx :=
  {| acqs := f (acqs c); leaseObjs := leaseObjs c; acquisitions := acquisitions c;
     nextId := nextId c; quitting := quitting c; quitEpoch := quitEpoch c;
     agents := agents c; sessions := sessions c; stoppingAgents := stoppingAgents c |}.
Definition with_acquisitions (f : jsmap string nat → jsmap string nat) (c : Ctx) : Ctx :=
  {| acqs := acqs c; leaseObjs := leaseObjs c; acquisitions := f (acquisitions c);
     nextId := nextId c; quitting := quitting c; quitEpoch := quitEpoch c;
     agents := agents c; sessions := sessions c; stoppingAgents := stoppingAgents c |}.

(** [_resolve] and [_reject]: the first settlement stays. *)
Definition settle (x : settlement) (q : SessionAcquisition) : SessionAcquisition :=
  {| acq_hostId := acq_hostId q; state := state q; aborted := aborted q;
     connectPromise := match connectPromise q with None => Some x | p => p end;
     leases := leases q |}.
Definition set_state (s : AcqState) (q : SessionAcquisition) : SessionAcquisition :=
  {| acq_hostId := acq_hostId q; state := s; aborted := aborted q;
     connectPromise := connectPromise q; leases := leases q |}.
Definition abort (q : SessionAcquisition) : SessionAcquisition :=
  {| acq_hostId := acq_hostId q; state := state q; aborted := true;
     connectPromise := connectPromise q; leases := leases q |}.
Definition set_leases (f : list nat → list nat) (q : SessionAcquisition) : SessionAcquisition :=
  {| acq_hostId := acq_hostId q; state := state q; aborted := aborted q;
     connectPromise := connectPromise q; leases := f (leases q) |}.

(** [ctx.acquisitions.get(hostId) === acq], and the delete it guards. *)
Definition is_current (hostId : string) (a : nat) (c : Ctx) : bool :=
  bool_decide (acquisitions c !! hostId = Some a).
Definition drop_current (hostId : string) (a : nat) (c : Ctx) : Ctx :=
  if is_current hostId a c then with_acquisitions (delete hostId) c else c.

(** ** The primitives *)

Definition add_lease (a : nat) (hostId client : string) (l : nat) (c : Ctx) : Ctx :=
  {| acqs := alter (set_leases (set_add l)) a (acqs c);
     leaseObjs := <[l := {| lease_hostId := hostId; acqId := a; clientId := client;
                            released := false |}]> (leaseObjs c);
     acquisitions := acquisitions c; nextId := S l; quitting := quitting c;
     quitEpoch := quitEpoch c;
     agents := agents c; sessions := sessions c; stoppingAgents := stoppingAgents c |}.

Definition acquire (hostId client : string) (c : Ctx) : nat * nat * Ctx :=
  let a := nextId c in
  let c := with_acqs (insert a {| acq_hostId := hostId; state := CONNECTING; aborted := false;
                                  connectPromise := None; leases := [] |}) c in
  let c := add_lease a hostId client (S a) c in
  (a, S a, with_acquisitions (insert hostId a) c).

Definition join (a : nat) (client : string) (c : Ctx) : option (nat * Ctx) :=
  match acqs c !! a with
  | None => None
  | Some q =>
      match state q with
      | CLOSING | FAILED => None
      | _ => Some (nextId c, add_lease a (acq_hostId q) client (nextId c) c)
      end
  end.

Definition commit (a : nat) (session : string) (c : Ctx) : Ctx :=
  match acqs c !! a with
  | None => c
  | Some q => with_acqs (alter (settle (Resolved session)) a) (drop_current (acq_hostId q) a c)
  end.

Definition fail (a : nat) (err : string) (c : Ctx) : Ctx :=
  match acqs c !! a with
  | None => c
  | Some q =>
      let c := with_acqs (alter (set_state FAILED) a) c in
      with_acqs (alter (settle (Rejected err)) a) (drop_current (acq_hostId q) a c)
  end.

Definition mark_released (l : nat) (o : Lease) (c : Ctx) : Ctx :=
  {| acqs := acqs c;
     leaseObjs := <[l := {| lease_hostId := lease_hostId o; acqId := acqId o;
                            clientId := clientId o; released := true |}]> (leaseObjs c);
     acquisitions := acquisitions c; nextId := nextId c; quitting := quitting c;
     quitEpoch := quitEpoch c;
     agents := agents c; sessions := sessions c; stoppingAgents := stoppingAgents c |}.

Definition leases_of (a : nat) (c : Ctx) : list nat :=
  match acqs c !! a with Some q => leases q | None => [] end.

(** CLOSING, gone from the map, aborted, then rejected, in that order. *)
Definition close_acq (a : nat) (hostId err : string) (c : Ctx) : Ctx :=
  let c := with_acqs (alter (set_state CLOSING) a) c in
  let c := drop_current hostId a c in
  with_acqs (alter (settle (Rejected err)) a) (with_acqs (alter abort a) c).

Definition release (l : nat) (hasChannels : bool) (c : Ctx) : bool * Ctx :=
  match leaseObjs c !! l with
  | None => (false, c)
  | Some o =>
      if released o then (false, c)
      else
        let c := mark_released l o c in
        let a := acqId o in
        let c := with_acqs (alter (set_leases (set_delete l)) a) c in
        if negb (is_current (lease_hostId o) a c) then (false, c)
        else if bool_decide (leases_of a c = []) && negb hasChannels
        then (true, close_acq a (lease_hostId o)
                "session abandoned: all spawn intents released with no channels" c)
        else (false, c)
  end.

Definition close (hostId : string) (c : Ctx) : option nat * Ctx :=
  match acquisitions c !! hostId with
  | None => (None, c)
  | Some a => (Some a, close_acq a hostId "session closed" c)
  end.

Definition shutdown_one (c : Ctx) (a : nat) : Ctx :=
  with_acqs (alter (λ q, settle (Rejected "hub shutting down") (abort (set_state CLOSING q))) a) c.
Definition shutdownAll (c : Ctx) : Ctx :=
  with_acquisitions (λ _, ∅) (foldl shutdown_one c (js_values (acquisitions c))).

(** ** The quit fence *)

Definition captureQuitFence (c : Ctx) : option nat :=
  if quitting c then None else Some (quitEpoch c).
Definition isQuitFenceCurrent (fence : nat) (c : Ctx) : bool :=
  negb (quitting c) && (quitEpoch c =? fence).
(** [None] is the [HubQuittingError]. *)
Definition assertQuitFence (fence : nat) (c : Ctx) : option unit :=
  if quitting c || negb (quitEpoch c =? fence) then None else Some tt.

Definition beginQuit (c : Ctx) : Ctx :=
  if quitting c then c
  else shutdownAll {| acqs := acqs c; leaseObjs := leaseObjs c; acquisitions := acquisitions c;
                      nextId := nextId c; quitting := true; quitEpoch := S (quitEpoch c);
                      agents := agents c; sessions := sessions c;
                      stoppingAgents := stoppingAgents c |}.

(** The commits that bring something back: [agents] and [sessions] are written nowhere else. *)
Definition set_agents (f : jsmap string nat → jsmap string nat) (c : Ctx) : Ctx :=
  {| acqs := acqs c; leaseObjs := leaseObjs c; acquisitions := acquisitions c;
     nextId := nextId c; quitting := quitting c; quitEpoch := quitEpoch c; agents := f (agents c);
     sessions := sessions c; stoppingAgents := stoppingAgents c |}.
Definition set_sessions (f : jsmap string string → jsmap string string) (c : Ctx) : Ctx :=
  {| acqs := acqs c; leaseObjs := leaseObjs c; acquisitions := acquisitions c;
     nextId := nextId c; quitting := quitting c; quitEpoch := quitEpoch c; agents := agents c;
     sessions := f (sessions c); stoppingAgents := stoppingAgents c |}.
Definition set_stopping (f : list string → list string) (c : Ctx) : Ctx :=
  {| acqs := acqs c; leaseObjs := leaseObjs c; acquisitions := acquisitions c;
     nextId := nextId c; quitting := quitting c; quitEpoch := quitEpoch c; agents := agents c;
     sessions := sessions c; stoppingAgents := f (stoppingAgents c) |}.

Definition adoptAgent (fence : nat) (hostId : string) (agent : nat) (c : Ctx) : option Ctx :=
  match assertQuitFence fence c with
  | None => None
  | Some _ => if set_has hostId (stoppingAgents c) then None
              else Some (set_agents (insert hostId agent) c)
  end.
Definition persistSession (fence : nat) (hostId session : string) (c : Ctx) : option Ctx :=
  match assertQuitFence fence c with
  | None => None
  | Some _ => Some (set_sessions (insert hostId session) c)
  end.

(** ** SPAWN's claim on a host, and the interleavings *)

(** The synchronous block of [spawnOnHost]: join what is connecting the host, or lead. *)
Definition claim_host (hostId client : string) (c : Ctx) : nat * Ctx :=
  match acquisitions c !! hostId with
  | Some existing =>
      match join existing client c with
      | Some r => r
      | None => let '(_, l, c') := acquire hostId client c in (l, c')
      end
  | None => let '(_, l, c') := acquire hostId client c in (l, c')
  end.

Inductive op :=
| Spawn (hostId client : string)
| Commit (acq : nat) (session : string)
| Fail (acq : nat) (err : string)
| Release (lease : nat) (hasChannels : bool)
| Close (hostId : string)
| Quit
| Adopt (fence : nat) (hostId : string) (agent : nat)
| Persist (fence : nat) (hostId session : string)
| LoseAgent (hostId : string)
| CloseSession (hostId : string)
| Stopping (hostId : string) (on : bool).

Definition step (c : Ctx) (o : op) : Ctx :=
  match o with
  | Spawn h client => (claim_host h client c).2
  | Commit a s => commit a s c
  | Fail a e => fail a e c
  | Release l ch => (release l ch c).2
  | Close h => (close h c).2
  | Quit => beginQuit c
  | Adopt f h a => default c (adoptAgent f h a c)
  | Persist f h s => default c (persistSession f h s c)
  | LoseAgent h => set_agents (delete h) c
  | CloseSession h => set_sessions (delete h) c
  | Stopping h on => set_stopping (if on then set_add h else set_delete h) c
  end.

(** ** What holds of them *)

(** An acquisition in the map is connecting, and nobody who waits on it was answered yet. *)
Definition connecting (q : SessionAcquisition) : Prop :=
  state q = CONNECTING ∧ aborted q = false ∧ connectPromise q = None.

Record wf (c : Ctx) : Prop := {
  wf_current : ∀ h a, acquisitions c !! h = Some a →
    ∃ q, acqs c !! a = Some q ∧ acq_hostId q = h ∧ connecting q;
  wf_waiting : ∀ a q, acqs c !! a = Some q → connectPromise q = None →
    acquisitions c !! acq_hostId q = Some a;
  wf_ended : ∀ a q, acqs c !! a = Some q → aborted q = true → state q = CLOSING ∨ state q = FAILED;
  wf_leases : ∀ a q l, acqs c !! a = Some q →
    (l ∈ leases q ↔ ∃ o, leaseObjs c !! l = Some o ∧ acqId o = a ∧ released o = false);
  wf_lease_host : ∀ l o, leaseObjs c !! l = Some o →
    ∃ q, acqs c !! acqId o = Some q ∧ acq_hostId q = lease_hostId o;
  wf_fresh_acq : ∀ a, nextId c ≤ a → acqs c !! a = None;
  wf_fresh_lease : ∀ l, nextId c ≤ l → leaseObjs c !! l = None
}.

(** ** Lemmas *)

Section lemmas.
Implicit Types (c : Ctx) (q : SessionAcquisition) (a l : nat) (h : string).

Lemma acq_wf_new : wf new.
Proof.
  split; simpl; intros *; rewrite ?lookup_empty; done.
Qed.

Lemma wf_ext c c' :
  wf c → acqs c' = acqs c → leaseObjs c' = leaseObjs c → acquisitions c' = acquisitions c →
  nextId c' = nextId c → wf c'.
Proof. intros [] H1 H2 H3 H4. split; rewrite ?H1, ?H2, ?H3, ?H4; done. Qed.

Lemma drop_current_acqs h a c f :
  with_acqs f (drop_current h a c) = drop_current h a (with_acqs f c).
Proof. unfold drop_current, is_current. simpl. by case_bool_decide. Qed.

Lemma lookup_drop_current h a c h' :
  acquisitions (drop_current h a c) !! h' =
  if decide (h = h' ∧ acquisitions c !! h = Some a) then None else acquisitions c !! h'.
Proof.
  unfold drop_current, is_current. case_bool_decide as Hc; simpl.
  - rewrite js_lookup_delete. repeat case_decide; tauto.
  - rewrite decide_False; tauto.
Qed.

(** Ending an acquisition: whatever changes it, it is answered, and leaves the map if it was the
    one its host has there. *)
Definition retire (g : SessionAcquisition → SessionAcquisition) a q c : Ctx :=
  drop_current (acq_hostId q) a (with_acqs (alter g a) c).

Lemma drop_current_other h a c :
  acqs (drop_current h a c) = acqs c ∧ leaseObjs (drop_current h a c) = leaseObjs c ∧
  nextId (drop_current h a c) = nextId c.
Proof. unfold drop_current. by case_match. Qed.

Lemma wf_retire g a q c :
  wf c → acqs c !! a = Some q → acq_hostId (g q) = acq_hostId q → leases (g q) = leases q →
  connectPromise (g q) ≠ None →
  (aborted (g q) = true → state (g q) = CLOSING ∨ state (g q) = FAILED) →
  wf (retire g a q c).
Proof.
  intros Hwf Ha Hh Hl Hp Hab. unfold retire.
  destruct (drop_current_other (acq_hostId q) a (with_acqs (alter g a) c)) as (H1 & H2 & H3).
  simpl in *.
  assert (∀ b r, alter g a (acqs c) !! b = Some r →
    (b = a ∧ r = g q) ∨ (b ≠ a ∧ acqs c !! b = Some r)) as Hlk.
  { intros b r. destruct (decide (b = a)) as [->|Hne].
    - rewrite lookup_alter_eq, Ha. intros [= <-]. by left.
    - rewrite lookup_alter_ne by done. by right. }
  destruct Hwf as [Hcur Hwait Hend Hls Hlh Hfa Hfl].
  split; rewrite ?H1, ?H2, ?H3; try done.
  - intros h b. rewrite lookup_drop_current. simpl. case_decide as Hd; [done|]. intros Hb.
    destruct (Hcur h b Hb) as (r & Hr & Hrh & Hc). exists r. split; [|done].
    rewrite lookup_alter_ne; [done|]. intros <-. apply Hd. simplify_eq. done.
  - intros b r [[-> ->]|[Hne Hr]]%Hlk Hnone; [done|]. rewrite lookup_drop_current. simpl.
    specialize (Hwait b r Hr Hnone). rewrite decide_False; [done|]. intros [Heq Hb]. congruence.
  - intros b r [[-> ->]|[Hne Hr]]%Hlk; [done|]. by eapply Hend.
  - intros b r l [[-> ->]|[Hne Hr]]%Hlk; [rewrite Hl|]; by apply Hls.
  - intros l o Ho. destruct (Hlh l o Ho) as (r & Hr & Hrh).
    destruct (decide (acqId o = a)) as [Heq|Hne].
    + exists (g q). rewrite Heq, lookup_alter_eq, Ha. split; [done|]. congruence.
    + exists r. by rewrite lookup_alter_ne.
  - intros b Hb. assert (b ≠ a) as Hne by (intros ->; rewrite Hfa in Ha by done; done).
    rewrite lookup_alter_ne by done. by apply Hfa.
Qed.

Lemma commit_retire a s q c :
  acqs c !! a = Some q → commit a s c = retire (settle (Resolved s)) a q c.
Proof. intros Ha. unfold commit, retire. by rewrite Ha, drop_current_acqs. Qed.

Lemma with_acqs_alter f g a c :
  with_acqs (alter f a) (with_acqs (alter g a) c) = with_acqs (alter (f ∘ g) a) c.
Proof.
  unfold with_acqs. simpl. f_equal. apply map_eq. intros b.
  destruct (decide (b = a)) as [->|Hne].
  - rewrite !lookup_alter_eq. by destruct (acqs c !! a).
  - by rewrite !lookup_alter_ne.
Qed.

Lemma fail_retire a e q c :
  acqs c !! a = Some q →
  fail a e c = retire (settle (Rejected e) ∘ set_state FAILED) a q c.
Proof.
  intros Ha. unfold fail, retire. by rewrite Ha, drop_current_acqs, with_acqs_alter.
Qed.

Lemma close_retire a e q c :
  close_acq a (acq_hostId q) e c = retire (settle (Rejected e) ∘ (abort ∘ set_state CLOSING)) a q c.
Proof. unfold close_acq, retire. by rewrite !drop_current_acqs, !with_acqs_alter. Qed.

Lemma settled_not_none x q : connectPromise (settle x q) ≠ None.
Proof. unfold settle. simpl. by destruct (connectPromise q). Qed.

Lemma wf_commit a s c : wf c → wf (commit a s c).
Proof.
  intros Hwf. destruct (acqs c !! a) as [q|] eqn:Ha.
  - rewrite (commit_retire a s q) by done. apply wf_retire; try done; [apply settled_not_none|].
    exact (wf_ended c Hwf a q Ha).
  - unfold commit. by rewrite Ha.
Qed.

Lemma wf_fail a e c : wf c → wf (fail a e c).
Proof.
  intros Hwf. destruct (acqs c !! a) as [q|] eqn:Ha.
  - rewrite (fail_retire a e q) by done. apply wf_retire; try done; [apply settled_not_none|].
    by right.
  - unfold fail. by rewrite Ha.
Qed.

Lemma wf_close_acq a q e c : wf c → acqs c !! a = Some q → wf (close_acq a (acq_hostId q) e c).
Proof.
  intros Hwf Ha. rewrite close_retire. apply wf_retire; try done; [apply settled_not_none|]. by left.
Qed.

(** A lease taken on an acquisition of the store. *)
Lemma wf_add_lease a q client l c :
  wf c → acqs c !! a = Some q → nextId c ≤ l → wf (add_lease a (acq_hostId q) client l c).
Proof.
  intros [Hcur Hwait Hend Hls Hlh Hfa Hfl] Ha Hl.
  assert (∀ b r, alter (set_leases (set_add l)) a (acqs c) !! b = Some r →
    ∃ r', acqs c !! b = Some r' ∧ acq_hostId r = acq_hostId r' ∧ state r = state r' ∧
      aborted r = aborted r' ∧ connectPromise r = connectPromise r' ∧
      leases r = if decide (b = a) then set_add l (leases r') else leases r') as Hlk.
  { intros b r. destruct (decide (b = a)) as [->|Hne].
    - rewrite lookup_alter_eq, Ha. intros [= <-]. by exists q.
    - rewrite lookup_alter_ne by done. intros. by exists r. }
  assert (∀ b r, acqs c !! b = Some r → ∃ r', alter (set_leases (set_add l)) a (acqs c) !! b = Some r' ∧
    acq_hostId r' = acq_hostId r ∧ (connecting r → connecting r')) as Hlk'.
  { intros b r Hr. destruct (decide (b = a)) as [->|Hne].
    - rewrite lookup_alter_eq, Hr. simpl. eauto.
    - rewrite lookup_alter_ne by done. eauto. }
  split; simpl.
  - intros h b Hb. destruct (Hcur h b Hb) as (r & Hr & <- & Hc).
    destruct (Hlk' b r Hr) as (r' & ? & ? & ?). eauto.
  - intros b r (r' & Hr & -> & _ & _ & -> & _)%Hlk. by apply Hwait.
  - intros b r (r' & Hr & _ & -> & -> & _)%Hlk. by eapply Hend.
  - intros b r l' (r' & Hr & _ & _ & _ & _ & Hleases)%Hlk. rewrite Hleases.
    destruct (decide (l' = l)) as [->|Hne].
    + setoid_rewrite lookup_insert_eq. specialize (Hls b r' l Hr). rewrite Hfl in Hls by done.
      case_decide as Hba.
      * rewrite elem_of_set_add. split; [|by left]. intros _. subst b. eauto.
      * rewrite Hls. split; [by intros (?&[=]&_)|intros (o & [= <-] & ? & _)]. done.
    + setoid_rewrite lookup_insert_ne; [|done]. rewrite <- (Hls b r' l' Hr).
      case_decide; [|done]. rewrite elem_of_set_add. tauto.
  - intros l' o. destruct (decide (l' = l)) as [->|Hne].
    + rewrite lookup_insert_eq. intros [= <-]. simpl. rewrite lookup_alter_eq, Ha. eauto.
    + rewrite lookup_insert_ne by done. intros Ho. destruct (Hlh l' o Ho) as (r & Hr & <-).
      destruct (Hlk' _ r Hr) as (r' & ? & ? & _). eauto.
  - intros b Hb. rewrite lookup_alter_ne; [apply Hfa; lia|]. intros <-.
    rewrite Hfa in Ha by lia. done.
  - intros l' Hl'. rewrite lookup_insert_ne by lia. apply Hfl. lia.
Qed.

Lemma wf_new_acq h c :
  wf c → acquisitions c !! h = None →
  let q := {| acq_hostId := h; state := CONNECTING; aborted := false; connectPromise := None;
              leases := [] |} in
  let c1 := with_acquisitions (insert h (nextId c)) (with_acqs (insert (nextId c) q) c) in
  ∀ c2, acqs c2 = acqs c1 → leaseObjs c2 = leaseObjs c1 → acquisitions c2 = acquisitions c1 →
    nextId c2 = S (nextId c) → wf c2.
Proof.
  intros [Hcur Hwait Hend Hls Hlh Hfa Hfl] Hh q c1 c2 H1 H2 H3 H4.
  assert (acqs c !! nextId c = None) as Hfresh by by apply Hfa.
  split; rewrite ?H1, ?H2, ?H3, ?H4; simpl.
  - intros h' b. rewrite js_lookup_insert. case_decide as Hd.
    + intros [= <-]. exists q. rewrite lookup_insert_eq. by subst h'.
    + intros Hb. destruct (Hcur h' b Hb) as (r & Hr & Hrest). exists r.
      rewrite lookup_insert_ne; [done|]. congruence.
  - intros b r. destruct (decide (b = nextId c)) as [->|Hne].
    + rewrite lookup_insert_eq. intros [= <-] _. simpl. by rewrite js_lookup_insert_eq.
    + rewrite lookup_insert_ne by done. intros Hr Hp. specialize (Hwait b r Hr Hp).
      rewrite js_lookup_insert_ne by congruence. done.
  - intros b r. rewrite lookup_insert_Some. intros [[<- <-]|[_ Hr]]; [done|by eapply Hend].
  - intros b r l. rewrite lookup_insert_Some. intros [[<- <-]|[_ Hr]]; [|by apply Hls].
    split; [by intros ?%not_elem_of_nil|]. intros (o & Ho & Heq & _).
    destruct (Hlh l o Ho) as (r & Hr & _). congruence.
  - intros l o Ho. destruct (Hlh l o Ho) as (r & Hr & Hrh). exists r.
    rewrite lookup_insert_ne; [done|congruence].
  - intros b Hb. rewrite lookup_insert_ne by lia. apply Hfa. lia.
  - intros l Hl. apply Hfl. lia.
Qed.

Lemma wf_acquire h client c :
  wf c → acquisitions c !! h = None → wf (acquire h client c).2.
Proof.
  intros Hwf Hh. set (q := Build_SessionAcquisition h CONNECTING false None []).
  set (c2 := Build_Ctx (<[nextId c := q]> (acqs c)) (leaseObjs c) (<[h := nextId c]> (acquisitions c))
               (S (nextId c)) (quitting c) (quitEpoch c) (agents c) (sessions c) (stoppingAgents c)).
  change (wf (add_lease (nextId c) (acq_hostId q) client (S (nextId c)) c2)).
  apply wf_add_lease; [by apply (wf_new_acq h c)|by apply lookup_insert_eq|done].
Qed.

Lemma wf_claim h client c : wf c → wf (claim_host h client c).2.
Proof.
  intros Hwf. unfold claim_host. destruct (acquisitions c !! h) as [a|] eqn:Hh.
  - destruct (wf_current c Hwf h a Hh) as (q & Ha & <- & Hc & _). unfold join. rewrite Ha, Hc.
    by apply wf_add_lease.
  - by apply wf_acquire.
Qed.

(** What [release] does before it looks at the map. *)
Definition let_go l (o : Lease) c : Ctx :=
  with_acqs (alter (set_leases (set_delete l)) (acqId o)) (mark_released l o c).

Lemma wf_let_go l o c :
  wf c → leaseObjs c !! l = Some o → released o = false → wf (let_go l o c).
Proof.
  intros [Hcur Hwait Hend Hls Hlh Hfa Hfl] Ho Hrel.
  assert (∀ b r, acqs (let_go l o c) !! b = Some r →
    ∃ r', acqs c !! b = Some r' ∧ acq_hostId r = acq_hostId r' ∧ state r = state r' ∧
      aborted r = aborted r' ∧ connectPromise r = connectPromise r' ∧
      leases r = if decide (b = acqId o) then set_delete l (leases r') else leases r') as Hlk.
  { intros b r. simpl. destruct (decide (b = acqId o)) as [->|Hne].
    - rewrite lookup_alter_eq. destruct (acqs c !! acqId o) as [r'|]; [|done]. intros [= <-].
      by exists r'.
    - rewrite lookup_alter_ne by done. intros. by exists r. }
  assert (∀ b r, acqs c !! b = Some r → ∃ r', acqs (let_go l o c) !! b = Some r' ∧
    acq_hostId r' = acq_hostId r ∧ (connecting r → connecting r')) as Hlk'.
  { intros b r Hr. simpl. destruct (decide (b = acqId o)) as [->|Hne].
    - rewrite lookup_alter_eq, Hr. simpl. eauto.
    - rewrite lookup_alter_ne by done. eauto. }
  split.
  - intros h b Hb. destruct (Hcur h b Hb) as (r & Hr & <- & Hc).
    destruct (Hlk' b r Hr) as (r' & ? & ? & ?). eauto.
  - intros b r (r' & Hr & -> & _ & _ & -> & _)%Hlk. by apply Hwait.
  - intros b r (r' & Hr & _ & -> & -> & _)%Hlk. by eapply Hend.
  - intros b r l' (r' & Hr & _ & _ & _ & _ & Hleases)%Hlk. rewrite Hleases. simpl.
    destruct (decide (l' = l)) as [->|Hne].
    + setoid_rewrite lookup_insert_eq. split; [|by intros (? & [= <-] & _ & [=])].
      case_decide as Hb; [by intros [? _]%elem_of_set_delete|].
      intros Hin. apply (Hls b r' l Hr) in Hin as (o' & Ho' & <- & _). congruence.
    + setoid_rewrite lookup_insert_ne; [|done]. rewrite <- (Hls b r' l' Hr).
      case_decide; [|done]. rewrite elem_of_set_delete. tauto.
  - intros l' o'. simpl. destruct (decide (l' = l)) as [->|Hne].
    + rewrite lookup_insert_eq. intros [= <-]. simpl. destruct (Hlh l o Ho) as (r & Hr & <-).
      destruct (Hlk' _ r Hr) as (r' & ? & ? & _). eauto.
    + rewrite lookup_insert_ne by done. intros Ho'. destruct (Hlh l' o' Ho') as (r & Hr & <-).
      destruct (Hlk' _ r Hr) as (r' & ? & ? & _). eauto.
  - intros b Hb. destruct (acqs (let_go l o c) !! b) as [r|] eqn:Hr; [|done].
    apply Hlk in Hr as (r' & Hr & _). by rewrite Hfa in Hr.
  - intros l' Hl'. simpl. simpl in Hl'. rewrite lookup_insert_ne; [by apply Hfl|].
    intros <-. by rewrite Hfl in Ho.
Qed.

Lemma release_eq l hasChannels o c :
  leaseObjs c !! l = Some o → released o = false →
  let c1 := let_go l o c in
  release l hasChannels c =
    if is_current (lease_hostId o) (acqId o) c && bool_decide (leases_of (acqId o) c1 = []) &&
       negb hasChannels
    then (true, close_acq (acqId o) (lease_hostId o)
            "session abandoned: all spawn intents released with no channels" c1)
    else (false, c1).
Proof.
  intros Ho Hr. unfold release. rewrite Ho, Hr. fold (let_go l o c).
  change (is_current (lease_hostId o) (acqId o) (let_go l o c))
    with (is_current (lease_hostId o) (acqId o) c).
  by destruct (is_current _ _ c).
Qed.

Lemma wf_release l hasChannels c : wf c → wf (release l hasChannels c).2.
Proof.
  intros Hwf. destruct (leaseObjs c !! l) as [o|] eqn:Ho.
  - destruct (released o) eqn:Hr; [unfold release; by rewrite Ho, Hr|].
    rewrite (release_eq l hasChannels o) by done.
    pose proof (wf_let_go l o c Hwf Ho Hr) as Hwf1. destruct (_ && _); [|done].
    destruct (wf_lease_host c Hwf l o Ho) as (q & Hq & <-). simpl.
    assert (acqs (let_go l o c) !! acqId o = Some (set_leases (set_delete l) q)) as Hq1
      by (simpl; by rewrite lookup_alter_eq, Hq).
    exact (wf_close_acq _ _ _ _ Hwf1 Hq1).
  - unfold release. by rewrite Ho.
Qed.

Lemma wf_close h c : wf c → wf (close h c).2.
Proof.
  intros Hwf. unfold close. destruct (acquisitions c !! h) as [a|] eqn:Hh; [|done].
  destruct (wf_current c Hwf h a Hh) as (q & Ha & <- & _). by apply wf_close_acq.
Qed.

(** Closing, aborting and answering: what the shutdown does to each. *)
Definition shut q : SessionAcquisition :=
  settle (Rejected "hub shutting down") (abort (set_state CLOSING q)).

Lemma lookup_shutdown vs c a :
  acqs (foldl shutdown_one c vs) !! a =
  if decide (a ∈ vs) then shut <$> acqs c !! a else acqs c !! a.
Proof.
  revert c. induction vs as [|v vs IH]; intros c; cbn [foldl]; [done|]. rewrite IH. simpl.
  destruct (decide (a = v)) as [->|Hne].
  - rewrite lookup_alter_eq, (decide_True (P := v ∈ v :: vs)) by by left.
    case_decide; [|done]. destruct (acqs c !! v) as [q|]; [|done]. simpl. f_equal.
    unfold shut, settle. simpl. by destruct (connectPromise q).
  - rewrite lookup_alter_ne by done.
    destruct (decide (a ∈ vs)); [rewrite decide_True by by right|rewrite decide_False]; [done..|].
    by intros [?|?]%elem_of_cons.
Qed.

Lemma foldl_shutdown vs c :
  let c' := foldl shutdown_one c vs in
  leaseObjs c' = leaseObjs c ∧ nextId c' = nextId c ∧ agents c' = agents c ∧
  sessions c' = sessions c ∧ quitting c' = quitting c ∧ quitEpoch c' = quitEpoch c.
Proof. revert c. induction vs as [|v vs IH]; intros c; [done|]. apply (IH (shutdown_one c v)). Qed.

Lemma wf_shutdown c : wf c → wf (shutdownAll c).
Proof.
  intros [Hcur Hwait Hend Hls Hlh Hfa Hfl]. unfold shutdownAll.
  set (vs := js_values (acquisitions c)). destruct (foldl_shutdown vs c) as (H1 & H2 & _).
  assert (∀ a q, acqs (foldl shutdown_one c vs) !! a = Some q → ∃ q', acqs c !! a = Some q' ∧
    (q = shut q' ∨ q = q' ∧ a ∉ vs)) as Hlk.
  { intros a q. rewrite lookup_shutdown. case_decide; [|by eauto].
    destruct (acqs c !! a) as [q'|]; [|done]. intros [= <-]. eauto. }
  split; simpl; rewrite ?H1, ?H2; try done.
  - intros a q (q' & Hq & [->|[-> Hvs]])%Hlk Hp; [by destruct (settled_not_none _ _ Hp)|].
    exfalso. apply Hvs. specialize (Hwait a q' Hq Hp). apply js_lookup_elem in Hwait.
    unfold vs, js_values. apply list_elem_of_fmap. by exists (acq_hostId q', a).
  - intros a q (q' & Hq & [->|[-> _]])%Hlk; [by left|by eapply Hend].
  - intros a q l (q' & Hq & [->|[-> _]])%Hlk; by apply (Hls a q').
  - intros l o Ho. destruct (Hlh l o Ho) as (q & Hq & <-). rewrite lookup_shutdown, Hq.
    case_decide; eauto.
  - intros a Ha. rewrite lookup_shutdown, Hfa by done. by case_decide.
Qed.

Lemma wf_quit c : wf c → wf (beginQuit c).
Proof. intros Hwf. unfold beginQuit. destruct (quitting c); [done|]. by apply wf_shutdown, (wf_ext c). Qed.

Lemma acq_wf_step c o : wf c → wf (step c o).
Proof.
  intros Hwf. destruct o as [h cl|a s|a e|l ch|h| |f h a|f h s|h|h|h on]; simpl.
  - by apply wf_claim.
  - by apply wf_commit.
  - by apply wf_fail.
  - by apply wf_release.
  - by apply wf_close.
  - by apply wf_quit.
  - unfold adoptAgent. repeat case_match; simpl; try done. by apply (wf_ext c).
  - unfold persistSession. repeat case_match; simpl; try done. by apply (wf_ext c).
  - by apply (wf_ext c).
  - by apply (wf_ext c).
  - by apply (wf_ext c).
Qed.

Lemma acq_reachable_wf c : reachable new step c → wf c.
Proof. apply reachable_invariant; [apply acq_wf_new|apply acq_wf_step]. Qed.
End lemmas.

(** ** Answers that stay, and leases that keep *)

Section answers.
Implicit Types (c : Ctx) (q : SessionAcquisition) (a l : nat) (h : string).

(** Every acquisition of [c] is one of [c'], with the answer it had. *)
Definition keeps_answers c c' : Prop :=
  ∀ a q x, acqs c !! a = Some q → connectPromise q = Some x →
    ∃ q', acqs c' !! a = Some q' ∧ connectPromise q' = Some x.

#[export] Instance keeps_answers_refl : Reflexive keeps_answers.
Proof. intros c a q x Ha Hx. eauto. Qed.
#[export] Instance keeps_answers_trans : Transitive keeps_answers.
Proof.
  intros c1 c2 c3 H12 H23 a q x Ha Hx. destruct (H12 a q x Ha Hx) as (q' & Ha' & Hx'). eauto.
Qed.

Lemma keeps_same c c' : acqs c' = acqs c → keeps_answers c c'.
Proof. intros Heq a q x. rewrite Heq. eauto. Qed.

Lemma keeps_alter (g : SessionAcquisition → SessionAcquisition) a c c' :
  acqs c' = alter g a (acqs c) →
  (∀ q x, connectPromise q = Some x → connectPromise (g q) = Some x) → keeps_answers c c'.
Proof.
  intros Heq Hg b q x Hb Hx. rewrite Heq. destruct (decide (b = a)) as [->|Hne].
  - rewrite lookup_alter_eq, Hb. simpl. eauto.
  - rewrite lookup_alter_ne by done. eauto.
Qed.

Lemma settle_keeps x y q : connectPromise q = Some y → connectPromise (settle x q) = Some y.
Proof. unfold settle. simpl. by intros ->. Qed.

Lemma keeps_retire g a q c :
  (∀ q x, connectPromise q = Some x → connectPromise (g q) = Some x) →
  keeps_answers c (retire g a q c).
Proof.
  intros Hg. apply (keeps_alter g a); [|done]. unfold retire.
  by destruct (drop_current_other (acq_hostId q) a (with_acqs (alter g a) c)) as (-> & _).
Qed.

Lemma keeps_step c o : wf c → keeps_answers c (step c o).
Proof.
  intros Hwf. destruct o as [h cl|a s|a e|l ch|h| |f h a|f h s|h|h|h on]; cbn [step].
  - unfold claim_host. destruct (acquisitions c !! h) as [a|] eqn:Hh.
    + destruct (wf_current c Hwf h a Hh) as (q & Ha & _ & Hc & _). unfold join. rewrite Ha, Hc.
      by apply (keeps_alter (set_leases (set_add (nextId c))) a).
    + simpl. transitivity (with_acqs (insert (nextId c) (Build_SessionAcquisition h CONNECTING false
        None [])) c); [|by apply (keeps_alter (set_leases (set_add (S (nextId c)))) (nextId c))].
      intros b q x Hb Hx. exists q. split; [|done]. simpl. rewrite lookup_insert_ne; [done|].
      intros <-. by rewrite (wf_fresh_acq c Hwf) in Hb.
  - destruct (acqs c !! a) as [q|] eqn:Ha; [|unfold commit; by rewrite Ha].
    rewrite (commit_retire a s q) by done. apply keeps_retire. intros r y Hr'. by apply settle_keeps.
  - destruct (acqs c !! a) as [q|] eqn:Ha; [|unfold fail; by rewrite Ha].
    rewrite (fail_retire a e q) by done. apply keeps_retire. intros r y Hr'. by apply settle_keeps.
  - destruct (leaseObjs c !! l) as [o|] eqn:Ho; [|unfold release; by rewrite Ho].
    destruct (released o) eqn:Hr; [unfold release; by rewrite Ho, Hr|].
    rewrite (release_eq l ch o) by done. transitivity (let_go l o c).
    { by apply (keeps_alter (set_leases (set_delete l)) (acqId o)). }
    destruct (_ && _); [|done]. destruct (wf_lease_host c Hwf l o Ho) as (q & _ & <-). cbn [snd].
    rewrite close_retire. apply keeps_retire. intros r y Hr'. by apply settle_keeps.
  - unfold close. destruct (acquisitions c !! h) as [a|] eqn:Hh; [|done].
    destruct (wf_current c Hwf h a Hh) as (q & _ & <- & _). cbn [snd].
    rewrite close_retire. apply keeps_retire. intros r y Hr'. by apply settle_keeps.
  - unfold beginQuit. destruct (quitting c); [done|]. unfold shutdownAll. intros b q x Hb Hx. simpl.
    rewrite lookup_shutdown. simpl. rewrite Hb. case_decide; [|by eauto]. simpl. eexists.
    split; [done|]. by apply settle_keeps.
  - apply keeps_same. unfold adoptAgent. by repeat case_match.
  - apply keeps_same. unfold persistSession. by repeat case_match.
  - by apply keeps_same.
  - by apply keeps_same.
  - by apply keeps_same.
Qed.

(** Every acquisition in the map is held by a lease. *)
Definition held c : Prop := ∀ h a, acquisitions c !! h = Some a → leases_of a c ≠ [].

(** No terminal of the host is running when a lease is released. *)
Definition no_channels (o : op) : Prop := match o with Release _ ch => ch = false | _ => True end.

Lemma held_retire g a q c :
  wf c → held c → acqs c !! a = Some q → leases (g q) = leases q → held (retire g a q c).
Proof.
  intros Hwf Hh Ha Hl h b. unfold retire. rewrite lookup_drop_current. simpl.
  case_decide as Hd; [done|]. intros Hb. specialize (Hh h b Hb). unfold leases_of in *.
  destruct (drop_current_other (acq_hostId q) a (with_acqs (alter g a) c)) as (-> & _). simpl.
  destruct (decide (b = a)) as [->|Hne]; [|by rewrite lookup_alter_ne].
  rewrite lookup_alter_eq. destruct (acqs c !! a) as [r|] eqn:Hr; [|done]. simplify_eq/=. congruence.
Qed.

Lemma set_add_not_nil l (ls : list nat) : set_add l ls ≠ [].
Proof. unfold set_add. case_decide as Hin; [by intros ->; apply not_elem_of_nil in Hin|by destruct ls]. Qed.

Lemma held_step c o : wf c → held c → no_channels o → held (step c o).
Proof.
  intros Hwf Hh Hno. destruct o as [h cl|a s|a e|l ch|h| |f h a|f h s|h|h|h on]; cbn [step].
  - intros h' b. unfold claim_host. destruct (acquisitions c !! h) as [a|] eqn:Hha.
    + destruct (wf_current c Hwf h a Hha) as (q & Ha & _ & Hc & _). unfold join. rewrite Ha, Hc.
      simpl. intros Hb. specialize (Hh h' b Hb). unfold leases_of in *. simpl.
      destruct (decide (b = a)) as [->|Hne]; [|by rewrite lookup_alter_ne].
      rewrite lookup_alter_eq, Ha. apply set_add_not_nil.
    + simpl. rewrite js_lookup_insert. unfold leases_of. simpl. case_decide as Hd.
      * intros [= <-]. rewrite lookup_alter_eq, lookup_insert_eq. apply set_add_not_nil.
      * intros Hb. specialize (Hh h' b Hb). unfold leases_of in Hh.
        destruct (wf_current c Hwf h' b Hb) as (q & Hq & _).
        assert (b ≠ nextId c) by (intros ->; by rewrite (wf_fresh_acq c Hwf) in Hq).
        by rewrite lookup_alter_ne, lookup_insert_ne by done.
  - destruct (acqs c !! a) as [q|] eqn:Ha; [|unfold commit; by rewrite Ha].
    rewrite (commit_retire a s q) by done. by apply held_retire.
  - destruct (acqs c !! a) as [q|] eqn:Ha; [|unfold fail; by rewrite Ha].
    rewrite (fail_retire a e q) by done. by apply held_retire.
  - simpl in Hno. subst ch. destruct (leaseObjs c !! l) as [o|] eqn:Ho; [|unfold release; by rewrite Ho].
    destruct (released o) eqn:Hr; [unfold release; by rewrite Ho, Hr|].
    rewrite (release_eq l false o) by done. rewrite andb_true_r.
    destruct (wf_lease_host c Hwf l o Ho) as (q & Hq & Hqh).
    assert (∀ h' b, b ≠ acqId o → acquisitions c !! h' = Some b → leases_of b (let_go l o c) ≠ []) as Hoth.
    { intros h' b Hne Hb. specialize (Hh h' b Hb). unfold leases_of in *. simpl.
      by rewrite lookup_alter_ne. }
    unfold is_current. case_bool_decide as Hcur; simpl.
    + case_bool_decide as Hnil; cbn [snd].
      * rewrite <- Hqh. rewrite close_retire. intros h' b. unfold retire. rewrite lookup_drop_current.
        simpl. case_decide as Hd; [done|]. intros Hb.
        assert (b ≠ acqId o) as Hne.
        { intros ->. destruct (wf_current c Hwf h' _ Hb) as (q' & Hq' & <- & _). apply Hd.
          split; congruence. }
        specialize (Hoth h' b Hne Hb). unfold leases_of in *.
        destruct (drop_current_other (acq_hostId q) (acqId o) (with_acqs (alter (settle (Rejected
          "session abandoned: all spawn intents released with no channels") ∘
          (abort ∘ set_state CLOSING)) (acqId o)) (let_go l o c))) as (-> & _). simpl in *.
        by rewrite lookup_alter_ne.
      * intros h' b Hb. destruct (decide (b = acqId o)) as [->|Hne]; [done|by apply (Hoth h')].
    + intros h' b Hb. change (acquisitions c !! h' = Some b) in Hb.
      apply (Hoth h'); [|done]. intros ->.
      destruct (wf_current c Hwf h' _ Hb) as (q' & Hq' & <- & _). apply Hcur. congruence.
  - unfold close. destruct (acquisitions c !! h) as [a|] eqn:Hha; [|done].
    destruct (wf_current c Hwf h a Hha) as (q & Hq & <- & _). cbn [snd].
    rewrite close_retire. by apply held_retire.
  - unfold beginQuit. destruct (quitting c); [done|]. by intros h a.
  - unfold adoptAgent. repeat case_match; simpl; done.
  - unfold persistSession. repeat case_match; simpl; done.
  - done.
  - done.
  - done.
Qed.
End answers.

(** ** Properties *)

Section properties.
Implicit Types (c : Ctx) (q : SessionAcquisition) (a l : nat) (h : string).

(** C11 However spawns, commits, failures, releases, closes and the quit interleave, no one who
    waits on a connection is left without an answer: an acquisition is unanswered exactly while it
    is the one in the map for its host, where it is connecting and not aborted; its answer, once
    given, never changes; an aborted one is terminal, so it takes no more joins; and its leases are
    exactly those taken on it and not yet released. *)
Theorem acquisition_safe c :
  reachable new step c →
  (∀ h a, acquisitions c !! h = Some a → ∃ q, acqs c !! a = Some q ∧ acq_hostId q = h ∧ connecting q) ∧
  (∀ a q, acqs c !! a = Some q →
     (connectPromise q = None ↔ acquisitions c !! acq_hostId q = Some a) ∧
     (aborted q = true → ∀ client, join a client c = None) ∧
     (∀ o x, connectPromise q = Some x →
        ∃ q', acqs (step c o) !! a = Some q' ∧ connectPromise q' = Some x) ∧
     ∀ l, l ∈ leases q ↔ ∃ o, leaseObjs c !! l = Some o ∧ acqId o = a ∧ released o = false).
Proof.
  intros Hwf%acq_reachable_wf. split; [by apply wf_current|]. intros a q Ha. split_and!.
  - split; [by apply wf_waiting|]. intros Hcur.
    destruct (wf_current c Hwf _ _ Hcur) as (q' & Ha' & _ & _ & _ & Hp). by simplify_eq.
  - intros Hab client. unfold join. rewrite Ha. by destruct (wf_ended c Hwf a q Ha Hab) as [-> | ->].
  - intros o x Hx. exact (keeps_step c o Hwf a q x Ha Hx).
  - intros l. by apply wf_leases.
Qed.

(** A connection nobody wants is not kept: while no release finds terminals on the host, every
    acquisition in the map is held by at least one lease, so the release of the last one ends it. *)
Theorem acquisition_held os :
  Forall no_channels os →
  let c := run step new os in
  ∀ h a, acquisitions c !! h = Some a →
    ∃ l o, leaseObjs c !! l = Some o ∧ acqId o = a ∧ released o = false.
Proof.
  intros Hos c h a Ha.
  assert (wf c ∧ held c) as [Hwf Hh].
  { apply (run_invariant step no_channels (λ c, wf c ∧ held c)); [|done|].
    - intros c' o Ho [Hwf Hh]. split; [by apply acq_wf_step|by apply held_step].
    - split; [apply acq_wf_new|done]. }
  destruct (wf_current c Hwf h a Ha) as (q & Hq & _). specialize (Hh h a Ha).
  unfold leases_of in Hh. rewrite Hq in Hh. destruct (leases q) as [|l ls] eqn:Hl; [done|].
  exists l. apply (wf_leases c Hwf a q l Hq). rewrite Hl. by left.
Qed.

(** Releasing a lease: a second release does nothing; the first gives up that lease alone,
    unless it was the last of the acquisition still connecting its host and no terminal runs there.
    Then, and only then, it says so, and the acquisition is closing, aborted, rejected and out of
    the map. *)
Theorem release_correct c l o hasChannels :
  reachable new step c → leaseObjs c !! l = Some o →
  let a := acqId o in
  let r := release l hasChannels c in
  (released o = true → r = (false, c)) ∧
  (released o = false →
     (∃ o', leaseObjs r.2 !! l = Some o' ∧ released o' = true) ∧
     (r.1 = true ↔ acquisitions c !! lease_hostId o = Some a ∧ leases_of a r.2 = [] ∧
                   hasChannels = false) ∧
     if r.1
     then acquisitions r.2 !! lease_hostId o = None ∧
          ∃ q, acqs r.2 !! a = Some q ∧ state q = CLOSING ∧ aborted q = true ∧
               ∃ e, connectPromise q = Some (Rejected e)
     else acquisitions r.2 = acquisitions c).
Proof.
  intros Hwf%acq_reachable_wf Ho a r. split.
  { intros Hr. unfold r, release. by rewrite Ho, Hr. }
  intros Hr. unfold r. rewrite (release_eq l hasChannels o) by done. fold a.
  destruct (wf_lease_host c Hwf l o Ho) as (q & Hq & Hqh). fold a in Hq.
  unfold is_current. case_bool_decide as Hcur; cbn [andb negb fst snd].
  2:{ split_and!; [|by split; [|intros [? _]]|done]. eexists. split; [apply lookup_insert_eq|done]. }
  destruct (wf_current c Hwf _ _ Hcur) as (q' & Hq' & _ & _ & _ & Hp). simplify_eq.
  case_bool_decide as Hnil; [destruct hasChannels|]; cbn [andb negb fst snd].
  - split_and!; [|by split; [|intros (_ & _ & ?)]|done]. eexists. split; [apply lookup_insert_eq|done].
  - rewrite <- Hqh in Hcur |- *. rewrite close_retire. unfold retire.
    destruct (drop_current_other (acq_hostId q) a (with_acqs (alter (settle (Rejected
      "session abandoned: all spawn intents released with no channels") ∘
      (abort ∘ set_state CLOSING)) a) (let_go l o c))) as (Hacqs & Hls & _).
    unfold leases_of in *. rewrite Hacqs, Hls, lookup_drop_current. simpl in *.
    rewrite decide_True by done. fold a in Hnil. rewrite lookup_alter_eq, Hq in Hnil.
    fold a. rewrite !lookup_alter_eq, Hq.
    simpl in *. split_and!; [eexists; split; [apply lookup_insert_eq|done]|by split|done|].
    eexists. split; [done|]. simpl. rewrite Hp. eauto.
  - split_and!; [|by split; [|intros (_ & ? & _)]|done]. eexists. split; [apply lookup_insert_eq|done].
Qed.

(** Once the hub begins to quit nothing comes back: whatever finishes later, with a fence
    captured before or any other, no agent and no session is added to those there were, and a new
    start is refused its fence. *)
Theorem nothing_revived c os :
  let c' := run step (beginQuit c) os in
  (∀ h x, agents c' !! h = Some x → agents c !! h = Some x) ∧
  (∀ h x, sessions c' !! h = Some x → sessions c !! h = Some x) ∧
  captureQuitFence c' = None.
Proof.
  intros c'.
  assert (quitting c' = true ∧ (∀ h x, agents c' !! h = Some x → agents c !! h = Some x) ∧
    ∀ h x, sessions c' !! h = Some x → sessions c !! h = Some x) as (Hq & ? & ?).
  { apply (run_invariant step (λ _, True) (λ c', quitting c' = true ∧
      (∀ h x, agents c' !! h = Some x → agents c !! h = Some x) ∧
      ∀ h x, sessions c' !! h = Some x → sessions c !! h = Some x)); [|by apply Forall_true|].
    - intros c1 o _ (Hq & Ha & Hs).
      assert (quitting (step c1 o) = true ∧
        (agents (step c1 o) = agents c1 ∨ ∃ h, agents (step c1 o) = delete h (agents c1)) ∧
        (sessions (step c1 o) = sessions c1 ∨ ∃ h, sessions (step c1 o) = delete h (sessions c1)))
        as (? & Ha' & Hs').
      { destruct o as [h cl|a s|a e|l ch|h| |f h a|f h s|h|h|h on]; simpl.
        - unfold claim_host, join, acquire, add_lease. repeat case_match; simplify_eq; simpl; auto.
        - unfold commit, drop_current. repeat case_match; simpl; auto.
        - unfold fail, drop_current. repeat case_match; simpl; auto.
        - unfold release, close_acq, drop_current. repeat case_match; simpl; auto.
        - unfold close, close_acq, drop_current. repeat case_match; simpl; auto.
        - unfold beginQuit. rewrite Hq. auto.
        - unfold adoptAgent, assertQuitFence. rewrite Hq. simpl. auto.
        - unfold persistSession, assertQuitFence. rewrite Hq. simpl. auto.
        - split_and!; [done|right; by exists h|by left].
        - split_and!; [done|by left|right; by exists h].
        - auto. }
      split_and!; [done| |].
      + destruct Ha' as [->|[h ->]]; [done|]. intros h' x. rewrite js_lookup_delete.
        case_decide; [done|auto].
      + destruct Hs' as [->|[h ->]]; [done|]. intros h' x. rewrite js_lookup_delete.
        case_decide; [done|auto].
    - unfold beginQuit. destruct (quitting c) eqn:Hq; [auto|]. unfold shutdownAll.
      set (c0 := Build_Ctx _ _ _ _ _ _ _ _ _).
      destruct (foldl_shutdown (js_values (acquisitions c0)) c0) as (_ & _ & H1 & H2 & H3 & _).
      simpl in *. rewrite H1, H2, H3. auto. }
  split_and!; [done..|]. unfold captureQuitFence. by rewrite Hq.
Qed.
End properties.

(** ** Witnesses *)

Definition demo_ops : list op :=
  [Spawn "h" "a"; Spawn "h" "b"; Release 1 false; Close "h"; Fail 0 "connect aborted"; Spawn "h" "c"].

Lemma acquisition_safe_witness :
  let c := run step new demo_ops in
  acquisitions c !! "h" = Some 3 ∧ (state <$> acqs c !! 0) = Some FAILED ∧
  ∃ q, acqs c !! 3 = Some q ∧ acq_hostId q = "h" ∧ connecting q.
Proof.
  split; [reflexivity|]. split; [reflexivity|].
  apply (acquisition_safe (run step new demo_ops)); [|reflexivity].
  apply run_reachable. constructor.
Defined.

Lemma acquisition_held_witness :
  ∃ l o, leaseObjs (run step new demo_ops) !! l = Some o ∧ acqId o = 3 ∧ released o = false.
Proof.
  apply (acquisition_held demo_ops ltac:(by repeat constructor) "h" 3). reflexivity.
Defined.

Lemma release_correct_witness :
  let c := run step new [Spawn "h" "a"] in
  (release 1 false c).1 = true ∧ acquisitions (release 1 false c).2 !! "h" = None.
Proof.
  split; [reflexivity|].
  apply (release_correct (run step new [Spawn "h" "a"]) 1
    {| lease_hostId := "h"; acqId := 0; clientId := "a"; released := false |} false).
  - apply run_reachable. constructor.
  - reflexivity.
  - reflexivity.
Defined.
