(* ===== verification/PaneGeometry.v ===== *)
(** * Pane trees, and where their panes are on screen
      ([packages/clients/web/src/utils/pane-geometry.ts], and the [PaneNode] type of
       [composables/usePaneTree.ts])

    A tab's layout is a binary tree of splits over terminals and empty panes. The numbers are
    rationals: the rounding of floats, which [EPSILON] absorbs in the source, is not modelled. *)

From Stdlib Require Import QArith Qabs Qminmax Qround Lqa.
From stdpp Require Import sorting.
From S2P Require Import Prelude.
#[local] Open Scope lasterm_scope.

Inductive split_direction := horizontal | vertical.
#[export] Instance split_direction_eq_dec : EqDecision split_direction.
Proof. solve_decision. Defined.

Inductive PaneNode :=
| Terminal (channelId paneId : string)
| Vacant (id : string)
| Split (direction : split_direction) (ratio : Q) (first second : PaneNode).

Inductive Turn := First | Second.
#[export] Instance Turn_eq_dec : EqDecision Turn.
Proof. solve_decision. Defined.
Definition NodePath := list Turn.

Inductive PaneDirection := to_left | to_right | up | down.

Definition SPLIT_RATIO_MIN : Q := 1 # 10.
Definition SPLIT_RATIO_MAX : Q := 9 # 10.
Definition PANE_RESIZE_STEP : Q := 1 # 20.
Definition EPSILON : Q := 1 # 1000000000.

Definition clampSplitRatio (ratio : Q) : Q := Qmin SPLIT_RATIO_MAX (Qmax SPLIT_RATIO_MIN ratio).

Definition leafId (node : PaneNode) : option string :=
  match node with
  | Terminal _ paneId => Some paneId
  | Vacant id => Some id
  | Split _ _ _ _ => None
  end.

Record PaneLeaf := { leaf_id : string; leaf_node : PaneNode; leaf_path : NodePath }.

Fixpoint paneLeaves (root : PaneNode) (path : NodePath) : list PaneLeaf :=
  match root with
  | Split _ _ a b => paneLeaves a (path ++ [First]) ++ paneLeaves b (path ++ [Second])
  | leaf => [{| leaf_id := default EmptyString (leafId leaf); leaf_node := leaf; leaf_path := path |}]
  end.

Record Area := { left : Q; top : Q; right : Q; bottom : Q }.
Record PaneRect := { rect_id : string; rect : Area }.
Definition whole : Area := {| left := 0; top := 0; right := 1; bottom := 1 |}.

Fixpoint paneRects (root : PaneNode) (a : Area) : list PaneRect :=
  match root with
  | Split vertical ratio x y =>
      let edge := (left a + (right a - left a) * ratio)%Q in
      paneRects x {| left := left a; top := top a; right := edge; bottom := bottom a |} ++
      paneRects y {| left := edge; top := top a; right := right a; bottom := bottom a |}
  | Split horizontal ratio x y =>
      let edge := (top a + (bottom a - top a) * ratio)%Q in
      paneRects x {| left := left a; top := top a; right := right a; bottom := edge |} ++
      paneRects y {| left := left a; top := edge; right := right a; bottom := bottom a |}
  | leaf => [{| rect_id := default EmptyString (leafId leaf); rect := a |}]
  end.

Definition gap_of (from to : Area) (d : PaneDirection) : Q :=
  match d with
  | to_left => left from - right to
  | to_right => left to - right from
  | up => top from - bottom to
  | down => top to - bottom from
  end%Q.
Definition gapTowards (from to : Area) (d : PaneDirection) : option Q :=
  let gap := gap_of from to d in
  if Qle_bool (- EPSILON) gap then Some (Qmax 0 gap) else None.

Definition overlapAcross (a b : Area) (d : PaneDirection) : Q :=
  match d with
  | to_left | to_right => Qmin (bottom a) (bottom b) - Qmax (top a) (top b)
  | _ => Qmin (right a) (right b) - Qmax (left a) (left b)
  end%Q.

Definition Qlt_bool (x y : Q) : bool := negb (Qle_bool y x).

Record best := { best_id : string; best_gap : Q; best_overlap : Q }.
(** Whether a rectangle as far as [gap] and sharing [overlap] takes the place of [b]. *)
Definition better (gap overlap : Q) (b : option best) : bool :=
  match b with
  | None => true
  | Some b =>
      Qlt_bool gap (best_gap b - EPSILON) ||
      (Qle_bool (Qabs (gap - best_gap b)) EPSILON &&
       Qlt_bool (best_overlap b + EPSILON) overlap)
  end.

Definition consider (fromId : string) (from : Area) (d : PaneDirection) (b : option best)
  (r : PaneRect) : option best :=
  if bool_decide (rect_id r = fromId) then b
  else
    match gapTowards from (rect r) d with
    | None => b
    | Some gap =>
        let overlap := overlapAcross from (rect r) d in
        if Qle_bool overlap EPSILON then b
        else if better gap overlap b
        then Some {| best_id := rect_id r; best_gap := gap; best_overlap := overlap |}
        else b
    end.

Definition paneInDirection (root : PaneNode) (fromId : string) (d : PaneDirection)
  : option string :=
  let rects := paneRects root whole in
  match find_index (λ r, bool_decide (rect_id r = fromId)) rects with
  | None => None
  | Some i =>
      match rects !! i with
      | None => None
      | Some from => best_id <$> foldl (consider fromId (rect from) d) None rects
      end
  end.

Fixpoint nodeAt (root : PaneNode) (path : NodePath) {struct path} : option PaneNode :=
  match path with
  | [] => Some root
  | turn :: path' =>
      match root with
      | Split _ _ a b => nodeAt (match turn with First => a | Second => b end) path'
      | _ => None
      end
  end.

Definition axis_of (d : PaneDirection) : split_direction :=
  match d with to_left | to_right => vertical | _ => horizontal end.
Definition forward (d : PaneDirection) : bool :=
  match d with to_right | down => true | _ => false end.

(** The walk up from the leaf, deepest split first: the nearest divider on that side, or the
    nearest on the other. *)
Fixpoint divider_loop (root : PaneNode) (path : NodePath) (axis : split_direction)
  (turnOnThatSide : Turn) (depths : list nat) (fallback : option NodePath) : option NodePath :=
  match depths with
  | [] => fallback
  | depth :: depths' =>
      let splitPath := take depth path in
      match nodeAt root splitPath with
      | Some (Split d _ _ _) =>
          if decide (d = axis) then
            if decide (path !! depth = Some turnOnThatSide) then Some splitPath
            else divider_loop root path axis turnOnThatSide depths'
                   (Some (default splitPath fallback))
          else divider_loop root path axis turnOnThatSide depths' fallback
      | _ => divider_loop root path axis turnOnThatSide depths' fallback
      end
  end.

(** [Math.round(x * 1e6) / 1e6] *)
Definition round6 (x : Q) : Q := (inject_Z (Qfloor (x * 1000000 + (1 # 2))) / 1000000)%Q.

Definition resizeTowards (root : PaneNode) (paneId : string) (d : PaneDirection) (step : Q)
  : option (NodePath * Q) :=
  let leaves := paneLeaves root [] in
  match find_index (λ l, bool_decide (leaf_id l = paneId)) leaves with
  | None => None
  | Some i =>
      match leaves !! i with
      | None => None
      | Some leaf =>
          let path := leaf_path leaf in
          let turn := if forward d then First else Second in
          match divider_loop root path (axis_of d) turn (reverse (seq 0 (length path))) None with
          | None => None
          | Some p =>
              match nodeAt root p with
              | Some (Split _ ratio _ _) =>
                  let towards := if forward d then step else (- step)%Q in
                  Some (p, clampSplitRatio (round6 (ratio + towards)))
              | _ => None
              end
          end
      end
  end.

(** Every divider is where a mouse or a key can leave it. *)
Fixpoint ratios_ok (root : PaneNode) : Prop :=
  match root with
  | Split _ ratio a b =>
      (SPLIT_RATIO_MIN <= ratio <= SPLIT_RATIO_MAX)%Q ∧ ratios_ok a ∧ ratios_ok b
  | _ => True
  end.

(** ** Rectangles *)

Section rects.
#[local] Open Scope Q_scope.
Implicit Types (a b : Area) (root : PaneNode).

Definition area_of a : Q := (right a - left a) * (bottom a - top a).
Definition proper a : Prop := left a < right a ∧ top a < bottom a.
Definition inside a b : Prop :=
  left b <= left a ∧ right a <= right b ∧ top b <= top a ∧ bottom a <= bottom b.
(** No point is inside both. *)
Definition apart a b : Prop :=
  right a <= left b ∨ right b <= left a ∨ bottom a <= top b ∨ bottom b <= top a.
Definition total_area (rs : list PaneRect) : Q := foldr (λ r n, area_of (rect r) + n) 0 rs.

Lemma total_area_app rs1 rs2 : total_area (rs1 ++ rs2) == total_area rs1 + total_area rs2.
Proof. induction rs1 as [|r rs1 IH]; simpl; [lra|]. rewrite IH. lra. Qed.

Lemma edge_between (l r q : Q) : l < r → SPLIT_RATIO_MIN <= q <= SPLIT_RATIO_MAX →
  l < l + (r - l) * q < r.
Proof.
  unfold SPLIT_RATIO_MIN, SPLIT_RATIO_MAX. intros Hlr [H1 H2].
  assert (0 < (r - l) * q) by nra. assert (0 < (r - l) * (1 - q)) by nra. split; lra.
Qed.

Lemma inside_trans a b c : inside a b → inside b c → inside a c.
Proof. unfold inside. intros (?&?&?&?) (?&?&?&?). split_and!; lra. Qed.

Definition tiles (rs : list PaneRect) a : Prop :=
  Forall (λ r, proper (rect r) ∧ inside (rect r) a) rs ∧ total_area rs == area_of a ∧
  StronglySorted (λ r s, apart (rect r) (rect s)) rs.

(** Two tilings of parts of an area that lie apart tile it. *)
Lemma tiles_app rs1 rs2 a b c :
  tiles rs1 a → tiles rs2 b → inside a c → inside b c → area_of a + area_of b == area_of c →
  (∀ r s, inside r a → inside s b → apart r s) → tiles (rs1 ++ rs2) c.
Proof.
  intros (Hf1 & Ha1 & Hs1) (Hf2 & Ha2 & Hs2) Hac Hbc Hsum Hap. split_and!.
  - apply Forall_app. split; (eapply Forall_impl; [eassumption|]); intros r [? ?];
      (split; [done|]); eapply inside_trans; eauto.
  - rewrite total_area_app, Ha1, Ha2. done.
  - apply StronglySorted_app_2; [|done..]. intros r s Hr Hs. rewrite Forall_forall in Hf1, Hf2.
    apply Hap; [by apply Hf1|by apply Hf2].
Qed.

Lemma paneRects_tiles root a : ratios_ok root → proper a → tiles (paneRects root a) a.
Proof.
  revert a. induction root as [ch p|v|d q x IHx y IHy]; intros a Hr Ha.
  1,2: unfold tiles; simpl; split_and!; [|lra|repeat constructor];
    constructor; [split; [done|unfold inside; simpl; split_and!; lra]|constructor].
  destruct Hr as (Hq & Hx & Hy), Ha as [Hlr Htb]. simpl. destruct d.
  - pose proof (edge_between _ _ _ Htb Hq) as [He1 He2]. eapply tiles_app.
    + apply IHx; [done|]. split; simpl; done.
    + apply IHy; [done|]. split; simpl; done.
    + unfold inside. simpl. split_and!; lra.
    + unfold inside. simpl. split_and!; lra.
    + unfold area_of. simpl. ring.
    + unfold inside, apart. simpl. intros r s (?&?&?&?) (?&?&?&?). right. right. left. lra.
  - pose proof (edge_between _ _ _ Hlr Hq) as [He1 He2]. eapply tiles_app.
    + apply IHx; [done|]. split; simpl; done.
    + apply IHy; [done|]. split; simpl; done.
    + unfold inside. simpl. split_and!; lra.
    + unfold inside. simpl. split_and!; lra.
    + unfold area_of. simpl. ring.
    + unfold inside, apart. simpl. intros r s (?&?&?&?) (?&?&?&?). left. lra.
Qed.

Lemma paneRects_ids root a path :
  rect_id <$> paneRects root a = leaf_id <$> paneLeaves root path.
Proof.
  revert a path. induction root as [ch p|v|d q x IHx y IHy]; intros a path; [done..|].
  simpl. destruct d; rewrite !fmap_app; f_equal; eauto.
Qed.
End rects.

(** ** Clamping *)

Lemma clamp_bounds q : (SPLIT_RATIO_MIN <= clampSplitRatio q <= SPLIT_RATIO_MAX)%Q.
Proof.
  unfold clampSplitRatio. split.
  - apply Q.min_glb; [by compute|apply Q.le_max_l].
  - apply Q.le_min_l.
Qed.

Lemma clamp_inside q :
  (SPLIT_RATIO_MIN <= q <= SPLIT_RATIO_MAX)%Q → (clampSplitRatio q == q)%Q.
Proof.
  intros [H1 H2]. unfold clampSplitRatio. rewrite Q.max_r by done. by rewrite Q.min_r.
Qed.

(** ** Leaves and their paths *)

Section paths.
Implicit Types (root : PaneNode) (path : NodePath).

Lemma nodeAt_app root p1 p2 n : nodeAt root p1 = Some n → nodeAt root (p1 ++ p2) = nodeAt n p2.
Proof.
  revert root. induction p1 as [|t p1 IH]; intros root; simpl; [by intros [= ->]|].
  destruct root; try done. apply IH.
Qed.

Lemma paneLeaves_path root path l :
  l ∈ paneLeaves root path →
  ∃ p, leaf_path l = path ++ p ∧ nodeAt root p = Some (leaf_node l) ∧
    leafId (leaf_node l) = Some (leaf_id l).
Proof.
  revert path. induction root as [ch p|v|d q x IHx y IHy]; intros path; simpl.
  1,2: intros ->%list_elem_of_singleton; exists []; by rewrite app_nil_r.
  intros [(p & Hp & Hn & Hid)%IHx|(p & Hp & Hn & Hid)%IHy]%elem_of_app.
  - exists (First :: p). by rewrite Hp, <- app_assoc.
  - exists (Second :: p). by rewrite Hp, <- app_assoc.
Qed.

(** A split across [axis] the path goes through, [k] turns down. *)
Definition divides root path axis (k : nat) : Prop :=
  ∃ q a b, nodeAt root (take k path) = Some (Split axis q a b).

(** [k] is the deepest split above [n] for which [P] holds. *)
Definition deepest (P : nat → Prop) (n k : nat) : Prop :=
  k < n ∧ P k ∧ ∀ k', k < k' < n → ¬ P k'.
Definition on_side root path axis turn (k : nat) : Prop :=
  divides root path axis k ∧ path !! k = Some turn.

Lemma deepest_S (P : nat → Prop) n k : ¬ P n → deepest P n k → deepest P (S n) k.
Proof.
  intros Hn (Hk & Hp & Hmax). split_and!; [lia|done|]. intros k' Hk'.
  destruct (decide (k' = n)) as [->|]; [done|]. apply Hmax. lia.
Qed.

Lemma deepest_here (P : nat → Prop) n : P n → deepest P (S n) n.
Proof. intros HP. split_and!; [lia|done|]. intros k'. lia. Qed.

Lemma none_S (P : nat → Prop) n : ¬ P n → (∀ k, k < n → ¬ P k) → ∀ k, k < S n → ¬ P k.
Proof. intros Hn Hno k Hk. destruct (decide (k = n)) as [->|]; [done|]. apply Hno. lia. Qed.

Definition found root path axis turn n (fallback r : option NodePath) : Prop :=
  match r with
  | Some p =>
      (∃ k, p = take k path ∧ deepest (on_side root path axis turn) n k) ∨
      (∀ k, k < n → ¬ on_side root path axis turn k) ∧
      (fallback = Some p ∨
       fallback = None ∧ ∃ k, p = take k path ∧ deepest (divides root path axis) n k)
  | None => fallback = None ∧ ∀ k, k < n → ¬ divides root path axis k
  end.

Lemma found_skip root path axis turn n fallback r :
  ¬ divides root path axis n → found root path axis turn n fallback r →
  found root path axis turn (S n) fallback r.
Proof.
  intros Hn. assert (¬ on_side root path axis turn n) as Hs by (intros [? _]; done).
  destruct r as [p|]; simpl; [|intros [? ?]; split; eauto using none_S].
  intros [(k & ? & ?)|[? [?|(? & k & ? & ?)]]]; [left|right; split|right; split];
    eauto 7 using none_S, deepest_S.
Qed.

Lemma divider_loop_spec root path axis turn n fallback :
  found root path axis turn n fallback
    (divider_loop root path axis turn (reverse (seq 0 n)) fallback).
Proof.
  revert fallback. induction n as [|n IH]; intros fallback.
  { destruct fallback; simpl; [right; split; [lia|by left]|split; [done|lia]]. }
  rewrite seq_S, reverse_app.
  change (reverse [0 + n] ++ reverse (seq 0 n)) with (n :: reverse (seq 0 n)). cbn [divider_loop].
  destruct (nodeAt root (take n path)) as [[ch p|v|d q a b]|] eqn:Hnode.
  1,2,4: apply found_skip, IH; unfold divides; rewrite Hnode; by intros (?&?&?&?).
  destruct (decide (d = axis)) as [->|Hd].
  2: apply found_skip, IH; unfold divides; rewrite Hnode; by intros (?&?&?&[= ? ? ?]).
  assert (divides root path axis n) as Hdn by (unfold divides; rewrite Hnode; eauto).
  destruct (decide (path !! n = Some turn)) as [Ht|Ht].
  { left. exists n. split; [done|]. by apply deepest_here. }
  assert (¬ on_side root path axis turn n) as Hs by (by intros [_ ?]).
  pose proof (IH (Some (default (take n path) fallback))) as Hf.
  match goal with |- found _ _ _ _ _ _ ?r => destruct r as [p|] end; [|by destruct Hf].
  destruct Hf as [(k & ? & ?)|[? [Hf|[[=] _]]]]; [left|right; split]; eauto using none_S, deepest_S.
  destruct fallback as [fp|]; simplify_eq/=; [by left|right].
  split; [done|]. exists n. split; [done|]. by apply deepest_here.
Qed.
End paths.

(** ** The nearest pane on a side *)

Section nearest.
#[local] Open Scope Q_scope.
Context (fromId : string) (from : Area) (d : PaneDirection).
Implicit Types (r : PaneRect) (rs : list PaneRect).

(** The panes an arrow can reach: other ones, on that side, with a stretch of the side in
    common. *)
Definition candidate r : Prop :=
  rect_id r ≠ fromId ∧ - EPSILON <= gap_of from (rect r) d ∧
  EPSILON < overlapAcross from (rect r) d.

(** The best of the rectangles seen so far is one of the candidates among them, and none of them
    is nearer than it by more than the rounding allowance per rectangle. *)
Definition best_of rs (b : option best) : Prop :=
  match b with
  | None => ∀ r, r ∈ rs → ¬ candidate r
  | Some b =>
      ∃ r, r ∈ rs ∧ candidate r ∧ best_id b = rect_id r ∧
        best_gap b == Qmax 0 (gap_of from (rect r) d) ∧
        ∀ s, s ∈ rs → candidate s →
          best_gap b <= Qmax 0 (gap_of from (rect s) d) + inject_Z (Z.of_nat (length rs)) * EPSILON
  end.

Lemma Qle_bool_false x y : Qle_bool x y = false → y < x.
Proof. intros H. apply Qnot_le_lt. rewrite <- Qle_bool_iff, H. done. Qed.

Lemma Qlt_bool_true x y : Qlt_bool x y = true → x < y.
Proof. unfold Qlt_bool. intros H%negb_true_iff. by apply Qle_bool_false. Qed.

Lemma Qlt_bool_false x y : Qlt_bool x y = false → y <= x.
Proof. unfold Qlt_bool. intros H%negb_false_iff. by apply Qle_bool_iff. Qed.

Lemma allowance rs r :
  inject_Z (Z.of_nat (length (rs ++ [r]))) * EPSILON == inject_Z (Z.of_nat (length rs)) * EPSILON + EPSILON.
Proof.
  rewrite length_app. simpl. rewrite Nat2Z.inj_add, inject_Z_plus.
  change (inject_Z (Z.of_nat 1)) with 1. ring.
Qed.

(** A rectangle that is not a candidate changes nothing. *)
Lemma best_of_skip rs r b : ¬ candidate r → best_of rs b → best_of (rs ++ [r]) b.
Proof.
  intros Hr. assert (0 < EPSILON) by done.
  assert (∀ s, s ∈ rs ++ [r] → candidate s → s ∈ rs) as Hin.
  { by intros s [?| ->%list_elem_of_singleton]%elem_of_app ?. }
  destruct b as [b|]; simpl; [|intros Hb s Hs Hc; apply (Hb s); eauto].
  intros (r0 & Hr0 & Hc & Hid & Hg & Hmin). exists r0.
  split_and!; [by apply elem_of_app; left|done..|].
  intros s Hs Hcs. rewrite allowance. specialize (Hmin s (Hin s Hs Hcs) Hcs). lra.
Qed.

Lemma best_of_step rs r b : best_of rs b → best_of (rs ++ [r]) (consider fromId from d b r).
Proof.
  intros Hb. unfold consider, gapTowards. assert (0 < EPSILON) as Heps by done.
  case_bool_decide as Hid; [apply best_of_skip; [by intros [? _]|done]|].
  destruct (Qle_bool (- EPSILON) _) eqn:Hgap.
  2: apply Qle_bool_false in Hgap; apply best_of_skip; [intros (_ & ? & _); lra|done].
  destruct (Qle_bool (overlapAcross _ _ _) _) eqn:Hov.
  1: apply Qle_bool_iff in Hov; apply best_of_skip; [intros (_ & _ & ?); lra|done].
  apply Qle_bool_iff in Hgap. apply Qle_bool_false in Hov.
  assert (candidate r) as Hr by done.
  set (g := Qmax 0 (gap_of from (rect r) d)) in *.
  assert (0 <= inject_Z (Z.of_nat (length rs)) * EPSILON) as Hall.
  { apply Qmult_le_0_compat; [|by apply Qlt_le_weak]. change 0 with (inject_Z 0).
    rewrite <- Zle_Qle. lia. }
  destruct b as [b|]; cbn [better].
  2:{ exists r. split_and!; [apply elem_of_app; right; by left|done..|].
      intros s [Hs| ->%list_elem_of_singleton]%elem_of_app Hcs; [by destruct (Hb s)|].
      rewrite allowance. cbn [best_gap]. fold g. lra. }
  destruct Hb as (r0 & Hr0 & Hc0 & Hid0 & Hg0 & Hmin).
  destruct (Qlt_bool g _ || _) eqn:Hbetter.
  - assert (g <= best_gap b + EPSILON) as Hnear.
    { apply orb_true_iff in Hbetter as [Hlt%Qlt_bool_true|[Habs _]%andb_true_iff]; [lra|].
      rewrite Qle_bool_iff, Qabs_Qle_condition in Habs. lra. }
    exists r. split_and!; [apply elem_of_app; right; by left|done..|].
    intros s Hs Hcs. cbn [best_gap]. rewrite allowance.
    apply elem_of_app in Hs as [Hs| ->%list_elem_of_singleton]; [|fold g; lra].
    specialize (Hmin s Hs Hcs). lra.
  - apply orb_false_iff in Hbetter as [Hge%Qlt_bool_false _].
    exists r0. split_and!; [by apply elem_of_app; left|done..|].
    intros s Hs Hcs. rewrite allowance.
    apply elem_of_app in Hs as [Hs| ->%list_elem_of_singleton]; [|fold g; lra].
    specialize (Hmin s Hs Hcs). lra.
Qed.

Lemma best_of_foldl rs : best_of rs (foldl (consider fromId from d) None rs).
Proof.
  induction rs as [|r rs IH] using rev_ind; [by intros r Hr; inversion Hr|].
  rewrite foldl_app. simpl. by apply best_of_step.
Qed.
End nearest.

(** ** Properties *)

(** The rectangles of a tab's panes tile it, whatever the tree, as long as its dividers are
    within the clamping bounds: one per leaf and in tree order, each of a positive width and
    height and inside the tab, no two sharing a point inside them, their areas adding up to the
    tab's. *)
Theorem panes_tile_the_tab root :
  ratios_ok root →
  rect_id <$> paneRects root whole = leaf_id <$> paneLeaves root [] ∧
  Forall (λ r, proper (rect r) ∧ inside (rect r) whole) (paneRects root whole) ∧
  StronglySorted (λ r s, apart (rect r) (rect s)) (paneRects root whole) ∧
  (total_area (paneRects root whole) == 1)%Q.
Proof.
  intros Hr. destruct (paneRects_tiles root whole Hr ltac:(done)) as (Hf & Ha & Hs).
  split_and!; [apply paneRects_ids|done|done|]. rewrite Ha. done.
Qed.

Definition two_over_one : PaneNode :=
  Split horizontal (1 # 2) (Split vertical (3 # 10) (Terminal "c1" "p1") (Terminal "c2" "p2"))
    (Vacant "v").

Lemma panes_tile_the_tab_witness : (total_area (paneRects two_over_one whole) == 1)%Q.
Proof.
  refine (proj2 (proj2 (proj2 (panes_tile_the_tab two_over_one _)))).
  repeat split; unfold Qle; simpl; lia.
Defined.

(** Where an arrow moves the focus. From a pane of the tab it goes to another pane, on that
    side and with a stretch of the side in common, and no such pane is nearer (up to the rounding
    allowance, once per pane looked at); it stays when there is none; from an id that is no pane
    of the tab it goes nowhere. *)
Theorem arrow_goes_to_nearest root fromId d :
  let rects := paneRects root whole in
  match find_index (λ r, bool_decide (rect_id r = fromId)) rects ≫= λ i, rects !! i with
  | None => paneInDirection root fromId d = None ∧ ∀ r, r ∈ rects → rect_id r ≠ fromId
  | Some from =>
      match paneInDirection root fromId d with
      | None => ∀ r, r ∈ rects → ¬ candidate fromId (rect from) d r
      | Some id =>
          ∃ r, r ∈ rects ∧ rect_id r = id ∧ candidate fromId (rect from) d r ∧
            ∀ s, s ∈ rects → candidate fromId (rect from) d s →
              (Qmax 0 (gap_of (rect from) (rect r) d) <=
               Qmax 0 (gap_of (rect from) (rect s) d) +
               inject_Z (Z.of_nat (length rects)) * EPSILON)%Q
      end
  end.
Proof.
  simpl. unfold paneInDirection.
  destruct (find_index _ (paneRects root whole)) as [i|] eqn:Hi; simpl.
  - destruct (find_index_Some _ _ _ Hi) as (from & Hl & _ & _). rewrite Hl.
    pose proof (best_of_foldl fromId (rect from) d (paneRects root whole)) as Hb.
    destruct (foldl _ None _) as [b|]; simpl; [|exact Hb].
    destruct Hb as (r & Hr & Hc & Hid & Hg & Hmin). exists r. split_and!; [done..|].
    intros s Hs Hcs. rewrite <- Hg. by apply Hmin.
  - split; [done|]. intros r Hr Hid. apply find_index_None in Hi.
    rewrite Forall_forall in Hi. specialize (Hi r Hr). by rewrite bool_decide_true in Hi.
Qed.

(** Alt+Shift+arrow. It moves a divider that runs across the arrow's axis, belongs to a split
    the pane is in, and is the nearest one on the arrow's side, or the nearest of the other side
    when there is none; it leaves it within the bounds a mouse can drag it to; and it does
    nothing exactly when the pane is not in the tab or no divider runs across that axis. *)
Theorem resize_moves_nearest_divider root paneId d step :
  let leaves := paneLeaves root [] in
  match find_index (λ l, bool_decide (leaf_id l = paneId)) leaves ≫= λ i, leaves !! i with
  | None => resizeTowards root paneId d step = None
  | Some l =>
      let axis := divides root (leaf_path l) (axis_of d) in
      let side := on_side root (leaf_path l) (axis_of d) (if forward d then First else Second) in
      let n := length (leaf_path l) in
      match resizeTowards root paneId d step with
      | None => ∀ k, k < n → ¬ axis k
      | Some (p, r) =>
          (SPLIT_RATIO_MIN <= r <= SPLIT_RATIO_MAX)%Q ∧
          ∃ k q a b, p = take k (leaf_path l) ∧
            nodeAt root p = Some (Split (axis_of d) q a b) ∧
            r = clampSplitRatio (round6 (q + if forward d then step else - step)) ∧
            (deepest side n k ∨ (∀ k', k' < n → ¬ side k') ∧ deepest axis n k)
      end
  end.
Proof.
  simpl. unfold resizeTowards. destruct (find_index _ _) as [i|] eqn:Hi; [|done]. simpl.
  destruct (paneLeaves root [] !! i) as [l|]; [|done].
  set (turn := if forward d then First else Second).
  pose proof (divider_loop_spec root (leaf_path l) (axis_of d) turn (length (leaf_path l)) None).
  destruct (divider_loop _ _ _ _ _ _) as [p|]; simpl in *; [|by break].
  assert (∃ k, p = take k (leaf_path l) ∧ divides root (leaf_path l) (axis_of d) k ∧
    (deepest (on_side root (leaf_path l) (axis_of d) turn) (length (leaf_path l)) k ∨
     (∀ k', k' < length (leaf_path l) → ¬ on_side root (leaf_path l) (axis_of d) turn k') ∧
     deepest (divides root (leaf_path l) (axis_of d)) (length (leaf_path l)) k)) as Hk.
  { destruct H as [(k & Hp & Hd)|(Hno & [[=]|(_ & k & Hp & Hd)])]; exists k; split_and!;
      [done|apply Hd|by left|done|apply Hd|by right]. }
  destruct Hk as (k & -> & (q & a & b & Hn) & Hwhere). rewrite Hn.
  split; [apply clamp_bounds|]. by exists k, q, a, b.
Qed.
