(* ===== verification/PaneTree.v ===== *)
(** * The panes of the tabs
      ([packages/clients/web/src/composables/usePaneTree.ts])

    The tab bar, the layout tree of each tab and the pane the focus is on in each, with the
    operations on panes. The two records of the source are ECMAScript objects keyed by tab id
    ([JsMap]); [generateId]'s results are arguments of the operations that call it. *)

From Stdlib Require Import QArith.
From stdpp Require Import sorting.
From S2P Require Import Prelude JsMap PaneGeometry.
#[local] Open Scope lasterm_scope.
#[local] Open Scope nat_scope.

(** ** Walking a layout tree *)

Fixpoint countLeaves (node : PaneNode) : nat :=
  match node with
  | Split _ _ a b => countLeaves a + countLeaves b
  | _ => 1
  end.

Fixpoint findFirstLeafPaneId (node : PaneNode) : option string :=
  match node with
  | Terminal _ paneId => Some paneId
  | Vacant _ => None
  | Split _ _ a b =>
      match findFirstLeafPaneId a with Some p => Some p | None => findFirstLeafPaneId b end
  end.

Fixpoint findChannelByPaneId (node : PaneNode) (paneId : string) : option string :=
  match node with
  | Terminal ch p => if decide (p = paneId) then Some ch else None
  | Vacant _ => None
  | Split _ _ a b =>
      match findChannelByPaneId a paneId with
      | Some ch => Some ch
      | None => findChannelByPaneId b paneId
      end
  end.

Fixpoint countPanes (node : PaneNode) : nat :=
  match node with
  | Terminal _ _ | Vacant _ => 1
  | Split _ _ a b => countPanes a + countPanes b
  end.

Fixpoint collectTerminalChannelIds (node : PaneNode) : list string :=
  match node with
  | Terminal ch _ => [ch]
  | Vacant _ => []
  | Split _ _ a b => collectTerminalChannelIds a ++ collectTerminalChannelIds b
  end.

Fixpoint setNodeAtPath (root : PaneNode) (path : NodePath) (node : PaneNode) {struct path}
  : PaneNode :=
  match path with
  | [] => node
  | head :: rest =>
      match root with
      | Split d q a b =>
          match head with
          | First => Split d q (setNodeAtPath a rest node) b
          | Second => Split d q a (setNodeAtPath b rest node)
          end
      | _ => root
      end
  end.

Fixpoint getNodeAtPath (root : PaneNode) (path : NodePath) {struct path} : option PaneNode :=
  match path with
  | [] => Some root
  | head :: rest =>
      match root with
      | Split _ _ a b => getNodeAtPath (match head with First => a | Second => b end) rest
      | _ => None
      end
  end.

(** The answer of a search in two subtrees, the first one asked first. *)
Definition in_first_or_second (inFirst inSecond : option NodePath) : option NodePath :=
  match inFirst with
  | Some p => Some (First :: p)
  | None => match inSecond with Some p => Some (Second :: p) | None => None end
  end.

Fixpoint findChannelPath (root : PaneNode) (channelId : string) : option NodePath :=
  match root with
  | Terminal ch _ => if decide (ch = channelId) then Some [] else None
  | Vacant _ => None
  | Split _ _ a b => in_first_or_second (findChannelPath a channelId) (findChannelPath b channelId)
  end.

Fixpoint findVacantPath (root : PaneNode) (vacantId : string) : option NodePath :=
  match root with
  | Vacant id => if decide (id = vacantId) then Some [] else None
  | Terminal _ _ => None
  | Split _ _ a b => in_first_or_second (findVacantPath a vacantId) (findVacantPath b vacantId)
  end.

Definition getLeafId (node : PaneNode) : option string :=
  match node with
  | Terminal _ paneId => Some paneId
  | Vacant id => Some id
  | Split _ _ _ _ => None
  end.

Fixpoint findNodePathByPaneId (root : PaneNode) (paneId : string) : option NodePath :=
  if decide (getLeafId root = Some paneId) then Some []
  else
    match root with
    | Split _ _ a b =>
        in_first_or_second (findNodePathByPaneId a paneId) (findNodePathByPaneId b paneId)
    | _ => None
    end.

Fixpoint replaceInTree (node : PaneNode) (oldId newId : string) : PaneNode :=
  match node with
  | Terminal ch p => if decide (ch = oldId) then Terminal newId p else node
  | Vacant _ => node
  | Split d q a b => Split d q (replaceInTree a oldId newId) (replaceInTree b oldId newId)
  end.

Fixpoint replaceTerminalNode (node : PaneNode) (channelId : string) (replacement : PaneNode)
  : option PaneNode :=
  match node with
  | Terminal ch _ => if decide (ch = channelId) then Some replacement else None
  | Vacant _ => None
  | Split d q a b =>
      match replaceTerminalNode a channelId replacement with
      | Some a' => Some (Split d q a' b)
      | None =>
          match replaceTerminalNode b channelId replacement with
          | Some b' => Some (Split d q a b')
          | None => None
          end
      end
  end.

Fixpoint replaceNodeByPaneId (node : PaneNode) (paneId : string) (replacement : PaneNode)
  : option PaneNode :=
  if decide (getLeafId node = Some paneId) then Some replacement
  else
    match node with
    | Split d q a b =>
        match replaceNodeByPaneId a paneId replacement with
        | Some a' => Some (Split d q a' b)
        | None =>
            match replaceNodeByPaneId b paneId replacement with
            | Some b' => Some (Split d q a b')
            | None => None
            end
        end
    | _ => None
    end.

(** The tree without the leaf at [path], its sibling in their split's place: the code
    [unsplitPane], [rearrangeVacant] and [closePane] share. *)
Definition collapse (root : PaneNode) (path : NodePath) : option PaneNode :=
  match last path with
  | None => None
  | Some lastTurn =>
      let parentPath := take (length path - 1) path in
      match getNodeAtPath root parentPath with
      | Some (Split _ _ a b) =>
          let sibling := match lastTurn with First => b | Second => a end in
          Some (match parentPath with
                | [] => sibling
                | _ => setNodeAtPath root parentPath sibling
                end)
      | _ => None
      end
  end.

(** ** Which host a tab belongs to, and what it is called *)

Fixpoint host_loop (channelHostMap : jsmap string string) (hostId : string)
  (channelIds : list string) (anyKnown : bool) : bool :=
  match channelIds with
  | [] => negb anyKnown
  | channelId :: rest =>
      match channelHostMap !! channelId with
      | None => host_loop channelHostMap hostId rest anyKnown
      | Some host =>
          if decide (host = hostId) then true else host_loop channelHostMap hostId rest true
      end
  end.

Definition tabIsOnHost (tabId : string) (layouts : jsmap string (option PaneNode))
  (channelHostMap : jsmap string string) (hostId : string) : bool :=
  match mjoin (layouts !! tabId) with
  | None => true
  | Some root =>
      match collectTerminalChannelIds root with
      | [] => true
      | channelIds => host_loop channelHostMap hostId channelIds false
      end
  end.

Definition DEFAULT_CHANNEL_NAME : string := "Terminal".
Definition EMPTY_TAB_LABEL : string := "New tab".

(** [channels] are the ids and display titles of the host in view; [index] names the others. *)
Definition resolveTabLabel (channelId : string) (channels : list (string * option string))
  (index : option (jsmap string string)) : string :=
  match find_index (λ c : string * option string, bool_decide (c.1 = channelId)) channels
        ≫= λ i, channels !! i with
  | Some channel => default DEFAULT_CHANNEL_NAME channel.2
  | None =>
      match index ≫= λ m, m !! channelId with
      | Some indexed => if truthy indexed then indexed else DEFAULT_CHANNEL_NAME
      | None => DEFAULT_CHANNEL_NAME
      end
  end.

(** ** The shared state *)

(** A tab is a record of its id alone. *)
Notation Tab := string (only parsing).

Record state := State {
  tabs : list Tab;
  activeTabIndex : Z;
  layouts : jsmap string (option PaneNode);
  activePaneIds : jsmap string string;
}.

Definition set_tabs v s := State v (activeTabIndex s) (layouts s) (activePaneIds s).
Definition set_active v s := State (tabs s) v (layouts s) (activePaneIds s).
Definition set_layouts v s := State (tabs s) (activeTabIndex s) v (activePaneIds s).
Definition set_panes v s := State (tabs s) (activeTabIndex s) (layouts s) v.

(** [l[i]], undefined out of range. *)
Definition js_at {A} (l : list A) (i : Z) : option A :=
  if (0 <=? i)%Z then l !! Z.to_nat i else None.

Definition activeTab (s : state) : option Tab := js_at (tabs s) (activeTabIndex s).
(** A tab's tree; null and undefined are the same to every reader. *)
Definition tab_root (s : state) (tabId : string) : option PaneNode := mjoin (layouts s !! tabId).
Definition put_root (tabId : string) (root : PaneNode) (s : state) : state :=
  set_layouts (<[tabId := Some root]> (layouts s)) s.

Definition layout (s : state) : option PaneNode := activeTab s ≫= tab_root s.

Definition getActiveChannelId (s : state) (tabId : string) : option string :=
  match tab_root s tabId with
  | None => None
  | Some root =>
      let fallback := findChannelByPaneId root (default EmptyString (findFirstLeafPaneId root)) in
      match activePaneIds s !! tabId with
      | Some paneId =>
          match findChannelByPaneId root paneId with
          | Some ch => Some ch
          | None => fallback
          end
      | None => fallback
      end
  end.

Definition getTabLabel (s : state) (tabId : string) (channels : list (string * option string))
  (channelIndex : option (jsmap string string)) : string :=
  match getActiveChannelId s tabId with
  | None => EMPTY_TAB_LABEL
  | Some channelId => resolveTabLabel channelId channels channelIndex
  end.

Definition setActivePaneId (tabId paneId : string) (s : state) : state :=
  set_panes (<[tabId := paneId]> (activePaneIds s)) s.

Definition setLayout (node : option PaneNode) (s : state) : state :=
  match activeTab s with
  | None => s
  | Some tab => set_layouts (<[tab := node]> (layouts s)) s
  end.

(** The operations that begin by reading the tree of the tab in front. *)
Definition on_active {R} (s : state) (no : R) (f : Tab → PaneNode → R) : R :=
  match activeTab s with
  | None => no
  | Some tab => match tab_root s tab with None => no | Some root => f tab root end
  end.

(** ** Operations *)

Definition MAX_PANE_COUNT : nat := 4.
Inductive split_outcome := did_split | at_limit | not_found.

Definition splitPane (channelId : string) (direction : split_direction) (limit : nat)
  (newId : string) (s : state) : state * split_outcome :=
  on_active s (s, not_found) (λ tab root,
    if limit <=? countLeaves root then (s, at_limit)
    else
      match findChannelPath root channelId with
      | None => (s, not_found)
      | Some path =>
          match getNodeAtPath root path with
          | None => (s, not_found)
          | Some existingNode =>
              let splitNode := Split direction (1 # 2) existingNode (Vacant newId) in
              (put_root tab (setNodeAtPath root path splitNode) s, did_split)
          end
      end).

Definition unsplitPane (channelId : string) (s : state) : state :=
  on_active s s (λ tab root,
    match findChannelPath root channelId with
    | None | Some [] => s
    | Some path =>
        match collapse root path with
        | None => s
        | Some newRoot => put_root tab newRoot s
        end
    end).

Definition updateRatio (splitNodePath : NodePath) (ratio : Q) (s : state) : state :=
  on_active s s (λ tab root,
    match getNodeAtPath root splitNodePath with
    | Some (Split d _ a b) =>
        let updated := Split d (clampSplitRatio ratio) a b in
        put_root tab (setNodeAtPath root splitNodePath updated) s
    | _ => s
    end).

Definition replaceChannelId (oldId newId : string) (s : state) : state :=
  set_layouts
    (JsMap ((λ kt : string * option PaneNode, (kt.1, (λ tree, replaceInTree tree oldId newId) <$> kt.2)) <$>
              entries (layouts s))) s.

(** The focus of a tab whose pane showing [channelId] went: on to the first terminal left. *)
Definition refocus (tabId channelId : string) (root updated : PaneNode) (s : state) : state :=
  match activePaneIds s !! tabId with
  | None => s
  | Some activePaneId =>
      if decide (findChannelByPaneId root activePaneId = Some channelId) then
        match findFirstLeafPaneId updated with
        | Some newActive => set_panes (<[tabId := newActive]> (activePaneIds s)) s
        | None => set_panes (delete tabId (activePaneIds s)) s
        end
      else s
  end.

Definition vacatePaneInTab (tabId channelId newId : string) (s : state) : state :=
  match tab_root s tabId with
  | None => s
  | Some root =>
      match replaceTerminalNode root channelId (Vacant newId) with
      | None => s
      | Some updated => s |> put_root tabId updated |> refocus tabId channelId root updated
      end
  end.

Definition vacatePane (channelId newId : string) (s : state) : state :=
  match activeTab s with
  | None => s
  | Some tab => vacatePaneInTab tab channelId newId s
  end.

Definition detachPane := vacatePane.

(** [fillVacant]'s tabs, the one in front first. *)
Definition fill_order (s : state) : list Tab :=
  match activeTab s with
  | None => tabs s
  | Some active => active :: filter (λ id, id ≠ active) (tabs s)
  end.

Fixpoint fill_loop (vacantId channelId newPaneId : string) (tabIds : list Tab) (s : state)
  : state * option Tab :=
  match tabIds with
  | [] => (s, None)
  | tabId :: rest =>
      match tab_root s tabId ≫= λ root, (λ path, (root, path)) <$> findVacantPath root vacantId with
      | None => fill_loop vacantId channelId newPaneId rest s
      | Some (root, path) =>
          let newRoot := setNodeAtPath root path (Terminal channelId newPaneId) in
          (s |> put_root tabId newRoot |> setActivePaneId tabId newPaneId, Some tabId)
      end
  end.

Definition fillVacant (vacantId channelId newPaneId : string) (s : state)
  : state * option Tab :=
  fill_loop vacantId channelId newPaneId (fill_order s) s.

Definition rearrangeVacant (vacantId : string) (s : state) : state :=
  on_active s s (λ tab root,
    match findVacantPath root vacantId with
    | None | Some [] => s
    | Some path =>
        match collapse root path with
        | None => s
        | Some newRoot => put_root tab newRoot s
        end
    end).

Definition holds_channel (channelId : string) (root : option PaneNode) : bool :=
  match root with
  | Some r => match findChannelPath r channelId with Some _ => true | None => false end
  | None => false
  end.

Definition findTabForChannel (s : state) (channelId : string) : option Tab :=
  let first_match :=
    find_index (λ kt : string * option PaneNode, holds_channel channelId kt.2)
      (entries (layouts s)) ≫= λ i, fst <$> entries (layouts s) !! i in
  match activeTab s with
  | Some active =>
      if holds_channel channelId (tab_root s active) then Some active else first_match
  | None => first_match
  end.

Definition closePane (channelId newId : string) (s : state) : state :=
  match findTabForChannel s channelId with
  | None => s
  | Some tab =>
      match tab_root s tab with
      | None => s
      | Some root =>
          match findChannelPath root channelId with
          | None => s
          | Some [] =>
              s |> put_root tab (Vacant newId)
                |> (λ s, set_panes (delete tab (activePaneIds s)) s)
          | Some path =>
              match collapse root path with
              | None => s
              | Some newRoot => s |> put_root tab newRoot |> refocus tab channelId root newRoot
              end
          end
      end
  end.

Inductive DropZone := zone_left | zone_right | zone_top | zone_bottom | zone_center.

Definition zone_direction (z : DropZone) : split_direction :=
  match z with zone_left | zone_right => vertical | _ => horizontal end.

(** The split a drop makes of the pane it lands on. *)
Definition drop_split (zone : DropZone) (sourceNode existingNode : PaneNode) : PaneNode :=
  match zone with
  | zone_left | zone_top => Split (zone_direction zone) (1 # 2) sourceNode existingNode
  | _ => Split (zone_direction zone) (1 # 2) existingNode sourceNode
  end.

Definition movePaneTo (sourceChannelId targetPaneId targetTabId : string) (zone : DropZone)
  (vacantId newSourcePaneId : string) (s : state) : state :=
  match findTabForChannel s sourceChannelId with
  | None => s
  | Some sourceTabKey =>
      let s := vacatePaneInTab sourceTabKey sourceChannelId vacantId s in
      match tab_root s targetTabId with
      | None => s
      | Some targetRoot =>
          let sourceNode := Terminal sourceChannelId newSourcePaneId in
          let landed :=
            match zone with
            | zone_center => replaceNodeByPaneId targetRoot targetPaneId sourceNode
            | _ =>
                match findNodePathByPaneId targetRoot targetPaneId with
                | None => None
                | Some targetPath =>
                    match getNodeAtPath targetRoot targetPath with
                    | None => None
                    | Some existingNode =>
                        Some (setNodeAtPath targetRoot targetPath
                                (drop_split zone sourceNode existingNode))
                    end
                end
            end in
          match landed with
          | None => s
          | Some updated =>
              s |> put_root targetTabId updated |> setActivePaneId targetTabId newSourcePaneId
          end
      end
  end.

(** ** A tree as its leaves *)

Fixpoint leaf_nodes (node : PaneNode) : list PaneNode :=
  match node with
  | Split _ _ a b => leaf_nodes a ++ leaf_nodes b
  | leaf => [leaf]
  end.

Definition is_leaf (node : PaneNode) : Prop :=
  match node with Split _ _ _ _ => False | _ => True end.
Definition channel_of (node : PaneNode) : option string :=
  match node with Terminal ch _ => Some ch | _ => None end.
Definition pane_of (node : PaneNode) : option string :=
  match node with Terminal _ p => Some p | _ => None end.

(** The search the three searches of the source are instances of. *)
Fixpoint find_leaf (P : PaneNode → bool) (root : PaneNode) : option NodePath :=
  match root with
  | Split _ _ a b => in_first_or_second (find_leaf P a) (find_leaf P b)
  | leaf => if P leaf then Some [] else None
  end.

Definition shows (ch : string) (n : PaneNode) : bool := bool_decide (channel_of n = Some ch).
Definition is_vacant (id : string) (n : PaneNode) : bool :=
  match n with Vacant i => bool_decide (i = id) | _ => false end.
Definition has_id (id : string) (n : PaneNode) : bool :=
  if decide (getLeafId n = Some id) then true else false.

Section trees.
Implicit Types (root n r : PaneNode) (path : NodePath) (P : PaneNode → bool).

Lemma countPanes_leaves root : countPanes root = length (leaf_nodes root).
Proof. induction root; simpl; rewrite ?length_app; lia. Qed.

Lemma countLeaves_leaves root : countLeaves root = length (leaf_nodes root).
Proof. induction root; simpl; rewrite ?length_app; lia. Qed.

Lemma collect_leaves root : collectTerminalChannelIds root = omap channel_of (leaf_nodes root).
Proof. induction root; simpl; rewrite ?omap_app; congruence. Qed.

Lemma leaf_nodes_ne root : leaf_nodes root ≠ [].
Proof. induction root; simpl; [done..|]. intros [? ?]%app_eq_nil. done. Qed.

Lemma leaf_nodes_leaf n : is_leaf n → leaf_nodes n = [n].
Proof. by destruct n. Qed.

Lemma findChannelPath_leaf root ch : findChannelPath root ch = find_leaf (shows ch) root.
Proof.
  induction root as [c p|v|d q a IHa b IHb]; simpl; [|done|by rewrite IHa, IHb].
  unfold shows. simpl. repeat case_decide; case_bool_decide; congruence.
Qed.

Lemma findVacantPath_leaf root id : findVacantPath root id = find_leaf (is_vacant id) root.
Proof.
  induction root as [c p|v|d q a IHa b IHb]; simpl; [done| |by rewrite IHa, IHb].
  repeat case_decide; case_bool_decide; congruence.
Qed.

Lemma findNodePathByPaneId_leaf root id :
  findNodePathByPaneId root id = find_leaf (has_id id) root.
Proof.
  induction root as [c p|v|d q a IHa b IHb];
    cbn [findNodePathByPaneId find_leaf].
  - unfold has_id. by case_decide.
  - unfold has_id. by case_decide.
  - rewrite IHa, IHb. by case_decide.
Qed.

Lemma replaceTerminalNode_path root ch r :
  replaceTerminalNode root ch r = (λ p, setNodeAtPath root p r) <$> findChannelPath root ch.
Proof.
  induction root as [c p|v|d q a IHa b IHb]; simpl; [by case_decide|done|].
  rewrite IHa, IHb. by destruct (findChannelPath a ch), (findChannelPath b ch).
Qed.

Lemma replaceNodeByPaneId_path root id r :
  replaceNodeByPaneId root id r = (λ p, setNodeAtPath root p r) <$> findNodePathByPaneId root id.
Proof.
  induction root as [c p|v|d q a IHa b IHb]; cbn [replaceNodeByPaneId findNodePathByPaneId];
    [by case_decide..|].
  case_decide; [done|]. rewrite IHa, IHb.
  by destruct (findNodePathByPaneId a id), (findNodePathByPaneId b id).
Qed.

Lemma collapse_here d q a b t :
  collapse (Split d q a b) [t] = Some (match t with First => b | Second => a end).
Proof. by destruct t. Qed.

Lemma collapse_below d q a b t path :
  path ≠ [] →
  collapse (Split d q a b) (t :: path) =
    match t with
    | First => (λ r, Split d q r b) <$> collapse a path
    | Second => (λ r, Split d q a r) <$> collapse b path
    end.
Proof.
  intros Hp. destruct path as [|t' path]; [done|]. unfold collapse.
  replace (length (t :: t' :: path) - 1) with (S (length (t' :: path) - 1)) by (simpl; lia).
  rewrite last_cons_cons. cbn [take].
  destruct (last (t' :: path)) as [lt|]; [|by destruct t].
  cbn [getNodeAtPath]. destruct t; simpl.
  - destruct (getNodeAtPath a _) as [[]|]; try done. simpl. f_equal. f_equal.
    by destruct (take _ _).
  - destruct (getNodeAtPath b _) as [[]|]; try done. simpl. f_equal. f_equal.
    by destruct (take _ _).
Qed.

(** What a search has found: the first leaf it is after, between [l1] and [l2], what putting a
    tree in its place gives, and what closing it gives. *)
Record spot P root path n (l1 l2 : list PaneNode) : Prop := {
  spot_node : getNodeAtPath root path = Some n;
  spot_leaf : is_leaf n;
  spot_true : P n = true;
  spot_first : Forall (λ m, P m = false) l1;
  spot_leaves : leaf_nodes root = l1 ++ n :: l2;
  spot_set r : leaf_nodes (setNodeAtPath root path r) = l1 ++ leaf_nodes r ++ l2;
  spot_root : path = [] → root = n;
  spot_collapse : path ≠ [] → ∃ r, collapse root path = Some r ∧ leaf_nodes r = l1 ++ l2;
}.

Lemma find_leaf_None P root :
  find_leaf P root = None → Forall (λ m, P m = false) (leaf_nodes root).
Proof.
  induction root as [c p|v|d q a IHa b IHb]; simpl.
  1,2: intros H; constructor; [by case_match|constructor].
  unfold in_first_or_second. intros H. case_match; [done|]. case_match; [done|].
  apply Forall_app. auto.
Qed.

Lemma find_leaf_Some P root path :
  find_leaf P root = Some path → ∃ n l1 l2, spot P root path n l1 l2.
Proof.
  revert path. induction root as [c p|v|d q a IHa b IHb]; intros path; simpl.
  1,2: case_match eqn:HP; intros [= <-]; eexists _, [], [];
    split; simpl; intros; rewrite ?app_nil_r; done.
  unfold in_first_or_second. destruct (find_leaf P a) as [pa|] eqn:Ha; intros H.
  - simplify_eq. destruct (IHa pa eq_refl) as (n & l1 & l2 & [? ? ? ? Hl Hs Hr Hc]).
    exists n, l1, (l2 ++ leaf_nodes b). split; simpl; try done.
    + by rewrite Hl, <- app_assoc.
    + intros r. by rewrite Hs, <- !app_assoc.
    + intros _. destruct (decide (pa = [])) as [->|Hpa].
      * exists b. rewrite collapse_here. split; [done|].
        assert (l1 = [] ∧ l2 = []) as [-> ->]; [|done].
        rewrite (Hr eq_refl), leaf_nodes_leaf in Hl by done.
        destruct l1 as [|? [|]]; simplify_eq/=; done.
      * destruct (Hc Hpa) as (r & Hcr & Hlr). exists (Split d q r b).
        rewrite collapse_below, Hcr by done. split; [done|]. simpl. by rewrite Hlr, <- app_assoc.
  - destruct (find_leaf P b) as [pb|] eqn:Hb; simplify_eq.
    destruct (IHb pb eq_refl) as (n & l1 & l2 & [? ? ? ? Hl Hs Hr Hc]).
    exists n, (leaf_nodes a ++ l1), l2. split; simpl; try done.
    + apply Forall_app. split; [by apply find_leaf_None|done].
    + by rewrite Hl, <- app_assoc.
    + intros r. by rewrite Hs, <- !app_assoc.
    + intros _. destruct (decide (pb = [])) as [->|Hpb].
      * exists a. rewrite collapse_here. split; [done|].
        assert (l1 = [] ∧ l2 = []) as [-> ->]; [|by rewrite !app_nil_r].
        rewrite (Hr eq_refl), leaf_nodes_leaf in Hl by done.
        destruct l1 as [|? [|]]; simplify_eq/=; done.
      * destruct (Hc Hpb) as (r & Hcr & Hlr). exists (Split d q a r).
        rewrite collapse_below, Hcr by done. split; [done|]. simpl. by rewrite Hlr, <- app_assoc.
Qed.

Lemma getNodeAtPath_nodeAt root path : getNodeAtPath root path = nodeAt root path.
Proof. revert root. induction path as [|t p IH]; intros [] ; simpl; try done; by destruct t. Qed.
End trees.

(** ** Instances of the search *)

Section searches.
Implicit Types (root n r : PaneNode).

Lemma shows_terminal ch n : shows ch n = true ↔ ∃ p, n = Terminal ch p.
Proof.
  unfold shows. rewrite bool_decide_eq_true. destruct n; simpl; split; intros; break; simplify_eq;
    eauto.
Qed.

Lemma vacant_true id n : is_vacant id n = true ↔ n = Vacant id.
Proof. destruct n; simpl; rewrite ?bool_decide_eq_true; split; congruence. Qed.

Lemma findChannelPath_Some root ch path :
  findChannelPath root ch = Some path →
  ∃ p l1 l2, spot (shows ch) root path (Terminal ch p) l1 l2.
Proof.
  rewrite findChannelPath_leaf. intros (n & l1 & l2 & Hs)%find_leaf_Some.
  pose proof (spot_true _ _ _ _ _ _ Hs) as (p & ->)%shows_terminal. eauto.
Qed.

Lemma not_shown ch (l : list PaneNode) :
  Forall (λ m, shows ch m = false) l ↔ ch ∉ omap channel_of l.
Proof.
  rewrite Forall_forall, list_elem_of_omap. unfold shows. split.
  - intros H (n & Hn & Hc). specialize (H n Hn). rewrite bool_decide_eq_false in H. done.
  - intros H n Hn. rewrite bool_decide_eq_false. intros Hc. apply H. eauto.
Qed.

Lemma findChannelPath_None root ch :
  findChannelPath root ch = None ↔ ch ∉ collectTerminalChannelIds root.
Proof.
  rewrite collect_leaves, <- not_shown, findChannelPath_leaf. split; [apply find_leaf_None|].
  intros Hf. destruct (find_leaf _ root) as [p|] eqn:Hp; [|done].
  apply find_leaf_Some in Hp as (n & l1 & l2 & [? ? Ht ? Hl ? ? ?]).
  rewrite Hl, Forall_app, Forall_cons in Hf. destruct Hf as (_ & Hn & _). congruence.
Qed.

Lemma holds_channel_true ch root :
  holds_channel ch (Some root) = true ↔ ch ∈ collectTerminalChannelIds root.
Proof.
  simpl. destruct (findChannelPath root ch) eqn:Hp.
  - split; [|done]. intros _. apply dec_stable. rewrite <- findChannelPath_None. congruence.
  - apply findChannelPath_None in Hp. by split.
Qed.

Lemma first_leaf_terminal root :
  match findFirstLeafPaneId root with
  | Some p => ∃ ch, findChannelByPaneId root p = Some ch
  | None => collectTerminalChannelIds root = []
  end.
Proof.
  induction root as [c p|v|d q a IHa b IHb]; simpl; [|done|].
  - exists c. by case_decide.
  - destruct (findFirstLeafPaneId a) as [p|]; [destruct IHa as [ch ->]; eauto|].
    rewrite IHa. simpl. destruct (findFirstLeafPaneId b) as [p|]; [|done].
    destruct IHb as [ch ->]. case_match; eauto.
Qed.

Lemma findChannelByPaneId_elem root p ch :
  findChannelByPaneId root p = Some ch → Terminal ch p ∈ leaf_nodes root.
Proof.
  induction root as [c p'|v|d q a IHa b IHb]; simpl; [case_decide; by intros; simplify_eq; left|done|].
  rewrite elem_of_app. case_match; intros; simplify_eq; eauto.
Qed.

Lemma leaf_channel_elem root ch p :
  Terminal ch p ∈ leaf_nodes root → ch ∈ collectTerminalChannelIds root.
Proof. intros. rewrite collect_leaves. apply list_elem_of_omap. by exists (Terminal ch p). Qed.
End searches.

(** ** The ratios of a tree *)

Section ratios.
Implicit Types (root n r : PaneNode) (path : NodePath).

Lemma ratios_set root path r :
  ratios_ok root → ratios_ok r → ratios_ok (setNodeAtPath root path r).
Proof.
  revert root. induction path as [|t path IH]; intros root Hr Hn; [done|].
  destruct root as [| |d q a b]; [done..|]. destruct Hr as (? & ? & ?).
  destruct t; simpl; eauto.
Qed.

Lemma ratios_get root path n :
  ratios_ok root → getNodeAtPath root path = Some n → ratios_ok n.
Proof.
  revert root. induction path as [|t path IH]; intros root Hr; simpl; [by intros [= ->]|].
  destruct root as [| |d q a b]; [done..|]. destruct Hr as (? & ? & ?). destruct t; eauto.
Qed.

Lemma ratios_collapse root path r : ratios_ok root → collapse root path = Some r → ratios_ok r.
Proof.
  unfold collapse. intros Hr H. case_match; [|done].
  destruct (getNodeAtPath root _) as [[| |d q a b]|] eqn:Hn; simplify_eq.
  apply (ratios_get _ _ _ Hr) in Hn as (? & ? & ?).
  assert (ratios_ok (match t with First => b | Second => a end)) by (by destruct t).
  destruct (take _ path); [done|]. by apply ratios_set.
Qed.

Lemma ratios_replaceInTree root (oldId newId : string) :
  ratios_ok root → ratios_ok (replaceInTree root oldId newId).
Proof. induction root; simpl; [by case_decide|done|]. intros (? & ? & ?). auto. Qed.

Lemma half_ok : (SPLIT_RATIO_MIN <= 1 # 2 <= SPLIT_RATIO_MAX)%Q.
Proof. by split; compute. Qed.
End ratios.

(** ** What an operation leaves alone *)

Definition only_tab (tab : Tab) (s s' : state) : Prop :=
  tabs s' = tabs s ∧ activeTabIndex s' = activeTabIndex s ∧
  ∀ t, t ≠ tab → layouts s' !! t = layouts s !! t ∧ activePaneIds s' !! t = activePaneIds s !! t.

Lemma only_tab_refl tab s : only_tab tab s s.
Proof. done. Qed.
Lemma only_tab_trans tab s1 s2 s3 : only_tab tab s1 s2 → only_tab tab s2 s3 → only_tab tab s1 s3.
Proof.
  intros (H1 & H2 & H3) (H4 & H5 & H6). split_and!; [congruence..|].
  intros t Ht. destruct (H3 t Ht), (H6 t Ht). split; congruence.
Qed.
Lemma only_put tab root s : only_tab tab s (put_root tab root s).
Proof. split_and!; [done..|]. intros t Ht. simpl. by rewrite js_lookup_insert_ne by done. Qed.
Lemma only_focus tab p s : only_tab tab s (setActivePaneId tab p s).
Proof. split_and!; [done..|]. intros t Ht. simpl. by rewrite js_lookup_insert_ne by done. Qed.
Lemma only_unfocus tab s : only_tab tab s (set_panes (delete tab (activePaneIds s)) s).
Proof. split_and!; [done..|]. intros t Ht. simpl. by rewrite js_lookup_delete_ne by done. Qed.
Lemma only_refocus tab ch root updated s : only_tab tab s (refocus tab ch root updated s).
Proof.
  unfold refocus. repeat case_match; auto using only_tab_refl, only_unfocus.
  apply only_focus.
Qed.
#[export] Hint Resolve only_tab_refl only_put only_focus only_unfocus only_refocus : lasterm.

Lemma tab_root_put tab root s t :
  tab_root (put_root tab root s) t = if decide (tab = t) then Some root else tab_root s t.
Proof. unfold tab_root. simpl. rewrite js_lookup_insert. by case_decide. Qed.
Lemma layouts_refocus tab ch root updated s :
  layouts (refocus tab ch root updated s) = layouts s.
Proof. unfold refocus. by repeat case_match. Qed.
Lemma tab_root_refocus tab ch root updated s t :
  tab_root (refocus tab ch root updated s) t = tab_root s t.
Proof. unfold tab_root. by rewrite layouts_refocus. Qed.

(** ** Finding a channel's tab *)

Lemma tab_root_Some s t root : tab_root s t = Some root ↔ layouts s !! t = Some (Some root).
Proof. unfold tab_root. destruct (layouts s !! t) as [[]|]; simpl; split; congruence. Qed.

(** What [findTabForChannel] promises: the tab in front when it shows the channel, else one that
    does, and none only when none does. *)
Lemma findTab_spec s ch :
  js_wf (layouts s) →
  match findTabForChannel s ch with
  | Some tab =>
      (∃ root, tab_root s tab = Some root ∧ ch ∈ collectTerminalChannelIds root) ∧
      (∀ root, layout s = Some root → ch ∈ collectTerminalChannelIds root → activeTab s = Some tab)
  | None => ∀ tab root, tab_root s tab = Some root → ch ∉ collectTerminalChannelIds root
  end.
Proof.
  intros Hwf. unfold findTabForChannel, layout.
  set (fm := find_index _ _ ≫= _).
  assert (match fm with
          | Some tab => ∃ root, tab_root s tab = Some root ∧ ch ∈ collectTerminalChannelIds root
          | None => ∀ tab root, tab_root s tab = Some root → ch ∉ collectTerminalChannelIds root
          end) as Hfm.
  { unfold fm. destruct (find_index _ _) as [i|] eqn:Hi; simpl.
    - destruct (find_index_Some _ _ _ Hi) as ([k [root|]] & Hl & Hh & _); [|done].
      rewrite Hl. simpl. exists root. split; [|by apply holds_channel_true].
      apply tab_root_Some, js_elem_lookup; [done|]. by eapply list_elem_of_lookup_2.
    - intros tab root Ht%tab_root_Some%js_lookup_elem Hin.
      apply find_index_None in Hi. rewrite Forall_forall in Hi.
      specialize (Hi _ Ht). cbn [snd] in Hi.
      apply holds_channel_true in Hin. congruence. }
  destruct (activeTab s) as [active|]; simpl; [|by destruct fm].
  destruct (tab_root s active) as [root|] eqn:Hroot; [|by destruct fm].
  destruct (holds_channel ch (Some root)) eqn:Hh.
  - split; [|done]. exists root. split; [done|]. by apply holds_channel_true.
  - destruct fm as [tab|]; [|done]. split; [done|]. intros r [= <-] Hin%holds_channel_true.
    congruence.
Qed.

(** ** Emptying a pane, closing a pane *)

Lemma vacate_spec tab ch id s :
  match tab_root s tab with
  | None => vacatePaneInTab tab ch id s = s
  | Some root =>
      if decide (ch ∈ collectTerminalChannelIds root) then
        ∃ path p l1 l2 root', spot (shows ch) root path (Terminal ch p) l1 l2 ∧
          root' = setNodeAtPath root path (Vacant id) ∧
          vacatePaneInTab tab ch id s = refocus tab ch root root' (put_root tab root' s) ∧
          leaf_nodes root' = l1 ++ Vacant id :: l2
      else vacatePaneInTab tab ch id s = s
  end.
Proof.
  unfold vacatePaneInTab. destruct (tab_root s tab) as [root|]; [|done].
  rewrite replaceTerminalNode_path. case_decide as Hin.
  - destruct (findChannelPath root ch) as [path|] eqn:Hp; [|by apply findChannelPath_None in Hp].
    destruct (findChannelPath_Some _ _ _ Hp) as (p & l1 & l2 & Hs). simpl.
    exists path, p, l1, l2, (setNodeAtPath root path (Vacant id)). split_and!; [done..|].
    by rewrite (spot_set _ _ _ _ _ _ Hs).
  - apply findChannelPath_None in Hin. by rewrite Hin.
Qed.

Lemma vacate_only tab ch id s : only_tab tab s (vacatePaneInTab tab ch id s).
Proof.
  unfold vacatePaneInTab. repeat case_match; auto with lasterm.
  eapply only_tab_trans; [apply only_put|apply only_refocus].
Qed.

(** The terminals a tab shows, in order, and all the tabs show together. *)
Definition tab_channels (s : state) (tab : Tab) : list string :=
  from_option collectTerminalChannelIds [] (tab_root s tab).
Definition all_channels (m : jsmap string (option PaneNode)) : list string :=
  entries m ≫= λ kt, from_option collectTerminalChannelIds [] kt.2.

(** Putting a tree in the place of a tab's swaps their terminals. *)
Lemma all_channels_put tab root root' s :
  tab_root s tab = Some root →
  all_channels (layouts (put_root tab root' s)) ++ collectTerminalChannelIds root ≡ₚ
  all_channels (layouts s) ++ collectTerminalChannelIds root'.
Proof.
  rewrite tab_root_Some. unfold all_channels. destruct s as [ts ix [l] ps]. simpl.
  unfold lookup, jsmap_lookup. simpl.
  induction l as [|[k t] l IH]; simpl; [done|]. case_decide as Hk; csimpl.
  - intros [= ->]. simpl. solve_Permutation.
  - intros Hl. rewrite <- !(assoc_L (++)). by rewrite IH.
Qed.

(** ** Drops *)

(** The pane a drop lands on, and what the tree becomes. *)
Definition lands (root : PaneNode) (tgt : string) (zone : DropZone) (src : PaneNode)
  (n : PaneNode) (l1 l2 : list PaneNode) (root' : PaneNode) : Prop :=
  leaf_nodes root = l1 ++ n :: l2 ∧ is_leaf n ∧ getLeafId n = Some tgt ∧
  leaf_nodes root' =
    l1 ++ (match zone with
           | zone_center => [src]
           | zone_left | zone_top => [src; n]
           | zone_right | zone_bottom => [n; src]
           end) ++ l2.

Lemma has_id_true id n : has_id id n = true ↔ getLeafId n = Some id.
Proof. unfold has_id. by case_decide. Qed.

Lemma find_id_None root id :
  findNodePathByPaneId root id = None → ∀ n, n ∈ leaf_nodes root → getLeafId n ≠ Some id.
Proof.
  rewrite findNodePathByPaneId_leaf. intros Hf%find_leaf_None n Hn Hid%has_id_true.
  rewrite Forall_forall in Hf. specialize (Hf n Hn). congruence.
Qed.

Lemma find_id_Some root id path :
  findNodePathByPaneId root id = Some path → ∃ n l1 l2, spot (has_id id) root path n l1 l2.
Proof. rewrite findNodePathByPaneId_leaf. apply find_leaf_Some. Qed.

(** [movePaneTo] past the vacating of the source. *)
Lemma move_spec ch tgt tgtTab zone vac new s tab :
  findTabForChannel s ch = Some tab →
  let s1 := vacatePaneInTab tab ch vac s in
  let src := Terminal ch new in
  (movePaneTo ch tgt tgtTab zone vac new s = s1 ∧
     ∀ root n, tab_root s1 tgtTab = Some root → n ∈ leaf_nodes root → getLeafId n ≠ Some tgt) ∨
  ∃ root root' n l1 l2, tab_root s1 tgtTab = Some root ∧ lands root tgt zone src n l1 l2 root' ∧
    movePaneTo ch tgt tgtTab zone vac new s = s1 |> put_root tgtTab root' |> setActivePaneId tgtTab new.
Proof.
  intros Htab s1 src. unfold movePaneTo. rewrite Htab. fold s1 src.
  destruct (tab_root s1 tgtTab) as [root|] eqn:Hroot; [|by left].
  rewrite replaceNodeByPaneId_path.
  destruct (findNodePathByPaneId root tgt) as [path|] eqn:Hpath.
  - right. destruct (find_id_Some _ _ _ Hpath) as (n & l1 & l2 & [Hn Hleaf Ht _ Hl Hset _ _]).
    apply has_id_true in Ht. rewrite Hn. destruct zone; simpl;
      eexists root, _, n, l1, l2; (split; [done|]); (split; [|done]);
      (split_and!; [done..|]); rewrite Hset; simpl; try done; by rewrite leaf_nodes_leaf.
  - left. split; [by destruct zone|]. intros r n [= <-]. by apply find_id_None.
Qed.

Lemma no_channel s tab : getActiveChannelId s tab = None → tab_channels s tab = [].
Proof.
  unfold getActiveChannelId, tab_channels. destruct (tab_root s tab) as [root|]; [|done]. simpl.
  pose proof (first_leaf_terminal root) as Hf. intros H.
  destruct (findFirstLeafPaneId root) as [p|]; [|done]. destruct Hf as [ch Hf]. simpl in H.
  repeat case_match; congruence.
Qed.

(** ** Filling *)

Lemma set_set root path x y :
  setNodeAtPath (setNodeAtPath root path x) path y = setNodeAtPath root path y.
Proof.
  revert root. induction path as [|t path IH]; intros root; [done|].
  destruct root, t; simpl; by rewrite ?IH.
Qed.

(** An empty pane put where there was none of its name is the one a search finds. *)
Lemma find_new_vacant root path n id :
  getNodeAtPath root path = Some n → is_leaf n → Vacant id ∉ leaf_nodes root →
  findVacantPath (setNodeAtPath root path (Vacant id)) id = Some path.
Proof.
  revert root. induction path as [|t path IH]; intros root; simpl.
  { intros. by rewrite decide_True. }
  destruct root as [| |d q a b]; [done..|]. simpl. rewrite elem_of_app. intros Hn Hl Hid.
  destruct t; simpl; rewrite ?IH by auto; [done|].
  destruct (findVacantPath a id) as [pa|] eqn:Ha; [|done].
  destruct Hid. left. rewrite findVacantPath_leaf in Ha.
  apply find_leaf_Some in Ha as (m & l1 & l2 & [_ _ Hm%vacant_true _ Hl' _ _ _]). subst m.
  rewrite Hl', elem_of_app. right. by left.
Qed.

Lemma host_loop_true m host ids known :
  host_loop m host ids known = true ↔
  (∃ c, c ∈ ids ∧ m !! c = Some host) ∨ known = false ∧ ∀ c, c ∈ ids → m !! c = None.
Proof.
  revert known. induction ids as [|c ids IH]; intros known; simpl.
  - destruct known; simpl; split; try done.
    + intros [(c & Hc & _)|[? _]]; [by inversion Hc|done].
    + intros _. right. split; [done|]. intros c Hc. inversion Hc.
  - setoid_rewrite elem_of_cons. destruct (m !! c) as [h|] eqn:Hc; [case_decide as Hh|].
    + subst. split; [|done]. intros _. left. eauto.
    + rewrite IH. split.
      * intros [(c' & ? & ?)|[? _]]; [left; eauto|done].
      * intros [(c' & [->|?] & ?)|[_ Hall]]; [congruence|left; eauto|].
        specialize (Hall c (or_introl eq_refl)). congruence.
    + rewrite IH. split.
      * intros [(c' & ? & ?)|[? Hall]]; [left; eauto|right]. split; [done|].
        intros c' [->|?]; auto.
      * intros [(c' & [->|?] & ?)|[? Hall]]; [congruence|left; eauto|right]. split; auto.
Qed.

(** ** Properties *)

(** Splitting a pane. It is refused at the limit, empty panes counted, and when the tab in
    front does not show the channel, and then nothing changes; otherwise the first pane showing
    the channel keeps its place and an empty pane follows it, within the limit, the other tabs
    and the focus being left alone. *)
Theorem splitPane_correct ch d limit id s :
  match splitPane ch d limit id s with
  | (s', did_split) =>
      ∃ tab root root' l1 p l2, activeTab s = Some tab ∧ tab_root s tab = Some root ∧
        tab_root s' tab = Some root' ∧ ch ∉ omap channel_of l1 ∧
        leaf_nodes root = l1 ++ Terminal ch p :: l2 ∧
        leaf_nodes root' = l1 ++ Terminal ch p :: Vacant id :: l2 ∧
        countPanes root' <= limit ∧ only_tab tab s s' ∧ activePaneIds s' = activePaneIds s
  | (s', at_limit) => s' = s ∧ ∃ root, layout s = Some root ∧ limit <= countPanes root
  | (s', not_found) => s' = s ∧ ∀ root, layout s = Some root → ch ∉ collectTerminalChannelIds root
  end.
Proof.
  unfold splitPane, on_active, layout. destruct (activeTab s) as [tab|] eqn:Htab; [|done]. simpl.
  destruct (tab_root s tab) as [root|] eqn:Hroot; [|done].
  rewrite countLeaves_leaves, <- countPanes_leaves.
  destruct (limit <=? countPanes root) eqn:Hlim.
  { apply Nat.leb_le in Hlim. eauto. }
  apply Nat.leb_gt in Hlim. destruct (findChannelPath root ch) as [path|] eqn:Hp.
  2: split; [done|]; intros r [= <-]; by apply findChannelPath_None.
  destruct (findChannelPath_Some _ _ _ Hp) as (p & l1 & l2 & [Hn _ _ Hf Hl Hset _ _]). rewrite Hn.
  eexists tab, root, _, l1, p, l2. split_and!; [done..| | | | | | |].
  - by rewrite tab_root_put, decide_True.
  - by apply not_shown.
  - done.
  - by rewrite Hset.
  - rewrite countPanes_leaves in *. rewrite Hset. rewrite Hl in Hlim.
    rewrite !length_app in *. simpl in *. lia.
  - apply only_put.
  - done.
Qed.

(** Closing a terminal's pane. When no tab shows the channel nothing changes. Otherwise the
    pane closed is the first one showing it in the tab in front, or in some tab when that one does
    not show it; the tab stays, without that pane and with the others in their order, or with one
    empty pane when it was the last; no other tab changes; and a focus that was on the channel
    moves to the first terminal left, or is forgotten. *)
Theorem closePane_correct ch id s :
  js_wf (layouts s) →
  match findTabForChannel s ch with
  | None => closePane ch id s = s
  | Some tab =>
      let s' := closePane ch id s in
      ∃ root root' l1 p l2, tab_root s tab = Some root ∧ tab_root s' tab = Some root' ∧
        leaf_nodes root = l1 ++ Terminal ch p :: l2 ∧ ch ∉ omap channel_of l1 ∧
        leaf_nodes root' = (match l1 ++ l2 with [] => [Vacant id] | rest => rest end) ∧
        only_tab tab s s' ∧
        (activePaneIds s !! tab ≫= findChannelByPaneId root = Some ch →
         activePaneIds s' !! tab = findFirstLeafPaneId root')
  end.
Proof.
  intros Hwf. pose proof (findTab_spec s ch Hwf) as Hspec. unfold closePane.
  destruct (findTabForChannel s ch) as [tab|]; [|done].
  destruct Hspec as [(root & Hroot & Hin) _]. rewrite Hroot. simpl.
  destruct (findChannelPath root ch) as [path|] eqn:Hp; [|by apply findChannelPath_None in Hp].
  destruct (findChannelPath_Some _ _ _ Hp) as (p & l1 & l2 & [_ _ _ Hf Hl _ Hr Hc]).
  apply not_shown in Hf. destruct path as [|t path].
  - rewrite (Hr eq_refl) in *. assert (l1 = [] ∧ l2 = []) as [-> ->].
    { simpl in Hl. destruct l1 as [|? [|]]; simplify_eq/=; done. }
    eexists (Terminal ch p), (Vacant id), [], p, []. split_and!; [done| |done|done|done| |].
    + unfold tab_root. simpl. by rewrite js_lookup_insert_eq.
    + eapply only_tab_trans; [apply only_put|apply (only_unfocus tab (put_root _ _ _))].
    + intros _. simpl. by rewrite js_lookup_delete_eq.
  - destruct (Hc ltac:(done)) as (root' & Hcl & Hl'). rewrite Hcl.
    exists root, root', l1, p, l2. split_and!; [done| |done|done| | |].
    + by rewrite tab_root_refocus, tab_root_put, decide_True.
    + rewrite Hl'. destruct (l1 ++ l2) eqn:Hrest; [|done].
      by destruct (leaf_nodes_ne root').
    + eapply only_tab_trans; [apply only_put|apply only_refocus].
    + unfold refocus. simpl. destruct (activePaneIds s !! tab) as [ap|] eqn:Hap; [|done]. simpl.
      intros Hfc. rewrite decide_True by done. destruct (findFirstLeafPaneId root'); simpl;
        by rewrite ?js_lookup_insert_eq, ?js_lookup_delete_eq.
Qed.

(** Two tabs: the first split in two, its right half in focus; the second empty. *)
Definition two_tabs : state := {|
  tabs := ["t1"; "t2"];
  activeTabIndex := 0;
  layouts := JsMap [("t1", Some (Split vertical (1 # 2) (Terminal "c1" "p1") (Terminal "c2" "p2")));
                    ("t2", Some (Vacant "v"))];
  activePaneIds := JsMap [("t1", "p2")];
|}.

Lemma two_tabs_wf : js_wf (layouts two_tabs).
Proof. apply (bool_decide_unpack _). vm_compute. exact I. Qed.

Lemma closePane_correct_witness :
  js_wf (layouts two_tabs) ∧
  match findTabForChannel two_tabs "c2" with
  | None => False
  | Some tab =>
      ∃ root root' l1 p l2, tab_root two_tabs tab = Some root ∧
        tab_root (closePane "c2" "w" two_tabs) tab = Some root' ∧
        leaf_nodes root = l1 ++ Terminal "c2" p :: l2 ∧ "c2" ∉ omap channel_of l1 ∧
        leaf_nodes root' = (match l1 ++ l2 with [] => [Vacant "w"] | rest => rest end) ∧
        only_tab tab two_tabs (closePane "c2" "w" two_tabs) ∧
        (activePaneIds two_tabs !! tab ≫= findChannelByPaneId root = Some "c2" →
         activePaneIds (closePane "c2" "w" two_tabs) !! tab = findFirstLeafPaneId root')
  end.
Proof. split; [apply two_tabs_wf|]. apply (closePane_correct "c2" "w" two_tabs two_tabs_wf). Defined.

(** What a drop does. When no tab shows the channel nothing changes. Otherwise its pane is
    emptied where it is, then, if the pane aimed at is in the target tab, the channel replaces
    what that pane holds, or is put beside it on the side aimed at, with everything else in its
    place and the focus on it: a drop on a side loses no terminal of any tab, and a drop on the
    center only the one it replaces. A drop that finds no such pane only empties the source. *)
Theorem movePaneTo_correct ch tgt tgtTab zone vac new s :
  js_wf (layouts s) →
  let s' := movePaneTo ch tgt tgtTab zone vac new s in
  match findTabForChannel s ch with
  | None => s' = s
  | Some tab =>
      let s1 := vacatePaneInTab tab ch vac s in
      (all_channels (layouts s) ≡ₚ ch :: all_channels (layouts s1)) ∧
      ((∀ root n, tab_root s1 tgtTab = Some root → n ∈ leaf_nodes root →
          getLeafId n ≠ Some tgt) ∧ s' = s1 ∨
       ∃ root root' n l1 l2, tab_root s1 tgtTab = Some root ∧ tab_root s' tgtTab = Some root' ∧
         lands root tgt zone (Terminal ch new) n l1 l2 root' ∧
         activePaneIds s' !! tgtTab = Some new ∧ only_tab tgtTab s1 s' ∧
         (all_channels (layouts s') ++
            (if zone is zone_center then option_list (channel_of n) else []) ≡ₚ
          all_channels (layouts s)))
  end.
Proof.
  intros Hwf s'. pose proof (findTab_spec s ch Hwf) as Hspec.
  destruct (findTabForChannel s ch) as [tab|] eqn:Htab; [|unfold s', movePaneTo; by rewrite Htab].
  destruct Hspec as [(root0 & Hroot0 & Hin) _]. simpl.
  set (s1 := vacatePaneInTab tab ch vac s).
  assert (all_channels (layouts s) ≡ₚ ch :: all_channels (layouts s1)) as Hvac.
  { pose proof (vacate_spec tab ch vac s) as Hv. rewrite Hroot0, decide_True in Hv by done.
    destruct Hv as (path & p & l1 & l2 & r & Hs & -> & Hv & Hl). unfold s1. rewrite Hv.
    rewrite layouts_refocus. pose proof (all_channels_put tab root0 (setNodeAtPath root0 path (Vacant vac)) s Hroot0) as Hp.
    rewrite !collect_leaves, Hl, (spot_leaves _ _ _ _ _ _ Hs), !omap_app in Hp. simpl in Hp.
    rewrite <- (Permutation_middle (omap channel_of l1)) in Hp.
    apply (Permutation_app_inv_r (omap channel_of l1 ++ omap channel_of l2)).
    rewrite <- Hp. solve_Permutation. }
  split; [done|].
  destruct (move_spec ch tgt tgtTab zone vac new s tab Htab) as
    [[Hs' Hno]|(root & root' & n & l1 & l2 & Hroot & Hland & Hs')]; [by left|right].
  exists root, root', n, l1, l2. unfold s'. rewrite Hs'. fold s1 in Hroot |- *. split_and!; [done| |done| | |].
  - unfold tab_root. simpl. by rewrite js_lookup_insert_eq.
  - simpl. by rewrite js_lookup_insert_eq.
  - eapply only_tab_trans; [apply only_put|apply only_focus].
  - rewrite Hvac. pose proof (all_channels_put tgtTab root root' s1 Hroot) as Hp.
    destruct Hland as (Hl & Hleaf & _ & Hl').
    rewrite !collect_leaves, Hl, Hl', !omap_app in Hp.
    set (kept := if zone is zone_center then [] else option_list (channel_of n)).
    apply (Permutation_app_inv_r (omap channel_of l1 ++ kept ++ omap channel_of l2)).
    unfold kept. destruct zone, n as [c p|v|]; try done; simpl in *;
      change (list_omap PaneNode string channel_of l2) with (omap channel_of l2) in *; revert Hp;
      generalize (all_channels (layouts s1)), (omap channel_of l1), (omap channel_of l2);
      intros A B C Hp; rewrite ?app_nil_r;
      (etransitivity; [|etransitivity; [exact Hp|]]); solve_Permutation.
Qed.

Lemma movePaneTo_correct_witness :
  js_wf (layouts two_tabs) ∧
  all_channels (layouts two_tabs) ≡ₚ
    "c1" :: all_channels (layouts (vacatePaneInTab "t1" "c1" "w" two_tabs)).
Proof.
  split; [apply two_tabs_wf|].
  exact (proj1 (movePaneTo_correct "c1" "v" "t2" zone_left "w" "p9" two_tabs two_tabs_wf)).
Defined.

(** Detaching a terminal and picking it again gives the tab back its tree: the empty pane
    left by [vacatePane] is the one [fillVacant] finds, in the tab in front, and the tree is the
    one before but for the pane's own id, which takes the focus. The empty pane's id has to be
    new to the tab. *)
Theorem vacate_then_fill ch id new s tab root path :
  activeTab s = Some tab → tab_root s tab = Some root →
  findChannelPath root ch = Some path → Vacant id ∉ leaf_nodes root →
  let (s', filled) := fillVacant id ch new (vacatePane ch id s) in
  filled = Some tab ∧ tab_root s' tab = Some (setNodeAtPath root path (Terminal ch new)) ∧
  getActiveChannelId s' tab ≠ None ∧ activePaneIds s' !! tab = Some new ∧ only_tab tab s s'.
Proof.
  intros Htab Hroot Hp Hid. unfold vacatePane, fillVacant. rewrite Htab.
  destruct (findChannelPath_Some _ _ _ Hp) as (p & l1 & l2 & [Hn Hl _ _ _ _ _ _]).
  pose proof (find_new_vacant root path _ id Hn Hl Hid) as Hfind.
  pose proof (vacate_only tab ch id s) as Hv. unfold vacatePaneInTab in *. rewrite Hroot in *.
  rewrite replaceTerminalNode_path, Hp in *. simpl in *.
  set (root1 := setNodeAtPath root path (Vacant id)) in *.
  set (s1 := refocus tab ch root root1 (put_root tab root1 s)) in *.
  assert (tab_root s1 tab = Some root1) as Hroot1.
  { unfold s1. by rewrite tab_root_refocus, tab_root_put, decide_True. }
  assert (activeTab s1 = Some tab) as Htab1.
  { unfold activeTab. destruct Hv as (-> & -> & _). done. }
  unfold fill_order. rewrite Htab1. simpl. rewrite Hroot1. simpl. rewrite Hfind. simpl.
  unfold root1 at 1. rewrite set_set. split_and!; [done| | | |].
  - unfold tab_root. simpl. by rewrite js_lookup_insert_eq.
  - intros Hnone. apply no_channel in Hnone. revert Hnone. unfold tab_channels, tab_root. simpl.
    rewrite js_lookup_insert_eq. simpl. rewrite collect_leaves.
    unfold root1. rewrite set_set. intros Hnil.
    assert (ch ∈ @nil string) as Hin; [|by inversion Hin]. rewrite <- Hnil.
    apply list_elem_of_omap. exists (Terminal ch new). split; [|done].
    destruct (findChannelPath_Some _ _ _ Hp) as (? & k1 & k2 & [_ _ _ _ _ Hset _ _]).
    rewrite Hset. simpl. rewrite elem_of_app. right. by left.
  - simpl. by rewrite js_lookup_insert_eq.
  - eapply only_tab_trans; [exact Hv|]. unfold root1. rewrite set_set.
    eapply only_tab_trans; [apply only_put|apply only_focus].
Qed.

Lemma vacate_then_fill_witness :
  (fillVacant "w" "c2" "p9" (vacatePane "c2" "w" two_tabs)).2 = Some "t1".
Proof.
  pose proof (vacate_then_fill "c2" "w" "p9" two_tabs "t1"
    (Split vertical (1 # 2) (Terminal "c1" "p1") (Terminal "c2" "p2")) [Second]
    eq_refl eq_refl eq_refl ltac:(cbn; rewrite !not_elem_of_cons; repeat split; [done..|apply not_elem_of_nil])) as H.
  destruct (fillVacant _ _ _ _) as [s' filled]. exact (proj1 H).
Defined.

(** The terminal a tab speaks for. It is one of the tab's; it is the one of the pane in focus
    when that pane shows a terminal; and there is none exactly when the tab shows no terminal,
    whatever pane was last recorded. *)
Theorem active_channel_total s tab :
  match getActiveChannelId s tab with
  | Some ch =>
      ch ∈ tab_channels s tab ∧
      ∀ root p ch', tab_root s tab = Some root → activePaneIds s !! tab = Some p →
        findChannelByPaneId root p = Some ch' → ch = ch'
  | None => tab_channels s tab = []
  end.
Proof.
  destruct (getActiveChannelId s tab) as [ch|] eqn:Hch; [|by apply no_channel].
  unfold getActiveChannelId, tab_channels in *. destruct (tab_root s tab) as [root|]; [|done]. simpl.
  destruct (activePaneIds s !! tab) as [p|]; [destruct (findChannelByPaneId root p) eqn:Hp|];
    simplify_eq; (split; [by eapply leaf_channel_elem, findChannelByPaneId_elem|]);
    intros; simplify_eq; congruence.
Qed.

(** Which tabs are in the bar while it shows one host: those with a terminal on the host,
    and those none of whose terminals has a known host, the empty tabs among them. *)
Theorem tabIsOnHost_correct tab m hosts host :
  tabIsOnHost tab m hosts host = true ↔
  let channels := from_option collectTerminalChannelIds [] (mjoin (m !! tab)) in
  (∃ c, c ∈ channels ∧ hosts !! c = Some host) ∨ (∀ c, c ∈ channels → hosts !! c = None).
Proof.
  unfold tabIsOnHost. destruct (mjoin (m !! tab)) as [root|]; simpl.
  2: split; [intros _; right; intros c Hc; inversion Hc|done].
  destruct (collectTerminalChannelIds root) as [|c cs].
  - split; [intros _; right; intros c Hin; inversion Hin|done].
  - change (host_loop hosts host (c :: cs) false = true ↔
      (∃ c', c' ∈ c :: cs ∧ hosts !! c' = Some host) ∨ ∀ c', c' ∈ c :: cs → hosts !! c' = None).
    rewrite host_loop_true. tauto.
Qed.
