(* ===== verification/TabManager.v ===== *)
(** * The tab bar
      ([packages/clients/web/src/composables/useTabManager.ts], the purges of
       [usePaneTree.ts] and [closeVacantPane] of [useLayout.ts])

    The operations on tabs, over the state [PaneTree] shares, and the invariant every operation of
    the two keeps. What the operations read of the config and channels stores is an argument. *)

From Stdlib Require Import QArith.
From S2P Require Import Prelude JsMap PaneGeometry PaneTree.
#[local] Open Scope lasterm_scope.
#[local] Open Scope nat_scope.

(** ** What is read of the stores *)

Inductive tab_position := at_end | afterActive.
Inductive tab_scope := global | perHost.
#[export] Instance tab_position_eq_dec : EqDecision tab_position.
Proof. solve_decision. Defined.
#[export] Instance tab_scope_eq_dec : EqDecision tab_scope.
Proof. solve_decision. Defined.

Record TabsConfig := { newTabPosition : option tab_position; scope : option tab_scope }.

Record stores := {
  tabs_config : option TabsConfig;
  activeHostId : option string;
  channelHostMap : jsmap string string;
}.

Inductive new_tab_kind := opens_terminal | opens_picker.

Definition newTabOpens (cfg : option TabsConfig) : new_tab_kind :=
  if decide (cfg ≫= scope = Some perHost) then opens_terminal else opens_picker.

Definition hostToBringIntoView (cfg : option TabsConfig) (inFront : bool) (hostId : option string)
  (hostInView : option string) (otherTerminalHosts : list (option string)) : option string :=
  if negb (bool_decide (cfg ≫= scope = Some perHost)) || negb inFront then None
  else
    match hostId with
    | None => None
    | Some h =>
        if decide (Some h = hostInView) then None
        else if existsb (λ host : option string,
                   match host, hostInView with Some a, Some b => String.eqb a b | _, _ => false end)
                  otherTerminalHosts
        then None
        else Some h
    end.

(** ** Opening and closing *)

Definition addTab (env : stores) (root : PaneNode) (activePaneId : option string)
  (newTabId : string) (s : state) : state :=
  let '(newTabs, activeIdx) :=
    if decide (tabs_config env ≫= newTabPosition = Some afterActive) then
      let insertIdx := clamp (activeTabIndex s + 1) (length (tabs s)) in
      (splice_in insertIdx newTabId (tabs s), insertIdx)
    else (tabs s ++ [newTabId], length (tabs s)) in
  s |> set_tabs newTabs
    |> put_root newTabId root
    |> (λ s, match activePaneId with None => s | Some p => setActivePaneId newTabId p s end)
    |> set_active (Z.of_nat activeIdx).

Definition openTab (env : stores) (channelId newPaneId newTabId : string) (s : state) : state :=
  let add := addTab env (Terminal channelId newPaneId) (Some newPaneId) newTabId s in
  match findTabForChannel s channelId with
  | None => add
  | Some existingTabId =>
      match find_index (λ t, bool_decide (t = existingTabId)) (tabs s) with
      | Some existingIdx => set_active (Z.of_nat existingIdx) s
      | None => add
      end
  end.

Definition openVacantTab (env : stores) (vacantId newTabId : string) (s : state) : state :=
  addTab env (Vacant vacantId) None newTabId s.

(** A tab's layout and focus, forgotten. *)
Definition drop_tab (tab : string) (s : state) : state :=
  s |> set_layouts (delete tab (layouts s)) |> set_panes (delete tab (activePaneIds s)).

Definition closeTab (index : Z) (s : state) : state :=
  match js_at (tabs s) index with
  | None => s
  | Some tab =>
      let next := delete (Z.to_nat index) (tabs s) in
      let n := Z.of_nat (length next) in
      let active := activeTabIndex s in
      s |> set_tabs next |> drop_tab tab
        |> set_active (if (n <=? active)%Z then Z.max 0 (n - 1)
                       else if (index <? active)%Z then active - 1 else active)%Z
  end.

Definition setActiveTab (index : Z) (s : state) : state :=
  if ((0 <=? index) && (index <? Z.of_nat (length (tabs s))))%Z then set_active index s else s.

Definition reorderTab (fromIndex toIndex : Z) (s : state) : state :=
  if (fromIndex =? toIndex)%Z then s
  else if ((fromIndex <? 0) || (Z.of_nat (length (tabs s)) <=? fromIndex))%Z then s
  else
    let clampedTo := Z.max 0 (Z.min toIndex (Z.of_nat (length (tabs s)) - 1)) in
    if (fromIndex =? clampedTo)%Z then s
    else
      match tabs s !! Z.to_nat fromIndex with
      | None => s
      | Some moved =>
          let newTabs :=
            splice_in (Z.to_nat clampedTo) moved (delete (Z.to_nat fromIndex) (tabs s)) in
          let currentActive := activeTabIndex s in
          s |> set_tabs newTabs
            |> set_active
                 (if currentActive =? fromIndex then clampedTo
                  else if (fromIndex <? currentActive) && (currentActive <=? clampedTo)
                  then currentActive - 1
                  else if (currentActive <? fromIndex) && (clampedTo <=? currentActive)
                  then currentActive + 1
                  else currentActive)%Z
      end.

(** ** Bulk operations *)

(** [vacateNode], the ids it generates being [gen k], [gen (S k)], ... *)
Fixpoint vacateNode (gen : nat → string) (node : PaneNode) (k : nat) : PaneNode * nat :=
  match node with
  | Terminal _ _ => (Vacant (gen k), S k)
  | Vacant _ => (node, k)
  | Split d q a b =>
      let '(a', k1) := vacateNode gen a k in
      let '(b', k2) := vacateNode gen b k1 in
      (Split d q a' b', k2)
  end.

Definition vacateAllPanesInTab (tabId : string) (gen : nat → string) (s : state) : state :=
  match tab_root s tabId with
  | None => s
  | Some root =>
      s |> put_root tabId (vacateNode gen root 0).1
        |> (λ s, set_panes (delete tabId (activePaneIds s)) s)
  end.

(** The ids of the tabs on screen; [None] when that is all of them. *)
Definition tabsInView (env : stores) (s : state) : option (list string) :=
  if negb (bool_decide (tabs_config env ≫= scope = Some perHost)) then None
  else
    match activeHostId env with
    | None => None
    | Some hostId =>
        Some (filter (λ t, tabIsOnHost t (layouts s) (channelHostMap env) hostId) (tabs s))
    end.

Definition in_view (inView : option (list string)) (t : string) : bool :=
  match inView with None => true | Some l => bool_decide (t ∈ l) end.

(** The layouts and focuses of the tabs kept, in the order of the bar. *)
Definition kept_layouts (keep : string → bool) (s : state) : jsmap string (option PaneNode) :=
  fold_left (λ next t,
      if keep t then
        match tab_root s t with Some root => <[t := Some root]> next | None => next end
      else next)
    (tabs s) ∅.
Definition kept_panes (keep : string → bool) (s : state) : jsmap string string :=
  fold_left (λ next t,
      if keep t then
        match activePaneIds s !! t with Some p => <[t := p]> next | None => next end
      else next)
    (tabs s) ∅.

(** [next.findIndex((t) => t.id === id)], -1 when there is none. *)
Definition index_of (id : option string) (l : list string) : Z :=
  match id ≫= λ i, find_index (λ t, bool_decide (t = i)) l with
  | Some i => Z.of_nat i
  | None => (-1)%Z
  end.

(** [keepIds], of [closeOthers] and [closeAll]: [special], and the tabs out of view. *)
Definition keepIds (inView : option (list string)) (special : option string) (t : string) : bool :=
  bool_decide (special = Some t) || negb (in_view inView t).

Definition closeOthers (env : stores) (keepIndex : Z) (s : state) : state :=
  match js_at (tabs s) keepIndex with
  | None => s
  | Some kept =>
      let keep := keepIds (tabsInView env s) (Some kept) in
      let next := filter keep (tabs s) in
      State next (Z.max 0 (index_of (Some kept) next)) (kept_layouts keep s) (kept_panes keep s)
  end.

(** [l.slice(k)], a negative [k] counting from the end. *)
Definition js_slice_from {A} (k : Z) (l : list A) : list A :=
  drop (Z.to_nat (if k <? 0 then Z.max 0 (Z.of_nat (length l) + k) else k)%Z) l.

Definition closeToRight (env : stores) (fromIndex : Z) (s : state) : state :=
  let inView := tabsInView env s in
  let removed := filter (in_view inView) (js_slice_from (fromIndex + 1)%Z (tabs s)) in
  let nextLayouts := fold_left (λ m t, delete t m) removed (layouts s) in
  let nextPanes := fold_left (λ m t, delete t m) removed (activePaneIds s) in
  let anchor := js_at (tabs s) fromIndex in
  let wasActiveId := js_at (tabs s) (activeTabIndex s) in
  let next := filter (λ t, t ∉ removed) (tabs s) in
  let stillActive := index_of wasActiveId next in
  let active :=
    if negb (stillActive =? -1)%Z then stillActive
    else
      let anchorIndex := index_of anchor next in
      Z.max 0 (if anchorIndex =? -1 then Z.of_nat (length next) - 1 else anchorIndex)%Z in
  State next active nextLayouts nextPanes.

Definition closeAll (env : stores) (exceptWelcomeChannelId : option string) (s : state) : state :=
  let welcomeTabId := exceptWelcomeChannelId ≫= findTabForChannel s in
  let keep := keepIds (tabsInView env s) welcomeTabId in
  let wasActiveId := js_at (tabs s) (activeTabIndex s) in
  let next := filter keep (tabs s) in
  let stillActive := index_of wasActiveId next in
  State next (if stillActive =? -1 then 0 else stillActive)%Z (kept_layouts keep s)
    (kept_panes keep s).

(** ** Across tabs *)

Definition moveToNewTab (sourceChannelId : string) (insertAtIndex : Z)
  (vacantId newTabId newPaneId : string) (s : state) : state :=
  match findTabForChannel s sourceChannelId with
  | None => s
  | Some sourceTabKey =>
      let s := vacatePaneInTab sourceTabKey sourceChannelId vacantId s in
      let idx := clamp insertAtIndex (length (tabs s)) in
      s |> set_tabs (splice_in idx newTabId (tabs s))
        |> put_root newTabId (Terminal sourceChannelId newPaneId)
        |> setActivePaneId newTabId newPaneId
        |> set_active (Z.of_nat idx)
  end.

Definition closeVacantPane (vacantId : string) (s : state) : state :=
  match activeTab s with
  | None => s
  | Some tab =>
      let close_it :=
        match find_index (λ t, bool_decide (t = tab)) (tabs s) with
        | Some index => closeTab (Z.of_nat index) s
        | None => s
        end in
      match tab_root s tab with
      | Some (Vacant id) => if decide (id = vacantId) then close_it else rearrangeVacant vacantId s
      | _ => rearrangeVacant vacantId s
      end
  end.

(** ** Purges *)

(** [for (let i = n - 1; i >= 0; i--)] over the tabs as they were, closing by index. *)
Fixpoint purge_loop (gone : string → bool) (tabs0 : list string) (i : nat) (s : state) : state :=
  match i with
  | 0 => s
  | S i' =>
      let s :=
        match tabs0 !! i' with
        | None => s
        | Some tab => if gone tab then closeTab (Z.of_nat i') s else s
        end in
      purge_loop gone tabs0 i' s
  end.

Definition dead_tab (deadIds : list string) (layouts : jsmap string (option PaneNode))
  (tab : string) : bool :=
  match mjoin (layouts !! tab) with
  | None => false
  | Some root =>
      let terminalIds := collectTerminalChannelIds root in
      negb (bool_decide (terminalIds = [])) && forallb (λ id, bool_decide (id ∈ deadIds)) terminalIds
  end.

(** [channels] are ids and statuses. *)
Definition purgeDeadTabs (channels : list (string * string)) (s : state) : state :=
  let deadIds := (filter (λ c : string * string, c.2 = "dead"%string) channels).*1 in
  purge_loop (dead_tab deadIds (layouts s)) (tabs s) (length (tabs s)) s.

Definition orphaned_tab (aliveIds : list string) (hostId : string) (hosts : jsmap string string)
  (layouts : jsmap string (option PaneNode)) (tab : string) : bool :=
  match mjoin (layouts !! tab) with
  | None => false
  | Some root =>
      let terminalIds := collectTerminalChannelIds root in
      if bool_decide (terminalIds = []) then false
      else if negb (forallb (λ id, bool_decide (hosts !! id = Some hostId)) terminalIds) then false
      else existsb (λ id, bool_decide (id ∉ aliveIds)) terminalIds &&
           negb (existsb (λ id, bool_decide (id ∈ aliveIds)) terminalIds)
  end.

Definition purgeOrphanedTabs (aliveIds : list string) (hostId : string)
  (hosts : jsmap string string) (s : state) : state :=
  purge_loop (orphaned_tab aliveIds hostId hosts (layouts s)) (tabs s) (length (tabs s)) s.

(** ** The operations as steps *)

Inductive op :=
| OpSetActivePaneId (tabId paneId : string)
| OpSetLayout (node : option PaneNode)
| OpSplit (channelId : string) (d : split_direction) (limit : nat) (id : string)
| OpUnsplit (channelId : string)
| OpUpdateRatio (path : NodePath) (ratio : Q)
| OpReplaceChannelId (oldId newId : string)
| OpVacate (channelId id : string)
| OpFill (vacantId channelId paneId : string)
| OpRearrange (vacantId : string)
| OpClosePane (channelId id : string)
| OpVacateIn (tabId channelId id : string)
| OpMove (channelId paneId tabId : string) (zone : DropZone) (vacantId newId : string)
| OpOpenTab (channelId paneId tabId : string)
| OpOpenVacantTab (vacantId tabId : string)
| OpCloseTab (index : Z)
| OpSetActiveTab (index : Z)
| OpReorder (fromIndex toIndex : Z)
| OpVacateAll (tabId : string) (gen : nat → string)
| OpCloseOthers (keepIndex : Z)
| OpCloseToRight (fromIndex : Z)
| OpCloseAll (except : option string)
| OpMoveToNewTab (channelId : string) (index : Z) (vacantId tabId paneId : string)
| OpCloseVacant (vacantId : string)
| OpPurgeDead (channels : list (string * string))
| OpPurgeOrphaned (aliveIds : list string) (hostId : string) (hosts : jsmap string string).

Definition step (env : stores) (o : op) (s : state) : state :=
  match o with
  | OpSetActivePaneId t p => setActivePaneId t p s
  | OpSetLayout n => setLayout n s
  | OpSplit c d l i => (splitPane c d l i s).1
  | OpUnsplit c => unsplitPane c s
  | OpUpdateRatio p r => updateRatio p r s
  | OpReplaceChannelId o n => replaceChannelId o n s
  | OpVacate c i => vacatePane c i s
  | OpFill v c p => (fillVacant v c p s).1
  | OpRearrange v => rearrangeVacant v s
  | OpClosePane c i => closePane c i s
  | OpVacateIn t c i => vacatePaneInTab t c i s
  | OpMove c p t z v n => movePaneTo c p t z v n s
  | OpOpenTab c p t => openTab env c p t s
  | OpOpenVacantTab v t => openVacantTab env v t s
  | OpCloseTab i => closeTab i s
  | OpSetActiveTab i => setActiveTab i s
  | OpReorder f t => reorderTab f t s
  | OpVacateAll t g => vacateAllPanesInTab t g s
  | OpCloseOthers k => closeOthers env k s
  | OpCloseToRight k => closeToRight env k s
  | OpCloseAll e => closeAll env e s
  | OpMoveToNewTab c i v t p => moveToNewTab c i v t p s
  | OpCloseVacant v => closeVacantPane v s
  | OpPurgeDead c => purgeDeadTabs c s
  | OpPurgeOrphaned a h m => purgeOrphanedTabs a h m s
  end.

(** What the callers see to: a new tab's id is new, a focus is recorded for a tab there is, and a
    layout set outright is a tree within the divider bounds. *)
Definition allowed (o : op) (s : state) : Prop :=
  match o with
  | OpSetActivePaneId t _ => t ∈ tabs s
  | OpSetLayout n => ∃ root, n = Some root ∧ ratios_ok root
  | OpOpenTab _ _ t | OpOpenVacantTab _ t | OpMoveToNewTab _ _ _ t _ => t ∉ tabs s
  | _ => True
  end.

(** The states a session goes through, the stores changing as they may. *)
Inductive session : state → Prop :=
| session_start : session (State [] 0 ∅ ∅)
| session_step env o s : session s → allowed o s → session (step env o s).

(** ** What the state keeps *)

Record consistent (ts : list string) (m : jsmap string (option PaneNode))
  (f : jsmap string string) : Prop := {
  con_tabs : NoDup ts;
  con_wf : js_wf m;
  con_focus_wf : js_wf f;
  con_root t : t ∈ ts → ∃ root, m !! t = Some (Some root) ∧ ratios_ok root;
  con_layout t : is_Some (m !! t) → t ∈ ts;
  con_focus t : is_Some (f !! t) → t ∈ ts;
}.

Definition active_ok (ts : list string) (i : Z) : Prop :=
  (0 <= i < Z.of_nat (length ts))%Z ∨ i = 0%Z ∧ ts = [].

(** Every tab has one layout, within the divider bounds, and no layout or focus outlives its tab;
    the active index is a tab's, or 0 in an empty bar. *)
Definition wf (s : state) : Prop :=
  consistent (tabs s) (layouts s) (activePaneIds s) ∧ active_ok (tabs s) (activeTabIndex s).

Section consistent_lemmas.
Implicit Types (ts : list string) (m : jsmap string (option PaneNode)) (f : jsmap string string)
  (keep : string → bool).

Lemma consistent_tab_root s t :
  consistent (tabs s) (layouts s) (activePaneIds s) →
  t ∈ tabs s ↔ ∃ root, tab_root s t = Some root.
Proof.
  intros Hc. setoid_rewrite tab_root_Some. split.
  - intros Ht. destruct (con_root _ _ _ Hc t Ht) as (root & ? & _). eauto.
  - intros [root Hroot]. apply (con_layout _ _ _ Hc). eauto.
Qed.

Lemma consistent_ratios s t root :
  consistent (tabs s) (layouts s) (activePaneIds s) → tab_root s t = Some root →
  t ∈ tabs s ∧ ratios_ok root.
Proof.
  intros Hc Hroot. assert (t ∈ tabs s) as Ht by (apply consistent_tab_root; eauto).
  split; [done|]. destruct (con_root _ _ _ Hc t Ht) as (r & Hr & ?).
  apply tab_root_Some in Hroot. congruence.
Qed.

Lemma consistent_put ts m f t root :
  consistent ts m f → t ∈ ts → ratios_ok root → consistent ts (<[t := Some root]> m) f.
Proof.
  intros [] Ht Hr. split; auto with jsmap.
  - intros u Hu. js_simpl. case_decide; eauto.
  - intros u. js_simpl. case_decide; subst; auto.
Qed.

Lemma consistent_focus ts m f t p :
  consistent ts m f → t ∈ ts → consistent ts m (<[t := p]> f).
Proof.
  intros [] Ht. split; auto with jsmap. intros u. js_simpl. case_decide; subst; auto.
Qed.

Lemma consistent_unfocus ts m f t : consistent ts m f → consistent ts m (delete t f).
Proof.
  intros []. split; auto with jsmap. intros u. js_simpl. case_decide; [by intros [? ?]|auto].
Qed.

Lemma consistent_perm ts ts' m f : ts ≡ₚ ts' → consistent ts m f → consistent ts' m f.
Proof. intros Hp []. split; auto; [by rewrite <- Hp| | |]; intros u; rewrite <- Hp; auto. Qed.

Lemma consistent_add ts ts' m f t root :
  consistent ts m f → t ∉ ts → ts' ≡ₚ t :: ts → ratios_ok root →
  consistent ts' (<[t := Some root]> m) f.
Proof.
  intros [] Ht Hp Hr. apply (consistent_perm (t :: ts)); [done|]. split; auto with jsmap.
  - by constructor.
  - intros u [->|Hu]%elem_of_cons; js_simpl; [rewrite decide_True by done; eauto|].
    case_decide; eauto.
  - intros u. js_simpl. case_decide; [subst; by left|right; auto].
  - intros u Hu. right. auto.
Qed.

Lemma consistent_drop ts ts' m f t :
  consistent ts m f → ts ≡ₚ t :: ts' → consistent ts' (delete t m) (delete t f).
Proof.
  intros Hc Hp. apply (consistent_perm _ _ _ _ Hp) in Hc as [Hnd ? ? Hroot Hl Hf].
  apply NoDup_cons in Hnd as [Ht Hnd].
  split; auto with jsmap; intros u; js_simpl.
  - intros Hu. destruct (Hroot u ltac:(by right)) as (root & ? & ?). rewrite decide_False; eauto.
    intros ->. done.
  - case_decide; [by intros [? ?]|]. intros [?|?]%Hl%elem_of_cons; congruence.
  - case_decide; [by intros [? ?]|]. intros [?|?]%Hf%elem_of_cons; congruence.
Qed.

(** A new map built from the tabs kept. *)
Lemma lookup_keep {V} (keep : string → bool) (g : string → option V) (l : list string) acc t :
  fold_left (λ next t,
      if keep t then match g t with Some v => <[t := v]> next | None => next end else next) l acc
    !! t =
  if decide (t ∈ l ∧ keep t = true ∧ is_Some (g t)) then g t else (acc : jsmap string V) !! t.
Proof.
  revert acc. induction l as [|u l IH]; intros acc; cbn [fold_left].
  { rewrite decide_False; [done|]. intros [H _]. inversion H. }
  rewrite IH. pose proof (elem_of_cons l t u) as Hcons.
  destruct (decide (t ∈ l ∧ keep t = true ∧ is_Some (g t))) as [Hin|Hin].
  { by rewrite decide_True by tauto. }
  destruct (decide (u = t)) as [->|Hu].
  - destruct (keep t) eqn:Hk; [destruct (g t) as [v|] eqn:Hg|].
    + rewrite decide_True by (split_and!; [by apply Hcons; left|done|done]).
      by rewrite js_lookup_insert_eq.
    + rewrite decide_False; [done|]. intros (_ & _ & [? ?]). done.
    + rewrite decide_False; [done|]. by intros (_ & ? & _).
  - rewrite decide_False by (rewrite Hcons; intros ([->|?] & ? & ?); tauto).
    destruct (keep u); [|done]. destruct (g u); [|done]. by rewrite js_lookup_insert_ne.
Qed.

Lemma wf_keep {V} (keep : string → bool) (g : string → option V) (l : list string) acc :
  js_wf (acc : jsmap string V) →
  js_wf (fold_left (λ next t,
      if keep t then match g t with Some v => <[t := v]> next | None => next end else next) l acc).
Proof.
  revert acc. induction l as [|u l IH]; intros acc Hacc; cbn [fold_left]; [done|].
  apply IH. destruct (keep u); [|done]. destruct (g u); auto with jsmap.
Qed.

Lemma lookup_kept_layouts keep s t root :
  kept_layouts keep s !! t = Some root ↔ t ∈ filter keep (tabs s) ∧ Some <$> tab_root s t = Some root.
Proof.
  unfold kept_layouts.
  pose proof (lookup_keep keep (λ t, Some <$> tab_root s t) (tabs s) ∅ t) as H.
  assert (∀ acc l, fold_left (λ next t, if keep t then
      match Some <$> tab_root s t with Some v => <[t := v]> next | None => next end else next) l acc =
    fold_left (λ next t, if keep t then
      match tab_root s t with Some root => <[t := Some root]> next | None => next end
      else next) l (acc : jsmap string (option PaneNode))) as Heq.
  { intros acc l. revert acc. induction l as [|u l IH]; intros acc; cbn [fold_left]; [done|].
    rewrite IH. f_equal. by destruct (keep u), (tab_root s u). }
  rewrite <- Heq, H, list_elem_of_filter. case_decide as Hd.
  - destruct Hd as (Hin & Hk & _). rewrite Hk. split; [by intros ->|by intros [_ ?]].
  - rewrite js_lookup_empty. split; [done|]. intros [[Hk Ht] Hr]. destruct Hd.
    split_and!; [done|by apply Is_true_true|eauto].
Qed.

Lemma lookup_kept_panes keep s t p :
  kept_panes keep s !! t = Some p ↔ t ∈ filter keep (tabs s) ∧ activePaneIds s !! t = Some p.
Proof.
  unfold kept_panes. rewrite (lookup_keep keep (λ t, activePaneIds s !! t)), list_elem_of_filter.
  case_decide as Hd.
  - destruct Hd as (Hin & Hk & _). rewrite Hk. split; [by intros ->|by intros [_ ?]].
  - rewrite js_lookup_empty. split; [done|]. intros [[Hk Ht] Hr]. destruct Hd.
    split_and!; [done|by apply Is_true_true|eauto].
Qed.

Lemma consistent_keep keep s :
  consistent (tabs s) (layouts s) (activePaneIds s) →
  consistent (filter keep (tabs s)) (kept_layouts keep s) (kept_panes keep s).
Proof.
  intros Hc. split.
  - apply NoDup_filter, Hc.
  - clear Hc. unfold kept_layouts. generalize (js_wf_empty (K:=string) (V:=option PaneNode)).
    generalize (∅ : jsmap string (option PaneNode)).
    induction (tabs s) as [|t l IH]; intros acc Hacc; cbn [fold_left]; [done|].
    apply IH. destruct (keep t); [|done]. destruct (tab_root s t); auto with jsmap.
  - apply wf_keep, js_wf_empty.
  - intros t Ht. pose proof Ht as [_ Hin]%list_elem_of_filter.
    destruct (con_root _ _ _ Hc t Hin) as (root & Hr & ?). exists root. split; [|done].
    apply lookup_kept_layouts. apply tab_root_Some in Hr. by rewrite Hr.
  - intros t [r Hr]. by apply lookup_kept_layouts in Hr as [? _].
  - intros t [r Hr]. by apply lookup_kept_panes in Hr as [? _].
Qed.

Lemma lookup_deletes {V} (l : list string) (m : jsmap string V) t :
  fold_left (λ (n : jsmap string V) t, delete t n) l m !! t = if decide (t ∈ l) then None else m !! t.
Proof.
  revert m. induction l as [|u l IH]; intros m'; cbn [fold_left].
  { rewrite decide_False; [done|]. by inversion 1. }
  rewrite IH. pose proof (elem_of_cons l t u) as Hcons. js_simpl.
  destruct (decide (t ∈ l)) as [Hl|Hl]; [by rewrite decide_True by tauto|].
  destruct (decide (u = t)) as [->|Hu]; [by rewrite decide_True by tauto|].
  rewrite decide_False; [done|]. rewrite Hcons. intros [->|?]; done.
Qed.

Lemma wf_deletes {V} (l : list string) (m : jsmap string V) :
  js_wf m → js_wf (fold_left (λ (n : jsmap string V) t, delete t n) l m).
Proof. revert m. induction l; simpl; auto with jsmap. Qed.

Lemma consistent_deletes s removed :
  consistent (tabs s) (layouts s) (activePaneIds s) →
  consistent (filter (λ t, t ∉ removed) (tabs s)) (fold_left (λ m t, delete t m) removed (layouts s))
    (fold_left (λ (n : jsmap string string) t, delete t n) removed (activePaneIds s)).
Proof.
  intros Hc. split; try apply wf_deletes, Hc.
  - apply NoDup_filter, Hc.
  - intros t [Hn Ht]%list_elem_of_filter. rewrite lookup_deletes, decide_False by done.
    by apply (con_root _ _ _ Hc).
  - intros t. rewrite lookup_deletes. case_decide; [by intros [? ?]|]. intros Ht.
    apply list_elem_of_filter. split; [done|]. by apply (con_layout _ _ _ Hc).
  - intros t. rewrite lookup_deletes. case_decide; [by intros [? ?]|]. intros Ht.
    apply list_elem_of_filter. split; [done|]. by apply (con_focus _ _ _ Hc).
Qed.
End consistent_lemmas.

(** ** Positions in the bar *)

Section positions.
Implicit Types (l : list string) (t : string).

Lemma js_at_Some {A} (l : list A) i x :
  js_at l i = Some x ↔ (0 <= i < Z.of_nat (length l))%Z ∧ l !! Z.to_nat i = Some x.
Proof.
  unfold js_at. destruct (0 <=? i)%Z eqn:Hi; [apply Z.leb_le in Hi|apply Z.leb_gt in Hi].
  - split; [|by intros [_ ?]]. intros Hx. pose proof (lookup_lt_Some _ _ _ Hx). split; [lia|done].
  - split; [done|]. intros [? _]. lia.
Qed.

Lemma js_at_nat {A} (l : list A) (i : nat) : js_at l (Z.of_nat i) = l !! i.
Proof. unfold js_at. rewrite (proj2 (Z.leb_le 0 (Z.of_nat i))) by lia. by rewrite Nat2Z.id. Qed.

Lemma active_ok_nat l (i : nat) : i < length l → active_ok l (Z.of_nat i).
Proof. intros. left. lia. Qed.

Lemma index_of_spec id l :
  (index_of id l = (-1)%Z ∧ ∀ t, id = Some t → t ∉ l) ∨
  ∃ i t, id = Some t ∧ index_of id l = Z.of_nat i ∧ l !! i = Some t ∧
    ∀ j, j < i → l !! j ≠ Some t.
Proof.
  unfold index_of. destruct id as [t|]; simpl; [|by left].
  destruct (find_index _ l) as [i|] eqn:Hi; [right|left].
  - destruct (find_index_Some _ _ _ Hi) as (x & Hl & Hx & Hmin).
    apply bool_decide_eq_true in Hx as ->. exists i, t. split_and!; [done..|].
    intros j Hj Hjt. specialize (Hmin j t Hj Hjt). by apply bool_decide_eq_false in Hmin.
  - split; [done|]. intros ? [= <-] Hin. apply find_index_None in Hi. rewrite Forall_forall in Hi.
    specialize (Hi t Hin). by rewrite bool_decide_eq_false in Hi.
Qed.

Lemma index_of_max l id : active_ok l (Z.max 0 (index_of id l)).
Proof.
  destruct (index_of_spec id l) as [[-> _]|(i & t & _ & -> & Hl & _)].
  - simpl. destruct l; [by right|left; simpl; lia].
  - pose proof (lookup_lt_Some _ _ _ Hl). left. lia.
Qed.

Lemma delete_Permutation' l i t : l !! i = Some t → l ≡ₚ t :: delete i l.
Proof. apply delete_Permutation. Qed.
End positions.

Lemma activeTab_elem s tab : activeTab s = Some tab → tab ∈ tabs s.
Proof. unfold activeTab. intros [_ H]%js_at_Some. by eapply list_elem_of_lookup_2. Qed.

(** ** Every operation keeps the invariant *)

Section preservation.
Implicit Types (s : state) (env : stores).

Lemma wf_put s t root : wf s → t ∈ tabs s → ratios_ok root → wf (put_root t root s).
Proof. intros [Hc Ha] Ht Hr. split; [|done]. by apply consistent_put. Qed.

Lemma wf_focus s t p : wf s → t ∈ tabs s → wf (setActivePaneId t p s).
Proof. intros [Hc Ha] Ht. split; [|done]. by apply consistent_focus. Qed.

Lemma wf_unfocus s t : wf s → wf (set_panes (delete t (activePaneIds s)) s).
Proof. intros [Hc Ha]. split; [|done]. by apply consistent_unfocus. Qed.

Lemma wf_refocus s t ch root updated : wf s → t ∈ tabs s → wf (refocus t ch root updated s).
Proof.
  intros Hw Ht. unfold refocus. repeat case_match; auto using wf_unfocus.
  by apply wf_focus.
Qed.

Lemma wf_root s t root : wf s → tab_root s t = Some root → t ∈ tabs s ∧ ratios_ok root.
Proof. intros [Hc _]. by apply consistent_ratios. Qed.

Lemma wf_active_root s t root :
  wf s → activeTab s = Some t → tab_root s t = Some root → t ∈ tabs s ∧ ratios_ok root.
Proof. intros Hw _. by apply wf_root. Qed.

Lemma wf_vacateIn t ch id s : wf s → wf (vacatePaneInTab t ch id s).
Proof.
  intros Hw. unfold vacatePaneInTab. destruct (tab_root s t) as [root|] eqn:Hroot; [|done].
  rewrite replaceTerminalNode_path. destruct (findChannelPath root ch) as [p|]; [|done]. simpl.
  destruct (wf_root _ _ _ Hw Hroot) as [Ht Hr].
  apply wf_refocus; [|done]. apply wf_put; [done..|]. by apply ratios_set.
Qed.

Lemma wf_vacate ch id s : wf s → wf (vacatePane ch id s).
Proof. unfold vacatePane. case_match; auto using wf_vacateIn. Qed.

Lemma wf_setLayout root s : wf s → ratios_ok root → wf (setLayout (Some root) s).
Proof.
  intros Hw Hr. unfold setLayout. destruct (activeTab s) as [t|] eqn:Ht; [|done].
  apply (wf_put s t root); [done|by apply activeTab_elem|done].
Qed.

Lemma wf_split ch d limit id s : wf s → wf (splitPane ch d limit id s).1.
Proof.
  intros Hw. unfold splitPane, on_active. destruct (activeTab s) as [t|]; [|done].
  destruct (tab_root s t) as [root|] eqn:Hroot; [|done]. case_match; [done|].
  destruct (findChannelPath root ch) as [p|]; [|done].
  destruct (getNodeAtPath root p) as [n|] eqn:Hn; [|done]. simpl.
  destruct (wf_root _ _ _ Hw Hroot) as [Ht Hr]. apply wf_put; [done..|]. apply ratios_set; [done|].
  simpl. split_and!; [apply half_ok..| |done]. by eapply ratios_get.
Qed.

Lemma wf_collapse t root path s r :
  wf s → tab_root s t = Some root → collapse root path = Some r → wf (put_root t r s).
Proof.
  intros Hw Hroot Hc. destruct (wf_root _ _ _ Hw Hroot) as [Ht Hr].
  apply wf_put; [done..|]. by eapply ratios_collapse.
Qed.

Lemma wf_unsplit ch s : wf s → wf (unsplitPane ch s).
Proof.
  intros Hw. unfold unsplitPane, on_active. destruct (activeTab s) as [t|]; [|done].
  destruct (tab_root s t) as [root|] eqn:Hroot; [|done].
  destruct (findChannelPath root ch) as [[|u p]|]; [done| |done].
  destruct (collapse root (u :: p)) eqn:Hc; [|done]. by eapply wf_collapse.
Qed.

Lemma wf_rearrange v s : wf s → wf (rearrangeVacant v s).
Proof.
  intros Hw. unfold rearrangeVacant, on_active. destruct (activeTab s) as [t|]; [|done].
  destruct (tab_root s t) as [root|] eqn:Hroot; [|done].
  destruct (findVacantPath root v) as [[|u p]|]; [done| |done].
  destruct (collapse root (u :: p)) eqn:Hc; [|done]. by eapply wf_collapse.
Qed.

Lemma wf_updateRatio p q s : wf s → wf (updateRatio p q s).
Proof.
  intros Hw. unfold updateRatio, on_active. destruct (activeTab s) as [t|]; [|done].
  destruct (tab_root s t) as [root|] eqn:Hroot; [|done].
  destruct (getNodeAtPath root p) as [[| |d r a b]|] eqn:Hn; try done.
  destruct (wf_root _ _ _ Hw Hroot) as [Ht Hr]. apply wf_put; [done..|]. apply ratios_set; [done|].
  apply (ratios_get _ _ _ Hr) in Hn as (_ & ? & ?). split_and!; [apply clamp_bounds..|done|done].
Qed.

Lemma lookup_replace (f : PaneNode → PaneNode) (m : jsmap string (option PaneNode)) t :
  (JsMap ((λ kt : string * option PaneNode, (kt.1, f <$> kt.2)) <$> entries m)) !! t =
    fmap f <$> (m !! t).
Proof.
  destruct m as [l]. unfold lookup, jsmap_lookup. simpl.
  induction l as [|[k x] l IH]; csimpl; [done|]. by case_decide.
Qed.

Lemma wf_replace o n s : wf s → wf (replaceChannelId o n s).
Proof.
  intros [[] Ha]. split; [|done]. unfold replaceChannelId. split; simpl; auto.
  - unfold js_wf, js_keys in *. simpl. rewrite <- list_fmap_compose. done.
  - intros t Ht. destruct (con_root0 t Ht) as (root & Hr & ?).
    exists (replaceInTree root o n). split; [|by apply ratios_replaceInTree].
    rewrite (lookup_replace (λ tree, replaceInTree tree o n)). by rewrite Hr.
  - intros t. rewrite (lookup_replace (λ tree, replaceInTree tree o n)), fmap_is_Some. auto.
Qed.

Lemma wf_fill v ch p s : wf s → wf (fillVacant v ch p s).1.
Proof.
  intros Hw. unfold fillVacant. induction (fill_order s) as [|t ts IH]; [done|]. simpl.
  destruct (tab_root s t) as [root|] eqn:Hroot; simpl; [|done].
  destruct (findVacantPath root v) as [path|]; simpl; [|done].
  destruct (wf_root _ _ _ Hw Hroot) as [Ht Hr].
  apply wf_focus; [|done]. apply wf_put; [done..|]. by apply ratios_set.
Qed.

Lemma wf_closePane ch id s : wf s → wf (closePane ch id s).
Proof.
  intros Hw. unfold closePane. destruct (findTabForChannel s ch) as [t|]; [|done].
  destruct (tab_root s t) as [root|] eqn:Hroot; [|done].
  destruct (wf_root _ _ _ Hw Hroot) as [Ht Hr].
  destruct (findChannelPath root ch) as [[|u p]|]; [| |done].
  - apply (wf_unfocus (put_root t (Vacant id) s)). by apply wf_put.
  - destruct (collapse root (u :: p)) eqn:Hc; [|done].
    apply wf_refocus; [by eapply wf_collapse|done].
Qed.

Lemma wf_move ch p t z v n s : wf s → wf (movePaneTo ch p t z v n s).
Proof.
  intros Hw. unfold movePaneTo. destruct (findTabForChannel s ch) as [src|]; [|done].
  pose proof (wf_vacateIn src ch v s Hw) as Hw1. set (s1 := vacatePaneInTab src ch v s) in *.
  destruct (tab_root s1 t) as [root|] eqn:Hroot; [|done].
  destruct (wf_root _ _ _ Hw1 Hroot) as [Ht Hr].
  assert (∀ r, ratios_ok r → wf (put_root t r s1 |> setActivePaneId t n)) as Hput.
  { intros r Hrr. apply wf_focus; [|done]. by apply wf_put. }
  rewrite replaceNodeByPaneId_path. destruct (findNodePathByPaneId root p) as [path|];
    [|by destruct z]. simpl.
  destruct (getNodeAtPath root path) as [x|] eqn:Hx.
  - assert (ratios_ok x) by (by eapply ratios_get).
    destruct z; apply Hput, ratios_set; try done;
      (split_and!; simpl; first [apply half_ok|done]).
  - destruct z; try done. by apply Hput, ratios_set.
Qed.
End preservation.

(** ** Opening, closing and moving tabs *)

Section tab_operations.
Implicit Types (s : state) (env : stores).

(** Adding a tab: where, and what it brings. *)
Lemma addTab_spec env root p t s :
  ∃ i, i <= length (tabs s) ∧
    addTab env root p t s =
      State (splice_in i t (tabs s)) (Z.of_nat i) (<[t := Some root]> (layouts s))
        (match p with None => activePaneIds s | Some p => <[t := p]> (activePaneIds s) end).
Proof.
  unfold addTab. case_decide.
  - exists (clamp (activeTabIndex s + 1) (length (tabs s))). split; [apply clamp_le|].
    by destruct p.
  - exists (length (tabs s)). split; [done|].
    replace (tabs s ++ [t]) with (splice_in (length (tabs s)) t (tabs s)); [by destruct p|].
    unfold splice_in. by rewrite take_ge, drop_ge by done.
Qed.

Lemma wf_add i root p t s :
  wf s → t ∉ tabs s → ratios_ok root → i <= length (tabs s) →
  wf (State (splice_in i t (tabs s)) (Z.of_nat i) (<[t := Some root]> (layouts s))
        (match p with None => activePaneIds s | Some p => <[t := p]> (activePaneIds s) end)).
Proof.
  intros [Hc _] Ht Hr Hi. split; simpl.
  - assert (consistent (splice_in i t (tabs s)) (<[t:=Some root]> (layouts s)) (activePaneIds s)).
    { eapply consistent_add; [exact Hc|done|apply splice_in_Permutation|done]. }
    destruct p; [|done]. apply consistent_focus; [done|]. rewrite splice_in_Permutation. by left.
  - apply active_ok_nat. rewrite length_splice_in. lia.
Qed.

Lemma wf_addTab env root p t s :
  wf s → t ∉ tabs s → ratios_ok root → wf (addTab env root p t s).
Proof.
  intros. destruct (addTab_spec env root p t s) as (i & ? & ->). by apply wf_add.
Qed.

Lemma wf_set_active i s : wf s → active_ok (tabs s) i → wf (set_active i s).
Proof. intros [Hc _] Hi. by split. Qed.

Lemma wf_openTab env ch p t s : wf s → t ∉ tabs s → wf (openTab env ch p t s).
Proof.
  intros Hw Ht. unfold openTab. destruct (findTabForChannel s ch) as [e|].
  2: by apply wf_addTab.
  destruct (find_index _ (tabs s)) as [i|] eqn:Hi; [|by apply wf_addTab].
  apply wf_set_active; [done|]. destruct (find_index_Some _ _ _ Hi) as (x & Hx & _).
  apply active_ok_nat. by eapply lookup_lt_Some.
Qed.

Lemma closeTab_spec i s :
  match js_at (tabs s) i with
  | None => closeTab i s = s
  | Some t =>
      tabs (closeTab i s) = delete (Z.to_nat i) (tabs s) ∧
      layouts (closeTab i s) = delete t (layouts s) ∧
      activePaneIds (closeTab i s) = delete t (activePaneIds s)
  end.
Proof. unfold closeTab. by destruct (js_at (tabs s) i). Qed.

Lemma active_ok_close (next : list string) a i :
  let n := Z.of_nat (length next) in
  (0 <= i)%Z → (0 <= a <= n)%Z →
  active_ok next (if (n <=? a)%Z then Z.max 0 (n - 1) else if (i <? a)%Z then a - 1 else a)%Z.
Proof.
  intros n Hi Ha. unfold active_ok, n in *.
  destruct (Z.leb_spec (Z.of_nat (length next)) a), (Z.ltb_spec i a); try (left; lia);
    (destruct next as [|x l]; cbn [length] in *; [right; split; [lia|done]|left; lia]).
Qed.

Lemma wf_closeTab i s : wf s → wf (closeTab i s).
Proof.
  intros [Hc Ha]. unfold closeTab. destruct (js_at (tabs s) i) as [t|] eqn:Hi; [|by split].
  apply js_at_Some in Hi as [Hr Hl].
  pose proof (delete_Permutation _ _ _ Hl) as Hp. split; [by eapply consistent_drop|].
  pose proof (Permutation_length Hp) as Hlen.
  destruct Ha as [Ha|[_ Hnil]]; [|by rewrite Hnil in Hl].
  apply active_ok_close; [lia|]. rewrite Hlen in Ha. cbn [length] in Ha. lia.
Qed.

Lemma wf_setActiveTab i s : wf s → wf (setActiveTab i s).
Proof.
  intros Hw. unfold setActiveTab. case_match eqn:Hi; [|done].
  apply wf_set_active; [done|]. left. lia.
Qed.

(** Where a tab dragged ends, and that the tab in front follows. *)
Lemma reorder_spec f t s :
  reorderTab f t s = s ∨
  ∃ (i j : nat) x, f = Z.of_nat i ∧ Z.of_nat j = Z.max 0 (Z.min t (Z.of_nat (length (tabs s)) - 1)) ∧
    i ≠ j ∧ j < length (tabs s) ∧ tabs s !! i = Some x ∧
    reorderTab f t s =
      (s |> set_tabs (splice_in j x (delete i (tabs s)))
         |> set_active (if (activeTabIndex s =? f) then Z.of_nat j
                        else if (f <? activeTabIndex s) && (activeTabIndex s <=? Z.of_nat j)
                        then activeTabIndex s - 1
                        else if (activeTabIndex s <? f) && (Z.of_nat j <=? activeTabIndex s)
                        then activeTabIndex s + 1
                        else activeTabIndex s)%Z).
Proof.
  unfold reorderTab. case_match eqn:H1; [by left|]. case_match eqn:H2; [by left|].
  case_match eqn:H3; [by left|]. case_match eqn:H4; [|by left]. right.
  pose proof (lookup_lt_Some _ _ _ H4).
  exists (Z.to_nat f), (Z.to_nat (Z.max 0 (Z.min t (Z.of_nat (length (tabs s)) - 1)))), s0.
  rewrite !Z2Nat.id by lia. split_and!; try lia; [done|]. reflexivity.
Qed.

Lemma length_delete_lookup {A} (l : list A) i x :
  l !! i = Some x → S (length (delete i l)) = length l.
Proof. intros Hl. rewrite (delete_Permutation _ _ _ Hl) at 2. done. Qed.

Lemma splice_delete_Permutation {A} (l : list A) i j x :
  l !! i = Some x → splice_in j x (delete i l) ≡ₚ l.
Proof. intros Hl. rewrite splice_in_Permutation. symmetry. by apply delete_Permutation. Qed.

Lemma lookup_moved {A} (l : list A) (i j k : nat) x :
  l !! i = Some x → j < length l → k < length l →
  splice_in j x (delete i l) !!
    (if decide (k = i) then j
     else if decide (i < k ∧ k <= j) then k - 1
     else if decide (k < i ∧ j <= k) then k + 1 else k) = l !! k.
Proof.
  intros Hx Hj Hk. pose proof (length_delete_lookup _ _ _ Hx) as Hlen.
  destruct (decide (k = i)) as [->|Hki].
  { rewrite lookup_splice_in by lia. done. }
  case_decide as H1; [|case_decide as H2].
  - rewrite lookup_splice_in_lt by lia. rewrite list_lookup_delete_ge by lia. f_equal. lia.
  - replace (k + 1) with (S k) by lia. rewrite lookup_splice_in_ge by lia.
    by rewrite list_lookup_delete_lt by lia.
  - destruct (decide (k < j)) as [Hlt|Hge].
    + rewrite lookup_splice_in_lt by lia. by rewrite list_lookup_delete_lt by lia.
    + destruct k as [|k]; [lia|]. rewrite lookup_splice_in_ge by lia.
      by rewrite list_lookup_delete_ge by lia.
Qed.

Lemma reorder_active f t s :
  wf s → activeTab (reorderTab f t s) = activeTab s.
Proof.
  intros [_ Ha]. destruct (reorder_spec f t s) as [->|(i & j & x & -> & _ & Hij & Hj & Hx & ->)]; [done|].
  assert (0 <= activeTabIndex s < Z.of_nat (length (tabs s)))%Z as [Ha0 Ha1].
  { destruct Ha as [?|[_ Hnil]]; [done|]. rewrite Hnil in Hj. simpl in Hj. lia. }
  unfold activeTab. simpl. set (k := Z.to_nat (activeTabIndex s)).
  replace (activeTabIndex s) with (Z.of_nat k) in * by lia.
  rewrite js_at_nat, <- (lookup_moved (tabs s) i j k x) by (done || lia). rewrite <- js_at_nat.
  f_equal. repeat case_decide; repeat case_match; lia.
Qed.

Lemma wf_reorder f t s : wf s → wf (reorderTab f t s).
Proof.
  intros [Hc Ha]. destruct (reorder_spec f t s) as [->|(i & j & x & -> & _ & Hij & Hj & Hx & ->)];
    [by split|].
  pose proof (splice_delete_Permutation (tabs s) i j x Hx) as Hp. split; simpl.
  - by eapply consistent_perm.
  - pose proof (Permutation_length Hp) as Hlen. pose proof (lookup_lt_Some _ _ _ Hx).
    destruct Ha as [Ha|[_ Hnil]]; [|rewrite Hnil in Hj; simpl in Hj; lia].
    left. rewrite Hlen. repeat case_match; lia.
Qed.

Lemma vacateNode_ratios gen n k : ratios_ok n → ratios_ok (vacateNode gen n k).1.
Proof.
  revert k. induction n as [| |d q a IHa b IHb]; intros k; simpl; [done..|].
  intros (? & ? & ?). destruct (vacateNode gen a k) as [a' k1] eqn:Ha.
  destruct (vacateNode gen b k1) as [b' k2] eqn:Hb. simpl.
  specialize (IHa k). specialize (IHb k1). rewrite Ha in IHa. rewrite Hb in IHb. auto.
Qed.

Lemma wf_vacateAll t gen s : wf s → wf (vacateAllPanesInTab t gen s).
Proof.
  intros Hw. unfold vacateAllPanesInTab. destruct (tab_root s t) as [root|] eqn:Hroot; [|done].
  destruct (wf_root _ _ _ Hw Hroot) as [Ht Hr].
  apply (wf_unfocus (put_root t _ s)). apply wf_put; [done..|]. by apply vacateNode_ratios.
Qed.

Lemma active_ok_index l id : active_ok l (if index_of id l =? -1 then 0 else index_of id l)%Z.
Proof.
  pose proof (index_of_max l id) as H. destruct (index_of_spec id l) as [[Hi _]|(i & t & _ & Hi & _)];
    rewrite Hi in *; simpl in *; [done|]. case_match; [lia|].
  by rewrite Z.max_r in H by lia.
Qed.

Lemma wf_closeOthers env k s : wf s → wf (closeOthers env k s).
Proof.
  intros [Hc Ha]. unfold closeOthers. destruct (js_at (tabs s) k); [|by split].
  split; simpl; [by apply consistent_keep|apply index_of_max].
Qed.

Lemma wf_closeToRight env k s : wf s → wf (closeToRight env k s).
Proof.
  intros [Hc Ha]. unfold closeToRight. split; simpl; [by apply consistent_deletes|].
  set (next := filter _ (tabs s)).
  pose proof (active_ok_index next (js_at (tabs s) (activeTabIndex s))) as H1.
  pose proof (index_of_max next (js_at (tabs s) k)) as H2.
  destruct (index_of (js_at (tabs s) (activeTabIndex s)) next =? -1)%Z; simpl; [|done].
  destruct (index_of (js_at (tabs s) k) next =? -1)%Z; [|done].
  destruct next; [by right|left; simpl; lia].
Qed.

Lemma wf_closeAll env e s : wf s → wf (closeAll env e s).
Proof.
  intros [Hc Ha]. unfold closeAll. split; simpl; [by apply consistent_keep|apply active_ok_index].
Qed.

Lemma vacateIn_tabs t ch id s : tabs (vacatePaneInTab t ch id s) = tabs s.
Proof. apply vacate_only. Qed.

Lemma wf_moveToNewTab ch i v t p s : wf s → t ∉ tabs s → wf (moveToNewTab ch i v t p s).
Proof.
  intros Hw Ht. unfold moveToNewTab. destruct (findTabForChannel s ch) as [src|]; [|done].
  apply (wf_add _ (Terminal ch p) (Some p)); [by apply wf_vacateIn| |done|apply clamp_le].
  by rewrite vacateIn_tabs.
Qed.

Lemma wf_closeVacant v s : wf s → wf (closeVacantPane v s).
Proof.
  intros Hw. unfold closeVacantPane. destruct (activeTab s) as [t|]; [|done].
  repeat case_match; auto using wf_rearrange, wf_closeTab.
Qed.

Lemma wf_purge gone l n s : wf s → wf (purge_loop gone l n s).
Proof.
  revert s. induction n as [|n IH]; intros s Hw; [done|]. simpl. apply IH.
  repeat case_match; auto using wf_closeTab.
Qed.

Lemma layout_wf_step env o s : wf s → allowed o s → wf (step env o s).
Proof.
  intros Hw Ho. destruct o; simpl in *; auto using wf_focus, wf_split, wf_unsplit, wf_updateRatio,
    wf_replace, wf_vacate, wf_fill, wf_rearrange, wf_closePane, wf_vacateIn, wf_move, wf_openTab,
    wf_closeTab, wf_setActiveTab, wf_reorder, wf_vacateAll, wf_closeOthers, wf_closeToRight,
    wf_closeAll, wf_moveToNewTab, wf_closeVacant.
  - destruct Ho as (root & -> & ?). by apply wf_setLayout.
  - by apply wf_addTab.
  - by apply wf_purge.
  - by apply wf_purge.
Qed.
End tab_operations.

(** ** What bulk operations keep *)

(** The tabs [keep] selects stay, in their order and with all they had. *)
Definition keeps (keep : string → bool) (s s' : state) : Prop :=
  tabs s' = filter keep (tabs s) ∧
  ∀ t, t ∈ tabs s' → layouts s' !! t = layouts s !! t ∧ activePaneIds s' !! t = activePaneIds s !! t.

Definition hidden (env : stores) (s : state) (t : string) : bool :=
  negb (in_view (tabsInView env s) t).

(** The tab in front stays in front if it stays. *)
Definition front_stays (s s' : state) : Prop :=
  ∀ t, activeTab s = Some t → t ∈ tabs s' → activeTab s' = Some t.

Section bulk.
Implicit Types (s : state) (env : stores) (keep : string → bool).

Lemma keeps_kept keep s i :
  consistent (tabs s) (layouts s) (activePaneIds s) →
  keeps keep s (State (filter keep (tabs s)) i (kept_layouts keep s) (kept_panes keep s)).
Proof.
  intros Hc. split; [done|]. simpl. intros t Ht. pose proof Ht as [_ Hin]%list_elem_of_filter. split.
  - destruct (con_root _ _ _ Hc t Hin) as (root & Hr & _). rewrite Hr. apply lookup_kept_layouts.
    apply tab_root_Some in Hr. by rewrite Hr.
  - destruct (activePaneIds s !! t) as [p|] eqn:Hp; [by apply lookup_kept_panes|].
    destruct (kept_panes keep s !! t) as [p|] eqn:Hk; [|done].
    apply lookup_kept_panes in Hk as [_ Hk]. congruence.
Qed.

Lemma index_of_elem t l : t ∈ l → ∃ i, index_of (Some t) l = Z.of_nat i ∧ l !! i = Some t.
Proof.
  intros Ht. destruct (index_of_spec (Some t) l) as [[_ Hno]|(i & u & [= <-] & Hi & Hl & _)]; [|eauto].
  by destruct (Hno t).
Qed.

Lemma front_kept keep s ls ps :
  front_stays s (State (filter keep (tabs s))
    (let i := index_of (activeTab s) (filter keep (tabs s)) in if (i =? -1)%Z then 0%Z else i) ls ps).
Proof.
  intros t Ht Hin. rewrite Ht. simpl in *.
  destruct (index_of_elem t _ Hin) as (i & Hi & Hl). rewrite Hi.
  unfold activeTab. simpl. rewrite (proj2 (Z.eqb_neq _ _)) by lia. by rewrite js_at_nat.
Qed.

(** The tabs closed to the right are those in view past the anchor. *)
Lemma removed_right env s k t :
  NoDup (tabs s) → (0 <= k)%Z → t ∈ tabs s →
  t ∉ filter (in_view (tabsInView env s)) (js_slice_from (k + 1)%Z (tabs s)) ↔
  bool_decide (t ∈ take (S (Z.to_nat k)) (tabs s)) || hidden env s t = true.
Proof.
  intros Hnd Hk Ht. unfold js_slice_from, hidden.
  rewrite (proj2 (Z.ltb_ge (k + 1) 0)) by lia. replace (Z.to_nat (k + 1)) with (S (Z.to_nat k)) by lia.
  rewrite list_elem_of_filter, orb_true_iff, bool_decide_eq_true, negb_true_iff.
  rewrite <- (take_drop (S (Z.to_nat k)) (tabs s)) in Hnd, Ht.
  apply NoDup_app in Hnd as (_ & Hd & _). apply elem_of_app in Ht. specialize (Hd t).
  destruct (in_view _ t) eqn:Hv; simpl.
  - split; [intros Hn|intros [?|?] [_ ?]; [tauto|done]]. left. destruct Ht; [done|tauto].
  - split; [by right|]. intros _ [H _]. done.
Qed.

Lemma delete_other {V} (m : jsmap string V) t u : u ≠ t → delete t m !! u = m !! u.
Proof. intros. by apply js_lookup_delete_ne. Qed.

(** The purge, seen from its middle: the tabs before [i] have still to be looked at. *)
Lemma purge_loop_spec gone l i rest s :
  NoDup (l ++ rest) → i = length l → tabs s = l ++ rest →
  let s' := purge_loop gone (tabs s) i s in
  tabs s' = filter (λ t, negb (gone t)) l ++ rest ∧
  ∀ t, t ∈ tabs s' → layouts s' !! t = layouts s !! t ∧ activePaneIds s' !! t = activePaneIds s !! t.
Proof.
  enough (∀ tabs0, take i tabs0 = l → NoDup (l ++ rest) → i = length l → tabs s = l ++ rest →
    let s' := purge_loop gone tabs0 i s in
    tabs s' = filter (λ t, negb (gone t)) l ++ rest ∧
    ∀ t, t ∈ tabs s' → layouts s' !! t = layouts s !! t ∧ activePaneIds s' !! t = activePaneIds s !! t)
    as Hgen.
  { intros Hnd -> Hs. apply Hgen; [|done..]. by rewrite Hs, take_app_length. }
  revert i rest s. induction l as [|x l IH] using rev_ind; intros i rest s tabs0 Htake Hnd -> Hs.
  { simpl. split; [by rewrite Hs|done]. }
  rewrite length_app in *. simpl in *. replace (length l + 1) with (S (length l)) in * by lia.
  assert (tabs0 !! length l = Some x) as Hx.
  { rewrite <- (lookup_take_lt tabs0 (S (length l))) by lia. rewrite Htake.
    by apply list_lookup_middle. }
  assert (take (length l) tabs0 = l) as Htl.
  { replace (take (length l) tabs0) with (take (length l) (take (S (length l)) tabs0)).
    - rewrite Htake. by rewrite take_app_length.
    - rewrite take_take. f_equal. lia. }
  simpl. rewrite Hx, filter_app. rewrite <- app_assoc in Hs, Hnd. simpl in Hs, Hnd.
  destruct (gone x) eqn:Hg.
  - assert (js_at (tabs s) (Z.of_nat (length l)) = Some x) as Hat.
    { rewrite js_at_nat, Hs. by apply list_lookup_middle. }
    pose proof (closeTab_spec (Z.of_nat (length l)) s) as Hc. rewrite Hat in Hc.
    destruct Hc as (Hct & Hcl & Hcp). set (s1 := closeTab (Z.of_nat (length l)) s) in *.
    assert (tabs s1 = l ++ rest) as Hs1.
    { rewrite Hct, Nat2Z.id, Hs. by apply delete_middle. }
    rewrite <- Permutation_middle in Hnd. apply NoDup_cons in Hnd as [Hxn Hnd].
    destruct (IH (length l) rest s1 tabs0 Htl Hnd eq_refl Hs1) as [Ht Hk].
    assert (filter (λ t, negb (gone t)) [x] = []) as ->.
    { rewrite filter_cons_False; [done|]. rewrite Hg. simpl. tauto. }
    rewrite app_nil_r. split; [done|]. intros t Hin. destruct (Hk t Hin) as [Hk1 Hk2].
    assert (t ≠ x) as Htx.
    { intros ->. rewrite Ht in Hin. apply Hxn. apply elem_of_app.
      apply elem_of_app in Hin as [[_ ?]%list_elem_of_filter|?]; [by left|by right]. }
    rewrite Hk1, Hk2, Hcl, Hcp. by rewrite !delete_other by done.
  - destruct (IH (length l) (x :: rest) s tabs0 Htl Hnd eq_refl Hs) as [Ht Hk].
    assert (filter (λ t, negb (gone t)) [x] = [x]) as ->.
    { rewrite filter_cons_True; [done|]. by rewrite Hg. }
    rewrite <- app_assoc. simpl. split; done.
Qed.

Lemma purge_spec gone s :
  NoDup (tabs s) →
  keeps (λ t, negb (gone t)) s (purge_loop gone (tabs s) (length (tabs s)) s).
Proof.
  intros Hnd. destruct (purge_loop_spec gone (tabs s) (length (tabs s)) [] s) as [Ht Hk];
    rewrite ?app_nil_r; [done..|]. rewrite app_nil_r in Ht. by split.
Qed.
End bulk.

Lemma forallb_decide (P : string → Prop) `{∀ x, Decision (P x)} (l : list string) :
  forallb (λ x, bool_decide (P x)) l = true ↔ ∀ x, x ∈ l → P x.
Proof.
  induction l as [|x l IH]; simpl; [split; [by inversion 2|done]|].
  rewrite andb_true_iff, bool_decide_eq_true, IH. setoid_rewrite elem_of_cons. split.
  - intros [? ?] y [->|?]; auto.
  - auto.
Qed.

Lemma existsb_decide (P : string → Prop) `{∀ x, Decision (P x)} (l : list string) :
  existsb (λ x, bool_decide (P x)) l = true ↔ ∃ x, x ∈ l ∧ P x.
Proof.
  induction l as [|x l IH]; simpl; [split; [done|by intros (x & Hx & _); inversion Hx]|].
  rewrite orb_true_iff, bool_decide_eq_true, IH. setoid_rewrite elem_of_cons. split.
  - intros [?|(y & ? & ?)]; eauto.
  - intros (y & [->|?] & ?); eauto.
Qed.

Definition dead_channel (channels : list (string * string)) (c : string) : Prop :=
  (c, "dead"%string) ∈ channels.

Lemma dead_ids channels c :
  c ∈ (filter (λ c : string * string, c.2 = "dead"%string) channels).*1 ↔ dead_channel channels c.
Proof.
  unfold dead_channel. rewrite list_elem_of_fmap. split.
  - intros ([a b] & -> & Hb). apply list_elem_of_filter in Hb as [Hb Hin]. simpl in *. by subst.
  - intros Hin. exists (c, "dead"%string). split; [done|]. by apply list_elem_of_filter.
Qed.

Lemma dead_tab_true channels s t :
  dead_tab (filter (λ c : string * string, c.2 = "dead"%string) channels).*1 (layouts s) t = true ↔
  tab_channels s t ≠ [] ∧ ∀ c, c ∈ tab_channels s t → dead_channel channels c.
Proof.
  unfold dead_tab, tab_channels, tab_root. destruct (mjoin _) as [root|]; simpl; [|by split; [|intros []]].
  rewrite andb_true_iff, negb_true_iff, bool_decide_eq_false, forallb_decide.
  by setoid_rewrite dead_ids.
Qed.

Lemma orphaned_tab_true alive host hosts s t :
  orphaned_tab alive host hosts (layouts s) t = true ↔
  tab_channels s t ≠ [] ∧ (∀ c, c ∈ tab_channels s t → hosts !! c = Some host) ∧
  ∀ c, c ∈ tab_channels s t → c ∉ alive.
Proof.
  unfold orphaned_tab, tab_channels, tab_root.
  destruct (mjoin _) as [root|]; cbn [from_option]; [|by split; [|intros []]].
  set (ids := collectTerminalChannelIds root). case_bool_decide as Hids; [by split; [|intros []]|].
  destruct (forallb _ ids) eqn:Hon; cbn [negb].
  2:{ split; [done|]. intros (_ & Hon' & _).
      apply (forallb_decide (λ id, hosts !! id = Some host) ids) in Hon'. cbv beta in Hon'. congruence. }
  pose proof (proj1 (forallb_decide (λ id, hosts !! id = Some host) ids) Hon) as Hon'.
  rewrite andb_true_iff, negb_true_iff, existsb_decide, <- not_true_iff_false, existsb_decide. split.
  - intros [_ Hno]. split_and!; [done..|]. intros c Hc Hin. apply Hno. eauto.
  - intros (_ & _ & Hno). split; [|intros (c & ? & ?); by apply (Hno c)].
    destruct ids as [|c ids]; [done|]. exists c. split; [by left|]. apply Hno. by left.
Qed.

(** The tab the active index names once the tab at [k] is gone. *)
Lemma close_index (l : list string) (a k : nat) t :
  l !! k = Some t → a < length l →
  js_at (delete k l)
    (let n := Z.of_nat (length (delete k l)) in
     if n <=? Z.of_nat a then Z.max 0 (n - 1)
     else if Z.of_nat k <? Z.of_nat a then Z.of_nat a - 1 else Z.of_nat a)%Z =
  if decide (a = k) then match l !! S k with Some u => Some u | None => last (delete k l) end
  else l !! a.
Proof.
  intros Hx Ha. pose proof (length_delete_lookup _ _ _ Hx) as Hlen.
  pose proof (lookup_lt_Some _ _ _ Hx) as Hk. cbv zeta. case_decide as Hak.
  - subst a. destruct (l !! S k) as [u|] eqn:Hu.
    + pose proof (lookup_lt_Some _ _ _ Hu). rewrite (proj2 (Z.leb_gt _ _)) by lia.
      by rewrite Z.ltb_irrefl, js_at_nat, list_lookup_delete_ge by lia.
    + apply lookup_ge_None in Hu. rewrite (proj2 (Z.leb_le _ _)) by lia. rewrite last_lookup.
      destruct (length (delete k l)) as [|n] eqn:Hn.
      * apply length_zero_iff_nil in Hn. by rewrite Hn.
      * replace (Z.max 0 _) with (Z.of_nat n) by lia. by rewrite js_at_nat.
  - destruct (Z.leb_spec (Z.of_nat (length (delete k l))) (Z.of_nat a)).
    + replace (Z.max 0 _) with (Z.of_nat (a - 1)) by lia.
      rewrite js_at_nat, list_lookup_delete_ge by lia. f_equal. lia.
    + destruct (Z.ltb_spec (Z.of_nat k) (Z.of_nat a)).
      * replace (Z.of_nat a - 1)%Z with (Z.of_nat (a - 1)) by lia.
        rewrite js_at_nat, list_lookup_delete_ge by lia. f_equal. lia.
      * by rewrite js_at_nat, list_lookup_delete_lt by lia.
Qed.

(** ** Properties *)

Lemma session_wf s : session s → wf s.
Proof.
  induction 1 as [|env o s _ IH Ho]; [|by apply layout_wf_step].
  split; [|by right]. split; simpl.
  - constructor.
  - apply js_wf_empty.
  - apply js_wf_empty.
  - by inversion 1.
  - by intros t [? ?].
  - by intros t [? ?].
Qed.

(** C25: the invariant of the layout. After any sequence of the operations of the tab bar and of
    the panes, in any order and with the stores changing in between: the tabs are distinct, each
    has one layout tree with every divider within its bounds, no layout and no recorded focus
    outlives its tab, and the active index is the index of a tab, or 0 in an empty bar. *)
Theorem layout_invariant s : session s → wf s.
Proof. apply session_wf. Qed.

Definition no_stores : stores := {| tabs_config := None; activeHostId := None; channelHostMap := ∅ |}.

(** A session that opens two terminals. *)
Definition opened : state :=
  step no_stores (OpOpenTab "c2" "p2" "t2") (step no_stores (OpOpenTab "c1" "p1" "t1") (State [] 0 ∅ ∅)).

Lemma opened_session : session opened.
Proof.
  apply session_step; [apply session_step; [apply session_start|apply not_elem_of_nil]|].
  simpl. apply (bool_decide_unpack _). vm_compute. exact I.
Qed.

Lemma layout_invariant_witness : tabs opened = ["t1"; "t2"] ∧ wf opened.
Proof. split; [reflexivity|]. exact (layout_invariant opened opened_session). Defined.

(** Dragging a tab. The tabs are the same ones, the others keep their order, the one dragged
    lands where asked, within the bar, and the tab in front stays in front. *)
Theorem reorderTab_correct f t s :
  wf s →
  let s' := reorderTab f t s in
  activeTab s' = activeTab s ∧ layouts s' = layouts s ∧ activePaneIds s' = activePaneIds s ∧
  tabs s' ≡ₚ tabs s ∧
  (s' = s ∨
   ∃ (i j : nat) x, f = Z.of_nat i ∧
     Z.of_nat j = Z.max 0 (Z.min t (Z.of_nat (length (tabs s)) - 1)) ∧
     tabs s !! i = Some x ∧ tabs s' !! j = Some x ∧ delete j (tabs s') = delete i (tabs s)).
Proof.
  intros Hw s'. split; [by apply reorder_active|].
  destruct (reorder_spec f t s) as [Hs|(i & j & x & -> & Hj & Hij & Hlt & Hx & Hs)]; unfold s'; rewrite Hs.
  { split_and!; [done..|by left]. }
  pose proof (length_delete_lookup _ _ _ Hx) as Hlen.
  split_and!; [done|done|by apply splice_delete_Permutation|right]. exists i, j, x.
  split_and!; [done..| |].
  - simpl. apply lookup_splice_in. lia.
  - simpl. unfold splice_in.
    rewrite <- (length_take_le (delete i (tabs s)) j) at 1 by lia.
    by rewrite delete_middle, take_drop.
Qed.

Lemma reorderTab_correct_witness :
  wf opened ∧ activeTab (reorderTab 1 0 opened) = Some "t2" ∧ tabs (reorderTab 1 0 opened) = ["t2"; "t1"].
Proof.
  split; [exact (session_wf _ opened_session)|].
  split; [exact (proj1 (reorderTab_correct 1 0 opened (session_wf _ opened_session)))|reflexivity].
Defined.

(** Closing a tab takes it off the bar with its layout and its focus and touches nothing of
    the others; another tab that was in front stays in front, and when the tab closed was, its
    neighbour on the right comes in front, or the last one, or none when it was alone. *)
Theorem closeTab_correct i t s :
  wf s → js_at (tabs s) i = Some t →
  let s' := closeTab i s in
  tabs s' = delete (Z.to_nat i) (tabs s) ∧ layouts s' !! t = None ∧ activePaneIds s' !! t = None ∧
  (∀ u, u ≠ t → layouts s' !! u = layouts s !! u ∧ activePaneIds s' !! u = activePaneIds s !! u) ∧
  front_stays s s' ∧
  (activeTab s = Some t →
   activeTab s' = match tabs s !! S (Z.to_nat i) with
                  | Some u => Some u
                  | None => last (tabs s')
                  end).
Proof.
  intros [Hc Ha] Hi s'. pose proof (closeTab_spec i s) as Hs. rewrite Hi in Hs.
  destruct Hs as (Ht & Hl & Hp). fold s' in Ht, Hl, Hp. apply js_at_Some in Hi as [Hr Hx].
  pose proof (length_delete_lookup _ _ _ Hx) as Hlen.
  assert (activeTabIndex s' =
    let n := Z.of_nat (length (delete (Z.to_nat i) (tabs s))) in
    if n <=? activeTabIndex s then Z.max 0 (n - 1)
    else if i <? activeTabIndex s then activeTabIndex s - 1 else activeTabIndex s)%Z as Hact.
  { unfold s', closeTab. rewrite (proj2 (js_at_Some (tabs s) i t) (conj Hr Hx)). done. }
  destruct Ha as [Ha|[_ Hnil]]; [|by rewrite Hnil in Hx].
  assert (∃ a k : nat, activeTabIndex s = Z.of_nat a ∧ i = Z.of_nat k ∧ a < length (tabs s))
    as (a & k & Ha' & -> & Hlt).
  { exists (Z.to_nat (activeTabIndex s)), (Z.to_nat i). lia. }
  rewrite Nat2Z.id in *. rewrite Ha' in Hact.
  assert (activeTab s = tabs s !! a) as Has by (unfold activeTab; by rewrite Ha', js_at_nat).
  pose proof (close_index (tabs s) a k t Hx Hlt) as Has'. rewrite <- Hact, <- Ht in Has'.
  change (js_at (tabs s') (activeTabIndex s')) with (activeTab s') in Has'.
  rewrite Has, Has', Hl, Hp, !js_lookup_delete_eq. split_and!; [done..| | |].
  - intros u Hu. by rewrite !delete_other.
  - intros u Hu Hin. rewrite Has in Hu. rewrite Has'. case_decide as Hak; [|done]. subst a.
    assert (u = t) as -> by congruence. rewrite Ht in Hin.
    pose proof (delete_Permutation _ _ _ Hx) as Hperm. pose proof (con_tabs _ _ _ Hc) as Hnd.
    rewrite Hperm in Hnd. by apply NoDup_cons in Hnd as [? _].
  - intros Hat. rewrite decide_True; [done|].
    by apply (NoDup_lookup (tabs s) _ _ t (con_tabs _ _ _ Hc)).
Qed.

Lemma closeTab_correct_witness :
  wf opened ∧ js_at (tabs opened) 1 = Some "t2" ∧ activeTab (closeTab 1 opened) = Some "t1".
Proof.
  split; [exact (session_wf _ opened_session)|]. split; [reflexivity|].
  destruct (closeTab_correct 1 "t2" opened (session_wf _ opened_session) eq_refl)
    as (_ & _ & _ & _ & _ & H).
  exact (H eq_refl).
Defined.

(** Opening a terminal's tab brings it to the front: the tab in front shows the terminal
    afterwards. A tab that already shows it is only brought forward; otherwise one tab is added
    among the others, which keep their order and their layouts. *)
Theorem openTab_correct env ch p t s :
  wf s → t ∉ tabs s →
  let s' := openTab env ch p t s in
  (∃ tab, activeTab s' = Some tab ∧ ch ∈ tab_channels s' tab) ∧
  match findTabForChannel s ch with
  | Some tab => tabs s' = tabs s ∧ layouts s' = layouts s ∧ activeTab s' = Some tab
  | None =>
      activeTab s' = Some t ∧ filter (λ u, u ≠ t) (tabs s') = tabs s ∧
      ∀ u, u ∈ tabs s → layouts s' !! u = layouts s !! u ∧
        activePaneIds s' !! u = activePaneIds s !! u
  end.
Proof.
  intros [Hc Ha] Ht s'. pose proof (findTab_spec s ch (con_wf _ _ _ Hc)) as Hspec.
  unfold s', openTab. destruct (findTabForChannel s ch) as [tab|].
  - destruct Hspec as [(root & Hroot & Hin) _].
    destruct (consistent_ratios s tab root Hc Hroot) as [Htab _].
    destruct (index_of_elem tab _ Htab) as (i & Hi & Hl). unfold index_of in Hi. simpl in Hi.
    destruct (find_index _ (tabs s)) as [k|]; [|lia]. replace k with i by lia.
    assert (activeTab (set_active (Z.of_nat i) s) = Some tab) as Hact.
    { unfold activeTab. simpl. by rewrite js_at_nat. }
    split; [|done]. exists tab. split; [done|]. unfold tab_channels.
    change (tab_root (set_active (Z.of_nat i) s) tab) with (tab_root s tab). by rewrite Hroot.
  - destruct (addTab_spec env (Terminal ch p) (Some p) t s) as (i & Hi & ->).
    assert (activeTab (State (splice_in i t (tabs s)) (Z.of_nat i)
      (<[t:=Some (Terminal ch p)]> (layouts s)) (<[t:=p]> (activePaneIds s))) = Some t) as Hact.
    { unfold activeTab. simpl. rewrite js_at_nat. by apply lookup_splice_in. }
    split; [exists t; split; [done|]|split_and!; [done| |]].
    + unfold tab_channels, tab_root. simpl. rewrite js_lookup_insert_eq. by left.
    + simpl. unfold splice_in. rewrite filter_app, filter_cons_False by tauto.
      rewrite <- filter_app, take_drop. apply filter_all, Forall_forall. by intros u Hu ->.
    + intros u Hu. simpl. rewrite !js_lookup_insert_ne; [done|by intros ->..].
Qed.

Lemma openTab_correct_witness :
  wf opened ∧ "t3" ∉ tabs opened ∧
  ∃ tab, activeTab (openTab no_stores "c3" "p3" "t3" opened) = Some tab ∧
    "c3" ∈ tab_channels (openTab no_stores "c3" "p3" "t3" opened) tab.
Proof.
  assert ("t3" ∉ tabs opened) as Ht by (apply (bool_decide_unpack _); vm_compute; exact I).
  split; [exact (session_wf _ opened_session)|]. split; [exact Ht|].
  exact (proj1 (openTab_correct no_stores "c3" "p3" "t3" opened (session_wf _ opened_session) Ht)).
Defined.

(** The bulk closes keep exactly the tabs they say they keep, each with its layout and its
    focus: "close others" the tab chosen, "close to the right" the tabs up to the anchor, "close
    all" the welcome tab, and all three every tab out of view; the tab in front stays in front
    if it stays, and the tab "close others" is given comes in front. *)
Theorem bulk_closes_correct env k e anchor s :
  wf s → js_at (tabs s) k = Some anchor →
  (keeps (λ t, bool_decide (Some anchor = Some t) || hidden env s t) s (closeOthers env k s) ∧
   activeTab (closeOthers env k s) = Some anchor) ∧
  (keeps (λ t, bool_decide (t ∈ take (S (Z.to_nat k)) (tabs s)) || hidden env s t) s
     (closeToRight env k s) ∧ front_stays s (closeToRight env k s)) ∧
  (keeps (λ t, bool_decide (e ≫= findTabForChannel s = Some t) || hidden env s t) s
     (closeAll env e s) ∧ front_stays s (closeAll env e s)).
Proof.
  intros [Hc Ha] Hk. split; [|split].
  - unfold closeOthers. rewrite Hk. split; [by apply keeps_kept|].
    apply js_at_Some in Hk as [_ Hl]. unfold activeTab. cbn [tabs activeTabIndex].
    destruct (index_of_elem anchor
      (filter (keepIds (tabsInView env s) (Some anchor)) (tabs s))) as (i & Hi & Hl').
    { apply list_elem_of_filter. split; [|by eapply list_elem_of_lookup_2].
      unfold keepIds. by rewrite bool_decide_true. }
    rewrite Hi, Z.max_r by lia. by rewrite js_at_nat.
  - apply js_at_Some in Hk as [Hk _]. unfold closeToRight. split.
    + split; cbn [tabs layouts activePaneIds].
      * apply filter_ext_in. intros t Ht. rewrite removed_right by (done || lia || apply Hc).
        symmetry. apply Is_true_true.
      * intros t [Ht _]%list_elem_of_filter.
        rewrite !lookup_deletes. by rewrite !decide_False by done.
    + intros t Ht Hin. cbn [tabs] in Hin. unfold activeTab in *. rewrite Ht. cbn [tabs activeTabIndex].
      destruct (index_of_elem t _ Hin) as (i & Hi & Hl). rewrite Hi.
      rewrite (proj2 (Z.eqb_neq _ _)) by lia. simpl. by rewrite js_at_nat.
  - unfold closeAll. split; [by apply keeps_kept|apply front_kept].
Qed.

Lemma bulk_closes_correct_witness :
  wf opened ∧ js_at (tabs opened) 0 = Some "t1" ∧
  activeTab (closeOthers no_stores 0 opened) = Some "t1" ∧ tabs (closeToRight no_stores 0 opened) = ["t1"].
Proof.
  split; [exact (session_wf _ opened_session)|]. split; [reflexivity|]. split; [|reflexivity].
  exact (proj2 (proj1 (bulk_closes_correct no_stores 0 None "t1" opened
    (session_wf _ opened_session) eq_refl))).
Defined.

(** The purges. Closing tabs by index from the end while the bar shrinks closes exactly the
    tabs meant: those with terminals, all of them dead, and those with terminals, all on the host
    that was listed and none of them listed; every other tab keeps its place among the rest, its
    layout and its focus. *)
Theorem purges_exact channels alive host hosts s :
  wf s →
  let s1 := purgeDeadTabs channels s in
  let s2 := purgeOrphanedTabs alive host hosts s in
  (∃ gone, keeps (λ t, negb (gone t)) s s1 ∧ ∀ t, gone t = true ↔
     tab_channels s t ≠ [] ∧ ∀ c, c ∈ tab_channels s t → dead_channel channels c) ∧
  (∃ gone, keeps (λ t, negb (gone t)) s s2 ∧ ∀ t, gone t = true ↔
     tab_channels s t ≠ [] ∧ (∀ c, c ∈ tab_channels s t → hosts !! c = Some host) ∧
     ∀ c, c ∈ tab_channels s t → c ∉ alive).
Proof.
  intros [Hc _]. pose proof (con_tabs _ _ _ Hc) as Hnd. split.
  - eexists. split; [by apply purge_spec|]. apply dead_tab_true.
  - eexists. split; [by apply purge_spec|]. apply orphaned_tab_true.
Qed.

Lemma purges_exact_witness :
  wf opened ∧ tabs (purgeDeadTabs [("c1", "dead"); ("c2", "live")] opened) = ["t2"] ∧
  ∃ gone, keeps (λ t, negb (gone t)) opened
    (purgeOrphanedTabs ["c2"] "h" (JsMap [("c1", "h"); ("c2", "h")]) opened) ∧ gone "t1" = true.
Proof.
  split; [exact (session_wf _ opened_session)|]. split; [reflexivity|].
  destruct (purges_exact [] ["c2"] "h" (JsMap [("c1", "h"); ("c2", "h")]) opened
    (session_wf _ opened_session)) as [_ (gone & Hk & Hg)].
  exists gone. split; [exact Hk|]. apply Hg. split; [discriminate|].
  split; intros c Hin; apply list_elem_of_singleton in Hin as ->; [reflexivity|].
  apply (bool_decide_unpack _). vm_compute. exact I.
Defined.
