(* ===== verification/Auth.v ===== *)
(** * The hub's credentials ([packages/hub/src/auth.ts], the sign-in of [server.ts])

    The table [auth_tokens] with its two uniqueness constraints, the operations on it, the check of
    a credential, and the two outage reports. Instants are milliseconds (ISO 8601 texts in UTC
    order as they do); SHA-256, the random bytes and [generateId] belong to other libraries: the
    operations take the hash, and the new id, as arguments. *)

From S2P Require Import Prelude.
#[local] Open Scope lasterm_scope.
#[local] Open Scope Z_scope.

(** ** The table *)

Definition PRIMARY_TOKEN_ID : string := "primary".

Record AuthTokenRecord := Token {
  id : string;
  tokenHash : string;
  label : string;
  createdAt : Z;
  expiresAt : option Z;
  revokedAt : option Z;
  sweptAt : option Z;
  lastUsedAt : option Z;
}.

#[export] Instance AuthTokenRecord_eq_dec : EqDecision AuthTokenRecord.
Proof. solve_decision. Defined.

Definition Database := list AuthTokenRecord.

Definition set_hash h r := Token (id r) h (label r) (createdAt r) (expiresAt r) (revokedAt r) (sweptAt r) (lastUsedAt r).
Definition set_expires v r := Token (id r) (tokenHash r) (label r) (createdAt r) v (revokedAt r) (sweptAt r) (lastUsedAt r).
Definition set_revoked v r := Token (id r) (tokenHash r) (label r) (createdAt r) (expiresAt r) v (sweptAt r) (lastUsedAt r).
Definition set_swept v r := Token (id r) (tokenHash r) (label r) (createdAt r) (expiresAt r) (revokedAt r) v (lastUsedAt r).
Definition set_used v r := Token (id r) (tokenHash r) (label r) (createdAt r) (expiresAt r) (revokedAt r) (sweptAt r) v.

(** [UPDATE auth_tokens SET ... WHERE P] *)
Definition update (P : AuthTokenRecord → bool) (f : AuthTokenRecord → AuthTokenRecord)
  (db : Database) : Database := (λ r, if P r then f r else r) <$> db.

(** [INSERT], refused when the id or the hash is taken. *)
Definition insert_token (r : AuthTokenRecord) (db : Database) : option Database :=
  if decide (Exists (λ r', id r' = id r ∨ tokenHash r' = tokenHash r) db) then None
  else Some (db ++ [r]).

(** ** Operations *)

(** [None] is the exception the statement throws. *)
Definition upsertPrimaryToken (hash : string) (now : Z) (db : Database) : option Database :=
  if decide (Exists (λ r, id r = PRIMARY_TOKEN_ID) db) then
    if decide (Exists (λ r, id r ≠ PRIMARY_TOKEN_ID ∧ tokenHash r = hash) db) then None
    else Some (update (λ r, bool_decide (id r = PRIMARY_TOKEN_ID)) (set_hash hash) db)
  else insert_token (Token PRIMARY_TOKEN_ID hash "Primary" now None None None None) db.

Definition createToken (newId hash lbl : string) (expires : option Z) (now : Z) (db : Database)
  : option Database :=
  insert_token (Token newId hash lbl now expires None None None) db.

Definition sweepNonPrimaryTokens (now : Z) (db : Database) : Database :=
  update (λ r, bool_decide (id r ≠ PRIMARY_TOKEN_ID ∧ sweptAt r = None)) (set_swept (Some now)) db.

Definition getTokenByHash (hash : string) (db : Database) : option AuthTokenRecord :=
  snd <$> list_find (λ r, tokenHash r = hash) db.

(** The new table, and whether a row changed. *)
Definition revokeToken (tid : string) (now : Z) (db : Database) : Database * bool :=
  let P r := bool_decide (id r = tid ∧ id r ≠ PRIMARY_TOKEN_ID ∧ revokedAt r = None) in
  (update P (set_revoked (Some now)) db, existsb P db).

Definition DAY_MS : Z := 86400000.

Definition touchToken (tid : string) (ttlDays now : Z) (db : Database) : Database :=
  let P r := bool_decide (id r = tid) in
  if 0 <? ttlDays then
    let newExpiry := now + ttlDays * DAY_MS in
    update P (λ r, r |> set_used (Some now)
                     |> set_expires (match expiresAt r with Some _ => Some newExpiry | None => None end))
      db
  else update P (set_used (Some now)) db.

(** ** The check of a credential *)

Inductive InvalidTokenReason := unknown | revoked | swept | expired.
Inductive TokenValidation :=
| valid (record : AuthTokenRecord)
| invalid (reason : InvalidTokenReason)
| unavailable.

(** What the row allows at [now]. *)
Definition check_record (r : AuthTokenRecord) (now : Z) : TokenValidation :=
  match revokedAt r with
  | Some _ => invalid revoked
  | None =>
      match sweptAt r with
      | Some _ => invalid swept
      | None =>
          match expiresAt r with
          | Some e => if e <=? now then invalid expired else valid r
          | None => valid r
          end
      end
  end.

(** The store is [None] when reading it throws. *)
Definition validateTokenHash (store : option Database) (hash : string) (now : Z)
  : TokenValidation :=
  match store with
  | None => unavailable
  | Some db =>
      match getTokenByHash hash db with
      | None => invalid unknown
      | Some r => check_record r now
      end
  end.

Definition validateTokenRecord (hashToken : string → string) (store : option Database)
  (plaintextToken : string) (now : Z) : TokenValidation :=
  validateTokenHash store (hashToken plaintextToken) now.

(** ** The outage reports *)

Inductive LogLine :=
| StoreUnavailable
| StoreAnsweringAgain (refused : nat)
| CannotRecordUse (tokenId : string)
| RecordingAgain (failed : nat).

(** The counts kept per database, absent counting 0, and the lines written. *)
Record Reports := { refused : nat; failed : nat; lines : list LogLine }.

Definition reportTokenStore (v : TokenValidation) (s : Reports) : Reports :=
  match v with
  | unavailable =>
      {| refused := S (refused s); failed := failed s;
         lines := lines s ++ if decide (refused s = 0%nat) then [StoreUnavailable] else [] |}
  | _ =>
      if decide (refused s = 0%nat) then s
      else {| refused := 0; failed := failed s;
              lines := lines s ++ [StoreAnsweringAgain (refused s)] |}
  end.

(** [writes] is whether the store takes the update. *)
Definition touchTokenBestEffort (writes : bool) (tid : string) (ttlDays now : Z)
  (st : Database * Reports) : Database * Reports :=
  let '(db, s) := st in
  if writes then
    (touchToken tid ttlDays now db,
     if decide (failed s = 0%nat) then s
     else {| refused := refused s; failed := 0;
             lines := lines s ++ [RecordingAgain (failed s)] |})
  else
    (db, {| refused := refused s; failed := S (failed s);
            lines := lines s ++ if decide (failed s = 0%nat) then [CannotRecordUse tid] else [] |}).

(** ** A hub and its store *)

(** What a request is told. *)
Inductive answer := accepted (tokenId : string) | refused_401 (reason : InvalidTokenReason) | refused_503.

Record Hub := MkHub {
  db : Database;
  now : Z;
  reads : bool;
  writes : bool;
  reports : Reports;
}.

(** The sign-in of a request that holds a bearer token. *)
Definition authenticate (ttlDays : Z) (hash : string) (h : Hub) : Hub * answer :=
  let validation := validateTokenHash (if reads h then Some (db h) else None) hash (now h) in
  let rep := reportTokenStore validation (reports h) in
  match validation with
  | unavailable => (MkHub (db h) (now h) (reads h) (writes h) rep, refused_503)
  | invalid reason => (MkHub (db h) (now h) (reads h) (writes h) rep, refused_401 reason)
  | valid r =>
      let '(db', rep') := touchTokenBestEffort (writes h) (id r) ttlDays (now h) (db h, rep) in
      (MkHub db' (now h) (reads h) (writes h) rep', accepted (id r))
  end.

Definition set_db (d : Database) (h : Hub) : Hub := MkHub d (now h) (reads h) (writes h) (reports h).
Definition no_reports : Reports := {| refused := 0; failed := 0; lines := [] |}.

(** A start of the hub: the sweep before anything listens, then the primary token's row; a store
    that takes no writes stops it. *)
Definition restart (primaryHash : string) (h : Hub) : Hub :=
  if writes h then
    let swept_db := sweepNonPrimaryTokens (now h) (db h) in
    match upsertPrimaryToken primaryHash (now h) swept_db with
    | Some db' => MkHub db' (now h) (reads h) (writes h) no_reports
    | None => set_db swept_db h
    end
  else h.

Inductive event :=
| EvTick (ms : N)
| EvRestart (primaryHash : string)
| EvIssue (newId hash lbl : string) (expires : option Z)
| EvRevoke (tid : string)
| EvRequest (hash : string)
| EvStore (reads writes : bool).

Definition step (ttlDays : Z) (h : Hub) (e : event) : Hub :=
  match e with
  | EvTick ms => MkHub (db h) (now h + Z.of_N ms) (reads h) (writes h) (reports h)
  | EvRestart hash => restart hash h
  | EvIssue i hash lbl expires =>
      if writes h then
        match createToken i hash lbl expires (now h) (db h) with
        | Some db' => set_db db' h
        | None => h
        end
      else h
  | EvRevoke tid => if writes h then set_db (revokeToken tid (now h) (db h)).1 h else h
  | EvRequest hash => (authenticate ttlDays hash h).1
  | EvStore r w => MkHub (db h) (now h) r w (reports h)
  end.

(** ** The table's constraints *)

Definition db_ok (d : Database) : Prop := NoDup (id <$> d) ∧ NoDup (tokenHash <$> d).

Lemma NoDup_fmap_eq {A B} (f : A → B) (l : list A) x y :
  NoDup (f <$> l) → x ∈ l → y ∈ l → f x = f y → x = y.
Proof.
  intros Hnd [i Hi]%list_elem_of_lookup [j Hj]%list_elem_of_lookup Heq.
  assert (i = j) as ->; [|congruence].
  apply (NoDup_lookup (f <$> l) i j (f x)); [done|by rewrite list_lookup_fmap, Hi|].
  by rewrite list_lookup_fmap, Hj, Heq.
Qed.

Section table.
Implicit Types (r : AuthTokenRecord) (d : Database).

Lemma row_by_id d r1 r2 : db_ok d → r1 ∈ d → r2 ∈ d → id r1 = id r2 → r1 = r2.
Proof. intros [Hnd _]. by apply NoDup_fmap_eq. Qed.

Lemma row_by_hash d r1 r2 : db_ok d → r1 ∈ d → r2 ∈ d → tokenHash r1 = tokenHash r2 → r1 = r2.
Proof. intros [_ Hnd]. by apply NoDup_fmap_eq. Qed.

Lemma elem_of_update P f d r :
  r ∈ update P f d ↔ ∃ r0, r0 ∈ d ∧ r = if P r0 then f r0 else r0.
Proof. unfold update. rewrite list_elem_of_fmap. firstorder. Qed.

Lemma update_keys {A} (g : AuthTokenRecord → A) P f d :
  (∀ r, g (f r) = g r) → g <$> update P f d = g <$> d.
Proof.
  intros Hg. unfold update. rewrite <- list_fmap_compose. apply list_fmap_ext.
  intros i r _. simpl. by destruct (P r).
Qed.

Lemma db_ok_update P f d :
  (∀ r, id (f r) = id r) → (∀ r, tokenHash (f r) = tokenHash r) → db_ok d → db_ok (update P f d).
Proof. intros Hi Hh. unfold db_ok. by rewrite !update_keys. Qed.

Lemma insert_Some r d d' :
  insert_token r d = Some d' →
  d' = d ++ [r] ∧ ∀ r', r' ∈ d → id r' ≠ id r ∧ tokenHash r' ≠ tokenHash r.
Proof.
  unfold insert_token. case_decide as He; [done|]. intros [= <-]. split; [done|]. intros r' Hr'.
  rewrite <- Forall_Exists_neg, Forall_forall in He. specialize (He r' Hr'). tauto.
Qed.

Lemma db_ok_insert r d d' : insert_token r d = Some d' → db_ok d → db_ok d'.
Proof.
  intros [-> Hfresh]%insert_Some [Hi Hh]. split; rewrite fmap_app; apply NoDup_app;
    (split_and!; [done| |apply NoDup_singleton]);
    intros x (r' & -> & Hr')%list_elem_of_fmap Hx%list_elem_of_singleton;
    destruct (Hfresh r' Hr'); congruence.
Qed.

Lemma getTokenByHash_Some hash d r :
  getTokenByHash hash d = Some r → r ∈ d ∧ tokenHash r = hash.
Proof.
  unfold getTokenByHash. intros ([i r'] & Hf & ->)%fmap_Some.
  apply list_find_Some in Hf as (Hl & Hh & _). split; [by eapply list_elem_of_lookup_2|done].
Qed.

Lemma getTokenByHash_elem d r :
  db_ok d → r ∈ d → getTokenByHash (tokenHash r) d = Some r.
Proof.
  intros Hok Hr. destruct (getTokenByHash (tokenHash r) d) as [r'|] eqn:Hg.
  - apply getTokenByHash_Some in Hg as [Hr' Hh]. f_equal. by eapply row_by_hash.
  - unfold getTokenByHash in Hg. apply fmap_None, list_find_None in Hg.
    rewrite Forall_forall in Hg. by destruct (Hg r Hr).
Qed.

Definition dead r (t : Z) : Prop :=
  revokedAt r ≠ None ∨ sweptAt r ≠ None ∨ ∃ e, expiresAt r = Some e ∧ e <= t.

Lemma check_dead r t : (∃ reason, check_record r t = invalid reason) ↔ dead r t.
Proof.
  unfold check_record, dead. destruct (revokedAt r); [split; eauto|].
  destruct (sweptAt r); [split; eauto|]. destruct (expiresAt r) as [e|].
  - destruct (Z.leb_spec e t).
    + split; eauto 6.
    + split; [by intros [? ?]|]. intros [?|[?|(? & [= <-] & ?)]]; [done|done|lia].
  - split; [by intros [? ?]|]. intros [?|[?|(? & ? & _)]]; done.
Qed.

Lemma check_alive r t : check_record r t = valid r ↔ ¬ dead r t.
Proof.
  rewrite <- check_dead. unfold check_record. repeat case_match; split;
    try (by intros _ [? ?]); try done; intros H'; exfalso; apply H'; eauto.
Qed.

Lemma check_total r t : (∃ reason, check_record r t = invalid reason) ∨ check_record r t = valid r.
Proof. unfold check_record. repeat case_match; eauto. Qed.
End table.

(** ** One step *)

Section steps.
Implicit Types (h : Hub) (r : AuthTokenRecord).

Lemma touch_fields tid ttl t d r :
  r ∈ touchToken tid ttl t d →
  ∃ r0, r0 ∈ d ∧ id r = id r0 ∧ tokenHash r = tokenHash r0 ∧ revokedAt r = revokedAt r0 ∧
    sweptAt r = sweptAt r0 ∧ (expiresAt r0 = None → expiresAt r = None) ∧ (id r0 ≠ tid → r = r0).
Proof.
  unfold touchToken. destruct (0 <? ttl); intros (r0 & Hr0 & ->)%elem_of_update;
    exists r0; case_bool_decide; split_and!; try done; simpl; by intros ->.
Qed.

Lemma touch_image tid ttl t d r :
  r ∈ d → ∃ r', r' ∈ touchToken tid ttl t d ∧ id r' = id r ∧ tokenHash r' = tokenHash r ∧
    revokedAt r' = revokedAt r ∧ sweptAt r' = sweptAt r ∧ (expiresAt r = None → expiresAt r' = None) ∧
    (id r ≠ tid → r' = r).
Proof.
  intros Hr. unfold touchToken. destruct (0 <? ttl);
    (eexists; split; [apply elem_of_update; exists r; split; [done|reflexivity]|]);
    case_bool_decide; split_and!; try done; simpl; by intros ->.
Qed.

Lemma db_ok_touch tid ttl t d : db_ok d → db_ok (touchToken tid ttl t d).
Proof. intros. unfold touchToken. case_match; by apply db_ok_update. Qed.

(** What signing in leaves in the table. *)
Lemma authenticate_db ttl hash h :
  now (authenticate ttl hash h).1 = now h ∧ reads (authenticate ttl hash h).1 = reads h ∧
  (db (authenticate ttl hash h).1 = db h ∨
   ∃ r, getTokenByHash hash (db h) = Some r ∧ ¬ dead r (now h) ∧
     db (authenticate ttl hash h).1 = touchToken (id r) ttl (now h) (db h)).
Proof.
  unfold authenticate, validateTokenHash. destruct (reads h) eqn:Hreads; [|by simpl; auto].
  destruct (getTokenByHash hash (db h)) as [r|] eqn:Hg; [|by simpl; auto].
  destruct (check_total r (now h)) as [[reason ->]|Hv]; [by simpl; auto|]. rewrite Hv.
  apply check_alive in Hv. unfold touchTokenBestEffort. destruct (writes h); simpl; [|by auto].
  split_and!; [done..|]. right. by exists r.
Qed.

Lemma upsert_Some hash t d d' :
  upsertPrimaryToken hash t d = Some d' →
  d' = update (λ r, bool_decide (id r = PRIMARY_TOKEN_ID)) (set_hash hash) d ∧
    (∀ r, r ∈ d → id r ≠ PRIMARY_TOKEN_ID → tokenHash r ≠ hash) ∧
    (∃ r, r ∈ d ∧ id r = PRIMARY_TOKEN_ID) ∨
  insert_token (Token PRIMARY_TOKEN_ID hash "Primary" t None None None None) d = Some d'.
Proof.
  unfold upsertPrimaryToken. case_decide as Hp; [|by right]. case_decide as Hx; [done|].
  intros [= <-]. left. split_and!; [done| |by rewrite Exists_exists in Hp].
  rewrite <- Forall_Exists_neg, Forall_forall in Hx. intros r Hr Hid Hh. apply (Hx r Hr). done.
Qed.

Lemma db_ok_upsert hash t d d' : upsertPrimaryToken hash t d = Some d' → db_ok d → db_ok d'.
Proof.
  intros [(-> & Hx & _)|Hi]%upsert_Some Hok; [|by eapply db_ok_insert].
  split; [rewrite update_keys by done; apply Hok|].
  apply NoDup_fmap_2_strong; [|apply NoDup_fmap_2_strong].
  - intros r1 r2 (a & Ha & ->)%elem_of_update (b & Hb & ->)%elem_of_update.
    repeat case_bool_decide; simpl; intros Heq.
    + by rewrite (row_by_id d a b) by congruence.
    + subst. by destruct (Hx b).
    + subst. by destruct (Hx a).
    + by eapply row_by_hash.
  - intros r1 r2 H1 H2 Heq. apply (row_by_id d); [done..|]. repeat case_bool_decide; simplify_eq/=;
      try done; congruence.
  - eapply NoDup_fmap_1, Hok.
Qed.

Lemma step_ok ttl h e : db_ok (db h) → db_ok (db (step ttl h e)).
Proof.
  intros Hok. destruct e as [ms|hash|i hash lbl x|tid|hash|r w]; simpl; [done| | | | |done].
  - unfold restart. destruct (writes h); [|done].
    assert (db_ok (sweepNonPrimaryTokens (now h) (db h))) as Hs by (by apply db_ok_update).
    destruct (upsertPrimaryToken _ _ _) eqn:Hu; simpl; [by eapply db_ok_upsert|done].
  - destruct (writes h); [|done]. destruct (createToken _ _ _ _ _ _) eqn:Hc; [|done].
    by eapply db_ok_insert.
  - destruct (writes h); [|done]. by apply db_ok_update.
  - destruct (authenticate_db ttl hash h) as (_ & _ & [->|(r & _ & _ & ->)]); [done|].
    by apply db_ok_touch.
Qed.

Lemma run_ok ttl h es : db_ok (db h) → db_ok (db (run (step ttl) h es)).
Proof.
  intros Hok. apply (run_invariant (step ttl) (λ _, True) (λ h, db_ok (db h)));
    [intros; by apply step_ok|by apply Forall_true|done].
Qed.
End steps.

(** ** What becomes of a row *)

Section rows.
Implicit Types (h : Hub) (r : AuthTokenRecord).

Lemma dead_later r t t' : dead r t → t <= t' → dead r t'.
Proof. intros [?|[?|(e & ? & ?)]] Ht; [by left|by right; left|]. right. right. exists e. split; [done|lia]. Qed.

Lemma dead_fields r r' t :
  revokedAt r' = revokedAt r → sweptAt r' = sweptAt r → expiresAt r' = expiresAt r →
  dead r t → dead r' t.
Proof. unfold dead. by intros -> -> ->. Qed.

Lemma update_image (P : AuthTokenRecord → bool) f (d : Database) r : r ∈ d → (if P r then f r else r) ∈ update P f d.
Proof. intros Hr. apply elem_of_update. eauto. Qed.

Lemma step_time ttl h e : now h <= now (step ttl h e).
Proof.
  destruct e; simpl; try lia; try (by repeat case_match; simpl).
  - unfold restart. repeat case_match; simpl; lia.
  - by destruct (authenticate_db ttl hash h) as (-> & _).
Qed.

(** A row that is not the primary one stays, under its id and its hash, and once it is refused it
    stays refused. *)
Lemma step_row ttl h e r :
  db_ok (db h) → r ∈ db h → id r ≠ PRIMARY_TOKEN_ID →
  ∃ r', r' ∈ db (step ttl h e) ∧ id r' = id r ∧ tokenHash r' = tokenHash r ∧
    (dead r (now h) → dead r' (now (step ttl h e))).
Proof.
  intros Hok Hr Hid. pose proof (step_time ttl h e) as Ht.
  assert (r ∈ db (step ttl h e) → ∃ r', r' ∈ db (step ttl h e) ∧ id r' = id r ∧
    tokenHash r' = tokenHash r ∧ (dead r (now h) → dead r' (now (step ttl h e)))) as Hsame.
  { intros Hin. exists r. split_and!; [done..|]. intros Hd. by eapply dead_later. }
  destruct e as [ms|hash|i hash lbl x|tid|hash|rd w]; simpl in *; [by auto| | | | |by auto].
  - unfold restart in *. destruct (writes h); [|by auto].
    set (d1 := sweepNonPrimaryTokens (now h) (db h)) in *.
    assert (∃ r1, r1 ∈ d1 ∧ id r1 = id r ∧ tokenHash r1 = tokenHash r ∧ sweptAt r1 ≠ None)
      as (r1 & H1 & Hi1 & Hh1 & Hs1).
    { eexists. split; [by apply (update_image _ _ _ r Hr)|]. cbv beta. case_bool_decide as Hc; [done|].
      split_and!; [done..|]. destruct (sweptAt r); [done|]. by destruct Hc. }
    destruct (upsertPrimaryToken hash (now h) d1) as [d2|] eqn:Hu; simpl.
    + assert (r1 ∈ d2) as H2.
      { apply upsert_Some in Hu as [(-> & _)|(-> & _)%insert_Some]; [|apply elem_of_app; by left].
        pose proof (update_image (λ r, bool_decide (id r = PRIMARY_TOKEN_ID)) (set_hash hash) d1 r1 H1)
          as H2. cbv beta in H2. by rewrite bool_decide_false in H2 by congruence. }
      exists r1. split_and!; [done..|]. intros _. right. by left.
    + exists r1. split_and!; [done..|]. intros _. right. by left.
  - destruct (writes h); [|by auto]. destruct (createToken _ _ _ _ _ _) eqn:Hc; [|by auto].
    apply insert_Some in Hc as [-> _]. apply Hsame. apply elem_of_app. by left.
  - destruct (writes h); [|by auto]. simpl.
    eexists. split; [by apply (update_image _ _ _ r Hr)|]. cbv beta. case_bool_decide; [|by auto].
    split_and!; [done..|]. intros _. by left.
  - destruct (authenticate_db ttl hash h) as (Hn & _ & [Hd|(r0 & Hg & Halive & Hd)]); rewrite Hd, Hn in *.
    + apply Hsame. done.
    + destruct (touch_image (id r0) ttl (now h) (db h) r Hr) as (r' & Hr' & ? & ? & Hrv & Hsw & _ & Hother).
      exists r'. split_and!; [done..|]. intros Hdead. rewrite Hother; [done|]. intros Heq.
      apply getTokenByHash_Some in Hg as [Hr0 _]. rewrite (row_by_id _ _ _ Hok Hr Hr0 Heq) in Hdead.
      done.
Qed.

Lemma run_row ttl h es r :
  db_ok (db h) → r ∈ db h → id r ≠ PRIMARY_TOKEN_ID → dead r (now h) →
  ∃ r', r' ∈ db (run (step ttl) h es) ∧ tokenHash r' = tokenHash r ∧
    dead r' (now (run (step ttl) h es)).
Proof.
  revert h r. induction es as [|e es IH]; intros h r Hok Hr Hid Hd; [by exists r|].
  destruct (step_row ttl h e r Hok Hr Hid) as (r1 & Hr1 & Hi1 & Hh1 & Hd1).
  destruct (IH (step ttl h e) r1) as (r2 & ? & Hh2 & ?);
    [by apply step_ok|done|congruence|by apply Hd1|].
  exists r2. split_and!; [done|congruence|done].
Qed.

(** The table after a start and before a token is issued: the primary row as it was made, and the
    others swept. *)
Definition only_primary (p : string) (d : Database) : Prop :=
  db_ok d ∧
  (∃ r, r ∈ d ∧ id r = PRIMARY_TOKEN_ID ∧ tokenHash r = p ∧ revokedAt r = None ∧ sweptAt r = None ∧
     expiresAt r = None) ∧
  ∀ r, r ∈ d → id r ≠ PRIMARY_TOKEN_ID → sweptAt r ≠ None.

Definition no_issue (e : event) : Prop :=
  match e with EvIssue _ _ _ _ | EvRestart _ => False | _ => True end.

Lemma only_primary_step ttl p h e :
  no_issue e → only_primary p (db h) → only_primary p (db (step ttl h e)).
Proof.
  intros He (Hok & (rp & Hrp & Hi & Hh & Hrv & Hsw & Hex) & Hothers).
  split; [by apply step_ok|].
  destruct e as [ms|hash|i hash lbl x|tid|hash|rd w]; simpl in *; [by eauto 9|done|done| | |by eauto 9].
  - destruct (writes h); [|by eauto 9]. split.
    + exists rp. split_and!; [|done..]. pose proof (update_image
        (λ r, bool_decide (id r = tid ∧ id r ≠ PRIMARY_TOKEN_ID ∧ revokedAt r = None))
        (set_revoked (Some (now h))) (db h) rp Hrp) as H.
      cbv beta in H. rewrite bool_decide_false in H; [done|]. by intros (_ & ? & _).
    + intros r (r0 & Hr0 & ->)%elem_of_update. case_bool_decide; simpl; by apply Hothers.
  - destruct (authenticate_db ttl hash h) as (_ & _ & [->|(r0 & _ & _ & ->)]); [by eauto 9|]. split.
    + destruct (touch_image (id r0) ttl (now h) (db h) rp Hrp) as (r' & ? & ? & ? & ? & ? & Hx & _).
      exists r'. split_and!; [done|congruence..|by apply Hx].
    + intros r Hr Hid. apply touch_fields in Hr as (r1 & Hr1 & Hi1 & _ & _ & -> & _).
      apply Hothers; congruence.
Qed.

Lemma only_primary_check p d t :
  only_primary p d →
  (∃ r, validateTokenHash (Some d) p t = valid r ∧ id r = PRIMARY_TOKEN_ID) ∧
  ∀ hash r, validateTokenHash (Some d) hash t = valid r → id r = PRIMARY_TOKEN_ID.
Proof.
  intros (Hok & (rp & Hrp & Hi & Hh & Hrv & Hsw & Hex) & Hothers). split.
  - exists rp. split; [|done]. simpl. rewrite <- Hh, getTokenByHash_elem by done.
    apply check_alive. intros [?|[?|(e & He & _)]]; congruence.
  - intros hash r. simpl. destruct (getTokenByHash hash d) as [r0|] eqn:Hg; [|done]. intros Hv.
    assert (r0 = r) as ->.
    { destruct (check_total r0 t) as [[? Hc]|Hc]; congruence. }
    apply getTokenByHash_Some in Hg as [Hr _]. apply check_alive in Hv. apply dec_stable.
    intros Hid. apply Hv. right. left. by apply Hothers.
Qed.

(** The primary row of a table, when there is one, was never revoked, swept or given a term. *)
Definition primary_intact (d : Database) : Prop :=
  ∀ r, r ∈ d → id r = PRIMARY_TOKEN_ID → revokedAt r = None ∧ sweptAt r = None ∧ expiresAt r = None.

Lemma restart_only_primary p h d :
  db_ok (db h) → primary_intact (db h) →
  upsertPrimaryToken p (now h) (sweepNonPrimaryTokens (now h) (db h)) = Some d → only_primary p d.
Proof.
  intros Hok Hint Hu. set (d1 := sweepNonPrimaryTokens (now h) (db h)) in *.
  assert (db_ok d1) as Hok1 by (by apply db_ok_update).
  assert (∀ r, r ∈ d1 → id r ≠ PRIMARY_TOKEN_ID → sweptAt r ≠ None) as Hsw1.
  { intros r (r0 & Hr0 & ->)%elem_of_update. case_bool_decide as Hc; [done|]. intros Hid Hsw.
    by destruct Hc. }
  assert (primary_intact d1) as Hint1.
  { intros r (r0 & Hr0 & ->)%elem_of_update. case_bool_decide as Hc; [by intros ?; destruct Hc|].
    by apply Hint. }
  split; [by eapply db_ok_upsert|].
  apply upsert_Some in Hu as [(-> & _ & (rp & Hrp & Hid))|(-> & _)%insert_Some].
  - split.
    + exists (set_hash p rp). destruct (Hint1 rp Hrp Hid) as (? & ? & ?). split_and!; [|done..].
      apply elem_of_update. exists rp. by rewrite bool_decide_true.
    + intros r (r0 & Hr0 & ->)%elem_of_update. case_bool_decide; simpl; by apply Hsw1.
  - split.
    + eexists. split; [apply elem_of_app; right; by left|done].
    + intros r [Hr| ->%list_elem_of_singleton]%elem_of_app; [by apply Hsw1|done].
Qed.
End rows.

(** ** Properties *)

(** C17: what is refused stays refused. Once the check refuses a credential there is a row for,
    the primary one apart, because the row was revoked, swept by a restart or has expired, it
    refuses it whenever it answers, whatever is issued, revoked, presented or restarted after:
    in particular presenting an expired token never extends it. *)
Theorem refused_for_good ttl h es hash r :
  db_ok (db h) → getTokenByHash hash (db h) = Some r → id r ≠ PRIMARY_TOKEN_ID →
  (∃ reason, validateTokenHash (Some (db h)) hash (now h) = invalid reason) →
  let h' := run (step ttl) h es in
  ∃ reason, validateTokenHash (Some (db h')) hash (now h') = invalid reason.
Proof.
  intros Hok Hg Hid [reason Hv] h'. simpl in Hv. rewrite Hg in Hv.
  apply getTokenByHash_Some in Hg as [Hr Hh].
  destruct (run_row ttl h es r Hok Hr Hid) as (r' & Hr' & Hh' & Hd').
  { apply check_dead. eauto. }
  pose proof (run_ok ttl h es Hok) as Hok'. unfold h', validateTokenHash.
  rewrite <- Hh, <- Hh', getTokenByHash_elem by done. by apply check_dead.
Qed.

Definition hub0 : Hub :=
  MkHub [Token PRIMARY_TOKEN_ID "hp" "Primary" 0 None None None None;
         Token "t1" "h1" "Paired" 0 (Some 50) None None None] 100 true true no_reports.

Lemma hub0_ok : db_ok (db hub0).
Proof. split; apply (bool_decide_unpack _); vm_compute; exact I. Qed.

Lemma refused_for_good_witness :
  ∃ reason, validateTokenHash (Some (db (run (step 7) hub0 [EvRequest "h1"; EvTick 5]))) "h1"
    (now (run (step 7) hub0 [EvRequest "h1"; EvTick 5])) = invalid reason.
Proof.
  apply (refused_for_good 7 hub0 [EvRequest "h1"; EvTick 5] "h1"
    (Token "t1" "h1" "Paired" 0 (Some 50) None None None) hub0_ok);
    [reflexivity|discriminate|exists expired; reflexivity].
Defined.

(** What a start leaves. From a table whose primary row is intact, a start that succeeds
    leaves the primary token good and nothing else, and until another start or a new token is
    issued that remains so, whatever is revoked, presented or breaks meanwhile. *)
Theorem restart_leaves_primary ttl p h es d :
  db_ok (db h) → primary_intact (db h) → writes h = true →
  upsertPrimaryToken p (now h) (sweepNonPrimaryTokens (now h) (db h)) = Some d →
  Forall no_issue es →
  let h' := run (step ttl) (restart p h) es in
  (∃ r, validateTokenHash (Some (db h')) p (now h') = valid r ∧ id r = PRIMARY_TOKEN_ID) ∧
  (∀ hash i, (authenticate ttl hash h').2 = accepted i → i = PRIMARY_TOKEN_ID).
Proof.
  intros Hok Hint Hw Hu Hes h'.
  assert (only_primary p (db h')) as Hp.
  { unfold h'. apply (run_invariant (step ttl) no_issue (λ h, only_primary p (db h)));
      [intros; by apply only_primary_step|done|].
    unfold restart. rewrite Hw, Hu. by eapply restart_only_primary. }
  destruct (only_primary_check p (db h') (now h') Hp) as [Hprim Honly]. split; [done|].
  intros hash i. unfold authenticate. destruct (reads h'); [|done].
  destruct (validateTokenHash (Some (db h')) hash (now h')) as [r|reason|] eqn:Hv; [|done..].
  unfold touchTokenBestEffort. destruct (writes h'); simpl; intros [= <-]; by eapply Honly.
Qed.

Lemma restart_leaves_primary_witness :
  db_ok (db hub0) ∧
  ∀ hash i, (authenticate 7 hash (run (step 7) (restart "hp" hub0) [EvRevoke PRIMARY_TOKEN_ID])).2
    = accepted i → i = PRIMARY_TOKEN_ID.
Proof.
  split; [exact hub0_ok|].
  apply (restart_leaves_primary 7 "hp" hub0 [EvRevoke PRIMARY_TOKEN_ID]
    [Token PRIMARY_TOKEN_ID "hp" "Primary" 0 None None None None;
     Token "t1" "h1" "Paired" 0 (Some 50) None (Some 100) None] hub0_ok).
  - intros r [->|[->|Hr]%elem_of_cons]%elem_of_cons; [done|done|by inversion Hr].
  - reflexivity.
  - reflexivity.
  - repeat constructor.
Defined.

Definition report_all (vs : list TokenValidation) (s : Reports) : Reports :=
  fold_left (λ s v, reportTokenStore v s) vs s.

Lemma report_app vs ws s : report_all (vs ++ ws) s = report_all ws (report_all vs s).
Proof. apply fold_left_app. Qed.

Lemma report_outage k s :
  report_all (replicate k unavailable) s =
    {| refused := k + refused s; failed := failed s;
       lines := lines s ++ if decide (k ≠ 0%nat ∧ refused s = 0%nat) then [StoreUnavailable] else [] |}.
Proof.
  revert s. induction k as [|k IH]; intros s.
  { destruct s. simpl. by rewrite app_nil_r. }
  cbn [replicate]. change (report_all (replicate k unavailable) (reportTokenStore unavailable s) =
    {| refused := S k + refused s; failed := failed s;
       lines := lines s ++ if decide (S k ≠ 0%nat ∧ refused s = 0%nat) then [StoreUnavailable] else [] |}).
  rewrite IH. simpl.
  f_equal; [lia|]. rewrite (decide_False (P := _ ∧ S (refused s) = 0%nat)) by lia. rewrite app_nil_r.
  f_equal. destruct (decide (refused s = 0%nat)); [by rewrite decide_True|].
  rewrite decide_False; [done|]. by intros [_ ?].
Qed.

Lemma report_answers vs s :
  vs ≠ [] → Forall (λ v, v ≠ unavailable) vs →
  report_all vs s =
    {| refused := 0; failed := failed s;
       lines := lines s ++ if decide (refused s = 0%nat) then [] else [StoreAnsweringAgain (refused s)] |}.
Proof.
  assert (∀ vs s, Forall (λ v, v ≠ unavailable) vs → refused s = 0%nat → report_all vs s = s) as Hquiet.
  { clear. intros vs s Hvs Hs. induction Hvs as [|v vs Hv _ IH]; [done|]. simpl.
    assert (reportTokenStore v s = s) as ->; [|done].
    destruct v; simpl; [by rewrite decide_True..|done]. }
  intros Hne Hvs. destruct Hvs as [|v vs Hv Hvs]; [done|]. cbn [report_all fold_left].
  change (report_all vs (reportTokenStore v s) =
    {| refused := 0; failed := failed s;
       lines := lines s ++ if decide (refused s = 0%nat) then [] else [StoreAnsweringAgain (refused s)] |}).
  destruct v; [| |done]; simpl; (case_decide as Hs; rewrite Hquiet by done; [|done]);
    destruct s; simpl in *; subst; by rewrite app_nil_r.
Qed.

(** An outage of the token store is written once, and its end once, with the number of
    credentials refused meanwhile: whatever the answers and however many requests meet an outage,
    the lines are two per outage that ended and one for an outage that has not. *)
Theorem outage_logged_once (spans : list (nat * list TokenValidation)) (open : nat) :
  Forall (λ sp, sp.2 ≠ [] ∧ Forall (λ v, v ≠ unavailable) sp.2) spans →
  lines (report_all ((spans ≫= λ sp, replicate sp.1 unavailable ++ sp.2) ++
                     replicate open unavailable) no_reports) =
  (spans ≫= λ sp, if decide (sp.1 = 0%nat) then [] else [StoreUnavailable; StoreAnsweringAgain sp.1]) ++
  (if decide (open = 0%nat) then [] else [StoreUnavailable]).
Proof.
  intros Hsp.
  assert (∀ s, refused s = 0%nat →
    let s' := report_all (spans ≫= λ sp, replicate sp.1 unavailable ++ sp.2) s in
    refused s' = 0%nat ∧
    lines s' = lines s ++ (spans ≫= λ sp,
      if decide (sp.1 = 0%nat) then [] else [StoreUnavailable; StoreAnsweringAgain sp.1])) as Hspans.
  { induction Hsp as [|[k vs] spans [Hne Hvs] _ IH]; intros s Hs; [simpl; by rewrite app_nil_r|].
    simpl in *. rewrite !report_app, report_outage, (report_answers vs) by done. simpl.
    rewrite Hs, Nat.add_0_r.
    match goal with |- context [report_all _ ?s1] =>
      destruct (IH s1 eq_refl) as [IH1 IH2] end.
    split; [exact IH1|]. etransitivity; [exact IH2|]. simpl. rewrite <- !app_assoc. f_equal.
    by destruct k. }
  destruct (Hspans no_reports eq_refl) as [Hr Hl]. rewrite report_app, report_outage. simpl.
  rewrite Hl, Hr. simpl. f_equal. destruct open; [done|]. by rewrite decide_True.
Qed.

Lemma outage_logged_once_witness :
  lines (report_all ([unavailable; unavailable; invalid unknown] ++ [unavailable]) no_reports) =
    [StoreUnavailable; StoreAnsweringAgain 2; StoreUnavailable].
Proof.
  apply (outage_logged_once [(2%nat, [invalid unknown])] 1). repeat constructor; discriminate.
Defined.
