(* ===== verification/Pairing.v ===== *)
(** * Pairing a browser with the hub ([packages/hub/src/api/pair.ts],
      [storage/pairing-codes-dal.ts], [storage/pair-rate-limits-dal.ts])

    The two tables, the two routes and the hub's start, as a machine whose clock never goes back.
    Instants are milliseconds. The keyed hash, the random draws and [generateId] belong to other
    libraries: [hasher n] is the hash under the key of the [n]th run of the hub, and the draws are
    arguments of the route. *)

From Stdlib Require Import Ascii.
From stdpp Require Import strings.
From S2P Require Import Prelude Auth.
#[local] Open Scope lasterm_scope.
#[local] Open Scope Z_scope.

Definition VERIFY_WINDOW_MS : Z := 60000.
Definition VERIFY_MAX : nat := 10.
Definition BACKOFF_THRESHOLD : nat := 5.
Definition CODE_LIFE_MS : Z := 60000.
Definition CODE_MAX_ATTEMPTS : nat := 5.
Definition MAX_ACTIVE_CODES : nat := 3.

(** ** Codes *)

Definition digit (n : Z) : ascii := ascii_of_nat (48 + Z.to_nat (n mod 10)).

(** The last [k] decimal digits of [n]: [n.toString().padStart(k, "0")] for [0 <= n < 10^k]. *)
Fixpoint pad (k : nat) (n : Z) (acc : string) : string :=
  match k with
  | O => acc
  | S k' => pad k' (n / 10) (String (digit n) acc)
  end.
Definition code_of (draw : Z) : string := pad 8 draw EmptyString.

Definition is_digit (c : ascii) : bool := (48 <=? nat_of_ascii c)%nat && (nat_of_ascii c <=? 57)%nat.
Fixpoint all_digits (s : string) : bool :=
  match s with
  | EmptyString => true
  | String c s' => is_digit c && all_digits s'
  end.
(** [/^\d{8}$/] *)
Definition is_code (s : string) : bool := all_digits s && Nat.eqb (String.length s) 8.

Record PairingCodeRow := {
  pid : string;
  code_hash : string;
  created_at : Z;
  expires_at : Z;
  used : bool;
  used_at : option Z;
  used_by_ip : option string;
}.

Record RateLimitRow := { attempts : nat; window_start : Z }.

(** ** The tables' operations *)

(** [None] is the UNIQUE violation. *)
Definition createPairingCode (newId hash : string) (createdAt expiresAt : Z)
  (codes : list PairingCodeRow) : option (list PairingCodeRow) :=
  if decide (Exists (λ r, pid r = newId ∨ code_hash r = hash) codes) then None
  else Some (codes ++ [{| pid := newId; code_hash := hash; created_at := createdAt;
                          expires_at := expiresAt; used := false; used_at := None;
                          used_by_ip := None |}]).

Definition getPairingCodeByHash (hash : string) (codes : list PairingCodeRow)
  : option PairingCodeRow := snd <$> list_find (λ r, code_hash r = hash) codes.

Definition mark (usedAt : Z) (ip : string) (r : PairingCodeRow) : PairingCodeRow :=
  {| pid := pid r; code_hash := code_hash r; created_at := created_at r;
     expires_at := expires_at r; used := true; used_at := Some usedAt; used_by_ip := Some ip |}.
Definition markPairingCodeUsed (tid : string) (usedAt : Z) (ip : string)
  (codes : list PairingCodeRow) : list PairingCodeRow :=
  (λ r, if decide (pid r = tid) then mark usedAt ip r else r) <$> codes.

Definition active (t : Z) (r : PairingCodeRow) : Prop := used r = false ∧ t < expires_at r.
#[export] Instance active_dec t r : Decision (active t r).
Proof. unfold active. apply _. Defined.
Definition countActivePairingCodes (t : Z) (codes : list PairingCodeRow) : nat :=
  length (filter (active t) codes).

Definition deleteUnredeemedPairingCodes (codes : list PairingCodeRow) : list PairingCodeRow :=
  filter (λ r, used r = true) codes.

(** The window after [n] attempts, in base windows. *)
Definition multiplier (n maxAttempts backoffThreshold : nat) : Z :=
  if (backoffThreshold <=? n)%nat then
    Z.min 8 (2 ^ ((Z.of_nat n - Z.of_nat backoffThreshold) / Z.of_nat maxAttempts + 1))
  else 1.

Definition checkAndIncrement (ip : string) (maxAttempts : nat) (windowMs : Z)
  (backoffThreshold : nat) (now : Z) (limits : gmap string RateLimitRow)
  : gmap string RateLimitRow * bool :=
  match limits !! ip with
  | None => (<[ip := {| attempts := 1; window_start := now |}]> limits, true)
  | Some row =>
      let effectiveWindow := windowMs * multiplier (attempts row) maxAttempts backoffThreshold in
      if effectiveWindow <=? now - window_start row then
        (<[ip := {| attempts := 1; window_start := now |}]> limits, true)
      else
        (<[ip := {| attempts := S (attempts row); window_start := window_start row |}]> limits,
         (attempts row + 1 <=? maxAttempts)%nat)
  end.

Definition cleanExpired (windowMs now : Z) (limits : gmap string RateLimitRow)
  : gmap string RateLimitRow :=
  filter (λ kr : string * RateLimitRow, ¬ window_start kr.2 < now - windowMs * 8) limits.

(** ** The routes *)

Inductive pair_reply :=
| paired_201 (code : string) (expiresAt : Z)
| too_many_codes_429
| pair_thrown_500.

Inductive verify_reply :=
| token_200 (tokenId : string)
| rate_limited_429
| invalid_format_400
| unknown_code_404
| code_used_409
| code_expired_410
| verify_thrown_500.

(** [redeemed] and [answers] are what the security log keeps of the verify route: the pairing
    redeemed with the instant, and each answer with the address and the instant. *)
Record Hub := {
  run_no : nat;
  started : Z;
  clock : Z;
  codes : list PairingCodeRow;
  limits : gmap string RateLimitRow;
  tokens : Database;
  redeemed : list (PairingCodeRow * Z);
  answers : list (string * verify_reply * Z);
}.

Definition set_codes v (h : Hub) : Hub :=
  {| run_no := run_no h; started := started h; clock := clock h; codes := v; limits := limits h;
     tokens := tokens h; redeemed := redeemed h; answers := answers h |}.
Definition set_limits v (h : Hub) : Hub :=
  {| run_no := run_no h; started := started h; clock := clock h; codes := codes h; limits := v;
     tokens := tokens h; redeemed := redeemed h; answers := answers h |}.
Definition set_tokens v (h : Hub) : Hub :=
  {| run_no := run_no h; started := started h; clock := clock h; codes := codes h;
     limits := limits h; tokens := v; redeemed := redeemed h; answers := answers h |}.
Definition set_clock v (h : Hub) : Hub :=
  {| run_no := run_no h; started := started h; clock := v; codes := codes h; limits := limits h;
     tokens := tokens h; redeemed := redeemed h; answers := answers h |}.
Definition record_redeemed r (h : Hub) : Hub :=
  {| run_no := run_no h; started := started h; clock := clock h; codes := codes h;
     limits := limits h; tokens := tokens h; redeemed := redeemed h ++ [(r, clock h)];
     answers := answers h |}.
Definition record_answer ip a (h : Hub) : Hub :=
  {| run_no := run_no h; started := started h; clock := clock h; codes := codes h;
     limits := limits h; tokens := tokens h; redeemed := redeemed h;
     answers := answers h ++ [(ip, a, clock h)] |}.

Section routes.
Context (hasher : nat → string → string) (tokenTtlDays : Z).

(** The draws of [POST /api/pair], a collision drawing again but for the last one. *)
Fixpoint pair_loop (hash : string → string) (newId : string) (t : Z) (draws : list Z)
  (rows : list PairingCodeRow) : option (list PairingCodeRow * string) :=
  match draws with
  | [] => None
  | draw :: draws' =>
      let code := code_of draw in
      match createPairingCode newId (hash code) t (t + CODE_LIFE_MS) rows with
      | Some rows' => Some (rows', code)
      | None => pair_loop hash newId t draws' rows
      end
  end.

Definition pair_route (newId : string) (draws : list Z) (h : Hub) : Hub * pair_reply :=
  if (MAX_ACTIVE_CODES <=? countActivePairingCodes (clock h) (codes h))%nat
  then (h, too_many_codes_429)
  else
    match pair_loop (hasher (run_no h)) newId (clock h) (take CODE_MAX_ATTEMPTS draws) (codes h) with
    | Some (rows, code) => (set_codes rows h, paired_201 code (clock h + CODE_LIFE_MS))
    | None => (h, pair_thrown_500)
    end.

(** The verify route past its two limits on the request. *)
Definition redeem (ip code tokenId tokenHash : string) (h : Hub) : Hub * verify_reply :=
  match getPairingCodeByHash (hasher (run_no h) code) (codes h) with
  | None => (h, unknown_code_404)
  | Some row =>
      if used row then (h, code_used_409)
      else if expires_at row <? clock h then (h, code_expired_410)
      else
        let h := set_codes (markPairingCodeUsed (pid row) (clock h) ip (codes h)) h in
        let tokenExpiresAt :=
          if 0 <? tokenTtlDays then Some (clock h + tokenTtlDays * DAY_MS) else None in
        match createToken tokenId tokenHash ("Paired from " +:+ ip) tokenExpiresAt (clock h) (tokens h) with
        | Some db => (h |> set_tokens db |> record_redeemed row, token_200 tokenId)
        | None => (h, verify_thrown_500)
        end
  end.

Definition verify_answer (ip code tokenId tokenHash : string) (h : Hub) : Hub * verify_reply :=
  let '(l, allowed) :=
    checkAndIncrement ip VERIFY_MAX VERIFY_WINDOW_MS BACKOFF_THRESHOLD (clock h) (limits h) in
  let h := set_limits l h in
  if negb allowed then (h, rate_limited_429)
  else
    let h := set_limits (cleanExpired VERIFY_WINDOW_MS (clock h) (limits h)) h in
    if negb (is_code code) then (h, invalid_format_400)
    else redeem ip code tokenId tokenHash h.

Definition verify_route (ip code tokenId tokenHash : string) (h : Hub) : Hub * verify_reply :=
  let '(h', a) := verify_answer ip code tokenId tokenHash h in (record_answer ip a h', a).

(** [registerPairRoutes] in a new run of the hub: a new key. *)
Definition start (h : Hub) : Hub :=
  {| run_no := S (run_no h); started := clock h; clock := clock h;
     codes := deleteUnredeemedPairingCodes (codes h); limits := limits h; tokens := tokens h;
     redeemed := redeemed h; answers := answers h |}.

Inductive pair_event :=
| Elapse (ms : N)
| Start
| Pair (newId : string) (draws : list Z)
| Verify (ip code tokenId tokenHash : string).

Definition pair_step (h : Hub) (e : pair_event) : Hub :=
  match e with
  | Elapse ms => set_clock (clock h + Z.of_N ms) h
  | Start => start h
  | Pair newId draws => (pair_route newId draws h).1
  | Verify ip code tokenId tokenHash => (verify_route ip code tokenId tokenHash h).1
  end.
End routes.

(** A hub before its first run. *)
Definition fresh (t : Z) : Hub :=
  {| run_no := 0; started := t; clock := t; codes := []; limits := ∅; tokens := [];
     redeemed := []; answers := [] |}.

(** ** The rate limit *)

Section rate_limit.
Implicit Types (l : gmap string RateLimitRow).

Lemma multiplier_bounds n m b : (0 < m)%nat → 1 <= multiplier n m b <= 8.
Proof.
  intros Hm. unfold multiplier. destruct (b <=? n)%nat eqn:Hb; [|lia]. apply Nat.leb_le in Hb.
  assert (0 <= (Z.of_nat n - Z.of_nat b) / Z.of_nat m) by (apply Z.div_pos; lia).
  assert (2 ^ 1 <= 2 ^ ((Z.of_nat n - Z.of_nat b) / Z.of_nat m + 1)) by (apply Z.pow_le_mono_r; lia).
  lia.
Qed.

(** From the threshold on the window is twice the base at least. *)
Lemma multiplier_backoff n m b : (0 < m)%nat → (b <= n)%nat → 2 <= multiplier n m b.
Proof.
  intros Hm Hb. unfold multiplier. rewrite (proj2 (Nat.leb_le _ _)) by done.
  assert (0 <= (Z.of_nat n - Z.of_nat b) / Z.of_nat m) by (apply Z.div_pos; lia).
  assert (2 ^ 1 <= 2 ^ ((Z.of_nat n - Z.of_nat b) / Z.of_nat m + 1)) by (apply Z.pow_le_mono_r; lia).
  lia.
Qed.

Lemma lookup_clean w t l ip :
  cleanExpired w t l !! ip =
    l !! ip ≫= λ r, if decide (window_start r < t - w * 8) then None else Some r.
Proof.
  unfold cleanExpired. rewrite map_lookup_filter. destruct (l !! ip) as [r|]; simpl; [|done].
  destruct (decide (window_start r < t - w * 8)) as [Hlt|Hlt].
  - rewrite option_guard_False; [done|]. by intros H.
  - by rewrite option_guard_True.
Qed.

Lemma check_other ip m w b t l ip' :
  ip ≠ ip' → (checkAndIncrement ip m w b t l).1 !! ip' = l !! ip'.
Proof.
  intros Hne. unfold checkAndIncrement. repeat case_match; simpl; by rewrite lookup_insert_ne.
Qed.

(** What one address has spent of its budget: [n] attempts let through since [t0], at [t]. *)
Definition within_budget (t0 t : Z) (n : nat) (row : option RateLimitRow) : Prop :=
  match row with
  | None => VERIFY_WINDOW_MS * Z.of_nat n <= 5 * (t - t0)
  | Some r =>
      window_start r <= t ∧
      VERIFY_WINDOW_MS * Z.of_nat n <=
        5 * (window_start r - t0) + VERIFY_WINDOW_MS * Z.min (Z.of_nat (attempts r)) 10
  end.

Lemma budget_total t0 t n row :
  within_budget t0 t n row → VERIFY_WINDOW_MS * Z.of_nat n <= 5 * (t - t0) + VERIFY_WINDOW_MS * 10.
Proof. unfold within_budget, VERIFY_WINDOW_MS. destruct row; lia. Qed.

Lemma budget_elapse t0 t t' n row : t <= t' → within_budget t0 t n row → within_budget t0 t' n row.
Proof. unfold within_budget. destruct row; lia. Qed.

(** A new window opens only once the last one is paid for. *)
Lemma budget_reset t0 t n r :
  within_budget t0 t n (Some r) →
  VERIFY_WINDOW_MS * multiplier (attempts r) VERIFY_MAX BACKOFF_THRESHOLD <= t - window_start r →
  VERIFY_WINDOW_MS * Z.of_nat n <= 5 * (t - t0).
Proof.
  intros [_ Hn]. pose proof (multiplier_bounds (attempts r) VERIFY_MAX BACKOFF_THRESHOLD ltac:(unfold VERIFY_MAX; lia)).
  destruct (decide (BACKOFF_THRESHOLD <= attempts r)%nat) as [Hb|Hb].
  - pose proof (multiplier_backoff (attempts r) VERIFY_MAX BACKOFF_THRESHOLD ltac:(unfold VERIFY_MAX; lia) Hb).
    unfold VERIFY_WINDOW_MS in *. lia.
  - unfold BACKOFF_THRESHOLD, VERIFY_WINDOW_MS in *. lia.
Qed.

Lemma budget_check t0 t n ip l :
  within_budget t0 t n (l !! ip) →
  let '(l', allowed) := checkAndIncrement ip VERIFY_MAX VERIFY_WINDOW_MS BACKOFF_THRESHOLD t l in
  within_budget t0 t (if allowed then S n else n) (l' !! ip).
Proof.
  intros Hb. unfold checkAndIncrement. destruct (l !! ip) as [r|] eqn:Hr.
  - destruct (Z.leb_spec (VERIFY_WINDOW_MS * multiplier (attempts r) VERIFY_MAX BACKOFF_THRESHOLD)
      (t - window_start r)) as [Hw|Hw]; rewrite lookup_insert_eq.
    + pose proof (budget_reset _ _ _ _ Hb Hw). unfold within_budget, VERIFY_WINDOW_MS in *.
      cbn [window_start attempts]. lia.
    + destruct Hb as [Ht Hb]. unfold within_budget, VERIFY_MAX, VERIFY_WINDOW_MS in *.
      cbn [window_start attempts]. destruct (Nat.leb_spec (attempts r + 1) 10); lia.
  - rewrite lookup_insert_eq. unfold within_budget, VERIFY_WINDOW_MS in *.
    cbn [window_start attempts]. lia.
Qed.

Lemma budget_clean t0 t n ip l :
  within_budget t0 t n (l !! ip) →
  within_budget t0 t n (cleanExpired VERIFY_WINDOW_MS t l !! ip).
Proof.
  intros Hb. rewrite lookup_clean. destruct (l !! ip) as [r|]; simpl in *; [|done].
  case_decide; simpl; [|done]. unfold VERIFY_WINDOW_MS in *. lia.
Qed.
End rate_limit.

(** ** The codes *)

Record codes_ok (h : Hub) : Prop := {
  ok_ids : NoDup (pid <$> codes h);
  ok_hashes : NoDup (code_hash <$> codes h);
  ok_started : started h <= clock h;
  ok_row r : r ∈ codes h → created_at r <= clock h ∧ expires_at r = created_at r + CODE_LIFE_MS ∧
    (used r = false → started h <= created_at r);
  ok_active : (countActivePairingCodes (clock h) (codes h) <= MAX_ACTIVE_CODES)%nat;
  ok_once : NoDup ((λ rt : PairingCodeRow * Z, pid rt.1) <$> redeemed h);
  ok_redeemed r t : (r, t) ∈ redeemed h →
    created_at r <= t <= created_at r + CODE_LIFE_MS ∧
    ∃ r', r' ∈ codes h ∧ pid r' = pid r ∧ used r' = true;
  ok_tokens : length (tokens h) = length (redeemed h);
}.

Lemma length_filter_le {A} (P Q : A → Prop) `{∀ x, Decision (P x), ∀ x, Decision (Q x)} (l : list A) :
  (∀ x, P x → Q x) → (length (filter P l) <= length (filter Q l))%nat.
Proof.
  intros HPQ. induction l as [|x l IH]; [done|]. rewrite !filter_cons.
  destruct (decide (P x)) as [Hp|]; [rewrite decide_True by auto; simpl; lia|].
  case_decide; simpl; lia.
Qed.

Lemma active_sublist t l l' : sublist l l' →
  (countActivePairingCodes t l <= countActivePairingCodes t l')%nat.
Proof.
  unfold countActivePairingCodes. induction 1 as [|r l l' _ IH|r l l' _ IH]; [done| |];
    rewrite !filter_cons; case_decide; simpl; lia.
Qed.

Lemma active_mark t t' ip i l :
  (countActivePairingCodes t (markPairingCodeUsed i t' ip l) <= countActivePairingCodes t l)%nat.
Proof.
  unfold countActivePairingCodes, markPairingCodeUsed. induction l as [|r l IH]; [done|].
  rewrite fmap_cons, !filter_cons. destruct (decide (pid r = i)).
  - rewrite (decide_False (P := active t (mark t' ip r))) by (by intros [? _]).
    case_decide; simpl; lia.
  - case_decide; simpl; lia.
Qed.

Lemma active_later t t' l : t <= t' →
  (countActivePairingCodes t' l <= countActivePairingCodes t l)%nat.
Proof. intros. apply length_filter_le. intros r [? ?]. split; [done|lia]. Qed.

Lemma mark_keys {A} (g : PairingCodeRow → A) t ip i l :
  (∀ r, g (mark t ip r) = g r) → g <$> markPairingCodeUsed i t ip l = g <$> l.
Proof.
  intros Hg. unfold markPairingCodeUsed. rewrite <- list_fmap_compose. apply list_fmap_ext.
  intros k r _. simpl. case_decide; [apply Hg|done].
Qed.

Lemma createPairingCode_Some i hash t x l l' :
  createPairingCode i hash t x l = Some l' →
  l' = l ++ [{| pid := i; code_hash := hash; created_at := t; expires_at := x; used := false;
                used_at := None; used_by_ip := None |}] ∧
  ∀ r, r ∈ l → pid r ≠ i ∧ code_hash r ≠ hash.
Proof.
  unfold createPairingCode. case_decide as He; [done|]. intros [= <-]. split; [done|]. intros r Hr.
  rewrite <- Forall_Exists_neg, Forall_forall in He. specialize (He r Hr). tauto.
Qed.

Lemma pair_loop_Some hash i t draws l l' code :
  pair_loop hash i t draws l = Some (l', code) →
  createPairingCode i (hash code) t (t + CODE_LIFE_MS) l = Some l' ∧ ∃ d, d ∈ draws ∧ code = code_of d.
Proof.
  induction draws as [|d draws IH]; simpl; [done|].
  destruct (createPairingCode i (hash (code_of d)) _ _ _) as [rows|] eqn:Hc.
  - intros [= <- <-]. split; [done|]. exists d. split; [by left|done].
  - intros [? (d' & ? & ?)]%IH. split; [done|]. exists d'. split; [by right|done].
Qed.

Lemma getPairingCodeByHash_Some hash l r :
  getPairingCodeByHash hash l = Some r → r ∈ l ∧ code_hash r = hash.
Proof.
  unfold getPairingCodeByHash. intros ([i r'] & Hf & ->)%fmap_Some.
  apply list_find_Some in Hf as (Hl & Hh & _). split; [by eapply list_elem_of_lookup_2|done].
Qed.

Lemma getPairingCodeByHash_elem l r :
  NoDup (code_hash <$> l) → r ∈ l → getPairingCodeByHash (code_hash r) l = Some r.
Proof.
  intros Hnd Hr. destruct (getPairingCodeByHash (code_hash r) l) as [r'|] eqn:Hg.
  - apply getPairingCodeByHash_Some in Hg as [Hr' Hh]. f_equal. by eapply (NoDup_fmap_eq code_hash).
  - unfold getPairingCodeByHash in Hg. apply fmap_None, list_find_None in Hg.
    rewrite Forall_forall in Hg. by destruct (Hg r Hr).
Qed.

Section invariant.
Context (hasher : nat → string → string) (ttlDays : Z).
Implicit Types (h : Hub).

Lemma codes_ok_frame h h' :
  codes_ok h → run_no h' = run_no h → started h' = started h → clock h <= clock h' →
  codes h' = codes h → tokens h' = tokens h → redeemed h' = redeemed h → codes_ok h'.
Proof.
  intros [] _ Hs Hc Hco Ht Hr. split; rewrite ?Hco, ?Ht, ?Hr, ?Hs; try done; try lia.
  - intros r Hin. destruct (ok_row0 r Hin) as (? & ? & ?). split_and!; [lia|done..].
  - etransitivity; [by apply (active_later (clock h))|done].
Qed.

Lemma pair_route_ok newId draws h : codes_ok h → codes_ok (pair_route hasher newId draws h).1.
Proof.
  intros Hok. unfold pair_route. destruct (_ <=? _)%nat eqn:Hcount; [done|].
  apply Nat.leb_gt in Hcount. destruct (pair_loop _ _ _ _ _) as [[rows code]|] eqn:Hl; [|done].
  apply pair_loop_Some in Hl as [Hc _]. apply createPairingCode_Some in Hc as [-> Hfresh].
  destruct Hok. split; simpl.
  - rewrite fmap_app. apply NoDup_app. split_and!; [done| |apply NoDup_singleton].
    intros x (r & -> & Hr)%list_elem_of_fmap Hx%list_elem_of_singleton. by destruct (Hfresh r Hr).
  - rewrite fmap_app. apply NoDup_app. split_and!; [done| |apply NoDup_singleton].
    intros x (r & -> & Hr)%list_elem_of_fmap Hx%list_elem_of_singleton. by destruct (Hfresh r Hr).
  - done.
  - intros r [Hr| ->%list_elem_of_singleton]%elem_of_app; [by apply ok_row0|]. simpl. lia.
  - unfold countActivePairingCodes in *. rewrite filter_app, length_app.
    pose proof (length_filter (active (clock h)) [{| pid := newId; code_hash := hasher (run_no h) code;
      created_at := clock h; expires_at := clock h + CODE_LIFE_MS; used := false; used_at := None;
      used_by_ip := None |}]) as Hone. simpl in Hone. lia.
  - done.
  - intros r t Hr. destruct (ok_redeemed0 r t Hr) as (? & r' & ? & ?). split; [done|]. exists r'.
    split; [|done]. apply elem_of_app. by left.
  - done.
Qed.

(** What a redemption found, and what it leaves. *)
Lemma redeem_spec ip code tid th h h' a :
  redeem hasher ttlDays ip code tid th h = (h', a) →
  (h' = h ∧ ∀ tok, a ≠ token_200 tok) ∨
  ∃ row, row ∈ codes h ∧ code_hash row = hasher (run_no h) code ∧ used row = false ∧
    clock h <= expires_at row ∧ clock h' = clock h ∧ started h' = started h ∧ run_no h' = run_no h ∧
    limits h' = limits h ∧ answers h' = answers h ∧
    codes h' = markPairingCodeUsed (pid row) (clock h) ip (codes h) ∧
    (a = token_200 tid ∧ redeemed h' = redeemed h ++ [(row, clock h)] ∧
       length (tokens h') = S (length (tokens h)) ∨
     a = verify_thrown_500 ∧ redeemed h' = redeemed h ∧ tokens h' = tokens h).
Proof.
  unfold redeem. destruct (getPairingCodeByHash _ _) as [row|] eqn:Hg; [|by intros [= <- <-]; left].
  apply getPairingCodeByHash_Some in Hg as [Hin Hh].
  destruct (used row) eqn:Hu; [by intros [= <- <-]; left|].
  destruct (Z.ltb_spec (expires_at row) (clock h)); [by intros [= <- <-]; left|].
  destruct (createToken _ _ _ _ _ _) as [db|] eqn:Hc; intros [= <- <-]; right; exists row; simpl;
    split_and!; try done; try lia; [left|by right].
  split_and!; [done..|]. apply insert_Some in Hc as [-> _]. simpl. rewrite length_app. simpl. lia.
Qed.

Lemma redeem_ok ip code tid th h :
  codes_ok h → codes_ok (redeem hasher ttlDays ip code tid th h).1.
Proof.
  intros Hok. destruct (redeem hasher ttlDays ip code tid th h) as [h' a] eqn:Hr. simpl.
  apply redeem_spec in Hr as [[-> _]|(row & Hin & _ & Hu & Hx & Hcl & Hst & _ & _ & _ & Hco & Hout)];
    [done|].
  destruct Hok. destruct (ok_row0 row Hin) as (Hcr & Hex & Hage).
  assert (∀ r', r' ∈ codes h → ∃ r2, r2 ∈ codes h' ∧ pid r2 = pid r' ∧
    (used r' = true ∨ pid r' = pid row → used r2 = true)) as Himg.
  { intros r' Hr'. exists (if decide (pid r' = pid row) then mark (clock h) ip r' else r').
    rewrite Hco. split; [apply list_elem_of_fmap; by exists r'|].
    case_decide; simpl; [done|]. split; [done|]. by intros [?|?]. }
  split; rewrite ?Hcl, ?Hst, ?Hco, ?mark_keys; try done.
  - intros r (r0 & -> & Hr0)%list_elem_of_fmap. destruct (ok_row0 r0 Hr0) as (? & ? & ?).
    case_decide; simpl; split_and!; auto; done.
  - etransitivity; [apply active_mark|done].
  - destruct Hout as [(_ & -> & _)|(_ & -> & _)]; [|done]. rewrite fmap_app. apply NoDup_app.
    split_and!; [done| |apply NoDup_singleton].
    intros x ([r t] & -> & Hr)%list_elem_of_fmap Hpid%list_elem_of_singleton. simpl in Hpid.
    destruct (ok_redeemed0 r t Hr) as (_ & r' & Hr' & Hp & Hused).
    assert (r' = row) as -> by (apply (NoDup_fmap_eq pid (codes h)); congruence). congruence.
  - rewrite <- Hco. intros r t Hrt. assert ((r, t) ∈ redeemed h ∨ r = row ∧ t = clock h) as [Hold|[-> ->]].
    { destruct Hout as [(_ & Heq & _)|(_ & Heq & _)]; rewrite Heq in Hrt; [|by left].
      apply elem_of_app in Hrt as [?|[= -> ->]%list_elem_of_singleton]; [by left|by right]. }
    + destruct (ok_redeemed0 r t Hold) as (? & r' & Hr' & Hp & Hused). split; [done|].
      destruct (Himg r' Hr') as (r2 & ? & ? & Hu2). exists r2. split_and!; [done|congruence|auto].
    + split; [lia|]. destruct (Himg row Hin) as (r2 & ? & ? & Hu2). exists r2. auto.
  - destruct Hout as [(_ & -> & Hlen)|(_ & -> & ->)]; [|done]. rewrite length_app. simpl. lia.
Qed.

Lemma pair_step_ok h e : codes_ok h → codes_ok (pair_step hasher ttlDays h e).
Proof.
  intros Hok. destruct e as [ms| |newId draws|ip code tid th]; simpl.
  - eapply codes_ok_frame; [exact Hok|..]; simpl; try done. lia.
  - destruct Hok. assert (sublist (deleteUnredeemedPairingCodes (codes h)) (codes h)) as Hsub
      by apply sublist_filter.
    split; simpl; try done.
    + eapply sublist_NoDup; [apply ok_ids0|]. by apply fmap_sublist.
    + eapply sublist_NoDup; [apply ok_hashes0|]. by apply fmap_sublist.
    + intros r [Hu Hr]%list_elem_of_filter. destruct (ok_row0 r Hr) as (? & ? & ?).
      split_and!; [done..|congruence].
    + etransitivity; [by apply active_sublist|done].
    + intros r t Hr. destruct (ok_redeemed0 r t Hr) as (? & r' & ? & ? & ?). split; [done|].
      exists r'. split; [|done]. by apply list_elem_of_filter.
  - by apply pair_route_ok.
  - unfold verify_route, verify_answer. destruct (checkAndIncrement _ _ _ _ _ _) as [l allowed].
    destruct allowed; simpl; [|by eapply codes_ok_frame; [exact Hok|done..]].
    destruct (is_code code); simpl; [|by eapply codes_ok_frame; [exact Hok|done..]].
    match goal with |- context [redeem _ _ _ _ _ _ ?h1] =>
      pose proof (redeem_ok ip code tid th h1) as Hred; destruct (redeem _ _ _ _ _ _ h1) as [h' a] end.
    simpl in *. eapply codes_ok_frame; [apply Hred|done..].
    eapply codes_ok_frame; [exact Hok|done..].
Qed.

Lemma fresh_ok t : codes_ok (fresh t).
Proof.
  split; simpl; [apply NoDup_nil_2|apply NoDup_nil_2|done| |apply Nat.le_0_l
    |apply NoDup_nil_2| |done].
  - intros r Hr. by inversion Hr.
  - intros r t' Hr. by inversion Hr.
Qed.

Lemma run_codes_ok t es : codes_ok (run (pair_step hasher ttlDays) (fresh t) es).
Proof.
  apply (run_invariant _ (λ _, True)); [intros; by apply pair_step_ok|by apply Forall_true|apply fresh_ok].
Qed.
End invariant.

(** ** A code issued and redeemed *)

Lemma digit_ok n : is_digit (digit n) = true.
Proof.
  unfold is_digit, digit. pose proof (Z.mod_pos_bound n 10 ltac:(lia)).
  rewrite nat_ascii_embedding by lia.
  apply andb_true_iff. rewrite !Nat.leb_le. lia.
Qed.

Lemma pad_digits k n acc :
  all_digits (pad k n acc) = all_digits acc ∧ String.length (pad k n acc) = (k + String.length acc)%nat.
Proof.
  revert n acc. induction k as [|k IH]; intros n acc; cbn [pad]; [done|].
  destruct (IH (n / 10) (String (digit n) acc)) as [-> ->].
  cbn [all_digits String.length]. rewrite digit_ok. split; [reflexivity|lia].
Qed.

Lemma code_of_ok n : is_code (code_of n) = true.
Proof.
  unfold is_code, code_of. generalize (pad_digits 8 n EmptyString).
  generalize (pad 8 n EmptyString). intros c [-> ->]. reflexivity.
Qed.

(** ** What one address has been let through *)

Definition let_through (ip : string) (a : string * verify_reply * Z) : Prop :=
  a.1.1 = ip ∧ a.1.2 ≠ rate_limited_429.
#[export] Instance verify_reply_eq_dec : EqDecision verify_reply.
Proof. solve_decision. Defined.
#[export] Instance let_through_dec ip a : Decision (let_through ip a).
Proof. unfold let_through. apply _. Defined.
Definition attempts_of (ip : string) (h : Hub) : nat := length (filter (let_through ip) (answers h)).

Section budget.
Context (hasher : nat → string → string) (ttlDays : Z) (t0 : Z).

Definition spent (ip : string) (h : Hub) : Prop :=
  within_budget t0 (clock h) (attempts_of ip h) (limits h !! ip).

Lemma redeem_frame ip code tid th h :
  let h' := (redeem hasher ttlDays ip code tid th h).1 in
  limits h' = limits h ∧ clock h' = clock h ∧ answers h' = answers h ∧
  (redeem hasher ttlDays ip code tid th h).2 ≠ rate_limited_429.
Proof. unfold redeem. by repeat case_match. Qed.

Lemma attempts_record ip ip' a h :
  attempts_of ip (record_answer ip' a h) =
    (attempts_of ip h + if decide (ip' = ip ∧ a ≠ rate_limited_429) then 1 else 0)%nat.
Proof.
  unfold attempts_of. simpl. rewrite filter_app, length_app, filter_cons. unfold let_through. simpl.
  repeat case_decide; simpl; tauto || lia.
Qed.

Lemma spent_step ip h e : spent ip h → spent ip (pair_step hasher ttlDays h e).
Proof.
  intros Hs. destruct e as [ms| |newId draws|ip' code tid th]; simpl.
  - unfold spent in *. simpl. eapply budget_elapse; [|exact Hs]. lia.
  - exact Hs.
  - unfold pair_route. by repeat case_match.
  - unfold verify_route, verify_answer.
    pose proof (λ n, budget_check t0 (clock h) n ip' (limits h)) as Hcheck.
    pose proof (check_other ip' VERIFY_MAX VERIFY_WINDOW_MS BACKOFF_THRESHOLD (clock h) (limits h) ip) as Hother.
    destruct (checkAndIncrement ip' VERIFY_MAX VERIFY_WINDOW_MS BACKOFF_THRESHOLD (clock h) (limits h))
      as [l allowed]. cbn [fst] in Hother. unfold spent in *.
    assert (within_budget t0 (clock h)
      (attempts_of ip h + if decide (ip' = ip ∧ allowed = true) then 1 else 0)%nat (l !! ip)) as Hl.
    { destruct (decide (ip' = ip)) as [->|Hne].
      - specialize (Hcheck _ Hs). destruct allowed.
        + rewrite decide_True by done. by rewrite Nat.add_1_r.
        + rewrite decide_False by (by intros [_ ?]). by rewrite Nat.add_0_r.
      - rewrite decide_False by (by intros [? _]). by rewrite Hother, Nat.add_0_r. }
    destruct allowed; simpl.
    + set (h1 := set_limits _ (set_limits l h)). assert (∀ h' a, limits h' = limits h1 →
        clock h' = clock h → answers h' = answers h → a ≠ rate_limited_429 →
        within_budget t0 (clock h') (attempts_of ip (record_answer ip' a h')) (limits h' !! ip)) as Hdone.
      { intros h' a -> -> Ha Hne. rewrite attempts_record. unfold attempts_of. rewrite Ha.
        apply budget_clean. simpl. destruct (decide (ip' = ip)).
        - rewrite decide_True by done. by rewrite decide_True in Hl by done.
        - rewrite decide_False by tauto. by rewrite decide_False in Hl by tauto. }
      destruct (is_code code); simpl; [|by apply (Hdone h1)].
      pose proof (redeem_frame ip' code tid th h1) as (Hf1 & Hf2 & Hf3 & Hf4).
      destruct (redeem hasher ttlDays ip' code tid th h1) as [h' a]. simpl in *. by apply Hdone.
    + rewrite attempts_record. rewrite decide_False in Hl by (by intros [_ ?]).
      by rewrite decide_False by tauto.
Qed.
End budget.

Lemma run_spent hasher ttlDays ip t es :
  spent t ip (run (pair_step hasher ttlDays) (fresh t) es).
Proof.
  apply (run_invariant _ (λ _, True)); [intros; by apply spent_step|by apply Forall_true|].
  unfold spent. simpl. rewrite lookup_empty. simpl. unfold attempts_of. simpl. lia.
Qed.

(** What the rate limit keeps of an address, cleaned or not, as a check at [t] sees it. *)
Lemma check_clean ip w t l :
  0 <= w →
  (checkAndIncrement ip VERIFY_MAX w BACKOFF_THRESHOLD t (cleanExpired w t l)).2 =
    (checkAndIncrement ip VERIFY_MAX w BACKOFF_THRESHOLD t l).2 ∧
  (checkAndIncrement ip VERIFY_MAX w BACKOFF_THRESHOLD t (cleanExpired w t l)).1 !! ip =
    (checkAndIncrement ip VERIFY_MAX w BACKOFF_THRESHOLD t l).1 !! ip.
Proof.
  intros Hw. unfold checkAndIncrement. rewrite lookup_clean. destruct (l !! ip) as [r|]; simpl.
  2: by rewrite !lookup_insert_eq.
  case_decide as Hold; simpl.
  - pose proof (multiplier_bounds (attempts r) VERIFY_MAX BACKOFF_THRESHOLD ltac:(unfold VERIFY_MAX; lia)).
    rewrite (proj2 (Z.leb_le _ _)) by nia. simpl. by rewrite !lookup_insert_eq.
  - case_match; simpl; by rewrite !lookup_insert_eq.
Qed.

Section redemption.
Context (hasher : nat → string → string) (ttlDays : Z).

Lemma pair_route_row newId draws h h1 code x :
  pair_route hasher newId draws h = (h1, paired_201 code x) →
  ∃ row, row ∈ codes h1 ∧ code_hash row = hasher (run_no h1) code ∧ used row = false ∧
    expires_at row = clock h + CODE_LIFE_MS ∧ clock h1 = clock h ∧ limits h1 = limits h ∧
    tokens h1 = tokens h ∧ is_code code = true.
Proof.
  unfold pair_route. destruct (_ <=? _)%nat; [done|].
  destruct (pair_loop _ _ _ _ _) as [[rows c]|] eqn:Hl; [|done]. intros [= <- <- _].
  apply pair_loop_Some in Hl as [[-> _]%createPairingCode_Some (d & _ & ->)].
  eexists. split; [apply elem_of_app; right; by left|]. split_and!; [done..|apply code_of_ok].
Qed.

Lemma verify_redeems ip code tid th h row :
  NoDup (code_hash <$> codes h) → row ∈ codes h → code_hash row = hasher (run_no h) code →
  used row = false → clock h <= expires_at row → is_code code = true →
  (checkAndIncrement ip VERIFY_MAX VERIFY_WINDOW_MS BACKOFF_THRESHOLD (clock h) (limits h)).2 = true →
  Forall (λ r, id r ≠ tid ∧ tokenHash r ≠ th) (tokens h) →
  ∃ h3, verify_route hasher ttlDays ip code tid th h = (h3, token_200 tid) ∧
    NoDup (code_hash <$> codes h3) ∧
    ∃ r, r ∈ codes h3 ∧ code_hash r = hasher (run_no h3) code ∧ used r = true.
Proof.
  intros Hnd Hin Hh Hu Hx Hc Hal Htok. unfold verify_route, verify_answer.
  destruct (checkAndIncrement _ _ _ _ _ _) as [l allowed]. simpl in Hal. subst allowed. simpl.
  rewrite Hc. simpl. unfold redeem. simpl. rewrite <- Hh, getPairingCodeByHash_elem by done.
  rewrite Hu, (proj2 (Z.ltb_ge _ _)) by done. unfold createToken, insert_token.
  rewrite decide_False by (apply Forall_Exists_neg; eapply Forall_impl; [exact Htok|];
    simpl; intros r [? ?] [?|?]; done).
  eexists. split; [done|]. simpl. split; [by rewrite mark_keys|].
  exists (mark (clock h) ip row). split_and!; [|done..].
  apply list_elem_of_fmap. exists row. by rewrite decide_True.
Qed.

Lemma verify_refuses_used ip code tid th h row :
  NoDup (code_hash <$> codes h) → row ∈ codes h → code_hash row = hasher (run_no h) code →
  used row = true → is_code code = true →
  (checkAndIncrement ip VERIFY_MAX VERIFY_WINDOW_MS BACKOFF_THRESHOLD (clock h) (limits h)).2 = true →
  (verify_route hasher ttlDays ip code tid th h).2 = code_used_409.
Proof.
  intros Hnd Hin Hh Hu Hc Hal. unfold verify_route, verify_answer.
  destruct (checkAndIncrement _ _ _ _ _ _) as [l allowed]. simpl in Hal. subst allowed. simpl.
  rewrite Hc. simpl. unfold redeem. simpl. rewrite <- Hh, getPairingCodeByHash_elem by done.
  by rewrite Hu.
Qed.
End redemption.

(** ** Properties *)

(** C20: pairing hands out one token per code. In every state the hub can reach, however codes are
    issued, tried, left to expire and the hub restarted: no pairing is redeemed twice, each was
    redeemed at most a minute after its code was issued, its row is still there, marked used, and
    there are as many paired tokens as redemptions; the unused rows are the current run's; and no
    more than three codes are live at once. *)
Theorem pairing_safe hasher ttlDays t es :
  let h := run (pair_step hasher ttlDays) (fresh t) es in
  NoDup ((λ rt : PairingCodeRow * Z, pid rt.1) <$> redeemed h) ∧
  (∀ r at_, (r, at_) ∈ redeemed h → created_at r <= at_ <= created_at r + CODE_LIFE_MS ∧
     ∃ r', r' ∈ codes h ∧ pid r' = pid r ∧ used r' = true) ∧
  length (tokens h) = length (redeemed h) ∧
  (∀ r, r ∈ codes h → used r = false → started h <= created_at r) ∧
  (countActivePairingCodes (clock h) (codes h) <= MAX_ACTIVE_CODES)%nat.
Proof.
  intros h. destruct (run_codes_ok hasher ttlDays t es) as [? ? ? Hrow ? ? ? ?].
  split_and!; try done. intros r Hr. by apply Hrow.
Qed.

(** What guessing costs. However attempts from every address are mixed with pairings, restarts
    and the cleaning of the table, the attempts of one address let through in [d] milliseconds are
    ten, and five more a minute: never more. *)
Theorem guessing_bounded hasher ttlDays ip t es :
  let h := run (pair_step hasher ttlDays) (fresh t) es in
  VERIFY_WINDOW_MS * Z.of_nat (attempts_of ip h) <=
    VERIFY_WINDOW_MS * Z.of_nat VERIFY_MAX + 5 * (clock h - t).
Proof.
  pose proof (budget_total _ _ _ _ (run_spent hasher ttlDays ip t es)). unfold VERIFY_MAX. simpl.
  lia.
Qed.

(** Cleaning the table of attempts changes no answer: the rows it deletes are those whose
    window, at its longest, is over, so a check right after it lets through what it would have let
    through, and leaves the address the same row. *)
Theorem cleaning_changes_nothing ip w t l :
  0 <= w →
  (checkAndIncrement ip VERIFY_MAX w BACKOFF_THRESHOLD t (cleanExpired w t l)).2 =
    (checkAndIncrement ip VERIFY_MAX w BACKOFF_THRESHOLD t l).2 ∧
  (checkAndIncrement ip VERIFY_MAX w BACKOFF_THRESHOLD t (cleanExpired w t l)).1 !! ip =
    (checkAndIncrement ip VERIFY_MAX w BACKOFF_THRESHOLD t l).1 !! ip.
Proof. apply check_clean. Qed.

Lemma cleaning_changes_nothing_witness :
  (checkAndIncrement "a" VERIFY_MAX 10 BACKOFF_THRESHOLD 100
     (cleanExpired 10 100 {["a" := {| attempts := 3; window_start := 0 |}]})).2 = true.
Proof.
  rewrite (proj1 (cleaning_changes_nothing "a" 10 100
    {["a" := {| attempts := 3; window_start := 0 |}]} ltac:(lia))).
  reflexivity.
Defined.

(** A code issued can be redeemed, once. Sent back within its minute, in the same run, from an
    address the rate limit lets through and with a new token, the code the pairing route answered
    gives the token; sent again, from any address let through, it is refused as already used. *)
Theorem code_redeems_once hasher ttlDays newId draws h h1 code x (ms : N) ip tid th :
  codes_ok h → pair_route hasher newId draws h = (h1, paired_201 code x) →
  Z.of_N ms <= CODE_LIFE_MS →
  (checkAndIncrement ip VERIFY_MAX VERIFY_WINDOW_MS BACKOFF_THRESHOLD (clock h + Z.of_N ms)
     (limits h)).2 = true →
  Forall (λ r, id r ≠ tid ∧ tokenHash r ≠ th) (tokens h) →
  let h2 := set_clock (clock h1 + Z.of_N ms) h1 in
  let '(h3, a) := verify_route hasher ttlDays ip code tid th h2 in
  a = token_200 tid ∧
  ∀ ip' tid' th',
    (checkAndIncrement ip' VERIFY_MAX VERIFY_WINDOW_MS BACKOFF_THRESHOLD (clock h3) (limits h3)).2 = true →
    (verify_route hasher ttlDays ip' code tid' th' h3).2 = code_used_409.
Proof.
  intros Hok Hpair Hms Hallowed Htok h2.
  pose proof (pair_route_ok hasher newId draws h Hok) as Hok1. rewrite Hpair in Hok1. simpl in Hok1.
  destruct (pair_route_row _ _ _ _ _ _ _ Hpair) as (row & Hin & Hh & Hu & Hx & Hcl & Hli & Hto & Hc).
  destruct (verify_redeems hasher ttlDays ip code tid th h2 row) as (h3 & Hv & Hnd & r3 & Hin3 & Hh3 & Hu3);
    simpl; rewrite ?Hcl, ?Hli, ?Hto; try done; [apply Hok1|rewrite Hx; lia|].
  rewrite Hv. split; [done|]. intros ip' tid' th' Hal. by apply (verify_refuses_used _ _ _ _ _ _ _ r3).
Qed.

(** A hash for the witness: the code itself, marked with the run. *)
Definition plain_hash (n : nat) (s : string) : string := s.

Lemma code_redeems_once_witness :
  codes_ok (fresh 0) ∧
  (verify_route plain_hash 7 "ip" "00000042" "t1" "h1"
     (set_clock 60000 (pair_route plain_hash "p1" [42] (fresh 0)).1)).2 = token_200 "t1".
Proof.
  split; [apply fresh_ok|].
  pose proof (code_redeems_once plain_hash 7 "p1" [42] (fresh 0) (pair_route plain_hash "p1" [42] (fresh 0)).1
    "00000042" 60000 60000%N "ip" "t1" "h1" (fresh_ok 0) eq_refl ltac:(done) eq_refl
    ltac:(apply Forall_nil_2)) as H.
  cbv zeta in H. destruct (verify_route _ _ _ _ _ _ _) as [h3 a] eqn:Hv in H.
  change (set_clock 60000 (pair_route plain_hash "p1" [42] (fresh 0)).1) with
    (set_clock (clock (pair_route plain_hash "p1" [42] (fresh 0)).1 + Z.of_N 60000)
       (pair_route plain_hash "p1" [42] (fresh 0)).1). rewrite Hv. exact (proj1 H).
Defined.

(** Three codes are counted at once, and a fourth can still be redeemed: the count takes a code for
    dead at the instant it expires, the verify route only past it. *)
Lemma fourth_code_redeemable :
  let h := run (pair_step plain_hash 7) (fresh 0)
    [Pair "p1" [1]; Elapse 60000; Pair "p2" [2]; Pair "p3" [3]; Pair "p4" [4]] in
  countActivePairingCodes (clock h) (codes h) = MAX_ACTIVE_CODES ∧
  (verify_route plain_hash 7 "ip" "00000001" "t1" "h1" h).2 = token_200 "t1".
Proof. vm_compute. split; reflexivity. Qed.
