(* ===== verification/PromptContext.v ===== *)
(** * The questions the hub asks a person ([packages/hub/src/session/prompt-context.ts], and
      [_getOrOpenSessionPromptContext] of [ssh-connection-manager.ts])

    A prompt context owns the passphrase, host-key, agent and elevation prompts of one connect,
    test or elevation, and has one client they go to, its route. Each operation is one synchronous
    block of the source; what it sends and what it resolves are logs of the state. A prompt's
    promise is resolved through [answers]; a send throws when the client is gone or its socket
    fails ([delivers]). Leases are those of [Acquisition]. *)

From stdpp Require Import sorting strings.
From S2P Require Import Prelude JsMap.
From S2P Require Acquisition.
#[local] Open Scope lasterm_scope.

Inductive context_kind := session | test | elevation.
Inductive context_state := OPEN | CLOSED.
Inductive prompt_type := passphrase | host_verify | agent_verify | ask_elevation.
#[export] Instance context_kind_eq_dec : EqDecision context_kind.
Proof. solve_decision. Defined.
#[export] Instance context_state_eq_dec : EqDecision context_state.
Proof. solve_decision. Defined.

Record Context := MkContext {
  ctx_kind : context_kind;
  ctx_hostId : string;
  routeClientId : string;
  ctx_state : context_state;
  prompts : list string;
}.

Record InFlightPrompt := MkInFlight {
  contextId : string;
  if_type : prompt_type;
  deliveryEpoch : nat;
  timer : option Z;
  resendPayload : string;
}.

Record PendingPrompt := MkPending {
  pp_clientId : string;
  pp_contextId : string;
  pp_hostId : string;
  pp_type : prompt_type;
  pp_epoch : nat;
  pp_timer : option Z;
  pp_payload : string;
}.

Record ElevationPromptOwner := { owner_sessionId : string; owner_channelId : option string }.

(** What the route chooser reads of a channel. *)
Record ChannelState := {
  ch_hostId : string; ch_sessionId : string; ch_dead : bool; ch_clients : list string
}.

Inductive message :=
| Ask (payload promptId : string) (epoch : nat)
| PROMPT_CANCEL (promptId : string).

Record Ctx := MkCtx {
  promptContexts : jsmap string Context;
  elevationPromptOwners : jsmap string ElevationPromptOwner;
  promptIndex : jsmap string string;
  pendingPrompts : jsmap string PendingPrompt;
  inFlight : jsmap string InFlightPrompt;
  clients : list string;
  channels : jsmap string ChannelState;
  leasing : Acquisition.Ctx;
  sent : list (string * message);
  answers : list (string * option string);
}.

Definition with_contexts f c := MkCtx (f (promptContexts c)) (elevationPromptOwners c) (promptIndex c) (pendingPrompts
  c) (inFlight c) (clients c) (channels c) (leasing c) (sent c) (answers c).
Definition with_owners f c := MkCtx (promptContexts c) (f (elevationPromptOwners c)) (promptIndex c) (pendingPrompts
  c) (inFlight c) (clients c) (channels c) (leasing c) (sent c) (answers c).
Definition with_index f c := MkCtx (promptContexts c) (elevationPromptOwners c) (f (promptIndex c)) (pendingPrompts c)
  (inFlight c) (clients c) (channels c) (leasing c) (sent c) (answers c).
Definition with_pending f c := MkCtx (promptContexts c) (elevationPromptOwners c) (promptIndex c) (f (pendingPrompts
  c)) (inFlight c) (clients c) (channels c) (leasing c) (sent c) (answers c).
Definition with_inFlight f c := MkCtx (promptContexts c) (elevationPromptOwners c) (promptIndex c) (pendingPrompts c)
  (f (inFlight c)) (clients c) (channels c) (leasing c) (sent c) (answers c).
Definition with_clients f c := MkCtx (promptContexts c) (elevationPromptOwners c) (promptIndex c) (pendingPrompts c)
  (inFlight c) (f (clients c)) (channels c) (leasing c) (sent c) (answers c).
Definition with_sent f c := MkCtx (promptContexts c) (elevationPromptOwners c) (promptIndex c) (pendingPrompts c)
  (inFlight c) (clients c) (channels c) (leasing c) (f (sent c)) (answers c).
Definition resolve (p : string) (v : option string) c := MkCtx (promptContexts c) (elevationPromptOwners c)
  (promptIndex c) (pendingPrompts c) (inFlight c) (clients c) (channels c) (leasing c) (sent c) (answers c ++ [(p, v)]).

Definition set_route r x := MkContext (ctx_kind x) (ctx_hostId x) r (ctx_state x) (prompts x).
Definition set_ctx_state st x := MkContext (ctx_kind x) (ctx_hostId x) (routeClientId x) st (prompts x).
Definition set_prompts f x := MkContext (ctx_kind x) (ctx_hostId x) (routeClientId x) (ctx_state x) (f (prompts x)).
Definition bump f := MkInFlight (contextId f) (if_type f) (S (deliveryEpoch f)) (timer f) (resendPayload f).
Definition repoint r e pp := MkPending r (pp_contextId pp) (pp_hostId pp) (pp_type pp) e (pp_timer pp) (pp_payload pp).

Definition PROMPT_TIMEOUT_MS : Z := 120000.
Definition RECONNECT_CONTEXT_PREFIX : string := "reconnect:".
Definition reconnectContextId (sessionId : string) : string := RECONNECT_CONTEXT_PREFIX +:+ sessionId.
Definition isReconnectContextId (cid : string) : bool := String.prefix RECONNECT_CONTEXT_PREFIX cid.
Definition reconnectSessionId (cid : string) : option string :=
  if isReconnectContextId cid then
    Some (String.substring (String.length RECONNECT_CONTEXT_PREFIX)
            (String.length cid - String.length RECONNECT_CONTEXT_PREFIX) cid)
  else None.

(** ** The route chooser *)

(** A candidate that is falsy, null or the empty string, is none. *)
Definition truthy_id (o : option string) : option string :=
  o ≫= λ s, if truthy s then Some s else None.

(** [candidates.sort()[0]] *)
Definition first_sorted (l : list string) : option string := head (merge_sort String.le l).

(** The clients of the leases held on a host, released ones and [exclude]'s own left out. *)
Definition lease_clients (a : Acquisition.Ctx) (hostId exclude : string) (conn : list string)
  : list string :=
  js_values (Acquisition.acquisitions a) ≫= λ q,
    match Acquisition.acqs a !! q with
    | None => []
    | Some acq =>
        if decide (Acquisition.acq_hostId acq = hostId) then
          Acquisition.leases acq ≫= λ l,
            match Acquisition.leaseObjs a !! l with
            | None => []
            | Some o =>
                if decide (Acquisition.clientId o ≠ exclude ∧ Acquisition.released o = false ∧
                           Acquisition.clientId o ∈ conn)
                then [Acquisition.clientId o] else []
            end
        else []
    end.

Definition pickReconnectRouteCandidate (c : Ctx) (hostId sessionId : string)
  (exclude : option string) : option string :=
  first_sorted
    (js_values (channels c) ≫= λ ch,
       if decide (ch_hostId ch = hostId ∧ ch_sessionId ch = sessionId ∧ ch_dead ch = false)
       then filter (λ x, exclude ≠ Some x ∧ x ∈ clients c) (ch_clients ch) else []).

Definition pickRouteCandidate (c : Ctx) (cid exclude : string) : option string :=
  match promptContexts c !! cid with
  | None => None
  | Some x =>
      if decide (ctx_kind x = session) then
        if isReconnectContextId cid then
          match truthy_id (reconnectSessionId cid) with
          | Some sid => pickReconnectRouteCandidate c (ctx_hostId x) sid (Some exclude)
          | None => None
          end
        else first_sorted (lease_clients (leasing c) (ctx_hostId x) exclude (clients c))
      else None
  end.

(** ** Operations *)

(** The id of a new context: the one given, for a session, or a generated one. *)
Definition context_id (kind : context_kind) (acqId : option string) (freshId : string) : string :=
  match truthy_id acqId with
  | Some i => if decide (kind = session) then i else freshId
  | None => freshId
  end.

Definition openContext (kind : context_kind) (hostId route cid : string) (c : Ctx) : Ctx :=
  with_contexts (insert cid (MkContext kind hostId route OPEN [])) c.

Definition _clearPrompt (p : string) (c : Ctx) : Ctx :=
  let cid := promptIndex c !! p in
  let c := c |> with_inFlight (delete p) |> with_index (delete p) |> with_pending (delete p) in
  match cid with
  | Some cid => with_contexts (js_alter (set_prompts (set_delete p)) cid) c
  | None => c
  end.

(** The timer armed: none for null, the default for undefined. *)
Definition timer_of (timeoutMs : option (option Z)) : option Z :=
  default (Some PROMPT_TIMEOUT_MS) timeoutMs.

(** A response that carries no epoch is not checked for it. *)
Definition epoch_matches (epoch : option nat) (f : InFlightPrompt) : bool :=
  match epoch with None => true | Some e => bool_decide (e = deliveryEpoch f) end.

Section operations.
(** Whether the socket of a connected client takes a message. *)
Context (delivers : string → bool).

(** The message and whether it was sent; [false] is the exception. *)
Definition send (client : string) (m : message) (c : Ctx) : Ctx * bool :=
  if bool_decide (client ∈ clients c) && delivers client
  then (with_sent (λ l, l ++ [(client, m)]) c, true) else (c, false).

Definition try_send (client : string) (m : message) (c : Ctx) : Ctx := (send client m c).1.

(** The loop of [clearContext]; [sends] is whether it was given a [send]. *)
Definition clear_one (sends : bool) (route : string) (c : Ctx) (p : string) : Ctx :=
  let known := js_has p (inFlight c) in
  let c := if sends then try_send route (PROMPT_CANCEL p) c else c in
  let c := _clearPrompt p c in
  if known then resolve p None c else c.

Definition clearContext (sends : bool) (cid : string) (c : Ctx) : Ctx :=
  match promptContexts c !! cid with
  | None => c
  | Some x =>
      if decide (ctx_state x = CLOSED) then c
      else
        let c := with_contexts (js_alter (set_ctx_state CLOSED) cid) c in
        let c := fold_left (clear_one sends (routeClientId x)) (prompts x) c in
        c |> with_contexts (delete cid) |> with_owners (delete cid)
  end.

(** The prompt past the choice of its route. *)
Definition ask (cid : string) (x : Context) (type : prompt_type) (payload : string)
  (timeoutMs : option Z) (p : string) (c : Ctx) : Ctx :=
  let c := with_contexts (js_alter (set_prompts (set_add p)) cid) c in
  let c := with_index (insert p cid) c in
  let c := with_pending (insert p (MkPending (routeClientId x) cid (ctx_hostId x) type 1 timeoutMs payload)) c in
  let c := with_inFlight (insert p (MkInFlight cid type 1 timeoutMs payload)) c in
  let '(c, ok) := send (routeClientId x) (Ask payload p 1) c in
  if ok then c else c |> _clearPrompt p |> resolve p None.

(** The new state, and the prompt's id unless the promise is null. *)
Definition prompt (cid : string) (type : prompt_type) (payload : string) (timeoutMs : option (option Z))
  (p : string) (c : Ctx) : Ctx * option string :=
  match promptContexts c !! cid with
  | None => (c, None)
  | Some x =>
      if decide (ctx_state x = CLOSED) then (c, None)
      else if decide (routeClientId x ∈ clients c) then (ask cid x type payload (timer_of timeoutMs) p c, Some p)
      else
        match truthy_id (pickRouteCandidate c cid (routeClientId x)) with
        | None => (clearContext true cid c, None)
        | Some candidate =>
            let c := with_contexts (js_alter (set_route candidate) cid) c in
            (ask cid (set_route candidate x) type payload (timer_of timeoutMs) p c, Some p)
        end
  end.

Definition respond (p client : string) (epoch : option nat) (value : option string) (c : Ctx)
  : Ctx * bool :=
  match promptIndex c !! p with
  | None => (c, false)
  | Some cid =>
      match promptContexts c !! cid with
      | None => (c, false)
      | Some x =>
          if decide (ctx_state x = CLOSED) then (c, false)
          else
            match inFlight c !! p with
            | None => (c, false)
            | Some f =>
                if decide (client ≠ routeClientId x) then (c, false)
                else if negb (epoch_matches epoch f) then (c, false)
                else (c |> _clearPrompt p |> resolve p value, true)
            end
      end
  end.

(** One prompt re-sent to the new route. *)
Definition retarget_one (oldRoute newRoute : string) (c : Ctx) (p : string) : Ctx :=
  match inFlight c !! p with
  | None => c
  | Some f =>
      let e := S (deliveryEpoch f) in
      let c := with_inFlight (insert p (bump f)) c in
      let c := with_pending (js_alter (repoint newRoute e) p) c in
      let c := if decide (oldRoute ≠ newRoute) then try_send oldRoute (PROMPT_CANCEL p) c else c in
      try_send newRoute (Ask (resendPayload f) p e) c
  end.

Definition retarget (cid newRoute : string) (c : Ctx) : Ctx :=
  match promptContexts c !! cid with
  | None => c
  | Some x =>
      if decide (ctx_state x = CLOSED ∨ ctx_kind x ≠ session) then c
      else
        let c := with_contexts (js_alter (set_route newRoute) cid) c in
        fold_left (retarget_one (routeClientId x) newRoute) (prompts x) c
  end.

(** The body of [clientDisconnect]'s loop. *)
Definition disconnect_one (client : string) (c : Ctx) (cid : string) : Ctx :=
  match promptContexts c !! cid with
  | None => c
  | Some x =>
      if decide (ctx_state x = CLOSED) then c
      else if decide (routeClientId x ≠ client) then c
      else if decide (ctx_kind x ≠ session) then clearContext true cid c
      else
        match truthy_id (pickRouteCandidate c cid client) with
        | Some candidate => retarget cid candidate c
        | None => clearContext true cid c
        end
  end.

Definition clientDisconnect (client : string) (c : Ctx) : Ctx :=
  fold_left (disconnect_one client) (js_keys (promptContexts c)) c.

(** [SessionManager.removeClient]: the client leaves the map last. *)
Definition removeClient (client : string) (c : Ctx) : Ctx :=
  c |> clientDisconnect client |> with_clients (set_delete client).

Definition trackElevationContext (cid : string) (o : ElevationPromptOwner) (c : Ctx) : Ctx :=
  with_owners (insert cid o) c.

Definition clear_owned (matches : ElevationPromptOwner → bool) (c : Ctx)
  (co : string * ElevationPromptOwner) : Ctx :=
  if matches co.2 then c |> clearContext true co.1 |> with_owners (delete co.1) else c.

Definition clearElevationContextsWhere (matches : ElevationPromptOwner → bool) (c : Ctx) : Ctx :=
  fold_left (clear_owned matches) (entries (elevationPromptOwners c)) c.

Definition clearElevationContextsForSession (sid : string) : Ctx → Ctx :=
  clearElevationContextsWhere (λ o, bool_decide (owner_sessionId o = sid)).
Definition clearElevationContextsForChannel (ch : string) : Ctx → Ctx :=
  clearElevationContextsWhere (λ o, bool_decide (owner_channelId o = Some ch)).

(** The timer of a prompt going off. *)
Definition timeout (p : string) (c : Ctx) : Ctx :=
  match inFlight c !! p with
  | Some f => if timer f then c |> _clearPrompt p |> resolve p None else c
  | None => c
  end.

(** [_getOrOpenSessionPromptContext]: the new state and the context's id. *)
Definition getOrOpen (given : option string) (freshId hostId client : string) (c : Ctx)
  : Ctx * option string :=
  let open_for_client acqId :=
    let cid := context_id session acqId freshId in
    if decide (client ∈ clients c) then (openContext session hostId client cid c, Some cid)
    else (c, None) in
  let reopen cid :=
    if isReconnectContextId cid then
      match truthy_id (reconnectSessionId cid) with
      | None => (c, None)
      | Some sid =>
          match truthy_id (pickReconnectRouteCandidate c hostId sid None) with
          | Some candidate =>
              let cid := context_id session (Some cid) freshId in
              (openContext session hostId candidate cid c, Some cid)
          | None => (c, None)
          end
      end
    else open_for_client (Some cid) in
  match given with
  | None => open_for_client None
  | Some cid =>
      match promptContexts c !! cid with
      | Some x =>
          if decide (ctx_state x = OPEN) then
            if decide (routeClientId x ∈ clients c) then (c, Some cid)
            else
              match truthy_id (pickRouteCandidate c cid (routeClientId x)) with
              | None => (clearContext false cid c, None)
              | Some candidate => (with_contexts (js_alter (set_route candidate) cid) c, Some cid)
              end
          else reopen cid
      | None => reopen cid
      end
  end.
End operations.

(** ** The machine *)

Inductive event :=
| EvOpenSession (given : option string) (freshId hostId client : string)
| EvOpenOwned (kind : context_kind) (cid hostId client : string) (owner : option ElevationPromptOwner)
| EvPrompt (cid : string) (type : prompt_type) (payload : string) (timeoutMs : option (option Z))
    (p : string)
| EvRespond (p client : string) (epoch : option nat) (value : option string)
| EvTimeout (p : string)
| EvClear (sends : bool) (cid : string)
| EvClearSession (sid : string)
| EvClearChannel (ch : string)
| EvConnect (client : string)
| EvRemove (client : string)
| EvWorld (chs : jsmap string ChannelState) (a : Acquisition.Ctx).

Lemma first_sorted_Some l x : first_sorted l = Some x → x ∈ l ∧ ∀ y, y ∈ l → String.le x y.
Proof.
  unfold first_sorted. pose proof (merge_sort_Permutation String.le l) as Hp.
  pose proof (StronglySorted_merge_sort String.le l) as Hs.
  destruct (merge_sort String.le l) as [|z zs]; intros [= ->].
  setoid_rewrite <- Hp. split; [by left|]. intros y [->|Hy]%elem_of_cons; [done|].
  inversion Hs as [|? ? _ Hall]; subst. rewrite Forall_forall in Hall. by apply Hall.
Qed.

Lemma first_sorted_None l : first_sorted l = None ↔ l = [].
Proof.
  unfold first_sorted. pose proof (merge_sort_Permutation String.le l) as Hp. split.
  - destruct (merge_sort String.le l); [|done]. intros _. by apply Permutation_nil_l in Hp.
  - by intros ->.
Qed.

Lemma truthy_id_spec s : truthy_id (Some s) = if decide (s = EmptyString) then None else Some s.
Proof. by destruct s. Qed.

Lemma truthy_id_Some o s : truthy_id o = Some s → o = Some s.
Proof. unfold truthy_id. destruct o as [t|]; simpl; [|done]. by case_match. Qed.

Lemma elem_of_lease_clients a h ex conn d :
  d ∈ lease_clients a h ex conn ↔
  ∃ q acq l o, q ∈ js_values (Acquisition.acquisitions a) ∧ Acquisition.acqs a !! q = Some acq ∧
    Acquisition.acq_hostId acq = h ∧ l ∈ Acquisition.leases acq ∧
    Acquisition.leaseObjs a !! l = Some o ∧ Acquisition.released o = false ∧
    Acquisition.clientId o = d ∧ d ≠ ex ∧ d ∈ conn.
Proof.
  unfold lease_clients. rewrite list_elem_of_bind. split.
  - intros (q & Hd & Hq). destruct (Acquisition.acqs a !! q) as [acq|] eqn:Ha; [|by inversion Hd].
    case_decide; [|by inversion Hd]. apply list_elem_of_bind in Hd as (l & Hd & Hl).
    destruct (Acquisition.leaseObjs a !! l) as [o|] eqn:Ho; [|by inversion Hd].
    case_decide as Hc; [|by inversion Hd]. apply list_elem_of_singleton in Hd as ->.
    exists q, acq, l, o. tauto.
  - intros (q & acq & l & o & Hq & Ha & Hh & Hl & Ho & Hr & <- & Hx & Hc). exists q. split; [|done].
    rewrite Ha, decide_True by done. apply list_elem_of_bind. exists l. split; [|done].
    rewrite Ho, decide_True by done. by left.
Qed.

Lemma elem_of_reconnect_clients c h sid ex d :
  d ∈ (js_values (channels c) ≫= λ ch,
       if decide (ch_hostId ch = h ∧ ch_sessionId ch = sid ∧ ch_dead ch = false)
       then filter (λ x, ex ≠ Some x ∧ x ∈ clients c) (ch_clients ch) else []) ↔
  ∃ ch, ch ∈ js_values (channels c) ∧ ch_hostId ch = h ∧ ch_sessionId ch = sid ∧ ch_dead ch = false ∧
    d ∈ ch_clients ch ∧ ex ≠ Some d ∧ d ∈ clients c.
Proof.
  rewrite list_elem_of_bind. split.
  - intros (ch & Hd & Hc). case_decide; [|by inversion Hd]. apply list_elem_of_filter in Hd.
    exists ch. tauto.
  - intros (ch & Hc & ? & ? & ? & ? & ? & ?). exists ch. rewrite decide_True by done.
    rewrite list_elem_of_filter. tauto.
Qed.

Lemma pickReconnect_sound c h sid ex d :
  truthy_id (pickReconnectRouteCandidate c h sid ex) = Some d → ex ≠ Some d ∧ d ∈ clients c.
Proof.
  intros [Hd _]%truthy_id_Some%first_sorted_Some. apply elem_of_reconnect_clients in Hd as (_ & _ & _ & _ & _ & _ &
    Hd). exact Hd.
Qed.

Lemma pickRoute_sound c cid ex d :
  truthy_id (pickRouteCandidate c cid ex) = Some d →
  d ≠ ex ∧ d ∈ clients c ∧ ∃ x, promptContexts c !! cid = Some x ∧ ctx_kind x = session.
Proof.
  unfold pickRouteCandidate. destruct (promptContexts c !! cid) as [x|]; [|done].
  case_decide; [|done]. intros Hd. cut (d ≠ ex ∧ d ∈ clients c).
  { intros [? ?]. split_and!; [done|done|]. by exists x. }
  destruct (isReconnectContextId cid).
  - destruct (truthy_id (reconnectSessionId cid)); [|done].
    apply pickReconnect_sound in Hd as [Hne Hc]. split; [congruence|done].
  - apply truthy_id_Some, first_sorted_Some in Hd as [Hd _]. apply elem_of_lease_clients in Hd as (_ & _ & _ & _ & _ &
    _ & _ & _ & _ & _ & _ & Hd).
    exact Hd.
Qed.

Lemma set_delete_add (p : string) (l : list string) : p ∉ l → set_delete p (set_add p l) = l.
Proof.
  intros Hp. unfold set_add. rewrite decide_False by done. unfold set_delete. rewrite filter_app.
  rewrite (filter_none _ [p]) by (constructor; [by intros H|constructor]). rewrite app_nil_r.
  apply filter_all, Forall_forall. by intros q Hq ->.
Qed.

Section machine.
Context (delivers : string → bool).

Definition step (c : Ctx) (e : event) : Ctx :=
  match e with
  | EvOpenSession given freshId hostId client => (getOrOpen delivers given freshId hostId client c).1
  | EvOpenOwned kind cid hostId client owner =>
      let c := openContext kind hostId client cid c in
      match owner with Some o => trackElevationContext cid o c | None => c end
  | EvPrompt cid type payload ms p => (prompt delivers cid type payload ms p c).1
  | EvRespond p client epoch value => (respond p client epoch value c).1
  | EvTimeout p => timeout p c
  | EvClear sends cid => clearContext delivers sends cid c
  | EvClearSession sid => clearElevationContextsForSession delivers sid c
  | EvClearChannel ch => clearElevationContextsForChannel delivers ch c
  | EvConnect client => with_clients (set_add client) c
  | EvRemove client => removeClient delivers client c
  | EvWorld chs a =>
      MkCtx (promptContexts c) (elevationPromptOwners c) (promptIndex c) (pendingPrompts c)
        (inFlight c) (clients c) chs a (sent c) (answers c)
  end.

(** What [generateId] gives is new, and the contexts opened outside [getOrOpen] are a test's or an
    elevation's. *)
Definition allowed (ids : list string) (c : Ctx) (e : event) : Prop :=
  match e with
  | EvOpenSession _ freshId _ _ => promptContexts c !! freshId = None
  | EvOpenOwned kind cid _ _ _ => kind ≠ session ∧ promptContexts c !! cid = None
  | EvPrompt _ _ _ _ p => p ∉ ids
  | _ => True
  end.

(** The prompts asked so far. A prompt whose promise was null was never asked. *)
Definition asked (c : Ctx) (e : event) : list string :=
  match e with
  | EvPrompt cid type payload ms p => option_list (prompt delivers cid type payload ms p c).2
  | _ => []
  end.

Inductive reach : list string → Ctx → Prop :=
| reach_start : reach [] (MkCtx ∅ ∅ ∅ ∅ ∅ [] ∅ Acquisition.new [] [])
| reach_next ids c e : reach ids c → allowed ids c e → reach (ids ++ asked c e) (step c e).

(** ** What holds between the maps *)

Definition is_cancel (m : string * message) : Prop :=
  match m.2 with PROMPT_CANCEL _ => True | Ask _ _ _ => False end.

(** [closing] is the context a [clearContext] under way has marked CLOSED and not yet deleted. *)
Record inv (closing : option string) (ids : list string) (c : Ctx) : Prop := {
  i_open cid x : promptContexts c !! cid = Some x →
    (closing ≠ Some cid → ctx_state x = OPEN) ∧ NoDup (prompts x) ∧ (ctx_kind x = session →
      routeClientId x ∈ clients c);
  i_member cid x p : promptContexts c !! cid = Some x → p ∈ prompts x →
    ∃ f, inFlight c !! p = Some f ∧ contextId f = cid;
  i_flight p f : inFlight c !! p = Some f →
    promptIndex c !! p = Some (contextId f) ∧
    ∃ x pp, promptContexts c !! contextId f = Some x ∧ p ∈ prompts x ∧
      pendingPrompts c !! p = Some pp ∧ pp_clientId pp = routeClientId x ∧
      pp_epoch pp = deliveryEpoch f ∧ pp_contextId pp = contextId f ∧
      ((routeClientId x, Ask (resendPayload f) p (deliveryEpoch f)) ∈ sent c ∨
       delivers (routeClientId x) = false) ∧
      ∀ d pl e, (d, Ask pl p e) ∈ sent c →
        e <= deliveryEpoch f ∧ (e = deliveryEpoch f → d = routeClientId x);
  i_index p : is_Some (promptIndex c !! p) → is_Some (inFlight c !! p);
  i_pending p : is_Some (pendingPrompts c !! p) → is_Some (inFlight c !! p);
  i_known d pl p e : (d, Ask pl p e) ∈ sent c → p ∈ ids;
  i_once : NoDup (answers c).*1;
  i_ids p : p ∈ ids ↔ is_Some (inFlight c !! p) ∨ p ∈ (answers c).*1;
  i_disjoint p : is_Some (inFlight c !! p) → p ∉ (answers c).*1;
}.

(** ** Removing one prompt *)

Lemma clearPrompt_spec p cid c :
  promptIndex c !! p = Some cid →
  let c' := _clearPrompt p c in
  (∀ q, inFlight c' !! q = if decide (p = q) then None else inFlight c !! q) ∧
  (∀ q, promptIndex c' !! q = if decide (p = q) then None else promptIndex c !! q) ∧
  (∀ q, pendingPrompts c' !! q = if decide (p = q) then None else pendingPrompts c !! q) ∧
  (∀ d, promptContexts c' !! d =
     if decide (cid = d) then set_prompts (set_delete p) <$> promptContexts c !! cid
     else promptContexts c !! d) ∧
  clients c' = clients c ∧ sent c' = sent c ∧ answers c' = answers c.
Proof.
  intros Hp. unfold _clearPrompt. rewrite Hp. simpl.
  split_and!; try done; intros; js_simpl; done.
Qed.

(** A prompt is over: out of every map, and answered. *)
Lemma inv_settle cl ids p f v c :
  inv cl ids c → inFlight c !! p = Some f → inv cl ids (c |> _clearPrompt p |> resolve p v).
Proof.
  intros Hi Hf. destruct (i_flight _ _ _ Hi p f Hf) as [Hidx _].
  destruct (clearPrompt_spec p _ c Hidx) as (Hfl & Hix & Hpe & Hcx & Hcl & Hse & Han).
  destruct Hi as [Hopen Hmem Hflight Hindex Hpending Hknown Honce Hids Hdisj].
  assert (∀ cid x, promptContexts (_clearPrompt p c) !! cid = Some x →
    ∃ x0, promptContexts c !! cid = Some x0 ∧
      x = if decide (contextId f = cid) then set_prompts (set_delete p) x0 else x0) as Hcx'.
  { intros cid x. rewrite Hcx. case_decide; [subst|by eauto].
    intros (x0 & ? & ->)%fmap_Some. eauto. }
  split; simpl; rewrite ?Hcl, ?Hse, ?Han.
  - intros cid x (x0 & Hx0 & ->)%Hcx'. destruct (Hopen cid x0 Hx0) as (? & ? & ?).
    case_decide; simpl; split_and!; auto with jsmap.
  - intros cid x q (x0 & Hx0 & ->)%Hcx' Hq. rewrite Hfl.
    assert (q ∈ prompts x0 ∧ q ≠ p) as [Hq0 Hqp].
    { destruct (decide (contextId f = cid)) as [Hcid|Hcid]; simpl in Hq.
      - apply elem_of_set_delete in Hq. tauto.
      - split; [done|]. intros ->. destruct (Hmem cid x0 p Hx0 Hq) as (f' & ? & ?). congruence. }
    rewrite decide_False by done. eauto.
  - intros q g. rewrite Hfl. case_decide as Hpq; [done|]. intros Hg.
    destruct (Hflight q g Hg) as (Hgi & x & pp & Hx & Hin & Hpp & Hrest).
    rewrite Hix, Hpe, !decide_False by done. split; [done|].
    exists (if decide (contextId f = contextId g) then set_prompts (set_delete p) x else x), pp.
    rewrite Hcx. split_and!.
    + case_decide as Hc; [|done]. rewrite Hc, Hx. done.
    + case_decide; simpl; [apply elem_of_set_delete; by split|done].
    + done.
    + by case_decide; apply Hrest.
    + apply Hrest.
    + apply Hrest.
    + by case_decide; apply Hrest.
    + by case_decide; apply Hrest.
  - intros q. rewrite Hix, Hfl. case_decide; [done|apply Hindex].
  - intros q. rewrite Hpe, Hfl. case_decide; [done|apply Hpending].
  - done.
  - rewrite fmap_app. apply NoDup_app. split_and!; [done| |apply NoDup_singleton].
    intros q Hq ->%list_elem_of_singleton. apply (Hdisj p); eauto.
  - intros q. rewrite Hids, Hfl, fmap_app, elem_of_app. csimpl. rewrite list_elem_of_singleton.
    case_decide as Hpq.
    + subst. split; [by auto|]. intros _. left. eauto.
    + split; [intros [?|?]|intros [?|[?|?]]]; auto. by subst.
  - intros q. rewrite Hfl. case_decide as Hpq; [by intros [? ?]|]. intros Hq.
    rewrite fmap_app, elem_of_app. csimpl. rewrite list_elem_of_singleton.
    intros [?|?]; [by apply (Hdisj q)|by subst].
Qed.

(** ** Sends *)

Lemma try_send_fields d m c :
  let c' := try_send delivers d m c in
  promptContexts c' = promptContexts c ∧ elevationPromptOwners c' = elevationPromptOwners c ∧
  promptIndex c' = promptIndex c ∧ pendingPrompts c' = pendingPrompts c ∧ inFlight c' = inFlight c ∧
  clients c' = clients c ∧ channels c' = channels c ∧ leasing c' = leasing c ∧ answers c' = answers c ∧
  (sent c' = sent c ++ [(d, m)] ∧ d ∈ clients c ∨
   sent c' = sent c ∧ (d ∉ clients c ∨ delivers d = false)).
Proof.
  unfold try_send, send. case_bool_decide as Hd; simpl; [|by split_and!; auto].
  destruct (delivers d) eqn:?; simpl; split_and!; auto.
Qed.

(** Telling a client that a prompt is off leaves everything as it is. *)
Lemma inv_cancel cl ids d p c : inv cl ids c → inv cl ids (try_send delivers d (PROMPT_CANCEL p) c).
Proof.
  intros Hi. destruct (try_send_fields d (PROMPT_CANCEL p) c)
    as (Hcx & _ & Hix & Hpe & Hfl & Hcl & _ & _ & Han & Hs).
  set (c' := try_send delivers d (PROMPT_CANCEL p) c) in *.
  assert (∀ d' pl q e, (d', Ask pl q e) ∈ sent c' ↔ (d', Ask pl q e) ∈ sent c) as Hsent.
  { intros. destruct Hs as [[-> _]|[-> _]]; [|done].
    rewrite elem_of_app, list_elem_of_singleton. split; [by intros [?|?]|by left]. }
  destruct Hi as [? ? Hflight ? ? ? ? ? ?].
  split; rewrite ?Hcx, ?Hix, ?Hpe, ?Hfl, ?Hcl, ?Han; try done.
  - intros q f Hf. destruct (Hflight q f Hf) as (? & x & pp & ? & ? & ? & ? & ? & ? & Hlast & Hall).
    split; [done|]. exists x, pp. split_and!; try done.
    + by rewrite Hsent.
    + intros d' pl e. rewrite Hsent. apply Hall.
  - intros d' pl q e. rewrite Hsent. eauto.
Qed.

(** ** Closing a context *)

Definition same_world (c c' : Ctx) : Prop :=
  clients c' = clients c ∧ channels c' = channels c ∧ leasing c' = leasing c.

(** What is left of the maps once the prompts [ps] of the context [cid] are gone. *)
Definition without (cid : string) (ps : list string) (c c' : Ctx) : Prop :=
  same_world c c' ∧ elevationPromptOwners c' = elevationPromptOwners c ∧
  (∀ d, d ≠ cid → promptContexts c' !! d = promptContexts c !! d) ∧
  (∀ q, inFlight c' !! q = if decide (q ∈ ps) then None else inFlight c !! q) ∧
  answers c' = answers c ++ ((λ p, (p, None)) <$> ps).

Lemma without_trans cid p ps c c1 c2 :
  without cid [p] c c1 → without cid ps c1 c2 → without cid (p :: ps) c c2.
Proof.
  intros ((? & ? & ?) & Ho1 & Hd1 & Hf1 & Ha1) ((? & ? & ?) & Ho2 & Hd2 & Hf2 & Ha2).
  split_and!; [split_and!; congruence|congruence| | |].
  - intros d Hd. by rewrite Hd2, Hd1.
  - intros q. rewrite Hf2, Hf1. pose proof (elem_of_cons ps q p). pose proof (list_elem_of_singleton q p).
    repeat case_decide; tauto.
  - rewrite Ha2, Ha1. simpl. by rewrite <- app_assoc.
Qed.

Lemma clear_one_spec sends route cl ids p f c :
  inv cl ids c → inFlight c !! p = Some f →
  let c' := clear_one delivers sends route c p in
  inv cl ids c' ∧ without (contextId f) [p] c c' ∧
  promptContexts c' !! contextId f = set_prompts (set_delete p) <$> promptContexts c !! contextId f.
Proof.
  intros Hi Hf. unfold clear_one. rewrite (proj2 (js_has_true p (inFlight c))) by eauto.
  set (c1 := if sends then _ else c).
  assert (inv cl ids c1 ∧ inFlight c1 = inFlight c ∧ promptContexts c1 = promptContexts c ∧
    same_world c c1 ∧ elevationPromptOwners c1 = elevationPromptOwners c ∧ answers c1 = answers c)
    as (Hi1 & Hfl1 & Hcx1 & Hw1 & Ho1 & Ha1).
  { unfold c1. destruct sends; [|done]. split; [by apply inv_cancel|].
    by destruct (try_send_fields route (PROMPT_CANCEL p) c) as (? & ? & ? & ? & ? & ? & ? & ? & ? & _). }
  rewrite <- Hfl1 in Hf. split; [by eapply inv_settle|].
  destruct (i_flight _ _ _ Hi1 p f Hf) as [Hidx _].
  assert (same_world c1 (_clearPrompt p c1) ∧
    elevationPromptOwners (_clearPrompt p c1) = elevationPromptOwners c1) as [Hw2 Ho2].
  { unfold _clearPrompt. by rewrite Hidx. }
  destruct (clearPrompt_spec p _ c1 Hidx) as (Hfl & _ & _ & Hcx & _ & _ & Han).
  destruct Hw1 as (? & ? & ?), Hw2 as (? & ? & ?).
  split; [split_and!; [split_and!; simpl; congruence|simpl; congruence| | |]|]; simpl.
  - intros d Hd. rewrite Hcx, decide_False by done. by rewrite Hcx1.
  - intros q. rewrite Hfl, Hfl1. destruct (decide (p = q)) as [->|Hpq].
    + by rewrite decide_True by left.
    + rewrite decide_False; [done|]. rewrite list_elem_of_singleton. congruence.
  - by rewrite Han, Ha1.
  - by rewrite Hcx, decide_True, Hcx1.
Qed.

Lemma clear_loop_spec sends route cid ids ps x c :
  inv (Some cid) ids c → promptContexts c !! cid = Some x → prompts x = ps →
  let c' := fold_left (clear_one delivers sends route) ps c in
  inv (Some cid) ids c' ∧ without cid ps c c' ∧
  ∃ x', promptContexts c' !! cid = Some x' ∧ prompts x' = [].
Proof.
  revert x c. induction ps as [|p ps IH]; intros x c Hi Hx Hps; simpl.
  { split; [done|]. split; [|eauto]. unfold without. split_and!; [done|done|done| |by rewrite app_nil_r].
    intros q. rewrite decide_False; [done|]. by inversion 1. }
  destruct (i_member _ _ _ Hi cid x p Hx) as (f & Hf & Hcid); [rewrite Hps; by left|].
  destruct (i_open _ _ _ Hi cid x Hx) as (_ & Hnd & _). rewrite Hps in Hnd.
  apply NoDup_cons in Hnd as [Hp Hnd].
  destruct (clear_one_spec sends route _ ids p f c Hi Hf) as (Hi1 & Hw1 & Hx1).
  rewrite Hcid in Hw1, Hx1. rewrite Hx in Hx1.
  destruct (IH _ _ Hi1 Hx1) as (Hi2 & Hw2 & Hx2).
  { simpl. rewrite Hps. unfold set_delete. rewrite filter_cons_False by (intros Hn; by apply Hn).
    apply filter_all, Forall_forall. by intros q Hq ->. }
  split; [done|]. split; [|done]. by eapply without_trans.
Qed.

(** Closing a context: its prompts answered with null, and no other prompt touched. *)
Lemma clear_spec sends ids cid x c :
  inv None ids c → promptContexts c !! cid = Some x →
  let c' := clearContext delivers sends cid c in
  inv None ids c' ∧ same_world c c' ∧ promptContexts c' !! cid = None ∧
  (∀ d, d ≠ cid → promptContexts c' !! d = promptContexts c !! d) ∧
  (∀ q, inFlight c' !! q = if decide (q ∈ prompts x) then None else inFlight c !! q) ∧
  answers c' = answers c ++ ((λ p, (p, None)) <$> prompts x).
Proof.
  intros Hi Hx. unfold clearContext. rewrite Hx.
  destruct (i_open _ _ _ Hi cid x Hx) as (Hst & _ & _). rewrite decide_False by (rewrite Hst; done).
  set (c1 := with_contexts _ c).
  assert (∀ d, promptContexts c1 !! d = if decide (cid = d) then Some (set_ctx_state CLOSED x)
    else promptContexts c !! d) as Hc1.
  { intros d. simpl. js_simpl. rewrite Hx. done. }
  assert (inv (Some cid) ids c1) as Hi1.
  { destruct Hi as [Hopen Hmem Hflight ? ? ? ? ? ?].
    assert (∀ d y, promptContexts c1 !! d = Some y → ∃ y0, promptContexts c !! d = Some y0 ∧
      prompts y = prompts y0 ∧ routeClientId y = routeClientId y0 ∧ ctx_kind y = ctx_kind y0 ∧
      (Some cid ≠ Some d → y = y0)) as Hy.
    { intros d y. rewrite Hc1. case_decide; [subst; intros [= <-]; exists x; by split_and!|].
      intros. exists y. done. }
    split; try done.
    - intros d y (y0 & Hy0 & -> & -> & -> & Heq)%Hy. destruct (Hopen d y0 Hy0) as (? & ? & ?).
      split_and!; [|done|done]. intros Hd. rewrite Heq by done. auto.
    - intros d y q (y0 & Hy0 & -> & _)%Hy. by apply Hmem.
    - intros q f Hf. destruct (Hflight q f Hf) as (? & y & pp & Hyx & Hrest). split; [done|].
      exists (if decide (cid = contextId f) then set_ctx_state CLOSED x else y), pp.
      rewrite Hc1. case_decide as Hd; [|done]. subst. rewrite Hx in Hyx. by simplify_eq. }
  destruct (clear_loop_spec sends (routeClientId x) cid ids (prompts x) (set_ctx_state CLOSED x) c1 Hi1)
    as (Hi2 & (Hw & _ & Hd & Hf & Ha) & x2 & Hx2 & Hempty); [by rewrite Hc1, decide_True|done|].
  set (c2 := fold_left _ (prompts x) c1) in *. simpl. split_and!.
  - destruct Hi2 as [Hopen Hmem Hflight ? ? ? ? ? ?]. split; try done; simpl.
    + intros d y. js_simpl. case_decide as Hcd; [done|]. intros Hy.
      destruct (Hopen d y Hy) as (Ho & ? & ?). split_and!; try done. intros _. apply Ho. congruence.
    + intros d y q. js_simpl. case_decide; [done|]. apply Hmem.
    + intros q f Hq. destruct (Hflight q f Hq) as (? & y & pp & Hy & Hin & Hrest). split; [done|].
      exists y, pp. js_simpl. rewrite decide_False; [done|]. intros Heq. rewrite <- Heq, Hx2 in Hy.
      simplify_eq. rewrite Hempty in Hin. by inversion Hin.
  - done.
  - js_simpl. by rewrite decide_True.
  - intros d Hdc. js_simpl. rewrite decide_False by done. rewrite Hd, Hc1, decide_False; done.
  - exact Hf.
  - exact Ha.
Qed.

(** ** Asking *)

Lemma inv_fresh ids p c :
  inv None ids c → p ∉ ids →
  inFlight c !! p = None ∧ promptIndex c !! p = None ∧ pendingPrompts c !! p = None ∧
  p ∉ (answers c).*1 ∧ (∀ d pl e, (d, Ask pl p e) ∉ sent c) ∧
  ∀ cid x, promptContexts c !! cid = Some x → p ∉ prompts x.
Proof.
  intros Hi Hp. assert (inFlight c !! p = None) as Hf.
  { destruct (inFlight c !! p) eqn:Hf; [|done]. destruct Hp. apply (i_ids _ _ _ Hi). left. eauto. }
  split_and!; [done| | | | |].
  - destruct (promptIndex c !! p) eqn:H; [|done].
    destruct (i_index _ _ _ Hi p) as [? ?]; [eauto|congruence].
  - destruct (pendingPrompts c !! p) eqn:H; [|done].
    destruct (i_pending _ _ _ Hi p) as [? ?]; [eauto|congruence].
  - intros H. apply Hp, (i_ids _ _ _ Hi). by right.
  - intros d pl e H. by apply Hp, (i_known _ _ _ Hi) with d pl e.
  - intros cid x Hx H. destruct (i_member _ _ _ Hi cid x p Hx H) as (f & ? & _). congruence.
Qed.

(** A prompt that could not be sent leaves nothing but its answer. *)
Lemma inv_unsent ids p v c c' :
  inv None ids c → p ∉ ids → promptContexts c' ≡ₘ promptContexts c →
  promptIndex c' ≡ₘ promptIndex c → pendingPrompts c' ≡ₘ pendingPrompts c →
  inFlight c' ≡ₘ inFlight c → clients c' = clients c → sent c' = sent c →
  answers c' = answers c ++ [(p, v)] → inv None (ids ++ [p]) c'.
Proof.
  intros Hi Hp Hcx Hix Hpe Hfl Hcl Hse Han.
  destruct (inv_fresh ids p c Hi Hp) as (Hf & _ & _ & Ha & _ & _).
  destruct Hi as [Hopen Hmem Hflight Hindex Hpending Hknown Honce Hids Hdisj].
  split; rewrite ?Hcl, ?Hse, ?Han.
  - intros cid x. rewrite Hcx. apply Hopen.
  - intros cid x q. rewrite Hcx, Hfl. apply Hmem.
  - intros q f. rewrite Hfl. intros Hq. destruct (Hflight _ _ Hq) as (Hqi & x & pp & Hx & Hrest).
    split; [by rewrite Hix|]. exists x, pp. by rewrite Hcx, Hpe.
  - intros q. rewrite Hix, Hfl. apply Hindex.
  - intros q. rewrite Hpe, Hfl. apply Hpending.
  - intros d pl q e H. apply elem_of_app. left. by eapply Hknown.
  - rewrite fmap_app. apply NoDup_app. split_and!; [done| |apply NoDup_singleton].
    intros q Hq ->%list_elem_of_singleton. done.
  - intros q. rewrite fmap_app, !elem_of_app, Hids, Hfl. csimpl. rewrite list_elem_of_singleton. tauto.
  - intros q. rewrite Hfl. intros Hq. rewrite fmap_app, elem_of_app. csimpl.
    rewrite list_elem_of_singleton. intros [?|?]; [by eapply Hdisj|]. subst. rewrite Hf in Hq.
    by destruct Hq.
Qed.

Lemma send_cases d m c :
  (d ∈ clients c ∧ delivers d = true ∧ send delivers d m c = (with_sent (λ l, l ++ [(d, m)]) c, true)) ∨
  ((d ∉ clients c ∨ delivers d = false) ∧ send delivers d m c = (c, false)).
Proof.
  unfold send. case_bool_decide; simpl; [|by right; auto].
  destruct (delivers d) eqn:?; [by left|right; auto].
Qed.

Lemma inv_ask ids cid x type payload ms p c :
  inv None ids c → promptContexts c !! cid = Some x → p ∉ ids →
  inv None (ids ++ [p]) (ask delivers cid x type payload ms p c).
Proof.
  intros Hi Hx Hp. destruct (inv_fresh ids p c Hi Hp) as (Hf & Hix & Hpe & Ha & Hse & Hcx).
  unfold ask.
  match goal with |- context [send _ _ _ ?c4] => set (c1 := c4) end.
  assert (∀ d, promptContexts c1 !! d =
    if decide (cid = d) then Some (set_prompts (set_add p) x) else promptContexts c !! d) as Hcx1.
  { intros d. simpl. js_simpl. by rewrite Hx. }
  destruct (send_cases (routeClientId x) (Ask payload p 1) c1) as [(Hcl & Hdel & ->)|[_ ->]].
  - destruct Hi as [Hopen Hmem Hflight Hindex Hpending Hknown Honce Hids Hdisj].
    assert (∀ d y, promptContexts c1 !! d = Some y → ∃ y0, promptContexts c !! d = Some y0 ∧
      routeClientId y = routeClientId y0 ∧ ctx_kind y = ctx_kind y0 ∧ ctx_state y = ctx_state y0 ∧
      (∀ q, q ∈ prompts y ↔ q ∈ prompts y0 ∨ q = p ∧ d = cid) ∧ (NoDup (prompts y0) → NoDup (prompts y)))
      as Hy.
    { intros d y. rewrite Hcx1. case_decide as Hd; [subst d; intros [= <-]; exists x|].
      - split_and!; [done..| |apply NoDup_set_add]. intros q. simpl. rewrite elem_of_set_add. tauto.
      - intros Hy. exists y. split_and!; try done. intros q. split; [by left|].
        intros [?|[_ ?]]; [done|congruence]. }
    split; simpl.
    + intros d y (y0 & Hy0 & -> & -> & -> & _ & Hnd)%Hy. destruct (Hopen d y0 Hy0) as (? & ? & ?).
      split_and!; auto.
    + intros d y q (y0 & Hy0 & _ & _ & _ & Hin & _)%Hy Hq. js_simpl.
      apply Hin in Hq as [Hq|[-> ->]]; [|rewrite decide_True by done; eauto].
      rewrite decide_False; [by eapply Hmem|]. intros <-. by eapply Hcx.
    + intros q g. js_simpl. case_decide as Hpq.
      * subst q. intros [= <-]. simpl. split; [done|]. exists (set_prompts (set_add p) x).
        eexists. rewrite Hx. rewrite decide_True by done. split_and!; try done; simpl.
        -- apply elem_of_set_add. by left.
        -- left. apply elem_of_app. right. by left.
        -- intros d pl e [Hin|[= -> -> ->]%list_elem_of_singleton]%elem_of_app; [by destruct (Hse d pl e)|].
           done.
      * intros Hq. destruct (Hflight q g Hq) as (? & y & pp & Hyx & Hin & Hpp & ? & ? & ? & Hlast & Hall).
        split; [done|]. exists (if decide (cid = contextId g) then set_prompts (set_add p) x else y), pp.
        split_and!.
        -- case_decide as Hd; [|done]. by rewrite Hx.
        -- case_decide as Hd; [|done]. subst. rewrite Hx in Hyx. simplify_eq. simpl.
           apply elem_of_set_add. by right.
        -- done.
        -- case_decide as Hd; [|done]. subst. rewrite Hx in Hyx. by simplify_eq.
        -- done.
        -- done.
        -- assert (routeClientId (if decide (cid = contextId g) then set_prompts (set_add p) x else y)
             = routeClientId y) as ->.
           { case_decide as Hd; [|done]. subst. rewrite Hx in Hyx. by simplify_eq. }
           rewrite elem_of_app. tauto.
        -- assert (routeClientId (if decide (cid = contextId g) then set_prompts (set_add p) x else y)
             = routeClientId y) as ->.
           { case_decide as Hd; [|done]. subst. rewrite Hx in Hyx. by simplify_eq. }
           intros d pl e [Hs|[= -> -> -> ->]%list_elem_of_singleton]%elem_of_app; [by eapply Hall|done].
    + intros q. js_simpl. case_decide; [by eauto|apply Hindex].
    + intros q. js_simpl. case_decide; [by eauto|apply Hpending].
    + intros d pl q e [Hs|[= -> -> -> ->]%list_elem_of_singleton]%elem_of_app; apply elem_of_app;
        [left; eauto|right; by left].
    + done.
    + intros q. rewrite elem_of_app, list_elem_of_singleton, Hids. js_simpl. case_decide as Hpq.
      * subst. split; [by eauto|by auto].
      * split; [intros [?|?]; [done|congruence]|tauto].
    + intros q. js_simpl. case_decide; [by subst|apply Hdisj].
  - assert (promptIndex c1 !! p = Some cid) as Hc1 by (simpl; js_simpl; by rewrite decide_True).
    destruct (clearPrompt_spec p cid c1 Hc1) as (Efl & Eix & Epe & Ecx & Ecl & Ese & Ean).
    apply (inv_unsent ids p None c); simpl; try done.
    + intros d. rewrite Ecx, !Hcx1. destruct (decide (cid = d)) as [<-|Hd]; [|done].
      rewrite decide_True by done.
      rewrite Hx. simpl. f_equal. destruct x as [k h r st ps]. unfold set_prompts. simpl. f_equal.
      by apply set_delete_add, (Hcx _ _ Hx).
    + intros q. rewrite Eix. simpl. js_simpl. case_decide; congruence.
    + intros q. rewrite Epe. simpl. js_simpl. case_decide; congruence.
    + intros q. rewrite Efl. simpl. js_simpl. case_decide; congruence.
    + by rewrite Ean.
Qed.

(** ** Moving a context to another client *)

Definition same_tables (c c' : Ctx) : Prop :=
  promptIndex c' = promptIndex c ∧ clients c' = clients c ∧ channels c' = channels c ∧
  leasing c' = leasing c ∧ answers c' = answers c ∧
  elevationPromptOwners c' = elevationPromptOwners c.

(** What a retarget does to the prompts [ps]: each is in flight one epoch later, pending at the new
    route, and sent there if its socket takes it. *)
Definition moved (new : string) (ps : list string) (c c' : Ctx) : Prop :=
  same_tables c c' ∧
  (∀ q, inFlight c' !! q = if decide (q ∈ ps) then bump <$> inFlight c !! q else inFlight c !! q) ∧
  (∀ q, pendingPrompts c' !! q = if decide (q ∈ ps) then
     f ← inFlight c !! q; repoint new (S (deliveryEpoch f)) <$> pendingPrompts c !! q
   else pendingPrompts c !! q) ∧
  (∀ d pl q e, (d, Ask pl q e) ∈ sent c' ↔ (d, Ask pl q e) ∈ sent c ∨
     q ∈ ps ∧ d = new ∧ delivers new = true ∧
     ∃ f, inFlight c !! q = Some f ∧ pl = resendPayload f ∧ e = S (deliveryEpoch f)).

Lemma try_cancel_asks d p c d' pl q e :
  (d', Ask pl q e) ∈ sent (try_send delivers d (PROMPT_CANCEL p) c) ↔ (d', Ask pl q e) ∈ sent c.
Proof.
  unfold try_send. destruct (send_cases d (PROMPT_CANCEL p) c) as [(_ & _ & ->)|[_ ->]]; simpl; [|done].
  rewrite elem_of_app, list_elem_of_singleton. split; [by intros [?|?]|by left].
Qed.

Lemma retarget_one_spec old new p f c :
  new ∈ clients c → inFlight c !! p = Some f → is_Some (pendingPrompts c !! p) →
  let c' := retarget_one delivers old new c p in
  promptContexts c' = promptContexts c ∧ moved new [p] c c'.
Proof.
  intros Hnew Hf [pp Hpp]. unfold retarget_one. rewrite Hf.
  set (c1 := with_pending _ _). assert (same_tables c c1) as (? & Hcl1 & ? & ? & ? & ?) by by split_and!.
  set (c2 := if decide (old ≠ new) then _ else c1).
  assert (same_tables c1 c2 ∧ promptContexts c2 = promptContexts c1 ∧ inFlight c2 = inFlight c1 ∧
    pendingPrompts c2 = pendingPrompts c1 ∧
    ∀ d pl q e, (d, Ask pl q e) ∈ sent c2 ↔ (d, Ask pl q e) ∈ sent c1)
    as (Hw2 & Hcx2 & Hfl2 & Hpe2 & Hse2).
  { unfold c2. case_decide; [|by split_and!].
    destruct (try_send_fields old (PROMPT_CANCEL p) c1) as (? & ? & ? & ? & ? & ? & ? & ? & ? & _).
    split_and!; try done. intros. apply try_cancel_asks. }
  destruct (try_send_fields new (Ask (resendPayload f) p (S (deliveryEpoch f))) c2)
    as (Hcx & Ho & Hix & Hpe & Hfl & Hcl & Hch & Hle & Han & _).
  destruct Hw2 as (? & Hcl2 & ? & ? & ? & ?). split; [by rewrite Hcx, Hcx2|].
  split; [by split_and!; congruence|]. split_and!.
  - intros q. rewrite Hfl, Hfl2. simpl. js_simpl. rewrite (decide_ext (q ∈ [p]) (p = q))
      by (rewrite list_elem_of_singleton; done). case_decide; [|done]. subst. by rewrite Hf.
  - intros q. rewrite Hpe, Hpe2. simpl. js_simpl. rewrite (decide_ext (q ∈ [p]) (p = q))
      by (rewrite list_elem_of_singleton; done). case_decide; [|done]. subst. by rewrite Hf, Hpp.
  - intros d pl q e. unfold try_send.
    destruct (send_cases new (Ask (resendPayload f) p (S (deliveryEpoch f))) c2)
      as [(_ & Hdel & ->)|[[Hno|Hno] ->]]; simpl.
    + rewrite elem_of_app, Hse2, !list_elem_of_singleton. split.
      * intros [?|[= -> -> -> ->]]; [by left|right]. split_and!; eauto.
      * intros [?|(-> & -> & _ & g & Hg & -> & ->)]; [by left|right]. rewrite Hf in Hg. by simplify_eq.
    + destruct Hno. by rewrite Hcl2, Hcl1.
    + rewrite Hse2. split; [by left|]. intros [?|(_ & _ & Hyes & _)]; [done|congruence].
Qed.

Lemma moved_trans new p ps c c1 c2 :
  p ∉ ps → moved new [p] c c1 → moved new ps c1 c2 → moved new (p :: ps) c c2.
Proof.
  intros Hp ((? & ? & ? & ? & ? & ?) & Hf1 & Hp1 & Hs1) ((? & ? & ? & ? & ? & ?) & Hf2 & Hp2 & Hs2).
  assert (∀ q, q ∈ ps → inFlight c1 !! q = inFlight c !! q ∧ pendingPrompts c1 !! q = pendingPrompts c !! q)
    as Hsame.
  { intros q Hq. assert (q ∉ [p]) by (rewrite list_elem_of_singleton; by intros ->).
    rewrite Hf1, Hp1. by rewrite !decide_False. }
  split; [by split_and!; congruence|]. split_and!.
  - intros q. rewrite Hf2. destruct (decide (q ∈ ps)) as [Hq|Hq].
    + rewrite (proj1 (Hsame q Hq)), decide_True; [done|by right].
    + rewrite Hf1. apply decide_ext. rewrite list_elem_of_singleton, elem_of_cons. tauto.
  - intros q. rewrite Hp2. destruct (decide (q ∈ ps)) as [Hq|Hq].
    + destruct (Hsame q Hq) as [-> ->]. rewrite decide_True; [done|by right].
    + rewrite Hp1. apply decide_ext. rewrite list_elem_of_singleton, elem_of_cons. tauto.
  - intros d pl q e. rewrite Hs2, Hs1, list_elem_of_singleton, elem_of_cons. split.
    + intros [[?|(-> & ?)]|(Hq & ? & ? & f & Hf & ?)]; [by left|right; by split; [left|]|right].
      split_and!; [by right|done|done|]. exists f. by rewrite <- (proj1 (Hsame q Hq)).
    + intros [?|([->|Hq] & ? & ? & f & Hf & ?)]; [by left; left|left; right; by eauto 10|right].
      split_and!; [done..|]. exists f. by rewrite (proj1 (Hsame q Hq)).
Qed.

Lemma retarget_loop_spec old new ps c :
  new ∈ clients c → NoDup ps →
  (∀ p, p ∈ ps → is_Some (inFlight c !! p) ∧ is_Some (pendingPrompts c !! p)) →
  let c' := fold_left (retarget_one delivers old new) ps c in
  promptContexts c' = promptContexts c ∧ moved new ps c c'.
Proof.
  revert c. induction ps as [|p ps IH]; intros c Hnew Hnd Hps; simpl.
  { split; [done|]. split; [done|]. split_and!; [by intros; rewrite decide_False by apply not_elem_of_nil..|].
    intros. split; [by left|]. intros [?|[?%elem_of_nil ?]]; done. }
  apply NoDup_cons in Hnd as [Hp Hnd]. destruct (Hps p) as [[f Hf] Hpp]; [by left|].
  destruct (retarget_one_spec old new p f c Hnew Hf Hpp) as [Hcx1 Hm1].
  destruct (IH (retarget_one delivers old new c p)) as [Hcx2 Hm2]; [|done| |].
  - by destruct Hm1 as ((_ & -> & _) & _).
  - intros q Hq. assert (q ∉ [p]) by (rewrite list_elem_of_singleton; by intros ->).
    destruct Hm1 as (_ & Hf1 & Hp1 & _). rewrite Hf1, Hp1, !decide_False by done. apply Hps. by right.
  - split; [by rewrite Hcx2, Hcx1|]. by eapply moved_trans.
Qed.

Lemma retarget_spec ids cid x new c :
  inv None ids c → promptContexts c !! cid = Some x → ctx_kind x = session → new ∈ clients c →
  let c' := retarget delivers cid new c in
  inv None ids c' ∧ moved new (prompts x) c c' ∧
  ∀ d, promptContexts c' !! d = if decide (cid = d) then Some (set_route new x) else promptContexts c !! d.
Proof.
  intros Hi Hx Hk Hnew. destruct (i_open _ _ _ Hi cid x Hx) as (Hst & Hnd & _).
  assert (∀ p, p ∈ prompts x → ∃ f pp, inFlight c !! p = Some f ∧ contextId f = cid ∧
    pendingPrompts c !! p = Some pp ∧ pp_epoch pp = deliveryEpoch f ∧ pp_contextId pp = cid) as Hps.
  { intros p Hp. destruct (i_member _ _ _ Hi cid x p Hx Hp) as (f & Hf & Hc).
    destruct (i_flight _ _ _ Hi p f Hf) as (_ & ? & pp & _ & _ & Hpp & _ & ? & ? & _).
    exists f, pp. by rewrite <- Hc. }
  unfold retarget. rewrite Hx, decide_False by (rewrite Hst, Hk; [by intros [?|?]|done]).
  set (c1 := with_contexts _ c).
  destruct (retarget_loop_spec (routeClientId x) new (prompts x) c1) as [Hcx Hm]; [done|done| |].
  { intros p (f & pp & ? & _ & ? & _)%Hps. split; eauto. }
  set (c' := fold_left _ _ c1) in *. cbv zeta.
  assert (∀ d, promptContexts c' !! d =
    if decide (cid = d) then Some (set_route new x) else promptContexts c !! d) as Hcx'.
  { intros d. rewrite Hcx. simpl. js_simpl. by rewrite Hx. }
  split; [|done]. destruct Hm as ((Hix & Hcl & _ & _ & Han & _) & Hfl & Hpe & Hse). simpl in *.
  destruct Hi as [Hopen Hmem Hflight Hindex Hpending Hknown Honce Hids Hdisj].
  assert (∀ q, is_Some (inFlight c' !! q) ↔ is_Some (inFlight c !! q)) as Hsome.
  { intros q. rewrite Hfl. case_decide; [apply fmap_is_Some|done]. }
  split; rewrite ?Han, ?Hcl, ?Hix; try done.
  - intros d y. rewrite Hcx'. case_decide; [intros [= <-]; simpl; split_and!; auto|apply Hopen].
  - intros d y p. rewrite Hcx'. case_decide as Hd.
    + intros [= <-] Hp. simpl in Hp. destruct (Hps p Hp) as (f & _ & Hf & Hc & _).
      exists (bump f). by rewrite Hfl, decide_True, Hf, <- Hd.
    + intros Hy Hp. destruct (Hmem d y p Hy Hp) as (f & Hf & Hc). exists f. rewrite Hfl, decide_False; [done|].
      intros Hpx. destruct (Hmem cid x p Hx Hpx) as (g & ? & ?). congruence.
  - intros p f. rewrite Hfl. case_decide as Hp.
    + destruct (Hps p Hp) as (g & pp & Hg & Hc & Hpp & Hep & Hpc). rewrite Hg. intros [= <-]. simpl.
      destruct (Hflight p g Hg) as (Hgi & ? & ? & _ & _ & _ & _ & _ & _ & _ & Hall).
      split; [done|]. exists (set_route new x), (repoint new (S (deliveryEpoch g)) pp).
      rewrite Hcx', decide_True, Hpe, decide_True, Hg, Hpp by done. simpl. split_and!; try done.
      * by rewrite Hc.
      * rewrite Hse. destruct (delivers new) eqn:?; [left; right; split_and!; eauto|by right].
      * intros d pl e [Hold|(_ & -> & _ & h & Hh & _ & ->)]%Hse; [|by simplify_eq].
        destruct (Hall d pl e Hold). split; lia.
    + intros Hf. destruct (Hflight p f Hf) as (? & y & pp & Hy & Hin & Hpp & Hroute & ? & ? & Hlast & Hall).
      split; [done|]. exists y, pp. rewrite Hcx', Hpe, !decide_False; [|done|intros Hd].
      * split_and!; try done; [rewrite Hse; tauto|].
        intros d pl e [Hold|(? & _)]%Hse; [by eapply Hall|done].
      * rewrite <- Hd, Hx in Hy. by simplify_eq.
  - intros p [? ?]%Hindex. apply Hsome. eauto.
  - intros p. rewrite Hsome, Hpe. case_decide; [|apply Hpending]. intros [? (? & ? & _)%bind_Some]. eauto.
  - intros d pl p e [?|(Hp & _ & _ & f & Hf & _)]%Hse; [by eapply Hknown|].
    apply Hids. left. eauto.
  - intros p. rewrite Hids, Hsome. done.
  - intros p. rewrite Hsome. apply Hdisj.
Qed.

(** ** Every operation keeps the invariant *)

Lemma inv_owners cl ids f c : inv cl ids c → inv cl ids (with_owners f c).
Proof. by intros []. Qed.

Lemma inv_clear sends ids cid c : inv None ids c → inv None ids (clearContext delivers sends cid c).
Proof.
  intros Hi. destruct (promptContexts c !! cid) eqn:Hx; [by eapply clear_spec|].
  unfold clearContext. by rewrite Hx.
Qed.

Lemma inv_openContext ids kind hostId route cid c :
  inv None ids c → promptContexts c !! cid = None → (kind = session → route ∈ clients c) →
  inv None ids (openContext kind hostId route cid c).
Proof.
  intros [Hopen Hmem Hflight ? ? ? ? ? ?] Hn Hr. split; try done; simpl.
  - intros d x. js_simpl. case_decide; [intros [= <-]|by apply Hopen].
    split_and!; [done|apply NoDup_nil_2|done].
  - intros d x p. js_simpl. case_decide; [intros [= <-] Hp; by inversion Hp|by apply Hmem].
  - intros p f Hf. destruct (Hflight p f Hf) as (? & x & pp & Hx & Hrest). split; [done|].
    exists x, pp. js_simpl. rewrite decide_False; [done|]. intros ->. congruence.
Qed.

Lemma session_routed ids c cid x :
  inv None ids c → promptContexts c !! cid = Some x → routeClientId x ∉ clients c →
  truthy_id (pickRouteCandidate c cid (routeClientId x)) = None.
Proof.
  intros Hi Hx Hr. destruct (truthy_id _) eqn:Hc; [|done].
  apply pickRoute_sound in Hc as (_ & _ & y & Hy & Hk).
  rewrite Hx in Hy. injection Hy as <-. destruct Hr. by apply (i_open _ _ _ Hi cid x Hx).
Qed.

Lemma inv_getOrOpen ids given fresh h client c :
  inv None ids c → promptContexts c !! fresh = None →
  inv None ids (getOrOpen delivers given fresh h client c).1.
Proof.
  intros Hi Hfresh.
  assert (∀ cid, promptContexts c !! cid = None →
    promptContexts c !! context_id session (Some cid) fresh = None) as Hid.
  { intros cid Hn. unfold context_id. rewrite truthy_id_spec. by repeat case_decide. }
  assert (∀ acqId, promptContexts c !! context_id session acqId fresh = None →
    inv None ids (if decide (client ∈ clients c)
                  then (openContext session h client (context_id session acqId fresh) c,
                        Some (context_id session acqId fresh))
                  else (c, None)).1) as Hplain.
  { intros acqId Hn. case_decide; [|done]. by apply inv_openContext. }
  unfold getOrOpen. destruct given as [cid|]; [|by apply Hplain].
  destruct (promptContexts c !! cid) as [x|] eqn:Hx.
  - rewrite decide_True by (by apply (i_open _ _ _ Hi cid x Hx)). 
    destruct (decide (routeClientId x ∈ clients c)) as [Hr|Hr]; [done|].
    rewrite (session_routed ids c cid x Hi Hx Hr). by apply inv_clear.
  - destruct (isReconnectContextId cid); [|by apply Hplain, Hid].
    destruct (truthy_id (reconnectSessionId cid)) as [sid|]; [|done].
    destruct (truthy_id (pickReconnectRouteCandidate c h sid None)) as [d|] eqn:Hd; [|done].
    apply pickReconnect_sound in Hd as [_ Hd]. by apply inv_openContext; [|apply Hid|].
Qed.

Lemma inv_prompt ids cid type payload ms p c :
  inv None ids c → p ∉ ids →
  inv None (ids ++ option_list (prompt delivers cid type payload ms p c).2)
    (prompt delivers cid type payload ms p c).1.
Proof.
  intros Hi Hp. unfold prompt. destruct (promptContexts c !! cid) as [x|] eqn:Hx; [|by rewrite app_nil_r].
  case_decide; [by rewrite app_nil_r|]. case_decide as Hr; [by apply inv_ask|].
  rewrite (session_routed ids c cid x Hi Hx Hr). simpl. rewrite app_nil_r. by apply inv_clear.
Qed.

(** One turn of [clientDisconnect]'s loop: its context no longer goes to the client. *)
Lemma disconnect_one_spec ids client cid c :
  inv None ids c →
  let c' := disconnect_one delivers client c cid in
  inv None ids c' ∧ clients c' = clients c ∧
  ∀ d y, promptContexts c' !! d = Some y →
    (d ≠ cid ∧ promptContexts c !! d = Some y) ∨ (d = cid ∧ routeClientId y ≠ client).
Proof.
  intros Hi. unfold disconnect_one.
  assert (∀ x, promptContexts c !! cid = Some x →
    let c' := clearContext delivers true cid c in
    inv None ids c' ∧ clients c' = clients c ∧
    ∀ d y, promptContexts c' !! d = Some y →
      (d ≠ cid ∧ promptContexts c !! d = Some y) ∨ (d = cid ∧ routeClientId y ≠ client)) as Hclear.
  { intros x Hx. destruct (clear_spec true ids cid x c Hi Hx) as (Hi' & (Hcl & _) & Hn & Hother & _).
    split_and!; [done|done|]. intros d y Hy. left. destruct (decide (d = cid)) as [->|Hd].
    - congruence.
    - by rewrite <- Hother. }
  destruct (promptContexts c !! cid) as [x|] eqn:Hx.
  - rewrite decide_False by (destruct (i_open _ _ _ Hi cid x Hx) as (-> & _); done).
    case_decide as Hr.
    { split_and!; [done..|]. intros d y Hy. destruct (decide (d = cid)) as [->|]; [|by left].
      right. by simplify_eq. }
    case_decide as Hk; [by apply (Hclear x)|].
    destruct (truthy_id (pickRouteCandidate c cid client)) as [new|] eqn:Hn; [|by apply (Hclear x)].
    apply pickRoute_sound in Hn as (Hne & Hcn & _).
    destruct (retarget_spec ids cid x new c Hi Hx Hk Hcn) as (Hi' & ((_ & Hcl & _) & _) & Hcx).
    split_and!; [done|done|]. intros d y. rewrite Hcx. case_decide; [intros [= <-]; by right|by left].
  - split_and!; [done..|]. intros d y Hy. left. split; [congruence|done].
Qed.

Lemma disconnect_loop ids client ks c :
  inv None ids c →
  let c' := fold_left (disconnect_one delivers client) ks c in
  inv None ids c' ∧ clients c' = clients c ∧
  ∀ d y, promptContexts c' !! d = Some y → routeClientId y = client →
    d ∉ ks ∧ promptContexts c !! d = Some y.
Proof.
  revert c. induction ks as [|k ks IH]; intros c Hi; simpl.
  { split_and!; [done..|]. intros d y Hy _. split; [|done]. by inversion 1. }
  destruct (disconnect_one_spec ids client k c Hi) as (Hi1 & Hcl1 & Hcx1).
  destruct (IH _ Hi1) as (Hi2 & Hcl2 & Hcx2). split_and!; [done|congruence|].
  intros d y Hy Hr. destruct (Hcx2 d y Hy Hr) as [Hd Hy1].
  destruct (Hcx1 d y Hy1) as [[? ?]|[-> ?]]; [|done]. split; [|done].
  by intros [?|?]%elem_of_cons.
Qed.

Lemma removeClient_spec ids client c :
  inv None ids c →
  let c' := removeClient delivers client c in
  inv None ids c' ∧ clients c' = set_delete client (clients c) ∧
  ∀ d y, promptContexts c' !! d = Some y → routeClientId y ≠ client.
Proof.
  intros Hi. unfold removeClient, clientDisconnect.
  destruct (disconnect_loop ids client (js_keys (promptContexts c)) c Hi) as (Hi' & Hcl & Hcx).
  set (c' := fold_left _ _ c) in *.
  assert (∀ d y, promptContexts c' !! d = Some y → routeClientId y ≠ client) as Hgone.
  { intros d y Hy Hr. destruct (Hcx d y Hy Hr) as [Hd Hy0]. apply Hd, js_elem_keys. eauto. }
  split_and!; [|by rewrite <- Hcl|done].
  destruct Hi' as [Hopen ? ? ? ? ? ? ? ?]. split; try done. simpl.
  intros d y Hy. destruct (Hopen d y Hy) as (? & ? & ?). split_and!; [done|done|]. intros Hk.
  apply elem_of_set_delete. split; [by eapply Hgone|auto].
Qed.

Lemma inv_clear_owned ids matches c : inv None ids c →
  inv None ids (clearElevationContextsWhere delivers matches c).
Proof.
  unfold clearElevationContextsWhere. generalize (entries (elevationPromptOwners c)) as l.
  intros l. revert c. induction l as [|co l IH]; intros c Hi; simpl; [done|]. apply IH.
  unfold clear_owned. case_match; [|done]. by apply inv_owners, inv_clear.
Qed.

Lemma inv_step ids c e :
  inv None ids c → allowed ids c e → inv None (ids ++ asked c e) (step c e).
Proof.
  intros Hi Ha. destruct e; simpl in *; rewrite ?app_nil_r.
  - by apply inv_getOrOpen.
  - destruct Ha as [Hk Hn]. assert (inv None ids (openContext kind hostId client cid c)) by
      (by apply inv_openContext).
    destruct owner; [by apply inv_owners|done].
  - by apply inv_prompt.
  - unfold respond. repeat (case_match || case_decide); try done. simpl. by eapply inv_settle.
  - unfold timeout. destruct (inFlight c !! p) eqn:Hf; [|done]. case_match; [|done].
    by eapply inv_settle.
  - by apply inv_clear.
  - by apply inv_clear_owned.
  - by apply inv_clear_owned.
  - destruct Hi as [Hopen ? ? ? ? ? ? ? ?]. split; try done. simpl. intros d y Hy.
    destruct (Hopen d y Hy) as (? & ? & ?). split_and!; [done|done|]. intros Hk.
    apply elem_of_set_add. auto.
  - by apply removeClient_spec.
  - by destruct Hi.
Qed.

Lemma reach_inv ids c : reach ids c → inv None ids c.
Proof.
  induction 1; [|by apply inv_step]. split; simpl; try done.
  - by intros p [? ?].
  - by intros p [? ?].
  - intros d pl p e Hin. by inversion Hin.
  - apply NoDup_nil_2.
  - intros p. split; [intros Hin; by inversion Hin|]. intros [[? ?]|Hin]; [done|by inversion Hin].
  - by intros p [? ?].
Qed.

(** A list of events from a state, with the prompts asked. *)
Fixpoint trace (ids : list string) (c : Ctx) (es : list event) : list string * Ctx :=
  match es with
  | [] => (ids, c)
  | e :: es => trace (ids ++ asked c e) (step c e) es
  end.
Fixpoint trace_allowed (ids : list string) (c : Ctx) (es : list event) : Prop :=
  match es with
  | [] => True
  | e :: es => allowed ids c e ∧ trace_allowed (ids ++ asked c e) (step c e) es
  end.
Lemma reach_trace ids c es :
  reach ids c → trace_allowed ids c es →
  reach (trace ids c es).1 (trace ids c es).2.
Proof.
  revert ids c. induction es as [|e es IH]; intros ids c Hr; simpl; [done|]. intros [? ?].
  apply IH; [by apply reach_next|done].
Qed.

(** What an accepted answer went through. *)
Lemma respond_accepted ids p client epoch v c :
  inv None ids c → (respond p client epoch v c).2 = true →
  ∃ x f, inFlight c !! p = Some f ∧ promptContexts c !! contextId f = Some x ∧
    client = routeClientId x ∧ epoch_matches epoch f = true ∧
    (respond p client epoch v c).1 = (c |> _clearPrompt p |> resolve p v).
Proof.
  intros Hi. unfold respond.
  destruct (promptIndex c !! p) as [cid|] eqn:Hix; [|done].
  destruct (promptContexts c !! cid) as [x|] eqn:Hx; [|done]. case_decide; [done|].
  destruct (inFlight c !! p) as [f|] eqn:Hf; [|done].
  destruct (decide (client ≠ routeClientId x)) as [|Hr]; [done|]. apply dec_stable in Hr.
  destruct (epoch_matches epoch f) eqn:He; [|done]. intros _.
  destruct (i_flight _ _ _ Hi p f Hf) as [Hix' _]. rewrite Hix in Hix'. simplify_eq.
  by exists x, f.
Qed.
Lemma epoch_matches_spec epoch f : epoch_matches epoch f = true ↔ ∀ e, epoch = Some e → e = deliveryEpoch f.
Proof. destruct epoch as [e|]; simpl; [rewrite bool_decide_eq_true|]; naive_solver. Qed.
Lemma respond_refused p client epoch v c c' : respond p client epoch v c = (c', false) → c' = c.
Proof. unfold respond. repeat case_match; intros; by simplify_eq. Qed.
(** Exactly the answers accepted. *)
Lemma respond_iff ids p client epoch v c :
  inv None ids c → (respond p client epoch v c).2 = true ↔
  ∃ x f, inFlight c !! p = Some f ∧ promptContexts c !! contextId f = Some x ∧
    client = routeClientId x ∧ ∀ e, epoch = Some e → e = deliveryEpoch f.
Proof.
  intros Hi. setoid_rewrite <- epoch_matches_spec. split.
  - intros Hok. destruct (respond_accepted ids p client epoch v c Hi Hok) as (x & f & H). exists x, f. naive_solver.
  - intros (x & f & Hf & Hx & -> & He). destruct (i_flight _ _ _ Hi p f Hf) as [Hix _].
    destruct (i_open _ _ _ Hi _ x Hx) as (Ho & _).
    unfold respond. rewrite Hix, Hx, Hf, He. rewrite decide_False by (by rewrite Ho). by rewrite decide_False by tauto.
Qed.
End machine.

(** ** Properties *)

(** C28: A question is answered once. Whatever happens to contexts, clients and sockets, each prompt
    the hub ever asked is in exactly one of two places: in flight, or in the log of answers, where
    no prompt appears twice. One in flight belongs to an open context that lists it, and is pending
    at that context's route under the same epoch; the question of that epoch went to that client, or
    its socket failed, and no other client was ever sent that epoch. No prompt is listed, indexed or
    pending without being in flight. *)
Theorem prompts_answered_once delivers ids c :
  reach delivers ids c →
  NoDup (answers c).*1 ∧
  (∀ p, p ∈ ids ↔ is_Some (inFlight c !! p) ∨ p ∈ (answers c).*1) ∧
  (∀ p, is_Some (inFlight c !! p) → p ∉ (answers c).*1) ∧
  (∀ p f, inFlight c !! p = Some f → ∃ x pp,
     promptContexts c !! contextId f = Some x ∧ ctx_state x = OPEN ∧ p ∈ prompts x ∧
     pendingPrompts c !! p = Some pp ∧ pp_clientId pp = routeClientId x ∧
     pp_epoch pp = deliveryEpoch f ∧
     ((routeClientId x, Ask (resendPayload f) p (deliveryEpoch f)) ∈ sent c ∨
      delivers (routeClientId x) = false) ∧
     ∀ d pl, (d, Ask pl p (deliveryEpoch f)) ∈ sent c → d = routeClientId x) ∧
  (∀ p, is_Some (promptIndex c !! p) ∨ is_Some (pendingPrompts c !! p) ∨
        (∃ cid x, promptContexts c !! cid = Some x ∧ p ∈ prompts x) → is_Some (inFlight c !! p)).
Proof.
  intros Hi%reach_inv. split_and!; [apply Hi..| |].
  - intros p f Hf. destruct (i_flight _ _ _ _ Hi p f Hf)
      as (_ & x & pp & Hx & Hp & Hpp & Hr & He & _ & Hlast & Hall).
    exists x, pp. split_and!; try done; [by apply (i_open _ _ _ _ Hi _ x Hx)|].
    intros d pl Hin. by apply (Hall d pl _ Hin).
  - intros p [?|[?|(cid & x & Hx & Hp)]]; [by eapply i_index|by eapply i_pending|].
    destruct (i_member _ _ _ _ Hi cid x p Hx Hp) as (f & ? & _). eauto.
Qed.

(** C10: Only the person asked can answer. An answer is accepted exactly when its prompt is in flight, it
    comes from the client the prompt's context is routed to, and the epoch it names, if it names one, is
    that of the last delivery: an answer that names none is accepted from the route whatever it was
    sent. Nobody else was ever sent the question of that epoch, and the route was, unless its socket fails.
    Accepted, the prompt resolves with that value, no other is touched, and any later answer to it, from
    anyone, is refused; and what is refused changes nothing. *)
Theorem only_the_route_answers delivers ids c p client epoch v :
  reach delivers ids c →
  let '(c', ok) := respond p client epoch v c in
  (ok = true ↔ ∃ x f, inFlight c !! p = Some f ∧ promptContexts c !! contextId f = Some x ∧
     client = routeClientId x ∧ ∀ e, epoch = Some e → e = deliveryEpoch f) ∧
  (∀ x f, inFlight c !! p = Some f → promptContexts c !! contextId f = Some x →
     (∀ d pl, (d, Ask pl p (deliveryEpoch f)) ∈ sent c → d = routeClientId x) ∧
     (delivers (routeClientId x) = true →
      (routeClientId x, Ask (resendPayload f) p (deliveryEpoch f)) ∈ sent c)) ∧
  if ok then
    answers c' = answers c ++ [(p, v)] ∧ inFlight c' !! p = None ∧
    (∀ q, q ≠ p → inFlight c' !! q = inFlight c !! q) ∧
    ∀ client' epoch' v', respond p client' epoch' v' c' = (c', false)
  else c' = c.
Proof.
  intros Hi%reach_inv. destruct (respond p client epoch v c) as [c' ok] eqn:Hr. split_and!.
  - rewrite <- (respond_iff _ ids p client epoch v c Hi). by rewrite Hr.
  - intros x f Hf Hx. destruct (i_flight _ _ _ _ Hi p f Hf) as (_ & y & pp & Hy & _ & _ & _ & _ & _ & Hlast & Hall).
    rewrite Hx in Hy. injection Hy as <-. split; [intros d pl Hin; by apply (Hall d pl _ Hin)|].
    intros Hd. destruct Hlast as [?|Hn]; [done|by rewrite Hd in Hn].
  - destruct ok; [|by apply (respond_refused p client epoch v c c')].
    destruct (respond_accepted _ ids p client epoch v c Hi) as (x & f & Hf & _ & _ & _ & Hc); [by rewrite Hr|].
    rewrite Hr in Hc. simpl in Hc. subst c'. destruct (i_flight _ _ _ _ Hi p f Hf) as (Hix & _).
    destruct (clearPrompt_spec p _ c Hix) as (Hfl & Hix' & _ & _ & _ & _ & Han). simpl.
    split_and!; [by rewrite Han|by rewrite Hfl, decide_True|intros q Hq; by rewrite Hfl, decide_False|].
    intros. unfold respond. simpl. by rewrite Hix', decide_True.
Qed.

(** A departed client is left nothing. Once [removeClient] has run, the client is not connected,
    no context is routed to it and no prompt is pending at it; no question asked is lost, each being
    in flight for somebody else or answered; and no answer of the client's is accepted any more,
    whatever epoch it carries. *)
Theorem departed_client_left_nothing delivers ids c client :
  reach delivers ids c →
  let c' := removeClient delivers client c in
  client ∉ clients c' ∧
  (∀ cid x, promptContexts c' !! cid = Some x → routeClientId x ≠ client) ∧
  (∀ p pp, pendingPrompts c' !! p = Some pp → pp_clientId pp ≠ client) ∧
  (∀ p, p ∈ ids → is_Some (inFlight c' !! p) ∨ p ∈ (answers c').*1) ∧
  ∀ p epoch v, (respond p client epoch v c').2 = false.
Proof.
  intros Hi%reach_inv. destruct (removeClient_spec _ ids client c Hi) as (Hi' & Hcl & Hgone).
  cbv zeta. split_and!.
  - rewrite Hcl, elem_of_set_delete. by intros [? _].
  - exact Hgone.
  - intros p pp Hpp. destruct (i_pending _ _ _ _ Hi' p) as [f Hf]; [eauto|].
    destruct (i_flight _ _ _ _ Hi' p f Hf) as (_ & x & pp' & Hx & _ & Hpp' & Hr & _).
    rewrite Hpp in Hpp'. simplify_eq. rewrite Hr. by eapply Hgone.
  - intros p. by rewrite (i_ids _ _ _ _ Hi').
  - intros p epoch v. destruct (respond _ _ _ _ _).2 eqn:Hok; [|done].
    destruct (respond_accepted _ ids _ _ _ _ _ Hi' Hok) as (x & f & _ & Hx & Hr & _).
    by destruct (Hgone _ _ Hx).
Qed.

(** The clients a session context may move to: not the one excluded, connected, and either on a
    channel of the session that is reconnecting, or the holder of a lease on the host. *)
Definition eligible (c : Ctx) (cid : string) (x : Context) (exclude d : string) : Prop :=
  d ≠ exclude ∧ d ∈ clients c ∧
  if isReconnectContextId cid then
    ∃ sid ch, reconnectSessionId cid = Some sid ∧ sid ≠ EmptyString ∧ ch ∈ js_values (channels c) ∧
      ch_hostId ch = ctx_hostId x ∧ ch_sessionId ch = sid ∧ ch_dead ch = false ∧ d ∈ ch_clients ch
  else
    ∃ q acq l o, q ∈ js_values (Acquisition.acquisitions (leasing c)) ∧
      Acquisition.acqs (leasing c) !! q = Some acq ∧ Acquisition.acq_hostId acq = ctx_hostId x ∧
      l ∈ Acquisition.leases acq ∧ Acquisition.leaseObjs (leasing c) !! l = Some o ∧
      Acquisition.released o = false ∧ Acquisition.clientId o = d.

(** The chooser is the first, in order, of a list whose members are the eligible clients. *)
Lemma pick_first c cid x ex :
  promptContexts c !! cid = Some x → ctx_kind x = session →
  ∃ l, pickRouteCandidate c cid ex = first_sorted l ∧ ∀ d, d ∈ l ↔ eligible c cid x ex d.
Proof.
  intros Hx Hk. unfold pickRouteCandidate, eligible. rewrite Hx, decide_True by done.
  destruct (isReconnectContextId cid) eqn:Hr.
  - unfold reconnectSessionId. rewrite Hr. rewrite truthy_id_spec.
    set (sid := String.substring _ _ cid). case_decide as Hs.
    + exists []. split; [done|]. intros d. split; [by inversion 1|].
      intros (_ & _ & sid' & ch & [= <-] & Hne & _). done.
    + eexists. split; [reflexivity|]. intros d. rewrite elem_of_reconnect_clients. split.
      * intros (ch & ? & ? & ? & ? & ? & Hne & ?). split_and!; [congruence|done|].
        exists sid, ch. by split_and!.
      * intros (Hne & ? & sid' & ch & [= <-] & _ & ? & ? & ? & ? & ?). exists ch. split_and!; congruence.
  - eexists. split; [reflexivity|]. intros d. rewrite elem_of_lease_clients. split.
    + intros (q & acq & l & o & H). destruct H as (? & ? & ? & ? & ? & ? & ? & ? & ?).
      split_and!; [done|done|]. by exists q, acq, l, o.
    + intros (? & ? & q & acq & l & o & H). destruct H as (? & ? & ? & ? & ? & ? & ?).
      exists q, acq, l, o. by split_and!.
Qed.

(** The route is chosen without regard to the order of the maps. For a session's context
    [pickRouteCandidate] gives the smallest, in the order of strings, of the clients that are
    connected, are not the one excluded, and hold an unreleased lease on the host or, while the
    session reconnects, are on one of its live channels; it gives none exactly when there is no such
    client; and two states with the same eligible clients give the same route. *)
Theorem route_is_smallest_eligible c cid x exclude :
  promptContexts c !! cid = Some x → ctx_kind x = session →
  (∀ d, pickRouteCandidate c cid exclude = Some d ↔
     eligible c cid x exclude d ∧ ∀ d', eligible c cid x exclude d' → String.le d d') ∧
  (pickRouteCandidate c cid exclude = None ↔ ∀ d, ¬ eligible c cid x exclude d) ∧
  ∀ c' x', promptContexts c' !! cid = Some x' → ctx_kind x' = session →
    (∀ d, eligible c' cid x' exclude d ↔ eligible c cid x exclude d) →
    pickRouteCandidate c' cid exclude = pickRouteCandidate c cid exclude.
Proof.
  intros Hx Hk. destruct (pick_first c cid x exclude Hx Hk) as (l & -> & Hl).
  assert (∀ d, first_sorted l = Some d ↔
    eligible c cid x exclude d ∧ ∀ d', eligible c cid x exclude d' → String.le d d') as Hsome.
  { intros d. setoid_rewrite <- Hl. split; [apply first_sorted_Some|]. intros [Hd Hmin].
    destruct (first_sorted l) as [e|] eqn:He.
    - apply first_sorted_Some in He as [He Hmin']. f_equal. apply (anti_symm String.le); auto.
    - apply first_sorted_None in He as ->. by inversion Hd. }
  split_and!; [done| |].
  - rewrite first_sorted_None. setoid_rewrite <- Hl. split; [intros -> d; apply not_elem_of_nil|].
    destruct l as [|d l]; [done|]. intros H. destruct (H d). by left.
  - intros c' x' Hx' Hk' He. destruct (pick_first c' cid x' exclude Hx' Hk') as (l' & -> & Hl').
    destruct (first_sorted l) as [d|] eqn:Hd.
    + destruct (proj1 (Hsome d) eq_refl) as [Hel Hmin]. destruct (first_sorted l') as [d'|] eqn:Hd'.
      * apply first_sorted_Some in Hd' as [Hin Hmin']. f_equal. apply (anti_symm String.le).
        -- apply Hmin'. by rewrite Hl', He.
        -- apply Hmin. by rewrite <- He, <- Hl'.
      * apply first_sorted_None in Hd' as ->. apply He, Hl' in Hel. by inversion Hel.
    + apply first_sorted_None in Hd as ->. apply first_sorted_None.
      destruct l' as [|d' l']; [done|]. exfalso. apply (not_elem_of_nil d'), Hl, He, Hl'. by left.
Qed.

(** ** Witnesses *)

Definition yes (_ : string) : bool := true.
Definition reconnecting : list event :=
  [EvConnect "alice"; EvConnect "bob"; EvConnect "carol";
   EvWorld (<["ch" := {| ch_hostId := "h"; ch_sessionId := "s"; ch_dead := false;
                         ch_clients := ["carol"; "bob"; "alice"] |}]> ∅) Acquisition.new;
   EvOpenSession (Some "reconnect:s") "x" "h" "carol";
   EvPrompt "reconnect:s" passphrase "key?" None "p1";
   EvOpenOwned test "t" "h" "alice" None;
   EvPrompt "t" host_verify "host?" None "p2"].
Definition start_state : Ctx := MkCtx ∅ ∅ ∅ ∅ ∅ [] ∅ Acquisition.new [] [].
Definition asked_twice : list string * Ctx := Eval vm_compute in trace yes [] start_state reconnecting.

Lemma asked_twice_reach : reach yes asked_twice.1 asked_twice.2.
Proof.
  apply (reach_trace yes [] start_state reconnecting); [constructor|].
  repeat (split; [first [reflexivity|exact I|split; [done|reflexivity]
                        |apply (bool_decide_unpack _); vm_compute; exact I]|]). done.
Qed.

Lemma prompts_answered_once_witness :
  asked_twice.1 = ["p1"; "p2"] ∧ routeClientId <$> promptContexts asked_twice.2 !! "reconnect:s" = Some "alice" ∧
  NoDup (answers asked_twice.2).*1.
Proof.
  split_and!; [reflexivity|reflexivity|].
  exact (proj1 (prompts_answered_once yes _ _ asked_twice_reach)).
Defined.

Lemma only_the_route_answers_witness :
  (respond "p1" "bob" (Some 1) (Some "sesame") asked_twice.2).2 = false ∧
  (respond "p1" "alice" (Some 0) (Some "sesame") asked_twice.2).2 = false ∧
  (respond "p1" "alice" None (Some "sesame") asked_twice.2).2 = true ∧
  answers (respond "p1" "alice" (Some 1) (Some "sesame") asked_twice.2).1 = [("p1", Some "sesame")].
Proof.
  split_and!; [reflexivity..|].
  exact (proj1 (proj2 (proj2 (only_the_route_answers yes _ _ "p1" "alice" (Some 1) (Some "sesame")
    asked_twice_reach)))).
Defined.

Lemma departed_client_left_nothing_witness :
  let c' := removeClient yes "alice" asked_twice.2 in
  deliveryEpoch <$> inFlight c' !! "p1" = Some 2 ∧ answers c' = [("p2", None)] ∧
  (respond "p1" "bob" (Some 2) (Some "sesame") c').2 = true ∧
  "alice" ∉ clients c'.
Proof.
  split_and!; [reflexivity|reflexivity|reflexivity|].
  exact (proj1 (departed_client_left_nothing yes _ _ "alice" asked_twice_reach)).
Defined.

Lemma route_is_smallest_eligible_witness :
  ∃ x, promptContexts asked_twice.2 !! "reconnect:s" = Some x ∧
    eligible asked_twice.2 "reconnect:s" x "alice" "bob".
Proof.
  eexists. split; [reflexivity|].
  apply (route_is_smallest_eligible asked_twice.2 "reconnect:s" _ "alice"); reflexivity.
Defined.
