(* ===== verification/HostPaths.v ===== *)
(** * The paths of a host ([packages/hub/src/files/host-paths.ts])

    The one form a path takes on a POSIX or a Windows host, and the joining, naming and climbing of
    paths in that form. The source's regular expressions are written out as scans of the text. *)

From Stdlib Require Import Ascii.
From stdpp Require Import strings.
From S2P Require Import Prelude Text.
#[local] Open Scope lasterm_scope.

Inductive PathStyle := posix | windows.
#[export] Instance PathStyle_eq_dec : EqDecision PathStyle.
Proof. solve_decision. Defined.

(** Why a path is refused; the source spells each as a sentence. *)
Inductive refusal :=
| empty_path | nul_character | dot_segment
| tilde | dollar | not_absolute
| variable | drive_relative | device_path | unc_incomplete | no_drive | forbidden_character.

Inductive NormalisedPath := ok (path : text) | refused (reason : refusal).

Definition SL : unit_ := ch "/"%char.
Definition BS : unit_ := ch "\"%char.
Definition COLON : unit_ := ch ":"%char.
Definition PERCENT : unit_ := ch "%"%char.
Definition WINDOWS_ROOT : text := [SL].

Definition is_dot (s : text) : bool := bool_decide (s = txt ".") || bool_decide (s = txt "..").
Definition nonempty (ss : list text) : list text := filter (λ s, s ≠ []) ss.

(** [/%[A-Za-z_][A-Za-z0-9_().-]*%/] *)
Definition variable_start (c : unit_) : bool := is_letter c || bool_decide (c = ch "_"%char).
Definition variable_char (c : unit_) : bool :=
  variable_start c || is_digit c || bool_decide (c ∈ txt "().-").
Fixpoint variable_rest (t : text) : bool :=
  match t with
  | [] => false
  | c :: t => if decide (c = PERCENT) then true else variable_char c && variable_rest t
  end.
Fixpoint names_variable (t : text) : bool :=
  match t with
  | [] => false
  | c :: t =>
      bool_decide (c = PERCENT) &&
        match t with x :: t' => variable_start x && variable_rest t' | [] => false end
      || names_variable t
  end.

(** The double quote is unit 34. *)
Definition WINDOWS_FORBIDDEN (c : unit_) : bool :=
  bool_decide (c ∈ 34%N :: txt "<>|?*") || is_control c.

Definition normalisePosixPath (path : text) : NormalisedPath :=
  if negb (startsWith [SL] path) then
    if startsWith (txt "~") path then refused tilde
    else if startsWith (txt "$") path then refused dollar
    else refused not_absolute
  else
    let segments := nonempty (split SL path) in
    if existsb is_dot segments then refused dot_segment else ok (SL :: join SL segments).

Definition slash_to_backslash (t : text) : text := (λ c, if decide (c = SL) then BS else c) <$> t.

(** [/^\\[A-Za-z]:(?:\\|$)/]: the slash before a drive left out. *)
Definition drop_drive_slash (p : text) : text :=
  match p with
  | b :: l :: c :: after =>
      if bool_decide (b = BS) && is_letter l && bool_decide (c = COLON) &&
         (bool_decide (after = []) || startsWith [BS] after)
      then l :: c :: after else p
  | _ => p
  end.

Fixpoint drop_backslashes (t : text) : text :=
  match t with
  | c :: t' => if decide (c = BS) then drop_backslashes t' else t
  | [] => []
  end.

(** [/^\\{3,}[^\\]/]: the backslashes before a server made two. *)
Definition two_backslashes (p : text) : text :=
  let rest := drop_backslashes p in
  if bool_decide (3 <= length p - length rest ∧ rest ≠ []) then BS :: BS :: rest else p.

(** The root of a path and what follows it. *)
Definition split_root (p : text) : refusal + (text * text) :=
  match p with
  | l :: c :: after =>
      if is_letter l && bool_decide (c = COLON) then
        if bool_decide (after ≠ []) && negb (startsWith [BS] after) then inl drive_relative
        else inr ([ascii_upper l; COLON; BS], after)
      else if startsWith [BS; BS] p then
        let parts := split BS (drop 2 p) in
        let server := nth 0 parts [] in
        let share := nth 1 parts [] in
        if bool_decide (server = txt "?") || bool_decide (server = txt ".") then inl device_path
        else if bool_decide (server = []) || bool_decide (share = []) then inl unc_incomplete
        else inr ([BS; BS] ++ server ++ BS :: share, join BS (drop 2 parts))
      else if startsWith [BS] p then inl no_drive else inl not_absolute
  | _ => if startsWith [BS] p then inl no_drive else inl not_absolute
  end.

Definition endsWith (c : unit_) (t : text) : bool := bool_decide (last t = Some c).
Definition is_unc (root : text) : bool := startsWith [BS; BS] root.
Definition bad_name (s : text) : bool := existsb WINDOWS_FORBIDDEN s || includes COLON s.

Definition under_root (root rest : text) : NormalisedPath :=
  let segments := nonempty (split BS rest) in
  if existsb is_dot (split BS (drop 2 root) ++ segments) then refused dot_segment
  else
    let named := (if is_unc root then split BS (drop 2 root) else []) ++ segments in
    if existsb bad_name named then refused forbidden_character
    else if bool_decide (segments = []) then ok root
    else ok (root ++ (if endsWith BS root then [] else [BS]) ++ join BS segments).

Definition normaliseWindowsPath (input : text) : NormalisedPath :=
  if names_variable input then refused variable
  else
    let path := slash_to_backslash input in
    if bool_decide (path ≠ [] ∧ drop_backslashes path = []) then ok WINDOWS_ROOT
    else
      match split_root (two_backslashes (drop_drive_slash path)) with
      | inl reason => refused reason
      | inr (root, rest) => under_root root rest
      end.

Definition normaliseHostPath (path : text) (style : PathStyle) : NormalisedPath :=
  if bool_decide (path = []) then refused empty_path
  else if includes 0%N path then refused nul_character
  else match style with windows => normaliseWindowsPath path | posix => normalisePosixPath path end.

(** [name.replace(/[:\\]+$/, "")] *)
Definition without_drive_end (name : text) : text :=
  reverse (let fix go t := match t with
                           | c :: t' => if decide (c = COLON ∨ c = BS) then go t' else t
                           | [] => []
                           end in go (reverse name)).

(** [toUpperCase] is JavaScript's; only what it does to a drive's letter matters. *)
Definition joinHostPath (toUpperCase : text → text) (dir name : text) (style : PathStyle) : text :=
  match style with
  | posix => if bool_decide (dir = [SL]) then SL :: name else dir ++ SL :: name
  | windows =>
      if bool_decide (dir = WINDOWS_ROOT) then toUpperCase (without_drive_end name) ++ [COLON; BS]
      else dir ++ (if endsWith BS dir then [] else [BS]) ++ name
  end.

(** [/^[A-Z]:\\$/] *)
Definition is_drive_root (p : text) : bool :=
  match p with [l; c; b] => is_upper_letter l && bool_decide (c = COLON) && bool_decide (b = BS) | _ => false end.
(** [/^[A-Z]:$/] *)
Definition is_drive (p : text) : bool :=
  match p with [l; c] => is_upper_letter l && bool_decide (c = COLON) | _ => false end.
(** [/^\\\\[^\\]+\\[^\\]+$/] *)
Definition is_share_root (p : text) : bool :=
  is_unc p &&
    match split BS (drop 2 p) with
    | [server; share] => bool_decide (server ≠ []) && bool_decide (share ≠ [])
    | _ => false
    end.

Definition slice_after_last (c : unit_) (p : text) : text :=
  match lastIndexOf c p with Some i => drop (S i) p | None => p end.
(** [p.slice(0, p.lastIndexOf(c))]; an index of -1 leaves out the last unit. *)
Definition slice_before_last (c : unit_) (p : text) : text :=
  match lastIndexOf c p with Some i => take i p | None => removelast p end.

Definition baseNameOf (path : text) (style : PathStyle) : text :=
  match style with
  | posix => if bool_decide (path = [SL]) then [SL] else slice_after_last SL path
  | windows =>
      if bool_decide (path = WINDOWS_ROOT) then WINDOWS_ROOT
      else if is_drive_root path then take 2 path
      else slice_after_last BS path
  end.

Definition parentOf (path : text) (style : PathStyle) : option text :=
  match style with
  | posix =>
      if bool_decide (path = [SL]) then None
      else if bool_decide (lastIndexOf SL path = Some 0) then Some [SL]
      else Some (slice_before_last SL path)
  | windows =>
      if bool_decide (path = WINDOWS_ROOT) then None
      else if is_drive_root path then Some WINDOWS_ROOT
      else if is_share_root path then None
      else
        let parent := slice_before_last BS path in
        Some (if is_drive parent then parent ++ [BS] else parent)
  end.

(** ** The form of a path *)

(** A name in a path: of a segment, so with no separator, and neither dot segment. *)
Definition posix_name (s : text) : Prop := s ≠ [] ∧ is_dot s = false ∧ SL ∉ s ∧ 0%N ∉ s.
Definition windows_name (s : text) : Prop :=
  s ≠ [] ∧ is_dot s = false ∧ SL ∉ s ∧ BS ∉ s ∧ bad_name s = false ∧ names_variable s = false.

(** [C:\a\b], [\\server\share\a\b], or the root that holds the drives. *)
Definition drive_path (l : unit_) (segs : list text) : text := l :: COLON :: BS :: join BS segs.
Definition unc_path (names : list text) : text := BS :: BS :: join BS names.

Inductive host_path : PathStyle → text → Prop :=
| posix_path segs : Forall posix_name segs → host_path posix (SL :: join SL segs)
| windows_root : host_path windows WINDOWS_ROOT
| windows_drive l segs : is_upper_letter l = true → Forall windows_name segs →
    host_path windows (drive_path l segs)
| windows_unc server share segs : Forall windows_name (server :: share :: segs) →
    host_path windows (unc_path (server :: share :: segs)).

Section paths.
Implicit Types (s t p root : text) (ss segs : list text).

Lemma startsWith_cons c d p : startsWith [c] (d :: p) = bool_decide (c = d).
Proof.
  apply bool_decide_ext. split.
  - intros [k Hk]. by injection Hk.
  - intros ->. by exists p.
Qed.
Lemma startsWith_nil c : startsWith [c] [] = false.
Proof. apply bool_decide_eq_false. by intros [k Hk]. Qed.

Lemma nonempty_names c t : Forall (λ s, s ≠ [] ∧ c ∉ s) (nonempty (split c t)).
Proof.
  apply Forall_forall. intros s [Hn Hs]%list_elem_of_filter. split; [done|].
  pose proof (split_no_sep c t) as Hall. rewrite Forall_forall in Hall. by apply Hall.
Qed.

Lemma nonempty_id ss : Forall (λ s, s ≠ []) ss → nonempty ss = ss.
Proof. apply filter_all. Qed.

Lemma existsb_false {A} (f : A → bool) l : existsb f l = false ↔ Forall (λ x, f x = false) l.
Proof.
  induction l as [|x l IH]; simpl; [done|]. rewrite orb_false_iff, IH, Forall_cons. done.
Qed.

(** A variable lies in one name. *)
Lemma variable_rest_app c t s :
  variable_char c = false → c ≠ PERCENT → variable_rest (t ++ c :: s) = variable_rest t.
Proof.
  intros Hc Hp. induction t as [|x t IH]; simpl.
  - rewrite decide_False by done. by rewrite Hc.
  - case_decide; [done|]. by rewrite IH.
Qed.

Lemma names_variable_app c t s :
  variable_char c = false → c ≠ PERCENT →
  names_variable (t ++ c :: s) = names_variable t || names_variable s.
Proof.
  intros Hc Hp. assert (variable_start c = false) as Hs.
  { unfold variable_char in Hc. by destruct (variable_start c). }
  induction t as [|x t IH]; simpl.
  - rewrite (bool_decide_eq_false_2 _ Hp). done.
  - rewrite IH, orb_assoc. do 2 f_equal. destruct t as [|y t]; simpl.
    + by rewrite Hs.
    + by rewrite variable_rest_app.
Qed.

Lemma names_variable_join c ss :
  variable_char c = false → c ≠ PERCENT →
  names_variable (join c ss) = existsb names_variable ss.
Proof.
  intros Hc Hp. induction ss as [|s ss IH]; [done|]. destruct ss as [|s' ss].
  - simpl. by rewrite orb_false_r.
  - rewrite join_cons, names_variable_app, IH; done.
Qed.

Lemma BS_plain : variable_char BS = false ∧ BS ≠ PERCENT.
Proof. by split. Qed.
Lemma SL_plain : variable_char SL = false ∧ SL ≠ PERCENT.
Proof. by split. Qed.

Lemma names_variable_windows t :
  names_variable (slash_to_backslash t) = names_variable t.
Proof.
  induction t as [|x t IH]; simpl; [done|].
  assert (∀ c, bool_decide ((if decide (c = SL) then BS else c) = PERCENT) = bool_decide (c = PERCENT)
    ∧ variable_char (if decide (c = SL) then BS else c) = variable_char c
    ∧ variable_start (if decide (c = SL) then BS else c) = variable_start c) as Hmap.
  { intros c. case_decide; [by subst|done]. }
  assert (∀ t, variable_rest (slash_to_backslash t) = variable_rest t) as Hrest.
  { induction t0 as [|c t0 IHr]; simpl; [done|]. fold (slash_to_backslash t0).
    destruct (Hmap c) as (Hp & Hc & _). rewrite Hc, IHr.
    destruct (decide (c = PERCENT)) as [->|Hne]; [done|].
    rewrite (bool_decide_eq_false_2 _ Hne) in Hp. apply bool_decide_eq_false in Hp.
    by rewrite decide_False. }
  fold (slash_to_backslash t). rewrite IH. f_equal. f_equal; [apply Hmap|].
  destruct t as [|y t]; simpl; [done|]. fold (slash_to_backslash t). rewrite Hrest.
  by rewrite (proj2 (proj2 (Hmap y))).
Qed.

Lemma SL_not_windows t : SL ∉ slash_to_backslash t.
Proof. unfold slash_to_backslash. intros (c & Hc & _)%list_elem_of_fmap. by case_decide. Qed.

Lemma slash_to_backslash_id t : SL ∉ t → slash_to_backslash t = t.
Proof.
  intros Ht. unfold slash_to_backslash. rewrite <- (list_fmap_id t) at 2. apply list_fmap_ext.
  intros i c Hc%list_elem_of_lookup_2. rewrite decide_False; [done|]. by intros ->.
Qed.

Lemma nonempty_split_join c segs :
  Forall (λ s, s ≠ [] ∧ c ∉ s) segs → nonempty (split c (join c segs)) = segs.
Proof.
  intros Hs. destruct segs as [|s segs]; [done|].
  rewrite split_join; [|done|by eapply Forall_impl; [exact Hs|intros ? []]].
  apply nonempty_id. eapply Forall_impl; [exact Hs|by intros ? []].
Qed.

(** Names without a given unit join into a text without it. *)
Lemma join_without c x segs : x ≠ c → Forall (λ s, x ∉ s) segs → x ∉ join c segs.
Proof.
  intros Hx Hs [?|(s & Hin & Hxs)]%elem_of_join; [done|]. rewrite Forall_forall in Hs. by apply (Hs s).
Qed.

(** *** POSIX *)

Lemma normalise_posix_ok p p' : normaliseHostPath p posix = ok p' → host_path posix p'.
Proof.
  unfold normaliseHostPath. case_bool_decide; [done|]. destruct (includes 0%N p) eqn:Hnul; [done|].
  apply bool_decide_eq_false in Hnul. unfold normalisePosixPath.
  destruct (startsWith [SL] p); simpl; [|by repeat case_match].
  destruct (existsb is_dot _) eqn:Hdot; [done|]. intros [= <-]. constructor.
  apply existsb_false in Hdot. rewrite Forall_forall in Hdot.
  pose proof (nonempty_names SL p) as Hn. rewrite Forall_forall in Hn.
  apply Forall_forall. intros s Hs. destruct (Hn s Hs). split_and!; auto.
  intros Hzero. apply list_elem_of_filter in Hs as [_ Hs]. by destruct (elem_of_split _ _ _ _ Hs Hzero).
Qed.

Lemma normalise_posix_id p : host_path posix p → normaliseHostPath p posix = ok p.
Proof.
  inversion 1 as [segs Hs| | |]; subst. unfold normaliseHostPath.
  rewrite bool_decide_eq_false_2 by done.
  assert (includes 0%N (SL :: join SL segs) = false) as ->.
  { apply bool_decide_eq_false_2. rewrite elem_of_cons. intros [?|Hin]; [done|]. revert Hin.
    apply join_without; [done|]. eapply Forall_impl; [exact Hs|by intros ? (_ & _ & _ & ?)]. }
  unfold normalisePosixPath. rewrite startsWith_cons, bool_decide_eq_true_2 by done. cbn [negb].
  assert (nonempty (split SL (SL :: join SL segs)) = segs) as ->.
  { simpl. unfold nonempty. rewrite filter_cons_False by (intros Hn; by apply Hn).
    apply nonempty_split_join. eapply Forall_impl; [exact Hs|by intros ? (? & _ & ? & _)]. }
  rewrite (proj2 (existsb_false _ _)); [done|]. eapply Forall_impl; [exact Hs|by intros ? (_ & ? & _)].
Qed.

(** *** Windows *)

Lemma windows_name_split segs : Forall windows_name segs → Forall (λ s, s ≠ [] ∧ BS ∉ s) segs.
Proof. intros Hs. eapply Forall_impl; [exact Hs|by intros ? (? & _ & _ & ? & _)]. Qed.
Lemma windows_name_free segs : Forall windows_name segs → Forall (λ s, BS ∉ s) segs.
Proof. intros Hs. eapply Forall_impl; [exact Hs|by intros ? (_ & _ & _ & ? & _)]. Qed.
Lemma windows_name_dot segs : Forall windows_name segs → existsb is_dot segs = false.
Proof. intros Hs. apply existsb_false. eapply Forall_impl; [exact Hs|by intros ? (_ & ? & _)]. Qed.
Lemma windows_name_bad segs : Forall windows_name segs → existsb bad_name segs = false.
Proof.
  intros Hs. apply existsb_false. eapply Forall_impl; [exact Hs|by intros ? (_ & _ & _ & _ & ? & _)].
Qed.
Lemma windows_name_variable segs : Forall windows_name segs → existsb names_variable segs = false.
Proof.
  intros Hs. apply existsb_false. eapply Forall_impl; [exact Hs|by intros ? (_ & _ & _ & _ & _ & ?)].
Qed.

Lemma windows_join_free x segs :
  x = SL ∨ x = 0%N → Forall windows_name segs → x ∉ join BS segs.
Proof.
  intros Hx Hs. apply join_without; [by destruct Hx; subst|]. eapply Forall_impl; [exact Hs|].
  intros s (_ & _ & Hsl & _ & Hbad & _). destruct Hx as [-> | ->]; [done|]. intros Hin.
  apply orb_false_iff in Hbad as [Hbad _]. rewrite existsb_false, Forall_forall in Hbad.
  by specialize (Hbad _ Hin).
Qed.

(** The names of a Windows path all come from the text normalised. *)
Lemma windows_names_of t segs :
  names_variable t = false → SL ∉ t → existsb bad_name segs = false → existsb is_dot segs = false →
  (∀ s, s ∈ segs → s ≠ [] ∧ s ∈ split BS t) → Forall windows_name segs.
Proof.
  intros Hv HSL Hbad Hdot Hin. rewrite existsb_false, Forall_forall in Hbad.
  rewrite existsb_false, Forall_forall in Hdot. apply Forall_forall. intros s Hs.
  destruct (Hin s Hs) as [Hn Hsp]. split_and!; auto.
  - intros Hc. by destruct (elem_of_split _ _ _ _ Hsp Hc).
  - intros Hc. by destruct (elem_of_split _ _ _ _ Hsp Hc).
  - rewrite <- (join_split BS t), names_variable_join in Hv by apply BS_plain.
    rewrite existsb_false, Forall_forall in Hv. by apply Hv.
Qed.

Lemma names_variable_drop k t : names_variable t = false → names_variable (drop k t) = false.
Proof.
  revert k. induction t as [|c t IH]; intros [|k]; try done. simpl.
  intros [_ Ht]%orb_false_iff. by apply IH.
Qed.

Lemma names_variable_BS t : names_variable (BS :: t) = names_variable t.
Proof. done. Qed.

Lemma drop_backslashes_drop t : ∃ k, drop_backslashes t = drop k t.
Proof.
  induction t as [|c t [k IH]]; simpl; [by exists 0|]. case_decide; [by exists (S k)|by exists 0].
Qed.

(** What is read after the conversions names no variable and holds no slash. *)
Lemma prepared_plain t :
  names_variable t = false → SL ∉ t →
  let p := two_backslashes (drop_drive_slash t) in names_variable p = false ∧ SL ∉ p.
Proof.
  intros Hv HSL.
  assert (∀ k, names_variable (drop k t) = false ∧ SL ∉ drop k t) as Hdrop.
  { intros k. split; [by apply names_variable_drop|]. intros Hc. apply HSL.
    rewrite <- (take_drop k t). apply elem_of_app. by right. }
  assert (∃ k, drop_drive_slash t = drop k t) as [k ->].
  { unfold drop_drive_slash. destruct t as [|b [|l [|c a]]]; [by exists 0..|].
    case_match; [by exists 1|by exists 0]. }
  unfold two_backslashes. destruct (drop_backslashes_drop (drop k t)) as [k' ->].
  rewrite drop_drop. destruct (Hdrop (k + k')). case_bool_decide; [|by apply Hdrop].
  split; [done|]. rewrite !elem_of_cons. by intros [?|[?|?]].
Qed.

Lemma is_letter_upper l : is_letter l = true → is_upper_letter (ascii_upper l) = true.
Proof.
  unfold is_letter, is_upper_letter, ascii_upper, in_range.
  rewrite orb_true_iff, !andb_true_iff, !N.leb_le. change (ch "A"%char) with 65%N.
  change (ch "Z"%char) with 90%N. change (ch "a"%char) with 97%N. change (ch "z"%char) with 122%N.
  intros Hl. case_match eqn:E; rewrite ?andb_true_iff, ?andb_false_iff, ?N.leb_le, ?N.leb_gt in E; lia.
Qed.

Lemma upper_not_BS l : is_upper_letter l = true → l ≠ BS ∧ l ≠ PERCENT ∧ l ≠ SL.
Proof. intros Hl. split_and!; intros ->; done. Qed.

(** The two shapes [split_root] gives. *)
Lemma split_root_ok p root rest :
  split_root p = inr (root, rest) →
  (∃ l, is_upper_letter l = true ∧ root = [l; COLON; BS] ∧ ∃ k, rest = drop k p) ∨
  (∃ server share, server ≠ [] ∧ share ≠ [] ∧ BS ∉ server ∧ BS ∉ share ∧
     root = BS :: BS :: server ++ BS :: share ∧
     ∃ parts, split BS (drop 2 p) = server :: share :: parts ∧ rest = join BS parts).
Proof.
  unfold split_root. destruct p as [|l [|c after]]; [by repeat case_match..|].
  destruct (is_letter l && bool_decide (c = COLON)) eqn:Hd.
  { case_match; [done|]. intros [= <- <-]. left. apply andb_true_iff in Hd as [Hl _].
    exists (ascii_upper l). split_and!; [by apply is_letter_upper|done|]. by exists 2. }
  destruct (startsWith [BS; BS] _); [|by case_match]. cbv zeta.
  pose proof (split_no_sep BS (drop 2 (l :: c :: after))) as Hsep.
  destruct (split BS (drop 2 (l :: c :: after))) as [|server [|share parts]]; cbn [nth drop].
  1,2: rewrite (bool_decide_eq_true_2 (@nil unit_ = [])), ?orb_true_r by done; by repeat case_match.
  case_match; [done|]. case_match eqn:Hempty; [done|].
  intros [= <- <-]. right. apply orb_false_iff in Hempty as [Hs1 Hs2].
  apply bool_decide_eq_false in Hs1, Hs2.
  inversion Hsep as [|? ? ? Hsep']; subst. inversion Hsep'; subst.
  exists server, share. split_and!; try done. by exists parts.
Qed.

Lemma endsWith_app c t s : s ≠ [] → endsWith c (t ++ s) = endsWith c s.
Proof. intros Hs. unfold endsWith. rewrite last_app. by destruct (last s) eqn:E; [|apply last_None in E]. Qed.

Lemma endsWith_free c s : c ∉ s → endsWith c s = false.
Proof. intros Hs. apply bool_decide_eq_false. intros Hl. by apply last_Some_elem_of in Hl. Qed.

Lemma split_two s1 s2 : BS ∉ s1 → BS ∉ s2 → split BS (s1 ++ BS :: s2) = [s1; s2].
Proof. intros H1 H2. by rewrite split_app, !split_free. Qed.

Lemma under_root_ok p root rest p' :
  names_variable p = false → SL ∉ p → split_root p = inr (root, rest) →
  under_root root rest = ok p' → host_path windows p'.
Proof.
  intros Hv HSL Hr. unfold under_root. set (segs := nonempty (split BS rest)).
  destruct (existsb is_dot _) eqn:Hdot; [done|]. destruct (existsb bad_name _) eqn:Hbad; [done|].
  rewrite existsb_app in Hdot, Hbad. apply orb_false_iff in Hdot as [Hdr Hds], Hbad as [Hbr Hbs].
  assert (∀ s, s ∈ segs → s ≠ [] ∧ s ∈ split BS rest) as Hsegs.
  { by intros s [? ?]%list_elem_of_filter. }
  destruct (split_root_ok _ _ _ Hr)
    as [(l & Hl & -> & k & Hrest)|(server & share & Hn1 & Hn2 & Hf1 & Hf2 & -> & parts & Hp & Hrest)].
  - assert (Forall windows_name segs) as Hall.
    { apply (windows_names_of rest); [| |done|done|done]; subst rest.
      - by apply names_variable_drop.
      - intros Hc. apply HSL. rewrite <- (take_drop k p). apply elem_of_app. by right. }
    case_bool_decide as He; intros [= <-].
    + by apply (windows_drive l []); [|constructor].
    + by apply (windows_drive l segs).
  - assert (drop 2 (BS :: BS :: server ++ BS :: share) = server ++ BS :: share) as Hdrop by done.
    rewrite Hdrop, split_two in Hdr by done.
    assert (is_unc (BS :: BS :: server ++ BS :: share) = true) as Hu.
    { apply bool_decide_eq_true. by exists (server ++ BS :: share). }
    rewrite Hu, Hdrop, split_two in Hbr by done.
    assert (Forall windows_name (server :: share :: segs)) as Hall.
    { apply (windows_names_of (drop 2 p)).
      - by apply names_variable_drop.
      - intros Hc. apply HSL. rewrite <- (take_drop 2 p). apply elem_of_app. by right.
      - change (server :: share :: segs) with ([server; share] ++ segs).
        rewrite existsb_app. apply orb_false_iff. by split.
      - change (server :: share :: segs) with ([server; share] ++ segs).
        rewrite existsb_app. apply orb_false_iff. by split.
      - rewrite Hp. intros s [->|[->|Hs]%elem_of_cons]%elem_of_cons; [split; [done|]..|].
        + by left.
        + right. by left.
        + destruct (Hsegs s Hs) as [Hne Hin]. split; [done|]. right. right. subst rest.
          destruct parts as [|q qs]; [by apply list_elem_of_singleton in Hin|].
          rewrite split_join in Hin; [done|done|].
          pose proof (split_no_sep BS (drop 2 p)) as Hsep. rewrite Hp in Hsep.
          by inversion Hsep as [|? ? ? Hsep']; inversion Hsep'. }
    case_bool_decide as He; intros [= <-].
    + rewrite He in Hall. by apply (windows_unc server share []).
    + assert (endsWith BS (BS :: BS :: server ++ BS :: share) = false) as ->.
      { change (BS :: BS :: server ++ BS :: share) with ([BS; BS] ++ server ++ [BS] ++ share).
        rewrite !app_assoc, endsWith_app by done. by apply endsWith_free. }
      match goal with |- host_path _ ?x => assert (x = unc_path (server :: share :: segs)) as -> end;
        [|by constructor].
      unfold unc_path. rewrite !join_cons by done. simpl. by rewrite <- app_assoc.
Qed.

Lemma normalise_windows_ok p p' : normaliseHostPath p windows = ok p' → host_path windows p'.
Proof.
  unfold normaliseHostPath. case_bool_decide; [done|]. destruct (includes 0%N p); [done|].
  unfold normaliseWindowsPath. destruct (names_variable p) eqn:Hv; [done|].
  case_bool_decide; [intros [= <-]; constructor|].
  destruct (prepared_plain (slash_to_backslash p)) as [Hv' HSL'];
    [by rewrite names_variable_windows|apply SL_not_windows|].
  destruct (split_root _) as [?|[root rest]] eqn:Hr; [done|]. by eapply under_root_ok.
Qed.

Lemma windows_join_variable segs : Forall windows_name segs → names_variable (join BS segs) = false.
Proof. intros Hs. rewrite names_variable_join by apply BS_plain. by apply windows_name_variable. Qed.

Lemma nonempty_BS t : nonempty (split BS (BS :: t)) = nonempty (split BS t).
Proof. simpl. unfold nonempty. by rewrite filter_cons_False by (intros Hn; by apply Hn). Qed.

Lemma is_unc_not l t : l ≠ BS → is_unc (l :: t) = false.
Proof. intros Hl. apply bool_decide_eq_false. intros [k Hk]. by injection Hk. Qed.

Lemma two_backslashes_id p n :
  p = replicate n BS ++ drop_backslashes p → n < 3 → two_backslashes p = p.
Proof.
  intros Hp Hn. unfold two_backslashes. rewrite bool_decide_eq_false_2; [done|].
  intros [Hlen _]. rewrite Hp in Hlen at 1. rewrite length_app, length_replicate in Hlen. lia.
Qed.

(** Past the conversions, a path in its form comes apart into its root and its names. *)
Lemma drive_root l segs : is_upper_letter l = true → Forall windows_name segs →
  split_root (two_backslashes (drop_drive_slash (drive_path l segs))) =
    inr ([l; COLON; BS], BS :: join BS segs).
Proof.
  intros Hl Hs. destruct (upper_not_BS l Hl) as (HB & _ & _).
  assert (drop_backslashes (drive_path l segs) = drive_path l segs) as Hd.
  { simpl. by rewrite decide_False. }
  assert (drop_drive_slash (drive_path l segs) = drive_path l segs) as ->.
  { simpl. by rewrite bool_decide_eq_false_2. }
  rewrite (two_backslashes_id _ 0) by (by rewrite ?Hd || lia). unfold split_root, drive_path.
  assert (is_letter l = true) as ->.
  { unfold is_letter. unfold is_upper_letter in Hl. by rewrite Hl. }
  rewrite (bool_decide_eq_true_2 (COLON = COLON)) by done. cbn [andb].
  rewrite startsWith_cons, (bool_decide_eq_true_2 (BS = BS)) by done. rewrite andb_false_r.
  do 3 f_equal.
  unfold ascii_upper. case_match eqn:E; [|done]. exfalso. revert Hl E.
  unfold is_upper_letter, in_range. rewrite !andb_true_iff, !N.leb_le.
  change (ch "Z"%char) with 90%N. change (ch "a"%char) with 97%N. lia.
Qed.

Lemma unc_root server share segs : Forall windows_name (server :: share :: segs) →
  split_root (two_backslashes (drop_drive_slash (unc_path (server :: share :: segs)))) =
    inr (BS :: BS :: server ++ BS :: share, join BS segs).
Proof.
  intros Hs. pose proof (windows_name_free _ Hs) as Hfree.
  inversion Hs as [|? ? Hserver Hs']; subst. inversion Hs' as [|? ? Hshare _]; subst.
  destruct Hserver as (Hn1 & Hd1 & _ & Hf1 & Hb1 & _), Hshare as (Hn2 & _ & _ & Hf2 & _ & _).
  assert (∃ x t, join BS (server :: share :: segs) = x :: t ∧ x ≠ BS) as (x & t & Hj & Hx).
  { rewrite join_cons by done. destruct server as [|x t]; [done|]. exists x. eexists. split; [done|].
    intros ->. apply Hf1. by left. }
  assert (drop_drive_slash (unc_path (server :: share :: segs)) = unc_path (server :: share :: segs)) as ->.
  { unfold unc_path. rewrite Hj. simpl. by destruct t. }
  rewrite (two_backslashes_id _ 2); [|unfold unc_path; rewrite Hj; simpl; by rewrite decide_False|lia].
  unfold split_root, unc_path. cbv beta iota. change (is_letter BS) with false. cbn [andb].
  assert (startsWith [BS; BS] (BS :: BS :: join BS (server :: share :: segs)) = true) as ->
    by (apply bool_decide_eq_true; by eexists).
  change (drop 2 (BS :: BS :: join BS (server :: share :: segs))) with (join BS (server :: share :: segs)).
  rewrite split_join by done. cbn [nth drop].
  assert (bool_decide (server = txt "?") = false) as ->.
  { apply bool_decide_eq_false. by intros ->. }
  assert (bool_decide (server = txt ".") = false) as ->.
  { apply bool_decide_eq_false. by intros ->. }
  rewrite !bool_decide_eq_false_2 by done. done.
Qed.

Lemma under_drive l segs : is_upper_letter l = true → Forall windows_name segs →
  under_root [l; COLON; BS] (BS :: join BS segs) = ok (drive_path l segs).
Proof.
  intros Hl Hs. destruct (upper_not_BS l Hl) as (HB & _ & _). unfold under_root.
  rewrite nonempty_BS, nonempty_split_join by (by apply windows_name_split).
  change (split BS (drop 2 [l; COLON; BS])) with ([[]; []] : list text).
  rewrite existsb_app, (windows_name_dot segs), is_unc_not by done.
  change (existsb is_dot [[]; []]) with false. cbn [orb app].
  rewrite windows_name_bad by done. case_bool_decide; [by subst|]. done.
Qed.

Lemma under_unc server share segs : Forall windows_name (server :: share :: segs) →
  under_root (BS :: BS :: server ++ BS :: share) (join BS segs) = ok (unc_path (server :: share :: segs)).
Proof.
  intros Hs. pose proof (windows_name_free _ Hs) as Hfree.
  inversion Hfree as [|? ? Hf1 Hfree']; subst. inversion Hfree' as [|? ? Hf2 Hf]; subst.
  assert (Forall windows_name segs) as Hsegs by (by inversion Hs as [|? ? _ Hs']; inversion Hs').
  assert (windows_name share) as (Hn2 & _) by (by inversion Hs as [|? ? _ Hs']; inversion Hs').
  unfold under_root. rewrite nonempty_split_join by (by apply windows_name_split).
  change (drop 2 (BS :: BS :: server ++ BS :: share)) with (server ++ BS :: share).
  rewrite split_two by done.
  assert (is_unc (BS :: BS :: server ++ BS :: share) = true) as ->.
  { apply bool_decide_eq_true. by eexists. }
  change ([server; share] ++ segs) with (server :: share :: segs).
  rewrite (windows_name_dot (server :: share :: segs)), (windows_name_bad (server :: share :: segs)) by done.
  assert (endsWith BS (BS :: BS :: server ++ BS :: share) = false) as ->.
  { change (BS :: BS :: server ++ BS :: share) with ([BS; BS] ++ server ++ [BS] ++ share).
    rewrite !app_assoc, endsWith_app by done. by apply endsWith_free. }
  case_bool_decide; [by subst|]. unfold unc_path. rewrite !join_cons by done. f_equal.
  simpl. by rewrite <- app_assoc.
Qed.

Lemma normalise_windows_id p : host_path windows p → normaliseHostPath p windows = ok p.
Proof.
  inversion 1 as [|  | l segs Hl Hs | server share segs Hs]; subst; [done|..]; unfold normaliseHostPath.
  - destruct (upper_not_BS l Hl) as (HB & HP & HS).
    assert (∀ x, x = SL ∨ x = 0%N → x ∉ drive_path l segs) as Hfree.
    { intros x Hx. unfold drive_path. rewrite !elem_of_cons. pose proof (windows_join_free x segs Hx Hs).
      intros [->|[->|[->|?]]]; [|by destruct Hx..|done]. by destruct Hx as [->| ->]. }
    rewrite bool_decide_eq_false_2 by done. unfold includes.
    rewrite bool_decide_eq_false_2 by (apply Hfree; auto). unfold normaliseWindowsPath.
    assert (names_variable (drive_path l segs) = false) as ->.
    { change (drive_path l segs) with ([l; COLON] ++ BS :: join BS segs).
      rewrite names_variable_app, windows_join_variable, orb_false_r by (done || apply BS_plain).
      simpl. by rewrite bool_decide_eq_false_2. }
    rewrite slash_to_backslash_id by (apply Hfree; auto).
    rewrite bool_decide_eq_false_2 by (simpl; rewrite decide_False by done; by intros [_ ?]).
    rewrite drive_root by done. by apply under_drive.
  - set (p := unc_path (server :: share :: segs)).
    assert (∀ x, x = SL ∨ x = 0%N → x ∉ p) as Hfree.
    { intros x Hx. unfold p, unc_path. rewrite !elem_of_cons.
      pose proof (windows_join_free x _ Hx Hs). intros [->|[->|?]]; [by destruct Hx..|done]. }
    rewrite bool_decide_eq_false_2 by done. unfold includes.
    rewrite bool_decide_eq_false_2 by (apply Hfree; auto). unfold normaliseWindowsPath.
    assert (names_variable p = false) as -> by (by apply windows_join_variable).
    rewrite slash_to_backslash_id by (apply Hfree; auto).
    rewrite bool_decide_eq_false_2.
    + unfold p. rewrite unc_root by done. by apply under_unc.
    + intros [_ Hd]. inversion Hs as [|? ? (Hn & _ & _ & Hf & _) _]; subst. unfold p, unc_path in Hd.
      rewrite join_cons in Hd by done. destruct server as [|x t]; [done|]. simpl in Hd.
      rewrite decide_False in Hd; [done|]. intros ->. apply Hf. by left.
Qed.

(** *** Joining, naming and climbing *)

Lemma slice_last c t s : c ∉ s →
  slice_after_last c (t ++ c :: s) = s ∧ slice_before_last c (t ++ c :: s) = t.
Proof.
  intros Hs. unfold slice_after_last, slice_before_last. rewrite lastIndexOf_app by done.
  rewrite take_app_length, drop_app_ge by lia. replace (S (length t) - length t) with 1 by lia. done.
Qed.

Lemma join_ends c segs :
  Forall (λ s, s ≠ [] ∧ c ∉ s) segs → segs ≠ [] → join c segs ≠ [] ∧ endsWith c (join c segs) = false.
Proof.
  intros Hs Hn. destruct (last segs) as [s|] eqn:Hl; [|by apply last_None in Hl].
  apply last_Some in Hl as [init ->]. apply Forall_app in Hs as [_ Hs].
  apply Forall_singleton in Hs as [Hsn Hsc].
  destruct init as [|s0 init]; [by split; [|apply endsWith_free]|].
  rewrite join_snoc by done. split; [by destruct (join c (s0 :: init))|].
  change (c :: s) with ([c] ++ s). rewrite app_assoc, endsWith_app by done. by apply endsWith_free.
Qed.
End paths.

(** What a client may join onto a folder: a name, or a drive onto the root that holds the drives. *)
Definition child_name (style : PathStyle) (dir n : text) : Prop :=
  match style with
  | posix => posix_name n
  | windows =>
      if decide (dir = WINDOWS_ROOT) then ∃ l, is_upper_letter l = true ∧ n = [l; COLON]
      else windows_name n
  end.

Section climbing.
Context (toUpperCase : text → text).
(** Upper-casing leaves a capital letter as it is. *)
Context (toUpperCase_capital : ∀ l, is_upper_letter l = true → toUpperCase [l] = [l]).
Implicit Types (p dir n : text) (segs : list text).

Definition climbs (style : PathStyle) (dir n p : text) : Prop :=
  host_path style p ∧ parentOf p style = Some dir ∧ baseNameOf p style = n.

Lemma climbs_posix segs n : Forall posix_name segs → posix_name n →
  let dir := SL :: join SL segs in
  joinHostPath toUpperCase dir n posix = SL :: join SL (segs ++ [n]) ∧
  climbs posix dir n (SL :: join SL (segs ++ [n])).
Proof.
  intros Hs Hn. pose proof Hn as (Hne & _ & HSL & _). simpl.
  assert (host_path posix (SL :: join SL (segs ++ [n]))) as Hp by (constructor; by apply Forall_app_2; [|constructor]).
  unfold climbs, parentOf, baseNameOf. destruct segs as [|s segs].
  - cbn [join app] in *. rewrite (bool_decide_eq_true_2 ([SL] = [SL])) by done.
    assert (SL :: n ≠ [SL]) by (by destruct n). rewrite !(bool_decide_eq_false_2 (SL :: n = [SL])) by done.
    destruct (slice_last SL [] n HSL) as [Ha _]. simpl in Ha.
    rewrite (bool_decide_eq_true_2 (lastIndexOf SL (SL :: n) = Some 0)) by (by apply (lastIndexOf_app SL [] n)).
    by split_and!.
  - assert (Forall (λ s, s ≠ [] ∧ SL ∉ s) (s :: segs)) as Hs'.
    { eapply Forall_impl; [exact Hs|by intros ? (? & _ & ? & _)]. }
    destruct (join_ends SL (s :: segs) Hs') as [Hj _]; [done|].
    assert (SL :: join SL (s :: segs) ≠ [SL]) by congruence.
    rewrite (bool_decide_eq_false_2 (SL :: join SL (s :: segs) = [SL])) by done.
    rewrite join_snoc by done.
    change (SL :: join SL (s :: segs) ++ SL :: n) with ((SL :: join SL (s :: segs)) ++ SL :: n).
    rewrite join_snoc in Hp by done.
    assert ((SL :: join SL (s :: segs)) ++ SL :: n ≠ [SL]) by (by destruct (join SL (s :: segs))).
    rewrite !bool_decide_eq_false_2; [|by rewrite lastIndexOf_app|done].
    destruct (slice_last SL (SL :: join SL (s :: segs)) n HSL) as [-> ->]. by split_and!.
Qed.

Lemma climbs_root l : is_upper_letter l = true →
  joinHostPath toUpperCase WINDOWS_ROOT [l; COLON] windows = drive_path l [] ∧
  climbs windows WINDOWS_ROOT [l; COLON] (drive_path l []).
Proof.
  intros Hl. destruct (upper_not_BS l Hl) as (HB & _ & _).
  assert (l ≠ COLON) by (by intros ->).
  assert (without_drive_end [l; COLON] = [l]) as Hw.
  { unfold without_drive_end. simpl. rewrite decide_False; [done|]. tauto. }
  unfold joinHostPath. rewrite (bool_decide_eq_true_2 (WINDOWS_ROOT = WINDOWS_ROOT)) by done.
  rewrite Hw, toUpperCase_capital by done. split; [done|]. split; [by constructor|].
  unfold parentOf, baseNameOf, drive_path. simpl.
  rewrite !bool_decide_eq_false_2 by (by intros [=]). by rewrite Hl.
Qed.

Lemma climbs_drive l segs n : is_upper_letter l = true → Forall windows_name segs → windows_name n →
  joinHostPath toUpperCase (drive_path l segs) n windows = drive_path l (segs ++ [n]) ∧
  climbs windows (drive_path l segs) n (drive_path l (segs ++ [n])).
Proof.
  intros Hl Hs Hn. pose proof Hn as (Hne & _ & _ & HB & _). destruct (upper_not_BS l Hl) as (HlB & _ & _).
  assert (host_path windows (drive_path l (segs ++ [n]))) as Hp.
  { constructor; [done|]. by apply Forall_app_2; [|constructor]. }
  assert (∀ segs', drive_path l segs' ≠ WINDOWS_ROOT) as Hroot by done.
  assert (is_drive_root (drive_path l (segs ++ [n])) = false) as Hdr.
  { unfold drive_path. destruct (join_ends BS (segs ++ [n])) as [Hj _].
    - apply windows_name_split. by apply Forall_app_2; [|constructor].
    - by destruct segs.
    - by destruct (join BS (segs ++ [n])). }
  assert (is_share_root (drive_path l (segs ++ [n])) = false) as Hsr.
  { unfold is_share_root, drive_path. by rewrite is_unc_not. }
  unfold climbs, parentOf, baseNameOf, joinHostPath.
  rewrite !(bool_decide_eq_false_2 (_ = WINDOWS_ROOT)), Hdr, Hsr by done.
  destruct segs as [|s segs].
  - change (drive_path l ([] ++ [n])) with ([l; COLON] ++ BS :: n).
    destruct (slice_last BS [l; COLON] n HB) as [-> ->]. cbn [is_drive].
    rewrite Hl. by split_and!.
  - destruct (join_ends BS (s :: segs) (windows_name_split _ Hs)) as [Hj He]; [done|].
    assert (drive_path l ((s :: segs) ++ [n]) = drive_path l (s :: segs) ++ BS :: n) as Heq.
    { unfold drive_path. by rewrite join_snoc. }
    assert (endsWith BS (drive_path l (s :: segs)) = false) as ->.
    { unfold drive_path. change (l :: COLON :: BS :: join BS (s :: segs)) with ([l; COLON; BS] ++ join BS (s :: segs)).
      by rewrite endsWith_app. }
    rewrite Heq in *. destruct (slice_last BS (drive_path l (s :: segs)) n HB) as [-> ->].
    assert (is_drive (drive_path l (s :: segs)) = false) as -> by done. by split_and!.
Qed.

Lemma climbs_unc server share segs n :
  Forall windows_name (server :: share :: segs) → windows_name n →
  let names := server :: share :: segs in
  joinHostPath toUpperCase (unc_path names) n windows = unc_path (names ++ [n]) ∧
  climbs windows (unc_path names) n (unc_path (names ++ [n])).
Proof.
  intros Hs Hn names. pose proof Hn as (Hne & _ & _ & HB & _).
  assert (Forall windows_name (names ++ [n])) as Hall by (by apply Forall_app_2; [|constructor]).
  assert (host_path windows (unc_path (names ++ [n]))) as Hp by (by apply (windows_unc server share (segs ++ [n]))).
  assert (∀ ns, is_drive_root (unc_path ns) = false ∧ is_drive (unc_path ns) = false) as Hdr.
  { intros ns. unfold unc_path. by destruct (join BS ns) as [|? [|? ?]]. }
  assert (is_share_root (unc_path (names ++ [n])) = false) as Hsr.
  { unfold is_share_root. change (drop 2 (unc_path (names ++ [n]))) with (join BS (names ++ [n])).
    rewrite split_join by (done || by apply windows_name_free). unfold names. simpl.
    rewrite andb_comm. by destruct segs. }
  destruct (join_ends BS names (windows_name_split _ Hs)) as [Hj He]; [done|].
  assert (endsWith BS (unc_path names) = false) as Hend.
  { unfold unc_path. change (BS :: BS :: join BS names) with ([BS; BS] ++ join BS names).
    by rewrite endsWith_app. }
  unfold climbs, parentOf, baseNameOf, joinHostPath.
  rewrite !(bool_decide_eq_false_2 (_ = WINDOWS_ROOT)), (proj1 (Hdr _)), Hsr, Hend by done.
  assert (unc_path (names ++ [n]) = unc_path names ++ BS :: n) as Heq.
  { unfold unc_path. by rewrite join_snoc. }
  rewrite Heq in *. destruct (slice_last BS (unc_path names) n HB) as [-> ->].
  rewrite (proj2 (Hdr _)). by split_and!.
Qed.

Lemma climbs_join style dir n : host_path style dir → child_name style dir n →
  climbs style dir n (joinHostPath toUpperCase dir n style).
Proof.
  intros Hd Hn. destruct Hd as [segs Hs| |l segs Hl Hs|server share segs Hs]; unfold child_name in Hn.
  - destruct (climbs_posix segs n Hs Hn) as [-> ?]. done.
  - rewrite decide_True in Hn by done. destruct Hn as (l & Hl & ->). destruct (climbs_root l Hl) as [-> ?]. done.
  - rewrite decide_False in Hn by done. by destruct (climbs_drive l segs n Hl Hs Hn) as [-> ?].
  - rewrite decide_False in Hn by done. by destruct (climbs_unc server share segs n Hs Hn) as [-> ?].
Qed.

(** Every path but a root is a name joined onto its parent. *)
Lemma climbs_any style p d : host_path style p → parentOf p style = Some d →
  ∃ n, host_path style d ∧ child_name style d n ∧ joinHostPath toUpperCase d n style = p ∧
    baseNameOf p style = n.
Proof.
  intros Hp Hd.
  cut (∃ dir n, host_path style dir ∧ child_name style dir n ∧
         joinHostPath toUpperCase dir n style = p).
  { intros (dir & n & Hdir & Hn & Hj). destruct (climbs_join style dir n Hdir Hn) as (_ & Hpar & Hbase).
    rewrite Hj, Hd in Hpar. injection Hpar as ->. exists n. by rewrite <- Hj at 2. }
  destruct Hp as [segs Hs| |l segs Hl Hs|server share segs Hs].
  - destruct segs as [|n init _] using rev_ind; [done|]. apply Forall_app in Hs as [Hi Hn].
    apply Forall_cons in Hn as [Hn _]. exists (SL :: join SL init), n. split_and!; [by apply posix_path|done|].
    by destruct (climbs_posix init n Hi Hn) as [-> _].
  - done.
  - destruct segs as [|n init _] using rev_ind.
    + exists WINDOWS_ROOT, [l; COLON]. split_and!; [constructor|by exists l|]. by apply climbs_root.
    + apply Forall_app in Hs as [Hi Hn]. apply Forall_cons in Hn as [Hn _].
      exists (drive_path l init), n. split_and!; [by constructor|unfold child_name; by rewrite decide_False|].
      by destruct (climbs_drive l init n Hl Hi Hn) as [-> _].
  - destruct segs as [|n init _] using rev_ind.
    + exfalso. revert Hd. unfold parentOf. rewrite bool_decide_eq_false_2 by done.
      assert (is_drive_root (unc_path [server; share]) = false) as ->.
      { unfold unc_path. by destruct (join BS [server; share]) as [|? [|? ?]]. }
      assert (is_share_root (unc_path [server; share]) = true) as ->; [|done].
      unfold is_share_root. change (drop 2 (unc_path [server; share])) with (join BS [server; share]).
      rewrite split_join by (done || by apply windows_name_free).
      inversion Hs as [|? ? (? & _) Hs']; subst. inversion Hs' as [|? ? (? & _) _]; subst.
      rewrite !bool_decide_eq_true_2 by done. rewrite !andb_true_r. apply bool_decide_eq_true. by eexists.
    + rewrite !app_comm_cons in Hs. apply Forall_app in Hs as [Hi Hn]. apply Forall_cons in Hn as [Hn _].
      exists (unc_path (server :: share :: init)), n.
      split_and!; [by constructor|unfold child_name; by rewrite decide_False|].
      by destruct (climbs_unc server share init n Hi Hn) as [-> _].
Qed.
End climbing.

(** ** Properties *)

(** C37: What [normaliseHostPath] gives is a path of one form: on POSIX a slash and names between
    slashes; on Windows the root of the drives, a drive's root or a share, and names under it; no
    name of it empty, a dot segment, or holding a separator, a NUL or what Windows forbids. A path
    of that form is the one it gives for itself, so that normalising twice is normalising once, and
    a path is accepted as it stands exactly when it is of that form. *)
Theorem normalised_paths p p' style :
  (normaliseHostPath p style = ok p' → host_path style p' ∧ normaliseHostPath p' style = ok p') ∧
  (host_path style p ↔ normaliseHostPath p style = ok p).
Proof.
  assert (∀ q q', normaliseHostPath q style = ok q' → host_path style q') as Hok.
  { intros q q'. destruct style; [apply normalise_posix_ok|apply normalise_windows_ok]. }
  assert (∀ q, host_path style q → normaliseHostPath q style = ok q) as Hid.
  { intros q Hq. destruct style; [by apply normalise_posix_id|by apply normalise_windows_id]. }
  split; [|split; eauto]. intros Hp%Hok. auto.
Qed.

(** Paths go up as they went down. From a folder in its form, joining a name the host may have
    (or a drive, onto the root of the drives) gives a path in its form, whose parent is that folder
    and whose last name is that name; and every path in its form is its last name joined onto its
    parent, or has none and is a root. *)
Theorem join_then_climb toUpperCase style :
  (∀ l, is_upper_letter l = true → toUpperCase [l] = [l]) →
  (∀ dir n, host_path style dir → child_name style dir n →
     let p := joinHostPath toUpperCase dir n style in
     host_path style p ∧ parentOf p style = Some dir ∧ baseNameOf p style = n) ∧
  (∀ p, host_path style p →
     match parentOf p style with
     | Some d => host_path style d ∧ child_name style d (baseNameOf p style) ∧
                 joinHostPath toUpperCase d (baseNameOf p style) style = p
     | None => p = [SL] ∨ is_share_root p = true
     end).
Proof.
  intros Hup. split; [by intros; apply climbs_join|]. intros p Hp.
  destruct (parentOf p style) as [d|] eqn:Hd.
  - by destruct (climbs_any _ Hup style p d Hp Hd) as (n & ? & ? & ? & ->).
  - unfold parentOf in Hd. destruct style; repeat case_bool_decide; try done; auto.
    destruct (is_drive_root p); [done|]. destruct (is_share_root p); [by right|done].
Qed.

Definition shout (t : text) : text := ascii_upper <$> t.
Lemma join_then_climb_witness :
  normaliseHostPath (txt "//srv/share//a/b\\\") windows = ok (txt "\\srv\share\a\b") ∧
  normaliseHostPath (txt "c:/temp/../x") windows = refused dot_segment ∧
  parentOf (joinHostPath shout (txt "\\srv\share\a") (txt "b") windows) windows = Some (txt "\\srv\share\a").
Proof.
  split_and!; [reflexivity|reflexivity|].
  apply (join_then_climb shout windows).
  - intros l Hl. unfold shout, ascii_upper. simpl. f_equal. case_match eqn:E; [|done]. exfalso.
    revert Hl E. unfold is_upper_letter, in_range. rewrite !andb_true_iff, !N.leb_le.
    change (ch "Z"%char) with 90%N. change (ch "a"%char) with 97%N. lia.
  - apply (windows_unc (txt "srv") (txt "share") [txt "a"]). repeat constructor; try done.
    all: apply (bool_decide_unpack _); vm_compute; exact I.
  - unfold child_name. rewrite decide_False by done. split_and!; try done.
    all: apply (bool_decide_unpack _); vm_compute; exact I.
Defined.
