(* ===== verification/UploadTree.v ===== *)
(** * The tree of an upload ([packages/hub/src/transfers/upload-tree.ts] and the rules on names of
      [packages/shared/src/transfer-protocol.ts])

    The whole tree is checked before a byte moves, and built. The request is what a client sent, so
    its fields are values of any kind. The hash of the signature is a parameter, as is JavaScript's
    [toUpperCase]. *)

From Stdlib Require Import Ascii.
From stdpp Require Import sorting strings pretty.
From S2P Require Import Prelude JsMap Text HostPaths.
#[local] Open Scope lasterm_scope.

(** ** The names a host takes *)

Definition TRANSFER_MAX_FILES : nat := 100 * 1000.
Definition TRANSFER_MAX_ITEMS : nat := 200 * 1000.
Definition TRANSFER_MAX_REL_PATH_LENGTH : nat := 4096.
Definition WINDOWS_MAX_PATH_LENGTH : nat := 259.
Definition MAX_NAME_BYTES : nat := 255.
Definition PROBLEMS_LISTED : nat := 1000.

Definition DOT : unit_ := ch "."%char.

(** A device's name, whatever its case: [CON], [COM1] and the like. *)
Definition is_device (s : text) : bool :=
  let u := ascii_upper <$> s in
  bool_decide (u ∈ txt <$> ["CON"; "PRN"; "AUX"; "NUL"; "CONIN$"; "CONOUT$"]) ||
  match u with
  | [a; b; c; d] =>
      bool_decide ([a; b; c] ∈ txt <$> ["COM"; "LPT"]) &&
      (is_digit d || bool_decide (d ∈ [0xB9; 0xB2; 0xB3]%N))
  | _ => false
  end.

(** [WINDOWS_RESERVED]: a device's name, then nothing or a dot and no line end. *)
Fixpoint until_dot (t : text) : text * option text :=
  match t with
  | [] => ([], None)
  | c :: t =>
      if decide (c = DOT) then ([], Some t)
      else let '(s, r) := until_dot t in (c :: s, r)
  end.
Definition is_reserved (name : text) : bool :=
  let '(stem, rest) := until_dot name in
  is_device stem && forallb (λ c, negb (is_line_end c)) (default [] rest).

Definition WINDOWS_FORBIDDEN_CHARACTERS (c : unit_) : bool :=
  bool_decide (c ∈ 34%N :: txt "<>:/\|?*") || is_control c.

Inductive windows_problem := holds_forbidden | ends_badly | is_a_device.
Definition windowsNameProblem (name : text) : option windows_problem :=
  if existsb WINDOWS_FORBIDDEN_CHARACTERS name then Some holds_forbidden
  else if bool_decide (last name ∈ [Some DOT; Some (ch " "%char)]) then Some ends_badly
  else if is_reserved name then Some is_a_device
  else None.

Inductive rel_problem :=
| path_empty | path_too_long | path_nul | path_not_relative | name_empty | name_dots | name_too_long.
Definition relPathProblem (relPath : text) : option rel_problem :=
  if bool_decide (relPath = []) then Some path_empty
  else if bool_decide (TRANSFER_MAX_REL_PATH_LENGTH < length relPath) then Some path_too_long
  else if includes 0%N relPath then Some path_nul
  else if startsWith [SL] relPath then Some path_not_relative
  else
    let segments := split SL relPath in
    if existsb (λ s, bool_decide (s = [])) segments then Some name_empty
    else if existsb is_dot segments then Some name_dots
    else if existsb (λ s, bool_decide (MAX_NAME_BYTES < utf8_length s)) segments then Some name_too_long
    else None.

(** ** The request *)

(** A value of a field: a number that is an integer is [VInt]. *)
Inductive value := VUndefined | VText (t : text) | VInt (z : Z) | VOther.
#[export] Instance value_eq_dec : EqDecision value.
Proof. solve_decision. Defined.

Record RawItem := { raw_relPath : value; raw_kind : value; raw_size : value; raw_mtime : value }.

Inductive TransferItemKind := file | dir.
#[export] Instance TransferItemKind_eq_dec : EqDecision TransferItemKind.
Proof. solve_decision. Defined.

Definition MAX_SAFE_INTEGER : Z := 2 ^ 53 - 1.

(** [isWholeNumber], with the number. *)
Definition isWholeNumber (v : value) : option Z :=
  match v with
  | VInt z => if decide (0 <= z <= MAX_SAFE_INTEGER)%Z then Some z else None
  | _ => None
  end.

(** The sum of two whole doubles, rounded to 53 bits, ties to even. *)
Definition round53 (z : Z) : Z :=
  if (z <? 2 ^ 53)%Z then z
  else
    let m := (2 ^ (Z.log2 z - 52))%Z in
    let q := (z / m)%Z in
    let r := (z mod m)%Z in
    let up := (m <? 2 * r)%Z || ((m =? 2 * r)%Z && Z.odd q) in
    ((if up then q + 1 else q) * m)%Z.

Inductive problem :=
| not_text | not_a_kind | not_a_size | not_a_time
| bad_path (p : rel_problem)
| path_twice | differs_by_case
| folder_missing | folder_is_a_file
| bad_windows_name (p : windows_problem) | windows_path_too_long (length : nat).

Record NameProblem := Problem { np_relPath : text; np_reason : problem }.

Record Parsed := MkParsed {
  p_relPath : text; p_kind : TransferItemKind; p_size : Z; p_mtime : option Z
}.
#[export] Instance Parsed_eq_dec : EqDecision Parsed.
Proof. solve_decision. Defined.

Record TreeItem := MkItem {
  it_id : nat; it_relPath : text; it_name : text; it_kind : TransferItemKind;
  it_size : Z; it_mtime : option Z; it_parent : option nat; it_children : list nat
}.

Inductive error_code := INVALID_ITEMS | INVALID_NAMES | TOO_MANY_FILES.

(** [problems] is how many there are; the answer lists the first of them. *)
Inductive UploadTree :=
| Built (items : list TreeItem) (order : list nat) (files : nat) (bytes : Z) (signature : text)
| Refused (code : error_code) (problems : nat) (names : list NameProblem).

(** ** Building it *)

(** What one entry's fields say, and why they cannot be taken. *)
Definition relPath_of (item : RawItem) : text :=
  match raw_relPath item with VText t => t | _ => [] end.
Definition kind_of (item : RawItem) : TransferItemKind :=
  if decide (raw_kind item = VText (txt "dir")) then dir else file.
Definition size_of (item : RawItem) : Z :=
  match kind_of item with file => default 0%Z (isWholeNumber (raw_size item)) | dir => 0%Z end.

Definition item_problem (item : RawItem) : option problem :=
  match raw_relPath item with
  | VText relPath =>
      if decide (raw_kind item ≠ VText (txt "file") ∧ raw_kind item ≠ VText (txt "dir")) then
        Some not_a_kind
      else if decide (raw_kind item = VText (txt "file") ∧ isWholeNumber (raw_size item) = None) then
        Some not_a_size
      else if decide (raw_mtime item ≠ VUndefined ∧ isWholeNumber (raw_mtime item) = None) then
        Some not_a_time
      else bad_path <$> relPathProblem relPath
  | _ => Some not_text
  end.

Definition parse (item : RawItem) : Parsed :=
  MkParsed (relPath_of item) (kind_of item) (size_of item) (isWholeNumber (raw_mtime item)).

(** The first loop: the problems of single entries, the entries, the files and their bytes. *)
Record Reading := MkReading {
  structural : list NameProblem; parsed : list Parsed; files : nat; bytes : Z
}.
Definition named_or_index (relPath : text) (index : nat) : text :=
  if bool_decide (relPath = []) then txt ("#" +:+ pretty index) else relPath.
Definition read_item (r : Reading) (entry : nat * RawItem) : Reading :=
  let '(index, item) := entry in
  {| structural := structural r ++
       match item_problem item with
       | Some why => [Problem (named_or_index (relPath_of item) index) why]
       | None => []
       end;
     parsed := parsed r ++ [parse item];
     files := match kind_of item with file => S (files r) | dir => files r end;
     bytes := match kind_of item with file => round53 (bytes r + size_of item) | dir => bytes r end |}.
Definition enumerate {A} (l : list A) : list (nat * A) := imap pair l.
Definition read_items (raw : list RawItem) : Reading :=
  fold_left read_item (enumerate raw) (MkReading [] [] 0 0%Z).

Section building.
Context (toUpperCase : text → text) (digest : list Parsed → text).
Context (style : PathStyle) (destination : text).

Definition key (relPath : text) : text :=
  match style with windows => toUpperCase relPath | posix => relPath end.

(** The second loop: the first index of each key, and the paths met again. *)
Record Keyed := MkKeyed {
  byKey : jsmap text nat; twice : list NameProblem; naming : list NameProblem
}.
Definition key_item (ps : list Parsed) (k : Keyed) (entry : nat * Parsed) : Keyed :=
  let '(index, item) := entry in
  match byKey k !! key (p_relPath item) with
  | None => MkKeyed (<[key (p_relPath item) := index]> (byKey k)) (twice k) (naming k)
  | Some seen =>
      if bool_decide (p_relPath <$> ps !! seen = Some (p_relPath item))
      then MkKeyed (byKey k) (twice k ++ [Problem (p_relPath item) path_twice]) (naming k)
      else MkKeyed (byKey k) (twice k) (naming k ++ [Problem (p_relPath item) differs_by_case])
  end.
Definition key_items (ps : list Parsed) : Keyed :=
  fold_left (key_item ps) (enumerate ps) (MkKeyed ∅ [] []).

(** The third: the items with their folders. *)
Definition parentPath (relPath : text) : option text :=
  (λ cut, take cut relPath) <$> lastIndexOf SL relPath.
Definition parentIndex (k : jsmap text nat) (relPath : text) : option nat :=
  parentPath relPath ≫= λ folder, k !! key folder.
Definition folder_problem (ps : list Parsed) (k : jsmap text nat) (refused : list text)
  (item : Parsed) : option problem :=
  match parentPath (p_relPath item) with
  | None => None
  | Some _ =>
      if decide (p_relPath item ∈ refused) then None
      else
        match parentIndex k (p_relPath item) with
        | None => Some folder_missing
        | Some i => if decide (p_kind <$> ps !! i = Some dir) then None else Some folder_is_a_file
        end
  end.
Definition place (k : jsmap text nat) (id : nat) (item : Parsed) : TreeItem :=
  MkItem id (p_relPath item) (slice_after_last SL (p_relPath item)) (p_kind item) (p_size item)
    (p_mtime item) (parentIndex k (p_relPath item)) [].

(** The fourth, on a Windows host. *)
Definition windows_item_problem (relPath : text) : option problem :=
  match omap windowsNameProblem (split SL relPath) with
  | why :: _ => Some (bad_windows_name why)
  | [] =>
      let full := joinHostPath toUpperCase destination (slash_to_backslash relPath) windows in
      if decide (WINDOWS_MAX_PATH_LENGTH < length full) then Some (windows_path_too_long (length full))
      else None
  end.
Definition windows_problems (ps : list Parsed) : list NameProblem :=
  match style with
  | windows => ps ≫= λ p, option_list (Problem (p_relPath p) <$> windows_item_problem (p_relPath p))
  | posix => []
  end.

Definition add_child (items : list TreeItem) (item : TreeItem) : list TreeItem :=
  match it_parent item with
  | Some p =>
      alter (λ it, MkItem (it_id it) (it_relPath it) (it_name it) (it_kind it) (it_size it)
               (it_mtime it) (it_parent it) (it_children it ++ [it_id item])) p items
  | None => items
  end.

Definition depth (relPath : text) : nat := length (split SL relPath).
Definition before (a b : TreeItem) : Prop :=
  depth (it_relPath a) < depth (it_relPath b) ∨
  depth (it_relPath a) = depth (it_relPath b) ∧ it_id a <= it_id b.
#[export] Instance before_dec a b : Decision (before a b).
Proof. unfold before. apply _. Defined.

Definition by_path (a b : Parsed) : Prop := text_le (p_relPath a) (p_relPath b).
#[export] Instance by_path_dec a b : Decision (by_path a b).
Proof. unfold by_path. apply _. Defined.

Definition refuse (structural naming : list NameProblem) : UploadTree :=
  match structural with
  | [] => Refused INVALID_NAMES (length naming) (take PROBLEMS_LISTED naming)
  | _ => Refused INVALID_ITEMS (length structural) (take PROBLEMS_LISTED structural)
  end.

Definition checkAndBuild (raw : list RawItem) : UploadTree :=
  if bool_decide (TRANSFER_MAX_ITEMS < length raw) then Refused TOO_MANY_FILES 0 []
  else
    let r := read_items raw in
    if bool_decide (TRANSFER_MAX_FILES < files r) then Refused TOO_MANY_FILES 0 []
    else
      let ps := parsed r in
      let k := key_items ps in
      let structural1 := structural r ++ twice k in
      let refused := np_relPath <$> structural1 in
      let structural :=
        structural1 ++ (ps ≫= λ p, option_list
          (Problem (p_relPath p) <$> folder_problem ps (byKey k) refused p)) in
      let items := imap (place (byKey k)) ps in
      let naming := naming k ++ windows_problems ps in
      if bool_decide (structural = [] ∧ naming = []) then
        Built (fold_left add_child items items)
              (it_id <$> merge_sort before items)
              (files r) (bytes r) (digest (merge_sort by_path ps))
      else refuse structural naming.

(** [None] is what is not a list. *)
Definition buildUploadTree (raw : option (list RawItem)) : UploadTree :=
  match raw with
  | None | Some [] => Refused INVALID_ITEMS 0 []
  | Some raw => checkAndBuild raw
  end.
End building.

(** ** What each loop gives *)

Lemma enumerate_snoc {A} (l : list A) x : enumerate (l ++ [x]) = enumerate l ++ [(length l, x)].
Proof. unfold enumerate. rewrite imap_app. simpl. by rewrite Nat.add_0_r. Qed.

Definition add_bytes (b : Z) (it : RawItem) : Z :=
  match kind_of it with file => round53 (b + size_of it) | dir => b end.

Lemma read_items_spec raw :
  let r := read_items raw in
  parsed r = parse <$> raw ∧ files r = length (filter (λ it, kind_of it = file) raw) ∧
  bytes r = fold_left add_bytes raw 0%Z ∧
  (structural r = [] ↔ Forall (λ it, item_problem it = None) raw).
Proof.
  unfold read_items. induction raw as [|it raw IH] using rev_ind; [done|].
  rewrite enumerate_snoc, !fold_left_app, fmap_app, filter_app, length_app, Forall_app, Forall_cons.
  destruct IH as (Hp & Hf & Hb & Hs). set (r := fold_left read_item (enumerate raw) _) in *.
  cbv zeta in *. cbn [fold_left read_item parsed files bytes structural]. rewrite Hp, Hf, Hb.
  split_and!.
  - done.
  - unfold filter. simpl. destruct (kind_of it) eqn:Hk; simpl; lia.
  - done.
  - rewrite app_nil, Hs. destruct (item_problem it); [|by intuition]. split; [by intros []|].
    by intros (_ & ? & _).
Qed.

Section lemmas.
Context (toUpperCase : text → text) (style : PathStyle).
Notation key := (key toUpperCase style).

Lemma key_items_spec ps :
  let k := key_items toUpperCase style ps in
  (∀ q i, byKey k !! q = Some i → ∃ p, ps !! i = Some p ∧ key (p_relPath p) = q) ∧
  (∀ p, p ∈ ps → is_Some (byKey k !! key (p_relPath p))) ∧
  (twice k = [] ∧ naming k = [] ↔ NoDup ((λ p, key (p_relPath p)) <$> ps)).
Proof.
  unfold key_items.
  cut (∀ l, l `prefix_of` ps →
    let k := fold_left (key_item toUpperCase style ps) (enumerate l) (MkKeyed ∅ [] []) in
    (∀ q i, byKey k !! q = Some i → ∃ p, l !! i = Some p ∧ key (p_relPath p) = q) ∧
    (∀ p, p ∈ l → is_Some (byKey k !! key (p_relPath p))) ∧
    (twice k = [] ∧ naming k = [] ↔ NoDup ((λ p, key (p_relPath p)) <$> l))).
  { intros H. by apply H. }
  intros l. induction l as [|x l IH] using rev_ind; intros Hpre.
  { split_and!; [done|intros p Hp; by inversion Hp|]. simpl. split; [intros; constructor|done]. }
  destruct IH as (Hsound & Htotal & Hdup); [by eapply prefix_app_l|].
  rewrite enumerate_snoc, fold_left_app. cbv zeta.
  set (k := fold_left _ (enumerate l) _) in *. cbv zeta in *. cbn [fold_left key_item].
  rewrite fmap_app, NoDup_app. cbn [fmap list_fmap].
  assert (∀ q, q ∈ (λ p, key (p_relPath p)) <$> l ↔ is_Some (byKey k !! q)) as Hkeys.
  { intros q. rewrite list_elem_of_fmap. split; [by intros (p & -> & Hp%Htotal)|].
    intros [i Hi]. destruct (Hsound q i Hi) as (p & Hp & <-). exists p.
    split; [done|]. by apply list_elem_of_lookup_2 in Hp. }
  destruct (byKey k !! key (p_relPath x)) as [seen|] eqn:Hx.
  - assert (∀ k', byKey k' = byKey k →
      (∀ q i, byKey k' !! q = Some i → ∃ p, (l ++ [x]) !! i = Some p ∧ key (p_relPath p) = q) ∧
      (∀ p, p ∈ l ++ [x] → is_Some (byKey k' !! key (p_relPath p)))) as Hsame.
    { intros k' ->. split.
      - intros q i Hi. destruct (Hsound q i Hi) as (p & Hp & ?). exists p. split; [|done].
        by apply lookup_app_l_Some.
      - intros p [Hp| ->%list_elem_of_singleton]%elem_of_app; [by apply Htotal|eauto]. }
    case_bool_decide; cbn [byKey twice naming].
    + destruct (Hsame (MkKeyed (byKey k) (twice k ++ [Problem (p_relPath x) path_twice]) (naming k)))
        as [? ?]; [done|]. split_and!; [done|done|]. rewrite app_nil. split; [by intros [[? ?] ?]|].
      intros (_ & Hnew & _). exfalso. apply (Hnew (key (p_relPath x))); [apply Hkeys; by rewrite Hx|by left].
    + destruct (Hsame (MkKeyed (byKey k) (twice k) (naming k ++ [Problem (p_relPath x) differs_by_case])))
        as [? ?]; [done|]. split_and!; [done|done|]. rewrite app_nil. split; [by intros [? [? ?]]|].
      intros (_ & Hnew & _). exfalso. apply (Hnew (key (p_relPath x))); [apply Hkeys; by rewrite Hx|by left].
  - cbn [byKey twice naming]. split_and!.
    + intros q i. js_simpl. case_decide as Hq.
      * intros [= <-]. exists x. by rewrite lookup_app_r, Nat.sub_diag by lia.
      * intros Hi. destruct (Hsound q i Hi) as (p & Hp & ?). exists p. split; [|done].
        by apply lookup_app_l_Some.
    + intros p [Hp| ->%list_elem_of_singleton]%elem_of_app; js_simpl.
      * case_decide; [eauto|by apply Htotal].
      * rewrite decide_True by done. eauto.
    + rewrite Hdup. split; [|by intros (? & _)]. intros Hn. split_and!; [done| |apply NoDup_singleton].
      intros q Hq ->%list_elem_of_singleton. apply Hkeys in Hq as [? ?]. congruence.
Qed.

(** The children of an item are the items placed in it, in the order of their ids. *)
Lemma add_children l items i :
  fold_left add_child l items !! i =
    (λ it, MkItem (it_id it) (it_relPath it) (it_name it) (it_kind it) (it_size it) (it_mtime it)
             (it_parent it) (it_children it ++ (it_id <$> filter (λ x, it_parent x = Some i) l)))
    <$> items !! i.
Proof.
  revert items. induction l as [|x l IH]; intros items; cbn [fold_left].
  { rewrite filter_nil. simpl. destruct (items !! i) as [[]|]; simpl; [|done]. by rewrite app_nil_r. }
  rewrite IH. unfold add_child. rewrite filter_cons. destruct (it_parent x) as [p|] eqn:Hp.
  - destruct (decide (p = i)) as [->|Hne].
    + rewrite list_lookup_alter_eq, decide_True by done. destruct (items !! i) as [[]|]; simpl; [|done].
      by rewrite <- app_assoc.
    + rewrite list_lookup_alter_ne by done. rewrite decide_False by congruence. done.
  - rewrite decide_False by done. done.
Qed.

Lemma length_add_children l items : length (fold_left add_child l items) = length items.
Proof.
  revert items. induction l as [|x l IH]; intros items; [done|]. cbn [fold_left]. rewrite IH.
  unfold add_child. case_match; [by rewrite length_alter|done].
Qed.
End lemmas.

(** ** What a tree must be *)

(** The entries an upload may hold: the right number of them, each sound by itself, no path twice
    (nor twice but for its case, on Windows), each in a folder that is in the upload too, and every
    name one the host takes. *)
Record sendable (toUpperCase : text → text) (style : PathStyle) (destination : text)
  (raw : list RawItem) : Prop := {
  s_items : 0 < length raw <= TRANSFER_MAX_ITEMS;
  s_files : length (filter (λ it, kind_of it = file) raw) <= TRANSFER_MAX_FILES;
  s_sound : Forall (λ it, item_problem it = None) raw;
  s_once : NoDup ((λ it, key toUpperCase style (relPath_of it)) <$> raw);
  s_folder it folder : it ∈ raw → parentPath (relPath_of it) = Some folder →
    ∃ f, f ∈ raw ∧ kind_of f = dir ∧
      key toUpperCase style (relPath_of f) = key toUpperCase style folder;
  s_windows it : style = windows → it ∈ raw →
    windows_item_problem toUpperCase destination (relPath_of it) = None;
}.

(** A tree built from them. *)
Record tree_wf (toUpperCase : text → text) (style : PathStyle) (raw : list RawItem)
  (items : list TreeItem) (order : list nat) : Prop := {
  t_length : length items = length raw;
  t_item i it : items !! i = Some it →
    it_id it = i ∧ parse <$> raw !! i = Some (MkParsed (it_relPath it) (it_kind it) (it_size it) (it_mtime it)) ∧
    relPathProblem (it_relPath it) = None;
  t_parent i it : items !! i = Some it →
    match lastIndexOf SL (it_relPath it) with
    | None => it_parent it = None ∧ it_name it = it_relPath it
    | Some cut => it_name it = drop (S cut) (it_relPath it) ∧
        ∃ p pit, it_parent it = Some p ∧ items !! p = Some pit ∧ it_kind pit = dir ∧
          key toUpperCase style (it_relPath pit) = key toUpperCase style (take cut (it_relPath it))
    end;
  t_children i it : items !! i = Some it →
    it_children it = it_id <$> filter (λ x, it_parent x = Some i) items;
  t_order : order ≡ₚ seq 0 (length items);
  t_before i it p j k : items !! i = Some it → it_parent it = Some p →
    order !! j = Some p → order !! k = Some i → j < k;
}.

Lemma bind_option_nil {A B} (f : A → option B) l :
  (l ≫= λ x, option_list (f x)) = [] ↔ ∀ x, x ∈ l → f x = None.
Proof.
  induction l as [|x l IH]; simpl; [split; [intros _ x Hx; by inversion Hx|done]|].
  rewrite app_nil, IH. split.
  - intros [Hx Hl] y [->|Hy]%elem_of_cons; [by destruct (f x)|auto].
  - intros H. split; [rewrite H; [done|by left]|]. intros y Hy. apply H. by right.
Qed.

Lemma parse_fields raw (f : Parsed → Prop) :
  Forall f (parse <$> raw) ↔ Forall (λ it, f (parse it)) raw.
Proof. by rewrite Forall_fmap. Qed.

Section building_lemmas.
Context (toUpperCase : text → text) (digest : list Parsed → text).
Context (style : PathStyle) (destination : text).
Notation key := (key toUpperCase style).
Notation build := (buildUploadTree toUpperCase digest style destination).
Implicit Types (raw : list RawItem) (ps : list Parsed).

Definition keyed raw := byKey (key_items toUpperCase style (parse <$> raw)).
Definition built raw : UploadTree :=
  let items := imap (place toUpperCase style (keyed raw)) (parse <$> raw) in
  Built (fold_left add_child items items) (it_id <$> merge_sort before items)
    (length (filter (λ it, kind_of it = file) raw)) (fold_left add_bytes raw 0%Z)
    (digest (merge_sort by_path (parse <$> raw))).

Lemma folder_problem_None raw p :
  NoDup ((λ p, key (p_relPath p)) <$> (parse <$> raw)) → p ∈ parse <$> raw →
  folder_problem toUpperCase style (parse <$> raw) (keyed raw) [] p = None ↔
  ∀ folder, parentPath (p_relPath p) = Some folder →
    ∃ f, f ∈ raw ∧ kind_of f = dir ∧ key (relPath_of f) = key folder.
Proof.
  intros Hnd Hp. destruct (key_items_spec toUpperCase style (parse <$> raw)) as (Hsound & Htotal & _).
  fold (keyed raw) in Hsound, Htotal. unfold folder_problem, parentIndex.
  destruct (parentPath (p_relPath p)) as [folder|]; simpl; [|by split].
  assert (∀ q i, (parse <$> raw) !! i = Some q → key (p_relPath q) = key folder →
    keyed raw !! key folder = Some i) as Hindex.
  { intros q i Hq Hk. destruct (Htotal q) as [j Hj]; [by eapply list_elem_of_lookup_2|].
    destruct (Hsound _ _ Hj) as (q' & Hq' & Hk'). rewrite <- Hk, Hj. f_equal.
    apply (NoDup_lookup _ j i (key (p_relPath q)) Hnd); rewrite list_lookup_fmap.
    - rewrite Hq'. simpl. by f_equal.
    - by rewrite Hq. }
  split.
  - destruct (keyed raw !! key folder) as [i|] eqn:Hi; [|done]. case_decide as Hd; [|done].
    intros _ ? [= <-]. destruct (Hsound _ _ Hi) as (q & Hq & Hk). rewrite Hq in Hd. simplify_eq/=.
    rewrite list_lookup_fmap in Hq. destruct (raw !! i) as [f|] eqn:Hf; [|done]. simplify_eq/=.
    exists f. split_and!; [by eapply list_elem_of_lookup_2|done|done].
  - intros H. destruct (H folder eq_refl) as (f & [i Hf]%list_elem_of_lookup & Hkind & Hk).
    assert ((parse <$> raw) !! i = Some (parse f)) as Hq by (by rewrite list_lookup_fmap, Hf).
    rewrite (Hindex (parse f) i Hq Hk), Hq. simpl. by rewrite decide_True by (by rewrite Hkind).
Qed.

(** The decision, and what is built. *)
Lemma build_cases raw :
  (sendable toUpperCase style destination raw ∧ build (Some raw) = built raw) ∨
  (¬ sendable toUpperCase style destination raw ∧ ∃ code n names, build (Some raw) = Refused code n names).
Proof.
  destruct (decide (raw = [])) as [->|Hne].
  { right. split; [|by eexists _, _, _]. intros [? _ _ _ _ _]. simpl in *. lia. }
  assert (0 < length raw) as Hlen by (destruct raw; simpl; [done|lia]).
  assert (build (Some raw) = checkAndBuild toUpperCase digest style destination raw) as ->
    by (by destruct raw).
  unfold checkAndBuild. case_bool_decide as Hmax.
  { right. split; [|by eexists _, _, _]. intros [? _ _ _ _ _]. lia. }
  destruct (read_items_spec raw) as (Hp & Hf & Hb & Hs).
  set (r := read_items raw) in *. cbv zeta. rewrite Hp, Hf, Hb. case_bool_decide as Hfiles.
  { right. split; [|by eexists _, _, _]. intros [_ ? _ _ _ _]. lia. }
  destruct (key_items_spec toUpperCase style (parse <$> raw)) as (_ & _ & Hdup).
  set (k := key_items toUpperCase style (parse <$> raw)) in *. cbv zeta in Hdup.
  assert (∀ P : Prop, (P ↔ sendable toUpperCase style destination raw) → Decision P →
    (sendable toUpperCase style destination raw ∧ P) ∨ (¬ sendable toUpperCase style destination raw ∧ ¬ P))
    as Hcases.
  { intros P HP [?|?]; [left|right]; tauto. }
  match goal with |- context [bool_decide ?P] => destruct (Hcases P) as [[HS HP]|[HS HP]] end; [|apply _|..].
  2: { left. rewrite bool_decide_eq_true_2 by done. done. }
  2: { right. rewrite bool_decide_eq_false_2 by done. split; [done|]. unfold refuse.
       case_match; by eexists _, _, _. }
  assert ((λ it, key (relPath_of it)) <$> raw = (λ p, key (p_relPath p)) <$> (parse <$> raw)) as Hkeys.
  { rewrite <- list_fmap_compose. done. }
  rewrite !app_nil, bind_option_nil. split.
  - intros (([Hs1 Htw] & Hfold) & Hnam & Hwin).
    assert (NoDup ((λ p, key (p_relPath p)) <$> (parse <$> raw))) as Hnd by (apply Hdup; done).
    rewrite Hs1, Htw in Hfold. simpl in Hfold. split.
    + lia.
    + lia.
    + by apply Hs.
    + by rewrite Hkeys.
    + intros it folder Hit Hpar. apply (folder_problem_None raw (parse it) Hnd); [by apply list_elem_of_fmap_2| |done].
      assert (parse it ∈ parse <$> raw) as Hin by (by apply list_elem_of_fmap_2).
      specialize (Hfold _ Hin). by destruct (folder_problem _ _ _ _ _ _).
    + intros it -> Hit. unfold windows_problems in Hwin. rewrite bind_option_nil in Hwin.
      assert (parse it ∈ parse <$> raw) as Hin by (by apply list_elem_of_fmap_2).
      specialize (Hwin _ Hin). simpl in Hwin. by destruct (windows_item_problem _ _ _).
  - intros [Hi Hfi Hso Hon Hfo Hwi]. rewrite Hkeys in Hon. apply Hs in Hso. apply Hdup in Hon as Htn.
    destruct Htn as [Htw Hna]. rewrite Hso, Htw. split_and!; try done.
    + intros p Hpin. simpl. change (byKey k) with (keyed raw).
      rewrite (proj2 (folder_problem_None raw p Hon Hpin)); [done|].
      intros folder Hpar. apply list_elem_of_fmap in Hpin as (it & -> & Hit). by apply (Hfo it).
    + unfold windows_problems. destruct style; [done|]. rewrite bind_option_nil.
      intros p Hpin. apply list_elem_of_fmap in Hpin as (it & -> & Hit). simpl. by rewrite (Hwi it).
Qed.

(** *** The tree built *)

Definition placed raw : list TreeItem := imap (place toUpperCase style (keyed raw)) (parse <$> raw).

Lemma lookup_placed raw i :
  placed raw !! i = (λ it, place toUpperCase style (keyed raw) i (parse it)) <$> raw !! i.
Proof. unfold placed. rewrite list_lookup_imap, list_lookup_fmap. by destruct (raw !! i). Qed.

Lemma placed_ids raw : it_id <$> placed raw = seq 0 (length raw).
Proof.
  unfold placed. rewrite fmap_imap. cbn [place it_id].
  rewrite (imap_seq_0 (parse <$> raw) (λ i, i)), length_fmap. apply list_fmap_id.
Qed.

Lemma item_sound it : item_problem it = None → relPathProblem (relPath_of it) = None.
Proof.
  unfold item_problem, relPath_of. destruct (raw_relPath it) as [|t| |]; try done.
  repeat case_decide; try done. by destruct (relPathProblem t).
Qed.

Lemma folder_found raw it folder :
  sendable toUpperCase style destination raw → it ∈ raw → parentPath (relPath_of it) = Some folder →
  ∃ j f, keyed raw !! key folder = Some j ∧ raw !! j = Some f ∧ kind_of f = dir ∧
    key (relPath_of f) = key folder.
Proof.
  intros HS Hit Hpar. destruct (s_folder _ _ _ _ HS it folder Hit Hpar) as (f & Hf & Hd & Hk).
  destruct (key_items_spec toUpperCase style (parse <$> raw)) as (Hsound & Htotal & _).
  destruct (Htotal (parse f)) as [j Hj]; [by apply list_elem_of_fmap_2|]. fold (keyed raw) in Hsound, Hj.
  destruct (Hsound _ _ Hj) as (q & Hq & Hkq). cbn [p_relPath parse] in Hj. rewrite Hk in Hj.
  rewrite list_lookup_fmap in Hq. destruct (raw !! j) as [g|] eqn:Hg; [|done]. injection Hq as <-.
  apply list_elem_of_lookup in Hf as [i Hf]. exists j, f. split_and!; [done| |done|done].
  assert (j = i) as ->; [|by rewrite Hf in Hg; simplify_eq].
  apply (NoDup_lookup _ j i (key (relPath_of f)) (s_once _ _ _ _ HS)); rewrite list_lookup_fmap.
  - rewrite Hg. simpl. by f_equal.
  - by rewrite Hf.
Qed.

Lemma StronglySorted_lookup {A} (R : A → A → Prop) l i j x y :
  StronglySorted R l → l !! i = Some x → l !! j = Some y → i < j → R x y.
Proof.
  intros Hs. revert i j. induction Hs as [|z l Hs IH Hz]; intros [|i] [|j]; simpl; try done; try lia.
  - intros [= ->] Hy _. rewrite Forall_forall in Hz. by apply Hz, list_elem_of_lookup_2 with j.
  - intros. apply (IH i j); [done|done|lia].
Qed.

#[local] Instance before_total : Total before.
Proof. intros a b. unfold before. lia. Qed.
#[local] Instance before_trans : Transitive before.
Proof. intros a b d. unfold before. lia. Qed.

Lemma depth_app t1 t2 : depth t1 < depth (t1 ++ SL :: t2).
Proof.
  unfold depth. rewrite split_app, length_app. pose proof (split_not_nil SL t2).
  destruct (split SL t2); simpl; [done|lia].
Qed.

(** Upper-casing works on each name of a path. *)
Definition upper_by_name : Prop := ∀ t, split SL (toUpperCase t) = toUpperCase <$> split SL t.

Lemma key_depth t1 t2 : upper_by_name → key t1 = key t2 → depth t1 = depth t2.
Proof.
  intros Hu. unfold UploadTree.key. destruct style; [by intros ->|]. intros Hk.
  unfold depth. rewrite <- (length_fmap toUpperCase (split SL t1)), <- Hu, Hk, Hu. apply length_fmap.
Qed.

Lemma children_same (l1 l2 : list TreeItem) i :
  Forall2 (λ x y, it_id x = it_id y ∧ it_parent x = it_parent y) l1 l2 →
  it_id <$> filter (λ x, it_parent x = Some i) l1 = it_id <$> filter (λ x, it_parent x = Some i) l2.
Proof.
  induction 1 as [|x y l1 l2 [Hid Hpar] _ IH]; [done|]. rewrite !filter_cons, Hpar.
  case_decide; [|done]. rewrite !fmap_cons. by f_equal.
Qed.

Lemma built_wf raw : upper_by_name → sendable toUpperCase style destination raw →
  tree_wf toUpperCase style raw (fold_left add_child (placed raw) (placed raw))
    (it_id <$> merge_sort before (placed raw)).
Proof.
  intros Hu HS.
  assert (∀ i it, fold_left add_child (placed raw) (placed raw) !! i = Some it → ∃ r, raw !! i = Some r ∧
    it = (let b := place toUpperCase style (keyed raw) i (parse r) in
      MkItem (it_id b) (it_relPath b) (it_name b) (it_kind b) (it_size b) (it_mtime b) (it_parent b)
        (it_id <$> filter (λ x, it_parent x = Some i) (placed raw)))) as Hit.
  { intros i it. rewrite add_children, lookup_placed. destruct (raw !! i) as [r|]; [|done].
    intros [= <-]. by exists r. }
  assert (length (placed raw) = length raw) as Hlen.
  { unfold placed. by rewrite length_imap, length_fmap. }
  assert (∀ i it folder, raw !! i = Some it → parentPath (relPath_of it) = Some folder →
    ∃ j f, parentIndex toUpperCase style (keyed raw) (relPath_of it) = Some j ∧ raw !! j = Some f ∧
      kind_of f = dir ∧ key (relPath_of f) = key folder) as Hfolder.
  { intros i it folder Hi Hpar. destruct (folder_found raw it folder HS) as (j & f & Hj & Hf);
      [by eapply list_elem_of_lookup_2|done|]. exists j, f. split; [|done].
    unfold parentIndex. by rewrite Hpar. }
  split.
  - by rewrite length_add_children.
  - intros i it (r & Hr & ->)%Hit. split_and!; [done|by rewrite Hr|]. simpl. apply item_sound.
    pose proof (s_sound _ _ _ _ HS) as Hall. rewrite Forall_forall in Hall.
    by apply Hall, list_elem_of_lookup_2 with i.
  - intros i it (r & Hr & ->)%Hit. cbn [it_relPath it_parent it_name place p_relPath parse].
    unfold slice_after_last, parentIndex, parentPath.
    destruct (lastIndexOf SL (relPath_of r)) as [cut|] eqn:Hcut; [|done]. split; [done|].
    destruct (Hfolder i r (take cut (relPath_of r)) Hr) as (j & f & Hj & Hf & Hd & Hk).
    { unfold parentPath. by rewrite Hcut. }
    unfold parentIndex, parentPath in Hj. rewrite Hcut in Hj. rewrite Hj.
    eexists j, _. split; [done|]. rewrite add_children, lookup_placed, Hf. by split_and!.
  - intros i it (r & Hr & ->)%Hit. cbn [it_children]. apply children_same. apply Forall2_same_length_lookup.
    rewrite length_add_children. split; [done|]. intros j x y Hx. rewrite add_children, Hx. by intros [= <-].
  - rewrite merge_sort_Permutation, placed_ids, length_add_children. by rewrite Hlen.
  - intros i it p j k (r & Hr & ->)%Hit. cbn [it_parent place parse p_relPath]. intros Hpar.
    rewrite !list_lookup_fmap. intros Hj Hk.
    assert (∀ n m, it_id <$> merge_sort before (placed raw) !! n = Some m →
      ∃ a, merge_sort before (placed raw) !! n = Some a ∧ placed raw !! m = Some a) as Hsorted.
    { intros n m (a & Ha & ->)%fmap_Some. exists a. split; [done|].
      assert (a ∈ placed raw) as [q Hq]%list_elem_of_lookup.
      { rewrite <- (merge_sort_Permutation before). by eapply list_elem_of_lookup_2. }
      rewrite lookup_placed in Hq. destruct (raw !! q) as [s|] eqn:Hs; [|done]. injection Hq as <-.
      simpl. by rewrite lookup_placed, Hs. }
    destruct (Hsorted j p Hj) as (a & Ha & Hpa), (Hsorted k i Hk) as (b & Hb & Hpb).
    rewrite lookup_placed in Hpa, Hpb. rewrite Hr in Hpb. injection Hpb as <-.
    destruct (raw !! p) as [s|] eqn:Hsp; [|done]. injection Hpa as <-.
    unfold parentIndex in Hpar. destruct (parentPath (relPath_of r)) as [folder|] eqn:Hpp; [|done].
    destruct (Hfolder i r folder Hr Hpp) as (j' & f & Hj' & Hf & _ & Hkf).
    unfold parentIndex in Hj'. rewrite Hpp in Hj'. rewrite Hpar in Hj'. injection Hj' as <-.
    rewrite Hsp in Hf. injection Hf as <-.
    assert (depth (relPath_of s) < depth (relPath_of r)) as Hdepth.
    { rewrite (key_depth _ _ Hu Hkf). unfold parentPath in Hpp.
      destruct (lastIndexOf SL (relPath_of r)) as [cut|] eqn:Hcut; [|done]. injection Hpp as <-.
      apply lastIndexOf_Some in Hcut as (Hcut & _ & _). rewrite Hcut at 2. apply depth_app. }
    destruct (decide (j < k)) as [?|Hge]; [done|]. exfalso.
    destruct (decide (j = k)) as [->|Hne]; [rewrite Ha in Hb; simplify_eq; lia|].
    assert (k < j) as Hlt by lia.
    pose proof (StronglySorted_lookup _ _ k j _ _ (StronglySorted_merge_sort before (placed raw)) Hb Ha Hlt)
      as Hbefore. unfold before in Hbefore. simpl in Hbefore. lia.
Qed.
End building_lemmas.

(** ** Bytes and signatures *)

Fixpoint total_bytes (raw : list RawItem) : Z :=
  match raw with [] => 0%Z | it :: raw => (size_of it + total_bytes raw)%Z end.

Lemma size_of_range it : (0 <= size_of it <= MAX_SAFE_INTEGER)%Z.
Proof.
  assert (0 <= 0 <= MAX_SAFE_INTEGER)%Z as Hz by (by vm_compute).
  unfold size_of. destruct (kind_of it); [|done]. destruct (raw_size it); try done. simpl.
  by case_decide.
Qed.

Lemma upload_bytes_nonneg raw : (0 <= total_bytes raw)%Z.
Proof. induction raw as [|it raw IH]; simpl; [done|]. pose proof (size_of_range it). lia. Qed.

Lemma bytes_total raw b :
  (0 <= b)%Z → (b + total_bytes raw <= MAX_SAFE_INTEGER)%Z →
  fold_left add_bytes raw b = (b + total_bytes raw)%Z.
Proof.
  revert b. induction raw as [|it raw IH]; intros b Hb Ht; cbn [fold_left total_bytes] in *; [lia|].
  pose proof (size_of_range it). pose proof (upload_bytes_nonneg raw).
  assert (add_bytes b it = (b + size_of it)%Z) as ->.
  { unfold add_bytes. destruct (kind_of it) eqn:Hk.
    - unfold round53. destruct (Z.ltb_spec (b + size_of it) (2 ^ 53)); [done|].
      unfold MAX_SAFE_INTEGER in *. lia.
    - unfold size_of. rewrite Hk. lia. }
  rewrite IH; lia.
Qed.

#[local] Instance by_path_total : Total by_path.
Proof. intros a b. apply text_le_total. Qed.
#[local] Instance by_path_trans : Transitive by_path.
Proof. intros a b d. apply text_le_trans. Qed.

Lemma sorted_same (l1 l2 : list Parsed) :
  NoDup (p_relPath <$> l1) → l1 ≡ₚ l2 → merge_sort by_path l1 = merge_sort by_path l2.
Proof.
  intros Hnd Hp. apply (StronglySorted_unique_strong by_path).
  - intros x y Hx Hy Hxy Hyx. rewrite merge_sort_Permutation in Hx, Hy. rewrite <- Hp in Hy.
    apply list_elem_of_lookup in Hx as [i Hx], Hy as [j Hy].
    assert (i = j) as ->; [|congruence].
    apply (NoDup_lookup _ i j (p_relPath x) Hnd); rewrite list_lookup_fmap; [by rewrite Hx|].
    rewrite Hy. simpl. f_equal. by apply text_le_antisymm.
  - apply StronglySorted_merge_sort; apply _.
  - apply StronglySorted_merge_sort; apply _.
  - by rewrite !merge_sort_Permutation.
Qed.

(** ** Properties *)

Section properties.
Context (toUpperCase : text → text) (digest : list Parsed → text).
Notation build := (buildUploadTree toUpperCase digest).

(** C26: What an upload takes, and what it builds. A request is refused when it is not a list of
    entries an upload may hold ([sendable]: the right number, each sound, no path twice, every
    folder in the upload, every name one the host takes), with the kind and the number of its
    problems; otherwise a tree is built, in which every item has its place, a name no host misreads
    and its fields, sits in the folder its path says and in that folder's children, and comes after
    that folder in the order of sending, which sends each item once. The count of files is right and
    within its limit, and so is the sum of bytes while a double holds it. *)
Theorem upload_tree_correct style destination raw :
  upper_by_name toUpperCase →
  match build style destination (Some raw) with
  | Built items order files bytes signature =>
      sendable toUpperCase style destination raw ∧
      tree_wf toUpperCase style raw items order ∧
      files = length (filter (λ it, kind_of it = file) raw) ∧ files <= TRANSFER_MAX_FILES ∧
      (total_bytes raw <= MAX_SAFE_INTEGER → bytes = total_bytes raw)%Z
  | Refused code n names => ¬ sendable toUpperCase style destination raw
  end.
Proof.
  intros Hu. destruct (build_cases toUpperCase digest style destination raw)
    as [[HS ->]|[HS (code & n & names & ->)]]; [|done].
  unfold built. fold (placed toUpperCase style raw). split_and!; [done|by apply (built_wf toUpperCase style destination)|done|apply HS|].
  intros Ht. by rewrite bytes_total.
Qed.

(** The signature says two drops are the same tree. Two lists of the same entries, in any
    order, are accepted together and have the same signature, and they have the same files and
    folders whatever the order in which they came. *)
Theorem signature_order_free style destination raw raw' :
  raw ≡ₚ raw' →
  (sendable toUpperCase style destination raw ↔ sendable toUpperCase style destination raw') ∧
  ∀ items order files bytes s items' order' files' bytes' s',
    build style destination (Some raw) = Built items order files bytes s →
    build style destination (Some raw') = Built items' order' files' bytes' s' →
    s = s' ∧ files = files'.
Proof.
  intros Hp. split.
  { assert (∀ r r', r ≡ₚ r' → sendable toUpperCase style destination r →
      sendable toUpperCase style destination r') as Himp.
    { intros r r' Hr [Hi Hf Hs Ho Hfo Hw]. split.
      - by rewrite <- Hr.
      - by rewrite <- Hr.
      - by rewrite <- Hr.
      - by rewrite <- Hr.
      - intros it folder. rewrite <- Hr. intros Hit Hpar. destruct (Hfo it folder Hit Hpar) as (f & ? & ?).
        exists f. by rewrite <- Hr.
      - intros it. rewrite <- Hr. apply Hw. }
    split; apply Himp; done. }
  intros items order files bytes s items' order' files' bytes' s'.
  destruct (build_cases toUpperCase digest style destination raw)
    as [[HS ->]|[HS (code & n & names & ->)]]; [|done].
  destruct (build_cases toUpperCase digest style destination raw')
    as [[HS' ->]|[HS' (code & n & names & ->)]]; [|done].
  unfold built. intros [= <- <- <- <- <-] [= <- <- <- <- <-]. split; [|by rewrite Hp].
  f_equal. apply sorted_same; [|by rewrite Hp].
  pose proof (s_once _ _ _ _ HS) as Hon. rewrite <- list_fmap_compose.
  apply (NoDup_fmap_1 (key toUpperCase style)). by rewrite <- list_fmap_compose.
Qed.
End properties.

Definition no_digest (ps : list Parsed) : text := ps ≫= p_relPath.
Definition drop_of (l : list (string * string * Z)) : list RawItem :=
  (λ '(path, kind, size), {| raw_relPath := VText (txt path); raw_kind := VText (txt kind);
                             raw_size := VInt size; raw_mtime := VUndefined |}) <$> l.
Definition photos : list RawItem :=
  drop_of [("a/b/c.jpg", "file", 70%Z); ("a", "dir", 0%Z); ("A/b", "dir", 0%Z); ("d.txt", "file", 7%Z)].

Lemma shout_by_name : upper_by_name shout.
Proof.
  intros t. induction t as [|c t IH]; [done|].
  change (shout (c :: t)) with (ascii_upper c :: shout t). cbn [split]. rewrite IH.
  assert (ascii_upper c = SL ↔ c = SL) as Hc.
  { unfold ascii_upper, in_range. case_match eqn:E; [|done].
    rewrite andb_true_iff, !N.leb_le in E. change (ch "a"%char) with 97%N in E.
    change (ch "z"%char) with 122%N in E. change SL with 47%N. lia. }
  destruct (decide (c = SL)) as [->|Hne]; [done|]. rewrite decide_False by (by rewrite Hc).
  by destruct (split SL t).
Qed.

Lemma upload_tree_correct_witness :
  (∃ items bytes s, buildUploadTree shout no_digest windows (txt "C:\in") (Some photos) =
     Built items [1; 3; 2; 0] 2 bytes s ∧ it_parent <$> items !! 0 = Some (Some 2) ∧ bytes = 77%Z) ∧
  (match buildUploadTree shout no_digest posix (txt "/in") (Some photos) with
   | Built _ _ _ _ _ => False
   | Refused _ _ _ => ¬ sendable shout posix (txt "/in") photos
   end).
Proof.
  split; [eexists _, _, _; vm_compute; split_and!; reflexivity|].
  exact (upload_tree_correct shout no_digest posix (txt "/in") photos shout_by_name).
Defined.

Lemma signature_order_free_witness :
  (∃ items order files bytes items' order' files' bytes',
    buildUploadTree shout no_digest windows (txt "C:\in") (Some photos) =
      Built items order files bytes (txt "A/baa/b/c.jpgd.txt") ∧
    buildUploadTree shout no_digest windows (txt "C:\in") (Some (reverse photos)) =
      Built items' order' files' bytes' (txt "A/baa/b/c.jpgd.txt")) ∧
  (sendable shout windows (txt "C:\in") photos ↔ sendable shout windows (txt "C:\in") (reverse photos)).
Proof.
  split; [by do 8 eexists; vm_compute|].
  exact (proj1 (signature_order_free shout no_digest windows (txt "C:\in") photos (reverse photos)
    (symmetry (reverse_Permutation photos)))).
Defined.
