(* ===== verification/KnownHosts.v ===== *)
(** * What OpenSSH already trusts ([packages/hub/src/ssh/known-hosts.ts] and [fingerprint.ts])

    The reading of [known_hosts] files and the verdict on a key a server offers. Base64, HMAC-SHA1,
    SHA-256 and JavaScript's case mappings are parameters. *)

From Stdlib Require Import Ascii.
From stdpp Require Import strings pretty.
From S2P Require Import Prelude Text.
#[local] Open Scope lasterm_scope.

(** ** Lines and words *)

Definition LF : unit_ := 0x0A%N.
Definition CR : unit_ := 0x0D%N.

(** [\s], and what [trim] removes. *)
Definition is_space (c : unit_) : bool :=
  bool_decide (c ∈ [0x09; 0x0A; 0x0B; 0x0C; 0x0D; 0x20; 0xA0; 0x1680; 0x2028; 0x2029; 0x202F; 0x205F;
                    0x3000; 0xFEFF]%N) || (0x2000 <=? c)%N && (c <=? 0x200A)%N.

Fixpoint trim_start (t : text) : text :=
  match t with c :: t' => if is_space c then trim_start t' else t | [] => [] end.
Definition trim (t : text) : text := reverse (trim_start (reverse (trim_start t))).

(** [t.split(/\r?\n/)] *)
Definition without_cr (t : text) : text := if decide (last t = Some CR) then removelast t else t.
Fixpoint ends_cut (ls : list text) : list text :=
  match ls with
  | [] => []
  | [l] => [l]
  | l :: ls => without_cr l :: ends_cut ls
  end.
Definition split_lines (t : text) : list text := ends_cut (split LF t).

(** [t.split(/\s+/)]; [cur] is the word under way. *)
Fixpoint words_from (cur : text) (spaces : bool) (t : text) : list text :=
  match t with
  | [] => [cur]
  | c :: t =>
      if is_space c then if spaces then words_from cur true t else cur :: words_from [] true t
      else words_from (cur ++ [c]) false t
  end.
Definition words (t : text) : list text := words_from [] false t.

Definition STAR : unit_ := ch "*"%char.
Definition QUESTION : unit_ := ch "?"%char.
Definition BAR : unit_ := ch "|"%char.
Definition EQUALS : unit_ := ch "="%char.

(** ** The file *)

Record KnownHostsMatch := MkMatch { fingerprint : text; m_file : text; m_line : nat; revoked : bool }.
Record KnownHostsSource := MkSource { s_file : text; contents : text }.

Inductive KnownHostsVerdict :=
| Trusted (file : text) (line : nat)
| Revoked (file : text) (line : nat)
| OtherKey (file : text) (line : nat)
| Unknown.

Fixpoint strip_equals (t : text) : text :=
  match t with c :: t' => if decide (c = EQUALS) then strip_equals t' else t | [] => [] end.
(** [t.replace(/=+$/, "")] *)
Definition normalizeFingerprint (t : text) : text := reverse (strip_equals (reverse t)).

(** What a line says once its marker is read: withdrawn or not, the patterns, the key. *)
Definition parse_line (raw : text) : option (bool * text * text) :=
  let line := trim raw in
  if bool_decide (line = []) || startsWith (txt "#") line then None
  else
    let rest : option (bool * text) :=
      if startsWith (txt "@") line then
        match words line with
        | marker :: tail =>
            if decide (marker = txt "@cert-authority") then None
            else if decide (marker = txt "@revoked") then Some (true, join (ch " "%char) tail)
            else None
        | [] => None
        end
      else Some (false, line) in
    match rest with
    | None => None
    | Some (withdrawn, rest) =>
        match words rest with
        | patterns :: keyType :: encodedKey :: _ =>
            if bool_decide (patterns = []) || bool_decide (keyType = []) || bool_decide (encodedKey = [])
            then None
            else Some (withdrawn, patterns, encodedKey)
        | _ => None
        end
    end.

Definition knownHostsNames (host : text) (port : nat) : list text :=
  if decide (port = 22) then [host]
  else [txt "[" ++ host ++ txt "]:" ++ txt (pretty port)].

Section known_hosts.
(** [toLowerCase], and what [i] makes of one unit in a regular expression. *)
Context (toLowerCase : text → text) (canonical : unit_ → unit_).
(** [Buffer.from(_, "base64")], HMAC-SHA1 under a key, and the SHA-256 of a blob in base64. *)
Context (base64 : text → list N) (hmac_sha1 : list N → text → list N) (sha256 : list N → text).

Definition fingerprintOf (keyBlob : list N) : text :=
  txt "SHA256:" ++ normalizeFingerprint (sha256 keyBlob).

(** The anchored expression a pattern with [*] or [?] becomes. *)
Fixpoint glob (pattern : text) : text → bool :=
  match pattern with
  | [] => λ name, bool_decide (name = [])
  | c :: pattern =>
      if decide (c = STAR) then
        fix star name := glob pattern name ||
          match name with
          | [] => false
          | x :: name => negb (is_line_end x) && star name
          end
      else λ name,
        match name with
        | [] => false
        | x :: name =>
            (if decide (c = QUESTION) then negb (is_line_end x)
             else bool_decide (canonical c = canonical x)) && glob pattern name
        end
  end.

Definition plainPatternMatches (pattern name : text) : bool :=
  if negb (includes STAR pattern) && negb (includes QUESTION pattern)
  then bool_decide (toLowerCase pattern = toLowerCase name)
  else glob pattern name.

Definition hashedNameMatches (pattern name : text) : bool :=
  match split BAR pattern with
  | [_; one; salt64; hash64] =>
      if decide (one ≠ txt "1") then false
      else
        let salt := base64 salt64 in
        let expected := base64 hash64 in
        if decide (salt = [] ∨ expected = []) then false
        else bool_decide (hmac_sha1 salt name = expected)
  | _ => false
  end.

(** Whether one pattern, its negation left out, is about one of the names. *)
Definition pattern_hits (names : list text) (bare : text) : bool :=
  existsb (if startsWith (txt "|1|") bare then hashedNameMatches bare else plainPatternMatches bare) names.

(** The loop of [lineMatchesHost]. *)
Fixpoint match_patterns (names : list text) (matched : bool) (patterns : list text) : bool :=
  match patterns with
  | [] => matched
  | raw :: patterns =>
      let pattern := trim raw in
      if decide (pattern = []) then match_patterns names matched patterns
      else
        let negated := startsWith (txt "!") pattern in
        let bare := if negated then drop 1 pattern else pattern in
        let hit := pattern_hits names bare in
        if hit && negated then false else match_patterns names (matched || hit) patterns
  end.
Definition lineMatchesHost (patterns : text) (names : list text) : bool :=
  match_patterns names false (split (ch ","%char) patterns).

(** The body of [findKnownHostKeys]' loops. *)
Definition line_match (names : list text) (file : text) (index : nat) (raw : text)
  : option KnownHostsMatch :=
  '(withdrawn, patterns, encodedKey) ← parse_line raw;
  if negb (lineMatchesHost patterns names) then None
  else
    let keyBlob := base64 encodedKey in
    if decide (keyBlob = []) then None
    else Some (MkMatch (fingerprintOf keyBlob) file (index + 1) withdrawn).

Definition findKnownHostKeys (host : text) (port : nat) (sources : list KnownHostsSource)
  : list KnownHostsMatch :=
  sources ≫= λ s,
    omap id (imap (line_match (knownHostsNames host port) (s_file s)) (split_lines (contents s))).

Definition judgeAgainstKnownHosts (offeredFingerprint : text) (matches : list KnownHostsMatch)
  : KnownHostsVerdict :=
  let offered := normalizeFingerprint offeredFingerprint in
  match list_find (λ m, revoked m = true ∧ fingerprint m = offered) matches with
  | Some (_, m) => Revoked (m_file m) (m_line m)
  | None =>
      match list_find (λ m, revoked m = false ∧ fingerprint m = offered) matches with
      | Some (_, m) => Trusted (m_file m) (m_line m)
      | None =>
          match list_find (λ m, revoked m = false) matches with
          | Some (_, other) => OtherKey (m_file other) (m_line other)
          | None => Unknown
          end
      end
  end.

(** The two files of a user, those that can be read. *)
Definition USER_KNOWN_HOSTS_FILES : list text := txt <$> ["known_hosts"; "known_hosts2"].
Definition readUserKnownHosts (in_ssh_dir : text → text) (readFile : text → option text)
  : list KnownHostsSource :=
  omap (λ name, MkSource (in_ssh_dir name) <$> readFile (in_ssh_dir name)) USER_KNOWN_HOSTS_FILES.

Definition findHostKeyRevocation (sources : list KnownHostsSource) (offered : text)
  (names : list text) (port : nat) : option (text * nat) :=
  match judgeAgainstKnownHosts offered (names ≫= λ name, findKnownHostKeys name port sources) with
  | Revoked file line => Some (file, line)
  | _ => None
  end.
End known_hosts.

(** ** What a file says *)

Section specification.
Context (toLowerCase : text → text) (canonical : unit_ → unit_).
Context (base64 : text → list N) (hmac_sha1 : list N → text → list N).
Notation lineMatchesHost := (lineMatchesHost toLowerCase canonical base64 hmac_sha1).

(** What a pattern with wildcards is like: [*] any units of one line, [?] one. *)
Inductive like : text → text → Prop :=
| like_nil : like [] []
| like_star_none p n : like p n → like (STAR :: p) n
| like_star_one p x n : is_line_end x = false → like (STAR :: p) n → like (STAR :: p) (x :: n)
| like_question p x n : is_line_end x = false → like p n → like (QUESTION :: p) (x :: n)
| like_unit p c x n : c ≠ STAR → c ≠ QUESTION → canonical c = canonical x → like p n →
    like (c :: p) (x :: n).

Lemma glob_like p n : glob canonical p n = true ↔ like p n.
Proof.
  revert n. induction p as [|c p IH]; intros n; simpl.
  { rewrite bool_decide_eq_true. split; [intros ->; constructor|by inversion 1]. }
  destruct (decide (c = STAR)) as [->|Hs].
  - induction n as [|x n IHn]; simpl.
    + rewrite orb_false_r, IH. split; [by constructor|]. inversion 1; by subst.
    + rewrite orb_true_iff, IH, andb_true_iff, negb_true_iff, IHn. split.
      * intros [?|[? ?]]; by constructor.
      * inversion 1; subst; auto; done.
  - destruct n as [|x n]; simpl; [split; [done|inversion 1; by subst]|].
    rewrite andb_true_iff, IH. destruct (decide (c = QUESTION)) as [->|Hq].
    + rewrite negb_true_iff. split; [intros [? ?]; by constructor|]. inversion 1; by subst.
    + rewrite bool_decide_eq_true. split; [intros [? ?]; by constructor|]. inversion 1; by subst.
Qed.

(** Whether a pattern without its negation is about a name. *)
Definition about_name (bare name : text) : Prop :=
  if startsWith (txt "|1|") bare then
    ∃ pre salt64 hash64, split BAR bare = [pre; txt "1"; salt64; hash64] ∧
      base64 salt64 ≠ [] ∧ base64 hash64 ≠ [] ∧ hmac_sha1 (base64 salt64) name = base64 hash64
  else if decide (STAR ∈ bare ∨ QUESTION ∈ bare) then like bare name
  else toLowerCase bare = toLowerCase name.

Lemma hashed_spec bare name :
  hashedNameMatches base64 hmac_sha1 bare name = true ↔
  ∃ pre salt64 hash64, split BAR bare = [pre; txt "1"; salt64; hash64] ∧
    base64 salt64 ≠ [] ∧ base64 hash64 ≠ [] ∧ hmac_sha1 (base64 salt64) name = base64 hash64.
Proof.
  unfold hashedNameMatches. split.
  - destruct (split BAR bare) as [|pre [|one [|salt64 [|hash64 [|? ?]]]]]; try done.
    destruct (decide (one ≠ txt "1")) as [|Hone]; [done|]. apply dec_stable in Hone as ->.
    destruct (decide (base64 salt64 = [] ∨ base64 hash64 = [])); [done|].
    rewrite bool_decide_eq_true. intros Hh. exists pre, salt64, hash64. split_and!; tauto.
  - intros (pre & salt64 & hash64 & -> & ? & ? & ?). rewrite decide_False by (intros []; done).
    rewrite decide_False by tauto. by apply bool_decide_eq_true.
Qed.

Lemma pattern_hits_spec names bare :
  pattern_hits toLowerCase canonical base64 hmac_sha1 names bare = true ↔
  ∃ name, name ∈ names ∧ about_name bare name.
Proof.
  unfold pattern_hits. rewrite existsb_exists.
  split; intros (name & Hin & Hn); exists name; (split; [by apply list_elem_of_In|]); revert Hn;
    unfold about_name; destruct (startsWith _ bare); try apply hashed_spec;
    unfold plainPatternMatches, includes; case_decide as Hw;
    (destruct (bool_decide (STAR ∈ bare)) eqn:H1; destruct (bool_decide (QUESTION ∈ bare)) eqn:H2; simpl;
     rewrite ?bool_decide_eq_true, ?bool_decide_eq_false in H1; rewrite ?bool_decide_eq_true, ?bool_decide_eq_false in H2);
    rewrite ?glob_like, ?bool_decide_eq_true; tauto.
Qed.

(** What one of a line's patterns says of the names: it is about one, or it excludes one. *)
Definition includes_host (names : list text) (raw : text) : Prop :=
  trim raw ≠ [] ∧ startsWith (txt "!") (trim raw) = false ∧
  ∃ name, name ∈ names ∧ about_name (trim raw) name.
Definition excludes_host (names : list text) (raw : text) : Prop :=
  trim raw ≠ [] ∧ startsWith (txt "!") (trim raw) = true ∧
  ∃ name, name ∈ names ∧ about_name (drop 1 (trim raw)) name.

Lemma match_patterns_spec names matched ps :
  match_patterns toLowerCase canonical base64 hmac_sha1 names matched ps = true ↔
  (matched = true ∨ ∃ raw, raw ∈ ps ∧ includes_host names raw) ∧
  ∀ raw, raw ∈ ps → ¬ excludes_host names raw.
Proof.
  revert matched. induction ps as [|raw ps IH]; intros matched; cbn [match_patterns]; cbv zeta.
  { split; [intros ->; split; [by left|intros ? Hin; by inversion Hin]|].
    intros [[?|(? & Hin & _)] _]; [done|by inversion Hin]. }
  setoid_rewrite elem_of_cons. case_decide as Hempty.
  { rewrite IH. unfold includes_host, excludes_host. split.
    - intros [[?|(r & ? & ?)] Hno]; (split; [eauto 10|]); intros r' [->|?] ?; try tauto; by apply (Hno r').
    - intros [[?|(r & [->|?] & ?)] Hno]; [|tauto|]; (split; [eauto 10|]); intros r' ?; auto. }
  destruct (startsWith (txt "!") (trim raw)) eqn:Hneg.
  - rewrite andb_true_r.
    destruct (pattern_hits _ _ _ _ names (drop 1 (trim raw))) eqn:Hhit.
    + apply pattern_hits_spec in Hhit. split; [done|]. intros [_ Hno]. exfalso.
      apply (Hno raw); [by left|]. by split_and!.
    + assert (¬ excludes_host names raw) as Hx.
      { intros (_ & _ & Hx). apply pattern_hits_spec in Hx. congruence. }
      assert (¬ includes_host names raw) as Hi by (intros (_ & ? & _); congruence).
      rewrite orb_false_r, IH. split.
      * intros [[?|(r & ? & ?)] Hno]; (split; [eauto 10|]); intros r' [->|?]; auto.
      * intros [[?|(r & [->|?] & ?)] Hno]; [|done|]; (split; [eauto 10|]); intros r' ?; auto.
  - rewrite andb_false_r. assert (¬ excludes_host names raw) as Hx by (intros (_ & ? & _); congruence).
    rewrite IH, orb_true_iff, pattern_hits_spec. split.
    + intros [[[?|?]|(r & ? & ?)] Hno]; (split; [|intros r' [->|?]; auto]).
      * by left.
      * right. exists raw. split; [by left|]. by split_and!.
      * right. exists r. split; [by right|done].
    + intros [Hin Hno]. split; [|intros r' ?; auto].
      destruct Hin as [?|(r & [->|?] & Hr)]; [auto| |eauto].
      left. right. by destruct Hr as (_ & _ & ?).
Qed.

Context (sha256 : list N → text).
Notation findKnownHostKeys := (findKnownHostKeys toLowerCase canonical base64 hmac_sha1 sha256).

(** A line of one of the files that is about the host: withdrawn or not, the fingerprint of its
    key, where it is. *)
Definition says (names : list text) (port : nat) (sources : list KnownHostsSource)
  (withdrawn : bool) (print file : text) (line : nat) : Prop :=
  ∃ source index raw patterns encodedKey name,
    source ∈ sources ∧ split_lines (contents source) !! index = Some raw ∧
    parse_line raw = Some (withdrawn, patterns, encodedKey) ∧ name ∈ names ∧
    lineMatchesHost patterns (knownHostsNames name port) = true ∧
    base64 encodedKey ≠ [] ∧ print = fingerprintOf sha256 (base64 encodedKey) ∧
    file = s_file source ∧ line = index + 1.

Lemma elem_of_matches names port sources m :
  m ∈ (names ≫= λ name, findKnownHostKeys name port sources) ↔
  says names port sources (revoked m) (fingerprint m) (m_file m) (m_line m).
Proof.
  rewrite list_elem_of_bind. unfold KnownHosts.findKnownHostKeys, says. setoid_rewrite list_elem_of_bind.
  setoid_rewrite list_elem_of_omap. split.
  - intros (name & (source & (o & Ho & Hm) & Hsource) & Hname). cbv beta in Hm. unfold id in Hm. subst o.
    apply elem_of_lookup_imap in Ho as (index & raw & Hline & Hraw).
    unfold line_match in Hline. symmetry in Hline.
    apply bind_Some in Hline as ([[w pats] enc] & Hparse & Hline).
    destruct (KnownHosts.lineMatchesHost _ _ _ _ pats _) eqn:Hhost; [|done]. simpl in Hline.
    case_decide; [done|]. injection Hline as <-. simpl.
    by exists source, index, raw, pats, enc, name.
  - intros (source & index & raw & pats & enc & name & Hs & Hraw & Hparse & Hname & Hhost & Hkey & Hp & Hf & Hl).
    exists name. split; [|done]. exists source. split; [|done]. eexists. split; [|reflexivity].
    apply elem_of_lookup_imap. exists index, raw. split; [|done]. unfold line_match.
    rewrite Hparse. simpl. rewrite Hhost. simpl. rewrite decide_False by done.
    rewrite <- Hp, <- Hf, <- Hl. by destruct m.
Qed.
End specification.

(** ** Properties *)

Section properties.
Context (toLowerCase : text → text) (canonical : unit_ → unit_).
Context (base64 : text → list N) (hmac_sha1 : list N → text → list N) (sha256 : list N → text).
Notation says := (says toLowerCase canonical base64 hmac_sha1 sha256).
Notation findKnownHostKeys := (findKnownHostKeys toLowerCase canonical base64 hmac_sha1 sha256).
Notation about_name := (about_name toLowerCase canonical base64 hmac_sha1).

(** The verdict on an offered key is what the files say. It is withdrawn exactly when some line
    about the host, in any file, withdraws that very key, whatever other lines say of it; otherwise
    trusted exactly when some line about the host has it; otherwise the host is known by another key
    exactly when some line about it has one that is not withdrawn; and unknown in every other case.
    The line the verdict names is such a line. *)
Theorem known_hosts_verdict names port sources offered :
  let key := normalizeFingerprint offered in
  let matches := names ≫= λ name, findKnownHostKeys name port sources in
  match judgeAgainstKnownHosts offered matches with
  | Revoked file line => says names port sources true key file line
  | Trusted file line =>
      says names port sources false key file line ∧ ∀ f l, ¬ says names port sources true key f l
  | OtherKey file line =>
      (∃ other, other ≠ key ∧ says names port sources false other file line) ∧
      ∀ w f l, ¬ says names port sources w key f l
  | Unknown =>
      (∀ f l, ¬ says names port sources true key f l) ∧
      ∀ other f l, ¬ says names port sources false other f l
  end.
Proof.
  cbv zeta. set (key := normalizeFingerprint offered). unfold judgeAgainstKnownHosts. fold key.
  pose proof (elem_of_matches toLowerCase canonical base64 hmac_sha1 sha256 names port sources) as Hm.
  set (matches := names ≫= _) in *.
  assert (∀ w f l, says names port sources w key f l →
    ∃ m, m ∈ matches ∧ revoked m = w ∧ fingerprint m = key) as Hsays.
  { intros w f l Hs. exists (MkMatch key f l w). by rewrite Hm. }
  assert (∀ i m, matches !! i = Some m → says names port sources (revoked m) (fingerprint m) (m_file m) (m_line m))
    as Hin.
  { intros i m Hi. by apply Hm, list_elem_of_lookup_2 with i. }
  destruct (list_find _ matches) as [[i m]|] eqn:H1.
  { apply list_find_Some in H1 as (Hi & [Hr Hf] & _). rewrite <- Hr, <- Hf. by eapply Hin. }
  apply list_find_None in H1. rewrite Forall_forall in H1.
  assert (∀ f l, ¬ says names port sources true key f l) as Hnot.
  { intros f l Hs. destruct (Hsays _ _ _ Hs) as (m & Hmem & Hr & Hf). by apply (H1 m Hmem). }
  destruct (list_find _ matches) as [[i m]|] eqn:H2.
  { apply list_find_Some in H2 as (Hi & [Hr Hf] & _). split; [|done].
    rewrite <- Hr, <- Hf. by eapply Hin. }
  apply list_find_None in H2. rewrite Forall_forall in H2.
  destruct (list_find _ matches) as [[i m]|] eqn:H3.
  { apply list_find_Some in H3 as (Hi & Hr & _). split.
    - exists (fingerprint m). split; [|rewrite <- Hr; by eapply Hin].
      intros Hf. apply (H2 m); [by eapply list_elem_of_lookup_2|done].
    - intros w f l Hs. destruct w; [by eapply Hnot|].
      destruct (Hsays _ _ _ Hs) as (m' & Hmem & Hr' & Hf). by apply (H2 m' Hmem). }
  apply list_find_None in H3. rewrite Forall_forall in H3. split; [done|].
  intros other f l Hs. apply (H3 (MkMatch other f l false)); [|done]. by apply Hm.
Qed.

(** C30: No line overrides a withdrawal. A key is refused as withdrawn exactly when some line of the
    user's files that is about the host withdraws it: further files and further lines of any other
    kind, in any order, never lift the refusal. *)
Theorem revocation_wins sources offered names port :
  is_Some (findHostKeyRevocation toLowerCase canonical base64 hmac_sha1 sha256 sources offered names port) ↔
  ∃ file line, says names port sources true (normalizeFingerprint offered) file line.
Proof.
  unfold findHostKeyRevocation, judgeAgainstKnownHosts.
  pose proof (elem_of_matches toLowerCase canonical base64 hmac_sha1 sha256 names port sources) as Hm.
  set (matches := names ≫= _) in *. destruct (list_find _ matches) as [[i m]|] eqn:H1.
  - apply list_find_Some in H1 as (Hi & [Hr Hf] & _). split; [|eauto]. intros _.
    exists (m_file m), (m_line m). rewrite <- Hr, <- Hf. by apply Hm, list_elem_of_lookup_2 with i.
  - apply list_find_None in H1. rewrite Forall_forall in H1. split.
    + intros [? Hs]. by repeat case_match.
    + intros (file & line & Hs). exfalso.
      apply (H1 (MkMatch (normalizeFingerprint offered) file line true)); [by apply Hm|done].
Qed.

(** Which hosts a line is about. A line is about a host exactly when one of its patterns is
    about one of the host's names and none of its negated patterns is, in whatever order they come;
    a pattern is about a name by its text, by [*] and [?] standing for any units and for one, or by
    the hash of the name under the pattern's salt. *)
Theorem patterns_settle_line patterns names :
  let ps := filter (λ p, p ≠ []) (trim <$> split (ch ","%char) patterns) in
  lineMatchesHost toLowerCase canonical base64 hmac_sha1 patterns names = true ↔
  (∃ p name, p ∈ ps ∧ startsWith (txt "!") p = false ∧ name ∈ names ∧ about_name p name) ∧
  ∀ p name, p ∈ ps → startsWith (txt "!") p = true → name ∈ names → ¬ about_name (drop 1 p) name.
Proof.
  cbv zeta. unfold lineMatchesHost. rewrite match_patterns_spec.
  assert (∀ p, p ∈ filter (λ p, p ≠ []) (trim <$> split (ch ","%char) patterns) ↔
    ∃ raw, raw ∈ split (ch ","%char) patterns ∧ p = trim raw ∧ p ≠ []) as Hps.
  { intros p. rewrite list_elem_of_filter, list_elem_of_fmap. split.
    - intros (? & raw & ? & ?). by exists raw.
    - intros (raw & ? & ? & ?). split; [done|]. by exists raw. }
  split.
  - intros [[?|(raw & Hraw & Hne & Hneg & name & Hname & Habout)] Hno]; [done|]. split.
    + exists (trim raw), name. rewrite Hps. split_and!; try done. by exists raw.
    + intros p name' (raw' & Hraw' & -> & Hne')%Hps Hneg' Hname' Hab. apply (Hno raw' Hraw').
      split_and!; [done|done|]. by exists name'.
  - intros [(p & name & (raw & Hraw & -> & Hne)%Hps & Hneg & Hname & Hab) Hno]. split.
    + right. exists raw. split; [done|]. split_and!; [done|done|]. by exists name.
    + intros raw' Hraw' (Hne' & Hneg' & name' & Hname' & Hab'). eapply (Hno (trim raw') name'); [|done..].
      apply Hps. exists raw'. done.
Qed.
End properties.

(** A file with a comment, a CA line, a withdrawn key and a key of a bracketed port. *)
Definition sample : KnownHostsSource :=
  MkSource (txt "f") (join LF (txt <$>
    ["# c"; "@cert-authority *.lan ssh-rsa K1"; "@revoked  h.lan ssh-rsa K2"; "*.lan,!x.lan ssh-rsa K1";
     "[h.lan]:2022 ssh-rsa K3 me"])).
Definition judge_sample (key host : string) (port : nat) : KnownHostsVerdict :=
  let lower := fmap (λ c, if is_upper_letter c then (c + 32)%N else c) in
  judgeAgainstKnownHosts (fingerprintOf id (txt key))
    (findKnownHostKeys lower ascii_upper id (λ salt name, salt ++ name) id (txt host) port [sample]).
Example judge_samples :
  judge_sample "K1" "H.lan" 22 = Trusted (txt "f") 4 ∧ judge_sample "K2" "h.lan" 22 = Revoked (txt "f") 3 ∧
  judge_sample "K3" "h.lan" 22 = OtherKey (txt "f") 4 ∧ judge_sample "K3" "h.lan" 2022 = Trusted (txt "f") 5 ∧
  judge_sample "K1" "x.lan" 22 = Unknown.
Proof. repeat split; vm_compute; reflexivity. Qed.
