(* ===== verification/ExpandVars.v ===== *)
(** * Variables in a folder of the settings ([packages/hub/src/files/expand-vars.ts])

    The hub's expansion of [${VAR}], with the agent's ([crates/lasterm-agent/src/expand.rs]) that it
    is to agree with. The two loops are by index with fuel; the lookup is passed a state, since the
    hub's [referencedVariables] records the names it is asked for. *)

From Stdlib Require Import Ascii.
From stdpp Require Import strings.
From S2P Require Import Prelude JsMap Text.
#[local] Open Scope lasterm_scope.

Definition BACKSLASH : unit_ := ch "\"%char.
Definition DOLLAR : unit_ := ch "$"%char.
Definition OPEN : unit_ := ch "{"%char.
Definition CLOSE : unit_ := ch "}"%char.

(** [t.slice(i, j)] *)
Definition slice (i j : nat) (t : text) : text := take (j - i) (drop i t).

(** Where the first [}] from [from] on is. *)
Definition closingBrace (t : text) (from : nat) : option nat :=
  (λ j, from + j.1) <$> list_find (λ c, c = CLOSE) (drop from t).

Section expansion.
Context {St : Type} (lookup : text → St → option text * St).
Implicit Types (t out : text) (i close : nat) (s : St).

(** The hub's loop; [None] is that it has not ended. *)
Fixpoint expand_from (fuel : nat) t i out s : option (text * St) :=
  match fuel with
  | 0 => None
  | S fuel =>
      match t !! i with
      | None => Some (out, s)
      | Some char =>
          if decide (char = BACKSLASH) then
            if decide (t !! (i + 1) = Some BACKSLASH) then
              expand_from fuel t (i + 2) (out ++ [BACKSLASH]) s
            else
              match (if decide (t !! (i + 1) = Some DOLLAR ∧ t !! (i + 2) = Some OPEN)
                     then closingBrace t (i + 3) else None) with
              | Some close => expand_from fuel t (close + 1) (out ++ slice (i + 1) (close + 1) t) s
              | None => expand_from fuel t (i + 1) (out ++ [BACKSLASH]) s
              end
          else
            match (if decide (char = DOLLAR ∧ t !! (i + 1) = Some OPEN)
                   then closingBrace t (i + 2) else None) with
            | Some close =>
                let '(value, s) := lookup (slice (i + 2) close t) s in
                expand_from fuel t (close + 1) (out ++ default (slice i (close + 1) t) value) s
            | None => expand_from fuel t (i + 1) (out ++ [char]) s
            end
      end
  end.

(** The agent's loop. *)
Fixpoint expand_vars_from (fuel : nat) t i out s : option (text * St) :=
  match fuel with
  | 0 => None
  | S fuel =>
      match t !! i with
      | None => Some (out, s)
      | Some char =>
          if decide (char = BACKSLASH) then
            if decide (t !! (i + 1) = Some BACKSLASH) then
              if decide (t !! (i + 2) = Some DOLLAR ∧ t !! (i + 3) = Some OPEN)
              then expand_vars_from fuel t (i + 2) (out ++ [BACKSLASH]) s
              else expand_vars_from fuel t (i + 2) (out ++ [BACKSLASH]) s
            else if decide (t !! (i + 1) = Some DOLLAR ∧ t !! (i + 2) = Some OPEN) then
              match closingBrace t (i + 3) with
              | Some close => expand_vars_from fuel t (close + 1) (out ++ slice (i + 1) (close + 1) t) s
              | None => expand_vars_from fuel t (i + 1) (out ++ [BACKSLASH]) s
              end
            else expand_vars_from fuel t (i + 1) (out ++ [BACKSLASH]) s
          else if decide (char = DOLLAR ∧ t !! (i + 1) = Some OPEN) then
            match closingBrace t (i + 2) with
            | Some close =>
                let '(value, s) := lookup (slice (i + 2) close t) s in
                match value with
                | Some v => expand_vars_from fuel t (close + 1) (out ++ v) s
                | None => expand_vars_from fuel t (close + 1) (out ++ slice i (close + 1) t) s
                end
            | None => expand_vars_from fuel t (i + 1) (out ++ [char]) s
            end
          else expand_vars_from fuel t (i + 1) (out ++ [char]) s
      end
  end.
End expansion.

(** A lookup that keeps no state. *)
Definition pure_lookup (f : text → option text) (name : text) (s : unit) : option text * unit := (f name, s).

Definition expandVariables (t : text) (lookup : text → option text) : option text :=
  fst <$> expand_from (pure_lookup lookup) (S (length t)) t 0 [] tt.
Definition expand_vars (t : text) (lookup : text → option text) : option text :=
  fst <$> expand_vars_from (pure_lookup lookup) (S (length t)) t 0 [] tt.

Definition record_name (name : text) (names : list text) : option text * list text :=
  (None, if decide (name ∈ names) then names else names ++ [name]).
Definition referencedVariables (t : text) : option (list text) :=
  snd <$> expand_from record_name (S (length t)) t 0 [] [].

(** [lookupIn]: the first spelling of a name wins when case is ignored. *)
Definition fold_case (toLowerCase : text → text) (entries : list (text * text)) : jsmap text text :=
  fold_left (λ m e, if js_has (toLowerCase e.1) m then m else <[toLowerCase e.1 := e.2]> m) entries ∅.
Definition exact_case (entries : list (text * text)) : jsmap text text :=
  fold_left (λ m e, <[e.1 := e.2]> m) entries ∅.
Definition lookupIn (toLowerCase : text → text) (entries : list (text * text)) (ignoreCase : bool)
  (name : text) : option text :=
  if ignoreCase then fold_case toLowerCase entries !! toLowerCase name
  else exact_case entries !! name.

(** ** The pieces of a text *)

(** A unit as it is, an escaped backslash, an escaped or a read [${...}]. *)
Inductive piece := Plain (c : unit_) | TwoBackslashes | EscapedVar (name : text) | Var (name : text).

Definition braced (name : text) : text := [DOLLAR; OPEN] ++ name ++ [CLOSE].
Definition source (p : piece) : text :=
  match p with
  | Plain c => [c]
  | TwoBackslashes => [BACKSLASH; BACKSLASH]
  | EscapedVar name => BACKSLASH :: braced name
  | Var name => braced name
  end.
Definition render (lookup : text → option text) (p : piece) : text :=
  match p with
  | Plain c => [c]
  | TwoBackslashes => [BACKSLASH]
  | EscapedVar name => braced name
  | Var name => default (braced name) (lookup name)
  end.
Definition var_of (p : piece) : option text := match p with Var name => Some name | _ => None end.

(** The reading is forced: what each piece needs of what follows it. *)
Definition read_as (p : piece) (rest : text) : Prop :=
  match p with
  | Plain c => (c = BACKSLASH → head rest ≠ Some BACKSLASH) ∧
      (c = DOLLAR ∧ head rest = Some OPEN ∨ c = BACKSLASH ∧ take 2 rest = [DOLLAR; OPEN] → CLOSE ∉ rest)
  | TwoBackslashes => True
  | EscapedVar name | Var name => CLOSE ∉ name
  end.

Section pieces.
Implicit Types (t out : text).

Lemma closingBrace_spec t from close :
  closingBrace t from = Some close ↔
  ∃ name rest, drop from t = name ++ CLOSE :: rest ∧ CLOSE ∉ name ∧ close = from + length name.
Proof.
  unfold closingBrace. rewrite fmap_Some. split.
  - intros ([j c] & Hf & ->). apply list_find_Some in Hf as (Hj & -> & Hbefore).
    exists (take j (drop from t)), (drop (S j) (drop from t)). split_and!.
    + by rewrite take_drop_middle.
    + intros [k Hk]%list_elem_of_lookup. apply lookup_take_Some in Hk as [Hk Hlt].
      by apply (Hbefore k CLOSE Hk).
    + simpl. apply lookup_lt_Some in Hj. rewrite length_take. lia.
  - intros (name & rest & Hd & Hn & ->). exists (length name, CLOSE). split; [|done].
    apply list_find_Some. rewrite Hd. split_and!; [by rewrite list_lookup_middle|done|].
    intros k c Hk Hlt ->. apply Hn. rewrite lookup_app_l in Hk by done. by eapply list_elem_of_lookup_2.
Qed.

Lemma closingBrace_None t from : closingBrace t from = None ↔ CLOSE ∉ drop from t.
Proof.
  unfold closingBrace. rewrite fmap_None, list_find_None, Forall_forall. split.
  - intros H Hc. by apply (H CLOSE).
  - intros H c Hc ->. done.
Qed.

Lemma lookup_from t i c r k : drop i t = c :: r → t !! (i + S k) = r !! k.
Proof. intros Hd. by rewrite <- lookup_drop, Hd. Qed.
Lemma drop_from t i c r k : drop i t = c :: r → drop (i + S k) t = drop k r.
Proof. intros Hd. by rewrite <- drop_drop, Hd. Qed.

Lemma slice_from t i k l rest : drop i t = l ++ rest → k = i + length l → slice i k t = l.
Proof.
  intros Hd ->. unfold slice. rewrite Hd. replace (i + length l - i) with (length l) by lia.
  apply take_app_length.
Qed.

Definition opens (r : text) : Prop := r !! 0 = Some DOLLAR ∧ r !! 1 = Some OPEN.

Lemma opens_spec r : opens r ↔ ∃ r2, r = DOLLAR :: OPEN :: r2.
Proof.
  unfold opens. destruct r as [|a [|b r]]; simpl; split; try (by intros []); try (by intros (? & [=])).
  - intros [[= ->] [= ->]]. eauto.
  - by intros (r2 & [= -> -> _]).
Qed.

(** One piece, for a lookup: what it gives and the state after. *)
Definition ask {St} (lookup : text → St → option text * St) (p : piece) (s : St) : text * St :=
  match var_of p with
  | Some name => let '(value, s') := lookup name s in (render (λ _, value) p, s')
  | None => (render (λ _, None) p, s)
  end.

(** One turn of each loop reads one piece, the same for both. *)
Lemma expand_turn t i :
  i < length t → ∃ p rest, drop i t = source p ++ rest ∧ read_as p rest ∧
    ∀ St (lookup : text → St → option text * St) fuel out s,
      expand_from lookup (S fuel) t i out s =
        (let '(o, s') := ask lookup p s in expand_from lookup fuel t (i + length (source p)) (out ++ o) s') ∧
      expand_vars_from lookup (S fuel) t i out s =
        (let '(o, s') := ask lookup p s in expand_vars_from lookup fuel t (i + length (source p)) (out ++ o) s').
Proof.
  intros [c Hc]%lookup_lt_is_Some. assert (drop i t = c :: drop (S i) t) as Hd by (by apply drop_S).
  set (r := drop (S i) t) in *.
  cut (∃ p rest, c :: r = source p ++ rest ∧ read_as p rest ∧
    ∀ St (lookup : text → St → option text * St) fuel out s,
      expand_from lookup (S fuel) t i out s =
        (let '(o, s') := ask lookup p s in expand_from lookup fuel t (i + length (source p)) (out ++ o) s') ∧
      expand_vars_from lookup (S fuel) t i out s =
        (let '(o, s') := ask lookup p s in expand_vars_from lookup fuel t (i + length (source p)) (out ++ o) s')).
  { by rewrite Hd. }
  cbn [expand_from expand_vars_from]. rewrite Hc.
  rewrite (lookup_from t i c r 0 Hd), (lookup_from t i c r 1 Hd).
  fold (opens r). destruct (decide (c = BACKSLASH)) as [->|Hb].
  - destruct (decide (r !! 0 = Some BACKSLASH)) as [Hr|Hr].
    { exists TwoBackslashes, (drop 1 r). destruct r as [|x r2]; [done|]. injection Hr as ->.
      split_and!; [done|done|]. intros. by case_decide. }
    destruct (decide (opens r)) as [Ho|Ho]; [destruct (closingBrace t (i + 3)) as [close|] eqn:Hcl|].
    + apply opens_spec in Ho as (r2 & Hr2). apply closingBrace_spec in Hcl as (name & rest & Hn & Hfree & ->).
      rewrite (drop_from t i BACKSLASH r 2 Hd), Hr2 in Hn. simpl in Hn. rewrite drop_0 in Hn.
      exists (EscapedVar name), rest. rewrite Hr2, Hn. split_and!; [unfold braced; simpl; by rewrite <- app_assoc|done|].
      intros. unfold ask. cbn [var_of render].
      rewrite (slice_from t (i + 1) (i + 3 + length name + 1) (braced name) rest).
      * replace (i + length (source (EscapedVar name))) with (i + 3 + length name + 1); [done|].
        simpl. rewrite !length_app. simpl. lia.
      * rewrite (drop_from t i BACKSLASH r 0 Hd), drop_0, Hr2, Hn. unfold braced. simpl. by rewrite <- app_assoc.
      * unfold braced. rewrite !length_app. simpl. lia.
    + exists (Plain BACKSLASH), r. split_and!; [done| |done]. apply closingBrace_None in Hcl.
      apply opens_spec in Ho as (r2 & Hr2). rewrite (drop_from t i BACKSLASH r 2 Hd), Hr2 in Hcl.
      simpl in Hcl. rewrite drop_0 in Hcl. rewrite Hr2. simpl. split; [done|].
      intros _. rewrite !elem_of_cons. by intros [?|[?|?]].
    + exists (Plain BACKSLASH), r. split_and!; [done| |done]. simpl. split.
      * intros _ Hh. apply Hr. by destruct r.
      * intros [[? _]|[_ Ht]]; [done|]. exfalso. apply Ho, opens_spec.
        destruct r as [|a [|b r2]]; try done. injection Ht as -> ->. eauto.
  - destruct (decide (c = DOLLAR ∧ r !! 0 = Some OPEN)) as [[-> Ho]|Ho];
      [destruct (closingBrace t (i + 2)) as [close|] eqn:Hcl|].
    + destruct r as [|x r2] eqn:Hr2; [done|]. injection Ho as ->.
      apply closingBrace_spec in Hcl as (name & rest & Hn & Hfree & ->).
      rewrite (drop_from t i DOLLAR _ 1 Hd) in Hn. simpl in Hn. rewrite drop_0 in Hn. subst r2.
      exists (Var name), rest. split_and!; [unfold braced; simpl; by rewrite <- app_assoc|done|].
      intros. unfold ask. cbn [var_of render].
      rewrite (slice_from t (i + 2) (i + 2 + length name) name (CLOSE :: rest));
        [|by rewrite (drop_from t i DOLLAR _ 1 Hd)|done].
      rewrite (slice_from t i (i + 2 + length name + 1) (braced name) rest).
      * replace (i + length (source (Var name))) with (i + 2 + length name + 1);
          [|simpl; rewrite !length_app; simpl; lia].
        by destruct (lookup name s) as [[value|] s'].
      * rewrite Hd. unfold braced. simpl. by rewrite <- app_assoc.
      * unfold braced. rewrite !length_app. simpl. lia.
    + exists (Plain DOLLAR), r. split_and!; [done| |done]. apply closingBrace_None in Hcl.
      destruct r as [|x r2] eqn:Hr2; [done|]. injection Ho as ->.
      rewrite (drop_from t i DOLLAR _ 1 Hd) in Hcl. simpl in Hcl. rewrite drop_0 in Hcl.
      simpl. split; [done|]. intros _. rewrite elem_of_cons. by intros [?|?].
    + exists (Plain c), r. split_and!; [done| |done]. simpl. split; [done|].
      intros [[-> Hh]|[-> _]]; [|done]. exfalso. apply Ho. split; [done|]. by destruct r.
Qed.

Inductive reads : text → list piece → Prop :=
| reads_nil : reads [] []
| reads_cons p rest ps : read_as p rest → reads rest ps → reads (source p ++ rest) (p :: ps).

Fixpoint ask_all {St} (lookup : text → St → option text * St) (ps : list piece) (s : St) : text * St :=
  match ps with
  | [] => ([], s)
  | p :: ps => let '(o, s) := ask lookup p s in let '(os, s) := ask_all lookup ps s in (o ++ os, s)
  end.

(** With fuel for the units left, both loops end, having read every piece once. *)
Lemma expand_reads fuel t i :
  length t - i < fuel → ∃ ps, reads (drop i t) ps ∧
    ∀ St (lookup : text → St → option text * St) out s,
      expand_from lookup fuel t i out s = (let '(o, s') := ask_all lookup ps s in Some (out ++ o, s')) ∧
      expand_vars_from lookup fuel t i out s = (let '(o, s') := ask_all lookup ps s in Some (out ++ o, s')).
Proof.
  revert i. induction fuel as [|fuel IH]; intros i Hf; [lia|].
  destruct (decide (i < length t)) as [Hi|Hi].
  - destruct (expand_turn t i Hi) as (p & rest & Hd & Hread & Hturn).
    assert (0 < length (source p)) as Hlen by (destruct p; simpl; lia).
    destruct (IH (i + length (source p))) as (ps & Hps & Heval); [lia|].
    exists (p :: ps). split.
    + rewrite Hd. constructor; [done|]. rewrite <- drop_drop, Hd, drop_app_length in Hps. done.
    + intros St lookup out s. destruct (Hturn St lookup fuel out s) as [-> ->]. cbn [ask_all].
      destruct (ask lookup p s) as [o s1]. destruct (Heval St lookup (out ++ o) s1) as [-> ->].
      destruct (ask_all lookup ps s1) as [os s2]. by rewrite <- app_assoc.
  - exists []. rewrite drop_ge by lia. split; [constructor|]. intros. simpl.
    rewrite lookup_ge_None_2 by lia. by rewrite app_nil_r.
Qed.
End pieces.

Section readings.
Implicit Types (t : text) (ps : list piece).

Lemma ask_all_pure f ps : ask_all (pure_lookup f) ps tt = (concat (render f <$> ps), tt).
Proof.
  induction ps as [|p ps IH]; [done|]. cbn [ask_all]. unfold ask.
  destruct p; cbn [var_of pure_lookup]; rewrite IH; done.
Qed.

Lemma ask_all_record ps names :
  (ask_all record_name ps names).2 =
    fold_left (λ l name, if decide (name ∈ l) then l else l ++ [name]) (omap var_of ps) names.
Proof.
  revert names. induction ps as [|p ps IH]; intros names; [done|]. cbn [ask_all]. unfold ask.
  destruct p as [c| |name|name]; cbn [var_of record_name].
  1-3: destruct (ask_all record_name ps names) as [o l] eqn:E; simpl; by rewrite <- IH, E.
  set (l1 := if decide (name ∈ names) then names else names ++ [name]).
  destruct (ask_all record_name ps l1) as [o l] eqn:E. simpl. fold l1. by rewrite <- IH, E.
Qed.

(** The first piece of a text is forced. *)
Lemma read_as_inj p p' rest rest' :
  source p ++ rest = source p' ++ rest' → read_as p rest → read_as p' rest' → p = p' ∧ rest = rest'.
Proof.
  assert (∀ n n' r r', CLOSE ∉ n → CLOSE ∉ n' → n ++ CLOSE :: r = n' ++ CLOSE :: r' → n = n' ∧ r = r') as Hbrace.
  { induction n as [|a n IH]; intros [|b n'] r r' Hn Hn'; simpl.
    - by intros [= ->].
    - intros [= <- _]. destruct Hn'. by left.
    - intros [= -> _]. destruct Hn. by left.
    - intros [= -> Heq]. rewrite elem_of_cons in Hn, Hn'. destruct (IH n' r r') as [-> ->]; auto. }
  assert (∀ c n r, CLOSE ∉ n → c = DOLLAR → read_as (Plain c) (OPEN :: n ++ CLOSE :: r) → False) as Hvar.
  { intros c n r _ -> [_ H]. apply H; [by left|]. apply elem_of_cons. right. apply elem_of_app. right. by left. }
  assert (∀ n r, read_as (Plain BACKSLASH) (DOLLAR :: OPEN :: n ++ CLOSE :: r) → False) as Hesc.
  { intros n r [_ H]. apply H; [by right|]. rewrite !elem_of_cons. do 2 right. apply elem_of_app. right. by left. }
  destruct p as [c| |n|n], p' as [c'| |n'|n']; unfold source, braced; simpl; rewrite <- ?app_assoc; simpl;
    intros Heq Hp Hp'; try discriminate Heq.
  - by simplify_eq.
  - injection Heq as -> ->. exfalso. by apply (proj1 Hp).
  - injection Heq as -> ->. exfalso. by apply (Hesc n' rest').
  - injection Heq as -> ->. exfalso. by apply (Hvar DOLLAR n' rest').
  - injection Heq as <- <-. exfalso. by apply (proj1 Hp').
  - by simplify_eq.
  - injection Heq as <- <-. exfalso. by apply (Hesc n rest).
  - injection Heq as Heq. by destruct (Hbrace n n' rest rest') as [-> ->].
  - injection Heq as <- <-. exfalso. by apply (Hvar DOLLAR n rest).
  - injection Heq as Heq. by destruct (Hbrace n n' rest rest') as [-> ->].
Qed.

Lemma reads_inj t ps ps' : reads t ps → reads t ps' → ps = ps'.
Proof.
  intros H. revert ps'. induction H as [|p rest ps Hp Hr IH]; intros ps' H'.
  - inversion H' as [|p' rest' ? ? ? He]; [done|]. by destruct p'.
  - inversion H' as [He|p' rest' ps'' Hp' Hr' He]; [by destruct p|]. subst.
    symmetry in He. destruct (read_as_inj _ _ _ _ He Hp Hp') as [-> ->]. f_equal. by apply IH.
Qed.

Lemma whole_reads t : ∃ ps, reads t ps ∧
  (∀ f, expandVariables t f = Some (concat (render f <$> ps)) ∧ expand_vars t f = Some (concat (render f <$> ps))) ∧
  referencedVariables t =
    Some (fold_left (λ l name, if decide (name ∈ l) then l else l ++ [name]) (omap var_of ps) []).
Proof.
  destruct (expand_reads (S (length t)) t 0) as (ps & Hps & H); [lia|]. exists ps. split; [done|]. split.
  - intros f. unfold expandVariables, expand_vars. destruct (H unit (pure_lookup f) [] tt) as [-> ->].
    by rewrite ask_all_pure.
  - unfold referencedVariables. destruct (H (list text) record_name [] []) as [-> _].
    rewrite <- ask_all_record. by destruct (ask_all record_name ps []).
Qed.

Lemma elem_of_recorded (l names : list text) name :
  name ∈ fold_left (λ l name, if decide (name ∈ l) then l else l ++ [name]) l names ↔ name ∈ names ∨ name ∈ l.
Proof.
  revert names. induction l as [|x l IH]; intros names; simpl.
  { split; [by left|]. intros [?|Hin]; [done|by inversion Hin]. }
  rewrite IH, elem_of_cons. case_decide; [|rewrite elem_of_app, list_elem_of_singleton; tauto].
  split; [tauto|]. intros [?|[->|?]]; tauto.
Qed.

Lemma NoDup_recorded (l names : list text) :
  NoDup names → NoDup (fold_left (λ l name, if decide (name ∈ l) then l else l ++ [name]) l names).
Proof.
  revert names. induction l as [|x l IH]; intros names Hn; simpl; [done|]. apply IH. case_decide; [done|].
  apply NoDup_app. split_and!; [done| |apply NoDup_singleton]. by intros y Hy ->%list_elem_of_singleton.
Qed.
End readings.

(** ** Properties *)

(** Expansion reads a text once. Every text has exactly one reading as pieces: escaped
    backslashes, escaped and unescaped [${...}], and units as they are. The loop ends on every text,
    and gives the reading with each escape undone and each variable replaced by its value, or left
    as written when it has none; a value is never read again. [referencedVariables] gives each name
    the reading asks for, once. *)
Theorem expansion_reads_once t :
  ∃ ps, reads t ps ∧ (∀ ps', reads t ps' → ps' = ps) ∧ concat (source <$> ps) = t ∧
    (∀ lookup, expandVariables t lookup = Some (concat (render lookup <$> ps))) ∧
    ∃ names, referencedVariables t = Some names ∧ NoDup names ∧ ∀ name, name ∈ names ↔ Var name ∈ ps.
Proof.
  destruct (whole_reads t) as (ps & Hps & Hexp & Href). exists ps. split_and!.
  - done.
  - intros ps' H. by eapply reads_inj.
  - clear Hexp Href. induction Hps as [|p rest ps _ _ IH]; [done|]. csimpl. by rewrite IH.
  - apply Hexp.
  - eexists. split_and!; [exact Href|apply NoDup_recorded, NoDup_nil_2|].
    intros name. rewrite elem_of_recorded. split.
    + intros [Hin|(p & Hp & Hv)%list_elem_of_omap]; [by inversion Hin|]. destruct p; try done. by injection Hv as ->.
    + intros Hin. right. apply list_elem_of_omap. by exists (Var name).
Qed.

(** The hub and the agent name the same folder. For every text and every lookup the hub's
    expansion is the agent's; and it depends on the lookup only through the names
    [referencedVariables] gives, so that fetching those alone from a host is enough. *)
Theorem hub_expands_as_agent t lookup :
  expandVariables t lookup = expand_vars t lookup ∧
  ∀ lookup' names, referencedVariables t = Some names →
    (∀ name, name ∈ names → lookup' name = lookup name) →
    expandVariables t lookup' = expandVariables t lookup.
Proof.
  destruct (whole_reads t) as (ps & _ & Hexp & Href). split.
  - by destruct (Hexp lookup) as [-> ->].
  - intros lookup' names Hn Hsame. rewrite Href in Hn. injection Hn as <-.
    rewrite (proj1 (Hexp lookup')), (proj1 (Hexp lookup)). do 2 f_equal. apply list_fmap_ext.
    intros i p Hp. destruct p as [c| |name|name]; simpl; try done. rewrite Hsame; [done|].
    apply elem_of_recorded. right. apply list_elem_of_omap. exists (Var name). split; [|done].
    by eapply list_elem_of_lookup_2.
Qed.

Example expand_samples :
  let env := lookupIn id [(txt "HOME", txt "/home/${X}")] false in
  expandVariables (txt "${HOME}/\${HOME}\\${HOME}${NO}${open") env =
    Some (txt "/home/${X}/${HOME}\/home/${X}${NO}${open") ∧
  referencedVariables (txt "${A}\${B}${A}${C}") = Some [txt "A"; txt "C"].
Proof. split; vm_compute; reflexivity. Qed.
