(* ===== verification/TransferItems.v ===== *)
(** * The items of an upload ([packages/hub/src/transfers/transfer-service.ts])

    What an upload to a host keeps of each of its files and folders, the counts kept of them, and
    the operations that change an item at once: its state, its bytes, its stopping, its queueing.
    What waits on the host is in [TransferFlow]. An item is named by its id, its place in the list;
    where the code holds the object, the model holds the id. Byte counts are exact integers: a sum
    of sizes past 2^53 is not modelled here. *)

From S2P Require Import Prelude JsMap Text HostPaths UploadTree.
#[local] Open Scope lasterm_scope.

(** ** Data *)

Inductive TransferItemState :=
| queued | sending | verifying | placed | failed | skipped | conflict | cancelled | interrupted.
#[export] Instance TransferItemState_eq_dec : EqDecision TransferItemState.
Proof. solve_decision. Defined.
#[export] Instance TransferItemState_inhabited : Inhabited TransferItemState := populate queued.

Inductive TransferConflictAction := replace | keep_both | skip_it.
#[export] Instance TransferConflictAction_eq_dec : EqDecision TransferConflictAction.
Proof. solve_decision. Defined.

Inductive TransferOnConflict := ask | always (action : TransferConflictAction).
#[export] Instance TransferOnConflict_eq_dec : EqDecision TransferOnConflict.
Proof. solve_decision. Defined.

Inductive TransferOutcome :=
| out_placed | out_replaced | out_kept_both | out_skipped | out_created | out_merged.
#[export] Instance TransferOutcome_eq_dec : EqDecision TransferOutcome.
Proof. solve_decision. Defined.

Inductive TransferVerification := v_size | v_sha256 | v_no_hash_tool | v_size_resumed.
#[export] Instance TransferVerification_eq_dec : EqDecision TransferVerification.
Proof. solve_decision. Defined.

Inductive TransferUploadState := running | upload_interrupted | done | discarded.
#[export] Instance TransferUploadState_eq_dec : EqDecision TransferUploadState.
Proof. solve_decision. Defined.

Inductive TransferNotResumedReason :=
| needs_passphrase | needs_password | host_key_not_accepted | host_unreachable.
#[export] Instance TransferNotResumedReason_eq_dec : EqDecision TransferNotResumedReason.
Proof. solve_decision. Defined.

(** An entry of a folder of the host, as its listing or a stat says it. *)
Inductive FileKind := is_file | is_directory | is_symlink | is_other.
Record FileEntry := MkEntry {
  e_name : text; e_kind : FileKind; e_size : option Z; e_mtime : option text; e_linkKind : option FileKind
}.
Definition isFolderLike (e : FileEntry) : bool :=
  match e_kind e, e_linkKind e with
  | is_directory, _ => true
  | is_symlink, Some is_directory => true
  | _, _ => false
  end.

(** An error of the host: an [UploadInterrupted], a [FileAccessError] or a [VerifyFailed] with its
    code, or a name taken, with what took it. An interruption stops a file the way a retry resumes,
    and so does [HOST_NOT_CONNECTED]. *)
Inductive Error :=
| Interruption (message : text)
| Failure (code message : text)
| TargetExists (existing : option FileEntry).
Definition isInterruption (e : Error) : bool :=
  match e with
  | Interruption _ => true
  | Failure code _ => bool_decide (code = txt "HOST_NOT_CONNECTED")
  | TargetExists _ => false
  end.
Definition messageOf (e : Error) : text :=
  match e with
  | Interruption m | Failure _ m => m
  | TargetExists _ => txt "Something has that name already"
  end.
Definition codeOf (e : Error) : text :=
  match e with
  | Interruption _ => txt "INTERRUPTED"
  | Failure code _ => code
  | TargetExists _ => txt "TRANSFER_FAILED"
  end.

(** A file open on the host, told from every other. *)
Notation Sink := nat (only parsing).

Record Item := MkItem' {
  i_tree : TreeItem;
  i_state : TransferItemState;
  i_existing : option FileEntry;
  i_typeClash : bool;
  i_late : bool;
  i_resolution : option TransferConflictAction;
  i_finalName : option text;
  i_path : option text;
  i_outcome : option TransferOutcome;
  i_verification : option TransferVerification;
  i_acked : Z;
  i_temp : option text;
  i_tempWhole : bool;
  i_direct : bool;
  i_hash : option text;  (** the bytes hashed so far *)
  i_sink : option Sink;
  i_opening : option nat;  (** which opening its promise is *)
  i_writing : bool;
  i_reason : option text;
  i_code : option text;
  i_carried : bool;
  i_persistedAcked : Z
}.
#[export] Instance Item_fields : Fields Item := λ i,
  MkItem' (i_tree i) (i_state i) (i_existing i) (i_typeClash i) (i_late i) (i_resolution i)
    (i_finalName i) (i_path i) (i_outcome i) (i_verification i) (i_acked i) (i_temp i)
    (i_tempWhole i) (i_direct i) (i_hash i) (i_sink i) (i_opening i) (i_writing i) (i_reason i)
    (i_code i) (i_carried i) (i_persistedAcked i).
#[export] Instance set_i_tree : Setter i_tree. Proof. derive_setter. Defined.
#[export] Instance set_i_state : Setter i_state. Proof. derive_setter. Defined.
#[export] Instance set_i_existing : Setter i_existing. Proof. derive_setter. Defined.
#[export] Instance set_i_typeClash : Setter i_typeClash. Proof. derive_setter. Defined.
#[export] Instance set_i_late : Setter i_late. Proof. derive_setter. Defined.
#[export] Instance set_i_resolution : Setter i_resolution. Proof. derive_setter. Defined.
#[export] Instance set_i_finalName : Setter i_finalName. Proof. derive_setter. Defined.
#[export] Instance set_i_path : Setter i_path. Proof. derive_setter. Defined.
#[export] Instance set_i_outcome : Setter i_outcome. Proof. derive_setter. Defined.
#[export] Instance set_i_verification : Setter i_verification. Proof. derive_setter. Defined.
#[export] Instance set_i_acked : Setter i_acked. Proof. derive_setter. Defined.
#[export] Instance set_i_temp : Setter i_temp. Proof. derive_setter. Defined.
#[export] Instance set_i_tempWhole : Setter i_tempWhole. Proof. derive_setter. Defined.
#[export] Instance set_i_direct : Setter i_direct. Proof. derive_setter. Defined.
#[export] Instance set_i_hash : Setter i_hash. Proof. derive_setter. Defined.
#[export] Instance set_i_sink : Setter i_sink. Proof. derive_setter. Defined.
#[export] Instance set_i_opening : Setter i_opening. Proof. derive_setter. Defined.
#[export] Instance set_i_writing : Setter i_writing. Proof. derive_setter. Defined.
#[export] Instance set_i_reason : Setter i_reason. Proof. derive_setter. Defined.
#[export] Instance set_i_code : Setter i_code. Proof. derive_setter. Defined.
#[export] Instance set_i_carried : Setter i_carried. Proof. derive_setter. Defined.
#[export] Instance set_i_persistedAcked : Setter i_persistedAcked. Proof. derive_setter. Defined.

Definition i_id (i : Item) : nat := it_id (i_tree i).
Definition i_kind (i : Item) : TransferItemKind := it_kind (i_tree i).
Definition i_name (i : Item) : text := it_name (i_tree i).
Definition i_size (i : Item) : Z := it_size (i_tree i).
Definition i_parent (i : Item) : option nat := it_parent (i_tree i).
Definition i_children (i : Item) : list nat := it_children (i_tree i).

Record Totals := MkTotals {
  t_files : nat; t_bytes : Z; t_acked : Z; t_states : jsmap TransferItemState nat
}.
#[export] Instance Totals_fields : Fields Totals := λ t,
  MkTotals (t_files t) (t_bytes t) (t_acked t) (t_states t).
#[export] Instance set_t_files : Setter t_files. Proof. derive_setter. Defined.
#[export] Instance set_t_bytes : Setter t_bytes. Proof. derive_setter. Defined.
#[export] Instance set_t_acked : Setter t_acked. Proof. derive_setter. Defined.
#[export] Instance set_t_states : Setter t_states. Proof. derive_setter. Defined.
Definition emptyTotals : Totals := MkTotals 0 0 0 ∅.

(** What a file of a TRANSFER_RESUME asks: to leave it out, or to send it again as it is now. *)
Inductive TransferResumeSkip := gone | changed | unreadable.
Inductive ResumeAction := leave_out (why : TransferResumeSkip) | restart (size : Z) (mtime : option Z).
Record TransferResumeFile := MkResumeFile { f_itemId : nat; f_action : ResumeAction }.

(** A window, by its client id and the token it authenticated with. *)
Record TransferRequester := MkRequester { r_clientId : text; r_tokenId : option text }.
#[export] Instance TransferRequester_eq_dec : EqDecision TransferRequester.
Proof. solve_decision. Defined.

Inductive UploadTransport := over_local | over_sftp | over_exec.
#[export] Instance UploadTransport_eq_dec : EqDecision UploadTransport.
Proof. solve_decision. Defined.
Record UploadBackend := MkBackend { b_transport : UploadTransport; b_lost : bool }.

(** What is asked of the host. *)
Inductive Command :=
| c_acquire | c_release
| c_mkdirs (paths : list text)
| c_stat (path : text) | c_truncate (path : text) (size : Z) | c_remove (path : text)
| c_placement (dir : text)
| c_open (id : nat) (path : text) (resumeAt : Z)
| c_write (sink : Sink) (data : text) (offset : Z)
| c_finish (sink : Sink) (hashed : option text)
| c_abort (sink : Sink)
| c_place (id : nat) (temp target : text) (replacing : bool).

Record TransferConflictItem := MkConflict {
  cf_itemId : nat; cf_existing : option FileEntry; cf_typeClash : bool; cf_late : bool
}.

(** What is said of an item, of those that changed. *)
Record TransferItemProgress := MkProgress {
  pr_itemId : nat; pr_state : TransferItemState; pr_acked : option Z;
  pr_outcome : option TransferOutcome; pr_finalName : option text;
  pr_verification : option TransferVerification; pr_reason : option text; pr_code : option text
}.
(** What is said to every window of the terminal. *)
Inductive Message :=
| m_progress (items : list TransferItemProgress) (folders : list (nat * Totals)) (totals : Totals)
| m_conflict (items : list TransferConflictItem)
| m_done (totals : Totals)
| m_state (state : TransferUploadState) (reason : option TransferNotResumedReason).

Inductive refusal_code :=
| TRANSFER_NOT_FOUND | ITEM_NOT_FOUND | WRITE_LOCK_DENIED | NOT_THE_SENDER | INVALID_ACTION
| HOST_NOT_CONNECTED | ITEM_NOT_SENDING | ITEM_BUSY | OFFSET_MISMATCH | PAST_END
| HOST_REFUSED (code : text).

Inductive Output :=
| to_host (c : Command)
| to_windows (m : Message)
| refused_to (clientId : text) (code : refusal_code)
| acked_to (clientId : text) (id : nat) (acked : Z).

(** What waits on an answer: where the code goes on from, with what it holds there. An opening is
    named by a number, since a chunk waits for the one it found. *)
Inductive Next :=
| n_folders (batch plain : list nat)
| n_open (id opening : nat)
| n_place (id : nat)
| n_takeUp (requester : TransferRequester) (files : list TransferResumeFile).

Inductive Pending :=
| k_backend (got : option UploadBackend) (next : Next)
| k_mkdirs (batch plain : list nat) (paths : list text)
| k_keepBothFolder (id n : nat) (name path : text) (rest : list nat)
| k_openStat (id opening : nat) (transport : UploadTransport) (parent target : text)
| k_openTruncate (id opening : nat) (parent target : text)
| k_openRemoved (id opening : nat) (parent target : text)
| k_openPlacement (id opening : nat) (parent target : text)
| k_openDirect (id opening : nat) (parent : text) (keepBoth : bool) (n : nat) (name path : text)
| k_openTemp (id opening : nat) (target : text) (resumeAt : Z) (again : bool)
| k_openAborted (id opening : nat)
| k_receive (id : nat) (requester : TransferRequester) (offset : Z) (data : text) (opening : option nat)
| k_write (id : nat) (requester : TransferRequester) (sink : Sink) (data : text)
| k_receiveAborted (id : nat) (requester : TransferRequester)
| k_finish (id : nat)
| k_placeReplace (id : nat) (target : text)
| k_placeBoth (id n : nat) (parent name target temp : text)
| k_placeNew (id : nat) (target temp : text)
| k_afterStop (id : nat)
| k_failedAborted (id : nat) (temp : option text)
| k_lookStat (run id : nat) (temp : text)
| k_lookTruncate (run id : nat) (temp : text)
| k_lookRemoved (run id : nat)
| k_takeUp (run : nat) (requester : TransferRequester)
| k_retry (requester : TransferRequester) (again : list nat)
| k_resume (requester : TransferRequester) (files : list TransferResumeFile).

Record Upload := MkUpload {
  u_id : text; u_channelId : text; u_hostId : text;
  u_dir : text; u_style : PathStyle; u_onConflict : TransferOnConflict; u_verify : bool;
  u_tokenId : option text; u_signature : text;
  u_items : list Item; u_order : list nat;
  u_folderTotals : jsmap nat Totals; u_totals : Totals; u_folderStates : jsmap TransferItemState nat;
  u_source : option text; u_backend : option UploadBackend;
  u_queue : list nat; u_folderQueue : list nat; u_creatingFolders : bool; u_waiting : jsmap nat (list nat);
  u_dirtyItems : list nat; u_dirtyFolders : list nat; u_conflicts : list TransferConflictItem;
  u_flushTimer : bool; u_flushSoon : bool; u_doneSaid : bool; u_forgetTimer : bool;
  u_busy : nat; u_reason : option TransferNotResumedReason; u_linkDropped : bool; u_stale : bool;
  u_stored : bool; u_said : option (TransferUploadState * option TransferNotResumedReason);
  (** the service's sets of what to write for it: [unsaved]'s entry and [unsavedAcks]'s *)
  u_unsaved : option (list nat); u_unsavedAcks : option (list nat);
  (** whether a pump was scheduled since the last one, [pumpScheduled] *)
  u_pump : bool;
  (** whether [uploads] has it *)
  u_known : bool;
  (** the waits under way, what is left of each look at the temporaries, and the numbers drawn *)
  u_pending : list (nat * Pending); u_looks : jsmap nat (list nat); u_next : nat;
  u_log : list Output
}.
#[export] Instance Upload_fields : Fields Upload := λ u,
  MkUpload (u_id u) (u_channelId u) (u_hostId u) (u_dir u) (u_style u) (u_onConflict u)
    (u_verify u) (u_tokenId u) (u_signature u) (u_items u) (u_order u) (u_folderTotals u)
    (u_totals u) (u_folderStates u) (u_source u) (u_backend u) (u_queue u) (u_folderQueue u)
    (u_creatingFolders u) (u_waiting u) (u_dirtyItems u) (u_dirtyFolders u) (u_conflicts u)
    (u_flushTimer u) (u_flushSoon u) (u_doneSaid u) (u_forgetTimer u) (u_busy u) (u_reason u)
    (u_linkDropped u) (u_stale u) (u_stored u) (u_said u) (u_unsaved u) (u_unsavedAcks u)
    (u_pump u) (u_known u) (u_pending u) (u_looks u) (u_next u) (u_log u).
#[export] Instance set_u_items : Setter u_items. Proof. derive_setter. Defined.
#[export] Instance set_u_folderTotals : Setter u_folderTotals. Proof. derive_setter. Defined.
#[export] Instance set_u_totals : Setter u_totals. Proof. derive_setter. Defined.
#[export] Instance set_u_folderStates : Setter u_folderStates. Proof. derive_setter. Defined.
#[export] Instance set_u_source : Setter u_source. Proof. derive_setter. Defined.
#[export] Instance set_u_backend : Setter u_backend. Proof. derive_setter. Defined.
#[export] Instance set_u_queue : Setter u_queue. Proof. derive_setter. Defined.
#[export] Instance set_u_folderQueue : Setter u_folderQueue. Proof. derive_setter. Defined.
#[export] Instance set_u_creatingFolders : Setter u_creatingFolders. Proof. derive_setter. Defined.
#[export] Instance set_u_waiting : Setter u_waiting. Proof. derive_setter. Defined.
#[export] Instance set_u_dirtyItems : Setter u_dirtyItems. Proof. derive_setter. Defined.
#[export] Instance set_u_dirtyFolders : Setter u_dirtyFolders. Proof. derive_setter. Defined.
#[export] Instance set_u_conflicts : Setter u_conflicts. Proof. derive_setter. Defined.
#[export] Instance set_u_flushTimer : Setter u_flushTimer. Proof. derive_setter. Defined.
#[export] Instance set_u_flushSoon : Setter u_flushSoon. Proof. derive_setter. Defined.
#[export] Instance set_u_doneSaid : Setter u_doneSaid. Proof. derive_setter. Defined.
#[export] Instance set_u_forgetTimer : Setter u_forgetTimer. Proof. derive_setter. Defined.
#[export] Instance set_u_busy : Setter u_busy. Proof. derive_setter. Defined.
#[export] Instance set_u_reason : Setter u_reason. Proof. derive_setter. Defined.
#[export] Instance set_u_linkDropped : Setter u_linkDropped. Proof. derive_setter. Defined.
#[export] Instance set_u_stale : Setter u_stale. Proof. derive_setter. Defined.
#[export] Instance set_u_stored : Setter u_stored. Proof. derive_setter. Defined.
#[export] Instance set_u_said : Setter u_said. Proof. derive_setter. Defined.
#[export] Instance set_u_unsaved : Setter u_unsaved. Proof. derive_setter. Defined.
#[export] Instance set_u_unsavedAcks : Setter u_unsavedAcks. Proof. derive_setter. Defined.
#[export] Instance set_u_pump : Setter u_pump. Proof. derive_setter. Defined.
#[export] Instance set_u_known : Setter u_known. Proof. derive_setter. Defined.
#[export] Instance set_u_pending : Setter u_pending. Proof. derive_setter. Defined.
#[export] Instance set_u_looks : Setter u_looks. Proof. derive_setter. Defined.
#[export] Instance set_u_next : Setter u_next. Proof. derive_setter. Defined.
#[export] Instance set_u_log : Setter u_log. Proof. derive_setter. Defined.

(** ** What every operation does *)

Definition on_item (id : nat) (f : Item → Item) (u : Upload) : Upload := u <{ u_items ::= alter f id }>.
Definition emit (o : Output) (u : Upload) : Upload := u <{ u_log ::= λ l, l ++ [o] }>.
Definition ask_host (c : Command) : Upload → Upload := emit (to_host c).
(** [await]: go on from [k] with the answer. *)
Definition await (k : Pending) (u : Upload) : Upload :=
  u <{ u_pending ::= λ l, l ++ [(u_next u, k)] }> <{ u_next ::= S }>.
(** One operation per id, in order. *)
Definition for_each (f : nat → Upload → Upload) (ids : list nat) (u : Upload) : Upload :=
  fold_left (λ u id, f id u) ids u.

Definition persist (u : Upload) : Upload :=
  if u_stored u then u <{ u_unsaved ::= λ o, Some (default [] o) }> else u.
Definition persistItem (id : nat) (u : Upload) : Upload :=
  if u_stored u then u <{ u_unsaved ::= λ o, Some (set_add id (default [] o)) }> else u.

Definition ACKED_PERSIST_BYTES : Z := 8 * 1024 * 1024.
Definition persistAcked (id : nat) (u : Upload) : Upload :=
  match u_items u !! id with
  | Some it =>
      if u_stored u then
        if (i_acked it <? i_persistedAcked it)%Z ||
           (ACKED_PERSIST_BYTES <=? i_acked it - i_persistedAcked it)%Z
        then persistItem id u
        else u <{ u_unsavedAcks ::= λ o, Some (set_add id (default [] o)) }>
      else u
  | None => u
  end.

(** The folders an item is in, from the nearest: [for (let parent = item.parent; …)]. *)
Fixpoint folders_up (items : list Item) (fuel : nat) (parent : option nat) : list nat :=
  match fuel, parent with
  | S fuel, Some p => p :: folders_up items fuel (items !! p ≫= i_parent)
  | _, _ => []
  end.
Definition foldersAbove (u : Upload) (it : Item) : list nat :=
  folders_up (u_items u) (length (u_items u)) (i_parent it).

(** [for (const totals of this.totalsAbove(upload, item)) …] *)
Definition on_totalsAbove (it : Item) (f : Totals → Totals) (u : Upload) : Upload :=
  u <{ u_totals ::= f }>
    <{ u_folderTotals ::= λ m, fold_left (λ m p, js_alter f p m) (foldersAbove u it) m }>.

Definition markFolders (it : Item) (u : Upload) : Upload :=
  u <{ u_dirtyFolders ::= λ l, fold_left (λ l p, set_add p l) (foldersAbove u it) l }>.

(** One fewer in [before], one more in [state]. *)
Definition recount (before state : TransferItemState) (m : jsmap TransferItemState nat) :
  jsmap TransferItemState nat :=
  let left := default 1 (m !! before) - 1 in
  let m := if decide (0 < left) then <[before := left]> m else delete before m in
  <[state := default 0 (m !! state) + 1]> m.

Definition setState (id : nat) (state : TransferItemState) (u : Upload) : Upload :=
  match u_items u !! id with
  | None => u
  | Some it =>
      let before := i_state it in
      let u := u |> on_item id (λ it, it <{ i_state := state }>)
                 |> (λ u, u <{ u_dirtyItems ::= set_add id }>)
                 |> persistItem id in
      if decide (before = state) then u
      else
        match i_kind it with
        | dir => u <{ u_folderStates ::= recount before state }>
        | file => u |> on_totalsAbove it (λ t, t <{ t_states ::= recount before state }>)
                    |> markFolders it
        end
  end.

Definition addAcked (id : nat) (delta : Z) (u : Upload) : Upload :=
  match u_items u !! id with
  | None => u
  | Some it =>
      if decide (delta = 0%Z) then u
      else u |> on_item id (λ it, it <{ i_acked ::= λ a, (a + delta)%Z }>)
             |> (λ u, u <{ u_dirtyItems ::= set_add id }>)
             |> on_totalsAbove it (λ t, t <{ t_acked ::= λ a, (a + delta)%Z }>)
             |> markFolders it
             |> persistAcked id
  end.

(** Forget what a file had on the host. *)
Definition restartFile (id : nat) (u : Upload) : Upload :=
  match u_items u !! id with
  | None => u
  | Some it =>
      u |> addAcked id (- i_acked it)
        |> on_item id (λ it, it <{ i_temp := None }> <{ i_tempWhole := false }>
                                <{ i_hash := None }> <{ i_carried := false }>)
        |> persistItem id
  end.

(** ** What the counts say *)

Definition UNSETTLED : list TransferItemState := [queued; sending; verifying; conflict; interrupted].
Definition counted (u : Upload) (states : list TransferItemState) : nat :=
  sum_list_with
    (λ s, default 0 (t_states (u_totals u) !! s) + default 0 (u_folderStates u !! s)) states.
Definition isSettled (u : Upload) : bool :=
  bool_decide (u_busy u = 0) && bool_decide (counted u UNSETTLED = 0).
Definition isActive (u : Upload) : bool :=
  if bool_decide (0 < u_busy u) || u_creatingFolders u then true
  else if bool_decide (u_source u = None) then false
  else bool_decide (0 < counted u [queued; sending; verifying]).
Definition uploadState (u : Upload) : TransferUploadState :=
  if isSettled u then done
  else if bool_decide (u_source u = None) then upload_interrupted else running.

(** ** Saying it *)

Definition settle (u : Upload) : Upload :=
  let u := persist u in
  if u_flushTimer u || u_flushSoon u then u else u <{ u_flushTimer := true }>.
(** [settle(upload, true)] *)
Definition settleNow (u : Upload) : Upload := persist u <{ u_flushSoon := true }>.
Definition schedulePump (u : Upload) : Upload := u <{ u_pump := true }>.
Definition releaseBackend (u : Upload) : Upload :=
  match u_backend u with
  | Some _ => ask_host c_release u <{ u_backend := None }>
  | None => u
  end.
Definition clearForget (u : Upload) : Upload := u <{ u_forgetTimer := false }>.

Definition sayState (u : Upload) : Upload :=
  let now := (uploadState u, u_reason u) in
  if bool_decide (u_said u = Some now) then u
  else emit (to_windows (m_state now.1 now.2)) (u <{ u_said := Some now }>).

Definition is_placed_or_skipped (s : TransferItemState) : bool :=
  bool_decide (s = placed) || bool_decide (s = skipped).
Definition progressOf (it : Item) : TransferItemProgress :=
  let is_placed := bool_decide (i_state it = placed) in
  MkProgress (i_id it) (i_state it)
    (match i_kind it with file => Some (i_acked it) | dir => None end)
    (if is_placed_or_skipped (i_state it) then i_outcome it else None)
    (if is_placed then i_finalName it else None)
    (if is_placed then i_verification it else None)
    (i_reason it) (i_code it).
Definition flush_progress (u : Upload) : Upload :=
  if bool_decide (u_dirtyItems u = [] ∧ u_dirtyFolders u = []) then u
  else
    emit (to_windows (m_progress (omap (λ id, progressOf <$> u_items u !! id) (u_dirtyItems u))
           ((λ f, (f, default emptyTotals (u_folderTotals u !! f))) <$> u_dirtyFolders u) (u_totals u)))
      (u <{ u_dirtyItems := [] }> <{ u_dirtyFolders := [] }>).
Definition flush_conflicts (u : Upload) : Upload :=
  match u_conflicts u with
  | [] => u
  | conflicts => emit (to_windows (m_conflict conflicts)) (u <{ u_conflicts := [] }>)
  end.
Definition flush_done (u : Upload) : Upload :=
  if isSettled u && negb (u_doneSaid u) then
    let u := releaseBackend (emit (to_windows (m_done (u_totals u))) (u <{ u_doneSaid := true }>)) in
    if forallb (λ it, is_placed_or_skipped (i_state it)) (u_items u)
    then u <{ u_forgetTimer := true }> else u
  else u.
Definition flush (u : Upload) : Upload :=
  if u_known u then
    let u := u |> flush_progress |> flush_conflicts |> flush_done |> sayState in
    if negb (isActive u) && bool_decide (u_source u = None) then releaseBackend u else u
  else u.

(** ** Queueing *)

(** The folder an item goes in, on the host, and whether it is in place. *)
Definition parentPath (u : Upload) (it : Item) : text :=
  match i_parent it with
  | None => u_dir u
  | Some p => default (u_dir u) (u_items u !! p ≫= i_path)
  end.
Definition parentReady (u : Upload) (it : Item) : bool :=
  match i_parent it with
  | None => true
  | Some p => bool_decide (i_state <$> u_items u !! p = Some placed)
  end.

Definition enqueue (id : nat) (u : Upload) : Upload :=
  match u_items u !! id with
  | None => u
  | Some it =>
      if parentReady u it then
        match i_kind it with
        | dir => u <{ u_folderQueue ::= λ q, q ++ [id] }>
        | file => u <{ u_queue ::= λ q, q ++ [id] }>
        end
      else
        match i_parent it with
        | Some p => u <{ u_waiting ::= λ w, <[p := default [] (w !! p) ++ [id]]> w }>
        | None => u
        end
  end.
Definition enqueue_if_queued (id : nat) (u : Upload) : Upload :=
  if bool_decide (i_state <$> u_items u !! id = Some queued) then enqueue id u else u.
Definition enqueueReady (folder : option nat) (u : Upload) : Upload :=
  match folder with
  | None => for_each enqueue_if_queued (u_order u) u
  | Some f =>
      let waiting := default [] (u_waiting u !! f) in
      for_each enqueue_if_queued waiting (u <{ u_waiting ::= delete f }>)
  end.

(** [backendOf]: the one held while its connection is there; another is asked for otherwise. *)
Definition backendOf (next : Next) (u : Upload) : Upload :=
  match u_backend u with
  | Some b => if b_lost b then await (k_backend None next) (ask_host c_acquire (releaseBackend u))
              else await (k_backend (Some b) next) u
  | None => await (k_backend None next) (ask_host c_acquire u)
  end.

(** Put a whole temporary under its name: up to its first [await]. *)
Definition place (id : nat) (u : Upload) : Upload :=
  if bool_decide (u_items u !! id ≫= i_temp = None) then u
  else u |> setState id verifying |> settle |> (λ u, u <{ u_busy ::= S }>) |> backendOf (n_place id).

Definition requeue (id : nat) (u : Upload) : Upload :=
  match u_items u !! id with
  | None => u
  | Some it =>
      let u := on_item id (λ it, it <{ i_reason := None }> <{ i_code := None }>) u in
      if bool_decide (i_kind it = file) && i_tempWhole it then place id u
      else enqueue id (setState id queued u)
  end.

Definition stopped_short (s : TransferItemState) : bool :=
  bool_decide (s ∈ [failed; cancelled; interrupted]).
Definition is_stopped_short (u : Upload) (id : nat) : bool :=
  match u_items u !! id with Some it => stopped_short (i_state it) | None => false end.

(** The folders an item is in that need it, queued again first. *)
Fixpoint requeue_above (fuel : nat) (parent : option nat) (s : list nat * Upload) : list nat * Upload :=
  match fuel, parent with
  | S fuel, Some p =>
      let '(requeued, u) := s in
      if bool_decide (u_items u !! p = None) || bool_decide (p ∈ requeued) then s
      else
        requeue_above fuel (u_items u !! p ≫= i_parent)
          (if is_stopped_short u p then (p :: requeued, requeue p u) else s)
  | _, _ => s
  end.
Definition requeue_one (s : list nat * Upload) (id : nat) : list nat * Upload :=
  let '(requeued, u) :=
    requeue_above (length (u_items s.2)) (u_items s.2 !! id ≫= i_parent) s in
  if bool_decide (id ∈ requeued) then (requeued, u) else (id :: requeued, requeue id u).
Definition requeueAll (again : list nat) (u : Upload) : Upload :=
  let u := (fold_left requeue_one again ([], u)).2 in
  let u :=
    if u_stale u then
      enqueueReady None (u <{ u_stale := false }> <{ u_queue := [] }> <{ u_folderQueue := [] }>
                           <{ u_waiting := ∅ }>)
    else u in
  clearForget (u <{ u_doneSaid := false }>).

(** ** Stopping *)

Definition abort (sink : option Sink) (u : Upload) : Upload :=
  match sink with Some s => ask_host (c_abort s) u | None => u end.

(** [afterStop] awaits the end of the open write; what follows is [afterStopped]. *)
Definition afterStop (id : nat) (sink : option Sink) (k : Pending) (u : Upload) : Upload :=
  await k (abort sink u).
Definition afterStopped (id : nat) (u : Upload) : Upload :=
  match u_items u !! id with
  | Some it =>
      if bool_decide (i_state it = cancelled) then
        let u := restartFile id u in
        match i_temp it, u_backend u with
        | Some temp, Some b => if b_lost b then u else ask_host (c_remove temp) u
        | _, _ => u
        end
      else u
  | None => u
  end.

Definition interrupt (id : nat) (reason : text) (u : Upload) : Upload :=
  match u_items u !! id with
  | None => u
  | Some it =>
      let u := u |> on_item id (λ it, it <{ i_sink := None }> <{ i_reason := Some reason }>
                                         <{ i_code := Some (txt "INTERRUPTED") }>)
                 |> setState id interrupted in
      if i_writing it then u else abort (i_sink it) u
  end.
Definition interrupt_in (states : list TransferItemState) (reason : text) (id : nat) (u : Upload) :
  Upload :=
  match u_items u !! id with
  | Some it => if bool_decide (i_state it ∈ states) then interrupt id reason u else u
  | None => u
  end.

Definition ids (u : Upload) : list nat := seq 0 (length (u_items u)).

Definition interruptAll (reason : text) (u : Upload) : Upload :=
  if match u_backend u with Some b => negb (b_lost b) | None => false end then u
  else
    u |> for_each (interrupt_in [sending; queued] reason) (ids u)
      |> (λ u, if bool_decide (u_source u = None) then u else u <{ u_linkDropped := true }>)
      |> releaseBackend.

Fixpoint skip (fuel : nat) (id : nat) (u : Upload) : Upload :=
  match fuel, u_items u !! id with
  | S fuel, Some it =>
      let u := u |> on_item id (λ it, it <{ i_outcome := Some out_skipped }>) |> setState id skipped in
      match i_kind it with
      | file =>
          let u := restartFile id u in
          match i_temp it, u_backend u with
          | Some temp, Some _ => ask_host (c_remove temp) u
          | _, _ => u
          end
      | dir =>
          for_each (λ c u,
            match u_items u !! c with
            | Some child => if is_placed_or_skipped (i_state child) then u else skip fuel c u
            | None => u
            end) (i_children it) u
      end
  | _, _ => u
  end.

(** An item cancelled. *)
Fixpoint stopItem (fuel : nat) (id : nat) (u : Upload) : Upload :=
  match fuel, u_items u !! id with
  | S fuel, Some it =>
      let u := u |> on_item id (λ it, it <{ i_sink := None }>)
                 |> setState id cancelled
                 |> on_item id (λ it, it <{ i_reason := None }>) in
      match i_kind it with
      | dir =>
          for_each (λ c u,
            match u_items u !! c with
            | Some child =>
                if bool_decide (i_state child ∈ [queued; conflict; interrupted; sending])
                then stopItem fuel c u else u
            | None => u
            end) (i_children it) u
      | file => if i_writing it then u else afterStop id (i_sink it) (k_afterStop id) u
      end
  | _, _ => u
  end.

Definition FOLDER_FAILED : text := txt "The folder it is in could not be created".
Fixpoint failSubtree (fuel : nat) (id : nat) (code reason : text) (u : Upload) : Upload :=
  match fuel, u_items u !! id with
  | S fuel, Some it =>
      let u := u |> on_item id (λ it, it <{ i_code := Some code }> <{ i_reason := Some reason }>)
                 |> setState id failed in
      for_each (λ c u,
        match u_items u !! c with
        | Some child =>
            if bool_decide (i_state child ∈ [queued; conflict])
            then failSubtree fuel c code FOLDER_FAILED u else u
        | None => u
        end) (i_children it) u
  | _, _ => u
  end.

(** A tree is no deeper than its items: enough fuel for each of the three. *)
Definition skipItem (id : nat) (u : Upload) : Upload := skip (length (u_items u)) id u.
Definition cancelItem (id : nat) (u : Upload) : Upload := stopItem (length (u_items u)) id u.
Definition failFolder (id : nat) (code reason : text) (u : Upload) : Upload :=
  failSubtree (length (u_items u)) id code reason u.

(** A file stopped short of its name. *)
Definition fileFailed (id : nat) (e : Error) (u : Upload) : Upload :=
  match u_items u !! id with
  | None => u
  | Some it =>
      let u := on_item id (λ it, it <{ i_sink := None }>) u in
      let note := on_item id (λ it, it <{ i_reason := Some (messageOf e) }>
                                       <{ i_code := Some (codeOf e) }>) in
      if isInterruption e then
        u |> abort (i_sink it) |> setState id interrupted |> note |> interruptAll (messageOf e)
      else
        u |> note |> setState id failed |> restartFile id |> abort (i_sink it)
          |> await (k_failedAborted id (i_temp it))
  end.
