(* ===== verification/TransferFlow.v ===== *)
(** * An upload over time ([packages/hub/src/transfers/transfer-service.ts], with the names of
      [packages/hub/src/files/upload-backend.ts])

    The operations that wait on the host, cut at each [await], the messages of the windows, the pump
    that starts files, and the steps that interleave them. The host, reached over the network, may
    answer anything at any time, in any order, or not at all. *)

From stdpp Require Import pretty.
From S2P Require Import Prelude JsMap Text HostPaths UploadTree TransferItems.
#[local] Open Scope lasterm_scope.

(** ** Names on the host *)

(** [[...t]]: the code points of a string. *)
Fixpoint characters (t : text) : list text :=
  match t with
  | [] => []
  | x :: t' =>
      match t' with
      | y :: t'' => if is_high x && is_low y then [x; y] :: characters t'' else [x] :: characters t'
      | [] => [[x]]
      end
  end.

Fixpoint cut_characters (kept : text) (cs : list text) (bytes : nat) : text :=
  match cs with
  | [] => kept
  | c :: cs => if decide (bytes < utf8_length (kept ++ c)) then kept
               else cut_characters (kept ++ c) cs bytes
  end.
Definition cutToBytes (name : text) (bytes : nat) : text :=
  match cut_characters [] (characters name) bytes with
  | [] => default (txt "x") (head (characters name))
  | kept => kept
  end.

Definition TEMP_TAIL_LENGTH : nat := length (txt ".0123456789abcdef.partial").

Section names.
Context (toUpperCase : text → text).

Definition temp_at (parent name random : text) (style : PathStyle) : text :=
  joinHostPath toUpperCase parent (txt "." ++ name ++ txt "." ++ random ++ txt ".partial") style.
(** [None] is the exception: a root has no temporary. *)
Definition tempPathFor (target : text) (style : PathStyle) (random : text) : option text :=
  parent ← parentOf target style;
  let name := cutToBytes (baseNameOf target style) (MAX_NAME_BYTES - 1 - TEMP_TAIL_LENGTH) in
  let temp := temp_at parent name random style in
  Some
    match style with
    | windows =>
        if decide (WINDOWS_MAX_PATH_LENGTH < length temp) then
          let over := length temp - WINDOWS_MAX_PATH_LENGTH in
          temp_at parent (mjoin (take (Nat.max 1 (length (characters name) - over)) (characters name)))
            random style
        else temp
    | posix => temp
    end.

Definition keepBothName (name : text) (n : nat) (kind : TransferItemKind) : text :=
  let copy := txt " (" ++ txt (pretty n) ++ txt ")" in
  match kind, lastIndexOf DOT name with
  | file, Some (S dot) => take (S dot) name ++ copy ++ drop (S dot) name
  | _, _ => name ++ copy
  end.
End names.

(** ** What the host answers *)

Inductive FolderResult :=
| created | merged | clash (existing : option FileEntry) | mkdir_failed (code message : text).
Inductive PlaceResult := put | exists_ (existing : option FileEntry).

(** [a_connection] gives the backend asked for. *)
Inductive Answer :=
| a_connection (r : Error + UploadBackend)
| a_folders (r : Error + list FolderResult)
| a_stat (r : Error + FileEntry)
| a_done (r : option Error)
| a_placement (r : Error + bool)
| a_opened (r : Error + Sink)
| a_finished (r : Error + TransferVerification)
| a_placed (r : Error + PlaceResult)
| a_reached (connected : bool)
| a_resumable (problem : option TransferNotResumedReason).

Definition FOLDER_BATCH : nat := 500.
Definition KEEP_BOTH_TRIES : nat := 100 * 100.
Definition HOST_WORK_CONCURRENCY : nat := 8.
Definition NO_NAME : text := txt "No free name was found for it".

Section flow.
Context (toUpperCase : text → text).

Definition join_in (u : Upload) (dir name : text) : text := joinHostPath toUpperCase dir name (u_style u).
Definition state_of (u : Upload) (id : nat) : option TransferItemState := i_state <$> u_items u !! id.
Definition resolution_of (u : Upload) (id : nat) : option TransferConflictAction :=
  u_items u !! id ≫= i_resolution.
Definition is_queued (u : Upload) (id : nat) : bool := bool_decide (state_of u id = Some queued).
Definition is_sending (u : Upload) (id : nat) : bool := bool_decide (state_of u id = Some sending).
Definition keeps_both (u : Upload) (id : nat) : bool := bool_decide (resolution_of u id = Some keep_both).
Definition unbusy (u : Upload) : Upload := u <{ u_busy ::= pred }>.

(** ** Creating folders *)

Definition folders_done (u : Upload) : Upload :=
  u <{ u_creatingFolders := false }> |> unbusy |> settle |> schedulePump.

(** The head of the loop of [createFolders]. *)
Definition folders_next (u : Upload) : Upload :=
  match u_folderQueue u with
  | [] => folders_done u
  | queue =>
      let batch := filter (is_queued u) (take FOLDER_BATCH queue) in
      let plain := filter (λ id, negb (keeps_both u id)) batch in
      backendOf (n_folders batch plain) (u <{ u_folderQueue := drop FOLDER_BATCH queue }>)
  end.
Definition createFolders (u : Upload) : Upload :=
  folders_next (u <{ u_creatingFolders := true }> <{ u_busy ::= S }>).

Definition folders_failed (e : Error) (u : Upload) : Upload :=
  let queue := u_folderQueue u in
  let stop id u :=
    if is_queued u id then
      if isInterruption e then interrupt id (messageOf e) u
      else failFolder id (codeOf e) (messageOf e) u
    else u in
  let u := for_each stop queue (u <{ u_folderQueue := [] }>) in
  folders_done (if isInterruption e then interruptAll (messageOf e) u else u).

Definition folderPlaced (id : nat) (path : text) (outcome : TransferOutcome) (u : Upload) : Upload :=
  u |> on_item id (λ it, it <{ i_path := Some path }> <{ i_outcome := Some outcome }>)
    |> setState id placed
    |> enqueueReady (Some id).

Definition note_clash (existing : option FileEntry) (it : Item) : Item :=
  it <{ i_existing := existing }> <{ i_typeClash := true }> <{ i_late := true }>.
Definition folderClash (id : nat) (existing : option FileEntry) (u : Upload) : Upload :=
  let u := on_item id (note_clash existing) u in
  match u_onConflict u with
  | always skip_it => skipItem id u
  | always keep_both =>
      on_item id (λ it, it <{ i_resolution := Some keep_both }>) u
        <{ u_folderQueue ::= λ q, q ++ [id] }>
  | _ => setState id conflict u <{ u_conflicts ::= λ l, l ++ [MkConflict id existing true true] }>
  end.

(** The next name tried for a folder kept beside what has its name. *)
Definition keepBoth_try (id n : nat) (rest : list nat) (u : Upload) : Upload :=
  match u_items u !! id with
  | Some it =>
      let name := keepBothName (i_name it) n dir in
      let path := join_in u (parentPath u it) name in
      u |> ask_host (c_mkdirs [path]) |> await (k_keepBothFolder id n name path rest)
  | None => u
  end.
Fixpoint keepBoth_next (rest : list nat) (u : Upload) : Upload :=
  match rest with
  | [] => folders_next u
  | id :: rest => if is_queued u id then keepBoth_try id 1 rest u else keepBoth_next rest u
  end.
Definition keepBoth_answered (id n : nat) (name path : text) (rest : list nat)
  (results : list FolderResult) (u : Upload) : Upload :=
  match head results with
  | Some created =>
      u |> on_item id (λ it, it <{ i_finalName := Some name }>)
        |> folderPlaced id path out_kept_both |> keepBoth_next rest
  | Some (mkdir_failed code message) => u |> failFolder id code message |> keepBoth_next rest
  | _ =>
      if decide (n < KEEP_BOTH_TRIES) then keepBoth_try id (S n) rest u
      else u |> failFolder id (txt "NO_FREE_NAME") NO_NAME |> keepBoth_next rest
  end.

(** What each folder of the batch came to. *)
Definition folder_answered (entry : nat * text * option FolderResult) (u : Upload) : Upload :=
  let '(id, path, result) := entry in
  if is_queued u id then
    match result with
    | Some created => folderPlaced id path out_created u
    | Some merged => folderPlaced id path out_merged u
    | Some (clash existing) => folderClash id existing u
    | Some (mkdir_failed code message) => failFolder id code message u
    | None => u
    end
  else u.
Definition mkdirs_answered (batch plain : list nat) (paths : list text) (results : list FolderResult)
  (u : Upload) : Upload :=
  let entries := imap (λ index '(id, path), (id, path, results !! index)) (zip plain paths) in
  let u := fold_left (λ u entry, folder_answered entry u) entries u in
  keepBoth_next (filter (keeps_both u) batch) u.

Definition folders_reached (batch plain : list nat) (u : Upload) : Upload :=
  let paths := omap (λ id, (λ it, join_in u (parentPath u it) (i_name it)) <$> u_items u !! id) plain in
  u |> ask_host (c_mkdirs paths) |> await (k_mkdirs batch plain paths).

(** ** A file: finished, placed, or something has its name *)

Definition finishFile (id : nat) (u : Upload) : Upload :=
  match u_items u !! id with
  | Some it =>
      match i_sink it with
      | Some sink =>
          if is_sending u id then
            u |> on_item id (λ it, it <{ i_sink := None }>)
              |> setState id verifying |> settle |> schedulePump
              |> ask_host (c_finish sink (i_hash it))
              |> (λ u, u <{ u_busy ::= S }>)
              |> await (k_finish id)
          else u
      | None => u
      end
  | None => u
  end.
Definition finish_if_whole (id : nat) (u : Upload) : Upload :=
  match u_items u !! id with
  | Some it => if bool_decide (i_acked it = i_size it) then finishFile id u else u
  | None => u
  end.

Definition filePlaced (id : nat) (path : text) (outcome : TransferOutcome) (u : Upload) : Upload :=
  u |> on_item id (λ it, it <{ i_path := Some path }> <{ i_outcome := Some outcome }>
                            <{ i_temp := None }> <{ i_tempWhole := false }>)
    |> setState id placed.

Definition clashes (existing : option FileEntry) : bool :=
  match existing with Some e => isFolderLike e | None => false end.
Definition note_conflict (existing : option FileEntry) (it : Item) : Item :=
  it <{ i_existing := existing }> <{ i_typeClash := clashes existing }> <{ i_late := true }>.
(** What the policy does with a conflict found late: [None] asks. *)
Definition late_policy (policy : TransferOnConflict) (typeClash : bool) : option TransferConflictAction :=
  match policy with
  | ask => None
  | always replace => if typeClash then None else Some replace
  | always action => Some action
  end.
Definition conflictFound (id : nat) (existing : option FileEntry) (u : Upload) : Upload :=
  let u := on_item id (note_conflict existing) u in
  let whole := match u_items u !! id with Some it => i_tempWhole it | None => false end in
  match late_policy (u_onConflict u) (clashes existing) with
  | Some skip_it => skipItem id u
  | Some policy =>
      let u := on_item id (λ it, it <{ i_resolution := Some policy }>) u in
      if whole then place id u else u |> setState id queued |> enqueue id
  | None =>
      let u := if whole then u
               else on_item id (λ it, it <{ i_sink := None }> <{ i_temp := None }>) u in
      setState id conflict u
        <{ u_conflicts ::= λ l, l ++ [MkConflict id existing (clashes existing) true] }>
  end.

(** The [finally] of [place]. *)
Definition place_done (u : Upload) : Upload := u |> unbusy |> settle |> schedulePump.
Definition place_failed (id : nat) (e : Error) (u : Upload) : Upload := place_done (fileFailed id e u).

Definition placeBoth_try (id n : nat) (parent temp : text) (u : Upload) : Upload :=
  match u_items u !! id with
  | Some it =>
      if decide (n <= KEEP_BOTH_TRIES) then
        let name := keepBothName (i_name it) n file in
        let target := join_in u parent name in
        u |> ask_host (c_place id temp target false) |> await (k_placeBoth id n parent name target temp)
      else place_failed id (Failure (txt "FILE_ACCESS_FAILED") NO_NAME) u
  | None => u
  end.
Definition place_reached (id : nat) (u : Upload) : Upload :=
  match u_items u !! id with
  | Some it =>
      let temp := default [] (i_temp it) in
      let target := join_in u (parentPath u it) (i_name it) in
      match i_resolution it with
      | Some replace => u |> ask_host (c_place id temp target true) |> await (k_placeReplace id target)
      | Some keep_both => placeBoth_try id 1 (parentPath u it) temp u
      | _ => u |> ask_host (c_place id temp target false) |> await (k_placeNew id target temp)
      end
  | None => u
  end.
Definition placeReplace_answered (id : nat) (target : text) (u : Upload) : Upload :=
  match u_items u !! id with
  | Some it =>
      place_done (filePlaced id target
        (if bool_decide (i_existing it ≠ None) || i_late it then out_replaced else out_placed) u)
  | None => u
  end.
Definition placeBoth_answered (id n : nat) (parent name target temp : text) (r : PlaceResult) (u : Upload) :
  Upload :=
  match r with
  | put => u |> on_item id (λ it, it <{ i_finalName := Some name }>)
             |> filePlaced id target out_kept_both |> place_done
  | exists_ _ => placeBoth_try id (S n) parent temp u
  end.
Definition placeNew_answered (id : nat) (target : text) (r : PlaceResult) (u : Upload) : Upload :=
  match r with
  | put => u |> filePlaced id target out_placed |> place_done
  | exists_ existing => u |> conflictFound id existing |> place_done
  end.

Definition finished (id : nat) (v : TransferVerification) (u : Upload) : Upload :=
  let u := unbusy u in
  let over_commands :=
    match u_backend u with Some b => bool_decide (b_transport b = over_exec) | None => false end in
  let check it :=
    if i_carried it && u_verify u && over_commands && bool_decide (v = v_size)
    then v_size_resumed else v in
  let u := u |> on_item id (λ it, it <{ i_verification := Some (check it) }>
                                     <{ i_tempWhole := true }> <{ i_hash := None }>)
             |> persistItem id in
  match u_items u !! id with
  | Some it =>
      if i_direct it then
        filePlaced id (default [] (i_temp it))
          (if bool_decide (i_finalName it = None) then out_placed else out_kept_both) u
      else place id u
  | None => u
  end.
Definition finish_failed (id : nat) (e : Error) (u : Upload) : Upload := fileFailed id e (unbusy u).

(** ** Opening a file *)

(** What follows the opening, whether it resolved or rejected. *)
Definition open_done (id : nat) (u : Upload) : Upload :=
  if is_sending u id then finish_if_whole id u else u.
Definition open_failed (id : nat) (e : Error) (u : Upload) : Upload :=
  if is_sending u id then fileFailed id e u else u.

Definition open_temp (id o : nat) (target : text) (u : Upload) : Upload :=
  match u_items u !! id with
  | Some it =>
      u |> ask_host (c_open id (default [] (i_temp it)) (i_acked it))
        |> await (k_openTemp id o target (i_acked it) false)
  | None => u
  end.
Definition no_temporary : Error := Failure (txt "UNSUPPORTED_PATH") (txt "A root has no temporary").
Definition name_temp (id : nat) (target random : text) (k : Upload → Upload) (u : Upload) : Upload :=
  match tempPathFor toUpperCase target (u_style u) random with
  | Some temp => u |> on_item id (λ it, it <{ i_temp := Some temp }>) |> persistItem id |> k
  | None => open_failed id no_temporary u
  end.

Definition openDirect_try (id o : nat) (parent : text) (keepBoth : bool) (n : nat) (u : Upload) : Upload :=
  match u_items u !! id with
  | Some it =>
      if decide (n <= KEEP_BOTH_TRIES) then
        let name := match n with
                    | 0 => default (i_name it) (i_finalName it)
                    | _ => keepBothName (i_name it) n file
                    end in
        let path := join_in u parent name in
        u |> ask_host (c_open id path 0) |> await (k_openDirect id o parent keepBoth n name path)
      else open_failed id (Failure (txt "FILE_ACCESS_FAILED") NO_NAME) u
  | None => u
  end.
Definition openDirect_opened (id n : nat) (name path : text) (sink : Sink) (u : Upload) : Upload :=
  u |> on_item id (λ it,
         let it := it <{ i_sink := Some sink }> <{ i_temp := Some path }> in
         if decide (0 < n) then it <{ i_finalName := Some name }> else it)
    |> persistItem id |> open_done id.
Definition openDirect_answered (id o : nat) (parent : text) (keepBoth : bool) (n : nat) (name path : text)
  (r : Error + Sink) (u : Upload) : Upload :=
  match r with
  | inr sink => openDirect_opened id n name path sink u
  | inl (TargetExists existing) =>
      if keepBoth then openDirect_try id o parent keepBoth (S n) u
      else u |> conflictFound id existing |> persistItem id |> open_done id
  | inl e => open_failed id e u
  end.

(** With no temporary: how the folder takes a file; a Replace always goes through a temporary. *)
Definition open_placement (id o : nat) (parent target random : text) (direct : bool) (u : Upload) :
  Upload :=
  let u := on_item id (λ it, it <{ i_direct := direct }>) u in
  let u := if u_verify u then on_item id (λ it, it <{ i_hash := Some [] }>) u else u in
  if direct then
    let keepBoth := keeps_both u id in
    openDirect_try id o parent keepBoth (if keepBoth then 1 else 0) u
  else name_temp id target random (open_temp id o target) u.
Definition open_ready (id o : nat) (parent target random : text) (u : Upload) : Upload :=
  match u_items u !! id with
  | Some it =>
      if bool_decide (i_temp it = None) then
        if bool_decide (i_resolution it = Some replace) then open_placement id o parent target random false u
        else u |> ask_host (c_placement parent) |> await (k_openPlacement id o parent target)
      else u |> persistItem id |> open_temp id o target
  | None => u
  end.

Definition open_remove (id o : nat) (parent target : text) (u : Upload) : Upload :=
  match u_items u !! id with
  | Some it =>
      u |> ask_host (c_remove (default [] (i_temp it))) |> await (k_openRemoved id o parent target)
  | None => u
  end.
Definition size_there (r : Error + FileEntry) : Z :=
  match r with
  | inr there => match e_kind there with is_file => default (-1)%Z (e_size there) | _ => -1 end
  | inl _ => -1
  end.
Definition open_statted (id o : nat) (transport : UploadTransport) (parent target random : text)
  (r : Error + FileEntry) (u : Upload) : Upload :=
  match u_items u !! id with
  | Some it =>
      let size := size_there r in
      let resumable :=
        if bool_decide (transport = over_exec) && negb (i_carried it)
        then (size =? i_acked it)%Z else (i_acked it <=? size)%Z in
      if resumable then
        if (i_acked it <? size)%Z then
          u |> ask_host (c_truncate (default [] (i_temp it)) (i_acked it))
            |> await (k_openTruncate id o parent target)
        else open_ready id o parent target random u
      else open_remove id o parent target u
  | None => u
  end.
Definition open_truncated (id o : nat) (parent target random : text) (r : option Error) (u : Upload) :
  Upload :=
  match r with
  | None => open_ready id o parent target random u
  | Some e => if isInterruption e then open_failed id e u else open_remove id o parent target u
  end.
Definition open_reached (id o : nat) (transport : UploadTransport) (random : text) (u : Upload) : Upload :=
  match u_items u !! id with
  | Some it =>
      let parent := parentPath u it in
      let target := join_in u parent (default (i_name it) (i_finalName it)) in
      match i_temp it with
      | Some temp =>
          if decide (0 < i_acked it)%Z then
            u |> ask_host (c_stat temp) |> await (k_openStat id o transport parent target)
          else open_remove id o parent target u
      | None => open_ready id o parent target random u
      end
  | None => u
  end.

Definition openTemp_opened (id o : nat) (sink : Sink) (u : Upload) : Upload :=
  let u := on_item id (λ it, it <{ i_sink := Some sink }>) u in
  if is_sending u id then open_done id u
  else u |> on_item id (λ it, it <{ i_sink := None }>)
         |> afterStop id (Some sink) (k_openAborted id o).
Definition reopen_temp (id o : nat) (target : text) (resumeAt : Z) (u : Upload) : Upload :=
  match u_items u !! id with
  | Some it =>
      u |> ask_host (c_open id (default [] (i_temp it)) resumeAt)
        |> await (k_openTemp id o target resumeAt true)
  | None => u
  end.
Definition openTemp_answered (id o : nat) (target : text) (resumeAt : Z) (again : bool) (random : text)
  (r : Error + Sink) (u : Upload) : Upload :=
  match r, u_items u !! id with
  | inr sink, _ => openTemp_opened id o sink u
  | inl (TargetExists existing), Some it =>
      if again || bool_decide (0 < i_acked it)%Z then open_failed id (TargetExists existing) u
      else name_temp id target random (reopen_temp id o target resumeAt) u
  | inl e, _ => open_failed id e u
  end.

(** [admit]: start sending a file. *)
Definition admit_file (id : nat) (u : Upload) : Upload :=
  let o := u_next u in
  u |> setState id sending
    |> on_item id (λ it, it <{ i_reason := None }> <{ i_code := None }> <{ i_opening := Some o }>)
    |> backendOf (n_open id o)
    |> settleNow.

(** ** The bytes *)

Definition refuse (requester : TransferRequester) (code : refusal_code) : Upload → Upload :=
  emit (refused_to (r_clientId requester) code).

Definition receive (requester : TransferRequester) (id : nat) (offset : Z) (data : text) (u : Upload) :
  Upload :=
  match u_items u !! id with
  | None => refuse requester ITEM_NOT_FOUND u
  | Some it =>
      if bool_decide (i_kind it ≠ file) then refuse requester ITEM_NOT_FOUND u
      else if bool_decide (u_source u ≠ Some (r_clientId requester) ∨ u_tokenId u ≠ r_tokenId requester)
      then refuse requester NOT_THE_SENDER u
      else if is_sending u id then await (k_receive id requester offset data (i_opening it)) u
      else refuse requester ITEM_NOT_SENDING u
  end.

(** Once the file is open. *)
Definition chunk_problem (it : Item) (offset : Z) (data : text) : option refusal_code :=
  if bool_decide (i_state it ≠ sending ∨ i_sink it = None) then Some ITEM_NOT_SENDING
  else if i_writing it then Some ITEM_BUSY
  else if bool_decide (offset ≠ i_acked it) then Some OFFSET_MISMATCH
  else if bool_decide (data = [] ∨ (i_size it < offset + Z.of_nat (length data))%Z) then Some PAST_END
  else None.
Definition receive_opened (id : nat) (requester : TransferRequester) (offset : Z) (data : text)
  (u : Upload) : Upload :=
  match u_items u !! id with
  | Some it =>
      match chunk_problem it offset data, i_sink it with
      | None, Some sink =>
          u |> on_item id (λ it, it <{ i_writing := true }>)
            |> ask_host (c_write sink data offset)
            |> await (k_write id requester sink data)
      | Some code, _ => refuse requester code u
      | None, None => u
      end
  | None => u
  end.
Definition write_answered (id : nat) (requester : TransferRequester) (sink : Sink) (data : text)
  (r : option Error) (u : Upload) : Upload :=
  match r with
  | Some e =>
      let u := if is_sending u id then fileFailed id e u else u in
      u |> on_item id (λ it, it <{ i_writing := false }>) |> refuse requester (HOST_REFUSED (codeOf e))
  | None =>
      let u := on_item id (λ it, it <{ i_writing := false }>) u in
      if is_sending u id then
        let u := u |> on_item id (λ it, it <{ i_hash ::= λ h, (λ h, h ++ data) <$> h }>)
                   |> addAcked id (Z.of_nat (length data))
                   |> finish_if_whole id
                   |> settle in
        emit (acked_to (r_clientId requester) id (default 0%Z (i_acked <$> u_items u !! id))) u
      else afterStop id (Some sink) (k_receiveAborted id requester) u
  end.

(** ** Resuming *)

(** What the window found of a file as it resumes. *)
Definition resumable_state (s : TransferItemState) : bool :=
  bool_decide (s ∈ [interrupted; queued; conflict; failed; cancelled]).
Definition SKIPPED_REASONS (why : TransferResumeSkip) : text :=
  txt match why with
      | gone => "no longer on the device that sent it"
      | changed => "changed since it was sent"
      | unreadable => "could not be read on the device that sent it"
      end.
Definition resize (id : nat) (size : Z) (mtime : option Z) (u : Upload) : Upload :=
  match u_items u !! id with
  | Some it =>
      let grown := (size - i_size it)%Z in
      let u := on_item id (λ it, it <{ i_tree ::= λ t,
        MkItem (it_id t) (it_relPath t) (it_name t) (it_kind t) size mtime (it_parent t) (it_children t) }>) u in
      if decide (grown = 0%Z) then u
      else on_totalsAbove it (λ t, t <{ t_bytes ::= λ b, (b + grown)%Z }>) u
  | None => u
  end.
Definition changedFile (f : TransferResumeFile) (u : Upload) : Upload :=
  let id := f_itemId f in
  match u_items u !! id with
  | None => u
  | Some it =>
      if bool_decide (i_kind it = file) && resumable_state (i_state it) then
        match f_action f with
        | leave_out why =>
            u |> skipItem id
              |> on_item id (λ it, it <{ i_reason := Some (SKIPPED_REASONS why) }> <{ i_code := None }>)
              |> persistItem id
        | restart size mtime =>
            let u := restartFile id u in
            let u := match i_temp it with Some temp => ask_host (c_remove temp) u | None => u end in
            u |> resize id size mtime
              |> on_item id (λ it, it <{ i_verification := None }>)
              |> (λ u, u <{ u_dirtyItems ::= set_add id }>)
              |> markFolders it
              |> persistItem id
        end
      else u
  end.

Definition notResumed (reason : TransferNotResumedReason) (u : Upload) : Upload :=
  if u_known u then sayState (persist (u <{ u_reason := Some reason }>)) else u.
Definition takeUp_failed (e : Error) (u : Upload) : Upload :=
  let u := unbusy u in
  notResumed host_unreachable (if isInterruption e then interruptAll (messageOf e) u else u).

(** The workers of [mapLimited]: each takes what is next until nothing is left. *)
Fixpoint look_next (run : nat) (todo : list nat) (u : Upload) : Upload :=
  match todo with
  | [] => u <{ u_looks ::= <[run := []]> }>
  | id :: todo =>
      match u_items u !! id ≫= i_temp with
      | Some temp =>
          u <{ u_looks ::= <[run := todo]> }> |> ask_host (c_stat temp) |> await (k_lookStat run id temp)
      | None => look_next run todo u
      end
  end.
Definition look_worker (run : nat) (u : Upload) : Upload :=
  look_next run (default [] (u_looks u !! run)) u.
Definition is_takeUp (run : nat) (k : Pending) : bool :=
  match k with k_takeUp run' _ => bool_decide (run = run') | _ => false end.
(** The first look that rejects ends the wait for all; the other workers go on. *)
Definition look_rejected (run : nat) (e : Error) (u : Upload) : Upload :=
  if existsb (λ p, is_takeUp run p.2) (u_pending u) then
    takeUp_failed e (u <{ u_pending ::= filter (λ p, negb (is_takeUp run p.2)) }>)
  else u.
Definition look_restart (run id : nat) (temp : text) (there : bool) (u : Upload) : Upload :=
  if there then u |> ask_host (c_remove temp) |> await (k_lookRemoved run id)
  else u |> restartFile id |> look_worker run.
Definition look_statted (run id : nat) (temp : text) (r : Error + FileEntry) (u : Upload) : Upload :=
  let interrupted := match r with inl e => if isInterruption e then Some e else None | inr _ => None end in
  match interrupted, u_items u !! id with
  | Some e, _ => look_rejected run e u
  | None, Some it =>
      let size := size_there r in
      let there := match r with inr e => match e_kind e with is_file => true | _ => false end | _ => false end in
      if i_tempWhole it then
        if (size =? i_size it)%Z then look_worker run u else look_restart run id temp there u
      else if (0 <? i_acked it)%Z && (i_acked it <=? size)%Z then
        if (size =? i_acked it)%Z then look_worker run u
        else u |> ask_host (c_truncate temp (i_acked it)) |> await (k_lookTruncate run id temp)
      else look_restart run id temp there u
  | None, None => u
  end.
Definition look_truncated (run id : nat) (temp : text) (r : option Error) (u : Upload) : Upload :=
  match r with
  | None => look_worker run u
  | Some e => if isInterruption e then look_rejected run e u else look_restart run id temp true u
  end.

Definition has_temp_to_resume (u : Upload) (id : nat) : bool :=
  match u_items u !! id with
  | Some it => bool_decide (i_kind it = file ∧ i_temp it ≠ None) && resumable_state (i_state it)
  | None => false
  end.
Definition takeUp (requester : TransferRequester) (files : list TransferResumeFile) (u : Upload) : Upload :=
  u <{ u_reason := None }> <{ u_linkDropped := false }> <{ u_busy ::= S }>
    |> backendOf (n_takeUp requester files).
Definition takeUp_reached (requester : TransferRequester) (files : list TransferResumeFile) (u : Upload) :
  Upload :=
  let u := fold_left (λ u f, changedFile f u) files u in
  let kept := filter (has_temp_to_resume u) (ids u) in
  let run := u_next u in
  let u := u <{ u_looks ::= <[run := kept]> }> |> await (k_takeUp run requester) in
  Nat.iter (Nat.min HOST_WORK_CONCURRENCY (length kept)) (look_worker run) u.
Definition takeUp_done (requester : TransferRequester) (u : Upload) : Upload :=
  let u := unbusy u in
  if u_known u then
    let u := u <{ u_source := Some (r_clientId requester) }> in
    u |> requeueAll (filter (is_stopped_short u) (u_order u)) |> persist |> settle |> schedulePump
  else u.

(** ** The messages of a window *)

(** What a window may do, and whether the terminal ended, as the rest of the hub says. *)
Record World := MkWorld {
  mayWrite : text → text → bool;
  channelEnded : text → bool;
  maxConcurrent : nat
}.

Inductive Scope := on_upload | under (id : nat) | no_scope.
Fixpoint walk (items : list Item) (fuel : nat) (id : nat) : list nat :=
  match fuel, items !! id with
  | S fuel, Some it => id :: (i_children it ≫= walk items fuel)
  | _, _ => []
  end.
Definition scoped (u : Upload) (scope : Scope) : option (list nat) :=
  match scope with
  | on_upload => Some (ids u)
  | under id => if decide (id < length (u_items u))
                then Some (walk (u_items u) (length (u_items u)) id) else None
  | no_scope => None
  end.

(** [controlledById]: why a window may not act on the upload. *)
Definition control_problem (w : World) (requester : TransferRequester) (sends : bool) (u : Upload) :
  option refusal_code :=
  let allowed :=
    if channelEnded w (u_channelId u) then bool_decide (r_tokenId requester = u_tokenId u)
    else mayWrite w (u_channelId u) (r_clientId requester) in
  if negb allowed then Some WRITE_LOCK_DENIED
  else if sends && bool_decide (r_tokenId requester ≠ u_tokenId u) then Some NOT_THE_SENDER
  else None.
Definition controlled (w : World) (requester : TransferRequester) (sends : bool)
  (act : Upload → Upload) (u : Upload) : Upload :=
  match control_problem w requester sends u with
  | Some code => refuse requester code u
  | None => act u
  end.
Definition with_scope (requester : TransferRequester) (scope : Scope)
  (act : list nat → Upload → Upload) (u : Upload) : Upload :=
  match scoped u scope with
  | Some items => act items u
  | None => refuse requester ITEM_NOT_FOUND u
  end.

Definition is_clash (u : Upload) (id : nat) : bool :=
  match u_items u !! id with
  | Some it => bool_decide (i_state it = conflict) && i_typeClash it
  | None => false
  end.
Definition resolve_item (action : TransferConflictAction) (id : nat) (u : Upload) : Upload :=
  match u_items u !! id with
  | None => u
  | Some it =>
      if bool_decide (i_state it ≠ conflict) then u
      else if bool_decide (action = replace) && i_typeClash it then u
      else
        match action with
        | skip_it => skipItem id u
        | _ =>
            let u := on_item id (λ it, it <{ i_resolution := Some action }>) u in
            if bool_decide (i_kind it = file) && i_tempWhole it then place id u
            else u |> setState id queued |> enqueue id
        end
  end.
Definition resolve (w : World) (requester : TransferRequester) (scope : Scope)
  (action : TransferConflictAction) : Upload → Upload :=
  controlled w requester false $ with_scope requester scope $ λ items u,
    if bool_decide (action = replace) &&
       match scope with under id => is_clash u id | _ => false end
    then refuse requester INVALID_ACTION u
    else u |> for_each (resolve_item action) items |> settle |> schedulePump.

Definition requeue_and_go (again : list nat) (u : Upload) : Upload :=
  u |> requeueAll again |> settle |> schedulePump.
(** A host that is not connected is reached first. *)
Definition retry (w : World) (requester : TransferRequester) (scope : Scope) (isConnected : bool) :
  Upload → Upload :=
  controlled w requester false $ with_scope requester scope $ λ items u,
    match filter (is_stopped_short u) items with
    | [] => u
    | again => if isConnected then requeue_and_go again u else await (k_retry requester again) u
    end.

Definition cancel_item (id : nat) (u : Upload) : Upload :=
  match u_items u !! id with
  | Some it => if bool_decide (i_state it ∈ [queued; sending; conflict; interrupted])
               then cancelItem id u else u
  | None => u
  end.
Definition cancel (w : World) (requester : TransferRequester) (scope : Scope) : Upload → Upload :=
  controlled w requester false $ with_scope requester scope $ λ items u,
    u |> for_each cancel_item items |> settle |> schedulePump.

Definition clientGone (clientId : text) (u : Upload) : Upload :=
  if bool_decide (u_source u = Some clientId) then
    u <{ u_source := None }>
      |> for_each (interrupt_in [sending] (txt "The window sending it left")) (ids u)
      |> settle |> schedulePump
  else schedulePump u.
Definition interruptOn (u : Upload) : Upload :=
  u |> for_each (interrupt_in [queued; sending; verifying] (txt "The connection to the host was closed"))
         (ids u)
    |> releaseBackend |> settle.
Definition resumeDropped (u : Upload) : Upload :=
  match u_source u with
  | None => u
  | Some source =>
      let u :=
        match u_backend u with
        | Some b => if b_lost b then interruptAll (txt "The connection to the host was lost") u else u
        | None => u
        end in
      if u_linkDropped u then takeUp (MkRequester source (u_tokenId u)) [] u else u
  end.

(** An upload dropped again by a window, that no window sends any more. *)
Definition joinable (hostId dir signature : text) (u : Upload) : bool :=
  bool_decide (u_source u = None ∧ u_hostId u = hostId ∧ u_dir u = dir ∧ u_signature u = signature) &&
  existsb (λ it, bool_decide (i_kind it = file) && negb (is_placed_or_skipped (i_state it))) (u_items u).
Definition join (requester : TransferRequester) (u : Upload) : Upload :=
  let u := u <{ u_source := Some (r_clientId requester) }> <{ u_reason := None }>
             <{ u_linkDropped := false }> in
  requeue_and_go (filter (is_stopped_short u) (u_order u)) u.

(** Dropped: what it was doing stops, and it is forgotten. *)
Definition drop_item (id : nat) (u : Upload) : Upload :=
  match u_items u !! id with
  | Some it =>
      let u := on_item id (λ it, it <{ i_sink := None }>
        <{ i_state := if bool_decide (i_state it ∈ UNSETTLED) then cancelled else i_state it }>) u in
      if i_writing it then u else abort (i_sink it) u
  | None => u
  end.
Definition forget (u : Upload) : Upload :=
  u <{ u_queue := [] }> <{ u_folderQueue := [] }> <{ u_waiting := ∅ }>
    <{ u_flushTimer := false }> <{ u_flushSoon := false }> <{ u_forgetTimer := false }>
    <{ u_known := false }> <{ u_unsaved := None }> <{ u_unsavedAcks := None }>.
Definition drop (u : Upload) : Upload :=
  for_each drop_item (ids u) u |> forget |> releaseBackend |> emit (to_windows (m_state discarded None)).

(** ** The pump *)

(** [sourceMayWrite] *)
Definition sourceMayWrite (w : World) (u : Upload) : bool :=
  match u_source u with
  | Some source => channelEnded w (u_channelId u) || mayWrite w (u_channelId u) source
  | None => false
  end.
Definition sending_of (n : jsmap text nat) (client : text) : nat := default 0 (n !! client).

(** Start the files there is room for, in order; those settled meanwhile are passed over. *)
Fixpoint pump_queue (fuel limit : nat) (source : text) (s : jsmap text nat * Upload) :
  jsmap text nat * Upload :=
  let '(counts, u) := s in
  match fuel, u_queue u with
  | S fuel, id :: queue =>
      if decide (sending_of counts source < limit) then
        let u := u <{ u_queue := queue }> in
        pump_queue fuel limit source
          (match u_items u !! id with
           | Some it =>
               if bool_decide (i_state it ≠ queued) then (counts, u)
               else if i_tempWhole it then (counts, place id u)
               else (<[source := S (sending_of counts source)]> counts, admit_file id u)
           | None => (counts, u)
           end)
      else s
  | _, _ => s
  end.
Definition pump_upload (w : World) (counts : jsmap text nat) (u : Upload) : jsmap text nat * Upload :=
  let u := if bool_decide (u_folderQueue u ≠ []) && negb (u_creatingFolders u)
           then createFolders u else u in
  match u_source u with
  | Some source =>
      if sourceMayWrite w u
      then pump_queue (length (u_queue u)) (Nat.max 1 (maxConcurrent w)) source (counts, u)
      else (counts, u)
  | None => (counts, u)
  end.

(** How many files each window is sending. *)
Definition sending_in (u : Upload) : nat := default 0 (t_states (u_totals u) !! sending).
Definition count_sending (counts : jsmap text nat) (u : Upload) : jsmap text nat :=
  match u_source u with
  | Some source =>
      if decide (0 < sending_in u)
      then <[source := sending_of counts source + sending_in u]> counts else counts
  | None => counts
  end.
Fixpoint pump_all (w : World) (counts : jsmap text nat) (us : list Upload) : list Upload :=
  match us with
  | [] => []
  | u :: us => let '(counts, u) := pump_upload w counts u in u :: pump_all w counts us
  end.
Definition pump (w : World) (us : list Upload) : list Upload :=
  pump_all w (fold_left count_sending us ∅) ((λ u, u <{ u_pump := false }>) <$> us).

(** ** Starting *)

Definition fresh_item (t : TreeItem) : Item :=
  MkItem' t queued None false false None None None None None 0 None false false None None None false
    None None false 0.

Record Destination := MkDestination {
  d_id : text; d_channelId : text; d_hostId : text; d_dir : text; d_style : PathStyle;
  d_onConflict : TransferOnConflict; d_verify : bool; d_signature : text
}.
Definition blank (d : Destination) (tokenId : option text) (items : list Item) (order : list nat)
  (source : option text) (backend : option UploadBackend) : Upload :=
  MkUpload (d_id d) (d_channelId d) (d_hostId d) (d_dir d) (d_style d) (d_onConflict d) (d_verify d)
    tokenId (d_signature d) items order ∅ emptyTotals ∅ source backend [] [] false ∅ [] [] [] false false false false 0 None false false false None None None
    false true [] ∅ 0 [].

Definition one_more (s : TransferItemState) (m : jsmap TransferItemState nat) :
  jsmap TransferItemState nat := <[s := default 0 (m !! s) + 1]> m.
Definition count_item (it : Item) (u : Upload) : Upload :=
  match i_kind it with
  | dir => u <{ u_folderTotals ::= <[i_id it := emptyTotals]> }>
             <{ u_folderStates ::= one_more (i_state it) }>
  | file => on_totalsAbove it (λ t,
      t <{ t_files ::= S }> <{ t_bytes ::= λ b, (b + i_size it)%Z }>
        <{ t_acked ::= λ a, (a + i_acked it)%Z }> <{ t_states ::= one_more (i_state it) }>) u
  end.
(** The folders first, then the files. *)
Definition assemble (u : Upload) : Upload :=
  let items := u_items u in
  fold_left (λ u it, count_item it u)
    (filter (λ it, i_kind it = dir) items ++ filter (λ it, i_kind it = file) items) u.

(** [lookAtDestination], with what each folder holds ([[]] for one that is not there). *)
Definition key_of (u : Upload) (name : text) : text :=
  match u_style u with windows => toUpperCase name | posix => name end.
Definition entry_of (u : Upload) (entries : list FileEntry) (it : Item) : option FileEntry :=
  last (filter (λ e, key_of u (e_name e) = key_of u (i_name it)) entries).
Definition look_item (path : text) (entries : list FileEntry) (s : list (text * list nat) * Upload)
  (id : nat) : list (text * list nat) * Upload :=
  let '(next, u) := s in
  match u_items u !! id with
  | None => s
  | Some it =>
      match entry_of u entries it with
      | None => s
      | Some entry =>
          if bool_decide (i_kind it = dir) && isFolderLike entry then
            (match i_children it with
             | [] => next
             | children => next ++ [(join_in u path (e_name entry), children)]
             end, on_item id (λ it, it <{ i_existing := None }>) u)
          else
            (next, on_item id (λ it, it <{ i_existing := Some entry }>
               <{ i_typeClash := bool_decide (i_kind it = dir) || isFolderLike entry }>) u)
      end
  end.
Definition look_folder (listing : text → list FileEntry) (s : list (text * list nat) * Upload)
  (folder : text * list nat) : list (text * list nat) * Upload :=
  fold_left (look_item folder.1 (listing folder.1)) folder.2 s.
Fixpoint look_levels (listing : text → list FileEntry) (fuel : nat) (level : list (text * list nat))
  (u : Upload) : Upload :=
  match fuel, level with
  | S fuel, _ :: _ =>
      let '(next, u) := fold_left (look_folder listing) level ([], u) in
      look_levels listing fuel next u
  | _, _ => u
  end.
Definition at_top (u : Upload) (id : nat) : bool :=
  match u_items u !! id with Some it => bool_decide (i_parent it = None) | None => false end.
(** A level per depth of the tree. *)
Definition lookAtDestination (listing : text → list FileEntry) (u : Upload) : Upload :=
  look_levels listing (length (u_items u)) [(u_dir u, filter (at_top u) (ids u))] u.

(** [applyPolicy] *)
Definition policy_item (id : nat) (u : Upload) : Upload :=
  match u_items u !! id with
  | Some it =>
      if bool_decide (i_existing it ≠ None ∧ i_state it = queued) then
        match u_onConflict u with
        | always skip_it => skipItem id u
        | always keep_both => on_item id (λ it, it <{ i_resolution := Some keep_both }>) u
        | always replace =>
            if i_typeClash it then setState id conflict u
            else on_item id (λ it, it <{ i_resolution := Some replace }>) u
        | ask => setState id conflict u
        end
      else u
  | None => u
  end.
Definition applyPolicy (u : Upload) : Upload := for_each policy_item (u_order u) u.
Definition markAll (u : Upload) : Upload := u <{ u_dirtyItems := [] }> <{ u_dirtyFolders := [] }>.

(** An upload of a checked tree, its destination looked at, as it is recorded. *)
Definition prepared (d : Destination) (requester : TransferRequester) (tree : list TreeItem)
  (order : list nat) (backend : UploadBackend) (listing : text → list FileEntry) : Upload :=
  let u := blank d (r_tokenId requester) (fresh_item <$> tree) order (Some (r_clientId requester))
             (Some backend) |> assemble
             |> lookAtDestination listing |> applyPolicy in
  u <{ u_said := Some (uploadState u, None) }>.
Definition recorded (stored : bool) (u : Upload) : Upload := if stored then u <{ u_stored := true }> else u.
(** What [start] leaves of it; [stored] is whether meta.db took its rows. It is in [uploads] from the
    first, since nothing looks there before it is. *)
Definition start (d : Destination) (requester : TransferRequester) (tree : list TreeItem)
  (order : list nat) (backend : UploadBackend) (listing : text → list FileEntry) (stored : bool) :
  Upload :=
  recorded stored (prepared d requester tree order backend listing)
    |> markAll |> enqueueReady None |> settle |> schedulePump.

(** ** Going on with an answer *)

Definition reached (next : Next) (b : UploadBackend) (random : text) : Upload → Upload :=
  match next with
  | n_folders batch plain => folders_reached batch plain
  | n_open id o => open_reached id o (b_transport b) random
  | n_place id => place_reached id
  | n_takeUp requester files => takeUp_reached requester files
  end.
Definition not_reached (next : Next) (e : Error) : Upload → Upload :=
  match next with
  | n_folders _ _ => folders_failed e
  | n_open id _ => open_failed id e
  | n_place id => place_failed id e
  | n_takeUp _ _ => takeUp_failed e
  end.
(** The backend asked for, unless another came meanwhile. *)
Definition adopt (next : Next) (b : UploadBackend) (random : text) (u : Upload) : Upload :=
  match u_backend u with
  | Some held => reached next held random (ask_host c_release u)
  | None => reached next b random (u <{ u_backend := Some b }>)
  end.

Definition or_else {A} (failed : Error → Upload → Upload) (ok : A → Upload → Upload) (r : Error + A) :
  Upload → Upload :=
  match r with inl e => failed e | inr a => ok a end.

Definition opening_of (k : Pending) : option nat :=
  match k with
  | k_backend _ (n_open _ o) | k_openStat _ o _ _ _ | k_openTruncate _ o _ _ | k_openRemoved _ o _ _
  | k_openPlacement _ o _ _ | k_openDirect _ o _ _ _ _ _ | k_openTemp _ o _ _ _ | k_openAborted _ o => Some o
  | _ => None
  end.
Definition look_of (k : Pending) : option nat :=
  match k with k_lookStat run _ _ | k_lookTruncate run _ _ | k_lookRemoved run _ => Some run | _ => None end.
(** A chunk waits for its file's opening to end, a resume for its looks. *)
Definition enabled (u : Upload) (k : Pending) : bool :=
  match k with
  | k_receive _ _ _ _ (Some o) => forallb (λ p, bool_decide (opening_of p.2 ≠ Some o)) (u_pending u)
  | k_takeUp run _ => forallb (λ p, bool_decide (look_of p.2 ≠ Some run)) (u_pending u)
  | _ => true
  end.

(** [None]: not an answer to that. *)
Definition go_on (k : Pending) (a : Answer) (random : text) : option (Upload → Upload) :=
  match k, a with
  | k_backend (Some b) next, a_done None => Some (reached next b random)
  | k_backend None next, a_connection r =>
      Some (or_else (not_reached next) (λ b, adopt next b random) r)
  | k_mkdirs batch plain paths, a_folders r =>
      Some (or_else folders_failed (mkdirs_answered batch plain paths) r)
  | k_keepBothFolder id n name path rest, a_folders r =>
      Some (or_else folders_failed (keepBoth_answered id n name path rest) r)
  | k_openStat id o transport parent target, a_stat r =>
      Some (open_statted id o transport parent target random r)
  | k_openTruncate id o parent target, a_done r => Some (open_truncated id o parent target random r)
  | k_openRemoved id o parent target, a_done None =>
      Some (λ u, u |> restartFile id |> open_ready id o parent target random)
  | k_openPlacement id o parent target, a_placement r =>
      Some (or_else (open_failed id) (open_placement id o parent target random) r)
  | k_openDirect id o parent keepBoth n name path, a_opened r =>
      Some (openDirect_answered id o parent keepBoth n name path r)
  | k_openTemp id o target resumeAt again, a_opened r =>
      Some (openTemp_answered id o target resumeAt again random r)
  | k_openAborted id _, a_done None => Some (λ u, u |> afterStopped id |> open_done id)
  | k_receive id requester offset data _, a_done None => Some (receive_opened id requester offset data)
  | k_write id requester sink data, a_done r => Some (write_answered id requester sink data r)
  | k_receiveAborted id requester, a_done None =>
      Some (λ u, u |> afterStopped id |> refuse requester ITEM_NOT_SENDING)
  | k_finish id, a_finished r => Some (or_else (finish_failed id) (finished id) r)
  | k_placeReplace id target, a_placed r =>
      Some (or_else (place_failed id) (λ _, placeReplace_answered id target) r)
  | k_placeBoth id n parent name target temp, a_placed r =>
      Some (or_else (place_failed id) (placeBoth_answered id n parent name target temp) r)
  | k_placeNew id target _, a_placed r =>
      Some (or_else (place_failed id) (placeNew_answered id target) r)
  | k_afterStop id, a_done None => Some (afterStopped id)
  | k_failedAborted id temp, a_done None =>
      Some (λ u,
        match temp, u_items u !! id, u_backend u with
        | Some temp, Some it, Some _ => if i_direct it then u else ask_host (c_remove temp) u
        | _, _, _ => u
        end)
  | k_lookStat run id temp, a_stat r => Some (look_statted run id temp r)
  | k_lookTruncate run id temp, a_done r => Some (look_truncated run id temp r)
  | k_lookRemoved run id, a_done None => Some (λ u, u |> restartFile id |> look_worker run)
  | k_takeUp _ requester, a_done None => Some (takeUp_done requester)
  | k_retry requester again, a_reached connected =>
      Some (if connected then requeue_and_go again else refuse requester HOST_NOT_CONNECTED)
  | k_resume requester files, a_resumable problem =>
      Some (match problem with
            | Some reason => notResumed reason
            | None => λ u, if u_known u then takeUp requester files u else u
            end)
  | _, _ => None
  end.

Definition pending_at (u : Upload) (n : nat) : option Pending :=
  snd <$> find (λ p, bool_decide (p.1 = n)) (u_pending u).
Definition answered (n : nat) (a : Answer) (random : text) (u : Upload) : Upload :=
  match pending_at u n with
  | Some k =>
      match go_on k a random with
      | Some f => if enabled u k then f (u <{ u_pending ::= filter (λ p, p.1 ≠ n) }>) else u
      | None => u
      end
  | None => u
  end.

(** ** The steps of one upload, and of the service *)

Inductive Ev :=
| Resolve (w : World) (requester : TransferRequester) (scope : Scope) (action : TransferConflictAction)
| Retry (w : World) (requester : TransferRequester) (scope : Scope) (isConnected : bool)
| Cancel (w : World) (requester : TransferRequester) (scope : Scope)
| Resume (w : World) (requester : TransferRequester) (files : list TransferResumeFile)
| Discard (w : World) (requester : TransferRequester)
| Join (requester : TransferRequester) (hostId dir signature : text)
| Chunk (requester : TransferRequester) (id : nat) (offset : Z) (data : text)
| Gone (clientId : text)
| HostClosed | HostConnected | LinkLost | Expired | Forgotten
| FlushTimer | FlushSoon
(** its turn in a pump, with how many files each window is sending *)
| Pumped (w : World) (counts : jsmap text nat)
| HostAnswered (n : nat) (a : Answer) (random : text).

Definition step (u : Upload) (e : Ev) : Upload :=
  match e with
  | HostAnswered n a random => answered n a random u
  | LinkLost => u <{ u_backend ::= fmap (λ b, MkBackend (b_transport b) true) }>
  | _ =>
      if negb (u_known u) then u
      else
        match e with
        | Resolve w requester scope action => resolve w requester scope action u
        | Retry w requester scope isConnected => retry w requester scope isConnected u
        | Cancel w requester scope => cancel w requester scope u
        | Resume w requester files => controlled w requester true (await (k_resume requester files)) u
        | Discard w requester => controlled w requester false drop u
        | Join requester hostId folder signature =>
            if joinable hostId folder signature u then join requester u else u
        | Chunk requester id offset data => receive requester id offset data u
        | Gone clientId => clientGone clientId u
        | HostClosed => interruptOn u
        | HostConnected => resumeDropped u
        | Expired => if bool_decide (u_source u = None) && negb (isActive u) then drop u else u
        | Forgotten => if u_forgetTimer u
                       then u <{ u_known := false }> <{ u_unsaved := None }> <{ u_unsavedAcks := None }> else u
        | FlushTimer => if u_flushTimer u then flush (u <{ u_flushTimer := false }>) else u
        | FlushSoon => if u_flushSoon u
                       then flush (u <{ u_flushSoon := false }> <{ u_flushTimer := false }>) else u
        | Pumped w counts => (pump_upload w counts (u <{ u_pump := false }>)).2
        | HostAnswered _ _ _ | LinkLost => u
        end
  end.
End flow.
