(* ===== verification/TransferCounts.v ===== *)
(** * What the counts of an upload are, and the small changes its operations are made of

    Every operation of [TransferFlow] is a succession of small changes ([change]), as [TransferOps]
    shows. Here, what each change keeps: the tree, the counts of what it holds, and that the host is
    told to replace only what may be ([inv], [replaces_ok]). *)

From S2P Require Import Prelude JsMap Text HostPaths UploadTree TransferItems TransferFlow.
#[local] Open Scope lasterm_scope.

(** ** What the counts are to be *)

(** How many of [l] are [s], as a map of counts holds it: none is no entry. *)
Definition count_of (s : TransferItemState) (l : list TransferItemState) : option nat :=
  match length (filter (λ x, x = s) l) with 0 => None | S n => Some (S n) end.
Definition states_exact (m : jsmap TransferItemState nat) (l : list TransferItemState) : Prop :=
  ∀ s, m !! s = count_of s l.

Definition total (f : Item → Z) (l : list Item) : Z := foldr (λ it b, (f it + b)%Z) 0%Z l.
Record totals_exact (t : Totals) (l : list Item) : Prop := {
  te_files : t_files t = length l;
  te_bytes : t_bytes t = total i_size l;
  te_acked : t_acked t = total i_acked l;
  te_states : states_exact (t_states t) (i_state <$> l)
}.

Definition all_files (u : Upload) : list Item := filter (λ it, i_kind it = file) (u_items u).
Definition folders (u : Upload) : list Item := filter (λ it, i_kind it = dir) (u_items u).
(** The files anywhere under a folder. *)
Definition files_under (u : Upload) (f : nat) : list Item :=
  filter (λ it, i_kind it = file ∧ f ∈ foldersAbove u it) (u_items u).

Record counts_of_items (u : Upload) : Prop := {
  co_all : totals_exact (u_totals u) (all_files u);
  co_folders : states_exact (u_folderStates u) (i_state <$> folders u);
  co_folder f it : u_items u !! f = Some it → i_kind it = dir →
    ∃ t, u_folderTotals u !! f = Some t ∧ totals_exact t (files_under u f)
}.

(** Being anywhere under a folder. *)
Inductive inside (items : list Item) (f : nat) : nat → Prop :=
| in_folder i it : items !! i = Some it → i_parent it = Some f → inside items f i
| in_above i it p : items !! i = Some it → i_parent it = Some p → inside items f p → inside items f i.

(** The items are those of a tree: each at its id, in a folder nearer the top. *)
Record tree_ok (items : list Item) (rank : nat → nat) : Prop := {
  tk_id i it : items !! i = Some it → i_id it = i;
  tk_rank i : i < length items → rank i < length items;
  tk_parent i it p : items !! i = Some it → i_parent it = Some p →
    ∃ f, items !! p = Some f ∧ i_kind f = dir ∧ rank p < rank i;
  tk_children i it c : items !! i = Some it →
    c ∈ i_children it ↔ ∃ ch, items !! c = Some ch ∧ i_parent ch = Some i
}.

(** ** The small changes *)

(** What an item keeps when only what no count looks at changes. *)
Record item_kept (it' it : Item) : Prop := {
  ik_tree : i_tree it' = i_tree it;
  ik_state : i_state it' = i_state it;
  ik_acked : i_acked it' = i_acked it;
  ik_resolution : i_resolution it' = i_resolution it
}.
(** And what a resume goes by. *)
Record file_kept (it' it : Item) : Prop := {
  fk_item : item_kept it' it;
  fk_temp : i_temp it' = i_temp it;
  fk_whole : i_tempWhole it' = i_tempWhole it
}.
(** What waits to be written. *)
Definition unsaved_of (u : Upload) : list nat := default [] (u_unsaved u).
Definition acks_of (u : Upload) : list nat := default [] (u_unsavedAcks u).
(** The file a wait holds bytes for. *)
Definition chunk_of (k : Pending) : option nat :=
  match k with k_receive id _ _ _ _ | k_write id _ _ _ => Some id | _ => None end.
Record upload_kept (u' u : Upload) : Prop := {
  uk_items : u_items u' = u_items u;
  uk_totals : u_totals u' = u_totals u;
  uk_folderTotals : u_folderTotals u' = u_folderTotals u;
  uk_folderStates : u_folderStates u' = u_folderStates u;
  uk_onConflict : u_onConflict u' = u_onConflict u;
  uk_log : u_log u' = u_log u;
  uk_known : u_known u' = true → u_known u = true;
  uk_chunks p id : p ∈ u_pending u' → chunk_of p.2 = Some id →
    p ∈ u_pending u ∨ i_kind <$> u_items u !! id = Some file;
  uk_queue id : id ∈ u_queue u' → id ∈ u_queue u ∨ i_kind <$> u_items u !! id = Some file;
  uk_stored : u_stored u = true → u_stored u' = true;
  uk_waits : u_known u' = true → is_Some (u_unsaved u) → is_Some (u_unsaved u');
  uk_unsaved id : u_known u' = true → id ∈ unsaved_of u → id ∈ unsaved_of u';
  uk_acks id : u_known u' = true → id ∈ acks_of u → id ∈ acks_of u'
}.
Definition is_replace (o : Output) : option nat :=
  match o with to_host (c_place id _ _ true) => Some id | _ => None end.

(** [allowed] is the items a Replace was said for. *)
Inductive change (allowed : nat → Prop) : Upload → Upload → Prop :=
| ch_state id s u : change allowed u (setState id s u)
| ch_acked id d u :
    (∀ it, u_items u !! id = Some it → i_kind it = file ∨ d = (- i_acked it)%Z) →
    change allowed u (addAcked id d u)
| ch_resize id size mtime u :
    (∀ it, u_items u !! id = Some it → i_kind it = file) →
    change allowed u (persistItem id (resize id size mtime u))
| ch_item id f u : (∀ it, file_kept (f it) it) → change allowed u (on_item id f u)
| ch_saved id f u : (∀ it, item_kept (f it) it) → change allowed u (persistItem id (on_item id f u))
| ch_resolution id r u :
    (r = replace → allowed id) →
    change allowed u (on_item id (λ it, it <{ i_resolution := Some r }>) u)
| ch_out o u :
    (∀ id, is_replace o = Some id → resolution_of u id = Some replace) → change allowed u (emit o u)
| ch_kept u u' : upload_kept u' u → change allowed u u'
| ch_drop u : change allowed u (drop u).

(** By such changes, where the policy's Replace is allowed. *)
Definition evolves (allowed : nat → Prop) (u u' : Upload) : Prop :=
  (u_onConflict u = always replace → ∀ id, allowed id) → rtc (change allowed) u u'.
Definition op_ok (allowed : nat → Prop) (f : Upload → Upload) : Prop :=
  ∀ u v, evolves allowed u v → evolves allowed u (f v).

Create HintDb transfer discriminated.
#[export] Hint Constants Opaque : transfer.

(** ** What the changes keep of the tree, the policy and what is known *)

Lemma on_item_items id f u : u_items (on_item id f u) = alter f id (u_items u).
Proof. done. Qed.
Ltac kept :=
  split; try done; intros;
  first [by left | by eexists | match goal with H : _ ∈ u_queue _ |- _ => by inversion H end].
Lemma persistItem_kept id u : upload_kept (persistItem id u) u.
Proof.
  unfold persistItem. destruct (u_stored u); [|kept].
  split; try done; intros; first [by left | by eexists | apply elem_of_set_add; by right].
Qed.
Lemma persist_kept u : upload_kept (persist u) u.
Proof. unfold persist. destruct (u_stored u); kept. Qed.
Lemma persistAcked_kept id u : upload_kept (persistAcked id u) u.
Proof.
  unfold persistAcked. destruct (u_items u !! id); [|kept]. destruct (u_stored u); [|kept].
  destruct (_ || _); [apply persistItem_kept|]. 
  split; try done; intros; first [by left | by eexists | apply elem_of_set_add; by right].
Qed.
Lemma upload_kept_refl u : upload_kept u u.
Proof. kept. Qed.


(** What of an item never changes. *)
Definition shape (it : Item) : nat * text * text * TransferItemKind * option nat * list nat :=
  (i_id it, it_relPath (i_tree it), i_name it, i_kind it, i_parent it, i_children it).
Definition shapes (u : Upload) : list _ := shape <$> u_items u.

Lemma shapes_alter (f : Item → Item) (id : nat) (l : list Item) :
  (∀ it, shape (f it) = shape it) → shape <$> alter f id l = shape <$> l.
Proof.
  intros Hf. rewrite (list_fmap_alter shape f (λ x, x)); [by apply list_alter_id|].
  apply Forall_forall. auto.
Qed.
Lemma alter_none (f : Item → Item) (id : nat) (l : list Item) : l !! id = None → alter f id l = l.
Proof.
  intros Hl. transitivity (alter (λ x, x) id l); [|by apply list_alter_id].
  apply list_alter_ext; [|done]. by rewrite Hl.
Qed.

(** What the three counted changes leave alone. *)
Record counted_change (f : Item → Item) (id : nat) (u' u : Upload) : Prop := {
  cc_items : u_items u' = alter f id (u_items u);
  cc_onConflict : u_onConflict u' = u_onConflict u;
  cc_log : u_log u' = u_log u;
  cc_known : u_known u' = u_known u;
  cc_pending : u_pending u' = u_pending u;
  cc_queue : u_queue u' = u_queue u
}.
Lemma setState_change id s u : counted_change (λ it, it <{ i_state := s }>) id (setState id s u) u.
Proof.
  unfold setState. destruct (u_items u !! id) as [it|] eqn:Hit; [|split; by rewrite ?alter_none].
  unfold persistItem. simpl. destruct (u_stored u), (decide _), (i_kind it); by split.
Qed.
Lemma addAcked_change id d u :
  counted_change (λ it, it <{ i_acked ::= λ a, (a + d)%Z }>) id (addAcked id d u) u.
Proof.
  unfold addAcked. destruct (u_items u !! id) as [it|] eqn:Hit; [|split; by rewrite ?alter_none].
  destruct (decide (d = 0%Z)) as [->|Hd].
  - split; try done. symmetry. apply list_alter_id. intros []. unfold set_field, set_i_acked. cbn. by rewrite Z.add_0_r.
  - unfold persistAcked, persistItem. simpl. repeat case_match; by split.
Qed.
Lemma resize_change id size mtime u :
  counted_change (λ it, it <{ i_tree ::= λ t, MkItem (it_id t) (it_relPath t) (it_name t) (it_kind t)
    size mtime (it_parent t) (it_children t) }>) id (resize id size mtime u) u.
Proof.
  unfold resize. destruct (u_items u !! id) as [it|] eqn:Hit; [|split; by rewrite ?alter_none].
  destruct (decide _); by split.
Qed.
Lemma counted_shapes f id u' u :
  counted_change f id u' u → (∀ it, shape (f it) = shape it) → shapes u' = shapes u.
Proof. intros [Hi _ _ _ _ _] Hf. unfold shapes. rewrite Hi. by apply shapes_alter. Qed.

Lemma drop_item_shapes id u : shapes (drop_item id u) = shapes u.
Proof.
  unfold drop_item. destruct (u_items u !! id) as [it|]; [|done].
  destruct (i_writing it), (i_sink it); by apply shapes_alter.
Qed.
Lemma for_each_ind {A} (g : Upload → A) f ids u :
  (∀ id u, g (f id u) = g u) → g (for_each f ids u) = g u.
Proof.
  intros Hf. unfold for_each. revert u. induction ids as [|id ids IH]; intros u; [done|].
  simpl. by rewrite IH, Hf.
Qed.
Lemma drop_keeps {A} (g : Upload → A) u :
  (∀ id u, g (drop_item id u) = g u) → (∀ u, g (forget u) = g u) →
  (∀ u, g (u <{ u_backend := None }>) = g u) →
  (∀ o u, is_replace o = None → g (emit o u) = g u) → g (drop u) = g u.
Proof.
  intros Hi Hf Hb Ho. unfold drop. rewrite Ho by done. unfold releaseBackend, ask_host.
  case_match; rewrite ?Hb, ?Ho, Hf by done; by apply for_each_ind.
Qed.
Lemma drop_shapes u : shapes (drop u) = shapes u.
Proof. by apply drop_keeps; [apply drop_item_shapes|..]. Qed.
Lemma drop_policy u : u_onConflict (drop u) = u_onConflict u.
Proof.
  apply drop_keeps; [|done..]. intros id v. unfold drop_item. destruct (u_items v !! id) as [it|]; [|done].
  by destruct (i_writing it), (i_sink it).
Qed.

Lemma item_kept_shape f it : (∀ it, item_kept (f it) it) → shape (f it) = shape it.
Proof. intros Hf. unfold shape, i_id, i_name, i_kind, i_parent, i_children. by rewrite (ik_tree _ _ (Hf it)). Qed.
Lemma file_item f : (∀ it, file_kept (f it) it) → ∀ it, item_kept (f it) it.
Proof. intros Hf it. apply Hf. Qed.
Lemma kept_shapes u' u : upload_kept u' u → shapes u' = shapes u.
Proof. intros Hk. unfold shapes. by rewrite (uk_items _ _ Hk). Qed.
Lemma change_shapes allowed u u' : change allowed u u' → shapes u' = shapes u.
Proof.
  destruct 1 as [id s u|id d u _|id size mtime u _|id f u Hf|id f u Hf|id r u _|o u _|u u' Hk|u].
  - by eapply counted_shapes; [apply setState_change|].
  - by eapply counted_shapes; [apply addAcked_change|].
  - rewrite (kept_shapes _ _ (persistItem_kept id _)). by eapply counted_shapes; [apply resize_change|].
  - apply shapes_alter. intros it. apply item_kept_shape. by apply file_item.
  - rewrite (kept_shapes _ _ (persistItem_kept id _)). apply shapes_alter. intros it. by apply item_kept_shape.
  - by apply shapes_alter.
  - done.
  - by apply kept_shapes.
  - apply drop_shapes.
Qed.
Lemma change_policy allowed u u' : change allowed u u' → u_onConflict u' = u_onConflict u.
Proof.
  destruct 1 as [id s u|id d u _|id size mtime u _|id f u Hf|id f u Hf|id r u _|o u _|u u' Hk|u]; try done.
  - apply (cc_onConflict _ _ _ _ (setState_change id s u)).
  - apply (cc_onConflict _ _ _ _ (addAcked_change id d u)).
  - rewrite (uk_onConflict _ _ (persistItem_kept id _)). apply (cc_onConflict _ _ _ _ (resize_change id size mtime u)).
  - by rewrite (uk_onConflict _ _ (persistItem_kept id _)).
  - apply (uk_onConflict _ _ Hk).
  - apply drop_policy.
Qed.
Lemma changes_shapes allowed u u' : rtc (change allowed) u u' → shapes u' = shapes u.
Proof. induction 1 as [|u v w H _ IH]; [done|]. by rewrite IH, (change_shapes _ _ _ H). Qed.
Lemma changes_policy allowed u u' : rtc (change allowed) u u' → u_onConflict u' = u_onConflict u.
Proof. induction 1 as [|u v w H _ IH]; [done|]. by rewrite IH, (change_policy _ _ _ H). Qed.

(** What shapes determine. *)
Lemma shapes_lookup u' u id :
  shapes u' = shapes u → shape <$> u_items u' !! id = shape <$> u_items u !! id.
Proof. intros H. unfold shapes in H. by rewrite <- !list_lookup_fmap, H. Qed.
Lemma shapes_kind u' u id :
  shapes u' = shapes u → i_kind <$> u_items u' !! id = i_kind <$> u_items u !! id.
Proof.
  intros H%(shapes_lookup _ _ id). destruct (u_items u' !! id), (u_items u !! id); simplify_eq/=; [|done].
  unfold shape in H. f_equal. congruence.
Qed.
Lemma shapes_parent u' u id :
  shapes u' = shapes u → u_items u' !! id ≫= i_parent = u_items u !! id ≫= i_parent.
Proof.
  intros H%(shapes_lookup _ _ id). destruct (u_items u' !! id), (u_items u !! id); simplify_eq/=; [|done].
  unfold shape in H. congruence.
Qed.
Lemma shapes_length u' u : shapes u' = shapes u → length (u_items u') = length (u_items u).
Proof. intros H. unfold shapes in H. by rewrite <- (length_fmap shape), H, length_fmap. Qed.
Lemma folders_up_ext l l' n o :
  (∀ p, l !! p ≫= i_parent = l' !! p ≫= i_parent) → folders_up l n o = folders_up l' n o.
Proof.
  intros H. revert o. induction n as [|n IH]; intros [p|]; simpl; [done..| |done]. by rewrite H, IH.
Qed.
Lemma foldersAbove_ext u' u it' it :
  shapes u' = shapes u → i_parent it' = i_parent it → foldersAbove u' it' = foldersAbove u it.
Proof.
  intros H Hp. unfold foldersAbove. rewrite (shapes_length _ _ H), Hp. apply folders_up_ext.
  intros p. by apply shapes_parent.
Qed.
Lemma tree_ok_shapes u' u rank : shapes u' = shapes u → tree_ok (u_items u) rank → tree_ok (u_items u') rank.
Proof.
  intros H [Hid Hrank Hpar Hch]. split.
  - intros i it' Hit. pose proof (shapes_lookup _ _ i H) as Hs. rewrite Hit in Hs.
    destruct (u_items u !! i) as [it|] eqn:Hi; simplify_eq/=. unfold shape in Hs.
    rewrite <- (Hid i it Hi). congruence.
  - intros i. rewrite (shapes_length _ _ H). apply Hrank.
  - intros i it' p Hit Hp. pose proof (shapes_lookup _ _ i H) as Hs. rewrite Hit in Hs.
    destruct (u_items u !! i) as [it|] eqn:Hi; simplify_eq/=.
    destruct (Hpar i it p Hi) as (f & Hf & Hk & Hr); [unfold shape in Hs; congruence|].
    pose proof (shapes_kind _ _ p H) as Hpk. rewrite Hf in Hpk.
    destruct (u_items u' !! p) as [f'|]; simplify_eq/=. exists f'. split_and!; [done|congruence|done].
  - intros i it' c Hit. pose proof (shapes_lookup _ _ i H) as Hs. rewrite Hit in Hs.
    destruct (u_items u !! i) as [it|] eqn:Hi; simplify_eq/=.
    assert (i_children it' = i_children it) as -> by (unfold shape in Hs; congruence).
    rewrite (Hch i it c Hi). pose proof (shapes_lookup _ _ c H) as Hs'.
    split; intros (ch & Hlook & Hp); rewrite Hlook in Hs';
      [destruct (u_items u' !! c) as [ch'|]|destruct (u_items u !! c) as [ch'|]]; simplify_eq/=;
      exists ch'; (split; [done|]); unfold shape in Hs'; congruence.
Qed.

(** ** Counting lists *)

Lemma total_app f l1 l2 : total f (l1 ++ l2) = (total f l1 + total f l2)%Z.
Proof. induction l1 as [|it l1 IH]; simpl; [done|]. rewrite IH. lia. Qed.

Definition occurrences (s : TransferItemState) (l : list TransferItemState) : nat :=
  length (filter (λ x, x = s) l).
Lemma occurrences_app s l1 l2 : occurrences s (l1 ++ l2) = occurrences s l1 + occurrences s l2.
Proof. unfold occurrences. by rewrite filter_app, length_app. Qed.
Lemma occurrences_cons s x l :
  occurrences s (x :: l) = (if decide (x = s) then 1 else 0) + occurrences s l.
Proof. unfold occurrences. rewrite filter_cons. by case_decide. Qed.
Lemma count_of_occurrences s l :
  count_of s l = match occurrences s l with 0 => None | S n => Some (S n) end.
Proof. done. Qed.
Lemma occurrences_none s l : occurrences s l = 0 ↔ s ∉ l.
Proof.
  induction l as [|x l IH]; [by split; [intros _; apply not_elem_of_nil|]|].
  rewrite occurrences_cons, not_elem_of_cons, <- IH. case_decide; naive_solver lia.
Qed.
Lemma default_count s l : default 0 (count_of s l) = occurrences s l.
Proof. rewrite count_of_occurrences. by destruct (occurrences s l). Qed.

Lemma recount_exact m l1 l2 b s :
  b ≠ s → states_exact m (l1 ++ b :: l2) → states_exact (recount b s m) (l1 ++ s :: l2).
Proof.
  intros Hne Hm x. unfold recount.
  assert (∀ y, count_of y (l1 ++ b :: l2) =
    match (if decide (b = y) then 1 else 0) + (occurrences y l1 + occurrences y l2) with
    | 0 => None | S n => Some (S n) end) as Hc.
  { intros y. rewrite count_of_occurrences, occurrences_app, occurrences_cons.
    by replace (occurrences y l1 + _) with
      ((if decide (b = y) then 1 else 0) + (occurrences y l1 + occurrences y l2)) by lia. }
  set (n := λ y, occurrences y l1 + occurrences y l2).
  assert (m !! b = Some (S (n b))) as Hb.
  { rewrite (Hm b), Hc. by case_decide. }
  assert (count_of x (l1 ++ s :: l2) =
    match (if decide (s = x) then 1 else 0) + n x with 0 => None | S k => Some (S k) end) as ->.
  { rewrite count_of_occurrences, occurrences_app, occurrences_cons.
    by replace (occurrences x l1 + _) with ((if decide (s = x) then 1 else 0) + n x) by (unfold n; lia). }
  rewrite Hb. simpl. replace (n b - 0) with (n b) by lia.
  assert (∀ y, (if decide (0 < n b) then <[b := n b]> m else delete b m) !! y =
    match n y with 0 => None | S k => Some (S k) end) as Hleft.
  { intros y. case_decide as Hpos; autorewrite with jsmap; case_decide as Hy; try subst y.
    - destruct (n b); [lia|done].
    - rewrite (Hm y), Hc, decide_False by done. done.
    - destruct (n b); [done|lia].
    - rewrite (Hm y), Hc, decide_False by done. done. }
  autorewrite with jsmap. rewrite !Hleft. destruct (decide (s = x)) as [<-|Hx]; [|done].
  destruct (n s); simpl; f_equal; lia.
Qed.

(** Changing one element of a list, seen through a filter that does not look at the change. *)
Lemma filter_alter_in (P : Item → Prop) `{∀ x, Decision (P x)} h (id : nat) (l : list Item) it :
  l !! id = Some it → (P (h it) ↔ P it) → P it →
  ∃ l1 l2, filter P l = l1 ++ it :: l2 ∧ filter P (alter h id l) = l1 ++ h it :: l2.
Proof.
  intros Hl Hh HP. apply list_elem_of_split_length in Hl as (k1 & k2 & -> & ->).
  exists (filter P k1), (filter P k2). rewrite alter_app_r_alt, Nat.sub_diag by lia.
  cbn [alter list_alter]. rewrite !filter_app, !filter_cons_True by tauto. done.
Qed.
Lemma filter_alter_out (P : Item → Prop) `{∀ x, Decision (P x)} h (id : nat) (l : list Item) it :
  l !! id = Some it → (P (h it) ↔ P it) → ¬ P it → filter P (alter h id l) = filter P l.
Proof.
  intros Hl Hh HP. apply list_elem_of_split_length in Hl as (k1 & k2 & -> & ->).
  rewrite alter_app_r_alt, Nat.sub_diag by lia.
  cbn [alter list_alter]. rewrite !filter_app, !filter_cons_False by tauto. done.
Qed.

Lemma fold_alter_lookup (f : Totals → Totals) ps (m : jsmap nat Totals) k :
  NoDup ps →
  fold_left (λ m p, js_alter f p m) ps m !! k = if decide (k ∈ ps) then f <$> m !! k else m !! k.
Proof.
  intros Hnd. revert m. induction Hnd as [|p ps Hp Hnd IH]; intros m; cbn [fold_left].
  { destruct (decide (k ∈ [])) as [Hk|]; [by apply not_elem_of_nil in Hk|done]. }
  rewrite IH, js_lookup_alter. destruct (decide (k ∈ ps)) as [Hk|Hk].
  - rewrite (decide_False (P := p = k)) by (intros ->; done). by rewrite decide_True by (by right).
  - destruct (decide (p = k)) as [->|Hne]; [by rewrite decide_True by (by left)|].
    rewrite decide_False; [done|]. rewrite elem_of_cons. intros [->|?]; done.
Qed.

Section trees.
Context (items : list Item) (rank : nat → nat) (Hok : tree_ok items rank).

Lemma folders_up_rank n o f :
  f ∈ folders_up items n o → ∃ p, o = Some p ∧ (f = p ∨ is_Some (items !! p) ∧ rank f < rank p).
Proof.
  revert o. induction n as [|n IH]; intros [p|]; simpl; rewrite ?elem_of_nil; try done.
  intros [->|Hf]%elem_of_cons; [by eauto|]. exists p. split; [done|right].
  destruct (IH _ Hf) as (q & Hq & Hr). destruct (items !! p) as [it|] eqn:Hp; [|done]. simpl in Hq.
  destruct (tk_parent _ _ Hok p it q Hp Hq) as (g & Hg & _ & Hlt). split; [done|].
  destruct Hr as [->|[_ Hr]]; lia.
Qed.
Lemma folders_up_NoDup n o : NoDup (folders_up items n o).
Proof.
  revert o. induction n as [|n IH]; intros [p|]; simpl; [constructor..| |constructor].
  constructor; [|apply IH]. intros Hin. destruct (folders_up_rank n _ p Hin) as (q & Hq & Hr).
  destruct (items !! p) as [it|] eqn:Hp; [|done]. simpl in Hq.
  destruct (tk_parent _ _ Hok p it q Hp Hq) as (g & Hg & _ & Hlt). destruct Hr as [->|[_ Hr]]; lia.
Qed.

(** The fuel is enough: a folder's rank is how many more there may be. *)
Lemma folders_up_inside n o f :
  (∀ p, o = Some p → rank p < n) →
  f ∈ folders_up items n o ↔ ∃ p, o = Some p ∧ (f = p ∨ inside items f p).
Proof.
  revert o. induction n as [|n IH]; intros [p|] Hn; simpl.
  - specialize (Hn p eq_refl). lia.
  - rewrite elem_of_nil. naive_solver.
  - specialize (Hn p eq_refl). rewrite elem_of_cons, IH.
    + split.
      * intros [->|(q & Hq & Hf)]; [by eauto|]. destruct (items !! p) as [it|] eqn:Hp; [|done].
        exists p. split; [done|right]. destruct Hf as [->|Hf]; [by eapply in_folder|by eapply in_above].
      * intros (q & [= <-] & [->|Hf]); [by left|right].
        destruct Hf as [i it Hi Hpar|i it q Hi Hpar Hf]; rewrite Hi; simpl; eauto.
    + intros q Hq. destruct (items !! p) as [it|] eqn:Hp; [|done].
      destruct (tk_parent _ _ Hok p it q Hp Hq) as (_ & _ & _ & ?). lia.
  - rewrite elem_of_nil. naive_solver.
Qed.

Lemma inside_down f i it :
  items !! f = Some it → inside items f i ↔ ∃ c, c ∈ i_children it ∧ (i = c ∨ inside items c i).
Proof.
  intros Hf. setoid_rewrite (λ c, tk_children _ _ Hok f it c Hf). split.
  - induction 1 as [i x Hi Hp|i x p Hi Hp _ IH]; [by eauto 10|].
    destruct IH as (c & Hc & [->|Hin]); exists c; (split; [done|right]); [by eapply in_folder|by eapply in_above].
  - intros (c & (ch & Hc & Hp) & [->|Hin]); [by eapply in_folder|].
    induction Hin as [i x Hi Hpar|i x p Hi Hpar _ IH]; [|by eapply in_above].
    eapply in_above; [done..|]. by eapply in_folder.
Qed.
Lemma child_rank f it c :
  items !! f = Some it → c ∈ i_children it → is_Some (items !! c) ∧ rank f < rank c < length items.
Proof.
  intros Hf (ch & Hc & Hp)%(tk_children _ _ Hok f it c Hf). split; [done|].
  destruct (tk_parent _ _ Hok c ch f Hc Hp) as (_ & _ & _ & ?).
  split; [done|]. apply (tk_rank _ _ Hok). by eapply lookup_lt_Some.
Qed.
(** The items of a scope, with fuel for as many levels as ranks are left. *)
Lemma walk_inside fuel f i :
  is_Some (items !! f) → length items - rank f <= fuel → i ∈ walk items fuel f ↔ i = f ∨ inside items f i.
Proof.
  revert f. induction fuel as [|fuel IH]; intros f [it Hf] Hfuel.
  { pose proof (tk_rank _ _ Hok f (lookup_lt_Some _ _ _ Hf)). lia. }
  cbn [walk]. rewrite Hf, elem_of_cons, (inside_down f i it Hf), list_elem_of_bind.
  apply or_iff_compat_l. split.
  - intros (c & Hi & Hc). destruct (child_rank f it c Hf Hc) as [Hs Hr]. exists c. split; [done|].
    apply IH; [done|lia|done].
  - intros (c & Hc & Hi). destruct (child_rank f it c Hf Hc) as [Hs Hr]. exists c. split; [|done].
    apply IH; [done|lia|done].
Qed.
End trees.

(** ** The counts after each change *)

Definition exact_step (ft : Totals → Totals) (it it' : Item) : Prop :=
  ∀ t l1 l2, totals_exact t (l1 ++ it :: l2) → totals_exact (ft t) (l1 ++ it' :: l2).

Lemma exact_state s it : i_state it ≠ s →
  exact_step (λ t, t <{ t_states ::= recount (i_state it) s }>) it (it <{ i_state := s }>).
Proof.
  intros Hne t l1 l2 [Hf Hb Ha Hs]. rewrite !total_app in *. rewrite length_app in *. split; simpl in *.
  - by rewrite length_app.
  - by rewrite total_app.
  - by rewrite total_app.
  - rewrite fmap_app in *. simpl in *. by apply recount_exact.
Qed.
Lemma exact_acked d it :
  exact_step (λ t, t <{ t_acked ::= λ a, (a + d)%Z }>) it (it <{ i_acked ::= λ a, (a + d)%Z }>).
Proof.
  intros t l1 l2 [Hf Hb Ha Hs]. rewrite !total_app in *. rewrite length_app in *. split; simpl in *.
  - by rewrite length_app.
  - by rewrite total_app.
  - rewrite total_app. simpl. lia.
  - by rewrite fmap_app in *.
Qed.
Lemma exact_size size mtime it :
  exact_step (λ t, t <{ t_bytes ::= λ b, (b + (size - i_size it))%Z }>) it
    (it <{ i_tree ::= λ t, MkItem (it_id t) (it_relPath t) (it_name t) (it_kind t)
      size mtime (it_parent t) (it_children t) }>).
Proof.
  intros t l1 l2 [Hf Hb Ha Hs]. rewrite !total_app in *. rewrite length_app in *. split; simpl in *.
  - by rewrite length_app.
  - rewrite total_app. simpl. unfold i_size in *. simpl. lia.
  - by rewrite total_app.
  - by rewrite fmap_app in *.
Qed.

(** A file changed, and every total above it with it. *)
Lemma counts_file_change u u' rank id it h ft :
  tree_ok (u_items u) rank → counts_of_items u → u_items u !! id = Some it → i_kind it = file →
  (∀ it, shape (h it) = shape it) → exact_step ft it (h it) →
  u_items u' = alter h id (u_items u) → u_totals u' = ft (u_totals u) →
  (∀ f, u_folderTotals u' !! f =
     if decide (f ∈ foldersAbove u it) then ft <$> u_folderTotals u !! f else u_folderTotals u !! f) →
  u_folderStates u' = u_folderStates u → counts_of_items u'.
Proof.
  intros Hok [Hall Hdirs Hdir] Hit Hk Hsh Hft Hi Ht Hm Hs.
  assert (shapes u' = shapes u) as Hshapes by (unfold shapes; rewrite Hi; by apply shapes_alter).
  assert (∀ x, i_kind (h x) = i_kind x) as Hkind by (intros x; specialize (Hsh x); unfold shape in Hsh; congruence).
  assert (∀ x, i_parent (h x) = i_parent x) as Hpar by (intros x; specialize (Hsh x); unfold shape in Hsh; congruence).
  split.
  - rewrite Ht. unfold all_files. rewrite Hi.
    destruct (filter_alter_in (λ it, i_kind it = file) h id (u_items u) it) as (l1 & l2 & H1 & H2);
      [done|by rewrite Hkind|done|].
    rewrite H2. apply Hft. by rewrite <- H1.
  - unfold folders in *. rewrite Hs, Hi, (filter_alter_out _ h id _ it); [done|done|by rewrite Hkind|by rewrite Hk].
  - intros f d Hf Hkd. assert (∃ d0, u_items u !! f = Some d0 ∧ i_kind d0 = dir) as (d0 & Hd0 & Hkd0).
    { pose proof (shapes_kind _ _ f Hshapes) as H. rewrite Hf in H.
      destruct (u_items u !! f) as [d0|]; simplify_eq/=. exists d0. split; [done|congruence]. }
    destruct (Hdir f d0 Hd0 Hkd0) as (t & Hlook & Hexact).
    assert (files_under u' f = filter (λ x, i_kind x = file ∧ f ∈ foldersAbove u x) (alter h id (u_items u)))
      as Hunder.
    { unfold files_under. rewrite Hi. apply list_filter_iff. intros x.
      by rewrite (foldersAbove_ext u' u x x Hshapes eq_refl). }
    assert (∀ P : Prop, (i_kind (h it) = file ∧ f ∈ foldersAbove u (h it)) ↔
      (i_kind it = file ∧ f ∈ foldersAbove u it)) as Hsame.
    { intros _. by rewrite Hkind, (foldersAbove_ext u u (h it) it eq_refl (Hpar it)). }
    rewrite Hm, Hlook, Hunder.
    case_decide as Hin; simpl; eexists; (split; [done|]).
    + destruct (filter_alter_in (λ x, i_kind x = file ∧ f ∈ foldersAbove u x) h id (u_items u) it)
        as (l1 & l2 & H1 & H2); [done|by apply (Hsame True)|done|].
      rewrite H2. apply Hft. by rewrite <- H1.
    + rewrite (filter_alter_out _ h id _ it); [done|done|by apply (Hsame True)|tauto].
Qed.

Lemma fold_above u v rank it ft (m : jsmap nat Totals) f :
  tree_ok (u_items u) rank → shapes v = shapes u →
  fold_left (λ m p, js_alter ft p m) (foldersAbove v it) m !! f =
  if decide (f ∈ foldersAbove u it) then ft <$> m !! f else m !! f.
Proof.
  intros Hok Hs. rewrite (foldersAbove_ext v u it it Hs eq_refl).
  apply fold_alter_lookup, (folders_up_NoDup _ _ Hok).
Qed.
Lemma counts_kept u u' :
  u_items u' = u_items u → u_totals u' = u_totals u → u_folderTotals u' = u_folderTotals u →
  u_folderStates u' = u_folderStates u → counts_of_items u → counts_of_items u'.
Proof.
  intros Hi Ht Hf Hs [Ha Hfo Hd]. split; unfold all_files, folders, files_under, foldersAbove in *;
    rewrite ?Hi, ?Ht, ?Hs; [done..|]. intros f d. rewrite Hf. apply Hd.
Qed.
Lemma counts_folder_change u u' id it h :
  counts_of_items u → u_items u !! id = Some it → i_kind it = dir →
  (∀ it, shape (h it) = shape it) →
  (∀ l1 l2, states_exact (u_folderStates u) (l1 ++ i_state it :: l2) →
     states_exact (u_folderStates u') (l1 ++ i_state (h it) :: l2)) →
  u_items u' = alter h id (u_items u) → u_totals u' = u_totals u →
  u_folderTotals u' = u_folderTotals u → counts_of_items u'.
Proof.
  intros [Ha Hf Hd] Hit Hk Hshape Hfs Hi Ht Hft.
  assert (shapes u' = shapes u) as Hsh by (unfold shapes; rewrite Hi; by apply shapes_alter).
  assert (∀ x, i_kind (h x) = i_kind x) as Hkind.
  { intros x. specialize (Hshape x). unfold shape in Hshape. congruence. }
  split; unfold all_files, folders in *.
  - rewrite Hi, (filter_alter_out _ _ id _ it), Ht; [done|done|by rewrite Hkind|by rewrite Hk].
  - rewrite Hi. destruct (filter_alter_in (λ it, i_kind it = dir) h id (u_items u) it)
      as (l1 & l2 & H1 & H2); [done|by rewrite Hkind|done|].
    rewrite H2, fmap_app. simpl. apply Hfs. rewrite H1, fmap_app in Hf. exact Hf.
  - intros f d Hlook Hkd. rewrite Hft.
    pose proof (shapes_kind _ _ f Hsh) as Hkf. rewrite Hlook in Hkf.
    destruct (u_items u !! f) as [d0|] eqn:Hd0; simplify_eq/=.
    destruct (Hd f d0 Hd0 ltac:(congruence)) as (t & Hl & Hex). exists t. split; [done|].
    replace (files_under u' f) with (files_under u f); [done|]. unfold files_under at 2. rewrite Hi.
    assert (∀ x, foldersAbove u' x = foldersAbove u x) as Habove
      by (intros x; by apply foldersAbove_ext).
    rewrite (list_filter_iff _ (λ x, i_kind x = file ∧ f ∈ foldersAbove u x))
      by (intros x; by rewrite Habove).
    rewrite (filter_alter_out _ _ id _ it Hit); [done| |by rewrite Hk; intros []].
    rewrite Hkind, Hk. by split; intros [].
Qed.
Lemma counts_item_kept u rank id f :
  tree_ok (u_items u) rank →
  (∀ it, i_tree (f it) = i_tree it ∧ i_state (f it) = i_state it ∧ i_acked (f it) = i_acked it) →
  counts_of_items u → counts_of_items (on_item id f u).
Proof.
  intros Hok Hf Hc.
  assert (∀ it, shape (f it) = shape it) as Hshape.
  { intros it. unfold shape, i_id, i_name, i_kind, i_parent, i_children. by rewrite (proj1 (Hf it)). }
  destruct (u_items u !! id) as [it|] eqn:Hit.
  2: { apply (counts_kept u); [|done..]. by apply alter_none. }
  destruct (Hf it) as (E1 & E2 & E3), (i_kind it) eqn:Hk.
  - eapply (counts_file_change u _ rank id it f (λ t, t) Hok Hc Hit Hk Hshape); [|done|done| |done].
    + intros t l1 l2 [H3 H4 H5 H6]. rewrite length_app, !total_app, fmap_app in *.
      split; rewrite ?length_app, ?total_app, ?fmap_app; simpl in *; unfold i_size in *;
        by rewrite ?E1, ?E2, ?E3.
    + intros g. case_decide; [|done]. symmetry. apply option_fmap_id.
  - eapply (counts_folder_change u _ id it f Hc Hit Hk Hshape); [|done..]. by rewrite E2.
Qed.

Lemma counts_setState u rank id s :
  tree_ok (u_items u) rank → counts_of_items u → counts_of_items (setState id s u).
Proof.
  intros Hok Hc. pose proof (cc_items _ _ _ _ (setState_change id s u)) as Hi.
  destruct (u_items u !! id) as [it|] eqn:Hit; [|by unfold setState; rewrite Hit].
  destruct (decide (i_state it = s)) as [Heq|Hne].
  - eapply (counts_kept u); [|unfold setState; rewrite Hit, decide_True by done;
      unfold persistItem; simpl; by destruct (u_stored u)..|exact Hc].
    rewrite Hi. transitivity (alter (λ x, x) id (u_items u)); [|by apply list_alter_id].
    apply list_alter_ext; [|done]. intros x Hx. rewrite Hit in Hx. simplify_eq. by destruct x.
  - destruct (i_kind it) eqn:Hk.
    + eapply (counts_file_change u _ rank id it (λ it, it <{ i_state := s }>)
        (λ t, t <{ t_states ::= recount (i_state it) s }>) Hok Hc Hit Hk); [done|by apply exact_state|exact Hi|..];
        unfold setState; rewrite Hit, decide_False, Hk by done;
        unfold persistItem; simpl; destruct (u_stored u); try done;
        intros f; (apply (fold_above u _ rank); [done|by apply shapes_alter]).
    + eapply (counts_folder_change u _ id it (λ it, it <{ i_state := s }>) Hc Hit Hk); [done| |exact Hi|..];
        unfold setState; rewrite Hit, decide_False, Hk by done;
        unfold persistItem; simpl; destruct (u_stored u); try done;
        intros l1 l2; by apply recount_exact.
Qed.
Lemma counts_addAcked u rank id d :
  tree_ok (u_items u) rank → counts_of_items u →
  (∀ it, u_items u !! id = Some it → i_kind it = file ∨ d = 0%Z) → counts_of_items (addAcked id d u).
Proof.
  intros Hok Hc Hd. pose proof (cc_items _ _ _ _ (addAcked_change id d u)) as Hi.
  destruct (u_items u !! id) as [it|] eqn:Hit; [|by unfold addAcked; rewrite Hit].
  destruct (decide (d = 0%Z)) as [->|Hne]; [by unfold addAcked; rewrite Hit, decide_True|].
  destruct (Hd it eq_refl) as [Hk|]; [|done].
  eapply (counts_file_change u _ rank id it (λ it, it <{ i_acked ::= λ a, (a + d)%Z }>)
    (λ t, t <{ t_acked ::= λ a, (a + d)%Z }>) Hok Hc Hit Hk);
    [done|by apply exact_acked|exact Hi|..];
    unfold addAcked; rewrite Hit, decide_False by done;
    match goal with |- context [persistAcked id ?v] => destruct (persistAcked_kept id v) as [_ H1 H2 H3] end;
    [rewrite H1|rewrite H2; intros f; apply (fold_above u _ rank); [done|by apply shapes_alter]|rewrite H3]; done.
Qed.
Lemma counts_resize u rank id size mtime :
  tree_ok (u_items u) rank → counts_of_items u →
  (∀ it, u_items u !! id = Some it → i_kind it = file) → counts_of_items (resize id size mtime u).
Proof.
  intros Hok Hc Hd. pose proof (cc_items _ _ _ _ (resize_change id size mtime u)) as Hi.
  destruct (u_items u !! id) as [it|] eqn:Hit; [|by unfold resize; rewrite Hit].
  destruct (decide (size - i_size it = 0)%Z) as [H0|H0].
  - eapply (counts_file_change u _ rank id it _ (λ t, t) Hok Hc Hit (Hd it eq_refl)); [| |exact Hi|..];
      [done| |unfold resize; rewrite Hit, decide_True by done; try done..].
    + intros t l1 l2 Hex%(exact_size size mtime it). destruct t. unfold set_field, set_t_bytes in Hex. cbn in Hex. by rewrite H0, Z.add_0_r in Hex.
    + intros f. case_decide; [|done]. symmetry. apply option_fmap_id.
  - eapply (counts_file_change u _ rank id it _ (λ t, t <{ t_bytes ::= λ b, (b + (size - i_size it))%Z }>)
      Hok Hc Hit (Hd it eq_refl)); [|apply (exact_size size mtime it)|exact Hi|..];
      [done|unfold resize; rewrite Hit, decide_False by done; try done..].
    intros f; apply (fold_above u _ rank); [done|by apply shapes_alter].
Qed.

(** ** What every change keeps *)

Record inv (rank : nat → nat) (u : Upload) : Prop := {
  inv_tree : tree_ok (u_items u) rank;
  inv_counts : u_known u = true → counts_of_items u;
  inv_folders id it : u_items u !! id = Some it → i_kind it = dir → i_acked it = 0%Z;
  inv_chunks p id : p ∈ u_pending u → chunk_of p.2 = Some id → i_kind <$> u_items u !! id = Some file;
  inv_queue id : id ∈ u_queue u → i_kind <$> u_items u !! id = Some file
}.

Lemma inv_alter rank u u' id f :
  inv rank u → u_items u' = alter f id (u_items u) → (∀ it, shape (f it) = shape it) →
  (∀ it, u_items u !! id = Some it → i_kind it = dir → i_acked it = 0%Z → i_acked (f it) = 0%Z) →
  (counts_of_items u → counts_of_items u') →
  (∀ p i, p ∈ u_pending u' → chunk_of p.2 = Some i →
    p ∈ u_pending u ∨ i_kind <$> u_items u !! i = Some file) →
  u_queue u' = u_queue u → (u_known u' = true → u_known u = true) → inv rank u'.
Proof.
  intros [Htree Hcounts Hfold Hchunks Hqueue] Hi Hsh Hac Hc Hp Hq Hknown.
  assert (shapes u' = shapes u) as Hs by (unfold shapes; rewrite Hi; by apply shapes_alter).
  split.
  - by eapply tree_ok_shapes.
  - intros Hk. by apply Hc, Hcounts, Hknown.
  - intros i it. rewrite Hi, list_lookup_alter. case_decide as Hid; [subst i|apply Hfold].
    destruct (u_items u !! id) as [it0|] eqn:H0; [|done]. intros [= <-] Hk.
    specialize (Hsh it0). apply (Hac it0 eq_refl); [|apply (Hfold id it0 H0)]; unfold shape in Hsh; congruence.
  - intros p i Hin Hch. rewrite (shapes_kind _ _ i Hs). destruct (Hp p i Hin Hch) as [?|?]; [|done].
    by eapply Hchunks.
  - intros i. rewrite Hq, (shapes_kind _ _ i Hs). apply Hqueue.
Qed.

Lemma drop_inv rank u : inv rank u → inv rank (drop u).
Proof.
  intros [Htree _ Hfold Hchunks _].
  assert (u_pending (drop u) = u_pending u) as Hp.
  { apply drop_keeps; [|done..]. intros id v. unfold drop_item. destruct (u_items v !! id) as [it|]; [|done].
    by destruct (i_writing it), (i_sink it). }
  assert (i_acked <$> u_items (drop u) = i_acked <$> u_items u) as Ha.
  { apply (drop_keeps (λ v, i_acked <$> u_items v)); [|done..]. intros id v. unfold drop_item.
    destruct (u_items v !! id) as [it|]; [|done].
    destruct (i_writing it), (i_sink it); simpl;
      (rewrite (list_fmap_alter _ _ (λ x, x)); [by apply list_alter_id|by apply Forall_forall]). }
  pose proof (drop_shapes u) as Hs. split.
  - by eapply tree_ok_shapes.
  - assert (u_known (drop u) = false) as ->; [|done]. unfold drop, emit, releaseBackend. simpl.
    by destruct (u_backend _).
  - intros id it Hit Hk. pose proof (shapes_kind _ _ id Hs) as Hkind. rewrite Hit in Hkind.
    assert ((i_acked <$> u_items (drop u)) !! id = (i_acked <$> u_items u) !! id) as H by (by rewrite Ha).
    rewrite !list_lookup_fmap, Hit in H. destruct (u_items u !! id) as [it0|] eqn:H0; simplify_eq/=.
    rewrite H. apply (Hfold id it0 H0). congruence.
  - intros p id. rewrite Hp, (shapes_kind _ _ id Hs). apply Hchunks.
  - assert (u_queue (drop u) = []) as ->; [|by intros i Hin; inversion Hin].
    unfold drop, emit, releaseBackend. simpl. by destruct (u_backend _).
Qed.

Lemma kept_inv rank u u' : upload_kept u' u → inv rank u → inv rank u'.
Proof.
  intros [Hi H1 H2 H3 _ _ H4 H5 H6] [Ht Hc Hfo Hp Hq]. split; rewrite ?Hi; [done| |done|..].
  - intros Hkn. eapply counts_kept; eauto.
  - intros p id Hin Hchunk. destruct (H5 p id Hin Hchunk); eauto.
  - intros id Hin. destruct (H6 id Hin); eauto.
Qed.
Lemma item_inv rank id f u : (∀ it, item_kept (f it) it) → inv rank u → inv rank (on_item id f u).
Proof.
  intros Hf Hinv. pose proof (inv_tree _ _ Hinv) as Htree.
  eapply (inv_alter _ u (on_item id f u) id f Hinv eq_refl); [intros it; by apply item_kept_shape|..];
    [| |by left|done|done].
  - intros it _ _ Ha. by rewrite (ik_acked _ _ (Hf it)).
  - apply (counts_item_kept _ rank); [done|]. intros it. by destruct (Hf it).
Qed.
Lemma change_inv allowed rank u u' : change allowed u u' → inv rank u → inv rank u'.
Proof.
  intros Hch Hinv. pose proof (inv_tree _ _ Hinv) as Htree.
  destruct Hch as [id s u|id d u Hd|id size mtime u Hd|id f u Hf|id f u Hf|id r u _|o u _|u u' Hk|u].
  - destruct (setState_change id s u) as [Hi _ _ Hk Hp Hq].
    eapply (inv_alter _ u _ _ _ Hinv Hi); [done..| |rewrite Hp; by left|done|by rewrite Hk].
    by apply counts_setState with rank.
  - destruct (addAcked_change id d u) as [Hi _ _ Hk Hp Hq].
    assert (∀ it, u_items u !! id = Some it → i_kind it = file ∨ d = 0%Z) as Hd0.
    { intros it Hit. destruct (i_kind it) eqn:Hkind; [by left|right].
      pose proof (inv_folders _ _ Hinv id it Hit Hkind). destruct (Hd it Hit); [congruence|lia]. }
    eapply (inv_alter _ u _ _ _ Hinv Hi); [done| | |rewrite Hp; by left|done|by rewrite Hk].
    + intros it Hit Hkind Ha. simpl. destruct (Hd0 it Hit); [congruence|lia].
    + intros Hc. by eapply counts_addAcked.
  - apply (kept_inv _ _ _ (persistItem_kept id _)). destruct (resize_change id size mtime u) as [Hi _ _ Hk Hp Hq].
    eapply (inv_alter _ u _ _ _ Hinv Hi); [done..| |rewrite Hp; by left|done|by rewrite Hk].
    intros Hc. by eapply counts_resize.
  - apply item_inv; [by apply file_item|done].
  - apply (kept_inv _ _ _ (persistItem_kept id _)). by apply item_inv.
  - eapply (inv_alter _ u (on_item id _ u) id _ Hinv eq_refl); [done..| |by left|done|done].
    by apply (counts_item_kept _ rank).
  - destruct Hinv as [? Hc ? ? ?]. split; [done| |done..]. intros Hk. by apply (counts_kept u), Hc.
  - by eapply kept_inv.
  - by apply drop_inv.
Qed.
