(* ===== verification/TransferOps.v ===== *)
(** * Every operation on an upload is a succession of changes

    One lemma per operation of [TransferItems] and [TransferFlow], in their order, gathered in the
    hint database [transfer]; [follow] goes through an operation's body with them. What every change
    keeps, every step keeps ([ev_step]). *)

From S2P Require Import Prelude JsMap Text HostPaths UploadTree TransferItems TransferFlow TransferCounts.
#[local] Open Scope lasterm_scope.

(** ** Every operation is a succession of changes *)

Lemma set_add_twice i (l : list nat) : set_add i (set_add i l) = set_add i l.
Proof.
  assert (i ∈ set_add i l) as Hi by (apply elem_of_set_add; by left).
  generalize dependent (set_add i l). intros m Hm. unfold set_add. by rewrite decide_True.
Qed.
Lemma setState_persistItem id s u :
  is_Some (u_items u !! id) → setState id s (persistItem id u) = setState id s u.
Proof.
  intros [it Hit]. unfold persistItem. destruct (u_stored u) eqn:Hst; [|done]. unfold setState.
  change (u_items (u <{ u_unsaved ::= _ }>)) with (u_items u). rewrite Hit. cbv zeta.
  match goal with |- (if _ then ?x else _) = (if _ then ?y else _) => assert (x = y) as -> end; [|done].
  unfold persistItem. cbn [u_stored set_field set_u_unsaved set_u_dirtyItems set_u_items on_item]. rewrite Hst.
  set (v := on_item id (λ it, it <{ i_state := s }>) u <{ u_dirtyItems ::= set_add id }>).
  transitivity (v <{ u_unsaved := Some (set_add id (set_add id (default [] (u_unsaved u)))) }>); [done|].
  by rewrite set_add_twice.
Qed.
Lemma marked_persistItem it id f u :
  persistItem id (markFolders it (on_item id f (persistItem id u) <{ u_dirtyItems ::= set_add id }>)) =
  persistItem id (markFolders it (on_item id f u <{ u_dirtyItems ::= set_add id }>)).
Proof.
  unfold persistItem at 2. destruct (u_stored u) eqn:Hst; [|done].
  set (v := markFolders it (on_item id f u <{ u_dirtyItems ::= set_add id }>)).
  assert (u_stored v = true) as Hv by done.
  unfold persistItem. rewrite Hv. cbn [u_stored set_field set_u_unsaved set_u_dirtyItems set_u_items
    set_u_dirtyFolders on_item markFolders]. rewrite Hst.
  transitivity (v <{ u_unsaved := Some (set_add id (set_add id (default [] (u_unsaved u)))) }>); [done|].
  by rewrite set_add_twice.
Qed.
Lemma on_item_none id f u : u_items u !! id = None → upload_kept (on_item id f u) u.
Proof. intros Hn. split; try done; [by apply alter_none|by left..]. Qed.

Section operations.
Context (allowed : nat → Prop) (toUpperCase : text → text).
Notation evolves := (evolves allowed).
Notation change := (change allowed).
Implicit Types (u v w : Upload).

Lemma ev_change u v w : change v w → evolves u v → evolves u w.
Proof. intros Hc Hv Hp. eapply rtc_r; eauto. Qed.
Lemma ev_policy u v :
  evolves u v → (u_onConflict u = always replace → ∀ id, allowed id) →
  u_onConflict v = u_onConflict u ∧ shapes v = shapes u.
Proof.
  intros Hv Hp. specialize (Hv Hp). split; [by eapply changes_policy|by eapply changes_shapes].
Qed.
(** With the policy and the shapes at hand. *)
Lemma ev_with u v w :
  ((u_onConflict v = always replace → ∀ id, allowed id) → shapes v = shapes u → evolves u v → evolves u w) →
  evolves u v → evolves u w.
Proof.
  intros Hw Hv Hp. destruct (ev_policy u v Hv Hp) as [Hpol Hs]. apply Hw; [by rewrite Hpol|done..].
Qed.
Lemma ev_kept u v w : upload_kept w v → evolves u v → evolves u w.
Proof. intros Hk. by apply ev_change, ch_kept. Qed.
Lemma ev_state id s u v : evolves u v → evolves u (setState id s v).
Proof. apply ev_change, ch_state. Qed.
Lemma ev_item id f u v : (∀ it, file_kept (f it) it) → evolves u v → evolves u (on_item id f v).
Proof. intros Hf. by apply ev_change, ch_item. Qed.
Lemma ev_saved id f u v :
  (∀ it, item_kept (f it) it) → evolves u v → evolves u (persistItem id (on_item id f v)).
Proof. intros Hf. by apply ev_change, ch_saved. Qed.
(** An item written for its state is written for what changed before too. *)
Lemma ev_saved_state id s f u v :
  (∀ it, item_kept (f it) it) → evolves u v → evolves u (setState id s (on_item id f v)).
Proof.
  intros Hf Hv. destruct (u_items v !! id) as [it|] eqn:Hit.
  - rewrite <- setState_persistItem; [by apply ev_state, ev_saved|].
    rewrite on_item_items, list_lookup_alter_eq, Hit. by eexists.
  - apply ev_state. revert Hv. by apply ev_kept, on_item_none.
Qed.
Lemma ev_emit o u v : is_replace o = None → evolves u v → evolves u (emit o v).
Proof. intros Ho. apply ev_change, ch_out. by rewrite Ho. Qed.
Lemma ev_ask c u v : is_replace (to_host c) = None → evolves u v → evolves u (ask_host c v).
Proof. apply ev_emit. Qed.
Lemma ev_await k u v : chunk_of k = None → evolves u v → evolves u (await k v).
Proof.
  intros Hk. apply ev_kept. split; try done; [|intros; by left]. intros p id Hp Hc. left. unfold await in Hp. simpl in Hp.
  apply elem_of_app in Hp as [Hp|Hp]; [done|]. apply list_elem_of_singleton in Hp as ->. simpl in Hc. congruence.
Qed.
Lemma ev_for_each f ids u v :
  (∀ id w, evolves u w → evolves u (f id w)) → evolves u v → evolves u (for_each f ids v).
Proof.
  intros Hf. unfold for_each. revert v. induction ids as [|id ids IH]; intros v Hv; [done|].
  simpl. apply IH, Hf, Hv.
Qed.
Lemma ev_persist u v : evolves u v → evolves u (persist v).
Proof. apply ev_kept, persist_kept. Qed.
Lemma ev_persistItem id u v : evolves u v → evolves u (persistItem id v).
Proof. apply ev_kept, persistItem_kept. Qed.
Lemma ev_settle u v : evolves u v → evolves u (settle v).
Proof.
  intros Hv%ev_persist. unfold settle. destruct (_ || _); [done|]. revert Hv. apply ev_kept. kept.
Qed.
Lemma ev_restartFile id u v : evolves u v → evolves u (restartFile id v).
Proof.
  unfold restartFile. destruct (u_items v !! id) as [it|] eqn:Hit; [|done]. intros Hv.
  apply ev_saved; [done|]. revert Hv. apply ev_change, ch_acked.
  intros it' Hit'. rewrite Hit in Hit'. simplify_eq. by right.
Qed.
End operations.

#[export] Hint Resolve ev_state ev_persist ev_persistItem ev_settle ev_restartFile ev_for_each : transfer.
#[export] Hint Extern 1 (evolves _ _ (emit _ _)) => simple apply ev_emit; [reflexivity|] : transfer.
#[export] Hint Extern 1 (evolves _ _ (ask_host _ _)) => simple apply ev_ask; [reflexivity|] : transfer.
#[export] Hint Extern 1 (evolves _ _ (await _ _)) => simple apply ev_await; [reflexivity|] : transfer.
#[export] Hint Extern 1 (evolves _ _ (on_item _ _ _)) =>
  simple apply ev_item; [intros []; split; [split|..]; reflexivity|] : transfer.
#[export] Hint Extern 0 (evolves _ _ (persistItem _ (on_item _ _ _))) =>
  simple apply ev_saved; [intros []; split; reflexivity|] : transfer.
#[export] Hint Extern 0 (evolves _ _ (setState _ _ (on_item _ _ _))) =>
  simple apply ev_saved_state; [intros []; split; reflexivity|] : transfer.
#[export] Hint Extern 1 (evolves _ _ (set_field _ _ ?v)) => apply (ev_kept _ _ v); [generalize v; intro; kept|] : transfer.
#[export] Hint Extern 3 (evolves _ _ _) =>
  match goal with |- evolves _ _ (match ?x with _ => _ end) => destruct x eqn:? end : transfer.

(** Unfold an operation and follow it. *)
Ltac follow := intros; cbv beta zeta; eauto 40 with transfer nocore.

Section operations2.
Context (allowed : nat → Prop) (toUpperCase : text → text).
Notation evolves := (evolves allowed).
Implicit Types (u v w : Upload).

Lemma ev_schedulePump u v : evolves u v → evolves u (schedulePump v).
Proof. unfold schedulePump. follow. Qed.
Lemma ev_releaseBackend u v : evolves u v → evolves u (releaseBackend v).
Proof. unfold releaseBackend. follow. Qed.
Lemma ev_abort sink u v : evolves u v → evolves u (abort sink v).
Proof. unfold abort. follow. Qed.
Lemma ev_enqueue id u v : evolves u v → evolves u (enqueue id v).
Proof.
  unfold enqueue. destruct (u_items v !! id) as [it|] eqn:Hit; [|done].
  destruct (parentReady v it), (i_kind it) eqn:Hk; [|follow..]. apply ev_kept.
  split; try done; [intros; by left|]. intros i [Hi|Hi]%elem_of_app; [by left|right].
  apply list_elem_of_singleton in Hi as ->. by rewrite Hit, <- Hk.
Qed.
Lemma ev_resolution id r u v :
  (r = replace → allowed id) → evolves u v →
  evolves u (on_item id (λ it, it <{ i_resolution := Some r }>) v).
Proof. intros Hr. apply ev_change. by apply ch_resolution. Qed.
#[local] Hint Resolve ev_schedulePump ev_releaseBackend ev_abort ev_enqueue : transfer.

Lemma ev_enqueueReady o u v : evolves u v → evolves u (enqueueReady o v).
Proof. unfold enqueueReady, enqueue_if_queued. follow. Qed.
Lemma ev_backendOf next u v : evolves u v → evolves u (backendOf next v).
Proof. unfold backendOf. follow. Qed.
#[local] Hint Resolve ev_enqueueReady ev_backendOf : transfer.
Lemma ev_place id u v : evolves u v → evolves u (place id v).
Proof. unfold place. follow. Qed.
#[local] Hint Resolve ev_place : transfer.
Lemma ev_requeue id u v : evolves u v → evolves u (requeue id v).
Proof. unfold requeue. follow. Qed.
#[local] Hint Resolve ev_requeue : transfer.
Lemma ev_requeue_above fuel o u s : evolves u s.2 → evolves u (requeue_above fuel o s).2.
Proof.
  revert o s. induction fuel as [|fuel IH]; intros [p|] [r v] Hv; try done.
  cbn [requeue_above]. destruct (_ || _); [done|]. apply IH. destruct (is_stopped_short v p); [|done].
  simpl in *. auto with transfer.
Qed.
Lemma ev_requeue_one id u s : evolves u s.2 → evolves u (requeue_one s id).2.
Proof.
  intros Hs. unfold requeue_one.
  pose proof (ev_requeue_above (length (u_items s.2)) (u_items s.2 !! id ≫= i_parent) u s Hs) as H.
  destruct (requeue_above _ _ s) as [r v]. simpl in H. case_bool_decide; simpl; auto with transfer.
Qed.
Lemma ev_requeueAll again u v : evolves u v → evolves u (requeueAll again v).
Proof.
  intros Hv. unfold requeueAll, clearForget.
  assert (evolves u (fold_left requeue_one again ([], v)).2) as H.
  { assert (∀ s, evolves u s.2 → evolves u (fold_left requeue_one again s).2) as Hfold; [|by apply Hfold].
    induction again as [|id again IH]; intros s Hs; [done|]. by apply IH, ev_requeue_one. }
  generalize dependent (fold_left requeue_one again ([], v)).2. follow.
Qed.
Lemma ev_interrupt id reason u v : evolves u v → evolves u (interrupt id reason v).
Proof. unfold interrupt. follow. Qed.
#[local] Hint Resolve ev_requeueAll ev_interrupt : transfer.
Lemma ev_interrupt_in states reason id u v : evolves u v → evolves u (interrupt_in states reason id v).
Proof. unfold interrupt_in. follow. Qed.
#[local] Hint Resolve ev_interrupt_in : transfer.
Lemma ev_interruptAll reason u v : evolves u v → evolves u (interruptAll reason v).
Proof. unfold interruptAll. follow. Qed.
Lemma ev_skip fuel id u v : evolves u v → evolves u (skip fuel id v).
Proof. revert id v. induction fuel as [|fuel IH]; intros id v; [done|]. cbn [skip]. follow. Qed.
Lemma ev_stopItem fuel id u v : evolves u v → evolves u (stopItem fuel id v).
Proof.
  revert id v. induction fuel as [|fuel IH]; intros id v; [done|]. cbn [stopItem]. unfold afterStop. follow.
Qed.
Lemma ev_failSubtree fuel id code reason u v :
  evolves u v → evolves u (failSubtree fuel id code reason v).
Proof. revert id reason v. induction fuel as [|fuel IH]; intros id reason v; [done|]. cbn [failSubtree]. follow. Qed.
#[local] Hint Resolve ev_interruptAll ev_skip ev_stopItem ev_failSubtree : transfer.
Lemma ev_skipItem id u v : evolves u v → evolves u (skipItem id v).
Proof. apply ev_skip. Qed.
Lemma ev_cancelItem id u v : evolves u v → evolves u (cancelItem id v).
Proof. apply ev_stopItem. Qed.
Lemma ev_failFolder id code reason u v : evolves u v → evolves u (failFolder id code reason v).
Proof. apply ev_failSubtree. Qed.
Lemma ev_afterStopped id u v : evolves u v → evolves u (afterStopped id v).
Proof. unfold afterStopped. follow. Qed.
Lemma ev_fileFailed id e u v : evolves u v → evolves u (fileFailed id e v).
Proof. unfold fileFailed. follow. Qed.
Lemma ev_sayState u v : evolves u v → evolves u (sayState v).
Proof. unfold sayState. follow. Qed.
#[local] Hint Resolve ev_skipItem ev_cancelItem ev_failFolder ev_afterStopped ev_fileFailed ev_sayState : transfer.
Lemma ev_flush u v : evolves u v → evolves u (flush v).
Proof.
  unfold flush. intros Hv. destruct (u_known v); [|done]. cbv zeta.
  assert (evolves u (sayState (flush_done (flush_conflicts (flush_progress v))))) as H.
  { apply ev_sayState. unfold flush_done. cbv zeta.
    assert (evolves u (flush_conflicts (flush_progress v))) as H.
    { unfold flush_conflicts. assert (evolves u (flush_progress v)) as H by (unfold flush_progress; follow).
      generalize dependent (flush_progress v). follow. }
    generalize dependent (flush_conflicts (flush_progress v)). follow. }
  generalize dependent (sayState (flush_done (flush_conflicts (flush_progress v)))). follow.
Qed.
End operations2.

#[export] Hint Resolve ev_schedulePump ev_releaseBackend ev_abort ev_enqueue ev_enqueueReady ev_backendOf
  ev_place ev_requeue ev_requeueAll ev_interrupt ev_interrupt_in ev_interruptAll ev_skipItem ev_cancelItem
  ev_failFolder ev_afterStopped ev_fileFailed ev_sayState ev_flush : transfer.

Section flow_operations.
Context (allowed : nat → Prop) (toUpperCase : text → text).
Notation evolves := (evolves allowed).
Implicit Types (u v w : Upload).

(** *** Folders *)
Lemma ev_folders_done u v : evolves u v → evolves u (folders_done v).
Proof. unfold folders_done, unbusy. follow. Qed.
#[local] Hint Resolve ev_folders_done : transfer.
Lemma ev_folders_next u v : evolves u v → evolves u (folders_next v).
Proof. unfold folders_next. follow. Qed.
#[local] Hint Resolve ev_folders_next : transfer.
Lemma ev_createFolders u v : evolves u v → evolves u (createFolders v).
Proof. unfold createFolders. follow. Qed.
Lemma ev_folders_failed e u v : evolves u v → evolves u (folders_failed e v).
Proof. unfold folders_failed. follow. Qed.
Lemma ev_folderPlaced id path outcome u v : evolves u v → evolves u (folderPlaced id path outcome v).
Proof. unfold folderPlaced. follow. Qed.
Lemma ev_keeps_both id u v :
  evolves u v → evolves u (on_item id (λ it, it <{ i_resolution := Some keep_both }>) v).
Proof. by apply ev_resolution. Qed.
#[local] Hint Resolve ev_createFolders ev_folders_failed ev_folderPlaced ev_keeps_both : transfer.
Lemma ev_folderClash id existing u v : evolves u v → evolves u (folderClash id existing v).
Proof. unfold folderClash, note_clash. follow. Qed.
Lemma ev_keepBoth_try id n rest u v : evolves u v → evolves u (keepBoth_try toUpperCase id n rest v).
Proof. unfold keepBoth_try. follow. Qed.
#[local] Hint Resolve ev_folderClash ev_keepBoth_try : transfer.
Lemma ev_keepBoth_next rest u v : evolves u v → evolves u (keepBoth_next toUpperCase rest v).
Proof. induction rest as [|id rest IH]; cbn [keepBoth_next]; follow. Qed.
#[local] Hint Resolve ev_keepBoth_next : transfer.
Lemma ev_keepBoth_answered id n name path rest results u v :
  evolves u v → evolves u (keepBoth_answered toUpperCase id n name path rest results v).
Proof. unfold keepBoth_answered. follow. Qed.
Lemma ev_folder_answered entry u v : evolves u v → evolves u (folder_answered entry v).
Proof. unfold folder_answered. follow. Qed.
Lemma ev_fold_left {A} (f : Upload → A → Upload) l u v :
  (∀ a w, evolves u w → evolves u (f w a)) → evolves u v → evolves u (fold_left f l v).
Proof. intros Hf. revert v. induction l as [|a l IH]; intros v Hv; [done|]. by apply IH, Hf. Qed.
Lemma ev_mkdirs_answered batch plain paths results u v :
  evolves u v → evolves u (mkdirs_answered toUpperCase batch plain paths results v).
Proof.
  intros Hv. unfold mkdirs_answered. cbv zeta. apply ev_keepBoth_next, ev_fold_left; [|done].
  intros entry w. apply ev_folder_answered.
Qed.
Lemma ev_folders_reached batch plain u v :
  evolves u v → evolves u (folders_reached toUpperCase batch plain v).
Proof. unfold folders_reached. follow. Qed.

(** *** Files *)
Lemma ev_finishFile id u v : evolves u v → evolves u (finishFile id v).
Proof. unfold finishFile. follow. Qed.
#[local] Hint Resolve ev_finishFile : transfer.
Lemma ev_finish_if_whole id u v : evolves u v → evolves u (finish_if_whole id v).
Proof. unfold finish_if_whole. follow. Qed.
Lemma ev_filePlaced id path outcome u v : evolves u v → evolves u (filePlaced id path outcome v).
Proof. unfold filePlaced. follow. Qed.
#[local] Hint Resolve ev_finish_if_whole ev_filePlaced : transfer.
Lemma late_policy_replace policy typeClash :
  late_policy policy typeClash = Some replace → policy = always replace.
Proof. by destruct policy as [|[]], typeClash. Qed.
Lemma ev_conflictFound id existing u v : evolves u v → evolves u (conflictFound id existing v).
Proof.
  intros Hv. unfold conflictFound. cbv zeta.
  assert (evolves u (on_item id (note_conflict existing) v)) as H by (unfold note_conflict; follow).
  generalize dependent (on_item id (note_conflict existing) v). clear v Hv. intros v Hv.
  revert Hv. apply ev_with. intros Hpol _ Hv.
  destruct (late_policy _ _) as [policy|] eqn:Hl;
    [|destruct (match u_items v !! id with Some it => i_tempWhole it | None => false end); follow].
  assert (evolves u (on_item id (λ it, it <{ i_resolution := Some policy }>) v)) as H.
  { apply ev_resolution; [|done]. intros ->. apply Hpol. by eapply late_policy_replace. }
  destruct policy; follow.
Qed.
Lemma ev_place_done u v : evolves u v → evolves u (place_done v).
Proof. unfold place_done, unbusy. follow. Qed.
#[local] Hint Resolve ev_conflictFound ev_place_done : transfer.
Lemma ev_place_failed id e u v : evolves u v → evolves u (place_failed id e v).
Proof. unfold place_failed. follow. Qed.
#[local] Hint Resolve ev_place_failed : transfer.
Lemma ev_placeBoth_try id n parent temp u v :
  evolves u v → evolves u (placeBoth_try toUpperCase id n parent temp v).
Proof. unfold placeBoth_try. follow. Qed.
#[local] Hint Resolve ev_placeBoth_try : transfer.
Lemma ev_place_reached id u v : evolves u v → evolves u (place_reached toUpperCase id v).
Proof.
  unfold place_reached. intros Hv. destruct (u_items v !! id) as [it|] eqn:Hit; [|done]. cbv zeta.
  destruct (i_resolution it) as [[]|] eqn:Hr; [|follow..].
  apply ev_await; [done|]. revert Hv. apply ev_change, ch_out. intros i Hi. simpl in Hi.
  simplify_eq. unfold resolution_of. by rewrite Hit.
Qed.
Lemma ev_placeReplace_answered id target u v :
  evolves u v → evolves u (placeReplace_answered id target v).
Proof. unfold placeReplace_answered. follow. Qed.
Lemma ev_placeBoth_answered id n parent name target temp r u v :
  evolves u v → evolves u (placeBoth_answered toUpperCase id n parent name target temp r v).
Proof. unfold placeBoth_answered. follow. Qed.
Lemma ev_placeNew_answered id target r u v : evolves u v → evolves u (placeNew_answered id target r v).
Proof. unfold placeNew_answered. follow. Qed.
Lemma ev_unbusy u v : evolves u v → evolves u (unbusy v).
Proof. unfold unbusy. follow. Qed.
#[local] Hint Resolve ev_unbusy : transfer.
Lemma ev_finished id r u v : evolves u v → evolves u (finished id r v).
Proof.
  unfold finished. intros Hv%ev_unbusy. cbv zeta. generalize dependent (unbusy v). follow.
Qed.
Lemma ev_finish_failed id e u v : evolves u v → evolves u (finish_failed id e v).
Proof. unfold finish_failed. follow. Qed.
End flow_operations.

#[export] Hint Resolve ev_folders_done ev_folders_next ev_createFolders ev_folders_failed ev_folderPlaced
  ev_keeps_both ev_folderClash ev_keepBoth_next ev_keepBoth_answered ev_mkdirs_answered ev_folders_reached
  ev_finishFile ev_finish_if_whole ev_filePlaced ev_conflictFound ev_place_done ev_place_failed
  ev_place_reached ev_placeReplace_answered ev_placeBoth_answered ev_placeNew_answered ev_unbusy
  ev_finished ev_finish_failed : transfer.

Section open_operations.
Context (allowed : nat → Prop) (toUpperCase : text → text).
Notation evolves := (evolves allowed).
Implicit Types (u v w : Upload).

(** *** Opening *)
Lemma ev_open_done id u v : evolves u v → evolves u (open_done id v).
Proof. unfold open_done. follow. Qed.
Lemma ev_open_failed id e u v : evolves u v → evolves u (open_failed id e v).
Proof. unfold open_failed. follow. Qed.
Lemma ev_open_temp id o target u v : evolves u v → evolves u (open_temp id o target v).
Proof. unfold open_temp. follow. Qed.
#[local] Hint Resolve ev_open_done ev_open_failed ev_open_temp : transfer.
Lemma ev_name_temp id target random k u v :
  (∀ w, evolves u w → evolves u (k w)) → evolves u v → evolves u (name_temp toUpperCase id target random k v).
Proof. unfold name_temp. follow. Qed.
Lemma ev_openDirect_try id o parent keepBoth n u v :
  evolves u v → evolves u (openDirect_try toUpperCase id o parent keepBoth n v).
Proof. unfold openDirect_try. follow. Qed.
Lemma ev_openDirect_opened id n name path sink u v :
  evolves u v → evolves u (openDirect_opened id n name path sink v).
Proof.
  intros Hv. unfold openDirect_opened. apply ev_open_done, ev_saved; [|done].
  intros it. case_decide; by split.
Qed.
#[local] Hint Resolve ev_name_temp ev_openDirect_try ev_openDirect_opened : transfer.
Lemma ev_openDirect_answered id o parent keepBoth n name path r u v :
  evolves u v → evolves u (openDirect_answered toUpperCase id o parent keepBoth n name path r v).
Proof. unfold openDirect_answered. follow. Qed.
Lemma ev_open_placement id o parent target random direct u v :
  evolves u v → evolves u (open_placement toUpperCase id o parent target random direct v).
Proof.
  intros Hv. unfold open_placement. cbv zeta.
  assert (evolves u (on_item id (λ it, it <{ i_direct := direct }>) v)) as H by follow.
  generalize dependent (on_item id (λ it, it <{ i_direct := direct }>) v). clear v Hv. intros v Hv.
  assert (evolves u (if u_verify v then on_item id (λ it, it <{ i_hash := Some [] }>) v else v)) as H by follow.
  generalize dependent (if u_verify v then on_item id (λ it, it <{ i_hash := Some [] }>) v else v).
  intros w Hw. destruct direct; follow.
Qed.
#[local] Hint Resolve ev_open_placement : transfer.
Lemma ev_open_ready id o parent target random u v :
  evolves u v → evolves u (open_ready toUpperCase id o parent target random v).
Proof. unfold open_ready. follow. Qed.
Lemma ev_open_remove id o parent target u v : evolves u v → evolves u (open_remove id o parent target v).
Proof. unfold open_remove. follow. Qed.
#[local] Hint Resolve ev_open_ready ev_open_remove : transfer.
Lemma ev_open_statted id o transport parent target random r u v :
  evolves u v → evolves u (open_statted toUpperCase id o transport parent target random r v).
Proof. unfold open_statted. follow. Qed.
Lemma ev_open_truncated id o parent target random r u v :
  evolves u v → evolves u (open_truncated toUpperCase id o parent target random r v).
Proof. unfold open_truncated. follow. Qed.
Lemma ev_open_reached id o transport random u v :
  evolves u v → evolves u (open_reached toUpperCase id o transport random v).
Proof. unfold open_reached. follow. Qed.
Lemma ev_openTemp_opened id o sink u v : evolves u v → evolves u (openTemp_opened id o sink v).
Proof. unfold openTemp_opened, afterStop. follow. Qed.
Lemma ev_reopen_temp id o target resumeAt u v : evolves u v → evolves u (reopen_temp id o target resumeAt v).
Proof. unfold reopen_temp. follow. Qed.
#[local] Hint Resolve ev_openTemp_opened ev_reopen_temp : transfer.
Lemma ev_openTemp_answered id o target resumeAt again random r u v :
  evolves u v → evolves u (openTemp_answered toUpperCase id o target resumeAt again random r v).
Proof. unfold openTemp_answered. follow. Qed.
Lemma ev_admit id u v : evolves u v → evolves u (admit_file id v).
Proof.
  intros Hv. unfold admit_file, settleNow. cbv zeta.
  match goal with |- evolves _ (set_field _ _ (persist ?w)) => assert (evolves u w) as H by follow;
    generalize dependent w end. follow.
Qed.

(** *** Bytes *)
Lemma ev_refuse requester code u v : evolves u v → evolves u (refuse requester code v).
Proof. unfold refuse. follow. Qed.
#[local] Hint Resolve ev_refuse : transfer.
Lemma ev_await_chunk k id u v :
  chunk_of k = Some id → i_kind <$> u_items v !! id = Some file → evolves u v → evolves u (await k v).
Proof.
  intros Hk Hkind. apply ev_kept. split; try done; [|intros; by left]. intros p i Hp Hc. unfold await in Hp. simpl in Hp.
  apply elem_of_app in Hp as [Hp|Hp]; [by left|]. apply list_elem_of_singleton in Hp as ->. right.
  simpl in Hc. congruence.
Qed.
Lemma ev_receive requester id offset data u v : evolves u v → evolves u (receive requester id offset data v).
Proof.
  unfold receive. intros Hv. destruct (u_items v !! id) as [it|] eqn:Hit; [|follow].
  case_bool_decide as Hk; [follow|]. case_bool_decide; [follow|]. destruct (is_sending v id); [|follow].
  eapply ev_await_chunk; [done| |done]. rewrite Hit. simpl. f_equal. by destruct (i_kind it).
Qed.
Lemma ev_receive_opened id requester offset data u v :
  i_kind <$> u_items v !! id = Some file →
  evolves u v → evolves u (receive_opened id requester offset data v).
Proof.
  unfold receive_opened. intros Hk Hv. destruct (u_items v !! id) as [it|] eqn:Hit; [|done].
  destruct (chunk_problem it offset data); [follow|]. destruct (i_sink it) as [sink|]; [|done].
  eapply ev_await_chunk; [done| |follow]. simpl. by rewrite list_lookup_alter_eq, Hit.
Qed.
Lemma ev_write_answered id requester sink data r u v :
  i_kind <$> u_items v !! id = Some file →
  evolves u v → evolves u (write_answered id requester sink data r v).
Proof.
  unfold write_answered. intros Hk Hv. destruct r as [e|]; [follow|]. cbv zeta.
  assert (evolves u (on_item id (λ it, it <{ i_writing := false }>) v)) as H by follow.
  assert (i_kind <$> u_items (on_item id (λ it, it <{ i_writing := false }>) v) !! id = Some file) as Hk'.
  { simpl. rewrite list_lookup_alter_eq. by destruct (u_items v !! id). }
  generalize dependent (on_item id (λ it, it <{ i_writing := false }>) v). clear v Hk Hv.
  intros v Hv Hk. case_match; [|unfold afterStop; follow].
  apply ev_emit; [done|]. apply ev_settle, ev_finish_if_whole.
  eapply ev_change; [apply ch_acked|follow].
  intros it Hit. left. simpl in Hit. rewrite list_lookup_alter_eq in Hit.
  destruct (u_items v !! id) as [x|]; [|done]. injection Hit as <-. by injection Hk.
Qed.

(** *** Resuming *)
Lemma ev_changedFile f u v : evolves u v → evolves u (changedFile f v).
Proof.
  unfold changedFile. intros Hv. destruct (u_items v !! f_itemId f) as [it|] eqn:Hit; [|done].
  destruct (bool_decide _ && _) eqn:Hk; [|done]. apply andb_prop in Hk as [Hk%bool_decide_eq_true_1 _].
  destruct (f_action f) as [why|size mtime]; [follow|]. cbv zeta.
  assert (∀ w, evolves v w → (u_onConflict v = always replace → ∀ id, allowed id) →
    ∀ it', u_items w !! f_itemId f = Some it' → i_kind it' = file) as Hfile.
  { intros w Hw Hp it' Hit'. pose proof (proj2 (ev_policy _ _ _ Hw Hp)) as Hs.
    pose proof (shapes_kind _ _ (f_itemId f) Hs) as H. rewrite Hit, Hit' in H. simplify_eq/=. congruence. }
  set (w := match i_temp it with Some temp => _ | None => _ end).
  assert (∀ x, evolves x v → evolves x w) as Hw by (intros x Hx; subst w; follow).
  rewrite <- marked_persistItem. apply ev_persistItem. unfold markFolders.
  assert (evolves u (persistItem (f_itemId f) (resize (f_itemId f) size mtime w))) as H;
    [|generalize dependent (persistItem (f_itemId f) (resize (f_itemId f) size mtime w)); follow].
  revert Hv. apply ev_with. intros Hpol _ Hv. eapply ev_change; [|by apply Hw]. apply ch_resize.
  apply Hfile; [apply Hw; intros _; constructor|done].
Qed.
Lemma ev_notResumed reason u v : evolves u v → evolves u (notResumed reason v).
Proof. unfold notResumed. follow. Qed.
#[local] Hint Resolve ev_notResumed : transfer.
Lemma ev_takeUp_failed e u v : evolves u v → evolves u (takeUp_failed e v).
Proof. unfold takeUp_failed. follow. Qed.
#[local] Hint Resolve ev_takeUp_failed : transfer.
Lemma ev_look_next run todo u v : evolves u v → evolves u (look_next run todo v).
Proof. induction todo as [|id todo IH]; cbn [look_next]; follow. Qed.
Lemma ev_look_worker run u v : evolves u v → evolves u (look_worker run v).
Proof. apply ev_look_next. Qed.
#[local] Hint Resolve ev_look_worker : transfer.
Lemma ev_unwait P `{∀ x, Decision (P x)} u v :
  evolves u v → evolves u (v <{ u_pending ::= filter P }>).
Proof.
  apply ev_kept. split; try done; [|intros; by left]. intros p id Hp _. left. simpl in Hp. by apply list_elem_of_filter in Hp as [_ ?].
Qed.
Lemma ev_look_rejected run e u v : evolves u v → evolves u (look_rejected run e v).
Proof. unfold look_rejected. intros Hv. destruct (existsb _ _); [|done]. apply ev_takeUp_failed. by apply ev_unwait. Qed.
#[local] Hint Resolve ev_look_rejected : transfer.
Lemma ev_look_restart run id temp there u v : evolves u v → evolves u (look_restart run id temp there v).
Proof. unfold look_restart. follow. Qed.
#[local] Hint Resolve ev_look_restart : transfer.
Lemma ev_look_statted run id temp r u v : evolves u v → evolves u (look_statted run id temp r v).
Proof. unfold look_statted. follow. Qed.
Lemma ev_look_truncated run id temp r u v : evolves u v → evolves u (look_truncated run id temp r v).
Proof. unfold look_truncated. follow. Qed.
Lemma ev_takeUp requester files u v : evolves u v → evolves u (takeUp requester files v).
Proof. unfold takeUp. follow. Qed.
Lemma ev_takeUp_reached requester files u v : evolves u v → evolves u (takeUp_reached requester files v).
Proof.
  intros Hv. unfold takeUp_reached. cbv zeta.
  assert (evolves u (fold_left (λ u f, changedFile f u) files v)) as H.
  { apply ev_fold_left; [|done]. intros f w. apply ev_changedFile. }
  generalize dependent (fold_left (λ u f, changedFile f u) files v). clear v Hv. intros v Hv.
  match goal with |- evolves _ (Nat.iter ?n _ _) => generalize n end. intros n.
  induction n as [|n IH]; [cbn [Nat.iter nat_rect]; follow|]. cbn [Nat.iter nat_rect]. by apply ev_look_worker.
Qed.
Lemma ev_takeUp_done requester u v : evolves u v → evolves u (takeUp_done requester v).
Proof. unfold takeUp_done. intros Hv%ev_unbusy. cbv zeta. generalize dependent (unbusy v). follow. Qed.
End open_operations.

#[export] Hint Resolve ev_open_failed ev_openDirect_answered ev_open_placement ev_open_ready ev_open_statted
  ev_open_truncated ev_open_reached ev_openTemp_answered ev_open_done ev_admit ev_refuse ev_receive ev_notResumed
  ev_takeUp_failed ev_look_worker ev_look_statted ev_look_truncated ev_takeUp ev_takeUp_reached
  ev_takeUp_done : transfer.

(** What a message says Replace of. *)
Definition asked (u : Upload) (e : Ev) (id : nat) : Prop :=
  match e with
  | Resolve _ _ scope replace => match scoped u scope with Some items => id ∈ items | None => False end
  | _ => False
  end.

Lemma walk_shapes u' u fuel id : shapes u' = shapes u → walk (u_items u') fuel id = walk (u_items u) fuel id.
Proof.
  intros Hs. revert id. induction fuel as [|fuel IH]; intros id; [done|]. cbn [walk].
  pose proof (shapes_lookup _ _ id Hs) as H.
  destruct (u_items u' !! id) as [it'|], (u_items u !! id) as [it|]; simplify_eq/=; [|done].
  f_equal. assert (i_children it' = i_children it) as -> by (unfold shape in H; congruence).
  apply list_bind_ext; [|done]. exact IH.
Qed.
Lemma scoped_shapes u' u scope : shapes u' = shapes u → scoped u' scope = scoped u scope.
Proof.
  intros Hs. unfold scoped, ids. rewrite (shapes_length _ _ Hs). destruct scope as [|id|]; [done| |done].
  by rewrite (walk_shapes u' u).
Qed.

Section steps.
Context (allowed : nat → Prop) (toUpperCase : text → text).
Notation evolves := (evolves allowed).
Implicit Types (u v : Upload) (w : World).

Lemma ev_for_each_in f ids u v :
  (∀ id x, id ∈ ids → evolves u x → evolves u (f id x)) → evolves u v → evolves u (for_each f ids v).
Proof.
  unfold for_each. revert v. induction ids as [|id ids IH]; intros v Hf Hv; [done|].
  cbn [fold_left]. apply IH; [|by apply Hf; [left|]]. intros i w Hi. apply Hf. by right.
Qed.
Lemma ev_resolve_item action id u v :
  (action = replace → allowed id) → evolves u v → evolves u (resolve_item action id v).
Proof.
  intros Ha Hv. unfold resolve_item. destruct (u_items v !! id) as [it|]; [|done].
  case_bool_decide; [done|]. destruct (_ && _); [done|].
  assert (evolves u (on_item id (λ it, it <{ i_resolution := Some action }>) v)) as Hr by (by apply ev_resolution).
  destruct action; follow.
Qed.
Lemma ev_controlled w requester sends act u v :
  (∀ x, evolves u x → evolves u (act x)) → evolves u v → evolves u (controlled w requester sends act v).
Proof. unfold controlled. follow. Qed.
Lemma ev_resolve w requester scope action u v :
  (∀ id, asked v (Resolve w requester scope action) id → allowed id) →
  evolves u v → evolves u (resolve w requester scope action v).
Proof.
  intros Ha Hv. unfold resolve, controlled, with_scope. destruct (control_problem _ _ _ _); [follow|].
  unfold asked in Ha. destruct (scoped v scope) as [items|]; [|follow]. destruct (_ && _); [follow|].
  apply ev_schedulePump, ev_settle, ev_for_each_in; [|done]. intros id x Hid. apply ev_resolve_item.
  intros ->. by apply Ha.
Qed.
Lemma ev_requeue_and_go again u v : evolves u v → evolves u (requeue_and_go again v).
Proof. unfold requeue_and_go. follow. Qed.
#[local] Hint Resolve ev_requeue_and_go : transfer.
Lemma ev_retry w requester scope isConnected u v :
  evolves u v → evolves u (retry w requester scope isConnected v).
Proof. unfold retry. intros Hv. apply ev_controlled; [|done]. intros x Hx. unfold with_scope. follow. Qed.
Lemma ev_cancel w requester scope u v : evolves u v → evolves u (cancel w requester scope v).
Proof.
  unfold cancel. intros Hv. apply ev_controlled; [|done]. intros x Hx. unfold with_scope, cancel_item. follow.
Qed.
Lemma ev_clientGone client u v : evolves u v → evolves u (clientGone client v).
Proof. unfold clientGone. follow. Qed.
Lemma ev_interruptOn u v : evolves u v → evolves u (interruptOn v).
Proof. unfold interruptOn. follow. Qed.
Lemma ev_resumeDropped u v : evolves u v → evolves u (resumeDropped v).
Proof. unfold resumeDropped. follow. Qed.
Lemma ev_join requester u v : evolves u v → evolves u (join requester v).
Proof. unfold join. follow. Qed.
Lemma ev_drop u v : evolves u v → evolves u (drop v).
Proof. apply ev_change, ch_drop. Qed.

(** *** The pump *)
Lemma ev_pump_queue fuel limit source u s :
  evolves u s.2 → evolves u (pump_queue fuel limit source s).2.
Proof.
  revert s. induction fuel as [|fuel IH]; intros [counts v] Hv; [done|]. cbn [pump_queue].
  destruct (u_queue v) as [|id queue] eqn:Hqueue; [done|]. case_decide; [|done]. apply IH.
  assert (evolves u (v <{ u_queue := queue }>)) as Hq.
  { revert Hv. apply ev_kept. split; try done; [intros; by left|].
    intros i Hi. left. simpl. rewrite Hqueue. by right. }
  destruct (u_items _ !! id) as [it|]; [|done]. case_bool_decide; [done|].
  destruct (i_tempWhole it); cbn [snd]; auto with transfer.
Qed.
Lemma ev_pump_upload w counts u v : evolves u v → evolves u (pump_upload w counts v).2.
Proof.
  intros Hv. unfold pump_upload. cbv zeta.
  assert (evolves u (if bool_decide (u_folderQueue v ≠ []) && negb (u_creatingFolders v)
    then createFolders v else v)) as H by (destruct (_ && _); auto with transfer).
  generalize dependent (if bool_decide (u_folderQueue v ≠ []) && negb (u_creatingFolders v)
    then createFolders v else v). clear v Hv. intros v Hv.
  destruct (u_source v); [|done]. destruct (sourceMayWrite w v); [|done]. by apply ev_pump_queue.
Qed.

(** *** Answers *)
Lemma ev_reached next b random u v : evolves u v → evolves u (reached toUpperCase next b random v).
Proof. unfold reached. destruct next; follow. Qed.
Lemma ev_not_reached next e u v : evolves u v → evolves u (not_reached next e v).
Proof. unfold not_reached. destruct next; follow. Qed.
#[local] Hint Resolve ev_reached ev_not_reached : transfer.
Lemma ev_adopt next b random u v : evolves u v → evolves u (adopt toUpperCase next b random v).
Proof. unfold adopt. follow. Qed.
#[local] Hint Resolve ev_adopt : transfer.
Lemma ev_or_else {A} failed (ok : A → Upload → Upload) r u v :
  (∀ e, evolves u (failed e v)) → (∀ a, evolves u (ok a v)) → evolves u (or_else failed ok r v).
Proof. destruct r; simpl; auto. Qed.
#[local] Hint Resolve ev_or_else : transfer.
Lemma ev_go_on k a random f u v :
  (∀ id, chunk_of k = Some id → i_kind <$> u_items v !! id = Some file) →
  go_on toUpperCase k a random = Some f → evolves u v → evolves u (f v).
Proof.
  intros Hk Hf Hv. destruct k, a; cbn [go_on] in Hf; try discriminate Hf;
    repeat match type of Hf with context [match ?x with _ => _ end] => destruct x end;
    try discriminate Hf; injection Hf as <-;
    lazymatch goal with
    | |- context [receive_opened] => apply ev_receive_opened; [by apply Hk|done]
    | |- context [write_answered] => apply ev_write_answered; [by apply Hk|done]
    | _ => solve [follow]
    end.
Qed.
Lemma pending_at_in u n k : pending_at u n = Some k → ∃ p, p ∈ u_pending u ∧ p.2 = k.
Proof.
  unfold pending_at. destruct (find _ _) as [p|] eqn:Hp; [|done]. intros [= <-].
  apply find_some in Hp as [Hp _]. exists p. by rewrite list_elem_of_In.
Qed.
Lemma ev_answered rank n a random u :
  inv rank u → evolves u (answered toUpperCase n a random u).
Proof.
  intros Hinv. assert (evolves u u) as Hu by (intros _; constructor). unfold answered.
  destruct (pending_at u n) as [k|] eqn:Hk; [|done]. destruct (go_on _ _ _ _) as [f|] eqn:Hf; [|done].
  destruct (enabled u k); [|done]. apply (ev_go_on k a random f); [|done|by apply ev_unwait].
  intros id Hid. destruct (pending_at_in u n k Hk) as (p & Hp & <-).
  apply (inv_chunks _ _ Hinv p id Hp Hid).
Qed.
Lemma ev_step rank u e :
  inv rank u → (∀ id, asked u e id → allowed id) → evolves u (step toUpperCase u e).
Proof.
  intros Hinv Ha. assert (evolves u u) as Hu by (intros _; constructor).
  destruct e; cbn [step]; try (destruct (negb (u_known u)); [done|]).
  - by apply ev_resolve.
  - by apply ev_retry.
  - by apply ev_cancel.
  - apply ev_controlled; [|done]. intros x. by apply ev_await.
  - apply ev_controlled; [|done]. intros x. apply ev_drop.
  - destruct (joinable _ _ _ _); [|done]. by apply ev_join.
  - by apply ev_receive.
  - by apply ev_clientGone.
  - by apply ev_interruptOn.
  - by apply ev_resumeDropped.
  - follow.
  - destruct (_ && _); [|done]. by apply ev_drop.
  - destruct (u_forgetTimer u); [|done]. revert Hu. apply ev_kept. split; try done; intros; by left.
  - follow.
  - follow.
  - apply ev_pump_upload. follow.
  - by apply ev_answered with rank.
Qed.

(** *** Starting *)
Lemma ev_look_item path entries id u s :
  evolves u s.2 → evolves u (look_item toUpperCase path entries s id).2.
Proof.
  destruct s as [next v]. unfold look_item. intros Hv. destruct (u_items v !! id) as [it|]; [|done].
  destruct (entry_of _ _ _ _) as [entry|]; [|done]. destruct (_ && _); cbn [snd]; follow.
Qed.
Lemma ev_fold_pairs {A B} (f : B * Upload → A → B * Upload) l u s :
  (∀ a s, evolves u s.2 → evolves u (f s a).2) → evolves u s.2 → evolves u (fold_left f l s).2.
Proof. intros Hf. revert s. induction l as [|a l IH]; intros s Hs; [done|]. by apply IH, Hf. Qed.
Lemma ev_look_levels listing fuel level u v :
  evolves u v → evolves u (look_levels toUpperCase listing fuel level v).
Proof.
  revert level v. induction fuel as [|fuel IH]; intros [|folder level] v Hv; try done.
  cbn [look_levels].
  assert (evolves u (fold_left (look_folder toUpperCase listing) (folder :: level) ([], v)).2) as Hq.
  { apply ev_fold_pairs; [|done]. intros x s Hs. unfold look_folder. apply ev_fold_pairs; [|done].
    intros id s'. apply ev_look_item. }
  destruct (fold_left _ _ _) as [next x]. by apply IH.
Qed.
Lemma ev_policy_item id u v : evolves u v → evolves u (policy_item id v).
Proof.
  intros Hv. unfold policy_item. destruct (u_items v !! id) as [it|]; [|done]. case_bool_decide; [|done].
  revert Hv. apply ev_with. intros Hpol _ Hv. destruct (u_onConflict v) as [|[]] eqn:Hc; [follow| |follow..].
  destruct (i_typeClash it); [follow|]. apply ev_resolution; [|done]. intros _. by apply Hpol.
Qed.
Lemma ev_prepared d requester tree order backend listing u :
  u = assemble (blank d (r_tokenId requester) (fresh_item <$> tree) order (Some (r_clientId requester))
    (Some backend)) →
  evolves u (prepared toUpperCase d requester tree order backend listing).
Proof.
  intros ->. unfold prepared. cbv zeta. set (u := assemble _).
  assert (evolves u (applyPolicy (lookAtDestination toUpperCase listing u))) as Hq.
  { apply ev_for_each; [|by apply ev_look_levels; intros _; constructor].
    intros id v. apply ev_policy_item. }
  generalize dependent (applyPolicy (lookAtDestination toUpperCase listing u)). intros v Hv. follow.
Qed.
Lemma ev_recorded stored u v : evolves u v → evolves u (recorded stored v).
Proof. unfold recorded. destruct stored; follow. Qed.
Lemma ev_begun u v : evolves u v → evolves u (v |> markAll |> enqueueReady None |> settle |> schedulePump).
Proof. unfold markAll. follow. Qed.
Lemma ev_start d requester tree order backend listing stored u :
  u = assemble (blank d (r_tokenId requester) (fresh_item <$> tree) order (Some (r_clientId requester))
    (Some backend)) →
  evolves u (start toUpperCase d requester tree order backend listing stored).
Proof. intros Hu. by apply ev_begun, ev_recorded, ev_prepared. Qed.
End steps.
