(* ===== verification/TransferProps.v ===== *)
(** * What holds of an upload however its steps interleave

    Its counts are those of its items ([counts_exact]), nothing is replaced unasked
    ([replaces_only_when_asked]), and the walks over its tree end where they should
    ([tree_walks_end]). *)

From S2P Require Import Prelude JsMap Text HostPaths UploadTree TransferItems TransferFlow TransferCounts TransferOps.
#[local] Open Scope lasterm_scope.

(** ** The fuel of the walks down the tree is enough *)

Lemma op_shapes (f : Upload → Upload) u :
  (∀ u v, evolves (λ _, True) u v → evolves (λ _, True) u (f v)) → shapes (f u) = shapes u.
Proof.
  intros Hf. eapply changes_shapes. apply (Hf u u); [by intros _|done].
Qed.
Lemma for_each_ext (f g : nat → Upload → Upload) ids u :
  (∀ c v, c ∈ ids → shapes v = shapes u → f c v = g c v ∧ shapes (f c v) = shapes v) →
  for_each f ids u = for_each g ids u.
Proof.
  intros H. unfold for_each.
  assert (∀ v, shapes v = shapes u → fold_left (λ u id, f id u) ids v = fold_left (λ u id, g id u) ids v)
    as Hv; [|by apply Hv].
  induction ids as [|c ids IH]; intros v Hs; [done|]. cbn [fold_left].
  destruct (H c v) as [<- Hs']; [by left|done|]. apply IH; [|by rewrite Hs'].
  intros c' w Hc'. apply H. by right.
Qed.

Section fuel.
Context (rank : nat → nat).
Implicit Types (u : Upload).

(** A walk that goes on below with what is left of its fuel: [body] is what it does at an item,
    [below] which children it goes to. *)
Context (walk_down : nat → nat → Upload → Upload).
Context (at_item : nat → Item → Upload → Upload) (children : Item → list nat) (below : Item → bool).
Context (walk_0 : ∀ id u, walk_down 0 id u = u).
Context (walk_S : ∀ fuel id u, walk_down (S fuel) id u =
  match u_items u !! id with
  | Some it =>
      for_each (λ c u, match u_items u !! c with
                       | Some child => if below child then walk_down fuel c u else u
                       | None => u
                       end) (children it) (at_item id it u)
  | None => u
  end).
Context (at_item_shapes : ∀ id it u, shapes (at_item id it u) = shapes u).
Context (children_of : ∀ it c, c ∈ children it → c ∈ i_children it).

Lemma walk_down_shapes fuel id u : shapes (walk_down fuel id u) = shapes u.
Proof.
  revert id u. induction fuel as [|fuel IH]; intros id u; [by rewrite walk_0|]. rewrite walk_S.
  destruct (u_items u !! id) as [it|]; [|done]. rewrite <- (at_item_shapes id it u).
  apply (for_each_ind shapes). intros c v. destruct (u_items v !! c) as [child|]; [|done].
  by destruct (below child).
Qed.
Lemma walk_down_fuel k1 k2 id u :
  tree_ok (u_items u) rank → length (u_items u) - rank id <= k1 → length (u_items u) - rank id <= k2 →
  id < length (u_items u) → walk_down k1 id u = walk_down k2 id u.
Proof.
  revert k2 id u. induction k1 as [|k1 IH]; intros k2 id u Hok H1 H2 Hid;
    pose proof (tk_rank _ _ Hok id Hid); [lia|]. destruct k2 as [|k2]; [lia|].
  rewrite !walk_S. destruct (u_items u !! id) as [it|] eqn:Hit; [|done].
  apply for_each_ext. intros c v Hc Hs. rewrite at_item_shapes in Hs.
  destruct (child_rank _ _ Hok id it c Hit (children_of it c Hc)) as [_ Hr].
  destruct (u_items v !! c) as [child|] eqn:Hch; [|done]. destruct (below child); [|done].
  split; [|apply walk_down_shapes]. pose proof (shapes_length _ _ Hs) as Hlen.
  apply IH; [by eapply tree_ok_shapes|rewrite Hlen; lia..|by eapply lookup_lt_Some].
Qed.
End fuel.

(** ** The counts at the start *)

Lemma one_more_exact m l s : states_exact m l → states_exact (one_more s m) (l ++ [s]).
Proof.
  intros Hm x. unfold one_more. rewrite js_lookup_insert, (Hm s), default_count, count_of_occurrences,
    occurrences_app, occurrences_cons.
  destruct (decide (s = x)) as [->|].
  - by rewrite !Nat.add_1_r.
  - by rewrite (Hm x), Nat.add_0_r.
Qed.

Definition count_file (it : Item) (t : Totals) : Totals :=
  t <{ t_files ::= S }> <{ t_bytes ::= λ b, (b + i_size it)%Z }>
    <{ t_acked ::= λ a, (a + i_acked it)%Z }> <{ t_states ::= one_more (i_state it) }>.
Lemma count_file_exact it t l : totals_exact t l → totals_exact (count_file it t) (l ++ [it]).
Proof.
  intros [Hf Hb Ha Hs]. split; simpl.
  - rewrite length_app, Hf. simpl. lia.
  - rewrite total_app, Hb. simpl. lia.
  - rewrite total_app, Ha. simpl. lia.
  - rewrite fmap_app. by apply one_more_exact.
Qed.
Lemma empty_exact : totals_exact emptyTotals [].
Proof. by split. Qed.

Lemma count_folders u l :
  Forall (λ it, i_kind it = dir) l → u_folderTotals u = ∅ → u_folderStates u = ∅ →
  let u' := fold_left (λ u it, count_item it u) l u in
  u_items u' = u_items u ∧ u_totals u' = u_totals u ∧ u_known u' = u_known u ∧ u_pending u' = u_pending u ∧
  states_exact (u_folderStates u') (i_state <$> l) ∧
  ∀ it, it ∈ l → u_folderTotals u' !! i_id it = Some emptyTotals.
Proof.
  intros Hl Hft Hfs. induction l as [|it l IH] using rev_ind; cbv zeta.
  { cbn [fold_left]. split_and!; try done; [by rewrite Hfs|]. intros it Hit. by inversion Hit. }
  apply Forall_app in Hl as [Hl [Hk _]%Forall_cons]. rewrite fold_left_app. cbn [fold_left].
  destruct (IH Hl) as (Hi & Ht & Hkn & Hp & Hs & Hm). set (v := fold_left _ l u) in *. cbv zeta in *.
  unfold count_item. rewrite Hk. split_and!; try done.
  - rewrite fmap_app. by apply one_more_exact.
  - intros x. simpl. rewrite js_lookup_insert. case_decide; [done|].
    intros [Hx|Hx%list_elem_of_singleton]%elem_of_app; [by apply Hm|by subst].
Qed.
Lemma count_files u l rank :
  tree_ok (u_items u) rank → Forall (λ it, i_kind it = file) l → u_totals u = emptyTotals →
  let u' := fold_left (λ u it, count_item it u) l u in
  u_items u' = u_items u ∧ u_known u' = u_known u ∧ u_pending u' = u_pending u ∧
  u_folderStates u' = u_folderStates u ∧ totals_exact (u_totals u') l ∧
  ∀ f, u_folderTotals u !! f = Some emptyTotals →
    ∃ t, u_folderTotals u' !! f = Some t ∧ totals_exact t (filter (λ it, f ∈ foldersAbove u it) l).
Proof.
  intros Hok Hl Ht. induction l as [|it l IH] using rev_ind; cbv zeta.
  { cbn [fold_left]. split_and!; try done; [by rewrite Ht|]. intros f Hf. exists emptyTotals. by rewrite Hf. }
  apply Forall_app in Hl as [Hl [Hk _]%Forall_cons]. rewrite fold_left_app. cbn [fold_left].
  destruct (IH Hl) as (Hi & Hkn & Hp & Hs & Htot & Hm). set (v := fold_left _ l u) in *. cbv zeta in *.
  unfold count_item. rewrite Hk. fold (count_file it). split_and!; try done.
  - simpl. by apply count_file_exact.
  - intros f Hf. destruct (Hm f Hf) as (t & Hlook & Hex). cbn [u_folderTotals on_totalsAbove set_field
      set_u_folderTotals set_u_totals].
    assert (shapes v = shapes u) as Hsh by (unfold shapes; by rewrite Hi).
    rewrite (fold_above u _ rank it (count_file it) _ f Hok) by exact Hsh. rewrite filter_app, Hlook.
    case_decide as Hin; simpl; eexists; (split; [done|]).
    + rewrite filter_cons_True by done. by apply count_file_exact.
    + rewrite filter_cons_False by done. by rewrite app_nil_r.
Qed.

Lemma assemble_counts u rank :
  tree_ok (u_items u) rank → u_totals u = emptyTotals → u_folderTotals u = ∅ → u_folderStates u = ∅ →
  let u' := assemble u in
  u_items u' = u_items u ∧ u_known u' = u_known u ∧ u_pending u' = u_pending u ∧ counts_of_items u'.
Proof.
  intros Hok Ht Hft Hfs. unfold assemble. cbv zeta. rewrite fold_left_app.
  destruct (count_folders u (filter (λ it, i_kind it = dir) (u_items u))) as (Hi & Ht' & Hk & Hp & Hs & Hm);
    [by apply Forall_forall; intros x [Hx _]%list_elem_of_filter|done|done|].
  set (v := fold_left _ _ u) in *. cbv zeta in *.
  destruct (count_files v (filter (λ it, i_kind it = file) (u_items u)) rank)
    as (Hi' & Hk' & Hp' & Hs' & Htot & Hm'); [by rewrite Hi|by apply Forall_forall; intros x [Hx _]%list_elem_of_filter|by rewrite Ht'|].
  set (w := fold_left _ _ v) in *. cbv zeta in *. rewrite Hi', Hk', Hp'. split_and!; [done..|].
  assert (shapes v = shapes u) as Hsv by (unfold shapes; by rewrite Hi).
  split; unfold all_files, folders, files_under; rewrite ?Hi', ?Hi, ?Hs'; [done..|].
  intros f it Hf Hd. assert (i_id it = f) as Hid by (by eapply tk_id).
  destruct (Hm' f) as (t & Hlook & Hex).
  { rewrite <- Hid. apply Hm, list_elem_of_filter. split; [done|by eapply list_elem_of_lookup_2]. }
  exists t. split; [done|]. rewrite list_filter_filter in Hex.
  erewrite list_filter_iff; [exact Hex|]. intros x. simpl.
  assert (shapes w = shapes v) as Hsw by (unfold shapes; by rewrite Hi').
  rewrite (foldersAbove_ext w v x x Hsw eq_refl). tauto.
Qed.

Lemma assemble_keeps {A} (g : Upload → A) u :
  (∀ it u, g (count_item it u) = g u) → g (assemble u) = g u.
Proof.
  intros Hg. unfold assemble. generalize (filter (λ it, i_kind it = dir) (u_items u) ++
    filter (λ it, i_kind it = file) (u_items u)). intros l.
  induction l as [|it l IH] using rev_ind; [done|]. rewrite fold_left_app. cbn [fold_left]. by rewrite Hg.
Qed.
Lemma assemble_queue u : u_queue (assemble u) = u_queue u.
Proof. apply assemble_keeps. intros it v. unfold count_item. by destruct (i_kind it). Qed.

Definition rank_in (order : list nat) (i : nat) : nat := default 0 (fst <$> list_find (λ j, j = i) order).
Lemma rank_in_lookup order i : i ∈ order → order !! rank_in order i = Some i.
Proof.
  intros Hi. unfold rank_in. destruct (list_find_elem_of (λ j, j = i) order i Hi eq_refl) as [[k j] Hk].
  rewrite Hk. simpl. apply list_find_Some in Hk as (Hk & -> & _). done.
Qed.

(** An upload of a tree that was checked and built. *)
Section started.
Context (toUpperCase : text → text) (digest : list Parsed → text) (Hupper : upper_by_name toUpperCase).
Context (d : Destination) (raw : list RawItem) (tree : list TreeItem) (order : list nat).
Context (files : nat) (bytes : Z).
Context (Hbuilt : buildUploadTree toUpperCase digest (d_style d) (d_dir d) (Some raw) =
  Built tree order files bytes (d_signature d)).

Lemma built_tree_ok : tree_ok (fresh_item <$> tree) (rank_in order).
Proof.
  destruct (build_cases toUpperCase digest (d_style d) (d_dir d) raw) as [[HS Hb]|[_ (? & ? & ? & Hb)]];
    rewrite Hbuilt in Hb; [|done].
  assert (tree_wf toUpperCase (d_style d) raw tree order) as Hwf.
  { pose proof (built_wf toUpperCase (d_style d) (d_dir d) raw Hupper HS) as Hwf. unfold built in Hb.
    injection Hb as -> -> _ _ _. exact Hwf. }
  assert (∀ i, i < length tree → order !! rank_in order i = Some i) as Hrank.
  { intros i Hi. apply rank_in_lookup. rewrite (t_order _ _ _ _ _ Hwf). apply elem_of_seq. lia. }
  split.
  - intros i it. rewrite list_lookup_fmap. destruct (tree !! i) as [t|] eqn:Ht; [|done]. intros [= <-].
    apply (t_item _ _ _ _ _ Hwf i t Ht).
  - intros i. rewrite length_fmap. intros Hi. pose proof (lookup_lt_Some _ _ _ (Hrank i Hi)) as Hlt.
    by rewrite (Permutation_length (t_order _ _ _ _ _ Hwf)), length_seq in Hlt.
  - intros i it p. rewrite list_lookup_fmap. destruct (tree !! i) as [t|] eqn:Ht; [|done]. intros [= <-] Hp.
    unfold i_parent in Hp. simpl in Hp. pose proof (t_parent _ _ _ _ _ Hwf i t Ht) as H.
    destruct (lastIndexOf SL (it_relPath t)); [|destruct H; congruence].
    destruct H as (_ & q & f & Hq & Hf & Hk & _). assert (q = p) as -> by congruence.
    exists (fresh_item f). rewrite list_lookup_fmap, Hf. split_and!; [done|done|].
    apply (t_before _ _ _ _ _ Hwf i t p); [done|done|apply Hrank|apply Hrank]; by eapply lookup_lt_Some.
  - intros i it c. rewrite !list_lookup_fmap. destruct (tree !! i) as [t|] eqn:Ht; [|done]. intros [= <-].
    unfold i_children. simpl. rewrite (t_children _ _ _ _ _ Hwf i t Ht), list_elem_of_fmap. split.
    + intros (x & -> & [Hp [j Hx]%list_elem_of_lookup]%list_elem_of_filter).
      destruct (t_item _ _ _ _ _ Hwf j x Hx) as (-> & _). exists (fresh_item x). by rewrite Hx.
    + intros (ch & Hch & Hp). destruct (tree !! c) as [x|] eqn:Hx; [|done]. injection Hch as <-.
      exists x. split; [by destruct (t_item _ _ _ _ _ Hwf c x Hx) as (-> & _)|].
      apply list_elem_of_filter. split; [done|by eapply list_elem_of_lookup_2].
Qed.

Context (requester : TransferRequester) (backend : UploadBackend) (listing : text → list FileEntry).
Context (stored : bool).
Notation begun := (start toUpperCase d requester tree order backend listing stored).
Notation blanked := (blank d (r_tokenId requester) (fresh_item <$> tree) order (Some (r_clientId requester))
  (Some backend)).
Notation rank := (rank_in order).

Lemma inv_evolves allowed u v :
  evolves allowed u v → (u_onConflict u = always replace → ∀ id, allowed id) → inv rank u → inv rank v.
Proof.
  intros Hv Hp. specialize (Hv Hp). clear Hp.
  induction Hv as [|u v w Hc _ IH]; [done|]. intros Hu. apply IH. by eapply change_inv.
Qed.
Lemma assembled_inv : inv rank (assemble (blanked)).
Proof.
  destruct (assemble_counts (blanked) rank)
    as (Hi & Hk & Hp & Hc); [apply built_tree_ok|done..|].
  split; rewrite ?Hi, ?Hp, ?assemble_queue; [apply built_tree_ok|done| |by intros ? ? Hin; inversion Hin|
    by intros ? Hin; inversion Hin].
  intros id it. simpl. rewrite list_lookup_fmap. by destruct (tree !! id); intros [= <-].
Qed.
Lemma begun_inv : inv rank begun.
Proof.
  eapply (inv_evolves (λ _, True)); [by apply ev_start|done|apply assembled_inv].
Qed.
Lemma run_inv es : inv rank (run (step toUpperCase) begun es).
Proof.
  apply (run_invariant _ (λ _, True)); [|by apply Forall_true|apply begun_inv].
  intros u e _ Hu. by eapply (inv_evolves (λ _, True)); [eapply ev_step|..].
Qed.
End started.

(** What the host was told to replace, and what the items are resolved to. *)
Definition replaces_ok (allowed : nat → Prop) (u : Upload) : Prop :=
  (∀ id, resolution_of u id = Some replace → allowed id) ∧
  (∀ id, id ∈ omap is_replace (u_log u) → allowed id).

(** The three walks. *)
Definition at_skipped (id : nat) (it : Item) (u : Upload) : Upload :=
  let u := u |> on_item id (λ it, it <{ i_outcome := Some out_skipped }>) |> setState id skipped in
  match i_kind it with
  | file =>
      let u := restartFile id u in
      match i_temp it, u_backend u with
      | Some temp, Some _ => ask_host (c_remove temp) u
      | _, _ => u
      end
  | dir => u
  end.
Definition at_stopped (id : nat) (it : Item) (u : Upload) : Upload :=
  let u := u |> on_item id (λ it, it <{ i_sink := None }>) |> setState id cancelled
             |> on_item id (λ it, it <{ i_reason := None }>) in
  match i_kind it with
  | dir => u
  | file => if i_writing it then u else afterStop id (i_sink it) (k_afterStop id) u
  end.
Definition children_of_folder (it : Item) : list nat :=
  match i_kind it with dir => i_children it | file => [] end.
Lemma children_of_folder_in it c : c ∈ children_of_folder it → c ∈ i_children it.
Proof. unfold children_of_folder. destruct (i_kind it); [by intros ?%elem_of_nil|done]. Qed.

Lemma for_each_choice (P : Item → bool) f ids u :
  for_each (λ c u, match u_items u !! c with
                   | Some child => if P child then u else f c u
                   | None => u
                   end) ids u =
  for_each (λ c u, match u_items u !! c with
                   | Some child => if negb (P child) then f c u else u
                   | None => u
                   end) ids u.
Proof.
  unfold for_each. revert u. induction ids as [|c ids IH]; intros u; [done|]. cbn [fold_left]. rewrite IH.
  f_equal. destruct (u_items u !! c) as [child|]; [|done]. by destruct (P child).
Qed.

Section walks.
Context (rank : nat → nat) (u : Upload) (id : nat) (k : nat).
Context (Hok : tree_ok (u_items u) rank) (Hid : id < length (u_items u)).
Notation n := (length (u_items u)).

Lemma skip_fuel : skip (n + k) id u = skip n id u.
Proof.
  apply (walk_down_fuel rank skip at_skipped children_of_folder (λ it, negb (is_placed_or_skipped (i_state it))));
    [done| |..|done|lia|lia|done].
  - intros fuel i v. cbn [skip]. destruct (u_items v !! i) as [it|]; [|done]. rewrite <- for_each_choice.
    unfold at_skipped, children_of_folder. by destruct (i_kind it).
  - intros i it v. apply op_shapes. intros x y. unfold at_skipped. follow.
  - apply children_of_folder_in.
Qed.
Lemma stopItem_fuel : stopItem (n + k) id u = stopItem n id u.
Proof.
  apply (walk_down_fuel rank stopItem at_stopped children_of_folder
    (λ it, bool_decide (i_state it ∈ [queued; conflict; interrupted; sending])));
    [done| |..|done|lia|lia|done].
  - intros fuel i v. cbn [stopItem]. destruct (u_items v !! i) as [it|]; [|done].
    unfold at_stopped, children_of_folder. by destruct (i_kind it).
  - intros i it v. apply op_shapes. intros x y. unfold at_stopped, afterStop. follow.
  - apply children_of_folder_in.
Qed.

Definition at_failed (code reason : text) (i : nat) (_ : Item) (v : Upload) : Upload :=
  v |> on_item i (λ it, it <{ i_code := Some code }> <{ i_reason := Some reason }>) |> setState i failed.
Definition fails_below (it : Item) : bool := bool_decide (i_state it ∈ [queued; conflict]).
Lemma failSubtree_below code k1 k2 i v :
  tree_ok (u_items v) rank → length (u_items v) - rank i <= k1 → length (u_items v) - rank i <= k2 →
  i < length (u_items v) →
  failSubtree k1 i code FOLDER_FAILED v = failSubtree k2 i code FOLDER_FAILED v.
Proof.
  apply (walk_down_fuel rank (λ fuel i, failSubtree fuel i code FOLDER_FAILED) (at_failed code FOLDER_FAILED)
    i_children fails_below); [done| |..|done].
  - intros fuel j w. cbn [failSubtree]. by destruct (u_items w !! j).
  - intros j it w. apply op_shapes. intros x y. unfold at_failed. follow.
Qed.
Lemma failSubtree_fuel code reason : failSubtree (n + k) id code reason u = failSubtree n id code reason u.
Proof.
  pose proof (tk_rank _ _ Hok id Hid). destruct n as [|m] eqn:Hn; [lia|]. cbn [failSubtree Nat.add].
  destruct (u_items u !! id) as [it|] eqn:Hit; [|done]. apply for_each_ext. intros c v Hc Hs.
  change (shapes v = shapes (at_failed code reason id it u)) in Hs.
  rewrite (op_shapes (at_failed code reason id it)) in Hs by (intros x y; unfold at_failed; follow).
  destruct (child_rank _ _ Hok id it c Hit Hc) as [_ Hr]. pose proof (shapes_length _ _ Hs) as Hlen.
  destruct (u_items v !! c) as [child|] eqn:Hch; [|done]. destruct (bool_decide _); [|done]. split.
  - apply failSubtree_below; [by eapply tree_ok_shapes|lia..|by eapply lookup_lt_Some].
  - apply op_shapes. intros x y. apply ev_failSubtree.
Qed.
End walks.

(** ** The properties *)

Section properties.
Context (toUpperCase : text → text) (digest : list Parsed → text) (Hupper : upper_by_name toUpperCase).
Context (d : Destination) (raw : list RawItem) (tree : list TreeItem) (order : list nat).
Context (files : nat) (bytes : Z).
Context (Hbuilt : buildUploadTree toUpperCase digest (d_style d) (d_dir d) (Some raw) =
  Built tree order files bytes (d_signature d)).
Context (requester : TransferRequester) (backend : UploadBackend) (listing : text → list FileEntry).
Context (stored : bool).
Notation begun := (start toUpperCase d requester tree order backend listing stored).
Notation blanked := (blank d (r_tokenId requester) (fresh_item <$> tree) order (Some (r_clientId requester))
  (Some backend)).

Lemma counted_none u s :
  counts_of_items u →
  default 0 (t_states (u_totals u) !! s) + default 0 (u_folderStates u !! s) = 0 ↔
  ∀ it, it ∈ u_items u → i_state it ≠ s.
Proof.
  intros [Ha Hf _]. rewrite (te_states _ _ Ha s), (Hf s), !default_count, Nat.eq_add_0, !occurrences_none.
  unfold all_files, folders. rewrite !list_elem_of_fmap. split.
  - intros [H1 H2] it Hit <-. destruct (i_kind it) eqn:Hk; [apply H1|apply H2];
      exists it; by rewrite list_elem_of_filter.
  - intros H. split; intros (it & -> & [_ Hit]%list_elem_of_filter); by eapply H.
Qed.
Lemma settled_iff u :
  counts_of_items u →
  isSettled u = true ↔ u_busy u = 0 ∧ ∀ it, it ∈ u_items u → i_state it ∉ UNSETTLED.
Proof.
  intros Hc. unfold isSettled. rewrite andb_true_iff, !bool_decide_eq_true.
  assert (∀ l, counted u l = 0 ↔ ∀ it, it ∈ u_items u → i_state it ∉ l) as ->; [|done].
  induction l as [|s l IH]; unfold counted in *; simpl.
  { split; [intros _ it _ Hin; by inversion Hin|done]. }
  rewrite Nat.eq_add_0, IH, (counted_none u s Hc). setoid_rewrite not_elem_of_cons. naive_solver.
Qed.

(** C21: What an upload says of itself is true. However the messages of the windows, the turns of the
    pump, the host's answers and its lost links interleave, while the hub has the upload, its counts
    are those of its items: in all, of the folders, and of each folder, whose count is over every
    file anywhere under it, how many files there are, their bytes, the bytes acknowledged, and how
    many are in each state; and it is said to be done only when nothing is under way and no item is
    left to send, answer or place. *)
Theorem counts_exact es :
  let u := run (step toUpperCase) begun es in
  u_known u = true →
  counts_of_items u ∧
  (∀ f i it, u_items u !! i = Some it → f ∈ foldersAbove u it ↔ inside (u_items u) f i) ∧
  (isSettled u = true ↔ u_busy u = 0 ∧ ∀ it, it ∈ u_items u → i_state it ∉ UNSETTLED).
Proof.
  intros u Hk. assert (inv (rank_in order) u) as Hinv by (by eapply run_inv).
  pose proof (inv_counts _ _ Hinv Hk) as Hc. split_and!; [done| |by apply settled_iff].
  intros f i it Hi. pose proof (inv_tree _ _ Hinv) as Hok. unfold foldersAbove.
  rewrite (folders_up_inside _ _ Hok).
  - split.
    + intros (p & Hp & [->|Hf]); [by eapply in_folder|by eapply in_above].
    + intros Hin. inversion Hin as [? x Hx|? x ? Hx]; subst; assert (x = it) as -> by congruence; eauto.
  - intros p Hp. destruct (tk_parent _ _ Hok i it p Hi Hp) as (x & Hx & _ & _).
    apply (tk_rank _ _ Hok). by eapply lookup_lt_Some.
Qed.

(** What every change keeps: a Replace is resolved, and told to the host, of allowed items only. *)
Lemma kept_replaces allowed u u' : upload_kept u' u → replaces_ok allowed u → replaces_ok allowed u'.
Proof.
  intros [Hi _ _ _ _ Hlog _ _ _] [Hr Hl]. split; [|by rewrite Hlog]. intros id. unfold resolution_of.
  rewrite Hi. apply Hr.
Qed.
Lemma counted_replaces allowed f id u u' :
  counted_change f id u' u → (∀ it, i_resolution (f it) = i_resolution it) →
  replaces_ok allowed u → replaces_ok allowed u'.
Proof.
  intros [Hi _ Hlog _ _ _] Hf [Hr Hl]. split; [|by rewrite Hlog]. intros i. unfold resolution_of. rewrite Hi.
  intros Hres. apply Hr. unfold resolution_of. rewrite list_lookup_alter in Hres. case_decide; [subst|done].
  destruct (u_items u !! i); [|done]. simpl in *. by rewrite <- Hf.
Qed.
Lemma item_replaces allowed id f u :
  (∀ it, item_kept (f it) it) → replaces_ok allowed u → replaces_ok allowed (on_item id f u).
Proof. intros Hf. apply (counted_replaces allowed f id u); [by split|]. intros it. apply Hf. Qed.
Lemma drop_replaces allowed u : replaces_ok allowed u → replaces_ok allowed (drop u).
Proof.
  intros [Hr Hl]. split.
  - intros id Hres. apply Hr. rewrite <- Hres. unfold resolution_of.
    assert (i_resolution <$> u_items (drop u) = i_resolution <$> u_items u) as Hd.
    { apply (drop_keeps (λ v, i_resolution <$> u_items v)); [|done..]. intros i v. unfold drop_item.
      destruct (u_items v !! i) as [it|]; [|done]. destruct (i_writing it), (i_sink it); simpl;
        (rewrite (list_fmap_alter _ _ (λ x, x)); [by apply list_alter_id|by apply Forall_forall]). }
    apply (f_equal (λ l, l !! id)) in Hd. rewrite !list_lookup_fmap in Hd.
    destruct (u_items (drop u) !! id), (u_items u !! id); simplify_eq/=; congruence.
  - intros id. rewrite (drop_keeps (λ v, omap is_replace (u_log v))); [apply Hl| |done|done|].
    + intros i v. unfold drop_item. destruct (u_items v !! i) as [it|]; [|done].
      destruct (i_writing it), (i_sink it); simpl; rewrite ?omap_app; simpl; by rewrite ?app_nil_r.
    + intros o v Ho. simpl. rewrite omap_app. simpl. by rewrite Ho, app_nil_r.
Qed.
Lemma change_replaces allowed u u' : change allowed u u' → replaces_ok allowed u → replaces_ok allowed u'.
Proof.
  intros Hch Hok. pose proof Hok as [Hr Hl].
  destruct Hch as [id s u|id k u _|id size mtime u _|id f u Hf|id f u Hf|id r u Hra|o u Ho|u u' Hk|u].
  - by eapply counted_replaces; [apply setState_change|..].
  - by eapply counted_replaces; [apply addAcked_change|..].
  - eapply kept_replaces; [apply persistItem_kept|]. by eapply counted_replaces; [apply resize_change|..].
  - apply item_replaces; [by apply file_item|done].
  - eapply kept_replaces; [apply persistItem_kept|]. by apply item_replaces.
  - split; [|done]. intros i Hres. unfold resolution_of in Hres. simpl in Hres.
    rewrite list_lookup_alter in Hres. case_decide as Hi; [subst|by apply Hr].
    destruct (u_items u !! i) as [it|]; [|done]. simpl in Hres. simplify_eq. by apply Hra.
  - split; [done|]. intros id. simpl. rewrite omap_app. simpl. intros [Hin|Hin]%elem_of_app; [by apply Hl|].
    destruct (is_replace o) as [i|]; [|by inversion Hin]. apply list_elem_of_singleton in Hin as ->.
    by apply Hr, Ho.
  - by eapply kept_replaces.
  - by apply drop_replaces.
Qed.

(** What may be replaced: what the policy, or a message among [es], says Replace of. *)
Definition said_to_replace (es : list Ev) (id : nat) : Prop :=
  d_onConflict d = always replace ∨ ∃ e, e ∈ es ∧ asked begun e id.

Lemma changes_replaces allowed u u' : rtc (change allowed) u u' → replaces_ok allowed u → replaces_ok allowed u'.
Proof. induction 1 as [|u v w Hc _ IH]; [done|]. intros Hu. by eapply IH, change_replaces. Qed.
Lemma replaces_mono (P Q : nat → Prop) u : (∀ id, P id → Q id) → replaces_ok P u → replaces_ok Q u.
Proof. intros HPQ [H1 H2]. split; auto. Qed.

Lemma assembled_blank :
  let u := assemble (blanked) in
  u_onConflict u = d_onConflict d ∧ u_items u = fresh_item <$> tree ∧ u_log u = [].
Proof.
  cbv zeta. split_and!;
    (etransitivity; [apply assemble_keeps; intros it v; unfold count_item; by destruct (i_kind it)|done]).
Qed.

Lemma begun_replaces : replaces_ok (said_to_replace []) begun ∧ u_onConflict begun = d_onConflict d.
Proof.
  destruct assembled_blank as (Hpol & Hi & Hlog).
  set (u := assemble (blanked)) in *. cbv zeta in *.
  assert (rtc (change (said_to_replace [])) u begun) as Hch.
  { apply (ev_start _ toUpperCase d requester tree order backend listing stored u eq_refl).
    intros Hp id. left. by rewrite <- Hpol. }
  split; [|by rewrite <- Hpol; eapply changes_policy]. eapply changes_replaces; [done|]. split.
  - intros id. unfold resolution_of. rewrite Hi, list_lookup_fmap. by destruct (tree !! id).
  - rewrite Hlog. intros id Hin. by inversion Hin.
Qed.

Lemma asked_shapes u v e id : shapes u = shapes v → asked u e id → asked v e id.
Proof. intros Hs. destruct e; try done. unfold asked. by rewrite (scoped_shapes u v). Qed.

Lemma run_replaces es :
  let u := run (step toUpperCase) begun es in
  replaces_ok (said_to_replace es) u ∧ u_onConflict u = d_onConflict d ∧ shapes u = shapes begun.
Proof.
  induction es as [|e es IH] using rev_ind; cbv zeta.
  { destruct begun_replaces. by split_and!. }
  destruct IH as (Hr & Hpol & Hs). rewrite run_app. set (u := run _ _ es) in *. cbv zeta in *.
  assert (rtc (change (said_to_replace (es ++ [e]))) u (step toUpperCase u e)) as Hch.
  { apply (ev_step _ toUpperCase (rank_in order)); [by eapply run_inv| |].
    - intros id Ha. right. exists e. split; [apply elem_of_app; right; by left|]. by eapply asked_shapes.
    - intros Hp id. left. by rewrite <- Hpol. }
  split_and!.
  - eapply changes_replaces; [done|]. eapply replaces_mono; [|done].
    intros id [?|(x & Hx & Ha)]; [by left|right]. exists x. split; [|done]. apply elem_of_app. by left.
  - rewrite <- Hpol. by eapply changes_policy.
  - rewrite <- Hs. by eapply changes_shapes.
Qed.

(** The walks over the tree end where they should. Skipping, cancelling or failing an item goes down
    through its folder, and what a message is about is collected, by recursion over the folders'
    children: in every state of an upload, the fuel these walks are given, one level per item, gives
    what any more fuel gives, and what is collected is exactly the item and everything under it. *)
Theorem tree_walks_end es id k code reason :
  let u := run (step toUpperCase) begun es in
  id < length (u_items u) →
  skip (length (u_items u) + k) id u = skipItem id u ∧
  stopItem (length (u_items u) + k) id u = cancelItem id u ∧
  failSubtree (length (u_items u) + k) id code reason u = failFolder id code reason u ∧
  ∃ items, scoped u (under id) = Some items ∧ ∀ i, i ∈ items ↔ i = id ∨ inside (u_items u) id i.
Proof.
  intros u Hid. assert (inv (rank_in order) u) as Hinv by (by eapply run_inv).
  pose proof (inv_tree _ _ Hinv) as Hok. split_and!.
  - by eapply skip_fuel.
  - by eapply stopItem_fuel.
  - by eapply failSubtree_fuel.
  - eexists. split; [simpl; by rewrite decide_True|]. intros i.
    apply (walk_inside _ (rank_in order)); [done|by apply lookup_lt_is_Some_2|lia].
Qed.

(** C18: Nothing is replaced unasked. Whatever the windows, the pump, the host and its errors do in
    any order, the host is told to put a file in the place of another only where the upload was
    started with the policy to replace, or a window said Replace of that file, of a folder it is
    under, or of the whole upload. *)
Theorem replaces_only_when_asked es id temp target :
  to_host (c_place id temp target true) ∈ u_log (run (step toUpperCase) begun es) →
  d_onConflict d = always replace ∨
  ∃ w r scope, Resolve w r scope replace ∈ es ∧
    match scope with
    | on_upload => True
    | under f => id = f ∨ inside (u_items begun) f id
    | no_scope => False
    end.
Proof.
  intros Hin. destruct (run_replaces es) as ([_ Hlog] & _ & _).
  destruct (Hlog id) as [?|(e & He & Ha)]; [|by left|right].
  { apply list_elem_of_omap. by eexists. }
  destruct e; try done. destruct action; try done. simpl in Ha.
  exists w, requester0, scope. split; [done|]. unfold scoped in Ha. destruct scope as [|f|]; try done.
  case_decide as Hf; [|done]. apply (walk_inside _ (rank_in order)) in Ha; [done| |by apply lookup_lt_is_Some_2|lia].
  by eapply inv_tree, begun_inv.
Qed.
End properties.

(** ** An upload of two files and two folders, one file in the place of another *)

Definition two_files : list RawItem :=
  drop_of [("a/x", "file", 3%Z); ("a", "dir", 0%Z); ("d", "file", 2%Z)].
Definition to_in (policy : TransferOnConflict) : Destination :=
  MkDestination (txt "u") (txt "c") (txt "h") (txt "/in") posix policy false (txt "aa/xd").
Definition window : TransferRequester := MkRequester (txt "w") None.
Definition all_may : World := MkWorld (λ _ _, true) (λ _, false) 2.
Definition sftp : UploadBackend := MkBackend over_sftp false.
Definition has_d (dir : text) : list FileEntry :=
  if decide (dir = txt "/in") then [MkEntry (txt "d") is_file (Some 9%Z) None None] else [].
Definition built_two : list TreeItem * list nat :=
  match buildUploadTree shout no_digest posix (txt "/in") (Some two_files) with
  | Built tree order _ _ _ => (tree, order)
  | Refused _ _ _ => ([], [])
  end.
Definition begun_two : Upload :=
  start shout (to_in ask) window built_two.1 built_two.2 sftp has_d true.

Lemma built_two_ok policy :
  buildUploadTree shout no_digest (d_style (to_in policy)) (d_dir (to_in policy)) (Some two_files) =
  Built built_two.1 built_two.2 2 5 (d_signature (to_in policy)).
Proof. by vm_compute. Qed.

(** The window says Replace of the second file, the pump starts, the folder is created, the file is
    opened, its bytes arrive, and it is put in place. *)
Definition replacing_d : list Ev :=
  [Resolve all_may window (under 2) replace; Pumped all_may ∅;
   HostAnswered 0 (a_done None) []; HostAnswered 1 (a_done None) (txt "f0");
   HostAnswered 2 (a_folders (inr [created])) []; HostAnswered 3 (a_opened (inr 7)) [];
   Chunk window 2 0 (txt "hi"); HostAnswered 4 (a_done None) []; HostAnswered 5 (a_done None) [];
   HostAnswered 6 (a_finished (inr v_size)) []; HostAnswered 7 (a_done None) [];
   HostAnswered 8 (a_placed (inr put)) []].

Lemma counts_exact_witness :
  let u := run (step shout) begun_two replacing_d in
  u_known u = true ∧ i_state <$> u_items u = [queued; placed; placed] ∧
  t_acked (u_totals u) = 2%Z ∧ counts_of_items u ∧ isSettled u = false.
Proof.
  split_and!; [by vm_compute..| |by vm_compute].
  apply (counts_exact shout no_digest shout_by_name (to_in ask) two_files built_two.1 built_two.2 2 5
    (built_two_ok ask) window sftp has_d true replacing_d). by vm_compute.
Defined.

Lemma replaces_only_when_asked_witness :
  let temp := txt "/in/.d.f0.partial" in
  to_host (c_place 2 temp (txt "/in/d") true) ∈ u_log (run (step shout) begun_two replacing_d) ∧
  (ask = always replace ∨
   ∃ w r scope, Resolve w r scope replace ∈ replacing_d ∧
     match scope with
     | on_upload => True
     | under f => 2 = f ∨ inside (u_items begun_two) f 2
     | no_scope => False
     end).
Proof.
  assert (to_host (c_place 2 (txt "/in/.d.f0.partial") (txt "/in/d") true) ∈
    u_log (run (step shout) begun_two replacing_d)) as Hin by (vm_compute; do 5 right; left).
  split; [exact Hin|].
  exact (replaces_only_when_asked shout no_digest shout_by_name (to_in ask) two_files built_two.1
    built_two.2 2 5 (built_two_ok ask) window sftp has_d true replacing_d 2 (txt "/in/.d.f0.partial")
    (txt "/in/d") Hin).
Defined.

Lemma tree_walks_end_witness :
  let u := run (step shout) begun_two (take 2 replacing_d) in
  scoped u (under 1) = Some [1; 0] ∧ i_state <$> u_items u = [queued; queued; sending] ∧
  i_state <$> u_items (skip 9 1 u) = [skipped; skipped; sending] ∧ skip 9 1 u = skipItem 1 u.
Proof.
  split_and!; [by vm_compute..|].
  exact (proj1 (tree_walks_end shout no_digest shout_by_name (to_in ask) two_files built_two.1
    built_two.2 2 5 (built_two_ok ask) window sftp has_d true (take 2 replacing_d) 1 6 [] []
    ltac:(vm_compute; lia))).
Defined.
