(* ===== verification/TransferPump.v ===== *)
(** * The pump of the uploads

    [TransferService.pump] over all the uploads: how many files of a window it lets be sent at once,
    and that it starts every one there is room for ([pump_fills]). *)

From S2P Require Import Prelude JsMap Text HostPaths UploadTree TransferItems TransferFlow TransferCounts.
From S2P Require Import TransferOps TransferProps.
#[local] Open Scope lasterm_scope.

(** The files of an upload being sent, and those of a window. *)
Definition sending_files (u : Upload) : nat :=
  length (filter (λ it, i_kind it = file ∧ i_state it = sending) (u_items u)).
Definition sending_by (client : text) (us : list Upload) : nat :=
  sum_list_with (λ u, if decide (u_source u = Some client) then sending_files u else 0) us.

Section pumping.
Context (toUpperCase : text → text).

(** An upload the service has: of a tree checked and built, after any steps. *)
Inductive live (u : Upload) : Prop :=
| is_live digest d raw tree order files bytes requester backend listing stored es :
    buildUploadTree toUpperCase digest (d_style d) (d_dir d) (Some raw) =
      Built tree order files bytes (d_signature d) →
    u = run (step toUpperCase) (start toUpperCase d requester tree order backend listing stored) es →
    u_known u = true → live u.

Lemma live_inv u : upper_by_name toUpperCase → live u → ∃ rank, inv rank u.
Proof. intros Hup [digest d raw tree order files bytes r b l s es Hb -> _]. eexists. by eapply run_inv. Qed.

(** ** What the pump's parts do to the count of files being sent *)

Lemma sending_files_counted u : counts_of_items u → sending_files u = sending_in u.
Proof.
  intros [Ha _ _]. unfold sending_in. rewrite (te_states _ _ Ha), default_count. unfold occurrences.
  unfold sending_files, all_files. induction (u_items u) as [|it l IH]; [done|].
  rewrite !filter_cons. destruct (decide (i_kind it = file)) as [Hk|Hk].
  - cbn [fmap list_fmap]. rewrite filter_cons.
    destruct (decide (i_state it = sending)); [rewrite decide_True by done|rewrite decide_False by tauto];
      simpl; by rewrite IH.
  - rewrite decide_False by tauto. exact IH.
Qed.

Lemma recount_sending s m :
  default 0 (recount queued s m !! sending) =
  (if decide (s = sending) then 1 else 0) + default 0 (m !! sending).
Proof.
  unfold recount. autorewrite with jsmap.
  assert (∀ n, (if decide (0 < n) then <[queued := n]> m else delete queued m) !! sending = m !! sending) as Hm.
  { intros n. case_decide; autorewrite with jsmap; by rewrite decide_False. }
  rewrite Hm. case_decide as Hs; [subst; rewrite Hm; simpl; lia|done].
Qed.

(** What is neither the count nor the queue. *)
Definition same_pump (u' u : Upload) : Prop :=
  sending_in u' = sending_in u ∧ u_queue u' = u_queue u ∧ u_source u' = u_source u ∧
  u_channelId u' = u_channelId u ∧ u_known u' = u_known u.
Lemma same_pump_trans u v w : same_pump u v → same_pump v w → same_pump u w.
Proof. unfold same_pump. intros (-> & -> & -> & -> & ->). done. Qed.
Lemma persist_same u : same_pump (persist u) u.
Proof. unfold persist. by destruct (u_stored u). Qed.
Lemma settle_same u : same_pump (settle u) u.
Proof.
  unfold settle. eapply same_pump_trans; [|apply persist_same]. generalize (persist u). intros v.
  by destruct (_ || _).
Qed.
Lemma backendOf_same next u : same_pump (backendOf next u) u.
Proof. unfold backendOf, releaseBackend. destruct (u_backend u) as [b|] eqn:Hb; [|done]. by destruct (b_lost b). Qed.

Lemma setState_queued id it s u :
  u_items u !! id = Some it → i_kind it = file → i_state it = queued → s ≠ queued →
  sending_in (setState id s u) = (if decide (s = sending) then 1 else 0) + sending_in u ∧
  u_queue (setState id s u) = u_queue u ∧ u_source (setState id s u) = u_source u ∧
  u_channelId (setState id s u) = u_channelId u ∧ u_known (setState id s u) = u_known u.
Proof.
  intros Hit Hk Hs Hne. unfold setState. rewrite Hit. cbv zeta. rewrite Hs, decide_False, Hk by congruence.
  unfold persistItem, sending_in. destruct (u_stored _); split_and!; first [apply recount_sending|done].
Qed.
Lemma settleNow_same u : same_pump (settleNow u) u.
Proof.
  unfold settleNow. eapply same_pump_trans; [|apply persist_same]. generalize (persist u). by intros v.
Qed.
Lemma on_item_same id f u : same_pump (on_item id f u) u.
Proof. done. Qed.
Lemma admit_queued id it u :
  u_items u !! id = Some it → i_kind it = file → i_state it = queued →
  sending_in (admit_file id u) = S (sending_in u) ∧ u_queue (admit_file id u) = u_queue u ∧
  u_source (admit_file id u) = u_source u ∧ u_known (admit_file id u) = u_known u.
Proof.
  intros Hit Hk Hs. destruct (setState_queued id it sending u Hit Hk Hs) as (H1 & H2 & H3 & _ & H4); [done|].
  rewrite decide_True in H1 by done.
  assert (same_pump (admit_file id u) (setState id sending u)) as (E1 & E2 & E3 & _ & E4); [|by rewrite E1, E2, E3, E4].
  unfold admit_file. cbv zeta. generalize (setState id sending u). intros v.
  eapply same_pump_trans; [apply settleNow_same|]. eapply same_pump_trans; [apply backendOf_same|].
  apply on_item_same.
Qed.
Lemma busy_same u : same_pump (u <{ u_busy ::= S }>) u.
Proof. done. Qed.
Lemma place_queued id it u :
  u_items u !! id = Some it → i_kind it = file → i_state it = queued → same_pump (place id u) u.
Proof.
  intros Hit Hk Hs. unfold place. case_bool_decide; [done|].
  destruct (setState_queued id it verifying u Hit Hk Hs) as (H1 & H2 & H3 & H4); [done|].
  rewrite decide_False in H1 by done. cbv zeta.
  eapply same_pump_trans; [apply backendOf_same|]. eapply same_pump_trans; [apply busy_same|].
  eapply same_pump_trans; [apply settle_same|done].
Qed.
Lemma folders_done_same u : same_pump (folders_done u) u.
Proof.
  unfold folders_done, schedulePump, unbusy.
  assert (∀ v, same_pump (v <{ u_pump := true }>) v) as Hp by done.
  eapply same_pump_trans; [apply Hp|]. eapply same_pump_trans; [apply settle_same|done].
Qed.
Lemma createFolders_same u : same_pump (createFolders u) u.
Proof.
  unfold createFolders.
  assert (∀ v, same_pump (folders_next v) v) as Hn.
  { intros v. unfold folders_next. destruct (u_folderQueue v); [apply folders_done_same|].
    eapply same_pump_trans; [apply backendOf_same|done]. }
  eapply same_pump_trans; [apply Hn|done].
Qed.

(** ** The loop *)

(** What the counts of the pump say, before and after an upload's turn. *)
Record turn (source : text) (limit : nat) (counts counts' : jsmap text nat) (u u' : Upload) : Prop := {
  turn_source : u_source u' = u_source u;
  turn_known : u_known u' = u_known u;
  turn_counts : sending_of counts' source + sending_in u = sending_of counts source + sending_in u';
  turn_more : sending_in u <= sending_in u';
  turn_others c : c ≠ source → sending_of counts' c = sending_of counts c;
  turn_bound : sending_of counts' source <= Nat.max (sending_of counts source) limit
}.

Lemma pump_queue_turn fuel limit source counts u :
  (∀ id, id ∈ u_queue u → i_kind <$> u_items u !! id = Some file) → length (u_queue u) <= fuel →
  let s := pump_queue fuel limit source (counts, u) in
  turn source limit counts s.1 u s.2 ∧ (u_queue s.2 = [] ∨ limit <= sending_of s.1 source).
Proof.
  revert counts u. induction fuel as [|fuel IH]; intros counts u Hfiles Hlen; cbv zeta;
    cbn [pump_queue fst snd].
  { split; [split; cbn [fst snd]; try done; lia|]. left. destruct (u_queue u); [done|simpl in Hlen; lia]. }
  destruct (u_queue u) as [|id queue] eqn:Hq; [split; [split; cbn [fst snd]; try done; lia|by left]|].
  destruct (decide (sending_of counts source < limit)) as [Hroom|Hfull];
    [|split; [split; cbn [fst snd]; try done; lia|right; simpl; lia]].
  cbv zeta. set (v := u <{ u_queue := queue }>).
  assert (same_pump v v ∧ u_queue v = queue ∧ sending_in v = sending_in u ∧ u_source v = u_source u)
    as (_ & Hqv & Hsv & Hsrc) by done.
  assert (∀ x, shapes x = shapes v → u_queue x = queue →
    ∀ i, i ∈ u_queue x → i_kind <$> u_items x !! i = Some file) as Hkeep.
  { intros x Hs Hx i. rewrite Hx, (shapes_kind _ _ i Hs). intros Hi. apply Hfiles. by right. }
  simpl in Hlen.
  assert (∀ counts1 v1, shapes v1 = shapes v → u_queue v1 = queue → turn source limit counts counts1 u v1 →
    let s := pump_queue fuel limit source (counts1, v1) in
    turn source limit counts s.1 u s.2 ∧ (u_queue s.2 = [] ∨ limit <= sending_of s.1 source)) as Hgo.
  { intros counts1 v1 Hs1 Hq1 [T1 Tk T2 T3 T4 T5].
    destruct (IH counts1 v1) as [[R1 Rk R2 R3 R4 R5] Hend]; [by apply Hkeep|rewrite Hq1; lia|].
    split; [|exact Hend]. split; [congruence..|lia|lia| |lia]. intros c Hc. by rewrite R4, T4. }
  assert (turn source limit counts counts u v) as Hsame by (split; rewrite ?Hsv; try done; lia).
  destruct (u_items v !! id) as [it|] eqn:Hit; [|by apply Hgo].
  case_bool_decide as Hst; [by apply Hgo|].
  assert (i_kind it = file) as Hk.
  { pose proof (Hfiles id ltac:(by left)) as H. change (u_items v !! id = Some it) in Hit.
    change (u_items u) with (u_items v) in H. rewrite Hit in H. by injection H. }
  destruct (i_tempWhole it).
  - destruct (place_queued id it v Hit Hk Hst) as (P1 & P2 & P3 & _ & P4). apply Hgo; [|by rewrite P2|].
    + apply op_shapes. intros x y. apply ev_place.
    + split; rewrite ?P3, ?P4, ?P1, ?Hsv; try done; lia.
  - destruct (admit_queued id it v Hit Hk Hst) as (P1 & P2 & P3 & P4). apply Hgo; [|by rewrite P2|].
    + apply op_shapes. intros x y. apply ev_admit.
    + assert (∀ c, sending_of (<[source:=S (sending_of counts source)]> counts) c =
        if decide (source = c) then S (sending_of counts source) else sending_of counts c) as Hins.
      { intros c. unfold sending_of. rewrite js_lookup_insert. by case_decide. }
      split; rewrite ?P3, ?P4, ?P1, ?Hsv, ?Hins; try done.
      * rewrite decide_True by done. lia.
      * lia.
      * intros c Hc. rewrite Hins. by rewrite decide_False.
      * rewrite decide_True by done. lia.
Qed.

Notation limit_of w := (Nat.max 1 (maxConcurrent w)).
Definition files_queued (u : Upload) : Prop :=
  ∀ id, id ∈ u_queue u → i_kind <$> u_items u !! id = Some file.

Lemma pump_upload_turn w counts u :
  files_queued u →
  let s := pump_upload w counts u in
  u_source s.2 = u_source u ∧ u_known s.2 = u_known u ∧
  match u_source u with
  | Some source => turn source (limit_of w) counts s.1 u s.2 ∧
      (sourceMayWrite w u = true → u_queue s.2 = [] ∨ limit_of w <= sending_of s.1 source)
  | None => s.1 = counts ∧ sending_in s.2 = sending_in u
  end.
Proof.
  intros Hf. unfold pump_upload. cbv zeta.
  set (v := if bool_decide _ && _ then createFolders u else u).
  assert (same_pump v u) as (E1 & E2 & E3 & E4 & E5) by (subst v; destruct (_ && _); [apply createFolders_same|done]).
  assert (shapes v = shapes u) as Hs.
  { subst v. destruct (_ && _); [|done]. apply op_shapes. intros x y. apply ev_createFolders. }
  assert (sourceMayWrite w v = sourceMayWrite w u) as Hmay by (unfold sourceMayWrite; by rewrite E3, E4).
  rewrite E3, Hmay. clearbody v. destruct (u_source u) as [source|] eqn:Hsrc; [|cbn [fst snd]; by rewrite E1, E5].
  destruct (sourceMayWrite w u).
  - destruct (pump_queue_turn (length (u_queue v)) (limit_of w) source counts v) as [[T1 Tk T2 T3 T4 T5] Hend].
    + intros id. rewrite E2, (shapes_kind _ _ id Hs). apply Hf.
    + done.
    + rewrite E1 in T2, T3. split; [congruence|]. split; [congruence|]. split; [|done].
      split; [congruence..|done|done|done|done].
  - split; [done|]. split; [done|]. split; [|done].
    split; cbn [fst snd]; rewrite ?E1; try done; [congruence|lia].
Qed.

Definition by_client (c : text) (us : list Upload) : nat :=
  sum_list_with (λ u, if decide (u_source u = Some c) then sending_in u else 0) us.

Lemma count_sending_all us counts c :
  sending_of (fold_left count_sending us counts) c = sending_of counts c + by_client c us.
Proof.
  revert counts. induction us as [|u us IH]; intros counts; simpl; [lia|]. rewrite IH.
  unfold count_sending, by_client. simpl. destruct (u_source u) as [source|]; [|rewrite decide_False by done; lia].
  assert (sending_of (if decide (0 < sending_in u)
      then <[source:=sending_of counts source + sending_in u]> counts else counts) c =
    sending_of counts c + (if decide (source = c) then sending_in u else 0)) as ->.
  { destruct (decide (0 < sending_in u)); unfold sending_of; rewrite ?js_lookup_insert;
      destruct (decide (source = c)) as [->|]; simpl; lia. }
  destruct (decide (source = c)) as [->|]; [rewrite decide_True by done|rewrite decide_False by congruence]; lia.
Qed.

Lemma pump_all_counts w us counts :
  Forall files_queued us →
  ∃ counts', let us' := pump_all w counts us in
    (∀ c, sending_of counts' c + by_client c us = sending_of counts c + by_client c us') ∧
    (∀ c, sending_of counts c <= sending_of counts' c <= Nat.max (sending_of counts c) (limit_of w)) ∧
    (∀ i u u' source, us !! i = Some u → us' !! i = Some u' → u_source u = Some source →
       sourceMayWrite w u = true → u_queue u' = [] ∨ limit_of w <= sending_of counts' source).
Proof.
  revert counts. induction us as [|u us IH]; intros counts Hf; cbv zeta; cbn [pump_all].
  { exists counts. split_and!; [done|intros c; lia|]. intros i. by destruct i. }
  apply Forall_cons in Hf as [Hu Hf]. destruct (pump_upload_turn w counts u Hu) as (Hsrc & _ & Hturn).
  destruct (pump_upload w counts u) as [counts1 v]. cbn [fst snd] in *. cbv zeta in *.
  destruct (IH counts1 Hf) as (counts' & Hsum & Hbound & Hfill). cbv zeta in *. exists counts'.
  assert (∀ c, sending_of counts1 c + (if decide (u_source u = Some c) then sending_in u else 0) =
    sending_of counts c + (if decide (u_source v = Some c) then sending_in v else 0) ∧
    sending_of counts c <= sending_of counts1 c <= Nat.max (sending_of counts c) (limit_of w)) as Hone.
  { intros c. rewrite Hsrc. destruct (u_source u) as [source|] eqn:Hs.
    - destruct Hturn as [[T1 _ T2 T3 T4 T5] _]. destruct (decide (Some source = Some c)) as [[= ->]|Hne]; [lia|].
      rewrite T4 by congruence. lia.
    - destruct Hturn as [-> _]. rewrite !decide_False by done. lia. }
  split_and!.
  - intros c. unfold by_client in *. cbn [sum_list_with]. specialize (Hsum c). destruct (Hone c). lia.
  - intros c. specialize (Hbound c). destruct (Hone c). lia.
  - intros [|i] x x' source; cbn [lookup list_lookup]; [|by apply Hfill]. intros [= <-] [= <-] Hs Hmay.
    rewrite Hs in Hturn. destruct Hturn as [_ Hend]. destruct (Hend Hmay) as [?|?]; [by left|right].
    specialize (Hbound source). lia.
Qed.

Lemma pump_all_each w us counts i u' :
  pump_all w counts us !! i = Some u' → ∃ u counts', us !! i = Some u ∧ u' = (pump_upload w counts' u).2.
Proof.
  revert counts i. induction us as [|u us IH]; intros counts i; cbn [pump_all]; [done|].
  destruct (pump_upload w counts u) as [counts1 v] eqn:Hp.
  destruct i as [|i]; [|apply IH]. intros [= <-]. exists u, counts. by rewrite Hp.
Qed.
Lemma length_pump_all w us counts : length (pump_all w counts us) = length us.
Proof.
  revert counts. induction us as [|u us IH]; intros counts; cbn [pump_all]; [done|].
  destruct (pump_upload w counts u). simpl. by rewrite IH.
Qed.

Lemma live_pumped w counts u :
  upper_by_name toUpperCase → live u → live (pump_upload w counts (u <{ u_pump := false }>)).2.
Proof.
  intros Hup Hlive. destruct (live_inv u Hup Hlive) as [rank Hinv].
  destruct Hlive as [digest d raw tree order files bytes r b l s es Hb Hu Hk].
  eapply (is_live _ digest d raw tree order files bytes r b l s (es ++ [Pumped w counts])); [done| |].
  - rewrite run_app, <- Hu. simpl. by rewrite Hk.
  - destruct (pump_upload_turn w counts (u <{ u_pump := false }>)) as (_ & -> & _); [|done].
    intros id. apply (inv_queue _ _ Hinv).
Qed.

(** C15: The pump starts the files there is room for, and no more. However many uploads a window sends,
    and wherever they stand, a pump leaves it sending at most [max_concurrent] files (one at least),
    or as many as it sent before when that was more; and of each upload whose window may write, every
    file queued has started or there is no room left. Each upload is only given its turn.
    The uploads are any the service has, whatever they went through. *)
Theorem pump_fills w us :
  upper_by_name toUpperCase → Forall live us →
  let us' := pump w us in
  (∀ client, sending_by client us' <= Nat.max (sending_by client us) (limit_of w)) ∧
  ∀ i u, us !! i = Some u → ∃ counts,
    us' !! i = Some (step toUpperCase u (Pumped w counts)) ∧
    ∀ source, u_source u = Some source → sourceMayWrite w u = true →
      u_queue (step toUpperCase u (Pumped w counts)) = [] ∨ limit_of w <= sending_by source us'.
Proof.
  intros Hup Hlive us'. unfold pump in us'. set (us0 := (λ u, u <{ u_pump := false }>) <$> us) in *.
  assert (∀ l c, Forall live l → sending_by c l = by_client c l) as Hby.
  { intros l c Hl. unfold sending_by, by_client. induction Hl as [|u l Hu _ IH]; simpl; [done|]. rewrite IH.
    destruct (live_inv u Hup Hu) as [rank Hinv]. rewrite (sending_files_counted u); [done|].
    apply (inv_counts _ _ Hinv). by destruct Hu. }
  assert (∀ c, by_client c us0 = by_client c us) as Hby0.
  { intros c. unfold by_client, us0. clear. induction us as [|u us IH]; [done|].
    cbn [fmap list_fmap sum_list_with]. f_equal. exact IH. }
  destruct (pump_all_counts w us0 (fold_left count_sending us ∅)) as (counts' & Hsum & Hbound & Hfill).
  { unfold us0. rewrite Forall_fmap. apply (Forall_impl live); [done|]. intros u Hu id.
    destruct (live_inv u Hup Hu) as [rank Hinv]. apply (inv_queue _ _ Hinv). }
  cbv zeta in *. fold us' in Hsum, Hfill.
  assert (∀ i u, us !! i = Some u → ∃ counts, us' !! i = Some (step toUpperCase u (Pumped w counts))) as Heach.
  { intros i u Hu. destruct (lookup_lt_is_Some_2 us' i) as [u' Hu'].
    { unfold us'. rewrite length_pump_all. unfold us0. rewrite length_fmap. by eapply lookup_lt_Some. }
    destruct (pump_all_each w us0 _ i u' Hu') as (v & counts & Hv & ->). exists counts. rewrite Hu'.
    unfold us0 in Hv. rewrite list_lookup_fmap, Hu in Hv. injection Hv as <-. simpl.
    assert (u_known u = true) as ->; [|done].
    pose proof (proj1 (Forall_lookup _ _) Hlive i u Hu) as Hl. by destruct Hl. }
  assert (Forall live us') as Hlive'.
  { apply Forall_lookup. intros i u' Hu'. destruct (pump_all_each w us0 _ i u' Hu') as (v & counts & Hv & ->).
    unfold us0 in Hv. rewrite list_lookup_fmap in Hv. destruct (us !! i) as [u|] eqn:Hu; [|done].
    injection Hv as <-. apply live_pumped; [done|]. by apply (proj1 (Forall_lookup _ _) Hlive i). }
  assert (∀ c, sending_of counts' c = by_client c us') as Hfinal.
  { intros c. specialize (Hsum c). rewrite Hby0, count_sending_all in Hsum. unfold sending_of in Hsum at 2.
    rewrite js_lookup_empty in Hsum. simpl in Hsum. lia. }
  split.
  - intros c. rewrite !Hby by done. specialize (Hbound c). rewrite Hfinal, count_sending_all in Hbound.
    unfold sending_of in Hbound. rewrite js_lookup_empty in Hbound. simpl in Hbound. lia.
  - intros i u Hu. destruct (Heach i u Hu) as [counts Hi]. exists counts. split; [done|].
    intros source Hs Hmay. rewrite Hby, <- Hfinal by done.
    apply (Hfill i (u <{ u_pump := false }>) _ source); [|done..].
    unfold us0. by rewrite list_lookup_fmap, Hu.
Qed.
End pumping.

(** Three uploads of one window, which may send two files at once: the third's file waits. *)
Definition begun_replacing : Upload :=
  start shout (to_in (always replace)) window built_two.1 built_two.2 sftp has_d true.
Lemma pump_fills_witness :
  let us := [begun_replacing; begun_replacing; begun_replacing] in
  let us' := pump all_may us in
  sending_by (txt "w") us' = 2 ∧ u_queue <$> us' = [[]; []; [2]] ∧
  sending_by (txt "w") us' <= 2 ∧
  ∃ counts, us' !! 2 = Some (step shout begun_replacing (Pumped all_may counts)).
Proof.
  split; [by vm_compute|]. split; [by vm_compute|].
  assert (live shout begun_replacing) as Hlive.
  { by eapply (is_live _ _ no_digest (to_in (always replace)) two_files _ _ 2 5 window sftp has_d true []);
      [apply (built_two_ok (always replace))|..]. }
  destruct (pump_fills shout all_may [begun_replacing; begun_replacing; begun_replacing] shout_by_name
    ltac:(repeat constructor; exact Hlive)) as [Hlimit Hturn].
  split; [etransitivity; [apply (Hlimit (txt "w"))|]; by vm_compute; lia|].
  destruct (Hturn 2 begun_replacing eq_refl) as (counts & Hi & _). exists counts. exact Hi.
Defined.
