(* ===== verification/TransferRecords.v ===== *)
(** * The rows of an upload in meta.db ([transfer-service.ts], [storage/transfers-dal.ts])

    What is written of an upload as it goes, and how a hub that starts again brings it back from
    its rows. The rows are those of one upload: the tables hold them by its id. Dates are instants;
    meta.db takes every write. *)

From stdpp Require Import sorting.
From S2P Require Import Prelude JsMap Text HostPaths UploadTree TransferItems TransferFlow.
#[local] Open Scope lasterm_scope.

(** ** Names *)

(** The values of a union of strings, each with its string. *)
Class Named (A : Type) := { name_of : A → text; every : list A }.
Definition read_name `{Named A} (t : text) : option A := find (λ a, bool_decide (name_of a = t)) every.

#[export] Instance state_named : Named TransferItemState := {
  name_of s := txt match s with
    | queued => "queued" | sending => "sending" | verifying => "verifying" | placed => "placed"
    | failed => "failed" | skipped => "skipped" | conflict => "conflict" | cancelled => "cancelled"
    | interrupted => "interrupted" end;
  every := [queued; sending; verifying; placed; failed; skipped; conflict; cancelled; interrupted]
}.
#[export] Instance kind_named : Named TransferItemKind := {
  name_of k := txt match k with file => "file" | dir => "dir" end; every := [file; dir]
}.
#[export] Instance action_named : Named TransferConflictAction := {
  name_of a := txt match a with replace => "replace" | keep_both => "keep_both" | skip_it => "skip" end;
  every := [replace; keep_both; skip_it]
}.
#[export] Instance policy_named : Named TransferOnConflict := {
  name_of p := match p with ask => txt "ask" | always a => name_of a end;
  every := [ask; always replace; always keep_both; always skip_it]
}.
#[export] Instance outcome_named : Named TransferOutcome := {
  name_of o := txt match o with
    | out_placed => "placed" | out_replaced => "replaced" | out_kept_both => "kept_both"
    | out_skipped => "skipped" | out_created => "created" | out_merged => "merged" end;
  every := [out_placed; out_replaced; out_kept_both; out_skipped; out_created; out_merged]
}.
#[export] Instance verification_named : Named TransferVerification := {
  name_of v := txt match v with
    | v_size => "size" | v_sha256 => "sha256" | v_no_hash_tool => "no_hash_tool"
    | v_size_resumed => "size_resumed" end;
  every := [v_size; v_sha256; v_no_hash_tool; v_size_resumed]
}.
#[export] Instance upload_state_named : Named TransferUploadState := {
  name_of s := txt match s with
    | running => "running" | upload_interrupted => "interrupted" | done => "done"
    | discarded => "discarded" end;
  every := [running; upload_interrupted; done; discarded]
}.
#[export] Instance reason_named : Named TransferNotResumedReason := {
  name_of r := txt match r with
    | needs_passphrase => "needs_passphrase" | needs_password => "needs_password"
    | host_key_not_accepted => "host_key_not_accepted" | host_unreachable => "host_unreachable" end;
  every := [needs_passphrase; needs_password; host_key_not_accepted; host_unreachable]
}.
#[export] Instance style_named : Named PathStyle := {
  name_of s := txt match s with posix => "posix" | windows => "windows" end; every := [posix; windows]
}.

(** ** Rows *)

(** What had an item's name: JSON of the entry without its name, or a text that is not JSON. *)
Record ExistingJson := MkExistingJson {
  x_kind : option FileKind; x_size : option Z; x_mtime : option text; x_linkKind : option FileKind
}.
Inductive JsonText := json (x : ExistingJson) | not_json.

Record TransferRecord := MkRecord {
  tr_id : text; tr_hostId : text; tr_channelId : text; tr_tokenId : option text; tr_destDir : text;
  tr_pathStyle : text; tr_direction : text; tr_state : text; tr_onConflict : text; tr_verify : bool;
  tr_signature : text; tr_reason : option text; tr_createdAt : Z; tr_updatedAt : Z
}.
Record TransferItemRecord := MkRow {
  row_id : nat; row_parentId : option nat; row_relPath : text; row_kind : text;
  row_size : Z; row_mtime : option Z; row_state : text; row_ackedOffset : Z;
  row_tempPath : option text; row_tempWhole : bool; row_direct : bool; row_finalName : option text;
  row_resolution : option text; row_outcome : option text; row_verification : option text;
  row_existingJson : option JsonText; row_typeClash : bool; row_late : bool;
  row_errorCode : option text; row_reason : option text; row_updatedAt : Z
}.
Record Rows := MkRows { transfer : TransferRecord; transfer_items : list TransferItemRecord }.

Definition existing_json (e : FileEntry) : JsonText :=
  json (MkExistingJson (Some (e_kind e)) (e_size e) (e_mtime e) (e_linkKind e)).
Definition existingOf (t : option JsonText) (name : text) : option FileEntry :=
  match t with
  | Some (json x) => Some (MkEntry name (default is_other (x_kind x)) (x_size x) (x_mtime x) (x_linkKind x))
  | Some not_json | None => None
  end.

Definition itemRecord (it : Item) (updatedAt : Z) : TransferItemRecord :=
  let t := i_tree it in
  MkRow (it_id t) (it_parent t) (it_relPath t) (name_of (it_kind t)) (it_size t) (it_mtime t)
    (name_of (i_state it)) (i_acked it) (i_temp it) (i_tempWhole it) (i_direct it) (i_finalName it)
    (name_of <$> i_resolution it) (name_of <$> i_outcome it) (name_of <$> i_verification it)
    (existing_json <$> i_existing it) (i_typeClash it) (i_late it) (i_code it) (i_reason it) updatedAt.

(** ** The table ([TransfersDAL]) *)

(** Every field of [new] but an item's place in its tree. *)
Definition changing (new row : TransferItemRecord) : TransferItemRecord :=
  MkRow (row_id row) (row_parentId row) (row_relPath row) (row_kind row)
    (row_size new) (row_mtime new) (row_state new) (row_ackedOffset new) (row_tempPath new)
    (row_tempWhole new) (row_direct new) (row_finalName new) (row_resolution new) (row_outcome new)
    (row_verification new) (row_existingJson new) (row_typeClash new) (row_late new)
    (row_errorCode new) (row_reason new) (row_updatedAt new).
Definition writeItem (new : TransferItemRecord) (r : Rows) : Rows :=
  MkRows (transfer r)
    ((λ row, if bool_decide (row_id row = row_id new) then changing new row else row) <$> transfer_items r).
Definition dal_setState (state : text) (reason : option text) (updatedAt : Z) (r : Rows) : Rows :=
  let t := transfer r in
  MkRows (MkRecord (tr_id t) (tr_hostId t) (tr_channelId t) (tr_tokenId t) (tr_destDir t) (tr_pathStyle t)
    (tr_direction t) state (tr_onConflict t) (tr_verify t) (tr_signature t) reason (tr_createdAt t)
    updatedAt) (transfer_items r).

(** ** Writing *)

(** Its rows, once it has been accepted. *)
Definition record (u : Upload) (createdAt at_ : Z) : Rows :=
  MkRows (MkRecord (u_id u) (u_hostId u) (u_channelId u) (u_tokenId u) (u_dir u) (name_of (u_style u))
    (txt "upload") (name_of (uploadState u)) (name_of (u_onConflict u)) (u_verify u) (u_signature u)
    None createdAt at_) ((λ it, itemRecord it at_) <$> u_items u).

(** What of an upload is to be written; with [acks], the acknowledged bytes that waited too. *)
Definition pending_of (acks : bool) (u : Upload) : option (list nat) :=
  match u_unsaved u, (if acks then u_unsavedAcks u else None) with
  | Some ids, Some more => Some (fold_left (λ l id, set_add id l) more ids)
  | Some ids, None => Some ids
  | None, waited => waited
  end.
Definition save_item (at_ : Z) (s : Upload * Rows) (id : nat) : Upload * Rows :=
  let '(u, rows) := s in
  match u_items u !! id with
  | Some it =>
      (on_item id (λ it, it <{ i_persistedAcked := i_acked it }>) u
         <{ u_unsavedAcks ::= fmap (set_delete id) }>,
       writeItem (itemRecord it at_) rows)
  | None => s
  end.
(** Its own state, when it is not what was recorded. *)
Definition save_state (u : Upload) (at_ : Z) (rows : Rows) : Rows :=
  let state := name_of (uploadState u) in
  let reason := name_of <$> u_reason u in
  if bool_decide (tr_state (transfer rows) = state ∧ tr_reason (transfer rows) = reason) then rows
  else dal_setState state reason at_ rows.
Definition save (acks : bool) (at_ : Z) (s : Upload * Rows) : Upload * Rows :=
  let '(u, rows) := s in
  let pending := pending_of acks u in
  let u := u <{ u_unsaved := None }> in
  let u := if acks then u <{ u_unsavedAcks := None }> else u in
  match pending with
  | Some ids =>
      if u_known u && u_stored u then
        let '(u, rows) := fold_left (save_item at_) ids (u, rows) in (u, save_state u at_ rows)
      else (u, rows)
  | None => (u, rows)
  end.

(** ** Bringing back *)

Definition TRANSFER_EXPIRY_MS : Z := 7 * 24 * 60 * 60 * 1000.
Definition HUB_STOPPED : text := txt "The hub stopped while it was being sent".

(** What a file is at: one that was moving is interrupted. *)
Definition revivedState (state : text) : TransferItemState :=
  match read_name state with
  | Some sending | Some verifying | None => interrupted
  | Some s => s
  end.

Definition row_name (row : TransferItemRecord) : text := slice_after_last SL (row_relPath row).
Definition row_tree (row : TransferItemRecord) : TreeItem :=
  MkItem (row_id row) (row_relPath row) (row_name row)
    (if bool_decide (row_kind row = txt "dir") then dir else file)
    (row_size row) (row_mtime row) (row_parentId row) [].
Definition row_item (row : TransferItemRecord) (tree : TreeItem) : Item :=
  let state := revivedState (row_state row) in
  let moving := bool_decide (name_of state ≠ row_state row) in
  MkItem' tree state (existingOf (row_existingJson row) (row_name row)) (row_typeClash row) (row_late row)
    (row_resolution row ≫= read_name) (row_finalName row) None (row_outcome row ≫= read_name)
    (row_verification row ≫= read_name)
    (if bool_decide (row_kind row = txt "dir") then 0 else row_ackedOffset row)
    (row_tempPath row) (row_tempWhole row) (row_direct row) None None None false
    (if moving then Some HUB_STOPPED else row_reason row)
    (if moving then Some (txt "INTERRUPTED") else row_errorCode row)
    (bool_decide (row_tempPath row ≠ None) && (0 <? row_ackedOffset row)%Z) (row_ackedOffset row).
(** The items, each folder with what is in it, and the order they go in. *)
Definition row_trees (rows : list TransferItemRecord) : list TreeItem :=
  let trees := row_tree <$> rows in fold_left add_child trees trees.
Definition row_items (rows : list TransferItemRecord) : list Item := zip_with row_item rows (row_trees rows).
Definition row_order (rows : list TransferItemRecord) : list nat := it_id <$> merge_sort before (row_trees rows).

Section bringing.
Context (toUpperCase : text → text).

(** Where each folder that was put in place is. *)
Definition find_path (style : PathStyle) (destDir : text) (items : list Item) (id : nat) : list Item :=
  match items !! id with
  | Some it =>
      if bool_decide (i_kind it = dir ∧ i_outcome it ≠ None ∧ i_outcome it ≠ Some out_skipped) then
        match (match i_parent it with None => Some destDir | Some p => items !! p ≫= i_path end) with
        | Some parent =>
            let path := joinHostPath toUpperCase parent (default (i_name it) (i_finalName it)) style in
            alter (λ it, it <{ i_path := Some path }>) id items
        | None => items
        end
      else items
  | None => items
  end.

Inductive Brought :=
| b_deleted | b_unread
| b_pendingRemoval (temps : list text)
| b_back (u : Upload)
| b_expired (temps : list text) (u : Upload).

Definition row_temps (rows : list TransferItemRecord) : list text :=
  omap (λ row, if bool_decide (row_state row ≠ txt "placed") then row_tempPath row else None) rows.
(** The temporaries [drop] leaves to remove. *)
Definition dropped_temps (u : Upload) : list text :=
  omap (λ it, if bool_decide (i_kind it = file ∧ i_state it ≠ placed) then i_temp it else None) (u_items u).
Definition changedAt (t : TransferRecord) (now : Z) : Z :=
  if (tr_updatedAt t =? 0)%Z then now else tr_updatedAt t.

(** An upload of these rows: no window sends it, nothing of it is queued. *)
Definition revived_blank (rows : Rows) : Upload :=
  let t := transfer rows in
  let style := if bool_decide (tr_pathStyle t = txt "windows") then windows else posix in
  let order := row_order (transfer_items rows) in
  let items := fold_left (find_path style (tr_destDir t)) order (row_items (transfer_items rows)) in
  blank (MkDestination (tr_id t) (tr_channelId t) (tr_hostId t) (tr_destDir t) style
      (default ask (read_name (tr_onConflict t))) (tr_verify t) (tr_signature t))
    (tr_tokenId t) items order None None.
Definition revived (rows : Rows) : Upload :=
  let reason := tr_reason (transfer rows) ≫= read_name in
  assemble (revived_blank rows)
  <{ u_stale := true }> <{ u_stored := true }> <{ u_reason := reason }>
  <{ u_said := Some (upload_interrupted, reason) }>.
(** What was moving is to be written as it is now. *)
Definition persist_revived (rows : list TransferItemRecord) (u : Upload) : Upload :=
  persist (for_each (λ id u,
    match u_items u !! id, rows !! id with
    | Some it, Some row => if bool_decide (name_of (i_state it) ≠ row_state row) then persistItem id u else u
    | Some _, None => persistItem id u
    | None, _ => u
    end) (ids u) u).

Definition bringBack (hostType : option text) (now : Z) (rows : Rows) : Brought :=
  let t := transfer rows in
  if bool_decide (hostType = None) || bool_decide (tr_direction t ≠ txt "upload") then b_deleted
  else if bool_decide (tr_state t = txt "done") then b_deleted
  else if bool_decide (tr_state t = txt "discarded") then b_pendingRemoval (row_temps (transfer_items rows))
  else if negb (bool_decide (row_id <$> transfer_items rows = seq 0 (length (transfer_items rows)))) then b_unread
  else
    let u := revived rows in
    if isSettled u then b_deleted
    else if bool_decide (tr_state t = txt "interrupted") && (TRANSFER_EXPIRY_MS <=? now - changedAt t now)%Z
    then b_expired (dropped_temps u) (drop u)
    else b_back (persist_revived (transfer_items rows) u).

(** ** An upload and its rows over time *)

(** What a step does to the rows at once: one dropped is marked discarded, one forgotten goes. *)
Definition rows_after (e : Ev) (at_ : Z) (u u' : Upload) (rows : option Rows) : option Rows :=
  if u_known u && negb (u_known u') && u_stored u then
    match e with
    | Forgotten => None
    | _ => dal_setState (name_of discarded) None at_ <$> rows
    end
  else rows.

Inductive Life := stepped (e : Ev) (at_ : Z) | saved (acks : bool) (at_ : Z).
Definition lives (s : Upload * option Rows) (l : Life) : Upload * option Rows :=
  match l, s with
  | stepped e at_, (u, rows) => let u' := step toUpperCase u e in (u', rows_after e at_ u u' rows)
  | saved acks at_, (u, Some rows) => let '(u, rows) := save acks at_ (u, rows) in (u, Some rows)
  | saved acks at_, (u, None) => s
  end.
End bringing.
