(* ===== verification/TransferRestart.v ===== *)
(** * A hub that starts again brings an upload back as it was ([restart_brings_back])

    Along any life of an upload, steps and writes to meta.db interleaved, its rows say of each item
    what the item is, but for what waits to be written ([current]). So once everything is written,
    what [bringBack] reads is the same tree, each file at what its host acknowledged. *)

From stdpp Require Import sorting.
From S2P Require Import Prelude JsMap Text HostPaths UploadTree TransferItems TransferFlow TransferCounts.
From S2P Require Import TransferOps TransferProps TransferRecords.
#[local] Open Scope lasterm_scope.

(** ** Names are read back *)

Class ReadBack (A : Type) `{Named A} := read_back : ∀ a : A, read_name (name_of a) = Some a.
#[export] Instance state_read_back : ReadBack TransferItemState.
Proof. by intros []; vm_compute. Qed.
#[export] Instance kind_read_back : ReadBack TransferItemKind.
Proof. by intros []; vm_compute. Qed.
#[export] Instance action_read_back : ReadBack TransferConflictAction.
Proof. by intros []; vm_compute. Qed.
#[export] Instance policy_read_back : ReadBack TransferOnConflict.
Proof. by intros [|[]]; vm_compute. Qed.
#[export] Instance outcome_read_back : ReadBack TransferOutcome.
Proof. by intros []; vm_compute. Qed.
#[export] Instance verification_read_back : ReadBack TransferVerification.
Proof. by intros []; vm_compute. Qed.
#[export] Instance upload_state_read_back : ReadBack TransferUploadState.
Proof. by intros []; vm_compute. Qed.
#[export] Instance reason_read_back : ReadBack TransferNotResumedReason.
Proof. by intros []; vm_compute. Qed.
#[export] Instance style_read_back : ReadBack PathStyle.
Proof. by intros []; vm_compute. Qed.

(** What a file that was moving is at after a restart. *)
Definition revive (s : TransferItemState) : TransferItemState :=
  match s with sending | verifying => interrupted | _ => s end.
Lemma revivedState_name s : revivedState (name_of s) = revive s.
Proof. unfold revivedState. rewrite read_back. by destruct s. Qed.
Lemma revive_unsettled s : revive s ∈ UNSETTLED ↔ s ∈ UNSETTLED.
Proof. rewrite <- (bool_decide_spec (revive s ∈ _)), <- (bool_decide_spec (s ∈ _)). by destruct s. Qed.

(** ** Rows that are current *)

Record in_place (i : nat) (it : Item) (row : TransferItemRecord) : Prop := {
  ip_item : i_id it = i;
  ip_id : row_id row = i;
  ip_parent : row_parentId row = i_parent it;
  ip_relPath : row_relPath row = it_relPath (i_tree it);
  ip_kind : row_kind row = name_of (i_kind it)
}.
(** What a resume goes by, and how far its host acknowledged it. *)
Record written (it : Item) (row : TransferItemRecord) : Prop := {
  w_size : row_size row = i_size it;
  w_mtime : row_mtime row = it_mtime (i_tree it);
  w_state : row_state row = name_of (i_state it);
  w_temp : row_tempPath row = i_temp it;
  w_whole : row_tempWhole row = i_tempWhole it
}.

(** [waiting] and [acking] are the items to be written: for anything, and for their bytes alone. *)
Record rows_of (waiting acking : nat → Prop) (items : list Item) (rows : list TransferItemRecord) : Prop := {
  ro_length : length rows = length items;
  ro_place i it row : items !! i = Some it → rows !! i = Some row → in_place i it row;
  ro_written i it row : items !! i = Some it → rows !! i = Some row → waiting i ∨ written it row;
  ro_acked i it row : items !! i = Some it → rows !! i = Some row →
    waiting i ∨ acking i ∨ row_ackedOffset row = i_acked it
}.
Definition settled_items (items : list Item) : Prop := ∀ it, it ∈ items → i_state it ∉ UNSETTLED.
Record current (u : Upload) (rows : Rows) : Prop := {
  cu_rows : rows_of (.∈ unsaved_of u) (.∈ acks_of u) (u_items u) (transfer_items rows);
  cu_done : is_Some (u_unsaved u) ∨ (tr_state (transfer rows) = name_of done → settled_items (u_items u));
  cu_kept : tr_state (transfer rows) ≠ name_of discarded;
  cu_upload : tr_direction (transfer rows) = txt "upload"
}.

Lemma unsaved_is_Some u i : i ∈ unsaved_of u → is_Some (u_unsaved u).
Proof. unfold unsaved_of. destruct (u_unsaved u); [by eexists|]. by intros ?%elem_of_nil. Qed.

(** A change of one item: either it is to be written, or what is written of it is kept. *)
Lemma current_alter u u' id f rows :
  u_items u' = alter f id (u_items u) → (∀ it, shape (f it) = shape it) →
  (is_Some (u_unsaved u) → is_Some (u_unsaved u')) →
  (∀ i, i ∈ unsaved_of u → i ∈ unsaved_of u') → (∀ i, i ∈ acks_of u → i ∈ acks_of u') →
  (∀ it, u_items u !! id = Some it → id ∈ unsaved_of u' ∨
     i_tree (f it) = i_tree it ∧ i_state (f it) = i_state it ∧ i_temp (f it) = i_temp it ∧
     i_tempWhole (f it) = i_tempWhole it ∧ (id ∈ acks_of u' ∨ i_acked (f it) = i_acked it)) →
  current u rows → current u' rows.
Proof.
  intros Hi Hsh Hsome Hun Hacks Hid [[Hlen Hplace Hwritten Hacked] Hdone Hkept Hup]. split; [|  |done|done].
  - rewrite Hi. split.
    + by rewrite length_alter.
    + intros i it row. rewrite list_lookup_alter. case_decide as Heq; [subst i|apply Hplace].
      destruct (u_items u !! id) as [x|] eqn:Hx; [|done]. intros [= <-] Hrow.
      destruct (Hplace id x row Hx Hrow) as [H1 H2 H3 H4 H5]. specialize (Hsh x). unfold shape in Hsh.
      injection Hsh as E1 E2 _ E4 E5 _. split; congruence.
    + intros i it row. rewrite list_lookup_alter. case_decide as Heq; [subst i|].
      * destruct (u_items u !! id) as [x|] eqn:Hx; [|done]. intros [= <-] Hrow.
        destruct (Hid x eq_refl) as [?|(E1 & E2 & E3 & E4 & _)]; [by left|].
        destruct (Hwritten id x row Hx Hrow) as [?|[H1 H2 H3 H4 H5]]; [left; auto|right].
        unfold i_size in *. split; unfold i_size; congruence.
      * intros Hx Hrow. destruct (Hwritten i it row Hx Hrow); [left; auto|by right].
    + intros i it row. rewrite list_lookup_alter. case_decide as Heq; [subst i|].
      * destruct (u_items u !! id) as [x|] eqn:Hx; [|done]. intros [= <-] Hrow.
        destruct (Hid x eq_refl) as [?|(_ & _ & _ & _ & [?|E])]; [by left|by right; left|].
        rewrite E. destruct (Hacked id x row Hx Hrow) as [?|[?|?]]; auto.
      * intros Hx Hrow. destruct (Hacked i it row Hx Hrow) as [?|[?|?]]; auto.
  - destruct Hdone as [?|Hdone]; [left; auto|]. destruct (u_items u !! id) as [x|] eqn:Hx.
    + destruct (Hid x eq_refl) as [Hin|(_ & E2 & _)]; [left; by eapply unsaved_is_Some|right].
      intros Hd it. rewrite Hi. intros [i Hit]%list_elem_of_lookup. rewrite list_lookup_alter in Hit.
      case_decide; [subst i; rewrite Hx in Hit; injection Hit as <-; rewrite E2|];
        (eapply Hdone; [done|by eapply list_elem_of_lookup_2]).
    + right. rewrite Hi, alter_none by done. done.
Qed.

Lemma persistItem_writes id u : u_stored u = true → id ∈ unsaved_of (persistItem id u).
Proof. intros Hst. unfold unsaved_of, persistItem. rewrite Hst. simpl. apply elem_of_set_add. by left. Qed.
Lemma setState_writes id s u :
  is_Some (u_items u !! id) →
  u_unsaved (setState id s u) = u_unsaved (persistItem id u) ∧
  u_unsavedAcks (setState id s u) = u_unsavedAcks u ∧ u_stored (setState id s u) = u_stored u.
Proof.
  intros [it Hit]. unfold setState. rewrite Hit. cbv zeta. unfold persistItem.
  change (u_stored (on_item id _ u <{ u_dirtyItems ::= _ }>)) with (u_stored u).
  destruct (u_stored u) eqn:Hst; destruct (decide _), (i_kind it); done.
Qed.
Lemma addAcked_writes id d u it :
  u_items u !! id = Some it → d ≠ 0%Z → u_stored u = true → u_known u = true →
  let u' := addAcked id d u in
  (is_Some (u_unsaved u) → is_Some (u_unsaved u')) ∧
  (∀ i, i ∈ unsaved_of u → i ∈ unsaved_of u') ∧ (∀ i, i ∈ acks_of u → i ∈ acks_of u') ∧
  (id ∈ unsaved_of u' ∨ id ∈ acks_of u') ∧ u_stored u' = true.
Proof.
  intros Hit Hd Hst Hk. cbv zeta. unfold addAcked. rewrite Hit, decide_False by done. cbv zeta.
  match goal with |- context [persistAcked id ?x] => set (v := x) end.
  assert (u_known v = true ∧ u_stored v = true ∧ unsaved_of v = unsaved_of u ∧ acks_of v = acks_of u ∧
    u_unsaved v = u_unsaved u) as (Hkv & Hsv & E1 & E2 & E3) by done.
  assert (is_Some (u_items v !! id)) as [x Hx].
  { subst v. simpl. rewrite list_lookup_alter_eq, Hit. by eexists. }
  assert (u_known (persistAcked id v) = true) as Hkp.
  { unfold persistAcked, persistItem. rewrite Hx, Hsv. by destruct (_ || _). }
  pose proof (persistAcked_kept id v) as Hkept. rewrite <- E1, <- E2, <- E3. split_and!.
  - by apply (uk_waits _ _ Hkept).
  - intros i. by apply (uk_unsaved _ _ Hkept).
  - intros i. by apply (uk_acks _ _ Hkept).
  - unfold persistAcked. rewrite Hx, Hsv. destruct (_ || _); [left; by apply persistItem_writes|right].
    unfold acks_of. simpl. apply elem_of_set_add. by left.
  - by apply (uk_stored _ _ Hkept).
Qed.

Lemma kept_current u u' rows : upload_kept u' u → u_known u' = true → current u rows → current u' rows.
Proof.
  intros Hk Hkn [[Hlen Hplace Hwritten Hacked] Hdone Hkept Hup]. pose proof (uk_items _ _ Hk) as Hi.
  split; rewrite ?Hi; [split; [done..| |]| |done|done].
  - intros i it row Hit Hrow. destruct (Hwritten i it row Hit Hrow); [left|by right]. by eapply uk_unsaved.
  - intros i it row Hit Hrow. destruct (Hacked i it row Hit Hrow) as [?|[?|?]];
      [left; by eapply uk_unsaved|right; left; by eapply uk_acks|by right; right].
  - destruct Hdone; [left; by eapply uk_waits|by right].
Qed.
Lemma change_known allowed u u' : change allowed u u' → u_known u' = true → u_known u = true.
Proof.
  destruct 1 as [id s u|id d u _|id size mtime u _|id f u Hf|id f u Hf|id r u _|o u _|u u' Hk|u]; try done.
  - by rewrite (cc_known _ _ _ _ (setState_change id s u)).
  - by rewrite (cc_known _ _ _ _ (addAcked_change id d u)).
  - intros H%(uk_known _ _ (persistItem_kept id _)). by rewrite (cc_known _ _ _ _ (resize_change id size mtime u)) in H.
  - by intros H%(uk_known _ _ (persistItem_kept id _)).
  - apply (uk_known _ _ Hk).
  - unfold drop, emit, releaseBackend. simpl. by destruct (u_backend _).
Qed.

Lemma item_current id f u rows :
  (∀ it, item_kept (f it) it) → u_stored u = true → u_known u = true →
  current u rows → current (persistItem id (on_item id f u)) rows.
Proof.
  intros Hf Hst Hk. assert (u_known (persistItem id (on_item id f u)) = true) as Hk'.
  { unfold persistItem. by destruct (u_stored _). }
  pose proof (persistItem_kept id (on_item id f u)) as Hp. apply (current_alter _ _ id f).
  - rewrite (uk_items _ _ Hp). done.
  - intros it. by apply item_kept_shape.
  - by apply (uk_waits _ _ Hp).
  - intros i. by apply (uk_unsaved _ _ Hp).
  - intros i. by apply (uk_acks _ _ Hp).
  - intros it _. left. by apply persistItem_writes.
Qed.

Lemma change_current allowed u u' rows :
  change allowed u u' → u_known u' = true → u_stored u = true → current u rows →
  current u' rows ∧ u_stored u' = true.
Proof.
  intros Hch Hkn Hst Hcur. pose proof (change_known _ _ _ Hch Hkn) as Hk.
  destruct Hch as [id s u|id d u _|id size mtime u _|id f u Hf|id f u Hf|id r u _|o u _|u u' Hu|u].
  - destruct (u_items u !! id) as [it|] eqn:Hit; [|by unfold setState; rewrite Hit].
    destruct (setState_writes id s u ltac:(by eexists)) as (E1 & E2 & ->). split; [|done].
    pose proof (persistItem_kept id u) as Hp.
    assert (u_known (persistItem id u) = true) as Hkp by (unfold persistItem; by destruct (u_stored u)).
    apply (current_alter u _ id (λ it, it <{ i_state := s }>)); [apply (setState_change id s u)|done|..|done];
      unfold unsaved_of, acks_of; rewrite ?E1, ?E2.
    + by apply (uk_waits _ _ Hp).
    + intros i. by apply (uk_unsaved _ _ Hp).
    + done.
    + intros x _. left. by apply persistItem_writes.
  - destruct (u_items u !! id) as [it|] eqn:Hit; [|by unfold addAcked; rewrite Hit].
    destruct (decide (d = 0%Z)) as [->|Hd]; [by unfold addAcked; rewrite Hit, decide_True|].
    destruct (addAcked_writes id d u it Hit Hd Hst Hk) as (H1 & H2 & H3 & H4 & H5). split; [|done].
    apply (current_alter u _ id (λ it, it <{ i_acked ::= λ a, (a + d)%Z }>));
      [apply (addAcked_change id d u)|done..| |done].
    intros x _. destruct H4; [by left|right; split_and!; try done; by left].
  - pose proof (persistItem_kept id (resize id size mtime u)) as Hp.
    pose proof (resize_change id size mtime u) as Hr.
    assert (u_stored (resize id size mtime u) = true ∧ u_unsaved (resize id size mtime u) = u_unsaved u ∧
      u_unsavedAcks (resize id size mtime u) = u_unsavedAcks u) as (Hsr & E1 & E2).
    { unfold resize. destruct (u_items u !! id); [|done]. by destruct (decide _). }
    split; [|by apply (uk_stored _ _ Hp)].
    eapply (current_alter u _ id); [rewrite (uk_items _ _ Hp); apply (cc_items _ _ _ _ Hr)|done|..|done].
    + rewrite <- E1. by apply (uk_waits _ _ Hp).
    + intros i. unfold unsaved_of at 1. rewrite <- E1. by apply (uk_unsaved _ _ Hp).
    + intros i. unfold acks_of at 1. rewrite <- E2. by apply (uk_acks _ _ Hp).
    + intros x _. left. by apply persistItem_writes.
  - split; [|done]. apply (current_alter u _ id f); [done| |done..| |done].
    + intros it. apply item_kept_shape. by apply file_item.
    + intros it _. right. destruct (Hf it) as [[H1 H2 H3 _] H5 H6]. split_and!; try done. by right.
  - split; [by apply item_current|]. by apply (uk_stored _ _ (persistItem_kept id _)).
  - split; [|done]. apply (current_alter u _ id (λ it, it <{ i_resolution := Some r }>)); try done.
    intros it _. right. split_and!; try done. by right.
  - split; [|done]. by destruct Hcur.
  - split; [by eapply kept_current|by apply (uk_stored _ _ Hu)].
  - exfalso. revert Hkn. unfold drop, emit, releaseBackend. simpl. by destruct (u_backend _).
Qed.
Lemma changes_current allowed u u' rows :
  rtc (change allowed) u u' → u_known u' = true → u_stored u = true → current u rows →
  current u' rows ∧ u_stored u' = true.
Proof.
  induction 1 as [|u v w Hc Hvw IH]; [done|]. intros Hkn Hst Hcur.
  assert (u_known v = true) as Hkv.
  { clear -Hvw Hkn. induction Hvw as [|x y z Hxy _ IH]; [done|]. by eapply change_known, IH. }
  destruct (change_current _ _ _ _ Hc Hkv Hst Hcur). by apply IH.
Qed.

(** ** Writing *)

Lemma in_place_alter i f it row :
  in_place i it row → shape (f it) = shape it → in_place i (f it) row.
Proof.
  intros [H1 H2 H3 H4 H5] Hsh. unfold shape in Hsh. injection Hsh as E1 E2 _ E4 E5 _. split; congruence.
Qed.
Definition mark_persisted (it : Item) : Item := it <{ i_persistedAcked := i_acked it }>.

Lemma rows_of_writeItem W W' A A' items r id it at_ :
  items !! id = Some it → (∀ i, W i → i = id ∨ W' i) → (∀ i, A i → i = id ∨ A' i) →
  rows_of W A items (transfer_items r) →
  rows_of W' A' (alter mark_persisted id items) (transfer_items (writeItem (itemRecord it at_) r)).
Proof.
  intros Hit HW HA [Hlen Hplace Hwritten Hacked]. cbn [transfer_items writeItem].
  assert (i_id it = id) as Hid.
  { destruct (lookup_lt_is_Some_2 (transfer_items r) id) as [row Hrow];
      [rewrite Hlen; by eapply lookup_lt_Some|]. apply (Hplace id it row Hit Hrow). }
  set (new := itemRecord it at_). assert (row_id new = id) as -> by done.
  assert (∀ i it' row', alter mark_persisted id items !! i = Some it' →
    ((λ row, if bool_decide (row_id row = id) then changing new row else row) <$> transfer_items r) !! i = Some row' →
    (i = id ∧ it' = mark_persisted it ∧ ∃ row, transfer_items r !! i = Some row ∧ row' = changing new row) ∨
    (i ≠ id ∧ items !! i = Some it' ∧ transfer_items r !! i = Some row')) as Hcases.
  { intros i it' row'. rewrite list_lookup_alter, list_lookup_fmap.
    destruct (transfer_items r !! i) as [row|] eqn:Hrow; [|by case_decide]. intros Hi. cbn [fmap option_fmap option_map].
    case_decide as Heq.
    - subst i. rewrite Hit in Hi. injection Hi as <-. rewrite bool_decide_eq_true_2 by apply (Hplace id it row Hit Hrow).
      intros [= <-]. left. by eauto.
    - rewrite bool_decide_eq_false_2; [intros [= <-]; by right|]. by rewrite (ip_id _ _ _ (Hplace i it' row Hi Hrow)). }
  split.
  - by rewrite length_fmap, length_alter.
  - intros i it' row' H1 H2. destruct (Hcases i it' row' H1 H2) as [(-> & -> & row & Hrow & ->)|(_ & Hi & Hr)];
      [|by apply Hplace]. apply in_place_alter; [|done]. by destruct (Hplace id it row Hit Hrow).
  - intros i it' row' H1 H2. destruct (Hcases i it' row' H1 H2) as [(-> & -> & row & Hrow & ->)|(Hne & Hi & Hr)];
      [by right|]. destruct (Hwritten i it' row' Hi Hr) as [Hw|]; [left|by right]. by destruct (HW i Hw).
  - intros i it' row' H1 H2. destruct (Hcases i it' row' H1 H2) as [(-> & -> & row & Hrow & ->)|(Hne & Hi & Hr)];
      [by right; right|]. destruct (Hacked i it' row' Hi Hr) as [Hw|[Ha|]]; [left; by destruct (HW i Hw)| |by auto].
    right; left. by destruct (HA i Ha).
Qed.

Lemma inv_same rank u u' :
  u_items u' = u_items u → u_totals u' = u_totals u → u_folderTotals u' = u_folderTotals u →
  u_folderStates u' = u_folderStates u → (u_known u' = true → u_known u = true) →
  u_pending u' = u_pending u → u_queue u' = u_queue u → inv rank u → inv rank u'.
Proof.
  intros Hi H1 H2 H3 Hk Hp Hq [Ht Hc Hf Hch Hqu]. split; rewrite ?Hi, ?Hp, ?Hq; try done.
  intros Hkn. apply (counts_kept u); auto.
Qed.
(** What writing items leaves of the upload. *)
Record save_kept (u' u : Upload) : Prop := {
  sk_items : Forall2 file_kept (u_items u') (u_items u);
  sk_known : u_known u' = u_known u;
  sk_stored : u_stored u' = u_stored u;
  sk_unsaved : u_unsaved u' = u_unsaved u;
  sk_state : uploadState u' = uploadState u;
  sk_reason : u_reason u' = u_reason u
}.
#[export] Instance file_kept_preorder : PreOrder file_kept.
Proof.
  split; [by intros it; split; [split|..]|].
  intros x y z [[H1 H2 H3 H4] H5 H6] [[E1 E2 E3 E4] E5 E6]. split; [split|..]; congruence.
Qed.
Lemma Forall2_alter_self {A} (P : relation A) `{!Reflexive P} f (i : nat) l :
  (∀ x, P (f x) x) → Forall2 P (alter f i l) l.
Proof.
  intros Hf. revert i. induction l as [|x l IH]; intros [|i]; [constructor..| |]; cbn [alter list_alter];
    constructor; [apply Hf|done|done|apply IH].
Qed.
Lemma mark_persisted_kept it : file_kept (mark_persisted it) it.
Proof. by split; [split|..]. Qed.
Lemma save_kept_trans u v w : save_kept u v → save_kept v w → save_kept u w.
Proof.
  intros [H1 H2 H3 H4 H5 H6] [E1 E2 E3 E4 E5 E6]. split; try congruence.
  by etransitivity.
Qed.

Lemma save_item_saves rank W A at_ u r id :
  inv rank u → rows_of (λ i, i = id ∨ W i) A (u_items u) (transfer_items r) → (∀ i, A i → i ∈ acks_of u) →
  let s := save_item at_ (u, r) id in
  inv rank s.1 ∧ save_kept s.1 u ∧ transfer s.2 = transfer r ∧ (∀ i, i ∈ acks_of s.1 → i ∈ acks_of u) ∧
  rows_of W (.∈ acks_of s.1) (u_items s.1) (transfer_items s.2).
Proof.
  intros Hinv Hrows HA. unfold save_item. destruct (u_items u !! id) as [it|] eqn:Hit; cbv zeta; cbn [fst snd].
  - set (u' := on_item id _ u <{ u_unsavedAcks ::= _ }>).
    assert (∀ i, i ∈ acks_of u' ↔ i ≠ id ∧ i ∈ acks_of u) as Hacks.
    { intros i. unfold acks_of, u'. simpl. destruct (u_unsavedAcks u) as [l|]; simpl; [apply elem_of_set_delete|].
      rewrite elem_of_nil. tauto. }
    split_and!; try done.
    + assert (inv rank (on_item id mark_persisted u)) as Hi.
      { apply item_inv; [|done]. intros x. apply mark_persisted_kept. }
      by apply (inv_same _ (on_item id mark_persisted u)).
    + split; try done. apply Forall2_alter_self; [apply _|apply mark_persisted_kept].
    + intros i. rewrite Hacks. tauto.
    + apply (rows_of_writeItem (λ i, i = id ∨ W i) W A); [done|done| |done].
      intros i Hi. destruct (decide (i = id)); [by left|right]. apply Hacks. by auto.
  - split_and!; try done.
    destruct Hrows as [Hlen Hplace Hwritten Hacked]. split; [done..| |].
    + intros i it row Hi Hr. destruct (Hwritten i it row Hi Hr) as [[->|?]|?]; [congruence|by left|by right].
    + intros i it row Hi Hr. destruct (Hacked i it row Hi Hr) as [[->|?]|[?|?]]; [congruence|by left| |by auto].
      right; left. by apply HA.
Qed.
Lemma save_items_save rank W at_ ids u r A :
  inv rank u → rows_of (λ i, i ∈ ids ∨ W i) A (u_items u) (transfer_items r) → (∀ i, A i → i ∈ acks_of u) →
  let s := fold_left (save_item at_) ids (u, r) in
  inv rank s.1 ∧ save_kept s.1 u ∧ transfer s.2 = transfer r ∧ (∀ i, i ∈ acks_of s.1 → i ∈ acks_of u) ∧
  rows_of W (.∈ acks_of s.1) (u_items s.1) (transfer_items s.2).
Proof.
  revert u r A. induction ids as [|id ids IH]; intros u r A Hinv Hrows HA; cbn [fold_left].
  { split_and!; try done. destruct Hrows as [Hlen Hplace Hwritten Hacked]. split; [done..| |].
    - intros i it row Hi Hr. destruct (Hwritten i it row Hi Hr) as [[?%elem_of_nil|?]|?]; auto; done.
    - intros i it row Hi Hr. destruct (Hacked i it row Hi Hr) as [[?%elem_of_nil|?]|[?|?]]; auto; done. }
  destruct (save_item_saves rank (λ i, i ∈ ids ∨ W i) A at_ u r id Hinv) as (Hi & Hk & Ht & Ha & Hr); [|done|].
  { destruct Hrows as [Hlen Hplace Hwritten Hacked]. split; [done..| |].
    - intros i it row H1 H2. destruct (Hwritten i it row H1 H2) as [[Hin|?]|?]; auto.
      apply elem_of_cons in Hin as [->|]; auto.
    - intros i it row H1 H2. destruct (Hacked i it row H1 H2) as [[Hin|?]|[?|?]]; auto.
      apply elem_of_cons in Hin as [->|]; auto. }
  destruct (save_item at_ (u, r) id) as [v q]. cbn [fst snd] in *. cbv zeta in *.
  destruct (IH v q (.∈ acks_of v) Hi Hr) as (Hi' & Hk' & Ht' & Ha' & Hr'); [done|].
  split_and!; [done|by eapply save_kept_trans|congruence|auto|done].
Qed.

Lemma elem_of_set_adds more ids (i : nat) : i ∈ fold_left (λ l id, set_add id l) more ids ↔ i ∈ more ∨ i ∈ ids.
Proof.
  revert ids. induction more as [|x more IH]; intros ids; cbn [fold_left]; [rewrite elem_of_nil; tauto|].
  rewrite IH, elem_of_set_add, elem_of_cons. tauto.
Qed.
Lemma pending_covers acks u :
  match pending_of acks u with
  | Some ids => (∀ i, i ∈ unsaved_of u → i ∈ ids) ∧ (acks = true → ∀ i, i ∈ acks_of u → i ∈ ids)
  | None => u_unsaved u = None ∧ (acks = true → u_unsavedAcks u = None)
  end.
Proof.
  unfold pending_of, unsaved_of, acks_of. destruct (u_unsaved u) as [ids|], acks, (u_unsavedAcks u) as [more|];
    simpl; try (split; [intros i|intros _ i]; rewrite ?elem_of_set_adds, ?elem_of_nil; tauto); try done.
  all: split; intros; first [done | by match goal with H : _ ∈ [] |- _ => apply elem_of_nil in H end].
Qed.

Lemma name_of_inj `{ReadBack A} (a b : A) : name_of a = name_of b → a = b.
Proof. intros Hab. apply (inj Some). by rewrite <- !read_back, Hab. Qed.
Lemma save_state_state u at_ r : tr_state (transfer (save_state u at_ r)) = name_of (uploadState u).
Proof. unfold save_state. case_bool_decide as Hs; [apply Hs|done]. Qed.
Lemma save_state_rows u at_ r :
  transfer_items (save_state u at_ r) = transfer_items r ∧
  tr_direction (transfer (save_state u at_ r)) = tr_direction (transfer r).
Proof. unfold save_state. by case_bool_decide. Qed.
Lemma done_settled rank u : inv rank u → u_known u = true → uploadState u = done → settled_items (u_items u).
Proof.
  intros Hinv Hk. unfold uploadState. destruct (isSettled u) eqn:Hs; [|by case_bool_decide]. intros _.
  apply settled_iff in Hs as [_ Hs]; [done|by apply Hinv].
Qed.
Lemma uploadState_kept u : uploadState u ≠ discarded.
Proof. unfold uploadState. destruct (isSettled u); [done|]. by case_bool_decide. Qed.

(** Writing leaves nothing behind it: what is asked for waits no more. *)
Lemma save_saves rank acks at_ u r :
  inv rank u → u_known u = true → u_stored u = true → current u r →
  let s := save acks at_ (u, r) in
  inv rank s.1 ∧ u_known s.1 = true ∧ u_stored s.1 = true ∧ current s.1 s.2 ∧
  Forall2 file_kept (u_items s.1) (u_items u) ∧ unsaved_of s.1 = [] ∧ (acks = true → acks_of s.1 = []) ∧
  u_unsaved s.1 = None.
Proof.
  intros Hinv Hk Hst [Hrows Hdone Hkept Hup]. unfold save. pose proof (pending_covers acks u) as Hcov.
  set (v := if acks then u <{ u_unsaved := None }> <{ u_unsavedAcks := None }> else u <{ u_unsaved := None }>).
  assert (inv rank v) as Hv by (apply (inv_same rank u); by destruct acks).
  assert (u_items v = u_items u ∧ u_known v = true ∧ u_stored v = true ∧ u_unsaved v = None ∧
    (acks = true → acks_of v = []) ∧ (acks = false → acks_of v = acks_of u)) as (Ei & Ek & Es & Eu & Ea & Eb)
    by (by destruct acks).
  destruct (pending_of acks u) as [ids|].
  - cbv zeta. fold v. rewrite Ek, Es. cbn [andb]. destruct Hcov as [Hun Hack].
    destruct (save_items_save rank (λ _, False) at_ ids v r (.∈ acks_of v) Hv) as (Hi & Hs & Ht & Ha & Hr); [|done|].
    { rewrite Ei. destruct Hrows as [Hlen Hplace Hwritten Hacked]. split; [done..| |].
      - intros i it row H1 H2. destruct (Hwritten i it row H1 H2) as [?|?]; auto.
      - intros i it row H1 H2. destruct (Hacked i it row H1 H2) as [?|[Hin|?]]; auto.
        destruct acks; [auto|]. right; left. by rewrite Eb. }
    destruct (fold_left _ ids (v, r)) as [w q]. cbn [fst snd] in *. cbv zeta in *.
    destruct Hs as [S1 S2 S3 S4 S5 S6]. assert (u_unsaved w = None) as Hw by congruence.
    assert (unsaved_of w = []) as Hw' by (unfold unsaved_of; by rewrite Hw).
    split_and!; try done; try congruence.
    + destruct (save_state_rows w at_ q) as [E1 E2]. split; rewrite ?E1, ?E2, ?save_state_state, ?Hw', ?Ht; [| | |done].
      * destruct Hr as [Hlen Hplace Hwritten Hacked]. split; [done..| |].
        -- intros i it row H1 H2. right. by destruct (Hwritten i it row H1 H2).
        -- intros i it row H1 H2. destruct (Hacked i it row H1 H2) as [?|?]; auto; done.
      * right. intros Hd%name_of_inj. by apply (done_settled rank w); [done|congruence|].
      * intros Hd%name_of_inj. by apply (uploadState_kept w).
    + intros Hacks. apply elem_of_nil_inv. intros i Hin%Ha. rewrite Ea in Hin by done. by apply elem_of_nil in Hin.
  - destruct Hcov as [Hnone Hack]. cbv zeta. fold v. cbn [fst snd].
    assert (unsaved_of v = []) as Hw by (unfold unsaved_of; by rewrite Eu).
    split_and!; try done; [|by rewrite Ei].
    split; rewrite ?Ei, ?Hw; [|right; destruct Hdone as [[? ?]|?]; [congruence|done]|done|done].
    destruct Hrows as [Hlen Hplace Hwritten Hacked]. unfold unsaved_of in Hwritten, Hacked. rewrite Hnone in *.
    split; [done..|].
    intros i it row H1 H2. destruct (Hacked i it row H1 H2) as [?|[Hin|?]]; auto. destruct acks.
    + unfold acks_of in Hin. rewrite Hack in Hin by done. by apply elem_of_nil in Hin.
    + right; left. by rewrite Eb.
Qed.

Lemma save_known acks at_ s : u_known (save acks at_ s).1 = u_known s.1.
Proof.
  destruct s as [u rows]. unfold save. cbv zeta.
  set (v := if acks then u <{ u_unsaved := None }> <{ u_unsavedAcks := None }> else u <{ u_unsaved := None }>).
  assert (u_known v = u_known u) as Hv by (by destruct acks).
  destruct (pending_of acks u) as [ids|]; [|done]. destruct (u_known v && u_stored v); [|done].
  assert (∀ s, u_known (fold_left (save_item at_) ids s).1 = u_known s.1) as Hf.
  { induction ids as [|id ids IH]; intros s; [done|]. cbn [fold_left]. rewrite IH.
    destruct s as [x r]. unfold save_item. by destruct (u_items x !! id). }
  specialize (Hf (v, rows)). destruct (fold_left _ ids (v, rows)). exact (eq_trans Hf Hv).
Qed.

(** ** The life of an upload *)

Lemma changes_known allowed u u' : rtc (change allowed) u u' → u_known u' = true → u_known u = true.
Proof. induction 1 as [|x y z Hxy _ IHx]; [done|]. intros H. by eapply change_known, IHx. Qed.
Lemma Forall2_shapes (P : relation Item) l' l :
  (∀ x y, P x y → shape x = shape y) → Forall2 P l' l → shape <$> l' = shape <$> l.
Proof. intros HP. induction 1 as [|x y l' l Hxy _ IH]; [done|]. by rewrite !fmap_cons, (HP _ _ Hxy), IH. Qed.
Lemma tree_shape x y : i_tree x = i_tree y → shape x = shape y.
Proof. intros Ht. unfold shape, i_id, i_name, i_kind, i_parent, i_children. by rewrite Ht. Qed.
Lemma file_kept_shapes l' l : Forall2 file_kept l' l → shape <$> l' = shape <$> l.
Proof. apply Forall2_shapes. intros x y [Hk _ _]. apply tree_shape, Hk. Qed.

Lemma record_current rank u c a : inv rank u → u_known u = true → current u (record u c a).
Proof.
  intros Hinv Hk. split; [| |by intros ?%name_of_inj%uploadState_kept|done].
  - assert (∀ i it row, u_items u !! i = Some it → transfer_items (record u c a) !! i = Some row →
      row = itemRecord it a) as Hrow.
    { intros i it row Hi. simpl. rewrite list_lookup_fmap, Hi. by intros [= <-]. }
    split; [by simpl; rewrite length_fmap|..]; intros i it row Hi Hr; rewrite (Hrow i it row Hi Hr).
    + split; try done; by apply (tk_id _ _ (inv_tree _ _ Hinv)).
    + by right.
    + by right; right.
  - right. intros Hd%name_of_inj. by apply (done_settled rank).
Qed.

Section lives.
Context (toUpperCase : text → text) (order : list nat).
Notation rank := (rank_in order).
Notation lives := (lives toUpperCase).

Record life_ok (u0 : Upload) (s : Upload * option Rows) : Prop := {
  lf_inv : inv rank s.1;
  lf_shapes : shapes s.1 = shapes u0;
  lf_rows : u_known s.1 = true → u_stored s.1 = true ∧ ∃ r, s.2 = Some r ∧ current s.1 r
}.
Lemma step_changes u e : inv rank u → rtc (change (λ _, True)) u (step toUpperCase u e).
Proof. intros Hinv. by apply (ev_step (λ _, True) toUpperCase rank u e). Qed.

Lemma life_ok_step u0 s l : life_ok u0 s → life_ok u0 (lives s l).
Proof.
  destruct s as [u rows]. intros [Hinv Hsh Hrows]. cbn [fst snd] in *.
  destruct l as [e at_|acks at_]; cbn [TransferRecords.lives].
  - pose proof (step_changes u e Hinv) as Hch. split; cbn [fst snd].
    + apply (inv_evolves order (λ _, True) u); [|done|done]. by eapply ev_step.
    + rewrite <- Hsh. by eapply changes_shapes.
    + intros Hk. assert (u_known u = true) as Hku by (by eapply changes_known).
      destruct (Hrows Hku) as (Hst & r & -> & Hcur). unfold rows_after. rewrite Hku, Hk. cbn [negb andb].
      destruct (changes_current _ _ _ r Hch Hk Hst Hcur). eauto.
  - destruct rows as [r|]; [|done]. destruct (u_known u) eqn:Hk.
    + destruct (Hrows eq_refl) as (Hst & r' & [= <-] & Hcur).
      pose proof (save_saves rank acks at_ u r Hinv Hk Hst Hcur) as Hs. cbv zeta in Hs.
      destruct (save acks at_ (u, r)) as [v q]. destruct Hs as (H1 & H2 & H3 & H4 & H5 & _).
      split; cbn [fst snd] in *; [done| |by eauto]. rewrite <- Hsh. by apply file_kept_shapes.
    + unfold save.
      set (v := if acks then u <{ u_unsaved := None }> <{ u_unsavedAcks := None }> else u <{ u_unsaved := None }>).
      assert (u_known v = false ∧ u_items v = u_items u) as [Ek Ei] by (by destruct acks).
      assert (life_ok u0 (v, Some r)) as Hv.
      { split; cbn [fst snd]; [by apply (inv_same rank u); destruct acks|by unfold shapes; rewrite Ei|congruence]. }
      cbv zeta. fold v. rewrite Ek. by destruct (pending_of acks u).
Qed.
Lemma life_ok_run u0 s ls : life_ok u0 s → life_ok u0 (run lives s ls).
Proof. intros Hs. apply (run_invariant _ (λ _, True)); [|by apply Forall_true|done]. intros. by apply life_ok_step. Qed.
End lives.

(** ** Bringing it back *)

Definition sort_key (t : TreeItem) : nat * nat := (depth (it_relPath t), it_id t).
Definition key_le (a b : nat * nat) : Prop := a.1 < b.1 ∨ a.1 = b.1 ∧ a.2 <= b.2.
#[local] Instance key_le_antisymm : AntiSymm (=) key_le.
Proof. intros [a b] [c d] H1 H2. unfold key_le in *. simpl in *. f_equal; lia. Qed.
#[local] Instance before_trans : Transitive before.
Proof. intros x y z. unfold before. lia. Qed.
#[local] Instance before_total : Total before.
Proof. intros x y. unfold before. lia. Qed.

(** The order depends on the ids and the paths alone. *)
Lemma order_same l1 l2 :
  sort_key <$> l1 = sort_key <$> l2 → it_id <$> merge_sort before l1 = it_id <$> merge_sort before l2.
Proof.
  intros Hk. assert (∀ l, it_id <$> merge_sort before l = snd <$> (sort_key <$> merge_sort before l)) as Hid.
  { intros l. by rewrite <- list_fmap_compose. }
  rewrite !Hid. f_equal. apply (StronglySorted_unique key_le).
  - apply (StronglySorted_fmap sort_key before); [by intros x y|apply StronglySorted_merge_sort; apply _].
  - apply (StronglySorted_fmap sort_key before); [by intros x y|apply StronglySorted_merge_sort; apply _].
  - by rewrite !merge_sort_Permutation, Hk.
Qed.

(** Finding the folders' paths changes nothing else. *)
Definition but_path (it' it : Item) : Prop := ∃ p, it' = it <{ i_path := p }>.
#[local] Instance but_path_preorder : PreOrder but_path.
Proof.
  split; [intros it; exists (i_path it); by destruct it|]. intros x y z [p ->] [q ->]. by exists p.
Qed.
Lemma find_paths toUpperCase style destDir order items :
  Forall2 but_path (fold_left (find_path toUpperCase style destDir) order items) items.
Proof.
  revert items. induction order as [|id order IH]; intros items; [done|]. cbn [fold_left].
  etransitivity; [apply IH|]. unfold find_path. destruct (items !! id) as [it|]; [|done].
  case_bool_decide; [|done]. case_match; [|done]. apply Forall2_alter_self; [apply _|]. intros x. by eexists.
Qed.

(** What a file is brought back as. *)
Record brought_back (it' it : Item) : Prop := {
  bb_tree : i_tree it' = i_tree it;
  bb_state : i_state it' = revive (i_state it);
  bb_acked : i_acked it' = i_acked it;
  bb_temp : i_temp it' = i_temp it;
  bb_whole : i_tempWhole it' = i_tempWhole it;
  bb_carried : i_carried it' = bool_decide (i_temp it ≠ None) && (0 <? i_acked it)%Z;
  bb_idle : i_sink it' = None ∧ i_opening it' = None ∧ i_writing it' = false
}.

Section restart.
Context (toUpperCase : text → text) (digest : list Parsed → text) (Hupper : upper_by_name toUpperCase).
Context (d : Destination) (raw : list RawItem) (tree : list TreeItem) (order : list nat).
Context (files : nat) (bytes : Z).
Context (Hbuilt : buildUploadTree toUpperCase digest (d_style d) (d_dir d) (Some raw) =
  Built tree order files bytes (d_signature d)).
Context (requester : TransferRequester) (backend : UploadBackend) (listing : text → list FileEntry).
Notation begun := (start toUpperCase d requester tree order backend listing true).
Notation rank := (rank_in order).

Lemma tree_built : tree_wf toUpperCase (d_style d) raw tree order ∧ order = it_id <$> merge_sort before tree.
Proof.
  destruct (build_cases toUpperCase digest (d_style d) (d_dir d) raw) as [[HS Hb]|[_ (? & ? & ? & Hb)]];
    rewrite Hbuilt in Hb; [|done].
  pose proof (built_wf toUpperCase (d_style d) (d_dir d) raw Hupper HS) as Hwf. unfold built in Hb.
  injection Hb as -> -> _ _ _. split; [exact Hwf|]. apply order_same. apply list_eq. intros i.
  rewrite !list_lookup_fmap, add_children. by destruct (_ !! i).
Qed.
Lemma begun_shapes : shapes begun = shape <$> (fresh_item <$> tree).
Proof.
  assert (rtc (change (λ _, True)) (assemble (blank d (r_tokenId requester) (fresh_item <$> tree) order
    (Some (r_clientId requester)) (Some backend))) begun) as Hch by (by apply ev_start).
  rewrite (changes_shapes _ _ _ Hch). unfold shapes. f_equal.
  apply (assemble_keeps u_items). intros it v. unfold count_item. by destruct (i_kind it).
Qed.

(** Rows that say what the items are. *)
Context (u : Upload) (r : Rows).
Context (Hshapes : shapes u = shape <$> (fresh_item <$> tree)).
Context (Hrows : rows_of (λ _, False) (λ _, False) (u_items u) (transfer_items r)).
Notation items := (u_items u).
Notation rows := (transfer_items r).

Lemma row_of i it :
  items !! i = Some it → ∃ row, rows !! i = Some row ∧ in_place i it row ∧ written it row ∧
    row_ackedOffset row = i_acked it.
Proof.
  intros Hit. destruct (lookup_lt_is_Some_2 rows i) as [row Hrow];
    [rewrite (ro_length _ _ _ _ Hrows); by eapply lookup_lt_Some|].
  exists row. split_and!; [done|by eapply ro_place|by destruct (ro_written _ _ _ _ Hrows i it row Hit Hrow)|].
  by destruct (ro_acked _ _ _ _ Hrows i it row Hit Hrow) as [|[|]].
Qed.
Lemma item_of_tree i it : items !! i = Some it → ∃ t, tree !! i = Some t ∧ shape it = shape (fresh_item t).
Proof.
  intros Hit. pose proof (f_equal (λ l, l !! i) Hshapes) as H. unfold shapes in H. cbv beta in H.
  rewrite !list_lookup_fmap, Hit in H. destruct (tree !! i) as [t|]; [|done].
  exists t. split; [done|]. by apply (inj Some) in H.
Qed.
Lemma row_tree_of i it row :
  items !! i = Some it → in_place i it row → written it row →
  row_tree row = MkItem i (it_relPath (i_tree it)) (i_name it) (i_kind it) (i_size it) (it_mtime (i_tree it))
    (i_parent it) [].
Proof.
  intros Hit [H1 H2 H3 H4 H5] [E1 E2 E3 E4 E5]. unfold row_tree, row_name. rewrite H2, H3, H4, H5, E1, E2.
  assert ((if bool_decide (name_of (i_kind it) = txt "dir") then dir else file) = i_kind it) as ->
    by (by destruct (i_kind it)).
  f_equal. destruct (item_of_tree i it Hit) as (t & Ht & Hsh). unfold shape in Hsh.
  injection Hsh as F1 F2 F3 _ _ _. rewrite F2, F3. destruct tree_built as [Hwf _].
  pose proof (t_parent _ _ _ _ _ Hwf i t Ht) as Hp. unfold slice_after_last, i_name. simpl.
  destruct (lastIndexOf SL (it_relPath t)); [by destruct Hp as [-> _]|by destruct Hp as [_ ->]].
Qed.
Lemma row_trees_of : row_trees rows = i_tree <$> items.
Proof.
  destruct tree_built as [Hwf _]. apply list_eq. intros i. unfold row_trees.
  rewrite add_children, !list_lookup_fmap. destruct (items !! i) as [it|] eqn:Hit.
  - destruct (row_of i it Hit) as (row & Hrow & Hip & Hw & _). rewrite Hrow. cbn [fmap option_fmap option_map].
    f_equal. rewrite (row_tree_of i it row Hit Hip Hw). cbn [it_id it_relPath it_name it_kind it_size it_mtime it_parent it_children app].
    destruct (item_of_tree i it Hit) as (t & Ht & Hsh). unfold shape in Hsh. injection Hsh as F1 _ _ _ _ F6.
    assert (it_id <$> filter (λ x, it_parent x = Some i) (row_tree <$> rows) = i_children it) as ->.
    { rewrite F6. unfold i_children. simpl. rewrite (t_children _ _ _ _ _ Hwf i t Ht). apply children_same.
      apply Forall2_same_length_lookup. pose proof (shapes_length u (u <{ u_items := fresh_item <$> tree }>)) as Hlen.
      simpl in Hlen. rewrite length_fmap in Hlen. rewrite length_fmap, (ro_length _ _ _ _ Hrows).
      split; [apply Hlen; unfold shapes in *; simpl; done|]. intros j x y Hx Hy. rewrite list_lookup_fmap in Hx.
      destruct (rows !! j) as [row'|] eqn:Hr'; [|done]. injection Hx as <-.
      destruct (lookup_lt_is_Some_2 items j) as [it' Hit'];
        [rewrite <- (ro_length _ _ _ _ Hrows); by eapply lookup_lt_Some|].
      destruct (row_of j it' Hit') as (row'' & Hr'' & Hip' & Hw' & _). rewrite Hr' in Hr''. injection Hr'' as <-.
      rewrite (row_tree_of j it' row' Hit' Hip' Hw'). simpl.
      destruct (item_of_tree j it' Hit') as (t' & Ht' & Hsh'). rewrite Hy in Ht'. injection Ht' as <-.
      unfold shape in Hsh'. injection Hsh' as G1 _ _ _ G5 _. unfold i_id, i_parent in *. simpl in *.
      split; [|done]. rewrite <- G1. symmetry. apply (ip_item _ _ _ Hip'). }
    pose proof (ip_item _ _ _ Hip) as Hid. unfold i_id, i_name, i_kind, i_size, i_parent, i_children in *.
    destruct (i_tree it); simpl in *. by subst.
  - destruct (rows !! i) as [row|] eqn:Hrow; [|done]. exfalso. apply lookup_lt_Some in Hrow.
    rewrite (ro_length _ _ _ _ Hrows) in Hrow. by apply lookup_ge_None in Hit; lia.
Qed.
Lemma row_order_of : row_order rows = order.
Proof.
  unfold row_order. rewrite row_trees_of. etransitivity; [|symmetry; apply tree_built]. apply order_same.
  rewrite <- list_fmap_compose. apply list_eq. intros i.
  pose proof (f_equal (λ l, l !! i) Hshapes) as H. unfold shapes in H. cbv beta in H.
  rewrite !list_lookup_fmap in *. destruct (items !! i), (tree !! i); try done. cbn in *.
  unfold shape, i_id in H. unfold sort_key. simpl in H. congruence.
Qed.
Lemma row_items_of i it :
  items !! i = Some it → ∃ row, rows !! i = Some row ∧ in_place i it row ∧ written it row ∧
    row_ackedOffset row = i_acked it ∧ row_items rows !! i = Some (row_item row (i_tree it)).
Proof.
  intros Hit. destruct (row_of i it Hit) as (row & Hrow & H1 & H2 & H3). exists row. split_and!; try done.
  unfold row_items. rewrite lookup_zip_with, row_trees_of, list_lookup_fmap, Hrow, Hit. done.
Qed.
Lemma length_row_items : length (row_items rows) = length items.
Proof.
  unfold row_items. rewrite length_zip_with, row_trees_of, length_fmap, (ro_length _ _ _ _ Hrows). lia.
Qed.

Context (Hinv : inv rank u).

Lemma row_item_back i it row :
  items !! i = Some it → in_place i it row → written it row → row_ackedOffset row = i_acked it →
  brought_back (row_item row (i_tree it)) it.
Proof.
  intros Hit [_ _ _ _ H5] [E1 E2 E3 E4 E5] E6. split; unfold row_item; cbn; try done.
  - by rewrite E3, revivedState_name.
  - rewrite H5, E6. destruct (i_kind it) eqn:Hk; cbn; [done|]. by rewrite (inv_folders _ _ Hinv i it).
  - by rewrite E4, E6.
Qed.
Lemma revived_blank_items : u_items (revived toUpperCase r) = u_items (revived_blank toUpperCase r).
Proof.
  etransitivity; [|apply (assemble_keeps u_items)]; [reflexivity|].
  intros it v. unfold count_item. by destruct (i_kind it).
Qed.
Lemma revived_brought : Forall2 brought_back (u_items (revived toUpperCase r)) items.
Proof.
  rewrite revived_blank_items. unfold revived_blank. cbv zeta. cbn [u_items blank]. rewrite row_order_of.
  match goal with |- context [find_path toUpperCase ?style ?dir] =>
    pose proof (find_paths toUpperCase style dir order (row_items rows)) as Hp end.
  apply Forall2_same_length_lookup. split; [by rewrite (Forall2_length _ _ _ Hp), length_row_items|].
  intros i it' it H1 H2. destruct (Forall2_lookup_l _ _ _ _ _ Hp H1) as (x & Hx & p & ->).
  destruct (row_items_of i it H2) as (row & _ & Hip & Hw & Ha & Hr). rewrite Hr in Hx. injection Hx as <-.
  destruct (row_item_back i it row H2 Hip Hw Ha). by split.
Qed.
Lemma revived_shapes : shapes (revived toUpperCase r) = shapes u.
Proof. apply (Forall2_shapes brought_back); [|apply revived_brought]. intros x y Hb. apply tree_shape, Hb. Qed.
Lemma revived_inv : inv rank (revived toUpperCase r) ∧ u_known (revived toUpperCase r) = true.
Proof.
  set (w := revived_blank toUpperCase r). set (v := revived toUpperCase r).
  pose proof (tree_ok_shapes v u rank revived_shapes (inv_tree _ _ Hinv)) as Hok.
  destruct (assemble_counts w rank) as (Hi & Hk & Hp & Hc); [by unfold w; rewrite <- revived_blank_items|done..|].
  split; [|exact Hk]. apply (inv_same rank (assemble w)); [done..|].
  split; rewrite ?Hi, ?Hp, ?assemble_queue; [by unfold w; rewrite <- revived_blank_items|done| |by intros ? ? Hin; inversion Hin|
    by intros ? Hin; inversion Hin].
  intros id it Hit Hd. unfold w in Hit. rewrite <- revived_blank_items in Hit.
  destruct (Forall2_lookup_l _ _ _ _ _ revived_brought Hit) as (x & Hx & Hb).
  rewrite (bb_acked _ _ Hb). apply (inv_folders _ _ Hinv id x Hx). unfold i_kind. by rewrite <- (bb_tree _ _ Hb).
Qed.
Lemma revived_unsettled : (∃ it, it ∈ items ∧ i_state it ∈ UNSETTLED) → isSettled (revived toUpperCase r) = false.
Proof.
  intros (it & [i Hit]%list_elem_of_lookup & Hs). apply not_true_is_false. destruct revived_inv as [Hv Hk].
  rewrite settled_iff by (by apply (inv_counts rank)). intros [_ Hall].
  destruct (Forall2_lookup_r _ _ _ _ _ revived_brought Hit) as (x & Hx & Hb).
  apply (Hall x); [by eapply list_elem_of_lookup_2|]. rewrite (bb_state _ _ Hb). by apply revive_unsettled.
Qed.
Lemma row_ids : row_id <$> rows = seq 0 (length rows).
Proof.
  apply list_eq. intros i. rewrite list_lookup_fmap. destruct (rows !! i) as [row|] eqn:Hrow.
  - pose proof (lookup_lt_Some _ _ _ Hrow) as Hlt. rewrite lookup_seq_lt by done.
    destruct (lookup_lt_is_Some_2 items i) as [it Hit]; [by rewrite <- (ro_length _ _ _ _ Hrows)|].
    simpl. by rewrite (ip_id _ _ _ (ro_place _ _ _ _ Hrows i it row Hit Hrow)).
  - symmetry. apply lookup_seq_ge. by apply lookup_ge_None.
Qed.
End restart.

Lemma ev_persist_revived rows u v :
  evolves (λ _, True) u v → evolves (λ _, True) u (persist_revived rows v).
Proof.
  intros Hv. unfold persist_revived. apply ev_persist, ev_for_each; [|done]. intros id y Hy.
  destruct (u_items y !! id); [|done]. destruct (rows !! id); [|by apply ev_persistItem].
  case_bool_decide; [by apply ev_persistItem|done].
Qed.
Lemma persist_revived_keeps {A} (g : Upload → A) rows v :
  (∀ u, g (persist u) = g u) → (∀ id u, g (persistItem id u) = g u) → g (persist_revived rows v) = g v.
Proof.
  intros Hp Hi. unfold persist_revived. rewrite Hp. apply for_each_ind. intros id x.
  destruct (u_items x !! id); [|done]. destruct (rows !! id); [|done]. by case_bool_decide.
Qed.

Ltac keeps := intros; unfold persist, persistItem; match goal with |- context [if ?b then _ else _] => by destruct b end.

(** ** A hub that starts again *)

Section started_again.
Context (toUpperCase : text → text) (digest : list Parsed → text) (Hupper : upper_by_name toUpperCase).
Context (d : Destination) (raw : list RawItem) (tree : list TreeItem) (order : list nat).
Context (files : nat) (bytes : Z).
Context (Hbuilt : buildUploadTree toUpperCase digest (d_style d) (d_dir d) (Some raw) =
  Built tree order files bytes (d_signature d)).
Context (requester : TransferRequester) (backend : UploadBackend) (listing : text → list FileEntry).
Notation prepared := (prepared toUpperCase d requester tree order backend listing).
Notation begun := (start toUpperCase d requester tree order backend listing true).
Notation rank := (rank_in order).
Notation changes := (rtc (change (λ _, True))).

Lemma begun_life createdAt at_ : life_ok order begun (begun, Some (record prepared createdAt at_)).
Proof.
  set (u := assemble (blank d (r_tokenId requester) (fresh_item <$> tree) order
    (Some (r_clientId requester)) (Some backend))).
  assert (inv rank u) as Hu by (by eapply assembled_inv).
  assert (evolves (λ _, True) u (recorded true prepared)) as Hv by (by apply ev_recorded, ev_prepared).
  assert (inv rank (recorded true prepared)) as Hr by (by eapply inv_evolves).
  assert (changes (recorded true prepared) begun) as Hb by (by apply ev_begun; [intros _|]).
  split; [by eapply begun_inv|done|]. cbn [fst snd]. intros Hk.
  pose proof (changes_known _ _ _ Hb Hk) as Hkr.
  destruct (changes_current _ _ _ (record prepared createdAt at_) Hb Hk eq_refl) as [Hc Hst]; [|by eauto].
  by apply (record_current rank (recorded true prepared)).
Qed.

Lemma bring_current u r host now :
  shapes u = shape <$> (fresh_item <$> tree) → inv rank u → u_known u = true → current u r →
  u_unsaved u = None → acks_of u = [] → (∃ it, it ∈ u_items u ∧ i_state it ∈ UNSETTLED) →
  (tr_state (transfer r) = name_of upload_interrupted → now - changedAt (transfer r) now < TRANSFER_EXPIRY_MS)%Z →
  let w := persist_revived (transfer_items r) (revived toUpperCase r) in
  bringBack toUpperCase (Some host) now r = b_back w ∧ inv rank w ∧
  Forall2 brought_back (u_items w) (u_items u) ∧ u_order w = order ∧ u_source w = None ∧ u_stale w = true.
Proof.
  intros Hsh Hinv Hk [Hrows Hdone Hkept Hup] Hun Hac Hleft Hnow.
  assert (rows_of (λ _, False) (λ _, False) (u_items u) (transfer_items r)) as Hr.
  { unfold unsaved_of in Hrows. rewrite Hun, Hac in Hrows. destruct Hrows as [H1 H2 H3 H4]. split; [done..| |].
    - intros i it row Hi Hrow. destruct (H3 i it row Hi Hrow) as [?%elem_of_nil|?]; auto.
    - intros i it row Hi Hrow. destruct (H4 i it row Hi Hrow) as [?%elem_of_nil|[?%elem_of_nil|?]]; auto. }
  destruct (revived_inv toUpperCase digest Hupper d raw tree order files bytes Hbuilt u r Hsh Hr Hinv) as [Hw Hkw].
  assert (isSettled (revived toUpperCase r) = false) as Hset.
  { by apply (revived_unsettled toUpperCase digest Hupper d raw tree order files bytes Hbuilt u r). }
  assert (tr_state (transfer r) ≠ name_of done) as Hnd.
  { intros Hd. destruct Hdone as [[? ?]|Hall]; [congruence|]. destruct Hleft as (it & Hit & Hs). by eapply Hall. }
  cbv zeta. split_and!.
  - unfold bringBack. cbv zeta. rewrite Hset, Hup.
    rewrite (bool_decide_eq_false_2 (Some host = None)), (bool_decide_eq_false_2 (txt "upload" ≠ _)),
      (bool_decide_eq_false_2 _ Hnd), (bool_decide_eq_false_2 _ Hkept),
      (bool_decide_eq_true_2 _ (row_ids u r Hr)) by auto. cbn [orb negb].
    case_bool_decide as Hi; [|done]. specialize (Hnow Hi).
    by destruct (Z.leb_spec TRANSFER_EXPIRY_MS (now - changedAt (transfer r) now)); [lia|].
  - apply (inv_evolves order (λ _, True) (revived toUpperCase r)); [|done|done].
    apply ev_persist_revived. by intros _.
  - rewrite (persist_revived_keeps u_items) by keeps.
    by apply (revived_brought toUpperCase digest Hupper d raw tree order files bytes Hbuilt).
  - rewrite (persist_revived_keeps u_order) by keeps. etransitivity; [apply (assemble_keeps u_order)|].
    + intros it x. unfold count_item. by destruct (i_kind it).
    + by apply (row_order_of toUpperCase digest Hupper d raw tree order files bytes Hbuilt u).
  - rewrite (persist_revived_keeps u_source) by keeps. etransitivity; [apply (assemble_keeps u_source)|done].
    intros it x. unfold count_item. by destruct (i_kind it).
  - by rewrite (persist_revived_keeps u_stale) by keeps.
Qed.

(** C23: A hub that stops and starts again has the upload it had. Take any life of an upload, steps
    and writes to meta.db interleaved as they may be, that ends with a write of everything, and of
    which something is still to be sent, answered or placed. Unless it was interrupted more than a
    week ago, what the new hub reads of its rows is that upload: the same tree in the same order,
    each file of the size and time it had, at the state it was at (one that was moving is
    interrupted), with what its host had acknowledged and the temporary those bytes are in; no window
    sends it; its counts are those of its items, and they stay so whatever it goes through next. *)
Theorem restart_brings_back life createdAt at_ asOf host now :
  let s := run (lives toUpperCase) (begun, Some (record prepared createdAt at_)) (life ++ [saved true asOf]) in
  u_known s.1 = true → (∃ it, it ∈ u_items s.1 ∧ i_state it ∈ UNSETTLED) →
  (∀ rows, s.2 = Some rows → tr_state (transfer rows) = name_of upload_interrupted →
    now - changedAt (transfer rows) now < TRANSFER_EXPIRY_MS)%Z →
  ∃ rows u,
    s.2 = Some rows ∧ bringBack toUpperCase (Some host) now rows = b_back u ∧
    Forall2 brought_back (u_items u) (u_items s.1) ∧ u_order u = order ∧
    u_source u = None ∧ u_stale u = true ∧
    ∀ es, let u' := run (step toUpperCase) u es in u_known u' = true → counts_of_items u'.
Proof.
  set (s0 := run (lives toUpperCase) (begun, Some (record prepared createdAt at_)) life).
  assert (life_ok order begun s0) as Hok by (by apply life_ok_run, begun_life).
  pose proof (life_ok_step toUpperCase order begun s0 (saved true asOf) Hok) as [Hinv Hsh _].
  intros s. assert (s = lives toUpperCase s0 (saved true asOf)) as Hs by (unfold s; by rewrite run_app).
  clearbody s. subst s. destruct Hok as [Hinv0 _ Hrows]. destruct s0 as [v orows].
  intros Hk Hleft Hnow. cbn [fst] in Hrows.
  assert (u_known v = true) as Hkv.
  { destruct orows as [r|]; [|done]. pose proof (save_known true asOf (v, r)) as Hs. cbn [lives] in Hk.
    destruct (save true asOf (v, r)). exact (eq_trans (eq_sym Hs) Hk). }
  destruct (Hrows Hkv) as (Hst & r & Hr & Hcur). cbn [snd] in Hr. subst orows.
  pose proof (save_saves rank true asOf v r Hinv0 Hkv Hst Hcur) as H. cbv zeta in H.
  cbn [lives] in *. destruct (save true asOf (v, r)) as [w q]. cbn [fst snd] in *.
  destruct H as (_ & _ & _ & Hcw & _ & _ & Hac & Hun).
  destruct (bring_current w q host now) as (Hb & Hinv' & Hbr & Ho & Hso & Hsta); [|done..|by apply Hac|done|by apply Hnow|].
  { by rewrite Hsh, <- (begun_shapes toUpperCase d tree order requester backend listing). }
  exists q, (persist_revived (transfer_items q) (revived toUpperCase q)). split_and!; [done..|].
  intros es. cbv zeta. apply (inv_counts rank).
  apply (run_invariant _ (λ _, True)); [|by apply Forall_true|done].
  intros x e _ Hx. by apply (inv_evolves order (λ _, True) x); [eapply ev_step|..].
Qed.
End started_again.

(** The window says Replace of the second file, its bytes arrive and are acknowledged, and the hub
    stops while the file is checked. *)
Definition sent_d : list Life :=
  saved false 1 :: ((λ e, stepped e 2) <$> take 7 replacing_d) ++
  saved false 3 :: ((λ e, stepped e 4) <$> take 2 (skipn 7 replacing_d)).
Lemma restart_brings_back_witness :
  let prepared_two := prepared shout (to_in ask) window built_two.1 built_two.2 sftp has_d in
  let s := run (lives shout) (begun_two, Some (record prepared_two 0 0)) (sent_d ++ [saved true 5]) in
  i_state <$> u_items s.1 = [queued; placed; verifying] ∧ i_acked <$> u_items s.1 = [0; 0; 2]%Z ∧
  ∃ rows u,
    s.2 = Some rows ∧ bringBack shout (Some (txt "ssh")) 6 rows = b_back u ∧
    Forall2 brought_back (u_items u) (u_items s.1) ∧ u_order u = built_two.2 ∧
    u_source u = None ∧ u_stale u = true ∧
    ∀ es, let u' := run (step shout) u es in u_known u' = true → counts_of_items u'.
Proof.
  intros prepared_two s. split; [by vm_compute|]. split; [by vm_compute|].
  apply (restart_brings_back shout no_digest shout_by_name (to_in ask) two_files built_two.1 built_two.2 2 5
    (built_two_ok ask) window sftp has_d sent_d 0 0 5 (txt "ssh") 6).
  - by vm_compute.
  - eexists. split; [apply (list_elem_of_lookup_2 _ 0); vm_compute; reflexivity|by vm_compute; left].
  - intros rows Hr Hs. pose proof (f_equal (fmap (λ r, tr_state (transfer r))) Hr) as E. cbn [fmap option_fmap option_map] in E.
    rewrite Hs in E. by vm_compute in E.
Defined.
