(* ===== verification/ChannelData.v ===== *)
(** * Terminals: their state, their rows, their names ([session-context.ts], [channels-dal.ts])

    What the hub keeps of a terminal in memory ([ChannelState]) and in meta.db ([Row], of which the
    columns its life goes by), the updates of a row, the name a terminal is shown under, and its
    working directory as its agent says it. Ids are strings; a row's place in the map is its age. *)

From S2P Require Import Prelude JsMap.
#[local] Open Scope lasterm_scope.

Notation HostId := string (only parsing).
Notation SessionId := string (only parsing).
Notation ChannelId := string (only parsing).
Notation ClientId := string (only parsing).

Inductive ChannelStatus := born | live | orphan | dead.
Inductive SessionStatus := starting | active | detached | disconnected | closed.
Inductive ChannelEndReason := killed | stopped.
#[export] Instance channel_status_eq : EqDecision ChannelStatus.
Proof. solve_decision. Defined.
#[export] Instance session_status_eq : EqDecision SessionStatus.
Proof. solve_decision. Defined.
#[export] Instance end_reason_eq : EqDecision ChannelEndReason.
Proof. solve_decision. Defined.

(** ** The working directory ([live-cwd.ts]) *)

Inductive CwdSource := from_shell | from_process | from_start.
Record LiveCwd := MkLiveCwd {
  lc_cwd : option string; lc_source : CwdSource; lc_atPrompt : option bool;
  lc_foreground : option string; lc_otherHost : option string
}.
(** A field of a decoded message, of whatever type. *)
Inductive Field := absent | null | text_ (s : string) | boolean (b : bool) | other_.
Record RawCwd := MkRawCwd {
  raw_cwd : Field; raw_source : Field; raw_atPrompt : Field; raw_foreground : Field; raw_otherHost : Field
}.
Definition source_of (f : Field) : option CwdSource :=
  match f with
  | text_ s =>
      if decide (s = "shell"%string) then Some from_shell
      else if decide (s = "process"%string) then Some from_process
      else if decide (s = "start"%string) then Some from_start else None
  | _ => None
  end.
Definition text_of (f : Field) : option string := match f with text_ s => Some s | _ => None end.
Definition boolean_of (f : Field) : option bool := match f with boolean b => Some b | _ => None end.
Definition liveCwdOf (msg : RawCwd) : option LiveCwd :=
  match raw_cwd msg with
  | null | text_ _ =>
      source ← source_of (raw_source msg);
      Some (MkLiveCwd (text_of (raw_cwd msg)) source (boolean_of (raw_atPrompt msg))
        (text_of (raw_foreground msg)) (text_of (raw_otherHost msg)))
  | _ => None
  end.
(** What ATTACH_OK and STATE_SYNC say of it. *)
Definition cwdFields (live : option LiveCwd) : option (option string * CwdSource * option string) :=
  (λ l, (lc_cwd l, lc_source l, lc_foreground l)) <$> live.

(** ** Names ([shared/src/constants.ts]) *)

Definition DEFAULT_CHANNEL_NAME : string := "Terminal".
Inductive TitleSource := dynamic | static | process.
(** A string that is there and not empty. *)
Definition said (s : option string) : option string :=
  match s with Some t => if truthy t then Some t else None | None => None end.
Definition or_else (a b : option string) : option string := match a with Some _ => a | None => b end.
Definition resolveChannelDisplayName (title dynamicTitle processTitle : option string)
  (titleSource : TitleSource) (staticTitle : string) : string :=
  let chosen := match titleSource with
    | dynamic => said dynamicTitle
    | process => said processTitle
    | static => said (Some staticTitle)
    end in
  default DEFAULT_CHANNEL_NAME
    (or_else (said title) (or_else chosen (or_else (said dynamicTitle) (said processTitle)))).

(** ** What runs in a terminal *)

Record Config := MkConfig {
  c_shell : option string; c_args : list string; c_cwd : option string; c_directProcess : bool
}.

(** [cs_clients] is the set of its clients, an object several states may share. [cs_startedAt] is
    absent of a terminal this run did not start. *)
Record ChannelState := MkChannel {
  cs_sessionId : SessionId; cs_hostId : HostId; cs_status : ChannelStatus; cs_clients : nat;
  cs_config : Config; cs_cols : Z; cs_rows : Z;
  cs_dynamicTitle : option string; cs_processTitle : option string; cs_displayTitle : string;
  cs_liveCwd : option LiveCwd; cs_startedAt : option nat
}.
Record SessionState := MkSession { ss_id : SessionId; ss_hostId : HostId; ss_status : SessionStatus }.

(** ** Rows ([ChannelsDAL]) *)

Record Row := MkRow {
  r_session : SessionId; r_shell : string; r_args : list string; r_cwd : option string;
  r_directProcess : bool; r_cols : Z; r_rows : Z; r_status : ChannelStatus; r_exitCode : option Z;
  r_endReason : option ChannelEndReason; r_title : option string; r_dynamicTitle : option string;
  r_processTitle : option string; r_launchProfileId : option string
}.
#[export] Instance row_fields : Fields Row := λ r,
  MkRow (r_session r) (r_shell r) (r_args r) (r_cwd r) (r_directProcess r) (r_cols r) (r_rows r)
    (r_status r) (r_exitCode r) (r_endReason r) (r_title r) (r_dynamicTitle r) (r_processTitle r)
    (r_launchProfileId r).
#[export] Instance set_r_session : Setter r_session. Proof. derive_setter. Defined.
#[export] Instance set_r_shell : Setter r_shell. Proof. derive_setter. Defined.
#[export] Instance set_r_args : Setter r_args. Proof. derive_setter. Defined.
#[export] Instance set_r_cwd : Setter r_cwd. Proof. derive_setter. Defined.
#[export] Instance set_r_cols : Setter r_cols. Proof. derive_setter. Defined.
#[export] Instance set_r_rows : Setter r_rows. Proof. derive_setter. Defined.
#[export] Instance set_r_status : Setter r_status. Proof. derive_setter. Defined.
#[export] Instance set_r_exitCode : Setter r_exitCode. Proof. derive_setter. Defined.
#[export] Instance set_r_endReason : Setter r_endReason. Proof. derive_setter. Defined.
#[export] Instance set_r_dynamicTitle : Setter r_dynamicTitle. Proof. derive_setter. Defined.
#[export] Instance set_r_processTitle : Setter r_processTitle. Proof. derive_setter. Defined.

#[export] Instance channel_state_fields : Fields ChannelState := λ c,
  MkChannel (cs_sessionId c) (cs_hostId c) (cs_status c) (cs_clients c) (cs_config c) (cs_cols c)
    (cs_rows c) (cs_dynamicTitle c) (cs_processTitle c) (cs_displayTitle c) (cs_liveCwd c) (cs_startedAt c).
#[export] Instance set_cs_sessionId : Setter cs_sessionId. Proof. derive_setter. Defined.
#[export] Instance set_cs_status : Setter cs_status. Proof. derive_setter. Defined.
#[export] Instance set_cs_cols : Setter cs_cols. Proof. derive_setter. Defined.
#[export] Instance set_cs_rows : Setter cs_rows. Proof. derive_setter. Defined.
#[export] Instance set_cs_dynamicTitle : Setter cs_dynamicTitle. Proof. derive_setter. Defined.
#[export] Instance set_cs_processTitle : Setter cs_processTitle. Proof. derive_setter. Defined.
#[export] Instance set_cs_displayTitle : Setter cs_displayTitle. Proof. derive_setter. Defined.
#[export] Instance set_cs_liveCwd : Setter cs_liveCwd. Proof. derive_setter. Defined.
#[export] Instance set_cs_startedAt : Setter cs_startedAt. Proof. derive_setter. Defined.

Notation Rows := (jsmap ChannelId Row).
Definition NO_SHELL : string := "".
Definition row_config (r : Row) : Config :=
  MkConfig (if decide (r_shell r = NO_SHELL) then None else Some (r_shell r)) (r_args r) (r_cwd r)
    (r_directProcess r).

(** [None] is the error of a row that is already there. *)
Definition createChannel (id : ChannelId) (r : Row) (rows : Rows) : option Rows :=
  if js_has id rows then None else Some (<[id := r]> rows).
Definition born_row (sessionId : SessionId) (c : Config) (cols rows : Z) (title profile : option string) : Row :=
  MkRow sessionId (default NO_SHELL (c_shell c)) (c_args c) (c_cwd c) (c_directProcess c) cols rows born None
    None title None None profile.

(** Why it ended goes with [dead]: it is kept when told again without a reason. *)
Definition end_reason (r : Row) (status : ChannelStatus) (endReason : option ChannelEndReason) :
  option ChannelEndReason :=
  if decide (status = dead) then
    match endReason with
    | Some reason => Some reason
    | None => if decide (r_status r = dead) then r_endReason r else None
    end
  else None.
Definition db_updateChannelStatus (id : ChannelId) (status : ChannelStatus) (exitCode : option Z)
  (endReason : option ChannelEndReason) (rows : Rows) : Rows :=
  js_alter (λ r,
    let r' := r <{ r_status := status }> <{ r_endReason := end_reason r status endReason }> in
    match exitCode with Some code => r' <{ r_exitCode := Some code }> | None => r' end) id rows.
Definition reviveChannel (id : ChannelId) (sessionId : SessionId) (cols rows_ : Z) (rows : Rows) : Rows :=
  js_alter (λ r, r <{ r_session := sessionId }> <{ r_status := born }> <{ r_exitCode := None }>
    <{ r_endReason := None }> <{ r_cols := cols }> <{ r_rows := rows_ }>) id rows.
(** Only what is given changes. *)
Definition updateChannelConfig (id : ChannelId) (shell : option string) (args : list string)
  (cwd : option string) (rows : Rows) : Rows :=
  js_alter (λ r,
    let r := match shell with Some s => r <{ r_shell := s }> | None => r end in
    let r := match args with [] => r | _ => r <{ r_args := args }> end in
    match cwd with Some d => r <{ r_cwd := Some d }> | None => r end) id rows.
Definition updateChannelDimensions (id : ChannelId) (cols rows_ : Z) (rows : Rows) : Rows :=
  js_alter (λ r, r <{ r_cols := cols }> <{ r_rows := rows_ }>) id rows.
Definition updateDynamicTitle (id : ChannelId) (title : string) (rows : Rows) : Rows :=
  js_alter (λ r, r <{ r_dynamicTitle := Some title }>) id rows.
Definition updateProcessTitle (id : ChannelId) (title : string) (rows : Rows) : Rows :=
  js_alter (λ r, r <{ r_processTitle := Some title }>) id rows.
Definition is_killed (r : Row) : bool := bool_decide (r_status r = dead ∧ r_endReason r = Some killed).
(** The terminals killed on purpose, oldest first. *)
Definition listKilledChannels (rows : Rows) : list (ChannelId * Row) :=
  filter (λ e, is_killed e.2 = true) (entries rows).
