(* ===== verification/ChannelTrackers.v ===== *)
(** * What the channel lifecycle asks of the snapshot scheduler and of the chunker

    [Screens] and [Outputs] are what the lifecycle of terminals uses of the two components that
    follow a running one: each is told to track a terminal or to let go of it, and of what happens
    to it meanwhile. Their instances are the scheduler of [SnapshotScheduler] and the chunker and
    spool of [Replay], whose insert never throws while they are [fine] ([chunker_never_throws]). *)

From Stdlib.Strings Require Import Byte.
From S2P Require Import Prelude JsMap SpoolDal OutputChunker Replay SnapshotScheduler.
#[local] Open Scope lasterm_scope.

Class Screens (T : Type) := {
  sc_track : Z → string → T → T;
  sc_untrack : string → T → T;
  sc_onDetach : Z → bool → string → T → T;
  sc_onOutput : Z → string → T → T;
  sc_onResize : Z → string → T → T;
  sc_onSnapshotResponse : string → T → T;
  sc_tracks : string → T → bool
}.
Class ScreensLaws (T : Type) `{Screens T} := {
  sc_tracks_track now ch ch' t : sc_tracks ch' (sc_track now ch t) = bool_decide (ch' = ch) || sc_tracks ch' t;
  sc_tracks_untrack ch ch' t : sc_tracks ch' (sc_untrack ch t) = negb (bool_decide (ch' = ch)) && sc_tracks ch' t;
  sc_tracks_onDetach now up ch ch' t : sc_tracks ch' (sc_onDetach now up ch t) = sc_tracks ch' t;
  sc_tracks_onOutput now ch ch' t : sc_tracks ch' (sc_onOutput now ch t) = sc_tracks ch' t;
  sc_tracks_onResize now ch ch' t : sc_tracks ch' (sc_onResize now ch t) = sc_tracks ch' t;
  sc_tracks_response ch ch' t : sc_tracks ch' (sc_onSnapshotResponse ch t) = sc_tracks ch' t
}.

(** [ou_storeSnapshot] is told the agent's screen and how far its own count went. *)
Class Outputs (T : Type) := {
  ou_track : string → T → T;
  ou_untrack : string → T → T;
  ou_onOutput : string → list byte → T → T;
  ou_storeSnapshot : string → list byte → Z → T → T;
  ou_tracks : string → T → bool;
  fine : T → Prop
}.
Class OutputsLaws (T : Type) `{Outputs T} := {
  fine_track ch t : fine t → fine (ou_track ch t);
  fine_untrack ch t : fine t → fine (ou_untrack ch t);
  fine_onOutput ch data t : fine t → fine (ou_onOutput ch data t);
  fine_storeSnapshot ch screen seq t : fine t → fine (ou_storeSnapshot ch screen seq t);
  ou_tracks_track ch ch' t : ou_tracks ch' (ou_track ch t) = bool_decide (ch' = ch) || ou_tracks ch' t;
  ou_tracks_untrack ch ch' t :
    fine t → ou_tracks ch' (ou_untrack ch t) = negb (bool_decide (ch' = ch)) && ou_tracks ch' t;
  ou_tracks_onOutput ch data ch' t : ou_tracks ch' (ou_onOutput ch data t) = ou_tracks ch' t;
  ou_tracks_storeSnapshot ch screen seq ch' t : ou_tracks ch' (ou_storeSnapshot ch screen seq t) = ou_tracks ch' t
}.

(** ** The scheduler *)

#[export] Instance scheduler_screens : Screens SnapshotScheduler := {
  sc_track := SnapshotScheduler.trackChannel;
  sc_untrack := SnapshotScheduler.untrackChannel;
  sc_onDetach := SnapshotScheduler.onDetach;
  sc_onOutput := SnapshotScheduler.onOutput;
  sc_onResize := SnapshotScheduler.onResize;
  sc_onSnapshotResponse := SnapshotScheduler.onSnapshotResponse;
  sc_tracks ch s := js_has ch (SnapshotScheduler.channels s)
}.

Lemma js_has_insert {V} k k' (v : V) (m : jsmap string V) :
  js_has k' (<[k := v]> m) = bool_decide (k' = k) || js_has k' m.
Proof. unfold js_has. rewrite js_lookup_insert. by repeat case_decide; case_bool_decide; simplify_eq. Qed.
Lemma js_has_delete {V} k k' (m : jsmap string V) :
  js_has k' (delete k m) = negb (bool_decide (k' = k)) && js_has k' m.
Proof. unfold js_has. rewrite js_lookup_delete. by repeat case_decide; case_bool_decide; simplify_eq. Qed.
Lemma js_has_alter {V} k k' (f : V → V) (m : jsmap string V) : js_has k' (js_alter f k m) = js_has k' m.
Proof. unfold js_has. rewrite js_lookup_alter. case_decide; [subst|done]. by destruct (m !! k'). Qed.

Lemma scheduler_asked now up ch ch' s :
  js_has ch' (SnapshotScheduler.channels (requestSnapshot now up ch s)) = js_has ch' (SnapshotScheduler.channels s).
Proof.
  unfold requestSnapshot. destruct (_ <=? _)%nat; [done|]. destruct up; simpl; by rewrite !js_has_alter.
Qed.
#[export] Instance scheduler_laws : ScreensLaws SnapshotScheduler.
Proof.
  split; intros; simpl.
  - unfold SnapshotScheduler.trackChannel. destruct (js_has ch _) eqn:Hh; simpl; [|apply js_has_insert].
    case_bool_decide; [by subst|done].
  - apply js_has_delete.
  - apply scheduler_asked.
  - apply js_has_alter.
  - apply js_has_alter.
  - done.
Qed.

(** ** The chunker and its spool *)

#[export] Instance hub_outputs : Outputs Replay.Hub := {
  ou_track ch h := set_chunker (OutputChunker.trackChannel ch None (chunker h)) h;
  ou_untrack ch h := set_chunker (OutputChunker.untrackChannel ch (chunker h)).2 h;
  ou_onOutput ch data h := set_chunker (OutputChunker.onOutput ch data (chunker h)).2 h;
  ou_storeSnapshot ch screen agentLastSeq h :=
    match storeSnapshot (λ b : list byte, b) ch screen agentLastSeq h with Some (_, h) => h | None => h end;
  ou_tracks ch h := js_has ch (OutputChunker.channels (chunker h));
  fine h := inv (chunker h)
}.

Section chunker.
Implicit Types (s : OutputChunker Db) (ch : string).
Notation has ch s := (js_has ch (OutputChunker.channels s)).

Lemma set_present ch ch' buf s :
  is_Some (OutputChunker.channels s !! ch) → has ch' (OutputChunker.set_channels (insert ch buf) s) = has ch' s.
Proof.
  intros Hs%js_has_true. simpl. rewrite js_has_insert. case_bool_decide; [by subst|done].
Qed.
Lemma flush_has ch ch' s : has ch' (flush ch s).2 = has ch' s.
Proof.
  unfold flush. destruct (OutputChunker.channels s !! ch) as [buf|] eqn:Hb; [|done]. destruct (_ =? _)%Z; [done|].
  destruct (concatChunks _ _); [|done]. destruct (st_insert _ _) as [[? ?]|]; [|done].
  cbn [snd]. by apply (set_present ch ch' _ s).
Qed.
Lemma onOutput_has ch data ch' s : has ch' (OutputChunker.onOutput ch data s).2 = has ch' s.
Proof.
  unfold OutputChunker.onOutput. destruct (OutputChunker.channels s !! ch) as [buf|] eqn:Hb; [|done]. cbv zeta.
  destruct (_ <=? _)%Z; cbn [snd]; rewrite ?flush_has; by apply set_present.
Qed.
Lemma bumpSeq_has ch n ch' s : has ch' (bumpSeq ch n s) = has ch' s.
Proof.
  unfold bumpSeq. destruct (OutputChunker.channels s !! ch) eqn:Hb; [|done]. destruct (_ <? _)%Z; [|done].
  by apply set_present.
Qed.
End chunker.

#[export] Instance hub_outputs_laws : OutputsLaws Replay.Hub.
Proof.
  split; simpl.
  - intros ch t Ht. destruct (OutputChunker.exec_spec _ (OutputChunker.TrackChannel ch None) Ht) as (s & [= <-] & Hs & _); done.
  - intros ch t Ht. by destruct (untrack_spec ch _ Ht) as (s & -> & Hs & _).
  - intros ch data t Ht. by destruct (onOutput_spec ch data _ Ht) as (s & -> & Hs & _).
  - intros ch screen seq t Ht. by destruct (storeSnapshot_spec (λ b : list byte, b) ch screen seq t Ht) as (i & h & n & -> & Hs & _).
  - intros ch ch' t. unfold OutputChunker.trackChannel. destruct (js_has ch _) eqn:Hh; simpl; [|apply js_has_insert].
    case_bool_decide; [by subst|done].
  - intros ch ch' t Ht. destruct (flush_spec ch _ (inv_inv_but _ _ Ht)) as (s & Hf & _ & _ & _ & Hh & _).
    unfold OutputChunker.untrackChannel. rewrite Hf. simpl. by rewrite js_has_delete, Hh.
  - intros ch data ch' t. apply onOutput_has.
  - intros ch screen seq ch' t. unfold storeSnapshot. destruct (flush ch (chunker t)) as [[] c] eqn:Hf; [|done].
    destruct (insertSnapshot _ _) as [[i db]|]; [|done]. simpl. rewrite bumpSeq_has. simpl.
    pose proof (flush_has ch ch' (chunker t)) as H. by rewrite Hf in H.
Qed.
