(* ===== verification/StateBroadcaster.v ===== *)
(** * What every window is told of the hub's state ([session/state-broadcaster.ts])

    [Hub] is the part of [SharedSessionContext] the life of a terminal goes by. The states of
    terminals and of sessions are objects: a map holds one by its place in a store, and what waits
    may hold one that no map holds any more; several states may share one set of clients. What is
    sent is a log, oldest first. A client that left is never written to: its id is not used again. *)

From Stdlib.Strings Require Import Byte.
From S2P Require Import Prelude JsMap ChannelData ChannelTrackers.
#[local] Open Scope lasterm_scope.

(** ** What is sent *)

(** An entry of STATE_SYNC: of a terminal that runs, or of one killed. *)
Record SyncEntry := MkSync {
  sy_id : ChannelId; sy_session : SessionId; sy_status : ChannelStatus;
  sy_displayTitle : option string; sy_cwd : option (option string * CwdSource * option string);
  sy_filesPanel : option bool; sy_exitCode : option Z; sy_endReason : option ChannelEndReason
}.
Inductive Msg :=
| CHANNEL_STATE (id : ChannelId) (session : SessionId) (status : ChannelStatus) (exitCode : option Z)
    (endReason : option ChannelEndReason)
| SESSION_STATE (session : SessionId) (host : HostId) (status : SessionStatus)
| STATE_SYNC (sessions : list (SessionId * HostId * SessionStatus)) (channels : list SyncEntry)
    (disconnected_by_user : list HostId)
| CHANNEL_CREATED (host : HostId) (id : ChannelId) (session : SessionId) (config : Config) (cols rows : Z)
    (displayTitle : string)
| TITLE_CHANGE (id : ChannelId) (title displayTitle : string)
| PROCESS_TITLE (id : ChannelId) (title displayTitle : string)
| CWD_CHANGE (id : ChannelId) (cwd : LiveCwd)
| FILES_PANEL (id : ChannelId) (open : bool)
| CHANNEL_SIZE (id : ChannelId) (cols rows : Z)
| OUTPUT (id : ChannelId) (data : list byte)
| SPAWN_OK (id : ChannelId) (host : HostId) (session : SessionId)
| ATTACH_OK (id : ChannelId) (cached : bool) (displayTitle : string) (cols rows : Z)
| INPUT_DROPPED (id : ChannelId) | BELL (id : ChannelId) | NOTIFICATION (id : ChannelId)
| ERROR (code : string) (id : option ChannelId).
(** To an agent; a SPAWN's environment is left out. *)
Inductive Cmd :=
| SPAWN (req : nat) (id : option ChannelId) (config : Config) (cols rows : Z)
| DESTROY (id : ChannelId) | ATTACH (req : nat) (id : ChannelId) | CWD_QUERY (id : ChannelId)
| INPUT (id : ChannelId) (data : list byte) | RESIZE (id : ChannelId) (cols rows : Z) | AUTH.
Inductive Output :=
| to_client (c : ClientId) (m : Msg) | to_agent (a : nat) (m : Cmd) | may_be_idle (host : HostId).

(** ** The hub *)

(** What a promise is waited for under: a request's id, or an ATTACH by its terminal. *)
Inductive ReqKey := by_id (n : nat) | attach_to (id : ChannelId).
#[export] Instance req_key_eq : EqDecision ReqKey.
Proof. solve_decision. Defined.

(** [h_reconnecting] is the hosts with a reconnect waiting its turn or under way; [h_waits] what
    waits, by its id ([W] is what it goes on with); [h_agents] agents by their place. *)
Record Hub {Sc Ou W : Type} := MkHub {
  h_now : Z; h_quitting : bool;
  h_agents : jsmap HostId nat; h_connected : list nat;
  h_sessions : jsmap HostId nat; h_sessionObjs : list SessionState;
  h_channels : jsmap ChannelId nat; h_objs : list ChannelState; h_sets : list (list ClientId);
  h_clients : jsmap ClientId (list ChannelId);
  h_stopping : list HostId; h_userDisconnected : list HostId; h_reconnecting : list HostId;
  h_starting : list ChannelId; h_clock : nat;
  h_requests : jsmap ReqKey nat; h_waits : jsmap nat W; h_nextId : nat;
  h_rows : Rows; h_sessionRows : jsmap SessionId (HostId * SessionStatus);
  h_titleTimers : jsmap ChannelId string; h_processTimers : jsmap ChannelId string;
  h_filesPanels : list ChannelId; h_bells : jsmap ChannelId (list Z); h_notifications : jsmap ChannelId (list Z);
  h_screens : Sc; h_outputs : Ou; h_log : list Output
}.
Arguments Hub : clear implicits.
#[export] Instance hub_fields {Sc Ou W} : Fields (Hub Sc Ou W) := λ h,
  MkHub Sc Ou W (h_now h) (h_quitting h) (h_agents h) (h_connected h) (h_sessions h) (h_sessionObjs h)
    (h_channels h) (h_objs h) (h_sets h) (h_clients h) (h_stopping h) (h_userDisconnected h)
    (h_reconnecting h) (h_starting h) (h_clock h) (h_requests h) (h_waits h) (h_nextId h) (h_rows h)
    (h_sessionRows h) (h_titleTimers h) (h_processTimers h) (h_filesPanels h) (h_bells h) (h_notifications h)
    (h_screens h) (h_outputs h) (h_log h).
#[export] Instance set_h_now {Sc Ou W} : Setter (@h_now Sc Ou W). Proof. derive_setter. Defined.
#[export] Instance set_h_quitting {Sc Ou W} : Setter (@h_quitting Sc Ou W). Proof. derive_setter. Defined.
#[export] Instance set_h_agents {Sc Ou W} : Setter (@h_agents Sc Ou W). Proof. derive_setter. Defined.
#[export] Instance set_h_connected {Sc Ou W} : Setter (@h_connected Sc Ou W). Proof. derive_setter. Defined.
#[export] Instance set_h_sessions {Sc Ou W} : Setter (@h_sessions Sc Ou W). Proof. derive_setter. Defined.
#[export] Instance set_h_sessionObjs {Sc Ou W} : Setter (@h_sessionObjs Sc Ou W). Proof. derive_setter. Defined.
#[export] Instance set_h_channels {Sc Ou W} : Setter (@h_channels Sc Ou W). Proof. derive_setter. Defined.
#[export] Instance set_h_objs {Sc Ou W} : Setter (@h_objs Sc Ou W). Proof. derive_setter. Defined.
#[export] Instance set_h_sets {Sc Ou W} : Setter (@h_sets Sc Ou W). Proof. derive_setter. Defined.
#[export] Instance set_h_clients {Sc Ou W} : Setter (@h_clients Sc Ou W). Proof. derive_setter. Defined.
#[export] Instance set_h_stopping {Sc Ou W} : Setter (@h_stopping Sc Ou W). Proof. derive_setter. Defined.
#[export] Instance set_h_userDisconnected {Sc Ou W} : Setter (@h_userDisconnected Sc Ou W). Proof. derive_setter. Defined.
#[export] Instance set_h_reconnecting {Sc Ou W} : Setter (@h_reconnecting Sc Ou W). Proof. derive_setter. Defined.
#[export] Instance set_h_starting {Sc Ou W} : Setter (@h_starting Sc Ou W). Proof. derive_setter. Defined.
#[export] Instance set_h_clock {Sc Ou W} : Setter (@h_clock Sc Ou W). Proof. derive_setter. Defined.
#[export] Instance set_h_requests {Sc Ou W} : Setter (@h_requests Sc Ou W). Proof. derive_setter. Defined.
#[export] Instance set_h_waits {Sc Ou W} : Setter (@h_waits Sc Ou W). Proof. derive_setter. Defined.
#[export] Instance set_h_nextId {Sc Ou W} : Setter (@h_nextId Sc Ou W). Proof. derive_setter. Defined.
#[export] Instance set_h_rows {Sc Ou W} : Setter (@h_rows Sc Ou W). Proof. derive_setter. Defined.
#[export] Instance set_h_sessionRows {Sc Ou W} : Setter (@h_sessionRows Sc Ou W). Proof. derive_setter. Defined.
#[export] Instance set_h_titleTimers {Sc Ou W} : Setter (@h_titleTimers Sc Ou W). Proof. derive_setter. Defined.
#[export] Instance set_h_processTimers {Sc Ou W} : Setter (@h_processTimers Sc Ou W). Proof. derive_setter. Defined.
#[export] Instance set_h_filesPanels {Sc Ou W} : Setter (@h_filesPanels Sc Ou W). Proof. derive_setter. Defined.
#[export] Instance set_h_bells {Sc Ou W} : Setter (@h_bells Sc Ou W). Proof. derive_setter. Defined.
#[export] Instance set_h_notifications {Sc Ou W} : Setter (@h_notifications Sc Ou W). Proof. derive_setter. Defined.
#[export] Instance set_h_screens {Sc Ou W} : Setter (@h_screens Sc Ou W). Proof. derive_setter. Defined.
#[export] Instance set_h_outputs {Sc Ou W} : Setter (@h_outputs Sc Ou W). Proof. derive_setter. Defined.
#[export] Instance set_h_log {Sc Ou W} : Setter (@h_log Sc Ou W). Proof. derive_setter. Defined.

(** What the hub reads of its configuration and of its table of hosts. *)
Class Setup := {
  titleSource : TitleSource; staticTitle : string;
  host_is_known : HostId → bool; host_is_ssh : HostId → bool
}.

Section broadcaster.
Context `{!Setup} {Sc Ou W : Type} `{!Screens Sc, !Outputs Ou}.
Notation Hub := (Hub Sc Ou W).
Implicit Types (h : Hub).

(** ** Reading and writing the objects *)

Definition channel_of (ch : ChannelId) h : option ChannelState := h_channels h !! ch ≫= λ r, h_objs h !! r.
Definition session_of (host : HostId) h : option SessionState := h_sessions h !! host ≫= λ r, h_sessionObjs h !! r.
Definition clients_of (c : ChannelState) h : list ClientId := default [] (h_sets h !! cs_clients c).
Definition on_obj (r : nat) (f : ChannelState → ChannelState) h : Hub := h <{ h_objs ::= alter f r }>.
Definition on_channel (ch : ChannelId) (f : ChannelState → ChannelState) h : Hub :=
  match h_channels h !! ch with Some r => on_obj r f h | None => h end.
Definition on_set (r : nat) (f : list ClientId → list ClientId) h : Hub := h <{ h_sets ::= alter f r }>.
Definition attach_id (c : ClientId) (ch : ChannelId) h : Hub := h <{ h_clients ::= js_alter (set_add ch) c }>.
Definition detach_id (c : ClientId) (ch : ChannelId) h : Hub := h <{ h_clients ::= js_alter (set_delete ch) c }>.
Definition agent_up (host : HostId) h : bool :=
  match h_agents h !! host with Some a => bool_decide (a ∈ h_connected h) | None => false end.

(** ** Sending *)

Definition emit (o : Output) h : Hub := h <{ h_log ::= λ l, l ++ [o] }>.
Definition tell (m : Msg) (c : ClientId) h : Hub :=
  if js_has c (h_clients h) then emit (to_client c m) h else h.
Definition tell_each (m : Msg) (cs : list ClientId) h : Hub := fold_left (λ h c, tell m c h) cs h.
Definition broadcastToAllClients (m : Msg) h : Hub := tell_each m (js_keys (h_clients h)) h.
Definition broadcastToChannel (ch : ChannelId) (m : Msg) h : Hub :=
  match channel_of ch h with Some c => tell_each m (clients_of c h) h | None => h end.
Definition getClientsForChannel (ch : ChannelId) h : list ClientId :=
  match channel_of ch h with
  | Some c => filter (λ id, js_has id (h_clients h) = true) (clients_of c h)
  | None => []
  end.

(** ** What a window is told when it connects *)

Definition filesPanelOf (ch : ChannelId) h : bool := bool_decide (ch ∈ h_filesPanels h).
Definition running_entry h (e : ChannelId * nat) : option SyncEntry :=
  match h_objs h !! e.2 with
  | Some c =>
      if decide (cs_status c = dead) then None
      else Some (MkSync e.1 (cs_sessionId c) (cs_status c) (Some (cs_displayTitle c)) (cwdFields (cs_liveCwd c))
                   (Some (filesPanelOf e.1 h)) None None)
  | None => None
  end.
Definition killed_entry (e : ChannelId * Row) : SyncEntry :=
  MkSync e.1 (r_session e.2) dead None None None (r_exitCode e.2) (Some killed).
Definition snapshot_channels h : list SyncEntry :=
  let running := omap (running_entry h) (entries (h_channels h)) in
  running ++ (killed_entry <$> filter (λ e, e.1 ∉ sy_id <$> running) (listKilledChannels (h_rows h))).
Definition snapshot_sessions h : list (SessionId * HostId * SessionStatus) :=
  omap (λ e, match h_sessionObjs h !! e.2 with
             | Some s => if decide (ss_status s = closed) then None else Some (ss_id s, e.1, ss_status s)
             | None => None
             end) (entries (h_sessions h)).
Definition getStateSnapshot h : Msg :=
  STATE_SYNC (snapshot_sessions h) (snapshot_channels h) (h_userDisconnected h).

(** ** Statuses *)

(** The session's state follows only if it is still the host's. *)
Definition updateSessionStatus (host : HostId) (session : SessionId) (status : SessionStatus) h : Hub :=
  let h := match h_sessions h !! host with
    | Some r =>
        h <{ h_sessionObjs ::= alter (λ s,
               if decide (ss_id s = session) then MkSession (ss_id s) (ss_hostId s) status else s) r }>
    | None => h
    end in
  h <{ h_sessionRows ::= js_alter (λ e, (e.1, status)) session }>
  |> broadcastToAllClients (SESSION_STATE session host status).
Definition announceSessionState (host : HostId) h : Hub :=
  match session_of host h with
  | Some s => broadcastToAllClients (SESSION_STATE (ss_id s) host (ss_status s)) h
  | None => h
  end.

Definition reason_said (status : ChannelStatus) (endReason : option ChannelEndReason) h :
  option ChannelEndReason :=
  if decide (status = dead) then
    match endReason with Some r => Some r | None => if h_quitting h then Some stopped else None end
  else None.
Definition updateChannelStatus (ch : ChannelId) (session : SessionId) (status : ChannelStatus)
  (exitCode : option Z) (endReason : option ChannelEndReason) h : Hub :=
  let reason := reason_said status endReason h in
  on_channel ch (λ c, c <{ cs_status := status }>) h
    <{ h_rows ::= db_updateChannelStatus ch status exitCode reason }>
  |> broadcastToAllClients (CHANNEL_STATE ch session status exitCode reason).

(** ** Attaching and detaching *)

Definition addClient (c : ClientId) h : Hub := h <{ h_clients ::= <[c := []]> }>.
(** A host's session is detached once none of its terminals is live. *)
Definition checkSessionDetached (host : HostId) h : Hub :=
  match session_of host h with
  | Some s =>
      if decide (ss_status s = active) then
        if existsb (λ r, match h_objs h !! r with
                         | Some c => bool_decide (cs_hostId c = host ∧ cs_status c = live)
                         | None => false
                         end) (js_values (h_channels h)) then h
        else updateSessionStatus host (ss_id s) detached h
      else h
  | None => h
  end.
Definition screen_agent_up (ch : ChannelId) h : bool :=
  match channel_of ch h with Some c => agent_up (cs_hostId c) h | None => false end.
Definition detachClient (c : ClientId) (ch : ChannelId) h : Hub :=
  let h := match channel_of ch h with
    | Some s =>
        let h := on_set (cs_clients s) (set_delete c) h in
        if decide (clients_of s h = [] ∧ cs_status s = live) then
          let h := updateChannelStatus ch (cs_sessionId s) orphan None None h in
          let h := h <{ h_screens ::= sc_onDetach (h_now h) (screen_agent_up ch h) ch }> in
          checkSessionDetached (cs_hostId s) h
        else h
    | None => h
    end in
  detach_id c ch h.
Definition removeClient (c : ClientId) h : Hub :=
  match h_clients h !! c with
  | Some attached => fold_left (λ h ch, detachClient c ch h) attached h <{ h_clients ::= delete c }>
  | None => h
  end.

(** ** Titles *)

Definition resolved_title (ch : ChannelId) h : option string :=
  match channel_of ch h, h_rows h !! ch with
  | None, None => None
  | c, r =>
      Some (resolveChannelDisplayName (r ≫= r_title) (or_else (c ≫= cs_dynamicTitle) (r ≫= r_dynamicTitle))
        (or_else (c ≫= cs_processTitle) (r ≫= r_processTitle)) titleSource staticTitle)
  end.
(** The name, and the state that keeps it when there is one. *)
Definition resolveDisplayTitle (ch : ChannelId) h : string * Hub :=
  match resolved_title ch h with
  | Some t => (t, on_channel ch (λ c, c <{ cs_displayTitle := t }>) h)
  | None => (DEFAULT_CHANNEL_NAME, h)
  end.
Definition notifyChannelRenamed (ch : ChannelId) h : Hub :=
  let c := channel_of ch h in
  let r := h_rows h !! ch in
  match c, r with
  | None, None => h
  | _, _ =>
      let title := default "" (or_else (c ≫= cs_dynamicTitle) (r ≫= r_dynamicTitle)) in
      let '(displayTitle, h) := resolveDisplayTitle ch h in
      let m := TITLE_CHANGE ch title displayTitle in
      match c with
      | Some c => if decide (clients_of c h = []) then broadcastToAllClients m h else broadcastToChannel ch m h
      | None => broadcastToAllClients m h
      end
  end.
Definition broadcastDisplayTitles h : Hub :=
  fold_left (λ h ch,
    let title := default "" (channel_of ch h ≫= cs_dynamicTitle) in
    let '(displayTitle, h) := resolveDisplayTitle ch h in
    broadcastToChannel ch (TITLE_CHANGE ch title displayTitle) h) (js_keys (h_channels h)) h.
Definition handleTitleChange (ch : ChannelId) (title : string) h : Hub :=
  match channel_of ch h with
  | Some _ =>
      let h := on_channel ch (λ c, c <{ cs_dynamicTitle := Some title }>) h in
      let '(displayTitle, h) := resolveDisplayTitle ch h in
      broadcastToChannel ch (TITLE_CHANGE ch title displayTitle) h <{ h_titleTimers ::= <[ch := title]> }>
  | None => h
  end.
Definition handleProcessTitle (ch : ChannelId) (title : string) h : Hub :=
  match channel_of ch h with
  | Some _ =>
      let h := on_channel ch (λ c, c <{ cs_processTitle := Some title }>) h in
      let '(displayTitle, h) := resolveDisplayTitle ch h in
      broadcastToChannel ch (PROCESS_TITLE ch title displayTitle) h <{ h_processTimers ::= <[ch := title]> }>
  | None => h
  end.
Definition clearTitleDebounce (ch : ChannelId) h : Hub := h <{ h_titleTimers ::= delete ch }>.
Definition clearProcessTitleDebounce (ch : ChannelId) h : Hub := h <{ h_processTimers ::= delete ch }>.
(** The timers of the two debounces. *)
Definition title_timer (ch : ChannelId) h : Hub :=
  match h_titleTimers h !! ch with
  | Some t => clearTitleDebounce ch h <{ h_rows ::= updateDynamicTitle ch t }>
  | None => h
  end.
Definition process_title_timer (ch : ChannelId) h : Hub :=
  match h_processTimers h !! ch with
  | Some t => clearProcessTitleDebounce ch h <{ h_rows ::= updateProcessTitle ch t }>
  | None => h
  end.

(** ** Directories, files panels, bells *)

Definition handleCwdChange (ch : ChannelId) (msg : RawCwd) h : Hub :=
  match channel_of ch h, liveCwdOf msg with
  | Some _, Some cwd =>
      on_channel ch (λ c, c <{ cs_liveCwd := Some cwd }>) h |> broadcastToChannel ch (CWD_CHANGE ch cwd)
  | _, _ => h
  end.
Definition setFilesPanel (ch : ChannelId) (open : bool) h : Hub :=
  if negb (js_has ch (h_channels h)) || bool_decide (filesPanelOf ch h = open) then h
  else
    h <{ h_filesPanels ::= if open then set_add ch else set_delete ch }>
    |> broadcastToChannel ch (FILES_PANEL ch open).
End broadcaster.

(** ** Rate limiting *)

(** The times kept of a terminal's events, those over a second old let go of first. *)
Fixpoint evict (cutoff : Z) (timestamps : list Z) : list Z :=
  match timestamps with
  | t :: ts => if (t <? cutoff)%Z then evict cutoff ts else timestamps
  | [] => []
  end.
Definition rateLimitCheck (now : Z) (ch : ChannelId) (maxPerSecond : nat) (store : jsmap ChannelId (list Z)) :
  bool * jsmap ChannelId (list Z) :=
  let timestamps := evict (now - 1000) (default [] (store !! ch)) in
  if maxPerSecond <=? length timestamps then (false, <[ch := timestamps]> store)
  else (true, <[ch := timestamps ++ [now]]> store).
