(* ===== verification/ChannelLifecycle.v ===== *)
(** * Starting, attaching, judging and ending terminals ([session/channel-lifecycle-manager.ts])

    With what drives it in [session-manager.ts] ([handleSpawn], [handleAttach], [restartChannel] and
    their callers) and [agent-connection-manager.ts] (what an agent sends, a connection that comes
    and goes). What waits is cut at each [await]: a window's request on its way to a host, a SPAWN
    or an ATTACH sent, a list of terminals asked for. The answer of one may come at any later step,
    or never; a timer set may fire at any later step; reaching a host is an event, whoever does it.
    Elevated restarts, the environment of a SPAWN, and the uploads are left out. *)

From Stdlib.Strings Require Import Byte.
From S2P Require Import Prelude JsMap ChannelData ChannelTrackers StateBroadcaster.
#[local] Open Scope lasterm_scope.

(** ** What waits *)

(** [sendSpawnAndWait]: what its SPAWN_OK creates. *)
Record Spawning := MkSpawning {
  sp_client : ClientId; sp_host : HostId; sp_agent : nat; sp_session : SessionId; sp_config : Config;
  sp_profile : option string; sp_cols : Z; sp_rows : Z; sp_reuse : option ChannelId
}.
(** [restartChannel]: its row, its session and its state as they were before it waited. *)
Record Restarting := MkRestarting {
  rs_channel : ChannelId; rs_row : Row; rs_host : HostId; rs_session : option nat; rs_obj : option nat
}.
Inductive RespawnFor := reattaching (session : SessionId) | warm_restart.
Inductive StatesFor := adopting (others : bool) | attaching (session : SessionId).
Inductive AttachAnswer := agent_attached (screen : list byte) (lastSeq : Z) | agent_has_none | agent_failed.
Inductive Wait :=
| w_spawnOnHost (client : ClientId) (host : HostId) (reuse : option ChannelId) (automatic : bool)
| w_spawnReach (client : ClientId) (host : HostId) (reuse : option ChannelId)
| w_spawn (s : Spawning)
| w_restartBegin (ch : ChannelId)
| w_restartReach (r : Restarting)
| w_restart (r : Restarting) (answer : option (option ChannelId))
| w_respawn (ch : ChannelId) (obj : nat) (for_ : RespawnFor)
| w_attachReach (client : ClientId) (ch : ChannelId) (obj : nat) (displayTitle : string)
| w_attach (client : ClientId) (ch : ChannelId) (obj : nat) (displayTitle : string) (askedAt : nat)
    (answer : option AttachAnswer)
| w_states (host : HostId) (agent : nat) (askedAt : nat) (for_ : StatesFor).

Inductive AgentMsg :=
| m_SPAWN_OK (ch : ChannelId) | m_SPAWN_ERR (code : string)
| m_ATTACH_OK (ch : ChannelId) (screen : list byte) (lastSeq : Z)
| m_ERROR (ch : option ChannelId) (not_found : bool) (input_dropped : bool)
| m_OUTPUT (ch : ChannelId) (data : list byte)
| m_SNAPSHOT_RES (ch : ChannelId) (screen : list byte) (lastSeq : Z)
| m_CHANNEL_EXIT (ch : ChannelId) (exitCode : option Z)
| m_TITLE_CHANGE (ch : ChannelId) (title : string) | m_PROCESS_TITLE (ch : ChannelId) (title : string)
| m_CWD_CHANGE (ch : ChannelId) (msg : RawCwd)
| m_BELL (ch : ChannelId) | m_NOTIFICATION (ch : ChannelId).

Section lifecycle.
Context `{!Setup} {Sc Ou : Type} `{!Screens Sc, !Outputs Ou}.
Notation Hub := (Hub Sc Ou Wait).
Implicit Types (h : Hub).

(** ** Waiting *)

Definition push (w : Wait) h : Hub := h <{ h_waits ::= <[h_nextId h := w]> }> <{ h_nextId ::= S }>.
Definition drop_wait (n : nat) h : Hub := h <{ h_waits ::= delete n }>.
Definition settle (n : nat) (w : Wait) h : Hub := h <{ h_waits ::= js_alter (λ _, w) n }>.
(** A request sent under a new id, whose answer [w] goes on with. *)
Definition ask (agent : nat) (m : nat → Cmd) (w : Wait) h : Hub :=
  let n := h_nextId h in
  emit (to_agent agent (m n)) h <{ h_requests ::= <[by_id n := n]> }> |> push w.
Definition forget_request (n : nat) h : Hub := h <{ h_requests ::= delete (by_id n) }>.

(** ** Ending terminals *)

Definition agentMayBeIdle (host : HostId) h : Hub := emit (may_be_idle host) h.
Definition untrack (ch : ChannelId) h : Hub :=
  h <{ h_screens ::= sc_untrack ch }> <{ h_outputs ::= ou_untrack ch }>.
Definition track (ch : ChannelId) h : Hub :=
  h <{ h_screens ::= sc_track (h_now h) ch }> <{ h_outputs ::= ou_track ch }>.
Definition delete_channel (ch : ChannelId) h : Hub := h <{ h_channels ::= delete ch }>.

Definition destroyChannel (ch : ChannelId) h : Hub :=
  match channel_of ch h with
  | Some c =>
      let h := match h_agents h !! cs_hostId c with
        | Some a => if decide (a ∈ h_connected h) then emit (to_agent a (DESTROY ch)) h else h
        | None => h
        end in
      h |> updateChannelStatus ch (cs_sessionId c) dead None (Some killed) |> untrack ch |> delete_channel ch
        |> agentMayBeIdle (cs_hostId c)
  | None => h
  end.
(** Out of everything that speaks to a running terminal. *)
Definition forgetChannel (ch : ChannelId) h : Hub :=
  let h := match channel_of ch h with
    | Some c => fold_left (λ h id, detach_id id ch h) (clients_of c h) h
    | None => h
    end in
  h |> untrack ch |> delete_channel ch.
Definition retireChannel (ch : ChannelId) (session : SessionId) h : Hub :=
  let host := cs_hostId <$> channel_of ch h in
  let h := h |> updateChannelStatus ch session dead None None |> forgetChannel ch in
  match host with Some host => agentMayBeIdle host h | None => h end.
(** Every terminal of a host, each ended with [ending] unless it has, and forgotten. *)
Definition end_all (host : HostId) (ending : ChannelId → ChannelState → Hub → Hub) h : Hub :=
  fold_left (λ h ch,
    match channel_of ch h with
    | Some c =>
        if decide (cs_hostId c = host) then
          forgetChannel ch (if decide (cs_status c = dead) then h else ending ch c h)
        else h
    | None => h
    end) (js_keys (h_channels h)) h.
Definition endChannelsOfStoppedAgent (host : HostId) h : Hub :=
  end_all host (λ ch c, updateChannelStatus ch (cs_sessionId c) dead None (Some stopped)) h.
Definition closeSession (host : HostId) (session : SessionId) (endReason : option ChannelEndReason) h : Hub :=
  h <{ h_reconnecting ::= set_delete host }>
  |> end_all host (λ ch _, updateChannelStatus ch session dead None endReason)
  |> updateSessionStatus host session closed
  |> (λ h, h <{ h_sessions ::= delete host }>).

(** ** Answers, and the starts they predate *)

(** [askingAgent] and [startedNow]: the clock ticks, and is read. *)
Definition tick h : Hub := h <{ h_clock ::= S }>.
Definition answerStillApplies (ch : ChannelId) (askedAt : nat) h : bool :=
  match channel_of ch h with
  | Some c =>
      if decide (ch ∈ h_starting h) then false
      else bool_decide (default 0 (cs_startedAt c) <= askedAt)
  | None => false
  end.

(** ** Starting *)

(** A new state, and its place. *)
Definition new_channel (session : SessionId) (host : HostId) (clients : nat) (config : Config)
  (cols rows : Z) (startedAt : nat) : ChannelState :=
  MkChannel session host live clients config cols rows None None DEFAULT_CHANNEL_NAME None (Some startedAt).
Definition put_channel (ch : ChannelId) (c : ChannelState) h : Hub :=
  h <{ h_objs ::= λ l, l ++ [c] }> <{ h_channels ::= <[ch := length (h_objs h)]> }>.
Definition new_set (cs : list ClientId) h : nat * Hub := (length (h_sets h), h <{ h_sets ::= λ l, l ++ [cs] }>).
Definition row_status (ch : ChannelId) (status : ChannelStatus) h : Hub :=
  h <{ h_rows ::= db_updateChannelStatus ch status None None }>.
Definition release (reuse : option ChannelId) h : Hub :=
  match reuse with Some ch => h <{ h_starting ::= set_delete ch }> | None => h end.
Definition created_message (ch : ChannelId) (host : HostId) (session : SessionId) (config : Config)
  (cols rows : Z) h : Hub :=
  let '(displayTitle, h) := resolveDisplayTitle ch h in
  broadcastToAllClients (CHANNEL_CREATED host ch session config cols rows displayTitle) h.

Definition sendSpawnAndWait (s : Spawning) h : Hub :=
  if decide (sp_host s ∈ h_stopping h) then
    tell (ERROR "HOST_BUSY" (sp_reuse s)) (sp_client s) h |> release (sp_reuse s)
  else if h_quitting h then tell (ERROR "HUB_QUITTING" None) (sp_client s) h |> release (sp_reuse s)
  else ask (sp_agent s) (λ n, SPAWN n (sp_reuse s) (sp_config s) (sp_cols s) (sp_rows s)) (w_spawn s) h.
(** Its row: kept for a terminal brought back, else new; [None] is the error of a row already there. *)
Definition spawned_row (s : Spawning) (ch : ChannelId) (rows : Rows) : option Rows :=
  if decide (sp_reuse s = Some ch) then
    Some (rows |> reviveChannel ch (sp_session s) (sp_cols s) (sp_rows s)
               |> updateChannelConfig ch (c_shell (sp_config s)) (c_args (sp_config s)) (c_cwd (sp_config s)))
  else createChannel ch (born_row (sp_session s) (sp_config s) (sp_cols s) (sp_rows s) None (sp_profile s)) rows.
Definition spawned (n : nat) (s : Spawning) (ch : ChannelId) h : Hub :=
  let h := forget_request n h |> drop_wait n in
  match spawned_row s ch (h_rows h) with
  | None => h
  | Some rows =>
      let '(set, h) := new_set [sp_client s] (h <{ h_rows := rows }>) in
      let h := tick h in
      h |> put_channel ch (new_channel (sp_session s) (sp_host s) set (sp_config s) (sp_cols s) (sp_rows s) (h_clock h))
        |> row_status ch live |> track ch |> attach_id (sp_client s) ch
        |> broadcastToAllClients (CHANNEL_STATE ch (sp_session s) live None None)
        |> created_message ch (sp_host s) (sp_session s) (sp_config s) (sp_cols s) (sp_rows s)
        |> tell (SPAWN_OK ch (sp_host s) (sp_session s)) (sp_client s)
        |> release (sp_reuse s)
  end.
Definition spawn_answer (n : nat) (s : Spawning) (m : AgentMsg) h : Hub :=
  if h_quitting h then
    forget_request n h |> drop_wait n |> tell (ERROR "HUB_QUITTING" None) (sp_client s) |> release (sp_reuse s)
  else
    match m with
    | m_SPAWN_OK ch => spawned n s ch h
    | m_SPAWN_ERR code =>
        forget_request n h |> drop_wait n |> tell (ERROR code None) (sp_client s) |> release (sp_reuse s)
    | _ => h
    end.
(** Whether the host was away meanwhile, and the status of its session. *)
Definition hostAwayDuringSpawn (host : HostId) (agent : nat) h : option SessionStatus :=
  let current := bool_decide (h_agents h !! host = Some agent) in
  if current && bool_decide (agent ∈ h_connected h) then None
  else match session_of host h with
       | None => None
       | Some s =>
           if decide (ss_status s = closed) then None
           else Some (if current then disconnected else ss_status s)
       end.
Definition spawn_timeout (n : nat) (s : Spawning) h : Hub :=
  let code := match hostAwayDuringSpawn (sp_host s) (sp_agent s) h with
    | Some _ => ERROR "HOST_UNREACHABLE" (sp_reuse s)
    | None => ERROR "SPAWN_FAILED" None
    end in
  forget_request n h |> drop_wait n |> tell code (sp_client s) |> release (sp_reuse s).

(** The hub lost this host and is reaching for it again. *)
Definition hostReconnecting (host : HostId) h : option SessionStatus :=
  if agent_up host h then None
  else match session_of host h with
       | Some s =>
           if decide (ss_status s = disconnected ∧ host ∈ h_reconnecting h) then Some disconnected else None
       | None => None
       end.
Definition userActsOnHost (host : HostId) h : Hub :=
  if decide (host ∈ h_userDisconnected h) then
    h <{ h_userDisconnected ::= set_delete host }> |> announceSessionState host
  else h.
(** The host a terminal's row is on. *)
Definition getChannelWithHost (ch : ChannelId) h : option (Row * HostId) :=
  r ← h_rows h !! ch; s ← h_sessionRows h !! r_session r;
  if host_is_known s.1 then Some (r, s.1) else None.

(** A terminal brought back is claimed until its start has its answer. *)
Definition may_reuse (ch : ChannelId) (host : HostId) h : bool :=
  match getChannelWithHost ch h with
  | Some (_, on) =>
      bool_decide (on = host ∧ ch ∉ h_starting h) &&
      match channel_of ch h with Some c => bool_decide (cs_status c = dead) | None => true end
  | None => false
  end.
Definition handleSpawn (client : ClientId) (host : HostId) (reuse : option ChannelId) (automatic : bool) h : Hub :=
  if negb (js_has client (h_clients h)) then h
  else if h_quitting h then tell (ERROR "HUB_QUITTING" None) client h
  else match reuse with
       | None => push (w_spawnOnHost client host None automatic) h
       | Some ch =>
           if may_reuse ch host h then
             h <{ h_starting ::= set_add ch }> |> push (w_spawnOnHost client host (Some ch) automatic)
           else tell (ERROR "CHANNEL_NOT_REUSABLE" (Some ch)) client h
       end.
(** [spawnOnHost], until the host is reached for. *)
Definition spawnOnHost (n : nat) (client : ClientId) (host : HostId) (reuse : option ChannelId)
  (automatic : bool) h : Hub :=
  let h := drop_wait n h in
  let refused m := tell m client h |> release reuse in
  if decide (host ∈ h_stopping h) then refused (ERROR "HOST_BUSY" reuse)
  else if negb (host_is_known host) then refused (ERROR "HOST_NOT_FOUND" None)
  else if bool_decide (host ∈ h_userDisconnected h) && automatic then refused (ERROR "HOST_UNREACHABLE" reuse)
  else
    let h := userActsOnHost host h in
    match hostReconnecting host h with
    | Some _ => tell (ERROR "HOST_UNREACHABLE" reuse) client h |> release reuse
    | None => push (w_spawnReach client host reuse) h
    end.

(** ** Restarting *)

Definition restart_over (ch : ChannelId) h : Hub := h <{ h_starting ::= set_delete ch }>.
(** [SessionManager.restartChannel], once no replacement of the agent is under way. *)
Definition restartChannel (ch : ChannelId) h : Hub :=
  match getChannelWithHost ch h with
  | Some (_, host) =>
      if bool_decide (host ∈ h_stopping h) || h_quitting h || bool_decide (hostReconnecting host h ≠ None) then h
      else
        let h := userActsOnHost host h in
        if decide (ch ∈ h_starting h) then h
        else h <{ h_starting ::= set_add ch }> |> push (w_restartBegin ch)
  | None =>
      if h_quitting h || bool_decide (ch ∈ h_starting h) then h
      else h <{ h_starting ::= set_add ch }> |> push (w_restartBegin ch)
  end.
Definition session_at (r : Restarting) h : option SessionState := rs_session r ≫= λ i, h_sessionObjs h !! i.
(** With an agent or without: the SPAWN, under the terminal's own id. *)
Definition restart_send (r : Restarting) h : Hub :=
  match session_at r h, h_agents h !! rs_host r with
  | Some s, Some a =>
      if negb (bool_decide (ss_status s = active ∨ ss_status s = detached)) || negb (bool_decide (a ∈ h_connected h)) ||
         bool_decide (rs_host r ∈ h_stopping h) || h_quitting h
      then restart_over (rs_channel r) h
      else ask a (λ n, SPAWN n (Some (rs_channel r)) (row_config (rs_row r)) (r_cols (rs_row r)) (r_rows (rs_row r)))
             (w_restart r None) h
  | _, _ => restart_over (rs_channel r) h
  end.
Definition restart_begin (n : nat) (ch : ChannelId) h : Hub :=
  let h := drop_wait n h in
  if h_quitting h then restart_over ch h
  else match getChannelWithHost ch h with
       | None => restart_over ch h
       | Some (row, host) =>
           let up := agent_up host h in
           let r := MkRestarting ch row host (h_sessions h !! host) (h_channels h !! ch) in
           let h := match h_agents h !! host, channel_of ch h with
             | Some a, Some c =>
                 if up && negb (bool_decide (cs_status c = dead)) then emit (to_agent a (DESTROY ch)) h else h
             | _, _ => h
             end in
           if up then restart_send r h else push (w_restartReach r) h
       end.
(** [onReconnectAgent] came back. *)
Definition restart_reached (n : nat) (r : Restarting) (reconnected : bool) h : Hub :=
  let h := drop_wait n h in
  if reconnected then
    restart_send (MkRestarting (rs_channel r) (rs_row r) (rs_host r)
      (h_sessions h !! rs_host r) (rs_obj r)) h
  else restart_over (rs_channel r) h.

(** Another id than its own: the one it had is ended, its clients and its row move to the new one. *)
Definition move_clients (from to_ : ChannelId) (cs : list ClientId) h : Hub :=
  fold_left (λ h c, h |> detach_id c from |> attach_id c to_) cs h.
Definition row_if_missing (ch : ChannelId) (session : SessionId) (r : Row) h : Hub :=
  match createChannel ch (born_row session (row_config r) (r_cols r) (r_rows r) (r_title r) (r_launchProfileId r))
          (h_rows h) with
  | Some rows => h <{ h_rows := rows }>
  | None => h
  end.
Definition applyRestartState (ch : ChannelId) (r : Restarting) h : Hub :=
  match session_at r h with
  | None => h
  | Some s =>
      let row := rs_row r in
      let '(set, h) := match rs_obj r ≫= λ o, h_objs h !! o with
        | Some c => (cs_clients c, h)
        | None => new_set [] h
        end in
      let changed := negb (bool_decide (ch = rs_channel r)) in
      let h := if changed then
          let h := retireChannel (rs_channel r) (ss_id s) h in
          h |> move_clients (rs_channel r) ch (default [] (h_sets h !! set)) |> row_if_missing ch (ss_id s) row
        else h in
      let h := row_status ch live h |> tick in
      let h := h
        |> put_channel ch (new_channel (ss_id s) (rs_host r) set (row_config row) (r_cols row) (r_rows row) (h_clock h))
        |> track ch in
      let h := if changed then created_message ch (rs_host r) (ss_id s) (row_config row) (r_cols row) (r_rows row) h else h in
      let h := broadcastToAllClients (CHANNEL_STATE ch (ss_id s) live None None) h in
      match session_at r h with
      | Some s => if decide (ss_status s = detached) then updateSessionStatus (rs_host r) (ss_id s) active h else h
      | None => h
      end
  end.
Definition restart_answer (n : nat) (r : Restarting) (m : AgentMsg) h : Hub :=
  forget_request n h |> settle n (w_restart r (Some (if h_quitting h then None else
    match m with m_SPAWN_OK ch => Some ch | _ => None end))).
Definition restart_answered (n : nat) (r : Restarting) (answer : option ChannelId) h : Hub :=
  let h := drop_wait n h in
  match answer with
  | Some ch => if h_quitting h then restart_over (rs_channel r) h
               else applyRestartState ch r h |> restart_over (rs_channel r)
  | None => restart_over (rs_channel r) h
  end.

(** ** Attaching *)

Definition sizeOf (ch : ChannelId) (obj : nat) h : Z * Z :=
  match (match channel_of ch h with Some c => Some c | None => h_objs h !! obj end) with Some c => (cs_cols c, cs_rows c) | None => (0, 0)%Z end.
Definition attach_ok (ch : ChannelId) (obj : nat) (cached : bool) (displayTitle : string) (client : ClientId) h : Hub :=
  let '(cols, rows) := sizeOf ch obj h in tell (ATTACH_OK ch cached displayTitle cols rows) client h.
Definition attach_ask (client : ClientId) (ch : ChannelId) (obj : nat) (displayTitle : string) (a : nat) h : Hub :=
  let h := tick h in
  let n := h_nextId h in
  ask a (λ n, ATTACH n ch) (w_attach client ch obj displayTitle (h_clock h) None) h
    <{ h_requests ::= <[attach_to ch := n]> }>.
(** With the agent, if it is connected; else from the spool. *)
Definition attach_reached (client : ClientId) (ch : ChannelId) (obj : nat) (displayTitle : string) (host : HostId) h : Hub :=
  match h_agents h !! host with
  | Some a => if decide (a ∈ h_connected h) then attach_ask client ch obj displayTitle a h
              else attach_ok ch obj true displayTitle client h
  | None => attach_ok ch obj true displayTitle client h
  end.
(** A name it had before, when its state has none. *)
Definition restored (ch : ChannelId) h : Hub :=
  on_channel ch (λ c, c
    <{ cs_dynamicTitle := or_else (cs_dynamicTitle c) (h_rows h !! ch ≫= r_dynamicTitle) }>
    <{ cs_processTitle := or_else (cs_processTitle c) (h_rows h !! ch ≫= r_processTitle) }>) h.
Definition handleAttach (client : ClientId) (ch : ChannelId) h : Hub :=
  if negb (js_has client (h_clients h)) then h
  else if h_quitting h then tell (ERROR "HUB_QUITTING" None) client h
  else
    match h_channels h !! ch, channel_of ch h with
    | Some obj, Some c =>
        if decide (cs_status c = dead) then tell (ERROR "CHANNEL_DEAD" (Some ch)) client h
        else
          let h := on_set (cs_clients c) (set_add client) h |> attach_id client ch in
          let h := if decide (cs_status c = orphan)
            then updateChannelStatus ch (cs_sessionId c) live None None h else h in
          let '(displayTitle, h) := resolveDisplayTitle ch (restored ch h) in
          if agent_up (cs_hostId c) h then attach_reached client ch obj displayTitle (cs_hostId c) h
          else push (w_attachReach client ch obj displayTitle) h
    | _, _ =>
        let ended := match h_rows h !! ch with Some r => bool_decide (r_status r = dead) | None => false end in
        tell (ERROR (if ended then "CHANNEL_DEAD" else "CHANNEL_NOT_FOUND") (Some ch)) client h
    end.
Definition letGoOfStaleAttach (client : ClientId) (obj : nat) (ch : ChannelId) h : Hub :=
  let h := match h_objs h !! obj with Some c => on_set (cs_clients c) (set_delete client) h | None => h end in
  match channel_of ch h with
  | Some c => if decide (client ∈ clients_of c h) then h else detach_id client ch h
  | None => detach_id client ch h
  end.
(** The host was reached, or not in time: the attach goes on, or starts over on another state. *)
Definition attach_went (n : nat) (client : ClientId) (ch : ChannelId) (obj : nat) (displayTitle : string) h : Hub :=
  let h := drop_wait n h in
  match h_objs h !! obj with
  | Some c =>
      if bool_decide (h_channels h !! ch = Some obj) && negb (bool_decide (cs_status c = dead))
      then attach_reached client ch obj displayTitle (cs_hostId c) h
      else handleAttach client ch (letGoOfStaleAttach client obj ch h)
  | None => h
  end.
(** Another ATTACH on this terminal may have taken the second key since. *)
Definition attach_settle (n : nat) (ch : ChannelId) (w : Wait) h : Hub :=
  let h := forget_request n h in
  (if bool_decide (h_requests h !! attach_to ch = Some n) then h <{ h_requests ::= delete (attach_to ch) }> else h)
  |> settle n w.
Definition attach_answer (m : AgentMsg) (ch : ChannelId) : option AttachAnswer :=
  match m with
  | m_ATTACH_OK _ screen lastSeq => Some (agent_attached screen lastSeq)
  | m_ERROR about not_found _ =>
      Some (if not_found && match about with Some c => bool_decide (c = ch) | None => true end
            then agent_has_none else agent_failed)
  | _ => None
  end.
Definition storeSnapshot (ch : ChannelId) (screen : list byte) (lastSeq : Z) h : Hub :=
  h <{ h_outputs ::= ou_storeSnapshot ch screen lastSeq }>.
Definition attach_answered (n : nat) (client : ClientId) (ch : ChannelId) (obj : nat) (displayTitle : string)
  (askedAt : nat) (answer : AttachAnswer) h : Hub :=
  let h := drop_wait n h in
  match answer with
  | agent_attached screen lastSeq =>
      storeSnapshot ch screen lastSeq h |> attach_ok ch obj false displayTitle client
  | agent_has_none =>
      if answerStillApplies ch askedAt h then
        match h_objs h !! obj with
        | Some c =>
            retireChannel ch (cs_sessionId c) h |> on_set (cs_clients c) (set_delete client)
            |> detach_id client ch |> tell (ERROR "CHANNEL_DEAD" (Some ch)) client
        | None => h
        end
      else handleAttach client ch (letGoOfStaleAttach client obj ch h)
  | agent_failed => attach_ok ch obj true displayTitle client h
  end.

(** ** Starting again what a host was running *)

Definition respawned (ch : ChannelId) (obj : nat) (for_ : RespawnFor) h : Hub :=
  match for_ with
  | reattaching session =>
      match h_objs h !! obj with
      | Some c => if decide (clients_of c h = []) then h else updateChannelStatus ch session live None None h
      | None => h
      end |> track ch
  | warm_restart => track ch h
  end.
Definition not_respawned (ch : ChannelId) (obj : nat) h : Hub :=
  match h_objs h !! obj with
  | Some c => updateChannelStatus ch (cs_sessionId c) dead None None h
  | None => h
  end.
Definition respawn_one (host : HostId) (a : nat) (for_ : RespawnFor) h (e : ChannelId * nat) : Hub :=
  match h_objs h !! e.2 with
  | Some c =>
      if decide (cs_hostId c = host ∧ cs_status c ≠ dead) then
        ask a (λ n, SPAWN n (Some e.1) (cs_config c) (cs_cols c) (cs_rows c)) (w_respawn e.1 e.2 for_) h
      else h
  | None => h
  end.
Definition spawnChannelsForHost (host : HostId) (a : nat) (for_ : RespawnFor) h : Hub :=
  if h_quitting h || bool_decide (host ∈ h_stopping h) then h
  else fold_left (respawn_one host a for_) (entries (h_channels h)) h.
Definition respawn_answer (n : nat) (ch : ChannelId) (obj : nat) (for_ : RespawnFor) (m : AgentMsg) h : Hub :=
  let q := h_quitting h in
  let h := forget_request n h |> drop_wait n in
  if q then h
  else match m with
       | m_SPAWN_OK _ =>
           let h := tick h in
           on_obj obj (λ c, c <{ cs_startedAt := Some (h_clock h) }>) h |> respawned ch obj for_
       | _ => not_respawned ch obj h
       end.

(** ** Judging *)

(** What a daemon says it holds: each terminal, and whether it runs. *)
Notation States := (list (ChannelId * bool)).
Definition is_orphan h (ch : ChannelId) : bool :=
  negb (js_has ch (h_channels h)) &&
  match h_rows h !! ch with Some r => bool_decide (r_status r = dead) | None => true end.
Definition destroyOrphans (states : States) (a : nat) h : Hub :=
  fold_left (λ h ch, emit (to_agent a (DESTROY ch)) h) (filter (λ ch, is_orphan h ch = true) states.*1) h.
Definition judge_one (host : HostId) (reported : list ChannelId) (a : nat) (askedAt : option nat) h (ch : ChannelId) : Hub :=
  match h_channels h !! ch, channel_of ch h with
  | Some obj, Some c =>
      if negb (bool_decide (cs_hostId c = host)) then h
      else if match askedAt with Some t => negb (answerStillApplies ch t h) | None => false end then h
      else match session_of host h with
           | None => h
           | Some s =>
               if decide (ch ∈ reported) then
                 let h := on_obj obj (λ c, c <{ cs_sessionId := ss_id s }>) h in
                 let h := if decide (cs_liveCwd c = None) then emit (to_agent a (CWD_QUERY ch)) h else h in
                 if decide (cs_status c = orphan ∨ cs_status c = live ∧ clients_of c h ≠ [])
                 then updateChannelStatus ch (ss_id s) live None None h else h
               else
                 forgetChannel ch (if decide (cs_status c = dead) then h
                   else updateChannelStatus ch (cs_sessionId c) dead None None h)
           end
  | _, _ => h
  end.
Definition reconcileChannelState (host : HostId) (states : States) (a : nat) (askedAt : option nat) h : Hub :=
  fold_left (judge_one host (filter (λ s, s.2 = true) states).*1 a askedAt) (js_keys (h_channels h))
    (destroyOrphans states a h).

Definition ask_states (host : HostId) (a : nat) (for_ : StatesFor) h : Hub :=
  let h := tick h in
  emit (to_agent a AUTH) h |> push (w_states host a (h_clock h) for_).
(** [commits.adoptAgent]; [None] is what it throws. *)
Definition adoptAgent (host : HostId) (a : nat) h : option Hub :=
  if h_quitting h || bool_decide (host ∈ h_stopping h) then None
  else Some (h <{ h_agents ::= <[host := a]> }>).
Definition states_answered (n : nat) (host : HostId) (a : nat) (askedAt : nat) (for_ : StatesFor)
  (states : States) h : Hub :=
  let h := drop_wait n h in
  match for_ with
  | adopting others =>
      let h := reconcileChannelState host states a (Some askedAt) h in
      (if others && bool_decide (h_agents h !! host = Some a) then announceSessionState host h else h)
      |> agentMayBeIdle host
  | attaching session =>
      if h_quitting h then h
      else
        let h := reconcileChannelState host states a (Some askedAt) h in
        match adoptAgent host a h with
        | Some h => updateSessionStatus host session active h |> agentMayBeIdle host
        | None => h
        end
  end.

(** ** What an agent sends *)

Definition channel_exit (host : HostId) (ch : ChannelId) (exitCode : option Z) h : Hub :=
  match channel_of ch h with
  | Some c =>
      on_channel ch (λ c, c <{ cs_liveCwd := None }>) h
      |> updateChannelStatus ch (cs_sessionId c) dead exitCode
           (if decide (host ∈ h_stopping h) then Some stopped else None)
  | None => h
  end |> untrack ch |> clearTitleDebounce ch |> clearProcessTitleDebounce ch |> agentMayBeIdle host.
Definition answered (n : nat) (w : Wait) (m : AgentMsg) h : Hub :=
  match w with
  | w_spawn s => spawn_answer n s m h
  | w_restart r None => restart_answer n r m h
  | w_respawn ch obj for_ => respawn_answer n ch obj for_ m h
  | w_attach client ch obj title askedAt None =>
      match attach_answer m ch with
      | Some a => attach_settle n ch (w_attach client ch obj title askedAt (Some a)) h
      | None => h
      end
  | _ => h
  end.
Definition agent_message (host : HostId) (m : AgentMsg) h : Hub :=
  match m with
  | m_OUTPUT ch data =>
      broadcastToChannel ch (OUTPUT ch data) h
        <{ h_screens ::= sc_onOutput (h_now h) ch }> <{ h_outputs ::= ou_onOutput ch data }>
  | m_SNAPSHOT_RES ch screen lastSeq =>
      h <{ h_screens ::= sc_onSnapshotResponse ch }> |> storeSnapshot ch screen lastSeq
  | m_CHANNEL_EXIT ch exitCode => channel_exit host ch exitCode h
  | m_TITLE_CHANGE ch title => handleTitleChange ch title h
  | m_PROCESS_TITLE ch title => handleProcessTitle ch title h
  | m_CWD_CHANGE ch msg => handleCwdChange ch msg h
  | m_BELL ch =>
      let '(allowed, bells) := rateLimitCheck (h_now h) ch 10 (h_bells h) in
      let h := h <{ h_bells := bells }> in if allowed then broadcastToChannel ch (BELL ch) h else h
  | m_NOTIFICATION ch =>
      let '(allowed, store) := rateLimitCheck (h_now h) ch 5 (h_notifications h) in
      let h := h <{ h_notifications := store }> in if allowed then broadcastToChannel ch (NOTIFICATION ch) h else h
  | m_ERROR (Some ch) _ true => broadcastToChannel ch (INPUT_DROPPED ch) h
  | _ => h
  end.
(** What a message answers: by its request's id, or, of an old agent's ATTACH_OK, by its terminal. *)
Definition answers (rid : option nat) (m : AgentMsg) h : option (nat * Wait) :=
  let by_key k := n ← h_requests h !! k; w ← h_waits h !! n; Some (n, w) in
  match rid, m with
  | Some n, _ => by_key (by_id n)
  | None, m_ATTACH_OK ch _ _ => by_key (attach_to ch)
  | None, _ => None
  end.
Definition from_agent (host : HostId) (rid : option nat) (m : AgentMsg) h : Hub :=
  match answers rid m h with Some (n, w) => answered n w m h | None => agent_message host m h end.

(** ** Windows *)

Definition handleInput (ch : ChannelId) (data : list byte) h : Hub :=
  match channel_of ch h with
  | Some c => match h_agents h !! cs_hostId c with Some a => emit (to_agent a (INPUT ch data)) h | None => h end
  | None => h
  end.
Definition handleResize (ch : ChannelId) (cols rows : Z) h : Hub :=
  match channel_of ch h with
  | Some c =>
      match h_agents h !! cs_hostId c with
      | Some a =>
          let h := emit (to_agent a (RESIZE ch cols rows)) h <{ h_screens ::= sc_onResize (h_now h) ch }> in
          let h := on_channel ch (λ c, c <{ cs_cols := cols }> <{ cs_rows := rows }>) h
                     <{ h_rows ::= updateChannelDimensions ch cols rows }> in
          if decide (cs_cols c = cols ∧ cs_rows c = rows) then h
          else broadcastToChannel ch (CHANNEL_SIZE ch cols rows) h
      | None => h
      end
  | None => h
  end.

(** ** Steps *)

Inductive Ev :=
| Connect (c : ClientId) | Gone (c : ClientId)
| Spawn (c : ClientId) (host : HostId) (reuse : option ChannelId) (automatic : bool)
| SpawnGoes (n : nat) | SpawnReached (n : nat) (s : option Spawning)
| Attach (c : ClientId) (ch : ChannelId) | AttachGoes (n : nat) | Detach (c : ClientId) (ch : ChannelId)
| Input (ch : ChannelId) (data : list byte) | Resize (ch : ChannelId) (cols rows : Z)
| FilesPanel (ch : ChannelId) (open : bool)
| Restart (ch : ChannelId) | RestartGoes (n : nat) | RestartReached (n : nat) (reconnected : bool)
| Continue (n : nat) | Timeout (n : nat)
| Kill (ch : ChannelId) | CloseSession (host : HostId) (session : SessionId) (reason : option ChannelEndReason)
| Stopping (host : HostId) (on : bool) | AgentStopped (host : HostId)
| UserDisconnects (host : HostId) | UserActs (host : HostId) (announce : bool)
| Reaching (host : HostId) (on : bool) | DropSession (host : HostId) | DropAgent (host : HostId)
| Announce (host : HostId)
| OpenSession (host : HostId) (session : SessionId) (status : SessionStatus)
| SessionIs (host : HostId) (session : SessionId) (status : SessionStatus)
| Adopt (host : HostId) (a : nat) | Up (a : nat) | Down (a : nat)
| AgentClosed (host : HostId) (a : nat) (reconnects : bool) | Displaced (host : HostId) (a : nat)
| AskStates (host : HostId) (a : nat) (for_ : StatesFor) | States_ (n : nat) (states : States)
| Respawn (host : HostId) (a : nat) (for_ : RespawnFor)
| FromAgent (host : HostId) (rid : option nat) (m : AgentMsg)
| TitleTimer (ch : ChannelId) | ProcessTitleTimer (ch : ChannelId)
| Renamed (ch : ChannelId) | TitlesChanged
| Quit.

(** The connection to an agent is over; one that was replaced says nothing more. *)
Definition agent_closed (host : HostId) (a : nat) (reconnects : bool) h : Hub :=
  if h_quitting h && bool_decide (host ∈ h_stopping h) then h
  else if bool_decide (h_agents h !! host = Some a) then
    let h := h <{ h_agents ::= delete host }> in
    match session_of host h with
    | Some s =>
        if reconnects then
          let h := updateSessionStatus host (ss_id s) disconnected h in
          if host_is_ssh host && negb (h_quitting h || bool_decide (host ∈ h_userDisconnected h ∨ host ∈ h_stopping h))
          then h <{ h_reconnecting ::= set_add host }> else h
        else h
    | None => h
    end
  else h.
(** A newer connection of this hub has taken its place. *)
Definition dropDisplacedConnection (host : HostId) (a : nat) h : Hub :=
  if bool_decide (h_agents h !! host = Some a) then
    let h := h <{ h_agents ::= delete host }> in
    if h_quitting h then h else announceSessionState host h
  else h.
Definition timeout (n : nat) h : Hub :=
  match h_waits h !! n with
  | Some (w_spawn s) => spawn_timeout n s h
  | Some (w_restart r None) => forget_request n h |> settle n (w_restart r (Some None))
  | Some (w_respawn ch obj _) => forget_request n h |> drop_wait n |> not_respawned ch obj
  | Some (w_attach client ch obj title askedAt None) =>
      attach_settle n ch (w_attach client ch obj title askedAt (Some agent_failed)) h
  | _ => h
  end.
Definition exec (e : Ev) h : Hub :=
  match e with
  | Connect c => let h := addClient c h in tell (getStateSnapshot h) c h
  | Gone c => removeClient c h
  | Spawn c host reuse automatic => handleSpawn c host reuse automatic h
  | SpawnGoes n =>
      match h_waits h !! n with
      | Some (w_spawnOnHost c host reuse automatic) => spawnOnHost n c host reuse automatic h
      | _ => h
      end
  | SpawnReached n s =>
      match h_waits h !! n, s with
      | Some (w_spawnReach c host reuse), Some s =>
          if decide (sp_client s = c ∧ sp_host s = host ∧ sp_reuse s = reuse)
          then drop_wait n h |> sendSpawnAndWait s else h
      | Some (w_spawnReach c _ reuse), None => drop_wait n h |> tell (ERROR "SPAWN_FAILED" None) c |> release reuse
      | _, _ => h
      end
  | Attach c ch => handleAttach c ch h
  | AttachGoes n =>
      match h_waits h !! n with
      | Some (w_attachReach c ch obj title) => attach_went n c ch obj title h
      | _ => h
      end
  | Detach c ch => detachClient c ch h
  | Input ch data => handleInput ch data h
  | Resize ch cols rows => handleResize ch cols rows h
  | FilesPanel ch open => setFilesPanel ch open h
  | Restart ch => restartChannel ch h
  | RestartGoes n => match h_waits h !! n with Some (w_restartBegin ch) => restart_begin n ch h | _ => h end
  | RestartReached n ok => match h_waits h !! n with Some (w_restartReach r) => restart_reached n r ok h | _ => h end
  | Continue n =>
      match h_waits h !! n with
      | Some (w_restart r (Some answer)) => restart_answered n r answer h
      | Some (w_attach c ch obj title askedAt (Some answer)) => attach_answered n c ch obj title askedAt answer h
      | _ => h
      end
  | Timeout n => timeout n h
  | Kill ch => destroyChannel ch h
  | CloseSession host session reason => closeSession host session reason h
  | Stopping host on => h <{ h_stopping ::= if on then set_add host else set_delete host }>
  | AgentStopped host => endChannelsOfStoppedAgent host h
  | UserDisconnects host => h <{ h_userDisconnected ::= set_add host }>
  | UserActs host announce => if announce then userActsOnHost host h else h <{ h_userDisconnected ::= set_delete host }>
  | Reaching host on => h <{ h_reconnecting ::= if on then set_add host else set_delete host }>
  | DropSession host => h <{ h_sessions ::= delete host }>
  | DropAgent host => h <{ h_agents ::= delete host }>
  | Announce host => announceSessionState host h
  | OpenSession host session status =>
      if h_quitting h then h
      else h <{ h_sessionObjs ::= λ l, l ++ [MkSession session host status] }>
             <{ h_sessions ::= <[host := length (h_sessionObjs h)]> }>
             <{ h_sessionRows ::= <[session := (host, status)]> }>
  | SessionIs host session status => updateSessionStatus host session status h
  | Adopt host a => default h (adoptAgent host a h)
  | Up a => h <{ h_connected ::= set_add a }>
  | Down a => h <{ h_connected ::= set_delete a }>
  | AgentClosed host a reconnects => agent_closed host a reconnects h
  | Displaced host a => dropDisplacedConnection host a h
  | AskStates host a for_ => ask_states host a for_ h
  | States_ n states =>
      match h_waits h !! n with
      | Some (w_states host a askedAt for_) => states_answered n host a askedAt for_ states h
      | _ => h
      end
  | Respawn host a for_ => spawnChannelsForHost host a for_ h
  | FromAgent host rid m => from_agent host rid m h
  | TitleTimer ch => title_timer ch h
  | ProcessTitleTimer ch => process_title_timer ch h
  | Renamed ch => notifyChannelRenamed ch h
  | TitlesChanged => broadcastDisplayTitles h
  | Quit => h <{ h_quitting := true }> <{ h_reconnecting := [] }>
  end.
(** At a time, which the clock reads. *)
Definition step h (e : Z * Ev) : Hub := exec e.2 (h <{ h_now := e.1 }>).
End lifecycle.
