(* ===== verification/ChannelChanges.v ===== *)
(** * The small changes the life of the terminals is made of

    Every step of [ChannelLifecycle] is a succession of a few small changes ([change]): of what the
    windows are told, of the terminals' statuses, and of their rows, and of much that none of these
    follows ([kept]). What holds along any life of the hub is shown of each change once. *)

From Stdlib.Strings Require Import Byte.
From S2P Require Import Prelude JsMap ChannelData ChannelTrackers StateBroadcaster ChannelLifecycle.
#[local] Open Scope lasterm_scope.

(** ** What the changes are followed by *)

(** What a window hears of statuses. *)
Definition is_status (m : Msg) : bool :=
  match m with CHANNEL_STATE _ _ _ _ _ | STATE_SYNC _ _ _ => true | _ => false end.
Definition heard_in (c : ClientId) (l : list Output) : list Msg :=
  omap (λ o, match o with
             | to_client c' m => if bool_decide (c' = c) && is_status m then Some m else None
             | _ => None
             end) l.
Definition spawn_of (o : Output) : option nat :=
  match o with to_agent _ (SPAWN n _ _ _ _) => Some n | _ => None end.
(** What a window had typed into a terminal, or its size set to. *)
Inductive Typed := typed_input (ch : ChannelId) (data : list byte) | typed_size (ch : ChannelId) (cols rows : Z).
Definition typed_of (o : Output) : option Typed :=
  match o with
  | to_agent _ (INPUT ch data) => Some (typed_input ch data)
  | to_agent _ (RESIZE ch cols rows) => Some (typed_size ch cols rows)
  | _ => None
  end.
(** What of a row its end is told by. *)
Definition mark (r : Row) : ChannelStatus * option ChannelEndReason := (r_status r, r_endReason r).

Section changes.
Context `{!Setup} {Sc Ou : Type} `{!Screens Sc, !Outputs Ou}.
Notation Hub := (Hub Sc Ou Wait).
Implicit Types (h : Hub).

Definition heard (c : ClientId) h : list Msg := heard_in c (h_log h).
Definition spawns h : list nat := omap spawn_of (h_log h).
Definition typed h : list Typed := omap typed_of (h_log h).

(** The clock a question waiting was asked at. *)
Definition asked (w : Wait) : option nat :=
  match w with w_states _ _ t _ => Some t | w_attach _ _ _ _ t _ => Some t | _ => None end.
(** What waits is new, and asked by now, or asked when it was. *)
Definition questions_kept h' h : Prop :=
  h_nextId h <= h_nextId h' ∧ h_clock h <= h_clock h' ∧
  ∀ n w', h_waits h' !! n = Some w' →
    h_nextId h <= n ∧ n < h_nextId h' ∧ default 0 (asked w') <= h_clock h' ∨
    ∃ w, h_waits h !! n = Some w ∧ asked w' = asked w.
(** A state that keeps its status, and may have been stamped between two readings of the clock. *)
Record state_kept (t0 t1 : nat) (c' c : ChannelState) : Prop := {
  sk_status : cs_status c' = cs_status c;
  sk_host : cs_hostId c' = cs_hostId c;
  sk_clients : cs_clients c' = cs_clients c;
  sk_started : cs_startedAt c' = cs_startedAt c ∨ ∃ t, cs_startedAt c' = Some t ∧ t0 < t ∧ t <= t1
}.
Record kept h' h : Prop := {
  kp_channels : h_channels h' = h_channels h;
  kp_clients : js_keys (h_clients h') = js_keys (h_clients h);
  kp_clock : h_clock h <= h_clock h';
  kp_objs : Forall2 (state_kept (h_clock h) (h_clock h')) (h_objs h') (h_objs h);
  kp_rows ch : mark <$> h_rows h' !! ch = mark <$> h_rows h !! ch;
  kp_heard c : heard c h' = heard c h;
  kp_spawns : spawns h' = spawns h;
  kp_typed : typed h' = typed h;
  kp_quitting : h_quitting h' = h_quitting h;
  kp_questions : questions_kept h' h
}.
(** A terminal starts: a new state of it, live. *)
Record started (ch : ChannelId) h' h : Prop := {
  sd_new : ∃ o c, h_channels h' = <[ch := o]> (h_channels h) ∧ length (h_objs h) <= o ∧
    h_objs h' !! o = Some c ∧ cs_status c = live ∧
    ∃ t, cs_startedAt c = Some t ∧ h_clock h < t ∧ t <= h_clock h';
  sd_clients : js_keys (h_clients h') = js_keys (h_clients h);
  sd_clock : h_clock h <= h_clock h';
  sd_objs i c : h_objs h !! i = Some c →
    ∃ c', h_objs h' !! i = Some c' ∧ state_kept (h_clock h) (h_clock h') c' c;
  sd_rows ch' : ch' ≠ ch → mark <$> h_rows h' !! ch' = mark <$> h_rows h !! ch';
  sd_heard c : heard c h' = heard c h;
  sd_spawns : spawns h' = spawns h;
  sd_typed : typed h' = typed h;
  sd_running : h_quitting h' = false ∧ h_quitting h = false;
  sd_only i c' : h_objs h' !! i = Some c' →
    is_Some (h_objs h !! i) ∨ ∃ t, cs_startedAt c' = Some t ∧ h_clock h < t;
  sd_questions : questions_kept h' h
}.

(** What only some steps do: a window connects, a terminal starts, one whose start was asked for
    again is said to run though it is not tracked any more, or to have ended, as the hub quits; an
    agent is told what a window typed. *)
Inductive Odd := connects (c : ClientId) | starts (ch : ChannelId) | runs_untracked (ch : ChannelId) | ends_at_quit (ch : ChannelId)
| types (w : Typed).

Inductive change (may : Odd → Prop) : Hub → Hub → Prop :=
| ch_kept h h' : kept h' h → change may h h'
| ch_status ch session status exitCode reason h :
    is_Some (h_channels h !! ch) → change may h (updateChannelStatus ch session status exitCode reason h)
| ch_ended ch session h :
    h_quitting h = false ∨ may (ends_at_quit ch) → change may h (updateChannelStatus ch session dead None None h)
| ch_respawned ch session h :
    may (runs_untracked ch) → change may h (updateChannelStatus ch session live None None h)
| ch_forgot ch h :
    (∀ c, channel_of ch h = Some c → cs_status c = dead) → change may h (delete_channel ch h)
| ch_started ch session h h' :
    may (starts ch) → started ch h' h → change may h (broadcastToAllClients (CHANNEL_STATE ch session live None None) h')
| ch_spawn a n id config cols rows h :
    h_quitting h = false → change may h (emit (to_agent a (SPAWN n id config cols rows)) h)
| ch_typed o w h : typed_of o = Some w → may (types w) → change may h (emit o h)
| ch_connect c h : may (connects c) → change may h (exec (Connect c) h)
| ch_gone c h : change may h (h <{ h_clients ::= delete c }>)
| ch_quit h : change may h (h <{ h_quitting := true }>).
Definition evolves (may : Odd → Prop) : Hub → Hub → Prop := rtc (change may).

Lemma change_mono (may may' : Odd → Prop) h h' : (∀ o, may o → may' o) → change may h h' → change may' h h'.
Proof.
  intros Hm [h0 h1|? ? ? ? ? h0|ch session h0 [Hq|Hq]|ch session h0|? h0|ch session h0 h1|? ? ? ? ? ? h0|o w h0|c h0|? h0|h0];
    eauto using change.
Qed.

(** ** What is kept *)

Lemma state_kept_refl t0 t1 c : state_kept t0 t1 c c.
Proof. split; [done..|by left]. Qed.
Lemma states_kept_refl t0 t1 l : Forall2 (state_kept t0 t1) l l.
Proof. apply Forall_Forall2_diag, Forall_true. intros c. apply state_kept_refl. Qed.
Lemma state_kept_trans t0 t1 t2 c c' c'' :
  t0 <= t1 → t1 <= t2 → state_kept t1 t2 c'' c' → state_kept t0 t1 c' c → state_kept t0 t2 c'' c.
Proof.
  intros H01 H12 [H1 H2 H3 H4] [E1 E2 E3 E4]. split; try congruence.
  destruct H4 as [H4|(t & H4 & ? & ?)]; [|right; exists t; split_and!; [done|lia..]].
  rewrite H4. destruct E4 as [E4|(t & E4 & ? & ?)]; [by left|right; exists t; split_and!; [done|lia..]].
Qed.
Lemma questions_same h h' :
  h_nextId h' = h_nextId h → h_waits h' = h_waits h → h_clock h <= h_clock h' → questions_kept h' h.
Proof. intros H1 H2 H3. split_and!; [lia|done|]. intros n w. rewrite H2. eauto. Qed.
Lemma questions_trans h0 h1 h2 : questions_kept h1 h0 → questions_kept h2 h1 → questions_kept h2 h0.
Proof.
  intros (A1 & A2 & A3) (B1 & B2 & B3). split_and!; [lia..|]. intros n w Hn.
  destruct (B3 _ _ Hn) as [(? & ? & ?)|(w1 & Hw1 & E)]; [left; lia|].
  destruct (A3 _ _ Hw1) as [(? & ? & ?)|(w0 & Hw0 & E')]; [left; rewrite E; lia|right].
  exists w0. split; [done|congruence].
Qed.
Lemma kept_refl h : kept h h.
Proof. split; try done; [apply states_kept_refl|by apply questions_same]. Qed.
Lemma kept_trans h0 h1 h2 : kept h1 h0 → kept h2 h1 → kept h2 h0.
Proof.
  intros [A1 A2 A3 A4 A5 A6 A7 A7' A8 A9] [B1 B2 B3 B4 B5 B6 B7 B7' B8 B9].
  split; try congruence; try (intros; by rewrite ?B5, ?B6); [lia| |by eapply questions_trans].
  apply Forall2_same_length_lookup. split; [by rewrite (Forall2_length _ _ _ B4), (Forall2_length _ _ _ A4)|].
  intros i c'' c H2 H0. destruct (Forall2_lookup_l _ _ _ _ _ B4 H2) as (c' & H1 & HB).
  destruct (Forall2_lookup_l _ _ _ _ _ A4 H1) as (c0 & H0' & HA). rewrite H0 in H0'. injection H0' as <-.
  by eapply state_kept_trans.
Qed.

(** Nothing the changes follow is written. *)
Lemma kept_fields h h' :
  h_channels h' = h_channels h → h_clients h' = h_clients h → h_clock h <= h_clock h' → h_objs h' = h_objs h →
  h_rows h' = h_rows h → h_log h' = h_log h → h_quitting h' = h_quitting h →
  questions_kept h' h → kept h' h.
Proof.
  intros H1 H2 H3 H4 H5 H6 H7 H8. split; intros; rewrite ?H2, ?H4, ?H5; unfold heard, spawns, typed; rewrite ?H6; try done.
  apply states_kept_refl.
Qed.
Lemma kept_emit o h : (∀ c, heard_in c [o] = []) → spawn_of o = None → typed_of o = None → kept (emit o h) h.
Proof.
  intros Hh Hs Ht. split; try done; [apply states_kept_refl|intros c| | |by apply questions_same];
    unfold heard, heard_in, spawns, typed, emit; simpl; rewrite omap_app.
  - specialize (Hh c). unfold heard_in in Hh. by rewrite Hh, app_nil_r.
  - simpl. by rewrite Hs, app_nil_r.
  - simpl. by rewrite Ht, app_nil_r.
Qed.
Lemma kept_tell m c h : is_status m = false → kept (tell m c h) h.
Proof.
  intros Hm. unfold tell. destruct (js_has c (h_clients h)); [|apply kept_refl]. apply kept_emit; [|done..].
  intros c'. unfold heard_in. simpl. by rewrite Hm, andb_false_r.
Qed.
Lemma kept_fold {A} (f : Hub → A → Hub) l h : (∀ h x, kept (f h x) h) → kept (fold_left f l h) h.
Proof.
  intros Hf. revert h. induction l as [|x l IH]; intros h; [apply kept_refl|]. cbn [fold_left].
  by eapply kept_trans, IH.
Qed.
Lemma kept_tell_each m cs h : is_status m = false → kept (tell_each m cs h) h.
Proof. intros Hm. apply kept_fold. intros. by apply kept_tell. Qed.
Lemma kept_broadcast m h : is_status m = false → kept (broadcastToAllClients m h) h.
Proof. apply kept_tell_each. Qed.
Lemma kept_to_channel ch m h : is_status m = false → kept (broadcastToChannel ch m h) h.
Proof.
  intros Hm. unfold broadcastToChannel. destruct (channel_of ch h); [by apply kept_tell_each|apply kept_refl].
Qed.
Lemma kept_obj r f h :
  (∀ c, h_objs h !! r = Some c → state_kept (h_clock h) (h_clock h) (f c) c) → kept (on_obj r f h) h.
Proof.
  intros Hf. split; try done; [|by apply questions_same]. simpl. apply Forall2_same_length_lookup. split; [apply length_alter|].
  intros i c' c. rewrite list_lookup_alter. case_decide; [subst r|]; intros H1 H2; rewrite H2 in H1; injection H1 as <-;
    [by apply Hf|apply state_kept_refl].
Qed.
Lemma kept_channel ch f h : (∀ c, state_kept (h_clock h) (h_clock h) (f c) c) → kept (on_channel ch f h) h.
Proof. intros Hf. unfold on_channel. destruct (h_channels h !! ch); [by apply kept_obj|apply kept_refl]. Qed.
Lemma kept_rows f h :
  (∀ (rows : Rows) ch, mark <$> f rows !! ch = mark <$> rows !! ch) → kept (h <{ h_rows ::= f }>) h.
Proof. intros Hf. split; try done; [apply states_kept_refl|apply Hf|by apply questions_same]. Qed.
Lemma mark_alter f ch (rows : Rows) ch' :
  (∀ r, mark (f r) = mark r) → mark <$> js_alter f ch rows !! ch' = mark <$> rows !! ch'.
Proof.
  intros Hf. rewrite js_lookup_alter. case_decide; [subst|done]. destruct (rows !! ch'); simpl; by rewrite ?Hf.
Qed.
Lemma js_keys_alter {V} (f : V → V) k (m : jsmap string V) : js_keys (js_alter f k m) = js_keys m.
Proof.
  unfold js_alter. destruct (m !! k) eqn:Hk; [|done]. rewrite js_keys_insert, decide_True; [done|].
  apply js_elem_keys. by eexists.
Qed.
Lemma kept_attached f c h : kept (h <{ h_clients ::= js_alter f c }>) h.
Proof. split; try done; [apply js_keys_alter|apply states_kept_refl|by apply questions_same]. Qed.
End changes.
