(* ===== verification/ChannelOps.v ===== *)
(** * Every step of the hub is a succession of small changes

    One lemma per operation of [StateBroadcaster] and [ChannelLifecycle], in their order, gathered in
    the hint database [channel]; [follow] goes through an operation's body with them. *)

From Stdlib.Strings Require Import Byte.
From S2P Require Import Prelude JsMap ChannelData ChannelTrackers StateBroadcaster ChannelLifecycle ChannelChanges.
#[local] Open Scope lasterm_scope.

Create HintDb channel.

Section basics.
Context `{!Setup} {Sc Ou : Type} `{!Screens Sc, !Outputs Ou} (may : Odd → Prop).
Notation Hub := (Hub Sc Ou Wait).
Notation evolves := (evolves may).
Implicit Types (h u v : Hub).

Lemma evolves_change u v w : change may v w → evolves u v → evolves u w.
Proof. intros Hc Hv. eapply rtc_r; eauto. Qed.
Lemma evolves_kept u v w : kept w v → evolves u v → evolves u w.
Proof. intros Hk. by apply evolves_change, ch_kept. Qed.
Lemma ev_fields u v w :
  h_channels w = h_channels v → h_clients w = h_clients v → h_clock v <= h_clock w → h_objs w = h_objs v →
  h_rows w = h_rows v → h_log w = h_log v → h_quitting w = h_quitting v → questions_kept w v → evolves u v → evolves u w.
Proof. intros. eapply evolves_kept; [|done]. by apply kept_fields. Qed.
Lemma evolves_emit o u v : (∀ c, heard_in c [o] = []) → spawn_of o = None → typed_of o = None → evolves u v → evolves u (emit o v).
Proof. intros H1 H2 H3. by apply evolves_kept, kept_emit. Qed.
Lemma ev_tell m c u v : is_status m = false → evolves u v → evolves u (tell m c v).
Proof. intros. by eapply evolves_kept, H1; apply kept_tell. Qed.
Lemma ev_broadcast m u v : is_status m = false → evolves u v → evolves u (broadcastToAllClients m v).
Proof. intros. by eapply evolves_kept, H1; apply kept_broadcast. Qed.
Lemma ev_to_channel ch m u v : is_status m = false → evolves u v → evolves u (broadcastToChannel ch m v).
Proof. intros. by eapply evolves_kept, H1; apply kept_to_channel. Qed.
Lemma ev_obj r f u v : (∀ c, state_kept (h_clock v) (h_clock v) (f c) c) → evolves u v → evolves u (on_obj r f v).
Proof. intros Hf. apply evolves_kept. by apply kept_obj. Qed.
Lemma ev_channel ch f u v : (∀ c, state_kept (h_clock v) (h_clock v) (f c) c) → evolves u v → evolves u (on_channel ch f v).
Proof. intros Hf. apply evolves_kept. by apply kept_channel. Qed.
Lemma ev_rows f u v :
  (∀ (rows : Rows) ch, mark <$> f rows !! ch = mark <$> rows !! ch) → evolves u v → evolves u (v <{ h_rows ::= f }>).
Proof. intros Hf. apply evolves_kept. by apply kept_rows. Qed.
Lemma ev_attached f c u v : evolves u v → evolves u (v <{ h_clients ::= js_alter f c }>).
Proof. apply evolves_kept, kept_attached. Qed.
Lemma ev_fold {A} (f : Hub → A → Hub) l u v :
  (∀ w x, evolves u w → evolves u (f w x)) → evolves u v → evolves u (fold_left f l v).
Proof. intros Hf. revert v. induction l as [|x l IH]; intros v Hv; [done|]. simpl. auto. Qed.
Lemma ev_status ch session status exitCode reason u v :
  is_Some (h_channels v !! ch) → evolves u v → evolves u (updateChannelStatus ch session status exitCode reason v).
Proof. intros Hs. by apply evolves_change, ch_status. Qed.
Lemma ev_quit u v : evolves u v → evolves u (v <{ h_quitting := true }>).
Proof. apply evolves_change, ch_quit. Qed.
Lemma ev_refl u : evolves u u.
Proof. constructor. Qed.
End basics.

#[export] Hint Resolve ev_refl ev_attached ev_fold ev_quit : channel.
#[export] Hint Extern 1 (evolves _ _ (emit _ _)) => simple apply evolves_emit; [intro; reflexivity|reflexivity|reflexivity|] : channel.
#[export] Hint Extern 1 (evolves _ _ (tell _ _ _)) => simple apply ev_tell; [reflexivity|] : channel.
#[export] Hint Extern 1 (evolves _ _ (broadcastToAllClients _ _)) => simple apply ev_broadcast; [reflexivity|] : channel.
#[export] Hint Extern 1 (evolves _ _ (broadcastToChannel _ _ _)) => simple apply ev_to_channel; [reflexivity|] : channel.
#[export] Hint Extern 1 (evolves _ _ (on_channel _ _ _)) =>
  simple apply ev_channel; [intros []; split; first [reflexivity|left; reflexivity]|] : channel.
#[export] Hint Extern 1 (evolves _ _ (on_obj _ _ _)) =>
  simple apply ev_obj; [intros []; split; first [reflexivity|left; reflexivity]|] : channel.
(** A field the changes do not follow. *)
Ltac unfollowed v :=
  simple apply (ev_fields _ _ v);
  [generalize v; reflexivity|generalize v; reflexivity|generalize v; intro; simpl; lia|generalize v; reflexivity..
  |apply questions_same; generalize v; [reflexivity|reflexivity|intro; simpl; lia]|].
#[export] Hint Extern 2 (evolves _ _ (set_field _ _ ?v)) => unfollowed v : channel.
#[export] Hint Extern 3 (evolves _ _ (if ?b then _ else _)) => destruct b : channel.
#[export] Hint Extern 3 (evolves _ _ (match ?x with _ => _ end)) => destruct x : channel.
#[export] Hint Extern 3 (evolves _ _ (default _ ?x)) => destruct x : channel.
(** Unfold an operation and follow it. *)
Ltac follow := intros; cbv beta iota zeta; eauto 40 with channel nocore.

Section broadcaster.
Context `{!Setup} {Sc Ou : Type} `{!Screens Sc, !Outputs Ou} (may : Odd → Prop).
Notation Hub := (Hub Sc Ou Wait).
Notation evolves := (evolves may).
Implicit Types (h u v : Hub).

Lemma ev_on_set r f u v : evolves u v → evolves u (on_set r f v).
Proof. unfold on_set. follow. Qed.
Lemma ev_attach_id c ch u v : evolves u v → evolves u (attach_id c ch v).
Proof. unfold attach_id. follow. Qed.
Lemma ev_detach_id c ch u v : evolves u v → evolves u (detach_id c ch v).
Proof. unfold detach_id. follow. Qed.
Lemma ev_updateSessionStatus host session status u v : evolves u v → evolves u (updateSessionStatus host session status v).
Proof. unfold updateSessionStatus. follow. Qed.
Lemma ev_announce host u v : evolves u v → evolves u (announceSessionState host v).
Proof. unfold announceSessionState. follow. Qed.
Lemma ev_checkSessionDetached host u v : evolves u v → evolves u (checkSessionDetached host v).
Proof. pose proof ev_updateSessionStatus. unfold checkSessionDetached. follow. Qed.

Lemma channel_of_tracked ch h c : channel_of ch h = Some c → is_Some (h_channels h !! ch).
Proof. unfold channel_of. by destruct (h_channels h !! ch). Qed.
Lemma ev_detachClient c ch u v : evolves u v → evolves u (detachClient c ch v).
Proof.
  pose proof ev_detach_id. pose proof ev_on_set. pose proof ev_checkSessionDetached. intros Hv. unfold detachClient.
  destruct (channel_of ch v) as [s|] eqn:Hs; [|follow].
  assert (evolves u (updateChannelStatus ch (cs_sessionId s) orphan None None (on_set (cs_clients s) (set_delete c) v))).
  { apply ev_status; [by eapply channel_of_tracked|follow]. }
  follow.
Qed.
Lemma ev_removeClient c u v : evolves u v → evolves u (removeClient c v).
Proof.
  pose proof ev_detachClient. intros Hv. unfold removeClient. destruct (h_clients v !! c) as [attached|]; [|done].
  eapply evolves_change; [apply ch_gone|]. follow.
Qed.
Lemma ev_resolved ch u v : evolves u v → evolves u (resolveDisplayTitle ch v).2.
Proof. unfold resolveDisplayTitle. intros Hv. destruct (resolved_title ch v); simpl; follow. Qed.
Lemma ev_notifyChannelRenamed ch u v : evolves u v → evolves u (notifyChannelRenamed ch v).
Proof.
  intros Hv. pose proof (ev_resolved ch _ _ Hv) as Hr. unfold notifyChannelRenamed.
  destruct (resolveDisplayTitle ch v) as [t w]. destruct (channel_of ch v), (h_rows v !! ch); follow.
Qed.
Lemma ev_broadcastDisplayTitles u v : evolves u v → evolves u (broadcastDisplayTitles v).
Proof.
  unfold broadcastDisplayTitles. apply ev_fold. intros w ch Hw%(ev_resolved ch).
  destruct (resolveDisplayTitle ch w). follow.
Qed.
Lemma ev_handleTitleChange ch t u v : evolves u v → evolves u (handleTitleChange ch t v).
Proof.
  intros Hv. unfold handleTitleChange. destruct (channel_of ch v); [|done].
  assert (evolves u (on_channel ch (λ c, c <{ cs_dynamicTitle := Some t }>) v)) as Hw%(ev_resolved ch) by follow.
  destruct (resolveDisplayTitle ch _). follow.
Qed.
Lemma ev_handleProcessTitle ch t u v : evolves u v → evolves u (handleProcessTitle ch t v).
Proof.
  intros Hv. unfold handleProcessTitle. destruct (channel_of ch v); [|done].
  assert (evolves u (on_channel ch (λ c, c <{ cs_processTitle := Some t }>) v)) as Hw%(ev_resolved ch) by follow.
  destruct (resolveDisplayTitle ch _). follow.
Qed.
Lemma ev_title_timer ch u v : evolves u v → evolves u (title_timer ch v).
Proof.
  intros Hv. unfold title_timer. destruct (h_titleTimers v !! ch); [|done].
  apply ev_rows; [intros; by apply mark_alter|]. unfold clearTitleDebounce. follow.
Qed.
Lemma ev_process_title_timer ch u v : evolves u v → evolves u (process_title_timer ch v).
Proof.
  intros Hv. unfold process_title_timer. destruct (h_processTimers v !! ch); [|done].
  apply ev_rows; [intros; by apply mark_alter|]. unfold clearProcessTitleDebounce. follow.
Qed.
Lemma ev_handleCwdChange ch m u v : evolves u v → evolves u (handleCwdChange ch m v).
Proof. unfold handleCwdChange. follow. Qed.
Lemma ev_setFilesPanel ch open u v : evolves u v → evolves u (setFilesPanel ch open v).
Proof. unfold setFilesPanel. follow. Qed.
End broadcaster.

#[export] Hint Resolve ev_on_set ev_attach_id ev_detach_id ev_updateSessionStatus ev_announce ev_checkSessionDetached
  ev_detachClient ev_removeClient ev_notifyChannelRenamed ev_broadcastDisplayTitles ev_handleTitleChange
  ev_handleProcessTitle ev_title_timer ev_process_title_timer ev_handleCwdChange ev_setFilesPanel : channel.

Section waiting.
Context `{!Setup} {Sc Ou : Type} `{!Screens Sc, !Outputs Ou} (may : Odd → Prop).
Notation Hub := (Hub Sc Ou Wait).
Notation evolves := (evolves may).
Implicit Types (h u v : Hub).

Lemma ev_waits u v w : h_channels w = h_channels v → h_clients w = h_clients v → h_clock w = h_clock v →
  h_objs w = h_objs v → h_rows w = h_rows v → h_log w = h_log v → h_quitting w = h_quitting v →
  questions_kept w v → evolves u v → evolves u w.
Proof. intros ? ? Hc ? ? ? ?. apply ev_fields; try done. by rewrite Hc. Qed.
Lemma ev_push w u v : default 0 (asked w) <= h_clock v → evolves u v → evolves u (push w v).
Proof.
  intros Hw. apply ev_waits; try done. split_and!; cbn; [lia..|]. intros n w'. rewrite js_lookup_insert.
  destruct (decide _) as [<-|]; [intros [= <-]; left; lia|eauto].
Qed.
Lemma evolves_drop n u v : evolves u v → evolves u (drop_wait n v).
Proof.
  apply ev_waits; try done. split_and!; cbn; [lia..|]. intros n' w'. rewrite js_lookup_delete. destruct (decide _); [done|eauto].
Qed.
Lemma evolves_settle n w u v :
  (∀ w0, h_waits v !! n = Some w0 → asked w = asked w0) → evolves u v → evolves u (settle n w v).
Proof.
  intros Hw. apply ev_waits; try done. split_and!; cbn; [lia..|]. intros n' w'. rewrite js_lookup_alter.
  destruct (decide (n = n')) as [<-|]; [|eauto]. intros (w0 & Hw0 & ->)%fmap_Some. eauto.
Qed.
Lemma ev_forget_request n u v : evolves u v → evolves u (forget_request n v).
Proof. unfold forget_request. follow. Qed.
Lemma ev_idle host u v : evolves u v → evolves u (agentMayBeIdle host v).
Proof. unfold agentMayBeIdle. follow. Qed.
Lemma ev_untrack ch u v : evolves u v → evolves u (untrack ch v).
Proof. unfold untrack. follow. Qed.
Lemma ev_track ch u v : evolves u v → evolves u (track ch v).
Proof. unfold track. follow. Qed.
Lemma ev_tick u v : evolves u v → evolves u (tick v).
Proof. unfold tick. follow. Qed.
Lemma ev_release reuse u v : evolves u v → evolves u (release reuse v).
Proof. unfold release. follow. Qed.
Lemma ev_restart_over ch u v : evolves u v → evolves u (restart_over ch v).
Proof. unfold restart_over. follow. Qed.
Lemma ev_asked a m w u v :
  default 0 (asked w) <= h_clock v → evolves u (emit (to_agent a (m (h_nextId v))) v) → evolves u (ask a m w v).
Proof. intros Hw Hv. unfold ask. apply ev_push; [done|]. follow. Qed.
Lemma evolves_ask a m w u v :
  (∀ n, spawn_of (to_agent a (m n)) = None ∧ typed_of (to_agent a (m n)) = None) → default 0 (asked w) <= h_clock v → evolves u v → evolves u (ask a m w v).
Proof. intros Hm Hw Hv. apply ev_asked; [done|]. destruct (Hm (h_nextId v)). by apply evolves_emit. Qed.
Lemma ev_ask_spawn a id config cols rows w u v :
  h_quitting v = false → default 0 (asked w) <= h_clock v → evolves u v → evolves u (ask a (λ n, SPAWN n id config cols rows) w v).
Proof. intros Hm Hw Hv. apply ev_asked; [done|]. by eapply evolves_change, Hv; apply ch_spawn. Qed.
End waiting.
#[export] Hint Resolve evolves_drop ev_forget_request ev_idle ev_untrack ev_track ev_tick ev_release
  ev_restart_over : channel.
#[export] Hint Extern 1 (evolves _ _ (push _ _)) => simple apply ev_push; [simpl; lia|] : channel.
#[export] Hint Extern 1 (evolves _ _ (ask _ (λ n, SPAWN _ _ _ _ _) _ _)) =>
  simple apply ev_ask_spawn; [|simpl; lia|] : channel.
#[export] Hint Extern 1 (evolves _ _ (ask _ _ _ _)) => simple apply evolves_ask; [intro; split; reflexivity|simpl; lia|] : channel.

(** ** Ending terminals *)

Section ending.
Context `{!Setup} {Sc Ou : Type} `{!Screens Sc, !Outputs Ou} (may : Odd → Prop).
Notation Hub := (Hub Sc Ou Wait).
Notation evolves := (evolves may).
Implicit Types (h u v : Hub).

(** What sending leaves alone. *)
Lemma told_field {A} (f : Hub → A) m cs h : (∀ o h, f (emit o h) = f h) → f (tell_each m cs h) = f h.
Proof.
  intros Hf. unfold tell_each. revert h. induction cs as [|c cs IH]; intros h; [done|]. simpl. rewrite IH.
  unfold tell. destruct (js_has c (h_clients h)); [apply Hf|done].
Qed.
Lemma channel_of_broadcast ch m h : channel_of ch (broadcastToAllClients m h) = channel_of ch h.
Proof. by apply (told_field (channel_of ch)). Qed.
Lemma h_channels_on_channel ch f h : h_channels (on_channel ch f h) = h_channels h.
Proof. unfold on_channel. by destruct (h_channels h !! ch). Qed.
Lemma h_channels_status ch session status exitCode reason h :
  h_channels (updateChannelStatus ch session status exitCode reason h) = h_channels h.
Proof.
  unfold updateChannelStatus, broadcastToAllClients. rewrite (told_field h_channels) by done. apply h_channels_on_channel.
Qed.
Lemma channel_of_on_channel ch f h : channel_of ch (on_channel ch f h) = f <$> channel_of ch h.
Proof.
  unfold on_channel, channel_of. destruct (h_channels h !! ch) as [r|] eqn:Hr; [|by rewrite Hr].
  simpl. rewrite Hr. simpl. apply list_lookup_alter_eq.
Qed.
Definition ended (ch : ChannelId) h : Prop := ∀ c, channel_of ch h = Some c → cs_status c = dead.
Lemma status_ended ch session exitCode reason h : ended ch (updateChannelStatus ch session dead exitCode reason h).
Proof.
  intros c. unfold updateChannelStatus. rewrite channel_of_broadcast.
  change (channel_of ch (set_field h_rows ?f ?w)) with (channel_of ch w). rewrite channel_of_on_channel.
  by intros (? & _ & ->)%fmap_Some.
Qed.
Lemma ev_delete_channel ch u v : ended ch v → evolves u v → evolves u (delete_channel ch v).
Proof. intros Hs. by apply evolves_change, ch_forgot. Qed.
Lemma detached_field {A} (f : Hub → A) ch ids h :
  (∀ id h, f (detach_id id ch h) = f h) → f (fold_left (λ h id, detach_id id ch h) ids h) = f h.
Proof. intros Hf. revert h. induction ids as [|id ids IH]; intros h; [done|]. simpl. by rewrite IH. Qed.
Lemma ev_forgetChannel ch u v : ended ch v → evolves u v → evolves u (forgetChannel ch v).
Proof.
  intros Hs Hv. unfold forgetChannel. cbv zeta. apply ev_delete_channel; [|follow].
  unfold ended. change (channel_of ch (untrack ch ?w)) with (channel_of ch w).
  destruct (channel_of ch v) as [c|] eqn:Hc; [|by rewrite Hc]. by rewrite (detached_field (channel_of ch)) by done.
Qed.
Lemma ev_destroyChannel ch u v : evolves u v → evolves u (destroyChannel ch v).
Proof.
  intros Hv. unfold destroyChannel. destruct (channel_of ch v) as [c|] eqn:Hc; [|done]. cbv zeta.
  match goal with |- context [updateChannelStatus _ _ _ _ _ ?w] => set (w0 := w) end.
  assert (h_channels w0 = h_channels v ∧ evolves u w0) as [Hch Hw].
  { unfold w0. destruct (h_agents v !! cs_hostId c); [case_decide|]; (split; [done|follow]). }
  apply ev_idle, ev_delete_channel; [apply status_ended|]. apply ev_untrack, ev_status; [|done].
  rewrite Hch. by eapply channel_of_tracked.
Qed.
Lemma ev_ended ch session u v :
  h_quitting v = false ∨ may (ends_at_quit ch) → evolves u v → evolves u (updateChannelStatus ch session dead None None v).
Proof. intros Hq. by apply evolves_change, ch_ended. Qed.
Lemma ev_retireChannel ch session u v : h_quitting v = false → evolves u v → evolves u (retireChannel ch session v).
Proof.
  intros Hq Hv. assert (evolves u (forgetChannel ch (updateChannelStatus ch session dead None None v))).
  { apply ev_forgetChannel; [apply status_ended|]. apply ev_ended; [by left|done]. }
  unfold retireChannel. follow.
Qed.
Lemma ev_end_all host ending u v :
  (∀ ch c w, channel_of ch w = Some c → evolves u w → ended ch (ending ch c w) ∧ evolves u (ending ch c w)) →
  evolves u v → evolves u (end_all host ending v).
Proof.
  intros He. unfold end_all. apply ev_fold. intros w ch Hw. destruct (channel_of ch w) as [c|] eqn:Hc; [|done].
  case_decide; [|done]. destruct (He ch c w Hc Hw). case_decide; apply ev_forgetChannel; try done.
  intros c'. rewrite Hc. by intros [= <-].
Qed.
Lemma ev_status_ended ch session reason u v c :
  channel_of ch v = Some c → evolves u v →
  ended ch (updateChannelStatus ch session dead None reason v) ∧ evolves u (updateChannelStatus ch session dead None reason v).
Proof. intros Hc Hv. split; [apply status_ended|]. apply ev_status; [by eapply channel_of_tracked|done]. Qed.
Lemma ev_endChannelsOfStoppedAgent host u v : evolves u v → evolves u (endChannelsOfStoppedAgent host v).
Proof. apply ev_end_all. intros ch c w. apply ev_status_ended. Qed.
Lemma ev_closeSession host session reason u v : evolves u v → evolves u (closeSession host session reason v).
Proof.
  intros Hv. assert (evolves u (end_all host (λ ch _, updateChannelStatus ch session dead None reason)
    (v <{ h_reconnecting ::= set_delete host }>))).
  { apply ev_end_all; [intros ch c w; apply ev_status_ended|follow]. }
  unfold closeSession. follow.
Qed.
End ending.
#[export] Hint Resolve ev_destroyChannel ev_endChannelsOfStoppedAgent ev_closeSession : channel.

(** ** Starting and restarting *)

Section starting.
Context `{!Setup} {Sc Ou : Type} `{!Screens Sc, !Outputs Ou} (may : Odd → Prop).
Notation Hub := (Hub Sc Ou Wait).
Notation evolves := (evolves may).
Implicit Types (h u v : Hub).

Lemma ev_sendSpawnAndWait s u v : evolves u v → evolves u (sendSpawnAndWait s v).
Proof. unfold sendSpawnAndWait. destruct (h_quitting v) eqn:Hq; follow. Qed.
Lemma ev_handleSpawn c host reuse automatic u v : evolves u v → evolves u (handleSpawn c host reuse automatic v).
Proof. unfold handleSpawn. follow. Qed.
Lemma ev_userActsOnHost host u v : evolves u v → evolves u (userActsOnHost host v).
Proof. unfold userActsOnHost. follow. Qed.
Lemma ev_spawnOnHost n c host reuse automatic u v : evolves u v → evolves u (spawnOnHost n c host reuse automatic v).
Proof. pose proof ev_userActsOnHost. unfold spawnOnHost. follow. Qed.
Lemma ev_spawn_timeout n s u v : evolves u v → evolves u (spawn_timeout n s v).
Proof. unfold spawn_timeout. destruct (hostAwayDuringSpawn _ _ v); follow. Qed.
Lemma ev_created ch host session config cols rows u v :
  evolves u v → evolves u (created_message ch host session config cols rows v).
Proof.
  intros Hv%(ev_resolved may ch). unfold created_message. destruct (resolveDisplayTitle ch v). follow.
Qed.

Lemma started_intro ch h h' c :
  h_channels h' = <[ch := length (h_objs h)]> (h_channels h) → h_objs h' = h_objs h ++ [c] →
  cs_status c = live → cs_startedAt c = Some (h_clock h') → h_clock h' = S (h_clock h) →
  js_keys (h_clients h') = js_keys (h_clients h) →
  (∀ ch', ch' ≠ ch → mark <$> h_rows h' !! ch' = mark <$> h_rows h !! ch') →
  h_log h' = h_log h → h_quitting h' = h_quitting h → h_nextId h' = h_nextId h → h_waits h' = h_waits h →
  h_quitting h = false → started ch h' h.
Proof.
  intros H1 H2 H3 H4 H5 H6 H7 H8 H9 HA HB H10.
  split; unfold heard, spawns, typed; rewrite ?H8; try done; try congruence; [|lia| |split; congruence| |apply questions_same; (done || lia)].
  - exists (length (h_objs h)), c. rewrite H2, list_lookup_middle by done. split_and!; try done.
    exists (h_clock h'). split_and!; [done|lia..].
  - intros i c0 Hi. exists c0. split; [|apply state_kept_refl]. rewrite H2. by apply lookup_app_l_Some.
  - intros i c' Hi. rewrite H2 in Hi. apply lookup_app_Some in Hi as [Hi|[_ Hi]]; [left; by eexists|right].
    apply list_lookup_singleton_Some in Hi as [_ <-]. exists (h_clock h'). split; [done|lia].
Qed.
Lemma ev_starts ch session u v w :
  may (starts ch) → started ch w v → evolves u v → evolves u (broadcastToAllClients (CHANNEL_STATE ch session live None None) w).
Proof. intros. by eapply evolves_change; [apply ch_started|]. Qed.
Lemma rows_elsewhere f ch (rows : Rows) ch' : ch' ≠ ch → mark <$> js_alter f ch rows !! ch' = mark <$> rows !! ch'.
Proof. intros. by rewrite js_lookup_alter, decide_False. Qed.
Lemma spawned_row_elsewhere s ch rows rows' ch' :
  spawned_row s ch rows = Some rows' → ch' ≠ ch → mark <$> rows' !! ch' = mark <$> rows !! ch'.
Proof.
  unfold spawned_row, createChannel. intros Hr Hne. case_decide.
  - injection Hr as <-. unfold reviveChannel, updateChannelConfig. by rewrite !rows_elsewhere.
  - destruct (js_has ch rows); [done|]. injection Hr as <-. by rewrite js_lookup_insert_ne.
Qed.
Lemma ev_spawned n s ch u v :
  may (starts ch) → h_quitting v = false → evolves u v → evolves u (spawned n s ch v).
Proof.
  pose proof ev_created. intros Hm Hq Hv. unfold spawned. cbv zeta. set (v0 := drop_wait n (forget_request n v)).
  assert (evolves u v0) as Hv0 by (unfold v0; follow).
  destruct (spawned_row s ch (h_rows v0)) as [rows|] eqn:Hr; [|done]. cbn [new_set].
  match goal with |- context [broadcastToAllClients (CHANNEL_STATE _ ?se _ _ _) ?w] =>
    assert (evolves u (broadcastToAllClients (CHANNEL_STATE ch se live None None) w)) end; [|follow].
  eapply ev_starts; [done| |exact Hv0]. eapply started_intro; try reflexivity; [apply js_keys_alter| |done].
  intros ch' Hne. cbn. unfold db_updateChannelStatus. rewrite rows_elsewhere by done. by eapply spawned_row_elsewhere.
Qed.
Lemma ev_spawn_answer n s m u v :
  (∀ ch, m = m_SPAWN_OK ch → may (starts ch)) → evolves u v → evolves u (spawn_answer n s m v).
Proof.
  intros Hm Hv. unfold spawn_answer. destruct (h_quitting v) eqn:Hq; [follow|]. destruct m; try follow.
  apply ev_spawned; auto.
Qed.

Lemma ev_restartChannel ch u v : evolves u v → evolves u (restartChannel ch v).
Proof. pose proof ev_userActsOnHost. unfold restartChannel. follow. Qed.
Lemma ev_restart_send r u v : evolves u v → evolves u (restart_send r v).
Proof.
  intros Hv. unfold restart_send. destruct (session_at r v), (h_agents v !! rs_host r); try follow.
  destruct (_ || _) eqn:Hc; [follow|]. apply orb_false_iff in Hc as [_ Hc]. follow.
Qed.
Lemma ev_restart_begin n ch u v : evolves u v → evolves u (restart_begin n ch v).
Proof. pose proof ev_restart_send. unfold restart_begin. follow. Qed.
Lemma ev_restart_reached n r ok u v : evolves u v → evolves u (restart_reached n r ok v).
Proof. pose proof ev_restart_send. unfold restart_reached. follow. Qed.
Lemma ev_restart_answer n r r' a m u v :
  h_waits v !! n = Some (w_restart r' a) → evolves u v → evolves u (restart_answer n r m v).
Proof.
  intros Hn Hv. unfold restart_answer. apply evolves_settle; [|follow]. intros w0 Hw. change (h_waits v !! n = Some w0) in Hw.
  rewrite Hn in Hw. by injection Hw as <-.
Qed.
End starting.
#[export] Hint Resolve ev_sendSpawnAndWait ev_handleSpawn ev_userActsOnHost ev_spawnOnHost ev_spawn_timeout ev_created
  ev_restartChannel ev_restart_send ev_restart_begin ev_restart_reached : channel.

Section restarting.
Context `{!Setup} {Sc Ou : Type} `{!Screens Sc, !Outputs Ou} (may : Odd → Prop).
Notation Hub := (Hub Sc Ou Wait).
Notation evolves := (evolves may).
Implicit Types (h u v : Hub).

Lemma quitting_retired ch session h : h_quitting (retireChannel ch session h) = h_quitting h.
Proof.
  assert (h_quitting (updateChannelStatus ch session dead None None h) = h_quitting h) as Hu.
  { unfold updateChannelStatus, broadcastToAllClients. rewrite (told_field h_quitting) by done. cbn.
    unfold on_channel. by destruct (h_channels h !! ch). }
  unfold retireChannel, forgetChannel. cbv zeta. rewrite <- Hu. generalize (updateChannelStatus ch session dead None None h).
  intros w. destruct (cs_hostId <$> _), (channel_of ch w); try done; by apply (detached_field h_quitting).
Qed.
Lemma moved_field {A} (f : Hub → A) from to_ cs h :
  (∀ c ch h, f (attach_id c ch h) = f h ∧ f (detach_id c ch h) = f h) → f (move_clients from to_ cs h) = f h.
Proof.
  intros Hf. unfold move_clients. revert h. induction cs as [|c cs IH]; intros h; [done|]. simpl. rewrite IH.
  by rewrite (proj1 (Hf _ _ _)), (proj2 (Hf _ _ _)).
Qed.
Lemma ev_move_clients from to_ cs u v : evolves u v → evolves u (move_clients from to_ cs v).
Proof. unfold move_clients. follow. Qed.
Lemma row_if_missing_is ch session r h :
  ∃ rows, row_if_missing ch session r h = h <{ h_rows := rows }> ∧
    ∀ ch', ch' ≠ ch → mark <$> rows !! ch' = mark <$> h_rows h !! ch'.
Proof.
  unfold row_if_missing, createChannel. destruct (js_has ch (h_rows h)).
  - exists (h_rows h). split; [by destruct h|done].
  - eexists. split; [done|]. intros. by rewrite js_lookup_insert_ne.
Qed.
(** The state of a terminal that starts again, once what it was is ended. *)
Lemma started_again ch rows session host set config cols rows_ h :
  h_quitting h = false → (∀ ch', ch' ≠ ch → mark <$> rows !! ch' = mark <$> h_rows h !! ch') →
  let w := row_status ch live (h <{ h_rows := rows }>) |> tick in
  started ch (track ch (put_channel ch (new_channel session host set config cols rows_ (h_clock w)) w)) h.
Proof.
  intros Hq Hrows w. eapply started_intro; try reflexivity; [|done]. intros ch' Hne. cbn.
  unfold db_updateChannelStatus. rewrite rows_elsewhere by done. by apply Hrows.
Qed.
Lemma started_kept ch h h' h'' : started ch h' h → kept h'' h' → started ch h'' h.
Proof.
  intros [(o & c & A1 & A2 & A3 & A4 & t & A5 & A6 & A7) B C D E F G G' I J L] [K1 K2 K3 K4 K5 K6 K7 K7' K8 K9].
  split; try congruence; [|lia| | | |by eapply questions_trans].
  - destruct (Forall2_lookup_r _ _ _ _ _ K4 A3) as (c' & Hc' & [S1 S2 S3 S4]).
    exists o, c'. split_and!; try congruence. destruct S4 as [S4|(t' & S4 & ? & ?)]; [exists t|exists t'];
      split_and!; first [congruence|lia].
  - intros i c0 Hi. destruct (D i c0 Hi) as (c1 & Hi1 & Hs). destruct (Forall2_lookup_r _ _ _ _ _ K4 Hi1) as (c2 & Hi2 & Hs2).
    exists c2. split; [done|]. by eapply state_kept_trans.
  - intros ch' Hne. by rewrite K5, E.
  - intros i c' Hi. destruct (Forall2_lookup_l _ _ _ _ _ K4 Hi) as (c1 & Hi1 & [_ _ _ S4]).
    destruct (J i c1 Hi1) as [?|(t' & Ht & ?)]; [by left|right].
    destruct S4 as [S4|(t2 & S4 & ? & ?)]; [exists t'|exists t2]; split; (congruence || lia).
Qed.
Lemma kept_created ch host session config cols rows h : kept (created_message ch host session config cols rows h) h.
Proof.
  unfold created_message, resolveDisplayTitle. destruct (resolved_title ch h); [|by apply kept_broadcast].
  eapply kept_trans, kept_broadcast; [|done]. apply kept_channel. intros []. split; [done..|by left].
Qed.
Lemma ev_applyRestartState ch r u v :
  may (starts ch) → h_quitting v = false → evolves u v → evolves u (applyRestartState ch r v).
Proof.
  intros Hm Hq Hv. unfold applyRestartState. destruct (session_at r v) as [s|]; [|done]. cbv zeta.
  destruct (match _ with Some _ => _ | None => _ end) as [set v0] eqn:H0.
  assert (h_quitting v0 = false ∧ evolves u v0) as [Hq0 Hv0].
  { destruct (rs_obj r ≫= _); injection H0 as <- <-; (split; [done|]); [done|]. apply (ev_waits may u v); try done. by apply questions_same. }
  clear H0 Hv. set (changed := negb _).
  set (w := if changed then _ else v0).
  assert (∃ w0 rows, w = w0 <{ h_rows := rows }> ∧ evolves u w0 ∧ h_quitting w0 = false ∧
    ∀ ch', ch' ≠ ch → mark <$> rows !! ch' = mark <$> h_rows w0 !! ch') as (w0 & rows & Hw & Hw0 & Hqw & Hrows).
  { subst w. destruct changed; [|exists v0, (h_rows v0); by destruct v0].
    destruct (row_if_missing_is ch (ss_id s) (rs_row r) (move_clients (rs_channel r) ch (default [] (h_sets (retireChannel
      (rs_channel r) (ss_id s) v0) !! set)) (retireChannel (rs_channel r) (ss_id s) v0))) as (rows & -> & Hrows).
    eexists _, rows. split_and!; [done| |by rewrite (moved_field h_quitting), quitting_retired|done].
    by apply ev_move_clients, ev_retireChannel. }
  rewrite Hw. clearbody w. set (st := track ch _).
  assert (started ch st w0) as Hst by by apply started_again.
  set (st' := if changed then _ else st).
  assert (started ch st' w0) as Hst'.
  { unfold st'. destruct changed; [|done]. eapply started_kept, kept_created. done. }
  clearbody st'. assert (evolves u (broadcastToAllClients (CHANNEL_STATE ch (ss_id s) live None None) st')) as He.
  { by eapply ev_starts. }
  destruct (session_at r _); follow.
Qed.
Lemma ev_restart_answered n r answer u v :
  (∀ ch, answer = Some ch → may (starts ch)) → evolves u v → evolves u (restart_answered n r answer v).
Proof.
  intros Hm Hv. unfold restart_answered. destruct answer as [ch|]; [|follow]. cbv zeta.
  change (h_quitting (drop_wait n v)) with (h_quitting v). destruct (h_quitting v) eqn:Hq; [follow|].
  apply ev_restart_over, ev_applyRestartState; [auto|done|follow].
Qed.
End restarting.

(** ** Attaching, judging, and the agent's messages *)

Section attaching.
Context `{!Setup} {Sc Ou : Type} `{!Screens Sc, !Outputs Ou} (may : Odd → Prop).
Notation Hub := (Hub Sc Ou Wait).
Notation evolves := (evolves may).
Implicit Types (h u v : Hub).

Lemma ev_attach_ok ch obj cached title c u v : evolves u v → evolves u (attach_ok ch obj cached title c v).
Proof. unfold attach_ok. destruct (sizeOf ch obj v). follow. Qed.
Lemma ev_attach_ask c ch obj title a u v : evolves u v → evolves u (attach_ask c ch obj title a v).
Proof.
  intros Hv. unfold attach_ask. cbv zeta.
  assert (∀ w n, evolves u w → evolves u (w <{ h_requests ::= <[attach_to ch := n]> }>)) as Hr by follow.
  apply Hr, evolves_ask; [done|done|]. follow.
Qed.
Lemma ev_attach_reached c ch obj title host u v : evolves u v → evolves u (attach_reached c ch obj title host v).
Proof. pose proof ev_attach_ok. pose proof ev_attach_ask. unfold attach_reached. follow. Qed.
Lemma ev_handleAttach c ch u v : evolves u v → evolves u (handleAttach c ch v).
Proof.
  pose proof ev_attach_reached. intros Hv. unfold handleAttach. do 2 (case_match; [follow|]).
  destruct (h_channels v !! ch) as [obj|] eqn:Hobj; [|follow].
  destruct (channel_of ch v) as [s|]; [|follow]. case_decide; [follow|]. cbv zeta.
  set (v0 := attach_id c ch _). assert (evolves u v0) as Hv0 by (unfold v0; follow).
  set (v1 := if decide (cs_status s = orphan) then _ else v0).
  assert (evolves u v1) as Hv1.
  { unfold v1. case_decide; [|done]. apply ev_status; [|done]. unfold v0. change (h_channels _) with (h_channels v).
    rewrite Hobj. by eexists. }
  clearbody v1. assert (evolves u (restored ch v1)) as Hr%(ev_resolved may ch) by (unfold restored; follow).
  destruct (resolveDisplayTitle ch (restored ch v1)). follow.
Qed.
Lemma ev_letGo c obj ch u v : evolves u v → evolves u (letGoOfStaleAttach c obj ch v).
Proof. unfold letGoOfStaleAttach. follow. Qed.
Lemma ev_attach_went n c ch obj title u v : evolves u v → evolves u (attach_went n c ch obj title v).
Proof.
  pose proof ev_attach_reached. pose proof ev_handleAttach. pose proof ev_letGo. unfold attach_went. follow.
Qed.
Lemma ev_attach_settle n ch w w0 u v :
  h_waits v !! n = Some w0 → asked w = asked w0 → evolves u v → evolves u (attach_settle n ch w v).
Proof.
  intros Hn Hw Hv. unfold attach_settle. cbv zeta. apply evolves_settle; [|follow]. intros w1 Hw1.
  assert (h_waits v !! n = Some w1) as H1 by (by destruct (bool_decide _)). congruence.
Qed.
Lemma ev_storeSnapshot ch screen lastSeq u v : evolves u v → evolves u (storeSnapshot ch screen lastSeq v).
Proof. unfold storeSnapshot. follow. Qed.
Lemma answerStillApplies_tracked ch askedAt h : answerStillApplies ch askedAt h = true → is_Some (h_channels h !! ch).
Proof. unfold answerStillApplies, channel_of. destruct (h_channels h !! ch); [by eexists|done]. Qed.
Lemma ev_retire_tracked ch session u v : is_Some (h_channels v !! ch) → evolves u v → evolves u (retireChannel ch session v).
Proof.
  intros Hs Hv. assert (evolves u (forgetChannel ch (updateChannelStatus ch session dead None None v))).
  { apply ev_forgetChannel; [apply status_ended|]. by apply ev_status. }
  unfold retireChannel. follow.
Qed.
Lemma ev_attach_answered n c ch obj title askedAt answer u v :
  evolves u v → evolves u (attach_answered n c ch obj title askedAt answer v).
Proof.
  pose proof ev_attach_ok. pose proof ev_handleAttach. pose proof ev_letGo. pose proof ev_storeSnapshot. intros Hv.
  unfold attach_answered. cbv zeta. destruct answer; [follow| |follow].
  destruct (answerStillApplies _ _ _) eqn:Ha; [|follow]. apply answerStillApplies_tracked in Ha.
  destruct (h_objs _ !! obj) as [s|]; [|follow].
  assert (evolves u (retireChannel ch (cs_sessionId s) (drop_wait n v))) by (apply ev_retire_tracked; [done|follow]).
  follow.
Qed.

Lemma ev_respawned ch obj for_ u v :
  is_Some (h_channels v !! ch) ∨ may (runs_untracked ch) → evolves u v → evolves u (respawned ch obj for_ v).
Proof.
  intros Hs Hv. unfold respawned. destruct for_ as [session|]; [|follow].
  assert (evolves u (updateChannelStatus ch session live None None v)).
  { destruct Hs; [by apply ev_status|]. eapply evolves_change; [by apply ch_respawned|done]. }
  follow.
Qed.
Lemma ev_not_respawned ch obj u v :
  h_quitting v = false ∨ may (ends_at_quit ch) → evolves u v → evolves u (not_respawned ch obj v).
Proof. intros Hq Hv. unfold not_respawned. destruct (h_objs v !! obj); [by apply ev_ended|done]. Qed.
Lemma ev_spawnChannelsForHost host a for_ u v : evolves u v → evolves u (spawnChannelsForHost host a for_ v).
Proof.
  intros Hv. unfold spawnChannelsForHost. destruct (_ || _) eqn:Hq; [done|]. apply orb_false_iff in Hq as [Hq _].
  assert (∀ l w, h_quitting w = false → evolves u w → evolves u (fold_left (respawn_one host a for_) l w)); [|auto].
  induction l as [|e l IH]; intros w Hqw Hw; [done|]. simpl. unfold respawn_one at 2.
  destruct (h_objs w !! e.2); [case_decide|]; apply IH; try done. follow.
Qed.
Lemma kept_stamp obj h : kept (let w := tick h in on_obj obj (λ c, c <{ cs_startedAt := Some (h_clock w) }>) w) h.
Proof.
  split; try done; simpl; [lia| |apply questions_same; simpl; (done || lia)]. apply Forall2_same_length_lookup. split; [apply length_alter|].
  intros i c' c. rewrite list_lookup_alter. case_decide; [subst i|]; intros H1 H2; rewrite H2 in H1; injection H1 as <-;
    [|apply state_kept_refl]. split; try done. right. eexists. simpl. split; [done|lia].
Qed.
Lemma ev_respawn_answer n ch obj for_ m u v :
  (∀ ch', m = m_SPAWN_OK ch' → is_Some (h_channels v !! ch) ∨ may (runs_untracked ch)) →
  evolves u v → evolves u (respawn_answer n ch obj for_ m v).
Proof.
  intros Hm Hv. unfold respawn_answer. cbv zeta. destruct (h_quitting v) eqn:Hq; [follow|].
  destruct m; try (apply ev_not_respawned; [by left|follow]).
  apply ev_respawned; [by eapply Hm|]. eapply evolves_kept; [apply kept_stamp|follow].
Qed.
End attaching.
#[export] Hint Resolve ev_attach_ok ev_handleAttach ev_attach_went ev_storeSnapshot ev_attach_answered
  ev_spawnChannelsForHost : channel.

Section judging.
Context `{!Setup} {Sc Ou : Type} `{!Screens Sc, !Outputs Ou}.
Notation Hub := (Hub Sc Ou Wait).
Implicit Types (h u v : Hub) (may : Odd → Prop).

Lemma ev_destroyOrphans may states a u v : evolves may u v → evolves may u (destroyOrphans states a v).
Proof. unfold destroyOrphans. follow. Qed.
Lemma h_channels_on_obj r f h : h_channels (on_obj r f h) = h_channels h.
Proof. done. Qed.
Lemma ev_judge_one may host reported a askedAt ch u v :
  evolves may u v → evolves may u (judge_one host reported a askedAt v ch).
Proof.
  intros Hv. unfold judge_one. destruct (h_channels v !! ch) as [obj|] eqn:Hobj; [|done].
  destruct (channel_of ch v) as [c|] eqn:Hc; [|done]. do 2 (case_match; [done|]).
  destruct (session_of host v) as [s|]; [|done]. destruct (decide (ch ∈ reported)).
  - cbv zeta. set (w := if decide (cs_liveCwd c = None) then _ else _).
    assert (h_channels w = h_channels v ∧ evolves may u w) as [Hw He].
    { unfold w. destruct (decide (cs_liveCwd c = None)); (split; [done|follow]). }
    clearbody w. destruct (decide _); [|done]. apply ev_status; [|done]. rewrite Hw, Hobj. by eexists.
  - destruct (decide (cs_status c = dead)); apply ev_forgetChannel; try done.
    + intros c'. rewrite Hc. by intros [= <-].
    + apply status_ended.
    + apply ev_status; [by eapply channel_of_tracked|done].
Qed.
Lemma ev_reconcile may host states a askedAt u v :
  evolves may u v → evolves may u (reconcileChannelState host states a askedAt v).
Proof.
  pose proof ev_judge_one. pose proof ev_destroyOrphans. intros Hv. unfold reconcileChannelState. follow.
Qed.
Lemma ev_ask_states may host a for_ u v : evolves may u v → evolves may u (ask_states host a for_ v).
Proof. unfold ask_states. follow. Qed.
Lemma ev_adopted may host a u v : evolves may u v → evolves may u (default v (adoptAgent host a v)).
Proof. intros Hv. unfold adoptAgent. destruct (_ || _); cbv [from_option id]; follow. Qed.
Lemma ev_states_answered may n host a askedAt for_ states u v :
  evolves may u v → evolves may u (states_answered n host a askedAt for_ states v).
Proof.
  pose proof ev_reconcile. intros Hv. unfold states_answered, adoptAgent. destruct for_; [follow|].
  cbv zeta. change (h_quitting (drop_wait n v)) with (h_quitting v). destruct (h_quitting v); [follow|].
  destruct (_ || _); follow.
Qed.
Lemma ev_channel_exit may host ch exitCode u v : evolves may u v → evolves may u (channel_exit host ch exitCode v).
Proof.
  intros Hv. unfold channel_exit, clearTitleDebounce, clearProcessTitleDebounce.
  assert (∀ w, evolves may u w → evolves may u (agentMayBeIdle host (untrack ch w <{ h_titleTimers ::= delete ch }>
    <{ h_processTimers ::= delete ch }>))) as Hr by follow.
  apply Hr. destruct (channel_of ch v) as [c|] eqn:Hc; [|done].
  apply ev_status; [|follow]. rewrite h_channels_on_channel. by eapply channel_of_tracked.
Qed.
Lemma ev_agent_message may host m u v : evolves may u v → evolves may u (agent_message host m v).
Proof. pose proof ev_channel_exit. unfold agent_message, rateLimitCheck. destruct m; follow. Qed.
Lemma ev_typed may a m w u v :
  typed_of (to_agent a m) = Some w → may (types w) → evolves may u v → evolves may u (emit (to_agent a m) v).
Proof. intros Hw Hm. by eapply evolves_change, ch_typed. Qed.
Lemma ev_handleInput (may : Odd → Prop) ch data u v :
  may (types (typed_input ch data)) → evolves may u v → evolves may u (handleInput ch data v).
Proof.
  intros Hm Hv. unfold handleInput. destruct (channel_of ch v) as [c|]; [|done].
  destruct (h_agents v !! cs_hostId c); [|done]. by eapply ev_typed.
Qed.
Lemma ev_handleResize (may : Odd → Prop) ch cols rows u v :
  may (types (typed_size ch cols rows)) → evolves may u v → evolves may u (handleResize ch cols rows v).
Proof.
  intros Hm Hv. unfold handleResize. destruct (channel_of ch v) as [c|]; [|done].
  destruct (h_agents v !! cs_hostId c) as [a|]; [|done]. cbv zeta.
  match goal with |- context [set_field h_rows (updateChannelDimensions ch cols rows) ?w] =>
    assert (evolves may u (w <{ h_rows ::= updateChannelDimensions ch cols rows }>)) end; [|follow].
  apply ev_rows; [intros; by apply mark_alter|].
  assert (evolves may u (emit (to_agent a (RESIZE ch cols rows)) v)) by by eapply ev_typed. follow.
Qed.
Lemma ev_agent_closed may host a reconnects u v : evolves may u v → evolves may u (agent_closed host a reconnects v).
Proof. unfold agent_closed. follow. Qed.
Lemma ev_displaced may host a u v : evolves may u v → evolves may u (dropDisplacedConnection host a v).
Proof. unfold dropDisplacedConnection. follow. Qed.

(** ** Every step *)

(** The terminal a step starts, and the one it says runs, or has ended as the hub quits, though it
    is not tracked any more. *)
Definition starts_at (e : Ev) h : option ChannelId :=
  match e with
  | FromAgent _ rid (m_SPAWN_OK ch as m) =>
      match answers rid m h with Some (_, w_spawn _) => Some ch | _ => None end
  | Continue n => match h_waits h !! n with Some (w_restart _ (Some (Some ch))) => Some ch | _ => None end
  | _ => None
  end.
Definition respawns_untracked (e : Ev) h : option ChannelId :=
  match e with
  | FromAgent _ rid (m_SPAWN_OK _ as m) =>
      match answers rid m h with
      | Some (_, w_respawn ch _ _) => if js_has ch (h_channels h) then None else Some ch
      | _ => None
      end
  | _ => None
  end.
Definition ends_quitting (e : Ev) h : option ChannelId :=
  match e with
  | Timeout n =>
      match h_waits h !! n with Some (w_respawn ch _ _) => if h_quitting h then Some ch else None | _ => None end
  | _ => None
  end.
(** What a window types. *)
Definition typed_by (e : Ev) : option Typed :=
  match e with
  | Input ch data => Some (typed_input ch data)
  | Resize ch cols rows => Some (typed_size ch cols rows)
  | _ => None
  end.
Definition may_at (e : Ev) h (o : Odd) : Prop :=
  match o with
  | connects c => e = Connect c
  | starts ch => starts_at e h = Some ch
  | runs_untracked ch => respawns_untracked e h = Some ch
  | ends_at_quit ch => ends_quitting e h = Some ch
  | types w => typed_by e = Some w
  end.

Lemma answers_wait rid m h n w : answers rid m h = Some (n, w) → h_waits h !! n = Some w.
Proof.
  assert (∀ k, (n ← h_requests h !! k; w ← h_waits h !! n; Some (n, w)) = Some (n, w) → h_waits h !! n = Some w) as Hk.
  { intros k. destruct (h_requests h !! k) as [n'|]; [|done]. cbn. destruct (h_waits h !! n') eqn:Hw; [|done]. cbn.
    by intros [= <- <-]. }
  unfold answers. destruct rid, m; try done; apply Hk.
Qed.
Lemma ev_timeout n h v : v = h → evolves (may_at (Timeout n) h) h (timeout n v).
Proof.
  intros ->. unfold timeout. destruct (h_waits h !! n) as [[| | | | |r [answer|]|ch obj for_| |c ch obj title askedAt [answer|]|]|] eqn:Hn;
    try follow.
  - apply evolves_settle; [|follow]. intros w0 Hw. change (h_waits h !! n = Some w0) in Hw. rewrite Hn in Hw. by injection Hw as <-.
  - apply ev_not_respawned; [|follow].
    change (h_quitting _) with (h_quitting h). destruct (h_quitting h) eqn:Hq; [right|by left].
    simpl. by rewrite Hn, Hq.
  - by eapply ev_attach_settle; [exact Hn|..]; [|follow].
Qed.
Lemma ev_from_agent host rid m h : evolves (may_at (FromAgent host rid m) h) h (from_agent host rid m h).
Proof.
  unfold from_agent. destruct (answers rid m h) as [[n w]|] eqn:Ha; [|apply ev_agent_message; follow].
  pose proof (answers_wait _ _ _ _ _ Ha) as Hn. unfold answered.
  destruct w as [| |s| | |r [answer|]|ch obj for_| |c ch obj title askedAt [answer|]|]; try follow.
  - apply ev_spawn_answer; [|follow]. intros ch ->. simpl. by rewrite Ha.
  - eapply ev_restart_answer; [exact Hn|follow].
  - apply ev_respawn_answer; [|follow]. intros ch' ->. simpl. rewrite Ha.
    destruct (js_has ch (h_channels h)) eqn:Hh; [left; by apply js_has_true|by right].
  - destruct (attach_answer m ch); [|follow]. by eapply ev_attach_settle; [exact Hn|..]; [|follow].
Qed.
Lemma ev_exec e h : evolves (may_at e h) h (exec e h).
Proof.
  pose proof ev_reconcile. pose proof ev_ask_states. pose proof ev_adopted. pose proof ev_states_answered.
  pose proof ev_agent_closed. pose proof ev_displaced.
  destruct e; cbn [exec];
    try (apply ev_timeout || apply ev_from_agent); try done; try follow.
  - apply rtc_once. by apply ch_connect.
  - by apply ev_handleInput; [|follow].
  - by apply ev_handleResize; [|follow].
  - destruct (h_waits h !! n) as [[| | | | |r [answer|]| | | |]|] eqn:Hn; try follow.
    apply ev_restart_answered; [|follow]. intros ch ->. simpl. by rewrite Hn.
Qed.
(** Every step of the hub is a succession of changes. *)
Lemma evolves_step e h : evolves (may_at e.2 h) h (step h e).
Proof.
  destruct e as [t e]. unfold step. cbn [fst snd].
  assert (evolves (may_at e h) h (h <{ h_now := t }>)) as Hn by follow.
  pose proof (ev_exec e (set_field h_now (λ _, t) h)) as He.
  assert (∀ o, may_at e (set_field h_now (λ _, t) h) o = may_at e h o) as Hm.
  { intros []; [done|destruct e; done..]. }
  etransitivity; [exact Hn|]. eapply rtc_subrel; [|exact He]. intros u v. apply change_mono. intros o. by rewrite Hm.
Qed.
End judging.
