(* ===== verification/ChannelTruth.v ===== *)
(** * What the hub holds is well formed, and every window is told of it

    What holds along any life of the hub, shown of each small change of [ChannelChanges]: its maps
    are well formed ([wf]), and what a window has heard says of every terminal what the hub holds
    ([truth]). *)

From Stdlib.Strings Require Import Byte.
From S2P Require Import Prelude JsMap ChannelData ChannelTrackers StateBroadcaster ChannelLifecycle ChannelChanges ChannelOps.
#[local] Open Scope lasterm_scope.

Section truth.
Context `{!Setup} {Sc Ou : Type} `{!Screens Sc, !Outputs Ou}.
Notation Hub := (Hub Sc Ou Wait).
Implicit Types (h : Hub) (may : Odd → Prop).

(** ** What the hub holds is well formed *)

Record wf h : Prop := {
  wf_clients : js_wf (h_clients h);
  wf_channels : js_wf (h_channels h);
  wf_refs ch o : h_channels h !! ch = Some o → o < length (h_objs h);
  wf_inj ch ch' o : h_channels h !! ch = Some o → h_channels h !! ch' = Some o → ch = ch'
}.
Lemma told_clients m cs h : h_clients (tell_each m cs h) = h_clients h.
Proof. by apply (told_field h_clients). Qed.
Lemma objs_on_channel ch f h : length (h_objs (on_channel ch f h)) = length (h_objs h).
Proof. unfold on_channel. destruct (h_channels h !! ch); [apply length_alter|done]. Qed.
Lemma objs_status ch session status exitCode reason h :
  h_objs (updateChannelStatus ch session status exitCode reason h) = h_objs (on_channel ch (λ c, c <{ cs_status := status }>) h).
Proof. unfold updateChannelStatus, broadcastToAllClients. by rewrite (told_field h_objs). Qed.
Lemma clients_status ch session status exitCode reason h :
  h_clients (updateChannelStatus ch session status exitCode reason h) = h_clients h.
Proof.
  unfold updateChannelStatus, broadcastToAllClients. rewrite told_clients. cbn. unfold on_channel.
  by destruct (h_channels h !! ch).
Qed.
Lemma wf_same h h' :
  js_keys (h_clients h') = js_keys (h_clients h) → h_channels h' = h_channels h →
  length (h_objs h') = length (h_objs h) → wf h → wf h'.
Proof. intros Hc Hch Ho [A B C D]. split; unfold js_wf; rewrite ?Hc, ?Hch, ?Ho; done. Qed.
Lemma wf_status ch session status exitCode reason h :
  wf h → wf (updateChannelStatus ch session status exitCode reason h).
Proof.
  apply wf_same; [by rewrite clients_status|apply h_channels_status|]. by rewrite objs_status, objs_on_channel.
Qed.
Lemma wf_started ch h h' : started ch h' h → wf h → wf h'.
Proof.
  intros [(o & c & K1 & K2 & K3 & K4 & _) Kc _ Ko _ _ _ _] [A B C D].
  assert (length (h_objs h) <= length (h_objs h')).
  { destruct (decide (length (h_objs h) = 0)) as [->|Hne]; [lia|].
    destruct (lookup_lt_is_Some_2 (h_objs h) (length (h_objs h) - 1)) as [x Hx]; [lia|].
    destruct (Ko _ _ Hx) as (c' & Hc' & _). apply lookup_lt_Some in Hc'. lia. }
  split; unfold js_wf; rewrite ?Kc, ?K1; [done|by apply js_wf_insert| |].
  - intros ch' o'. rewrite js_lookup_insert. case_decide; [|intros Hx%C; lia].
    intros [= <-]. by eapply lookup_lt_Some.
  - intros ch1 ch2 o'. rewrite !js_lookup_insert. repeat case_decide; subst; try done;
      [intros [= <-] Hx%C; lia|intros Hx%C [= <-]; lia|apply D].
Qed.
Lemma change_wf may h h' : change may h h' → wf h → wf h'.
Proof.
  intros [h0 h1 K|? ? ? ? ? h0 ?|ch session h0 ?|ch session h0|ch h0 ?|ch session h0 h1 ? K|? ? ? ? ? ? h0|out w h0 Hout ?|c h0|c h0|h0] Hw;
    try (by apply wf_status).
  - destruct K. apply (wf_same h0); try done. by eapply Forall2_length.
  - destruct Hw as [A B C D]. split; cbn; [done|by apply js_wf_delete|intros ch' o; rewrite js_lookup_delete; case_decide; [done|]; apply C|].
    intros ch1 ch2 o. rewrite !js_lookup_delete. repeat case_decide; try done. apply D.
  - apply (wf_same h1); [unfold broadcastToAllClients; by rewrite told_clients|by apply (told_field h_channels)|
      unfold broadcastToAllClients; by rewrite (told_field h_objs)|]. by eapply wf_started.
  - by apply (wf_same h0).
  - by apply (wf_same h0).
  - destruct Hw as [A B C D]. apply (wf_same (addClient c h0)); [by apply (f_equal js_keys), (told_clients _ [c])|
      by apply (told_field h_channels _ [c])|by apply (f_equal length), (told_field h_objs _ [c])|].
    split; cbn; [by apply js_wf_insert|done..].
  - destruct Hw as [A B C D]. split; cbn; [by apply js_wf_delete|done..].
  - by apply (wf_same h0).
Qed.
Lemma evolves_wf may h h' : evolves may h h' → wf h → wf h'.
Proof. induction 1; auto. intros. apply IHrtc. by eapply change_wf. Qed.
Lemma run_wf es h : wf h → wf (run step h es).
Proof.
  revert h. induction es as [|e es IH]; intros h Hw; [done|]. apply IH. eapply evolves_wf; [apply evolves_step|done].
Qed.

(** ** What is heard *)

(** The status of a terminal that runs, one that ended like one there is nothing of. *)
Definition unless_dead (s : ChannelStatus) : option ChannelStatus := if decide (s = dead) then None else Some s.
Definition running (ch : ChannelId) h : option ChannelStatus := channel_of ch h ≫= λ c, unless_dead (cs_status c).
(** What the messages heard, in order, say last of a terminal of which something was known before. *)
Definition sync_says (ch : ChannelId) (entries : list SyncEntry) : option ChannelStatus :=
  (λ e, sy_status e.2) <$> list_find (λ sc, sy_id sc = ch) entries.
Definition says (ch : ChannelId) (known : option ChannelStatus) (m : Msg) : option ChannelStatus :=
  match m with
  | CHANNEL_STATE ch' _ status _ _ => if decide (ch' = ch) then Some status else known
  | STATE_SYNC _ entries _ => match sync_says ch entries with Some s => Some s | None => known end
  | _ => known
  end.
Context (known : ChannelId → option ChannelStatus).
Definition shown (ch : ChannelId) (ms : list Msg) : option ChannelStatus :=
  fold_left (says ch) ms (known ch) ≫= unless_dead.
(** The entries of a terminal agree. *)
Definition coherent (m : Msg) : Prop :=
  match m with
  | STATE_SYNC _ entries _ =>
      ∀ e e', e ∈ entries → e' ∈ entries → sy_id e = sy_id e' → sy_status e = sy_status e'
  | _ => True
  end.
Record truth (c : ClientId) h : Prop := {
  tr_coherent : Forall coherent (heard c h);
  tr_shown : js_has c (h_clients h) = true → ∀ ch, shown ch (heard c h) = running ch h
}.

Lemma heard_tell c m c' h :
  heard c (tell m c' h) = heard c h ++ if js_has c' (h_clients h) && bool_decide (c' = c) && is_status m then [m] else [].
Proof.
  unfold tell. destruct (js_has c' (h_clients h)); [|by rewrite app_nil_r]. unfold heard, heard_in, emit. cbn.
  rewrite omap_app. simpl. by destruct (bool_decide (c' = c) && is_status m).
Qed.
Lemma heard_each c m cs h :
  NoDup cs →
  heard c (tell_each m cs h) = heard c h ++ if bool_decide (c ∈ cs) && js_has c (h_clients h) && is_status m then [m] else [].
Proof.
  unfold tell_each. intros Hnd. revert h. induction Hnd as [|c' cs Hn Hnd IH]; intros h; [by rewrite app_nil_r|].
  cbn [fold_left]. rewrite IH, heard_tell, <- app_assoc. f_equal.
  assert (h_clients (tell m c' h) = h_clients h) as -> by apply (told_clients m [c']).
  destruct (decide (c = c')) as [->|Hne].
  - rewrite (bool_decide_eq_true_2 (c' = c')), (bool_decide_eq_false_2 (c' ∈ cs)), (bool_decide_eq_true_2 (c' ∈ c' :: cs)) by (done || by left).
    simpl. rewrite andb_true_r. by rewrite app_nil_r.
  - rewrite (bool_decide_eq_false_2 (c' = c)), andb_false_r by done. simpl.
    rewrite (bool_decide_ext (c ∈ cs) (c ∈ c' :: cs)); [done|]. rewrite elem_of_cons. naive_solver.
Qed.
Lemma heard_broadcast c m h :
  wf h → heard c (broadcastToAllClients m h) = heard c h ++ if js_has c (h_clients h) && is_status m then [m] else [].
Proof.
  intros Hw. unfold broadcastToAllClients. rewrite heard_each by apply Hw. destruct (js_has c (h_clients h)) eqn:Hh.
  - rewrite bool_decide_eq_true_2; [done|]. by apply js_elem_keys, js_has_true.
  - by rewrite andb_false_r.
Qed.
Lemma shown_snoc ch ms m : shown ch (ms ++ [m]) = says ch (fold_left (says ch) ms (known ch)) m ≫= unless_dead.
Proof. unfold shown. by rewrite fold_left_app. Qed.
Lemma shown_status ch ms ch' session status exitCode reason :
  shown ch (ms ++ [CHANNEL_STATE ch' session status exitCode reason]) =
  if decide (ch' = ch) then unless_dead status else shown ch ms.
Proof. rewrite shown_snoc. simpl. by case_decide. Qed.

(** ** Each change is told *)

Lemma log_on_channel ch f h : h_log (on_channel ch f h) = h_log h.
Proof. unfold on_channel. by destruct (h_channels h !! ch). Qed.
Lemma clients_on_channel ch f h : h_clients (on_channel ch f h) = h_clients h.
Proof. unfold on_channel. by destruct (h_channels h !! ch). Qed.
Lemma heard_status c ch session status exitCode reason h :
  wf h → heard c (updateChannelStatus ch session status exitCode reason h) =
    heard c h ++ if js_has c (h_clients h) then [CHANNEL_STATE ch session status exitCode (reason_said status reason h)] else [].
Proof.
  intros Hw. unfold updateChannelStatus. rewrite heard_broadcast.
  - cbn [h_clients set_field set_h_rows is_status]. rewrite andb_true_r. unfold heard. cbn. by rewrite log_on_channel, clients_on_channel.
  - revert Hw. apply wf_same; cbn; [by rewrite clients_on_channel|apply h_channels_on_channel|apply objs_on_channel].
Qed.
Lemma channel_of_elsewhere ch ch' f h : wf h → ch' ≠ ch → channel_of ch' (on_channel ch f h) = channel_of ch' h.
Proof.
  intros Hw Hne. unfold on_channel. destruct (h_channels h !! ch) as [o|] eqn:Ho; [|done].
  unfold channel_of. cbn. destruct (h_channels h !! ch') as [o'|] eqn:Ho'; [|done]. cbn.
  apply list_lookup_alter_ne. intros ->. by apply Hne, (wf_inj h Hw ch' ch o').
Qed.
Lemma channel_of_status ch ch' session status exitCode reason h :
  wf h → channel_of ch' (updateChannelStatus ch session status exitCode reason h) =
    if decide (ch' = ch) then (λ c, c <{ cs_status := status }>) <$> channel_of ch h else channel_of ch' h.
Proof.
  intros Hw. unfold updateChannelStatus. rewrite channel_of_broadcast.
  change (channel_of ch' (set_field h_rows ?f ?w)) with (channel_of ch' w).
  case_decide; [subst; apply channel_of_on_channel|by apply channel_of_elsewhere].
Qed.
Lemma running_status ch ch' session status exitCode reason h :
  wf h → running ch' (updateChannelStatus ch session status exitCode reason h) =
    if decide (ch' = ch) then (if js_has ch (h_channels h) then unless_dead status else None) else running ch' h.
Proof.
  intros Hw. unfold running. rewrite channel_of_status by done. case_decide; [|done].
  unfold channel_of, js_has. destruct (h_channels h !! ch) as [o|] eqn:Ho; [|done]. cbn.
  apply (wf_refs h Hw) in Ho. apply lookup_lt_is_Some_2 in Ho as [c ->]. done.
Qed.
Lemma channel_of_tracks ch h : wf h → js_has ch (h_channels h) = bool_decide (is_Some (channel_of ch h)).
Proof.
  intros Hw. unfold channel_of, js_has. destruct (h_channels h !! ch) as [o|] eqn:Ho; [|done]. cbn.
  apply (wf_refs h Hw) in Ho. apply lookup_lt_is_Some_2 in Ho as [c ->]. done.
Qed.
Lemma truth_heard_same c h h' :
  heard c h' = heard c h → (js_has c (h_clients h') = true → js_has c (h_clients h) = true) →
  (∀ ch, running ch h' = running ch h) → truth c h → truth c h'.
Proof. intros Hh Hc Hr [A B]. split; rewrite Hh; [done|]. intros H'%Hc ch. rewrite Hr. by apply B. Qed.
Lemma truth_status c ch session status exitCode reason h :
  (is_Some (h_channels h !! ch) ∨ status = dead) → wf h → truth c h → truth c (updateChannelStatus ch session status exitCode reason h).
Proof.
  intros Hs Hw [A B]. split; rewrite heard_status by done.
  - apply Forall_app. split; [done|]. destruct (js_has c (h_clients h)); by repeat constructor.
  - rewrite clients_status. intros Hc ch'. rewrite Hc, shown_status, running_status by done.
    destruct (decide (ch = ch')) as [->|Hne]; [rewrite decide_True by done|by rewrite decide_False, B].
    destruct (js_has ch' (h_channels h)) eqn:Hh; [done|]. destruct Hs as [Hs| ->]; [|done].
    apply js_has_true in Hs. congruence.
Qed.
Lemma running_kept ch h h' : kept h' h → running ch h' = running ch h.
Proof.
  intros [K1 _ _ K4 _ _ _ _]. unfold running, channel_of. rewrite K1. destruct (h_channels h !! ch) as [o|]; [|done]. cbn.
  pose proof (Forall2_length _ _ _ K4) as Hl. destruct (h_objs h !! o) as [c|] eqn:Hc.
  - destruct (Forall2_lookup_r _ _ _ _ _ K4 Hc) as (c' & -> & [Hs _ _ _]). cbn. by rewrite Hs.
  - apply lookup_ge_None in Hc. rewrite <- Hl in Hc. apply lookup_ge_None in Hc as ->. done.
Qed.
Lemma running_started ch ch' h h' :
  wf h → started ch h' h → running ch' h' = if decide (ch' = ch) then Some live else running ch' h.
Proof.
  intros Hw [(o & c & K1 & K2 & K3 & K4 & _) _ _ Ko _ _ _ _]. unfold running, channel_of. rewrite K1, js_lookup_insert.
  case_decide; [subst; rewrite decide_True by done; cbn; rewrite K3; cbn; by rewrite K4|].
  rewrite decide_False by done. destruct (h_channels h !! ch') as [o'|] eqn:Ho; [|done]. cbn.
  apply (wf_refs h Hw) in Ho. apply lookup_lt_is_Some_2 in Ho as [c' Hc']. rewrite Hc'.
  destruct (Ko _ _ Hc') as (c'' & -> & [Hs _ _ _]). cbn. by rewrite Hs.
Qed.
Lemma truth_change may c h h' :
  ¬ may (connects c) → (∀ ch, ¬ may (runs_untracked ch)) → change may h h' → wf h → truth c h → truth c h'.
Proof.
  intros Hnc Hnr [h0 h1 K|? ? ? ? ? h0 ?|ch session h0 ?|ch session h0 ?|ch h0 Hs|ch session h0 h1 ? K|? ? ? ? ? ? h0|out w h0 Hout ?|c' h0 ?|c' h0|h0] Hw Ht.
  - revert Ht. apply truth_heard_same; [by destruct K| |intros; by apply running_kept].
    rewrite !js_has_true, <- !js_elem_keys. by destruct K as [_ -> _ _ _ _ _ _].
  - apply truth_status; auto.
  - apply truth_status; auto.
  - by edestruct Hnr.
  - revert Ht. apply truth_heard_same; [done..|]. intros ch'. unfold running, channel_of, delete_channel. cbn.
    rewrite js_lookup_delete. case_decide; [subst ch'|done]. unfold channel_of in Hs.
    destruct (h_channels h0 !! ch) as [o|]; [|done]. cbn in *. destruct (h_objs h0 !! o); [|done]. cbn.
    by rewrite Hs.
  - pose proof (wf_started _ _ _ K Hw) as Hw1.
    assert (js_has c (h_clients h1) = js_has c (h_clients h0)) as Hcl.
    { apply eq_iff_eq_true. rewrite !js_has_true, <- !js_elem_keys. by rewrite (sd_clients _ _ _ K). }
    destruct Ht as [A B]. split; rewrite heard_broadcast by done; cbn [is_status]; rewrite andb_true_r, (sd_heard _ _ _ K).
    + apply Forall_app. split; [done|]. destruct (js_has c (h_clients h1)); by repeat constructor.
    + unfold broadcastToAllClients at 1. rewrite told_clients. intros Hc ch'. rewrite Hc, shown_status.
      unfold running. rewrite channel_of_broadcast. change (running ch' h1) with (running ch' h1).
      fold (running ch' h1). rewrite (running_started _ _ _ _ Hw K), B by congruence. by repeat case_decide; subst.
  - revert Ht. apply truth_heard_same; try done. unfold heard, heard_in, emit. cbn. by rewrite omap_app, app_nil_r.
  - revert Ht. apply truth_heard_same; try done. unfold heard, heard_in, emit. cbn. rewrite omap_app.
    destruct out; [done| |done]. by rewrite app_nil_r.
  - revert Ht. cbn [exec]. apply truth_heard_same.
    + rewrite heard_tell, (bool_decide_eq_false_2 (c' = c)), andb_false_r by congruence. by rewrite app_nil_r.
    + change (h_clients (tell _ c' ?w)) with (h_clients (tell_each (getStateSnapshot w) [c'] w)).
      rewrite told_clients. unfold addClient. cbn. rewrite js_has_insert, bool_decide_eq_false_2; [done|congruence].
    + intros ch. unfold running. f_equal. by apply (told_field (channel_of ch) _ [c'] (addClient c' h0)).
  - revert Ht. apply truth_heard_same; try done. cbn. rewrite js_has_delete. by intros [_ ?]%andb_true_iff.
  - revert Ht. by apply truth_heard_same.
Qed.

(** ** A window that connects *)

Lemma unless_dead_inj s s' : unless_dead s = unless_dead s' → s = s'.
Proof. unfold unless_dead. repeat case_decide; congruence. Qed.
Lemma running_entry_spec h e sc :
  wf h → e ∈ entries (h_channels h) → running_entry h e = Some sc →
  sy_id sc = e.1 ∧ running e.1 h = Some (sy_status sc) ∧ sy_status sc ≠ dead.
Proof.
  intros Hw He. destruct e as [ch o]. apply js_elem_lookup in He; [|apply Hw].
  unfold running_entry, running, channel_of. cbn. rewrite He. cbn. destruct (h_objs h !! o) as [c|]; [|done]. cbn.
  case_decide; [done|]. intros [= <-]. unfold unless_dead. cbn. by rewrite decide_False.
Qed.
Lemma running_listed h ch s :
  running ch h = Some s →
  ∃ sc, sc ∈ omap (running_entry h) (entries (h_channels h)) ∧ sy_id sc = ch ∧ sy_status sc = s.
Proof.
  unfold running, channel_of, unless_dead. destruct (h_channels h !! ch) as [o|] eqn:Ho; [|done]. cbn.
  destruct (h_objs h !! o) as [c|] eqn:Hc; [|done]. cbn. case_decide; [done|]. intros [= <-]. apply js_lookup_elem in Ho.
  eexists. split; [apply list_elem_of_omap; exists (ch, o); split; [done|]|].
  { unfold running_entry. cbn. rewrite Hc, decide_False by done. done. }
  done.
Qed.
Lemma snapshot_entry h sc : wf h → sc ∈ snapshot_channels h → running (sy_id sc) h = unless_dead (sy_status sc).
Proof.
  intros Hw. unfold snapshot_channels. cbv zeta. rewrite elem_of_app. intros [Hin|Hin].
  - apply list_elem_of_omap in Hin as (e & He & Hsc). destruct (running_entry_spec _ _ _ Hw He Hsc) as (-> & -> & Hd).
    unfold unless_dead. by rewrite decide_False.
  - apply list_elem_of_fmap in Hin as (e & -> & He). apply list_elem_of_filter in He as [He _].
    unfold unless_dead. cbn. destruct (running e.1 h) as [s|] eqn:Hr; [|done]. exfalso. apply He.
    apply running_listed in Hr as (sc & Hsc & Hid & _). rewrite <- Hid. by apply list_elem_of_fmap_2.
Qed.
Lemma snapshot_coherent h : wf h → coherent (getStateSnapshot h).
Proof.
  intros Hw e e' He He' Hid. apply unless_dead_inj. rewrite <- (snapshot_entry _ _ Hw He), <- (snapshot_entry _ _ Hw He').
  by rewrite Hid.
Qed.
Lemma snapshot_says ch h : wf h → sync_says ch (snapshot_channels h) ≫= unless_dead = running ch h.
Proof.
  intros Hw. unfold sync_says. destruct (list_find _ _) as [[i sc]|] eqn:Hf.
  - apply list_find_Some in Hf as (Hsc & <- & _). apply list_elem_of_lookup_2 in Hsc. by rewrite (snapshot_entry h sc).
  - apply list_find_None in Hf. destruct (running ch h) as [s|] eqn:Hr; [|done].
    apply running_listed in Hr as (sc & Hsc & <- & _). rewrite Forall_forall in Hf. edestruct (Hf sc); [|done].
    unfold snapshot_channels. cbv zeta. apply elem_of_app. by left.
Qed.
Lemma truth_connect c h :
  wf h → heard c h = [] → (∀ ch, running ch h = None → known ch ≫= unless_dead = None) → truth c (exec (Connect c) h).
Proof.
  intros Hw Hh Hk. cbn [exec]. set (w := addClient c h).
  assert (wf w) as Hww by (destruct Hw; split; cbn; [by apply js_wf_insert|done..]).
  assert (js_has c (h_clients w) = true) as Hc by (unfold w, addClient; cbn; by rewrite js_has_insert, bool_decide_eq_true_2).
  assert (heard c (tell (getStateSnapshot w) c w) = [getStateSnapshot w]) as Hs.
  { rewrite heard_tell, Hc, bool_decide_eq_true_2 by done. cbn [andb is_status getStateSnapshot].
    change (heard c w) with (heard c h). by rewrite Hh. }
  split; rewrite Hs; [constructor; [by apply snapshot_coherent|done]|]. intros _ ch.
  replace (running ch (tell (getStateSnapshot w) c w)) with (running ch w)
    by (unfold running; f_equal; symmetry; by apply (told_field (channel_of ch) _ [c] w)).
  specialize (Hk ch). change (running ch h) with (running ch w) in Hk. revert Hk. rewrite <- snapshot_says by done.
  unfold shown. cbn. destruct (sync_says ch _); [done|auto].
Qed.
End truth.
