(* ===== verification/ChannelExample.v ===== *)
(** * A hub to evaluate the definitions on

    One host, its agent connected and its session active, and what starts a terminal on it; the
    screens are followed by the scheduler of [SnapshotScheduler], the output by the chunker and the
    spool of [Replay]. *)

From S2P Require Import Prelude JsMap SpoolDal OutputChunker Replay SnapshotScheduler ChannelData ChannelTrackers StateBroadcaster ChannelLifecycle.
#[local] Open Scope lasterm_scope.
#[local] Open Scope string_scope.

Definition ex_setup : Setup :=
  {| titleSource := dynamic; staticTitle := ""; host_is_known := λ host, String.eqb host "h"; host_is_ssh := λ _, false |}.
Definition ex_outputs : Replay.Hub :=
  {| chunker := {| OutputChunker.channels := ∅; spoolDal := SpoolDal.Build_Db [] 0 0 |};
     cacheIndex := ∅ |}.
Notation ExHub := (Hub SnapshotScheduler Replay.Hub Wait).
Definition ex_hub : ExHub :=
  MkHub _ _ Wait 0 false (JsMap [("h", 0)]) [0] (JsMap [("h", 0)]) [MkSession "s" "h" active]
    ∅ [] [] ∅ [] [] [] [] 0 ∅ ∅ 0 ∅ (JsMap [("s", ("h", active))]) ∅ ∅ [] ∅ ∅ (SnapshotScheduler.new None) ex_outputs [].
Definition ex_config : Config := MkConfig (Some "bash") [] None false.
Definition ex_spawning (c : ClientId) (reuse : option ChannelId) : Spawning :=
  MkSpawning c "h" 0 "s" ex_config None 80 24 reuse.
(** A window starts a terminal, or brings one back, the ids being drawn from [n] on: its request, on
    its way to the host, the host reached, the agent's answer. *)
Definition ex_asks (c : ClientId) (reuse : option ChannelId) (n : nat) : list (Z * Ev) :=
  [(1, Spawn c "h" reuse false); (1, SpawnGoes n); (1, SpawnReached (S n) (Some (ex_spawning c reuse)))]%Z.
Definition ex_starts (c : ClientId) (reuse : option ChannelId) (ch : ChannelId) (n : nat) : list (Z * Ev) :=
  ex_asks c reuse n ++ [(2%Z, FromAgent "h" (Some (S (S n))) (m_SPAWN_OK ch))].
#[local] Existing Instance ex_setup.
Definition ex_run (h : ExHub) (es : list (Z * Ev)) : ExHub := run step h es.
(** One terminal, live, with its window. *)
Definition ex_live : ExHub := ex_run ex_hub ((0%Z, Connect "w1") :: ex_starts "w1" None "t1" 0).
Example ex_live_tracks : h_channels ex_live !! "t1" = Some 0.
Proof. reflexivity. Qed.
