(* ===== verification/ChannelsStore.v ===== *)
(** * What a window knows of the terminals ([clients/web/src/stores/channels.ts])

    The store of the web client: the list of the host in view, what the hub last reported of every
    terminal, the index of those of the other hosts, and what is kept for a list still being
    fetched; what each message of the hub does to it ([stores/session.ts], [hear]); and the fetch of
    a host's list, cut at its [await]. What a list only shows (its groups, its icons, its dates) is
    left out, and so are the requests whose answer changes none of this. *)

From S2P Require Import Prelude JsMap ChannelData StateBroadcaster.
#[local] Open Scope lasterm_scope.

Record ChannelReport := MkReport {
  rp_status : ChannelStatus; rp_exitCode : option Z; rp_endReason : option ChannelEndReason
}.
Record ChannelIndexEntry := MkIndex {
  ix_hostId : HostId; ix_displayTitle : string; ix_directProcess : bool;
  ix_endReason : option ChannelEndReason; ix_ended : bool
}.
(** An entry of the list in view. *)
Record Channel := MkListed {
  w_id : ChannelId; w_session : SessionId; w_status : ChannelStatus; w_config : Config; w_cols : Z; w_rows : Z;
  w_dynamicTitle : option string; w_processTitle : option string; w_displayTitle : option string;
  w_exitCode : option Z; w_endReason : option ChannelEndReason
}.
#[export] Instance listed_fields : Fields Channel := λ c,
  MkListed (w_id c) (w_session c) (w_status c) (w_config c) (w_cols c) (w_rows c) (w_dynamicTitle c)
    (w_processTitle c) (w_displayTitle c) (w_exitCode c) (w_endReason c).
#[export] Instance set_w_session : Setter w_session. Proof. derive_setter. Defined.
#[export] Instance set_w_status : Setter w_status. Proof. derive_setter. Defined.
#[export] Instance set_w_cols : Setter w_cols. Proof. derive_setter. Defined.
#[export] Instance set_w_rows : Setter w_rows. Proof. derive_setter. Defined.
#[export] Instance set_w_dynamicTitle : Setter w_dynamicTitle. Proof. derive_setter. Defined.
#[export] Instance set_w_processTitle : Setter w_processTitle. Proof. derive_setter. Defined.
#[export] Instance set_w_displayTitle : Setter w_displayTitle. Proof. derive_setter. Defined.
#[export] Instance set_w_exitCode : Setter w_exitCode. Proof. derive_setter. Defined.
#[export] Instance set_w_endReason : Setter w_endReason. Proof. derive_setter. Defined.

(** [st_fetching] is the fetches under way, by their generation, with their host. *)
Record Store := MkStore {
  st_channels : list Channel; st_selected : option ChannelId; st_loading : bool; st_error : option string;
  st_unread : list ChannelId; st_lastSyncIds : option (list ChannelId);
  st_pending : jsmap ChannelId (ChannelStatus * option Z); st_reports : jsmap ChannelId ChannelReport;
  st_generation : nat; st_wsAdded : jsmap nat (list ChannelId); st_hostMap : jsmap ChannelId HostId;
  st_index : jsmap ChannelId ChannelIndexEntry; st_activeHostId : option HostId; st_fetching : jsmap nat HostId;
  st_pendingSpawns : jsmap string HostId
}.
#[export] Instance store_fields : Fields Store := λ s,
  MkStore (st_channels s) (st_selected s) (st_loading s) (st_error s) (st_unread s) (st_lastSyncIds s)
    (st_pending s) (st_reports s) (st_generation s) (st_wsAdded s) (st_hostMap s) (st_index s)
    (st_activeHostId s) (st_fetching s) (st_pendingSpawns s).
#[export] Instance set_st_channels : Setter st_channels. Proof. derive_setter. Defined.
#[export] Instance set_st_selected : Setter st_selected. Proof. derive_setter. Defined.
#[export] Instance set_st_loading : Setter st_loading. Proof. derive_setter. Defined.
#[export] Instance set_st_error : Setter st_error. Proof. derive_setter. Defined.
#[export] Instance set_st_unread : Setter st_unread. Proof. derive_setter. Defined.
#[export] Instance set_st_lastSyncIds : Setter st_lastSyncIds. Proof. derive_setter. Defined.
#[export] Instance set_st_pending : Setter st_pending. Proof. derive_setter. Defined.
#[export] Instance set_st_reports : Setter st_reports. Proof. derive_setter. Defined.
#[export] Instance set_st_generation : Setter st_generation. Proof. derive_setter. Defined.
#[export] Instance set_st_wsAdded : Setter st_wsAdded. Proof. derive_setter. Defined.
#[export] Instance set_st_hostMap : Setter st_hostMap. Proof. derive_setter. Defined.
#[export] Instance set_st_index : Setter st_index. Proof. derive_setter. Defined.
#[export] Instance set_st_activeHostId : Setter st_activeHostId. Proof. derive_setter. Defined.
#[export] Instance set_st_fetching : Setter st_fetching. Proof. derive_setter. Defined.
#[export] Instance set_st_pendingSpawns : Setter st_pendingSpawns. Proof. derive_setter. Defined.

Definition new_store : Store := MkStore [] None false None [] None ∅ ∅ 0 ∅ ∅ ∅ None ∅ ∅.

Implicit Types (s : Store) (c : Channel).

(** ** Reading *)

Definition listed (ch : ChannelId) (l : list Channel) : option Channel := list_find (λ c, w_id c = ch) l |> fmap snd.
Definition reportOf (ch : ChannelId) s : option ChannelReport := st_reports s !! ch.
Definition endReasonOf (ch : ChannelId) s : option ChannelEndReason :=
  match st_reports s !! ch, listed ch (st_channels s) with
  | Some r, _ => if decide (rp_status r = dead) then rp_endReason r else None
  | None, Some c => if decide (w_status c = dead) then w_endReason c else None
  | None, None => st_index s !! ch ≫= ix_endReason
  end.
Definition statusOf (ch : ChannelId) s : option ChannelStatus :=
  match listed ch (st_channels s), st_reports s !! ch, st_index s !! ch with
  | Some c, _, _ => Some (w_status c)
  | None, Some r, _ => Some (rp_status r)
  | None, None, Some i => if ix_ended i then Some dead else None
  | None, None, None => None
  end.

(** ** What the hub says *)

(** The first entry of this id, changed. *)
Fixpoint on_listed (ch : ChannelId) (f : Channel → Channel) (l : list Channel) : list Channel :=
  match l with
  | [] => []
  | c :: l => if decide (w_id c = ch) then f c :: l else c :: on_listed ch f l
  end.
Definition with_exit (exitCode : option Z) c : Channel :=
  match exitCode with Some code => c <{ w_exitCode := Some code }> | None => c end.
Definition said_reason (status : ChannelStatus) (endReason : option ChannelEndReason) : option ChannelEndReason :=
  if decide (status = dead) then endReason else None.

Definition updateChannelStatus (ch : ChannelId) (status : ChannelStatus) (exitCode : option Z)
  (endReason : option ChannelEndReason) s : Store :=
  let s := s <{ st_reports ::= <[ch := MkReport status exitCode endReason]> }> in
  match listed ch (st_channels s) with
  | None => s <{ st_pending ::= <[ch := (status, exitCode)]> }>
  | Some _ =>
      s <{ st_channels ::= on_listed ch (λ c,
             with_exit exitCode (c <{ w_status := status }>) <{ w_endReason := said_reason status endReason }>) }>
  end.
Definition setDynamicTitle (ch : ChannelId) (title : string) s : Store :=
  s <{ st_channels ::= on_listed ch (λ c, c <{ w_dynamicTitle := Some title }>) }>.
Definition updateProcessTitle (ch : ChannelId) (title : string) s : Store :=
  s <{ st_channels ::= on_listed ch (λ c, c <{ w_processTitle := Some title }>) }>.
Definition setDisplayTitle (ch : ChannelId) (title : string) s : Store :=
  s <{ st_index ::= js_alter (λ i, MkIndex (ix_hostId i) title (ix_directProcess i) (ix_endReason i) (ix_ended i)) ch }>
    <{ st_channels ::= on_listed ch (λ c, c <{ w_displayTitle := Some title }>) }>.

Definition buffer (pending : jsmap ChannelId (ChannelStatus * option Z)) (sc : SyncEntry) :
  jsmap ChannelId (ChannelStatus * option Z) := <[sy_id sc := (sy_status sc, sy_exitCode sc)]> pending.
Definition sync_listed (entries : list SyncEntry) c : Channel :=
  match list_find (λ sc, sy_id sc = w_id c) entries with
  | Some (_, sc) =>
      if decide (w_status c = sy_status sc ∧ w_endReason c = sy_endReason sc) then c
      else with_exit (sy_exitCode sc) (c <{ w_status := sy_status sc }>)
             <{ w_endReason := said_reason (sy_status sc) (sy_endReason sc) }>
  | None => if decide (w_status c = dead) then c else c <{ w_status := dead }>
  end.
(** What is looked up is what the reports were when the message came; one that says the same is left
    as it is. *)
Definition sync_one (reports next : jsmap ChannelId ChannelReport) (sc : SyncEntry) : jsmap ChannelId ChannelReport :=
  let news := <[sy_id sc := MkReport (sy_status sc) (sy_exitCode sc) (said_reason (sy_status sc) (sy_endReason sc))]> next in
  match reports !! sy_id sc with
  | Some known => if decide (rp_status known = sy_status sc ∧ rp_endReason known = sy_endReason sc) then next else news
  | None => news
  end.
Definition sync_reports (entries : list SyncEntry) (reports : jsmap ChannelId ChannelReport) : jsmap ChannelId ChannelReport :=
  fold_left (sync_one reports) entries reports.
Definition applyStateSync (entries : list SyncEntry) s : Store :=
  let s := s <{ st_lastSyncIds := Some (sy_id <$> entries) }> <{ st_reports ::= sync_reports entries }> in
  match st_channels s with
  | [] => s <{ st_pending ::= fold_left buffer entries }>
  | _ =>
      let s := s <{ st_channels ::= fmap (sync_listed entries) }> in
      let unlisted := filter (λ sc, listed (sy_id sc) (st_channels s) = None) entries in
      s <{ st_pending ::= fold_left buffer unlisted }>
  end.

(** Of the host in view only; one it lists already is the same terminal, running again. *)
Definition handleChannelCreated (host : HostId) (ch : ChannelId) (session : SessionId) (config : Config) (cols rows : Z)
  (displayTitle : string) s : Store :=
  if negb (bool_decide (st_activeHostId s = Some host)) then s
  else
    let s := s <{ st_pending ::= delete ch }> in
    match listed ch (st_channels s) with
    | Some _ =>
        s <{ st_channels ::= on_listed ch (λ c,
               c <{ w_endReason := None }> <{ w_session := session }> <{ w_status := live }>
                 <{ w_cols := cols }> <{ w_rows := rows }> <{ w_displayTitle := Some displayTitle }>) }>
    | None =>
        s <{ st_channels ::= λ l, l ++ [MkListed ch session live (MkConfig (c_shell config) (c_args config) (c_cwd config) false)
                                          cols rows None None (Some displayTitle) None None] }>
          <{ st_wsAdded ::= λ m, JsMap ((λ e, (e.1, set_add ch e.2)) <$> entries m) }>
          <{ st_hostMap ::= <[ch := host]> }>
    end.
Definition registerChannelHost (ch : ChannelId) (host : HostId) s : Store :=
  if decide (st_hostMap s !! ch = Some host) then s else s <{ st_hostMap ::= <[ch := host]> }>.

(** ** Fetching the list of a host *)

(** Up to the [await]; the generation is this fetch's. *)
Definition fetchChannels (host : HostId) s : Store :=
  let s := s <{ st_generation ::= S }> <{ st_loading := true }> <{ st_error := None }> in
  let hostChanged := negb (bool_decide (st_activeHostId s = Some host)) || bool_decide (st_channels s = []) in
  let s := s <{ st_activeHostId := Some host }> in
  let s := if hostChanged
    then s <{ st_channels := [] }> <{ st_pending := ∅ }> <{ st_lastSyncIds := None }> else s in
  s <{ st_wsAdded ::= <[st_generation s := []]> }> <{ st_fetching ::= <[st_generation s := host]> }>.
(** The terminals created while it was fetched that the answer does not list. *)
Definition with_added (added : list ChannelId) (data here : list Channel) : list Channel :=
  data ++ filter (λ c, w_id c ∈ added ∧ w_id c ∉ w_id <$> data) here.
Definition with_pending (pending : jsmap ChannelId (ChannelStatus * option Z)) (merged : list Channel) : list Channel :=
  (λ c, match pending !! w_id c with
        | Some (status, exitCode) => with_exit exitCode (c <{ w_status := status }>)
        | None => c
        end) <$> merged.
Definition without_absent (syncIds : option (list ChannelId)) (merged : list Channel) : list Channel :=
  match syncIds with
  | Some ids => (λ c, if decide (w_status c ≠ dead ∧ w_id c ∉ ids) then c <{ w_status := dead }> else c) <$> merged
  | None => merged
  end.
Definition index_of (host : HostId) c : ChannelIndexEntry :=
  MkIndex host (default "" (w_displayTitle c)) (c_directProcess (w_config c))
    (if decide (w_status c = dead) then w_endReason c else None) (bool_decide (w_status c = dead)).
(** What the fetch commits, the list [data] having come. *)
Definition commit (generation : nat) (host : HostId) (data : list Channel) s : Store :=
  let added := default [] (st_wsAdded s !! generation) in
  let merged := with_added added data (st_channels s) |> with_pending (st_pending s)
                |> without_absent (st_lastSyncIds s) in
  let s := s <{ st_pending := ∅ }> <{ st_lastSyncIds := None }> <{ st_channels := merged }>
    <{ st_hostMap ::= λ m, fold_left (λ m c, <[w_id c := host]> m) merged m }>
    <{ st_index ::= λ m, fold_left (λ m c, <[w_id c := index_of host c]> m) merged m }> in
  match st_selected s with
  | Some ch => match listed ch (st_channels s) with None => s <{ st_selected := None }> | Some _ => s end
  | None => s
  end.
(** The answer: a list, or what went wrong. *)
Definition fetch_answered (generation : nat) (answer : list Channel + string) s : Store :=
  match st_fetching s !! generation with
  | None => s
  | Some host =>
      let current := bool_decide (st_generation s = generation) in
      let s := if current then
          match answer with
          | inl data => commit generation host data s
          | inr err => s <{ st_error := Some err }>
          end
        else s in
      let s := s <{ st_wsAdded ::= delete generation }> <{ st_fetching ::= delete generation }> in
      if current then s <{ st_loading := false }> else s
  end.
(** The listing of every host, row by row: its terminal, its host, its name, its status. *)
Definition fetchChannelIndex (rows : list (Channel * HostId)) s : Store :=
  s <{ st_index := fold_left (λ m row, <[w_id row.1 := index_of row.2 row.1]> m) rows ∅ }>
    <{ st_hostMap ::= λ m, fold_left (λ m row, <[w_id row.1 := row.2]> m) rows m }>.

(** ** The user's acts *)

Definition selectChannel (ch : ChannelId) s : Store :=
  s <{ st_selected := Some ch }> <{ st_unread ::= set_delete ch }>.
Definition markUnread (ch : ChannelId) s : Store :=
  if decide (st_selected s = Some ch) then s else s <{ st_unread ::= set_add ch }>.
(** Once the request was answered, or not. *)
Definition killChannel (ch : ChannelId) s : Store :=
  s <{ st_channels ::= on_listed ch (λ c, if decide (w_status c = dead) then c else c <{ w_status := dead }>) }>.
Definition deleteChannel (ch : ChannelId) s : Store :=
  s <{ st_channels ::= filter (λ c, w_id c ≠ ch) }> <{ st_hostMap ::= delete ch }>.
Definition purgeDeadChannels s : Store :=
  let deadIds := w_id <$> filter (λ c, w_status c = dead) (st_channels s) in
  s <{ st_channels ::= filter (λ c, w_status c ≠ dead) }>
    <{ st_hostMap ::= λ m, fold_left (λ m ch, delete ch m) deadIds m }>.
Definition registerPendingSpawn (tempId : string) (host : HostId) s : Store :=
  s <{ st_pendingSpawns ::= <[tempId := host]> }>.
Definition consumePendingSpawn (tempId : string) s : option HostId * Store :=
  (st_pendingSpawns s !! tempId, s <{ st_pendingSpawns ::= delete tempId }>).

(** ** The messages of the hub ([stores/session.ts]) *)

Definition named (title : string) (ch : ChannelId) s : Store := if truthy title then setDisplayTitle ch title s else s.
Definition sync_titles (sessions : list (SessionId * HostId * SessionStatus)) (channels : list SyncEntry) s : Store :=
  let sessionHostMap : jsmap SessionId HostId := fold_left (λ m e, <[e.1.1 := e.1.2]> m) sessions ∅ in
  fold_left (λ s sc,
    let s := match sessionHostMap !! sy_session sc with
             | Some host => if truthy host then registerChannelHost (sy_id sc) host s else s
             | None => s
             end in
    match sy_displayTitle sc with Some t => named t (sy_id sc) s | None => s end) channels s.
Definition hear (m : Msg) s : Store :=
  match m with
  | CHANNEL_STATE ch _ status exitCode endReason => updateChannelStatus ch status exitCode endReason s
  | CHANNEL_CREATED host ch session config cols rows displayTitle =>
      handleChannelCreated host ch session config cols rows displayTitle s
  | TITLE_CHANGE ch title displayTitle => setDynamicTitle ch title s |> named displayTitle ch
  | PROCESS_TITLE ch title displayTitle => updateProcessTitle ch title s |> named displayTitle ch
  | STATE_SYNC sessions channels _ => sync_titles sessions channels s |> applyStateSync channels
  | _ => s
  end.

(** What happens in a window. *)
Inductive WindowEv :=
| Heard (m : Msg) | Fetch (host : HostId) | Fetched (generation : nat) (answer : list Channel + string)
| Indexed (rows : list (Channel * HostId)) | Select (ch : ChannelId) | Unread (ch : ChannelId)
| Killed (ch : ChannelId) | Deleted (ch : ChannelId) | Purged
| Registered (tempId : string) (host : HostId) | Consumed (tempId : string).
Definition window_step s (e : WindowEv) : Store :=
  match e with
  | Heard m => hear m s
  | Fetch host => fetchChannels host s
  | Fetched generation answer => fetch_answered generation answer s
  | Indexed rows => fetchChannelIndex rows s
  | Select ch => selectChannel ch s
  | Unread ch => markUnread ch s
  | Killed ch => killChannel ch s
  | Deleted ch => deleteChannel ch s
  | Purged => purgeDeadChannels s
  | Registered tempId host => registerPendingSpawn tempId host s
  | Consumed tempId => (consumePendingSpawn tempId s).2
  end.
