(* ===== verification/ChannelWindows.v ===== *)
(** * A window shows of the terminals what the hub holds

    The hub of [ChannelLifecycle] and a window of [ChannelsStore], which hears what the hub sends it
    and does what it does besides. What the window reports of a terminal is what the messages it
    heard said last ([report_step]), and that is what the hub holds ([ChannelTruth]). *)

From Stdlib.Strings Require Import Byte.
From S2P Require Import Prelude JsMap ChannelData ChannelTrackers StateBroadcaster ChannelLifecycle ChannelChanges ChannelOps ChannelTruth ChannelsStore ChannelExample.
#[local] Open Scope lasterm_scope.

(** ** What a window reports *)

Definition report_status (ch : ChannelId) (s : Store) : option ChannelStatus := rp_status <$> st_reports s !! ch.
(** The status a window reports of a terminal that runs. *)
Definition reported (ch : ChannelId) (s : Store) : option ChannelStatus := report_status ch s ≫= unless_dead.
Definition heard_of (e : WindowEv) : option Msg := match e with Heard m => Some m | _ => None end.

Lemma named_reports t ch s : st_reports (named t ch s) = st_reports s.
Proof. unfold named. by destruct (truthy t). Qed.
Lemma sync_titles_reports sessions channels s : st_reports (sync_titles sessions channels s) = st_reports s.
Proof.
  unfold sync_titles. generalize (fold_left (λ m e, <[e.1.1 := e.1.2]> m) sessions ∅ : jsmap SessionId HostId). intros m.
  revert s. induction channels as [|sc l IH]; intros s; [done|]. cbn [fold_left]. rewrite IH.
  assert (∀ s', st_reports s' = st_reports s →
    st_reports (match sy_displayTitle sc with Some t => named t (sy_id sc) s' | None => s' end) = st_reports s) as Hn.
  { intros s' <-. destruct (sy_displayTitle sc); [apply named_reports|done]. }
  apply Hn. destruct (m !! sy_session sc) as [host|]; [|done]. destruct (truthy host); [|done].
  unfold registerChannelHost. by case_decide.
Qed.
Lemma sync_fold (reports : jsmap ChannelId ChannelReport) ch st (l : list SyncEntry) (next : jsmap ChannelId ChannelReport) :
  (∀ e, e ∈ l → sy_id e = ch → sy_status e = st) →
  rp_status <$> next !! ch = rp_status <$> reports !! ch ∨ rp_status <$> next !! ch = Some st →
  rp_status <$> fold_left (sync_one reports) l next !! ch =
  if decide (ch ∈ sy_id <$> l) then Some st else rp_status <$> next !! ch.
Proof.
  revert next. induction l as [|sc l IH]; intros next Hl Hn; [done|]. cbn [fold_left].
  set (next' := sync_one reports next sc).
  assert (rp_status <$> next' !! ch = if decide (sy_id sc = ch) then Some st else rp_status <$> next !! ch) as Hn'.
  { unfold next', sync_one. cbv zeta. destruct (decide (sy_id sc = ch)) as [<-|Hne].
    - pose proof (Hl sc ltac:(by left) eq_refl) as <-. destruct (reports !! sy_id sc) as [known|] eqn:Hk;
        [destruct (decide (_ ∧ _)) as [Hd|]|]; rewrite ?js_lookup_insert_eq; try done. destruct Hd as [Hd _], Hn as [Hn|Hn]; rewrite Hn; [|done].
      rewrite <- Hd. done.
    - destruct (reports !! sy_id sc) as [known|]; [destruct (decide (_ ∧ _))|]; by rewrite ?js_lookup_insert_ne. }
  clearbody next'. rewrite IH.
  - rewrite Hn'. rewrite fmap_cons. destruct (decide (sy_id sc = ch)) as [<-|Hne].
    + rewrite (decide_True (P := sy_id sc ∈ sy_id sc :: _)) by by left. by destruct (decide (_ ∈ _)).
    + destruct (decide (ch ∈ sy_id <$> l)) as [Hin|Hin].
      * rewrite decide_True; [done|by right].
      * rewrite decide_False; [done|]. intros [?|?]%elem_of_cons; [by apply Hne|done].
  - intros e He. apply Hl. by right.
  - rewrite Hn'. destruct (decide (sy_id sc = ch)); [by right|done].
Qed.
Lemma sync_reports_says ch entries (reports : jsmap ChannelId ChannelReport) sessions users :
  coherent (STATE_SYNC sessions entries users) →
  rp_status <$> sync_reports entries reports !! ch = says ch (rp_status <$> reports !! ch) (STATE_SYNC sessions entries users).
Proof.
  intros Hc. cbn [says]. unfold sync_says. destruct (list_find _ _) as [[i sc]|] eqn:Hf.
  - apply list_find_Some in Hf as (Hsc & <- & _). apply list_elem_of_lookup_2 in Hsc. cbn.
    unfold sync_reports. rewrite (sync_fold _ _ (sy_status sc)); [|intros e He Hid; by apply Hc|by left].
    rewrite decide_True; [done|]. by apply list_elem_of_fmap_2.
  - apply list_find_None in Hf. unfold sync_reports. rewrite Forall_forall in Hf.
    rewrite (sync_fold _ _ dead); [|intros e He Hid; by edestruct Hf|by left].
    rewrite decide_False; [done|]. intros (e & -> & He)%list_elem_of_fmap. by edestruct Hf.
Qed.
(** Only what the hub says of a status changes what is reported. *)
Lemma report_step ch s e :
  (∀ m, heard_of e = Some m → coherent m) →
  report_status ch (window_step s e) =
    match heard_of e with Some m => says ch (report_status ch s) m | None => report_status ch s end.
Proof.
  intros Hc. unfold report_status.
  destruct e as [m|host|generation answer|rows|ch'|ch'|ch'|ch'| |tempId host|tempId]; cbn [window_step heard_of]; try done.
  - specialize (Hc m eq_refl). destruct m; cbn [hear]; try done.
    + cbn [says]. unfold updateChannelStatus. cbv zeta. destruct (listed _ _); cbn; rewrite js_lookup_insert; by destruct (decide _).
    + rewrite <- (sync_reports_says _ _ _ _ _ Hc), <- (sync_titles_reports sessions channels s).
      unfold applyStateSync. by destruct (st_channels _).
    + unfold handleChannelCreated. destruct (negb _); [done|]. cbv zeta. by destruct (listed _ _).
    + by rewrite named_reports.
    + by rewrite named_reports.
  - unfold fetchChannels. by destruct (negb _ || _).
  - unfold fetch_answered. destruct (st_fetching s !! generation); [|done]. cbv zeta.
    destruct (bool_decide _); [|done]. destruct answer; [|done]. cbn. unfold commit. cbv zeta.
    destruct (st_selected _); [|done]. by destruct (listed _ _).
  - unfold markUnread. by case_decide.
Qed.
Lemma report_steps ch s ws :
  Forall coherent (omap heard_of ws) →
  report_status ch (fold_left window_step ws s) = fold_left (says ch) (omap heard_of ws) (report_status ch s).
Proof.
  revert s. induction ws as [|e ws IH]; intros s Hc; [done|]. cbn [fold_left]. rewrite IH.
  - rewrite report_step; [simpl; by destruct (heard_of e)|]. intros m Hm. simpl in Hc. rewrite Hm in Hc.
    by apply Forall_cons in Hc as [].
  - simpl in Hc. destruct (heard_of e); [by apply Forall_cons in Hc as []|done].
Qed.

Section windows.
Context `{!Setup} {Sc Ou : Type} `{!Screens Sc, !Outputs Ou}.
Notation Hub := (Hub Sc Ou Wait).
Implicit Types (h : Hub).

(** All that was sent to a window. *)
Definition received (c : ClientId) h : list Msg :=
  omap (λ o, match o with to_client c' m => if bool_decide (c' = c) then Some m else None | _ => None end) (h_log h).
(** What holds of each event where it happens. *)
Fixpoint along (P : Ev → Hub → Prop) (es : list (Z * Ev)) h : Prop :=
  match es with [] => True | e :: es => P e.2 h ∧ along P es (step h e) end.

Lemma heard_received c h : heard c h = filter (λ m, is_status m = true) (received c h).
Proof.
  unfold heard, heard_in, received. induction (h_log h) as [|o l IH]; [done|]. cbn [omap list_omap]. destruct o as [c' m| |]; try done.
  destruct (bool_decide (c' = c)); simpl; [|done]. rewrite filter_cons. destruct (is_status m); simpl; [by f_equal|done].
Qed.
(** Only the messages of statuses say one. *)
Lemma says_statuses ch ms acc : fold_left (says ch) (filter (λ m, is_status m = true) ms) acc = fold_left (says ch) ms acc.
Proof.
  revert acc. induction ms as [|m ms IH]; intros acc; [done|]. rewrite filter_cons.
  destruct m; try (rewrite decide_True by done; apply IH); rewrite decide_False by done; apply IH.
Qed.
Lemma coherent_statuses ms : Forall coherent (filter (λ m, is_status m = true) ms) → Forall coherent ms.
Proof.
  induction ms as [|m ms IH]; [done|]. rewrite filter_cons. case_decide.
  - intros [? ?]%Forall_cons. constructor; auto.
  - intros. constructor; [by destruct m|auto].
Qed.
Lemma truth_evolves known may c h h' :
  ¬ may (connects c) → (∀ ch, ¬ may (runs_untracked ch)) → evolves may h h' → wf h → truth known c h → truth known c h'.
Proof.
  intros Hc Hr. induction 1; auto. intros Hw Ht. apply IHrtc; [by eapply change_wf|by eapply truth_change].
Qed.
Lemma truth_run known c es h :
  Forall (λ e, e.2 ≠ Connect c) es → along (λ e h, respawns_untracked e h = None) es h → wf h → truth known c h →
  truth known c (run step h es).
Proof.
  revert h. induction es as [|e es IH]; intros h He Ha Hw Ht; [done|]. apply Forall_cons in He as [He Hes].
  destruct Ha as [Ha Has]. apply IH; try done; [by eapply evolves_wf; [apply evolves_step|]|].
  eapply truth_evolves; [| |apply evolves_step|done..]; [done|]. intros ch. simpl. by rewrite Ha.
Qed.

(** C2: Whatever happens in the hub and in a window after its socket connects, the window, having
    heard what the hub sent it, reports of every terminal the status the hub holds: of each that
    runs, as it runs, and of none that does not. It may bring any store to the socket that reports
    none as running that had ended meanwhile; no respawn is answered for a terminal untracked. *)
Theorem windows_told_the_truth h c t es s ws :
  let h0 := step h (t, Connect c) in
  let h' := run step h0 es in
  wf h → received c h = [] → (∀ ch, running ch h = None → reported ch s = None) →
  Forall (λ e, e.2 ≠ Connect c) es → along (λ e h, respawns_untracked e h = None) es h0 →
  js_has c (h_clients h') = true → omap heard_of ws = received c h' →
  ∀ ch, reported ch (fold_left window_step ws s) = running ch h'.
Proof.
  intros h0 h' Hw Hr Hs Hes Ha Hc Hws ch.
  assert (heard c h = []) as Hh by by rewrite heard_received, Hr.
  assert (wf h0) as Hw0 by (eapply evolves_wf; [apply evolves_step|done]).
  assert (truth (λ ch, report_status ch s) c h0) as Ht0.
  { apply (truth_connect _ c (set_field h_now (λ _, t) h)); [by destruct Hw|exact Hh|exact Hs]. }
  destruct (truth_run _ c es h0 Hes Ha Hw0 Ht0) as [Hco Hsh]. fold h' in Hco, Hsh.
  rewrite heard_received in Hco, Hsh. apply coherent_statuses in Hco.
  unfold reported. rewrite report_steps, Hws, <- Hsh by (done || by rewrite Hws). unfold shown. by rewrite says_statuses.
Qed.
End windows.

(** ** On a hub with one terminal

    A window opens on it, the terminal is killed and another starts; the window has not left its
    first page. *)
#[local] Existing Instance ex_setup.
#[local] Open Scope string_scope.
Definition ex_events : list (Z * Ev) := (4%Z, Kill "t1") :: ex_starts "w2" None "t2" 3.
Definition ex_opened : ExHub := step ex_live (3%Z, Connect "w2").
Definition ex_window : Store := fold_left window_step (Heard <$> received "w2" (run step ex_opened ex_events)) new_store.
Lemma wf_ex_hub : wf ex_hub.
Proof. split; [constructor|constructor|done|done]. Qed.
Lemma windows_told_the_truth_witness : reported "t1" ex_window = None ∧ reported "t2" ex_window = Some live.
Proof.
  assert (∀ ch, reported ch ex_window = running ch (run step ex_opened ex_events)) as Ht.
  { intros ch. apply (windows_told_the_truth ex_live "w2" 3 ex_events new_store).
    - apply run_wf, wf_ex_hub.
    - vm_compute. reflexivity.
    - done.
    - repeat constructor; done.
    - vm_compute. repeat split; reflexivity.
    - vm_compute. reflexivity.
    - vm_compute. reflexivity. }
  split; rewrite Ht; vm_compute; reflexivity.
Defined.
