(* ===== verification/ChannelEnds.v ===== *)
(** * How terminals end

    What stays of a kill ([killed_stays_killed]) and what a quit lets happen ([nothing_starts_after_quit]),
    each shown of the small changes of [ChannelChanges]; and what the list a daemon gives of its
    terminals ends ([reconcile_exact]). *)

From Stdlib.Strings Require Import Byte.
From S2P Require Import Prelude JsMap ChannelData ChannelTrackers StateBroadcaster ChannelLifecycle ChannelChanges ChannelOps ChannelTruth ChannelsStore ChannelExample ChannelWindows.
#[local] Open Scope lasterm_scope.

Section ends.
Context `{!Setup} {Sc Ou : Type} `{!Screens Sc, !Outputs Ou}.
Notation Hub := (Hub Sc Ou Wait).
Notation updateChannelStatus := StateBroadcaster.updateChannelStatus.
Implicit Types (h : Hub) (may : Odd → Prop).

(** ** A kill *)

(** Not tracked, and killed by its row. *)
Definition gone_killed (ch : ChannelId) h : Prop :=
  h_channels h !! ch = None ∧ mark <$> h_rows h !! ch = Some (dead, Some killed).
Lemma quitting_status ch session status exitCode reason h :
  h_quitting (updateChannelStatus ch session status exitCode reason h) = h_quitting h.
Proof.
  unfold updateChannelStatus, broadcastToAllClients. rewrite (told_field h_quitting) by done. cbn. unfold on_channel.
  by destruct (h_channels h !! ch).
Qed.
Lemma rows_status ch session status exitCode reason h :
  h_rows (updateChannelStatus ch session status exitCode reason h) =
  db_updateChannelStatus ch status exitCode (reason_said status reason h) (h_rows h).
Proof.
  unfold updateChannelStatus, broadcastToAllClients. rewrite (told_field h_rows) by done. cbn. unfold on_channel.
  by destruct (h_channels h !! ch).
Qed.
Lemma mark_told ch status exitCode reason (rows : Rows) :
  mark <$> db_updateChannelStatus ch status exitCode reason rows !! ch = (λ r, (status, end_reason r status reason)) <$> rows !! ch.
Proof.
  unfold db_updateChannelStatus. rewrite js_lookup_alter, decide_True by done. destruct (rows !! ch) as [r|]; [|done]. cbn.
  by destruct exitCode.
Qed.
Lemma gone_elsewhere ch ch' session status exitCode reason h :
  ch ≠ ch' → gone_killed ch h → gone_killed ch (updateChannelStatus ch' session status exitCode reason h).
Proof.
  intros Hne [H1 H2]. split; [by rewrite h_channels_status|]. rewrite rows_status.
  unfold db_updateChannelStatus. by rewrite rows_elsewhere.
Qed.
(** Told again that it ended, for no reason given: the row keeps the one it has. *)
Lemma gone_ended ch session h :
  h_quitting h = false → gone_killed ch h → gone_killed ch (updateChannelStatus ch session dead None None h).
Proof.
  intros Hq [H1 H2]. split; [by rewrite h_channels_status|]. rewrite rows_status, mark_told.
  unfold reason_said. rewrite decide_True, Hq by done. destruct (h_rows h !! ch) as [r|]; [|done]. cbn in *.
  injection H2 as Hs Hr. unfold end_reason. by rewrite !decide_True, Hr.
Qed.
Lemma change_quitting may h h' : change may h h' → h_quitting h = true → h_quitting h' = true.
Proof.
  intros [h0 h1 K|? ? ? ? ? h0 ?|ch session h0 ?|ch session h0|ch h0 ?|ch session h0 h1 ? K|? ? ? ? ? ? h0|out w h0 Hout ?|c h0|c h0|h0] Hq;
    rewrite ?quitting_status; try done.
  - by rewrite (kp_quitting _ _ K).
  - destruct (sd_running _ _ _ K). congruence.
  - rewrite <- Hq. by apply (told_field h_quitting _ [c] (addClient c h0)).
Qed.
Lemma change_gone may ch h h' :
  ¬ may (starts ch) → ¬ may (runs_untracked ch) → change may h h' →
  h_quitting h = true ∨ gone_killed ch h → h_quitting h' = true ∨ gone_killed ch h'.
Proof.
  intros Hs Hr Hc [Hq|Hg]; [left; by eapply change_quitting|].
  destruct Hc as [h0 h1 K|ch' ? ? ? ? h0 Ht|ch' session h0 Hq|ch' session h0 ?|ch' h0 ?|ch' session h0 h1 ? K|? ? ? ? ? ? h0|out w h0 Hout ?|c h0|c h0|h0].
  - right. destruct Hg, K as [K1 _ _ _ K5 _ _ _]. split; [by rewrite K1|by rewrite K5].
  - right. apply gone_elsewhere; [|done]. intros ->. destruct Hg as [Hg _]. rewrite Hg in Ht. by destruct Ht.
  - destruct (h_quitting h0) eqn:Hq0; [left; by rewrite quitting_status|right].
    destruct (decide (ch = ch')) as [<-|]; [by apply gone_ended|by apply gone_elsewhere].
  - right. apply gone_elsewhere; [|done]. by intros ->.
  - right. destruct Hg as [H1 H2]. split; [|done]. cbn. rewrite js_lookup_delete, H1. by case_decide.
  - right. assert (ch ≠ ch') as Hne by by intros ->. destruct K as [(o & c & K1 & _) _ _ _ K5 _ _ _].
    destruct Hg as [H1 H2]. split.
    + unfold broadcastToAllClients. rewrite (told_field h_channels) by done. by rewrite K1, js_lookup_insert_ne.
    + unfold broadcastToAllClients. rewrite (told_field h_rows) by done. by rewrite K5.
  - by right.
  - by right.
  - right. cbn [exec]. destruct Hg as [H1 H2].
    split; [rewrite <- H1; f_equal; by apply (told_field h_channels _ [c] (addClient c h0))|].
    rewrite <- H2. do 2 f_equal. by apply (told_field h_rows _ [c] (addClient c h0)).
  - by right.
  - by left.
Qed.
Lemma gone_evolves may ch h h' :
  ¬ may (starts ch) → ¬ may (runs_untracked ch) → evolves may h h' →
  h_quitting h = true ∨ gone_killed ch h → h_quitting h' = true ∨ gone_killed ch h'.
Proof. intros Hs Hr. induction 1; auto. intros Hg. apply IHrtc. by eapply change_gone. Qed.
(** No step has a start of it answered. *)
Notation not_started ch := (along (λ e h, starts_at e h ≠ Some ch ∧ respawns_untracked e h ≠ Some ch)).
Lemma gone_run ch es h :
  not_started ch es h → h_quitting h = true ∨ gone_killed ch h →
  h_quitting (run step h es) = true ∨ gone_killed ch (run step h es).
Proof.
  revert h. induction es as [|e es IH]; intros h Ha Hg; [done|]. destruct Ha as [[Hs Hr] Ha]. apply IH; [done|].
  by eapply gone_evolves; [| |apply evolves_step|].
Qed.
Lemma destroyed_gone ch h : is_Some (channel_of ch h) → is_Some (h_rows h !! ch) → gone_killed ch (destroyChannel ch h).
Proof.
  intros [c Hc] [r Hr]. unfold destroyChannel. rewrite Hc. cbv zeta. set (w := match h_agents h !! _ with Some _ => _ | None => _ end).
  assert (h_rows w = h_rows h) as Hw by (unfold w; destruct (h_agents h !! _); [|done]; by destruct (decide _)).
  clearbody w. split; cbn; [by rewrite js_lookup_delete, decide_True|].
  rewrite rows_status, mark_told, Hw, Hr. done.
Qed.

Lemma evolves_quitting may h h' : evolves may h h' → h_quitting h = true → h_quitting h' = true.
Proof. induction 1; auto. intros. by eapply IHrtc, change_quitting. Qed.
Lemma gone_synced ch h :
  wf h → gone_killed ch h →
  ch ∈ sy_id <$> snapshot_channels h ∧
  ∀ sc, sc ∈ snapshot_channels h → sy_id sc = ch → sy_status sc = dead ∧ sy_endReason sc = Some killed.
Proof.
  intros Hw [Hc Hm]. assert (running ch h = None) as Hrun by (unfold running, channel_of; by rewrite Hc).
  assert (ch ∉ sy_id <$> omap (running_entry h) (entries (h_channels h))) as Hn.
  { intros (sc & -> & Hsc)%list_elem_of_fmap. apply list_elem_of_omap in Hsc as (e & He & Hsc).
    destruct (running_entry_spec _ _ _ Hw He Hsc) as (Hid & Hr & _). rewrite <- Hid in Hr. congruence. }
  unfold snapshot_channels. cbv zeta. split.
  - rewrite fmap_app, elem_of_app. right. destruct (h_rows h !! ch) as [r|] eqn:Hr; [|done]. injection Hm as Hs Hk.
    apply list_elem_of_fmap. exists (killed_entry (ch, r)). split; [done|]. apply list_elem_of_fmap_2.
    apply list_elem_of_filter. split; [done|]. apply list_elem_of_filter. split; [|by apply js_lookup_elem].
    apply bool_decide_eq_true_2. done.
  - intros sc [Hsc|Hsc]%elem_of_app Hid; [destruct Hn; rewrite <- Hid; by apply list_elem_of_fmap_2|].
    by apply list_elem_of_fmap in Hsc as (e & -> & _).
Qed.
(** A window with nothing reported takes the last entry of each terminal. *)
Lemma synced_killed ch (l : list SyncEntry) (next : jsmap ChannelId ChannelReport) :
  (∀ sc, sc ∈ l → sy_id sc = ch → sy_status sc = dead ∧ sy_endReason sc = Some killed) →
  ch ∈ sy_id <$> l ∨ (∃ r, next !! ch = Some r ∧ rp_status r = dead ∧ rp_endReason r = Some killed) →
  ∃ r, fold_left (sync_one ∅) l next !! ch = Some r ∧ rp_status r = dead ∧ rp_endReason r = Some killed.
Proof.
  revert next. induction l as [|sc l IH]; intros next Hl Hn; [by destruct Hn as [Hn|]; [apply not_elem_of_nil in Hn|]|].
  cbn [fold_left]. apply IH; [intros ? ?; apply Hl; by right|].
  destruct (decide (sy_id sc = ch)) as [Hid|Hne].
  - right. destruct (Hl sc ltac:(by left) Hid) as [Hs Hr]. unfold sync_one. cbv zeta. rewrite js_lookup_empty, js_lookup_insert, decide_True by done.
    eexists. split; [done|]. cbn. unfold said_reason. by rewrite Hs, Hr, decide_True.
  - destruct Hn as [Hn|(r & Hr & ?)].
    + rewrite fmap_cons in Hn. apply elem_of_cons in Hn as [->|Hn]; [done|by left].
    + right. exists r. unfold sync_one. cbv zeta. by rewrite js_lookup_empty, js_lookup_insert_ne.
Qed.

Lemma st_reports_synced l s : st_reports (applyStateSync l s) = sync_reports l (st_reports s).
Proof. unfold applyStateSync. by destruct (st_channels _). Qed.

(** C7: A terminal killed stays so, whatever else happens, until a start of it is answered: it is not
    tracked, its row says it was killed on purpose, and so does the STATE_SYNC of every window opened
    from then on, which reads why it ended there and brings it back for nobody. (A hub that quits
    meanwhile may put down that it stopped.) *)
Theorem killed_stays_killed t ch es h :
  let h0 := step h (t, Kill ch) in
  let h' := run step h0 es in
  wf h → is_Some (channel_of ch h) → is_Some (h_rows h !! ch) → not_started ch es h0 → h_quitting h' = false →
  h_channels h' !! ch = None ∧ mark <$> h_rows h' !! ch = Some (dead, Some killed) ∧
  endReasonOf ch (hear (getStateSnapshot h') new_store) = Some killed.
Proof.
  intros h0 h' Hw Hc Hr Ha Hq.
  assert (gone_killed ch h0) as Hg0 by by apply (destroyed_gone ch (set_field h_now (λ _, t) h)).
  destruct (gone_run ch es h0 Ha) as [|Hg]; [by right|unfold h' in Hq; congruence|]. fold h' in Hg.
  assert (wf h') as Hw' by (apply run_wf; eapply evolves_wf; [apply evolves_step|done]).
  destruct (gone_synced ch h' Hw' Hg) as [Hin Hall]. split_and!; [apply Hg..|].
  destruct (synced_killed ch (snapshot_channels h') ∅ Hall) as (r & Hrep & Hs & He); [by left|].
  unfold endReasonOf. cbn [hear getStateSnapshot]. rewrite st_reports_synced, sync_titles_reports.
  change (st_reports new_store) with (∅ : jsmap ChannelId ChannelReport). unfold sync_reports.
  by rewrite Hrep, decide_True.
Qed.

(** ** A quit *)

Lemma spawns_tell m c h : spawns (tell m c h) = spawns h.
Proof. unfold tell. destruct (js_has c (h_clients h)); [|done]. unfold spawns, emit. cbn. by rewrite omap_app, app_nil_r. Qed.
Lemma spawns_each m cs h : spawns (tell_each m cs h) = spawns h.
Proof. unfold tell_each. revert h. induction cs as [|c cs IH]; intros h; [done|]. cbn [fold_left]. by rewrite IH, spawns_tell. Qed.
Lemma spawns_status ch session status exitCode reason h : spawns (updateChannelStatus ch session status exitCode reason h) = spawns h.
Proof.
  unfold updateChannelStatus, broadcastToAllClients. rewrite spawns_each. unfold on_channel.
  by destruct (h_channels h !! ch).
Qed.
Lemma change_quit may h h' :
  change may h h' → h_quitting h = true →
  spawns h' = spawns h ∧ ∀ ch o, h_channels h' !! ch = Some o → h_channels h !! ch = Some o.
Proof.
  intros [h0 h1 K|? ? ? ? ? h0 ?|ch session h0 ?|ch session h0|ch h0 ?|ch session h0 h1 ? K|? ? ? ? ? ? h0|out w h0 Hout ?|c h0|c h0|h0] Hq; try done.
  - destruct K as [-> _ _ _ _ _ -> _]. done.
  - by rewrite spawns_status, h_channels_status.
  - by rewrite spawns_status, h_channels_status.
  - by rewrite spawns_status, h_channels_status.
  - split; [done|]. intros ch' o. cbn. rewrite js_lookup_delete. by destruct (decide _).
  - destruct (sd_running _ _ _ K). congruence.
  - congruence.
  - split; [|done]. unfold spawns, emit. cbn. rewrite omap_app. destruct out as [| |]; [done| |done]. destruct m; try done; by rewrite app_nil_r.
  - split; [apply (spawns_tell _ c (addClient c h0))|]. intros ch o.
    assert (h_channels (exec (Connect c) h0) = h_channels h0) as ->; [|done].
    by apply (told_field h_channels _ [c] (addClient c h0)).
Qed.
Lemma evolves_quit may h h' :
  evolves may h h' → h_quitting h = true →
  spawns h' = spawns h ∧ ∀ ch o, h_channels h' !! ch = Some o → h_channels h !! ch = Some o.
Proof.
  induction 1 as [h|h h1 h2 Hc _ IH]; [done|]. intros Hq. destruct (change_quit _ _ _ Hc Hq) as [Hs Ht].
  destruct (IH (change_quitting _ _ _ Hc Hq)) as [Hs' Ht']. split; [congruence|auto].
Qed.

(** C34: Once the hub quits, no SPAWN goes to any agent and no terminal comes to be tracked, whatever
    was on its way: what was asked for before is refused or let go of. *)
Theorem nothing_starts_after_quit es h :
  h_quitting h = true →
  spawns (run step h es) = spawns h ∧
  ∀ ch o, h_channels (run step h es) !! ch = Some o → h_channels h !! ch = Some o.
Proof.
  revert h. induction es as [|e es IH]; intros h Hq; [done|].
  destruct (evolves_quit _ _ _ (evolves_step e h) Hq) as [Hs Ht].
  destruct (IH (step h e)) as [Hs' Ht']; [by eapply evolves_quitting; [apply evolves_step|]|].
  split; [by etransitivity; [exact Hs'|]|auto].
Qed.
End ends.

(** ** On a hub with one terminal *)
#[local] Existing Instance ex_setup.
#[local] Open Scope string_scope.
(** The terminal is killed, and its window starts another. *)
Definition ex_killed : ExHub := run step (step ex_live (3%Z, Kill "t1")) (ex_starts "w1" None "t2" 3).
Lemma killed_stays_killed_witness :
  h_channels ex_killed !! "t1" = None ∧ h_channels ex_killed !! "t2" = Some 1 ∧
  endReasonOf "t1" (hear (getStateSnapshot ex_killed) new_store) = Some killed.
Proof.
  destruct (killed_stays_killed 3 "t1" (ex_starts "w1" None "t2" 3) ex_live) as (H1 & _ & H2).
  - apply run_wf, wf_ex_hub.
  - eexists. vm_compute. reflexivity.
  - eexists. vm_compute. reflexivity.
  - vm_compute. repeat split; discriminate.
  - vm_compute. reflexivity.
  - split_and!; [exact H1|vm_compute; reflexivity|exact H2].
Defined.
(** A SPAWN is on its way when the hub quits, and is answered after. *)
Definition ex_quitting : ExHub := run step ex_live (ex_asks "w1" None 3 ++ [(2%Z, Quit)]).
Definition ex_after_quit : list (Z * Ev) := [(3%Z, FromAgent "h" (Some 5) (m_SPAWN_OK "t2")); (4%Z, Restart "t1"); (5%Z, Respawn "h" 0 warm_restart)].
Lemma nothing_starts_after_quit_witness :
  spawns (run step ex_quitting ex_after_quit) = [2; 5] ∧ h_channels (run step ex_quitting ex_after_quit) !! "t2" = None.
Proof.
  destruct (nothing_starts_after_quit ex_after_quit ex_quitting) as [H1 H2]; [vm_compute; reflexivity|]. split.
  - rewrite H1. vm_compute. reflexivity.
  - destruct (h_channels (run step ex_quitting ex_after_quit) !! "t2") as [o|] eqn:Ho; [|reflexivity].
    apply H2 in Ho. vm_compute in Ho. discriminate.
Defined.

(** ** What the model shows that the code does not mean *)

(** Killed while its start is asked for again: the answer has every window told it runs, its row live
    and its screens asked for, though nothing tracks it. *)
Lemma killed_told_live :
  let h := run step ex_live [(3%Z, Respawn "h" 0 (reattaching "s")); (4%Z, Kill "t1"); (5%Z, FromAgent "h" (Some 3) (m_SPAWN_OK "t1"))] in
  let s := fold_left window_step (Heard <$> received "w1" h) new_store in
  running "t1" h = None ∧ reported "t1" s = Some live ∧ mark <$> h_rows h !! "t1" = Some (live, None) ∧
  sc_tracks "t1" (h_screens h) = true.
Proof. vm_compute. repeat split. Qed.
(** Its start asked for again and refused: dead, and its screen still asked for, of an agent that has
    never heard of it. *)
Lemma refused_still_tracked :
  let h := run step ex_live [(3%Z, Respawn "h" 0 (reattaching "s")); (5%Z, FromAgent "h" (Some 3) (m_SPAWN_ERR "SPAWN_FAILED"))] in
  running "t1" h = None ∧ js_has "t1" (h_channels h) = true ∧ sc_tracks "t1" (h_screens h) = true.
Proof. vm_compute. repeat split. Qed.
(** The window that asked for it left before the answer: the terminal is live for good, and its session
    active, with no window on it. *)
Lemma left_before_live :
  let h := run step ex_live ((3%Z, Connect "w2") :: (3%Z, Detach "w1" "t1") :: ex_asks "w2" None 3 ++
    [(4%Z, Gone "w2"); (5%Z, FromAgent "h" (Some 5) (m_SPAWN_OK "t2")); (6%Z, Attach "w1" "t2"); (7%Z, Detach "w1" "t2")]) in
  running "t2" h = Some live ∧ getClientsForChannel "t2" h = [].
Proof. vm_compute. repeat split. Qed.
(** A window whose socket was lost while a terminal of a host out of view ended keeps reporting it live. *)
Lemma ended_while_away :
  let h := run step ex_live [(3%Z, Connect "w2"); (4%Z, Gone "w2"); (5%Z, FromAgent "h" None (m_CHANNEL_EXIT "t1" (Some 0%Z))); (6%Z, Connect "w3")] in
  let s := fold_left window_step (Heard <$> (received "w2" h ++ received "w3" h)%list) new_store in
  running "t1" h = None ∧ statusOf "t1" s = Some live.
Proof. vm_compute. repeat split. Qed.
(** What a fetch of the same host commits is older than what was said while it was fetched. *)
Lemma fetched_over_said :
  let c := MkListed "t1" "s" live ex_config 80 24 None None None None None in
  let s := new_store <{ st_channels := [c] }> <{ st_activeHostId := Some "h" }> in
  let s := fold_left window_step [Fetch "h"; Heard (CHANNEL_STATE "t1" "s" dead (Some 0%Z) None); Fetched 1 (inl [c])] s in
  reported "t1" s = None ∧ statusOf "t1" s = Some live.
Proof. vm_compute. repeat split. Qed.
