(* ===== verification/ChannelJudging.v ===== *)
(** * What a daemon's list of its terminals decides

    The daemon of a host, asked for its terminals, says which of them run. What comes of each terminal
    tracked is stated outright ([judgement]), against the fold of [reconcileChannelState] that goes
    through them one by one. *)

From Stdlib.Strings Require Import Byte.
From S2P Require Import Prelude JsMap ChannelData ChannelTrackers StateBroadcaster ChannelLifecycle ChannelChanges ChannelOps ChannelTruth ChannelExample.
#[local] Open Scope lasterm_scope.

Section judging.
Context `{!Setup} {Sc Ou : Type} `{!Screens Sc, !Outputs Ou}.
Notation Hub := (Hub Sc Ou Wait).
Implicit Types (h : Hub).

Definition destroy_of (o : Output) : option (nat * ChannelId) :=
  match o with to_agent a (DESTROY ch) => Some (a, ch) | _ => None end.
Definition destroys h : list (nat * ChannelId) := omap destroy_of (h_log h).
(** All that is read of the hub to judge one terminal, and what is sent of it. *)
Definition view (ch : ChannelId) h :=
  (h_channels h !! ch, channel_of ch h, h_rows h !! ch, h_sets h, (h_sessions h, h_sessionObjs h), h_starting h, destroys h).

Lemma destroys_tell m c h : destroys (tell m c h) = destroys h.
Proof. unfold tell. destruct (js_has c (h_clients h)); [|done]. unfold destroys, emit. cbn. by rewrite omap_app, app_nil_r. Qed.
Lemma view_tell_each ch m cs h : view ch (tell_each m cs h) = view ch h.
Proof.
  unfold tell_each. revert h. induction cs as [|c cs IH]; intros h; [done|]. cbn [fold_left]. rewrite IH. unfold view.
  rewrite destroys_tell. unfold tell. by destruct (js_has c (h_clients h)).
Qed.
Lemma view_status ch ch' session status exitCode reason h :
  wf h → ch' ≠ ch → view ch (updateChannelStatus ch' session status exitCode reason h) = view ch h.
Proof.
  intros Hw Hne. unfold updateChannelStatus, broadcastToAllClients. rewrite view_tell_each. unfold view.
  change (channel_of ch (set_field h_rows ?f ?w)) with (channel_of ch w). rewrite channel_of_elsewhere by done.
  cbn. unfold db_updateChannelStatus. rewrite js_lookup_alter, decide_False by done.
  unfold on_channel. by destruct (h_channels h !! ch').
Qed.
Lemma view_detached ch ch' ids h : view ch (fold_left (λ h id, detach_id id ch' h) ids h) = view ch h.
Proof. by apply (detached_field (view ch)). Qed.
Lemma view_forget ch ch' h : ch' ≠ ch → view ch (forgetChannel ch' h) = view ch h.
Proof.
  intros Hne. unfold forgetChannel. cbv zeta. set (w := match channel_of ch' h with Some _ => _ | None => _ end).
  assert (view ch w = view ch h) as <- by (unfold w; destruct (channel_of ch' h); [apply view_detached|done]).
  unfold view, channel_of, delete_channel. cbn. by rewrite js_lookup_delete, decide_False.
Qed.
Lemma view_on_obj ch o f h : h_channels h !! ch ≠ Some o → view ch (on_obj o f h) = view ch h.
Proof.
  intros Hne. unfold view, channel_of, on_obj. cbn. destruct (h_channels h !! ch) as [o'|]; [|done]. cbn.
  rewrite list_lookup_alter_ne; [done|congruence].
Qed.
Lemma view_query ch ch' a h : view ch (emit (to_agent a (CWD_QUERY ch')) h) = view ch h.
Proof. unfold view, destroys, emit. cbn. by rewrite omap_app, app_nil_r. Qed.
Lemma wf_on_obj o f h : wf h → wf (on_obj o f h).
Proof. apply wf_same; try done. apply length_alter. Qed.
Lemma wf_emitted o h : wf h → wf (emit o h).
Proof. by apply wf_same. Qed.
Lemma wf_judge host reported a askedAt ch h : wf h → wf (judge_one host reported a askedAt h ch).
Proof. intros Hw. eapply (evolves_wf (λ _, False)); [apply ev_judge_one|]; [constructor|done]. Qed.
Lemma view_judge ch ch' host reported a askedAt h :
  wf h → ch' ≠ ch → view ch (judge_one host reported a askedAt h ch') = view ch h.
Proof.
  intros Hw Hne. unfold judge_one. destruct (h_channels h !! ch') as [obj|] eqn:Hobj; [|done].
  destruct (channel_of ch' h) as [c|]; [|done]. destruct (negb _); [done|]. destruct (match askedAt with Some _ => _ | None => _ end); [done|].
  destruct (session_of host h) as [s|]; [|done]. destruct (decide (ch' ∈ reported)); cbv zeta.
  - set (w := if decide (cs_liveCwd c = None) then _ else _).
    assert (wf w ∧ view ch w = view ch h) as [Hww <-].
    { assert (h_channels h !! ch ≠ Some obj) as Ho by (intros Ho; by apply Hne, (wf_inj h Hw ch' ch obj)).
      unfold w. destruct (decide (cs_liveCwd c = None)); rewrite ?view_query, view_on_obj by done; (split; [|done]);
        auto using wf_emitted, wf_on_obj. }
    clearbody w. destruct (decide (_ ∨ _)); [by apply view_status|done].
  - rewrite view_forget by done. destruct (decide (cs_status c = dead)); [done|by apply view_status].
Qed.
Lemma view_judges ch host reported a askedAt l h :
  wf h → ch ∉ l → view ch (fold_left (judge_one host reported a askedAt) l h) = view ch h.
Proof.
  revert h. induction l as [|ch' l IH]; intros h Hw Hn; [done|]. apply not_elem_of_cons in Hn as [Hne Hn]. cbn [fold_left].
  rewrite IH; [by apply view_judge|by apply wf_judge|done].
Qed.

(** ** The verdict *)

(** What becomes of a terminal tracked, and [None] of one that ends. *)
Definition judgement (host : HostId) (reported : list ChannelId) (askedAt : option nat) (ch : ChannelId)
  (c : ChannelState) h : option ChannelState :=
  match session_of host h with
  | None => Some c
  | Some s =>
      if decide (cs_hostId c ≠ host) then Some c
      else if match askedAt with Some t => negb (answerStillApplies ch t h) | None => false end then Some c
      else if decide (ch ∈ reported) then
        Some (c <{ cs_sessionId := ss_id s }>
                <{ cs_status := if decide (cs_status c = orphan ∨ cs_status c = live ∧ clients_of c h ≠ []) then live
                                else cs_status c }>)
      else None
  end.
Lemma judgement_view host reported askedAt ch c h h' :
  view ch h' = view ch h → judgement host reported askedAt ch c h' = judgement host reported askedAt ch c h.
Proof.
  intros [= _ H2 _ H4 H5 H6 H7 _]. unfold judgement, session_of, answerStillApplies, clients_of. by rewrite H2, H4, H5, H6, H7.
Qed.
Lemma destroys_status ch session status exitCode reason h :
  destroys (updateChannelStatus ch session status exitCode reason h) = destroys h.
Proof.
  unfold updateChannelStatus, broadcastToAllClients. unfold tell_each.
  match goal with |- destroys (fold_left _ ?l ?w) = _ => generalize l; assert (destroys w = destroys h) as <-; [|generalize w] end.
  { unfold on_channel. by destruct (h_channels h !! ch). }
  intros w l. revert w. induction l as [|c l IH]; intros w; [done|]. cbn [fold_left]. by rewrite IH, destroys_tell.
Qed.
Lemma row_ended ch session h r :
  h_rows h !! ch = Some r →
  r_status <$> h_rows (updateChannelStatus ch session dead None None h) !! ch = Some dead.
Proof.
  intros Hr. unfold updateChannelStatus, broadcastToAllClients. rewrite (told_field h_rows) by done. cbn.
  unfold db_updateChannelStatus. rewrite js_lookup_alter, decide_True by done. unfold on_channel.
  destruct (h_channels h !! ch); cbn; by rewrite Hr.
Qed.
Lemma forgotten ch h :
  channel_of ch (forgetChannel ch h) = None ∧ destroys (forgetChannel ch h) = destroys h ∧
  h_rows (forgetChannel ch h) = h_rows h.
Proof.
  unfold forgetChannel. cbv zeta. set (w := match channel_of ch h with Some _ => _ | None => _ end).
  assert (destroys w = destroys h ∧ h_rows w = h_rows h) as [<- <-].
  { unfold w. destruct (channel_of ch h); [|done]. split; by apply detached_field. }
  split_and!; try done. unfold channel_of, delete_channel. cbn. by rewrite js_lookup_delete, decide_True.
Qed.
Lemma judge_self host reported a askedAt ch c h :
  wf h → channel_of ch h = Some c →
  let h' := judge_one host reported a askedAt h ch in
  channel_of ch h' = judgement host reported askedAt ch c h ∧ destroys h' = destroys h ∧
  (judgement host reported askedAt ch c h = None → cs_status c ≠ dead →
   is_Some (h_rows h !! ch) → r_status <$> h_rows h' !! ch = Some dead).
Proof.
  intros Hw Hc. destruct (channel_of_tracked _ _ _ Hc) as [obj Hobj]. cbv zeta. unfold judge_one, judgement.
  rewrite Hobj, Hc. destruct (decide (cs_hostId c ≠ host)) as [Hh|Hh].
  { rewrite bool_decide_eq_false_2 by done. by destruct (session_of host h). }
  apply dec_stable in Hh. rewrite bool_decide_eq_true_2 by done. cbn [negb].
  destruct (match askedAt with Some _ => _ | None => _ end); [by destruct (session_of host h)|].
  destruct (session_of host h) as [s|]; [|done]. destruct (decide (ch ∈ reported)); cbv zeta.
  - set (w := if decide (cs_liveCwd c = None) then _ else _).
    assert (wf w ∧ channel_of ch w = Some (c <{ cs_sessionId := ss_id s }>) ∧ destroys w = destroys h ∧ h_sets w = h_sets h) as (Hww & Hcw & <- & Hset).
    { assert (channel_of ch (on_obj obj (λ c, c <{ cs_sessionId := ss_id s }>) h) = Some (c <{ cs_sessionId := ss_id s }>)) as Ho.
      { unfold channel_of, on_obj in *. cbn. rewrite Hobj in Hc |- *. cbn in *. by rewrite list_lookup_alter_eq, Hc. }
      unfold w. destruct (decide (cs_liveCwd c = None)); split_and!; auto using wf_emitted, wf_on_obj.
      unfold destroys, emit. cbn. by rewrite omap_app, app_nil_r. }
    clearbody w. unfold clients_of. rewrite Hset. fold (clients_of c h). destruct (decide (_ ∨ _)).
    + rewrite channel_of_status, destroys_status, decide_True, Hcw by done. done.
    + rewrite Hcw. split_and!; try done.
  - destruct (forgotten ch (if decide (cs_status c = dead) then h else updateChannelStatus ch (cs_sessionId c) dead None None h))
      as (-> & -> & ->). destruct (decide (cs_status c = dead)); split_and!; try done; [apply destroys_status|].
    intros _ _ [r Hr]. by eapply row_ended.
Qed.
Lemma judged host reported a askedAt l ch c h :
  wf h → NoDup l → ch ∈ l → channel_of ch h = Some c →
  let h' := fold_left (judge_one host reported a askedAt) l h in
  channel_of ch h' = judgement host reported askedAt ch c h ∧
  (judgement host reported askedAt ch c h = None → cs_status c ≠ dead →
   is_Some (h_rows h !! ch) → r_status <$> h_rows h' !! ch = Some dead).
Proof.
  intros Hw Hnd (l1 & l2 & ->)%list_elem_of_split Hc. apply NoDup_app in Hnd as (_ & H1 & Hnd).
  apply NoDup_cons in Hnd as [H2 _]. assert (ch ∉ l1) as Hn1 by (intros Hin; by apply (H1 _ Hin); left).
  cbv zeta. rewrite fold_left_app. cbn [fold_left]. set (h1 := fold_left _ l1 h).
  assert (view ch h1 = view ch h) as Hv by by apply view_judges.
  assert (wf h1) as Hw1.
  { eapply (evolves_wf (λ _, False)); [|exact Hw]. apply ev_fold; [intros; by apply ev_judge_one|constructor]. }
  assert (channel_of ch h1 = Some c ∧ h_rows h1 !! ch = h_rows h !! ch) as [Hc1 Hr1].
  { injection Hv as _ H4 H5 _ _ _ _ _. by rewrite H4. }
  destruct (judge_self host reported a askedAt ch c h1 Hw1 Hc1) as (Hj & _ & Hr).
  assert (view ch (fold_left (judge_one host reported a askedAt) l2 (judge_one host reported a askedAt h1 ch)) =
    view ch (judge_one host reported a askedAt h1 ch)) as Hv2 by (apply view_judges; [by apply wf_judge|done]).
  rewrite <- (judgement_view _ _ _ _ _ _ _ Hv), <- Hr1. injection Hv2 as _ H4 H5 _ _ _ _ _. by rewrite H4, H5.
Qed.
Lemma destroys_judges host reported a askedAt l h :
  wf h → destroys (fold_left (judge_one host reported a askedAt) l h) = destroys h.
Proof.
  revert h. induction l as [|ch l IH]; intros h Hw; [done|]. cbn [fold_left]. rewrite IH by by apply wf_judge.
  destruct (channel_of ch h) as [c|] eqn:Hc; [by eapply judge_self|]. unfold judge_one. rewrite Hc. by destruct (h_channels h !! ch).
Qed.
Lemma emits (f : ChannelId → Output) l h :
  fold_left (λ h ch, emit (f ch) h) l h = h <{ h_log ::= λ lg, lg ++ (f <$> l) }>.
Proof.
  revert h. induction l as [|ch l IH]; intros h; [destruct h; csimpl; unfold set_h_log; cbn; by rewrite app_nil_r|]. cbn [fold_left]. rewrite IH.
  destruct h; csimpl. unfold set_h_log; cbn. by rewrite <- app_assoc.
Qed.
Lemma destroys_sent a (l : list ChannelId) : omap destroy_of ((λ ch, to_agent a (DESTROY ch)) <$> l) = pair a <$> l.
Proof. induction l as [|ch l IH]; [done|]. rewrite !fmap_cons. cbn. by f_equal. Qed.

(** C22: What a daemon's list decides of the terminals of its host, whatever their number and their
    order: each that the answer may judge ends if the list does not say it runs, its row dead, and
    otherwise takes the session of the host, live if it was orphaned or has windows; one started since
    the question, of another host, or of a host without session is left as it was. And the daemon is
    told to end those it holds that nobody has, each once per mention, and no others. *)
Theorem reconcile_exact host states a askedAt h :
  let h' := reconcileChannelState host states a askedAt h in
  let reported := (filter (λ s, s.2 = true) states).*1 in
  wf h →
  destroys h' = destroys h ++ (pair a <$> filter (λ ch, is_orphan h ch = true) states.*1) ∧
  ∀ ch, channel_of ch h' = (channel_of ch h ≫= λ c, judgement host reported askedAt ch c h) ∧
    (∀ c, channel_of ch h = Some c → cs_status c ≠ dead → channel_of ch h' = None → is_Some (h_rows h !! ch) →
      r_status <$> h_rows h' !! ch = Some dead).
Proof.
  intros h' reported Hw. unfold h', reconcileChannelState, destroyOrphans. fold reported. rewrite emits.
  set (w := h <{ h_log ::= _ }>). assert (wf w) as Hww by by apply (wf_same h).
  split.
  { rewrite destroys_judges by done. unfold w, destroys. cbn. by rewrite omap_app, destroys_sent. }
  intros ch. change (channel_of ch h) with (channel_of ch w). change (h_channels h) with (h_channels w).
  destruct (channel_of ch w) as [c|] eqn:Hc.
  - destruct (judged host reported a askedAt (js_keys (h_channels w)) ch c w) as [Hj Hr]; [done|apply Hww| |done|].
    { apply js_elem_keys. by eapply channel_of_tracked. }
    split; [done|]. intros c' [= <-] Hs Hn. apply Hr; [congruence|done].
  - assert (view ch (fold_left (judge_one host reported a askedAt) (js_keys (h_channels w)) w) = view ch w) as Hv.
    { apply view_judges; [done|]. rewrite js_elem_keys, <- js_has_true, channel_of_tracks, Hc by done. intros ?%bool_decide_eq_true. by apply is_Some_None in H0. }
    split; [|done]. injection Hv as _ H2 _ _ _ _ _ _. etransitivity; [exact H2|exact Hc].
Qed.

(** ** Answers, and what started since *)

(** Every question waiting was asked by now, under an id already drawn. *)
Definition timely h : Prop := ∀ n w, h_waits h !! n = Some w → n < h_nextId h ∧ default 0 (asked w) <= h_clock h.
(** Its stamp is the one a terminal had. *)
Definition same_start h (o : nat) (c' : ChannelState) : Prop :=
  ∃ c, h_objs h !! o = Some c ∧ cs_startedAt c' = cs_startedAt c.
Record since h' h : Prop := {
  si_questions : questions_kept h' h;
  si_starts o c' : h_objs h' !! o = Some c' →
    same_start h o c' ∨ ∃ t, cs_startedAt c' = Some t ∧ h_clock h < t
}.
Lemma since_trans h0 h1 h2 : since h1 h0 → since h2 h1 → since h2 h0.
Proof.
  intros [A1 A2] [B1 B2]. split; [by eapply questions_trans|]. intros o c2 Hc2. destruct A1 as (_ & Ht & _).
  destruct (B2 _ _ Hc2) as [(c1 & Hc1 & E)|(t & ? & ?)]; [|right; exists t; split; [done|lia]].
  destruct (A2 _ _ Hc1) as [(c0 & Hc0 & E0)|(t & ? & ?)]; [left; exists c0|right; exists t]; split; congruence.
Qed.
Lemma since_same h h' :
  h_nextId h' = h_nextId h → h_waits h' = h_waits h → h_clock h' = h_clock h →
  cs_startedAt <$> h_objs h' = cs_startedAt <$> h_objs h → since h' h.
Proof.
  intros H1 H2 H3 H4. split; [apply questions_same; (done || lia)|]. intros o c' Hc. left. unfold same_start.
  apply (f_equal (lookup o)) in H4. rewrite !list_lookup_fmap, Hc in H4. destruct (h_objs h !! o) as [c|]; [|done].
  exists c. split; [done|]. by injection H4.
Qed.
Lemma since_broadcast m h' h : since h' h → since (broadcastToAllClients m h') h.
Proof.
  intros Hs. eapply since_trans; [exact Hs|]. unfold broadcastToAllClients.
  apply since_same; try (by apply (told_field h_nextId)); [by apply (told_field h_waits)|by apply (told_field h_clock)|
    f_equal; by apply (told_field h_objs)].
Qed.
Lemma since_refl h : since h h.
Proof. by apply since_same. Qed.
Lemma since_status ch session status exitCode reason h : since (updateChannelStatus ch session status exitCode reason h) h.
Proof.
  unfold updateChannelStatus. apply since_broadcast. unfold on_channel. destruct (h_channels h !! ch) as [r|]; [|by apply since_same].
  apply since_same; try done. cbn. apply list_eq. intros i. rewrite !list_lookup_fmap, list_lookup_alter.
  destruct (decide (r = i)) as [->|]; [|done]. by destruct (h_objs h !! i).
Qed.
Lemma change_since may h h' : change may h h' → since h' h.
Proof.
  intros [h0 h1 K|? ? ? ? ? h0 ?|ch session h0 ?|ch session h0|ch h0 ?|ch session h0 h1 ? K|? ? ? ? ? ? h0|out w h0 Hout ?|c h0|c h0|h0];
    try apply since_status; try by apply since_same.
  - split; [apply K|]. pose proof (kp_objs _ _ K) as K4. intros o c' Hc.
    destruct (Forall2_lookup_l _ _ _ _ _ K4 Hc) as (c & Hc0 & [_ _ _ [S|(t & S & ? & ?)]]); [left; by exists c|right; by exists t].
  - apply since_broadcast. pose proof (sd_objs _ _ _ K) as K4. pose proof (sd_only _ _ _ K) as K9. split; [apply K|]. intros o c' Hc.
    destruct (K9 _ _ Hc) as [[c Hc0]|]; [|by right]. destruct (K4 _ _ Hc0) as (c1 & Hc1 & [_ _ _ S]).
    rewrite Hc in Hc1. injection Hc1 as <-. destruct S as [S|(t & S & ? & ?)]; [left; by exists c|right; by exists t].
  - cbn [exec]. eapply since_trans; [by apply (since_same h0 (addClient c h0))|].
    apply since_same; [by apply (told_field h_nextId _ [c])|by apply (told_field h_waits _ [c])|
      by apply (told_field h_clock _ [c])|f_equal; by apply (told_field h_objs _ [c])].
Qed.
Lemma since_run es h : since (run step h es) h.
Proof.
  revert h. induction es as [|e es IH]; intros h; [apply since_refl|]. eapply since_trans; [|apply IH].
  pose proof (evolves_step e h) as He. induction He as [|h0 h1 h2 Hc _ IHe]; [apply since_refl|].
  eapply since_trans; [by eapply change_since|done].
Qed.
Lemma run_timely es h : timely h → timely (run step h es).
Proof.
  intros Ht n w Hn. destruct (since_run es h) as [(H1 & H2 & H3) _].
  destruct (H3 _ _ Hn) as [?|(w0 & Hw0 & ->)]; [lia|]. destruct (Ht _ _ Hw0). lia.
Qed.
(** One started since is not for an answer asked for before to judge. *)
Lemma started_since es h n w t ch o c :
  timely h → let h' := run step h es in
  n < h_nextId h → h_waits h' !! n = Some w → asked w = Some t →
  h_channels h' !! ch = Some o → h_objs h' !! o = Some c → ¬ same_start h o c → answerStillApplies ch t h' = false.
Proof.
  intros Ht h' Hn Hw Ha Ho Hc Hs. destruct (since_run es h) as [(_ & _ & H3) H4]. fold h' in H3, H4.
  destruct (H3 _ _ Hw) as [?|(w0 & Hw0 & E)]; [lia|]. destruct (Ht _ _ Hw0) as [_ Hle].
  destruct (H4 _ _ Hc) as [?|(t' & Hst & Hlt)]; [done|]. unfold answerStillApplies, channel_of. rewrite Ho. cbn. rewrite Hc.
  destruct (decide _); [done|]. rewrite Hst. apply bool_decide_eq_false_2. rewrite <- E, Ha in Hle. simpl in *. lia.
Qed.
Lemma channel_of_announced ch host h : channel_of ch (announceSessionState host h) = channel_of ch h.
Proof. unfold announceSessionState. destruct (session_of host h); [|done]. by apply channel_of_broadcast. Qed.
Lemma channel_of_session ch host session status h : channel_of ch (updateSessionStatus host session status h) = channel_of ch h.
Proof. unfold updateSessionStatus. rewrite channel_of_broadcast. by destruct (h_sessions h !! host). Qed.
Lemma channel_of_answered ch n host a t for_ states h :
  wf h → answerStillApplies ch t h = false →
  channel_of ch (states_answered n host a t for_ states h) = channel_of ch h.
Proof.
  intros Hw Ha. set (v := drop_wait n h). assert (wf v) as Hwv by by apply (wf_same h).
  assert (channel_of ch (reconcileChannelState host states a (Some t) v) = channel_of ch h) as Hr.
  { destruct (reconcile_exact host states a (Some t) v Hwv) as [_ Hj]. destruct (Hj ch) as [-> _].
    change (channel_of ch v) with (channel_of ch h). destruct (channel_of ch h) as [c|] eqn:Hc; [|done]. cbn.
    unfold judgement. destruct (session_of host v); [|done]. destruct (decide _); [done|].
    change (answerStillApplies ch t v) with (answerStillApplies ch t h). by rewrite Ha. }
  unfold states_answered. fold v. cbv zeta. destruct for_ as [others|session].
  - change (channel_of ch (agentMayBeIdle host ?w)) with (channel_of ch w).
    destruct (_ && _); by rewrite ?channel_of_announced.
  - destruct (h_quitting v); [done|]. unfold adoptAgent. destruct (_ || _); [done|].
    change (channel_of ch (agentMayBeIdle host ?w)) with (channel_of ch w). by rewrite channel_of_session.
Qed.

(** C8: A terminal that started since a question was asked is not judged by its answer: whatever
    happens between the two, the answer is not taken to apply to it, and the list of a daemon that
    was asked before it started leaves it exactly as it was. *)
Theorem answers_spare_new_starts es h n w t ch o c when states :
  let h' := run step h es in
  wf h → timely h → n < h_nextId h → h_waits h' !! n = Some w → asked w = Some t →
  h_channels h' !! ch = Some o → h_objs h' !! o = Some c → ¬ same_start h o c →
  answerStillApplies ch t h' = false ∧ channel_of ch (step h' (when, States_ n states)) = Some c.
Proof.
  intros h' Hw Ht Hn Hwait Ha Ho Hc Hs.
  assert (answerStillApplies ch t h' = false) as Hna by by eapply started_since.
  split; [done|]. assert (channel_of ch h' = Some c) as Hch by by (unfold channel_of; rewrite Ho).
  unfold step. cbn [fst snd exec]. set (v := h' <{ h_now := when }>).
  change (h_waits v !! n) with (h_waits h' !! n). rewrite Hwait, <- Hch.
  destruct w as [| | | | | | | | |host a t' for_]; try done. injection Ha as ->.
  apply (channel_of_answered ch n host a t for_ states v); [|done]. apply (wf_same h'); try done. by apply run_wf.
Qed.
End judging.

(** ** On a hub with one terminal

    The daemon's list says it runs a terminal nobody has, and not the one the hub has. *)
#[local] Existing Instance ex_setup.
#[local] Open Scope string_scope.
Lemma wf_ex_live : wf ex_live.
Proof. apply run_wf. split; [constructor|constructor|done|done]. Qed.
Definition ex_judged : ExHub := reconcileChannelState "h" [("t9", true)] 0 (Some 7) ex_live.
Lemma reconcile_exact_witness : channel_of "t1" ex_judged = None ∧ destroys ex_judged = [(0, "t9")].
Proof.
  destruct (reconcile_exact "h" [("t9", true)] 0 (Some 7) ex_live wf_ex_live) as [H1 H2]. destruct (H2 "t1") as [H3 _].
  split; [unfold ex_judged; rewrite H3; vm_compute; reflexivity|]. unfold ex_judged. rewrite H1. vm_compute. reflexivity.
Defined.
(** Asked before a second terminal starts, the daemon answers after that it runs none. *)
Definition ex_asked : ExHub := step ex_live (3%Z, AskStates "h" 0 (adopting false)).
Definition ex_second : list (Z * Ev) := ex_starts "w1" None "t2" 4.
Definition ex_t2 : ChannelState :=
  MkChannel "s" "h" live 1 ex_config 80 24 None None DEFAULT_CHANNEL_NAME None (Some 3).
Lemma answers_spare_new_starts_witness :
  channel_of "t2" (step (run step ex_asked ex_second) (9%Z, States_ 3 [])) = Some ex_t2 ∧
  channel_of "t1" (step (run step ex_asked ex_second) (9%Z, States_ 3 [])) = None.
Proof.
  split; [|vm_compute; reflexivity].
  apply (answers_spare_new_starts ex_second ex_asked 3 (w_states "h" 0 2 (adopting false)) 2 "t2" 1 ex_t2).
  - eapply (run_wf [_]), wf_ex_live.
  - intros n w Hn. apply js_lookup_elem in Hn.
    change (entries (h_waits ex_asked)) with [(3, w_states "h" 0 2 (adopting false))] in Hn.
    apply list_elem_of_singleton in Hn. injection Hn as -> ->. vm_compute. lia.
  - vm_compute. lia.
  - vm_compute. reflexivity.
  - reflexivity.
  - vm_compute. reflexivity.
  - vm_compute. reflexivity.
  - intros (c & Hc & _). vm_compute in Hc. discriminate.
Defined.
