(* ===== verification/ChannelRates.v ===== *)
(** * How many bells and notifications a terminal may ring

    [rateLimitCheck] keeps, of each terminal, the times it allowed within the last second. Stated of
    all the times it ever allowed: no second has more than the limit, and none is refused below it. *)

From S2P Require Import Prelude JsMap ChannelData StateBroadcaster.
From Stdlib Require Import Sorted.
#[local] Open Scope lasterm_scope.
#[local] Open Scope Z_scope.

Section rates.
Context (maxPerSecond : nat).
Notation Store := (jsmap ChannelId (list Z)).
Implicit Types (ch : ChannelId) (store : Store).

(** A call at a time, and the times allowed so far. *)
Definition rate_step (st : Store * list (Z * ChannelId)) (call : Z * ChannelId) : Store * list (Z * ChannelId) :=
  let '(ok, store) := rateLimitCheck call.1 call.2 maxPerSecond st.1 in
  (store, if ok then st.2 ++ [call] else st.2).
Definition rates (calls : list (Z * ChannelId)) : Store * list (Z * ChannelId) := fold_left rate_step calls (∅, []).
Definition times_of (ch : ChannelId) (allowed : list (Z * ChannelId)) : list Z := (filter (λ a, a.2 = ch) allowed).*1.
Definition within (lo hi : Z) (l : list Z) : list Z := filter (λ x, lo <= x <= hi) l.

Lemma evict_spec cutoff l : ∃ gone, l = gone ++ evict cutoff l ∧ Forall (λ x, x < cutoff) gone.
Proof.
  induction l as [|x l (gone & Hl & Hg)]; [by exists []|]. cbn [evict]. destruct (x <? cutoff) eqn:Hx; [|by exists []].
  apply Z.ltb_lt in Hx. exists (x :: gone). split; [by rewrite Hl at 1|by constructor].
Qed.
Lemma evict_recent cutoff l : StronglySorted Z.le l → Forall (λ x, cutoff <= x) (evict cutoff l).
Proof.
  induction 1 as [|x l Hs IH Hx]; [constructor|]. cbn [evict]. destruct (x <? cutoff) eqn:Hc; [done|].
  apply Z.ltb_ge in Hc. constructor; [done|]. eapply Forall_impl; [exact Hx|]. intros y. simpl. lia.
Qed.
Lemma times_snoc ch allowed now ch' : times_of ch (allowed ++ [(now, ch')]) = times_of ch allowed ++ if decide (ch' = ch) then [now] else [].
Proof. unfold times_of. rewrite filter_app, fmap_app, filter_cons. cbn. by destruct (decide _). Qed.
Lemma within_none lo hi l : Forall (λ x, x < lo) l → within lo hi l = [].
Proof. intros Hl. apply filter_none. eapply Forall_impl; [exact Hl|]. simpl. lia. Qed.

(** What is kept of a terminal is the end of what was allowed, and the rest is over a second old. *)
Record fits (now : Z) (st : Store * list (Z * ChannelId)) : Prop := {
  ft_kept ch : ∃ gone, times_of ch st.2 = gone ++ default [] (st.1 !! ch) ∧ Forall (λ x, x < now - 1000) gone;
  ft_sorted ch : StronglySorted Z.le (times_of ch st.2);
  ft_past ch : Forall (λ x, x <= now) (times_of ch st.2);
  ft_bound ch t : (length (within t (t + 1000) (times_of ch st.2)) <= maxPerSecond)%nat
}.
Lemma StronglySorted_snoc (l : list Z) x : StronglySorted Z.le l → Forall (λ y, y <= x) l → StronglySorted Z.le (l ++ [x]).
Proof.
  induction 1 as [|y l Hs IH Hy]; intros Hl; [repeat constructor|]. apply Forall_cons in Hl as [? Hl].
  constructor; [by apply IH|]. apply Forall_app. split; [done|by constructor].
Qed.
Lemma StronglySorted_suffix (l1 l2 : list Z) : StronglySorted Z.le (l1 ++ l2) → StronglySorted Z.le l2.
Proof. induction l1 as [|x l1 IH]; [done|]. intros Hs. inversion Hs. auto. Qed.
Lemma checked now ch st store ok :
  fits now st → rateLimitCheck now ch maxPerSecond st.1 = (ok, store) →
  let kept := evict (now - 1000) (default [] (st.1 !! ch)) in
  (∃ gone, times_of ch st.2 = gone ++ kept ∧ Forall (λ x, x < now - 1000) gone) ∧ Forall (λ x, now - 1000 <= x) kept ∧
  ok = negb (maxPerSecond <=? length kept)%nat ∧ store = <[ch := kept ++ if ok then [now] else []]> st.1.
Proof.
  intros [Hk Hs _ _] Hr kept. destruct (Hk ch) as (gone & Hof & Hg).
  destruct (evict_spec (now - 1000) (default [] (st.1 !! ch))) as (gone' & He & Hg'). fold kept in He.
  split_and!.
  - exists (gone ++ gone'). split; [by rewrite Hof, He at 1; rewrite app_assoc|by apply Forall_app].
  - apply evict_recent. apply (StronglySorted_suffix gone). by rewrite <- Hof.
  - unfold rateLimitCheck in Hr. fold kept in Hr. by destruct (maxPerSecond <=? length kept)%nat; injection Hr as <- _.
  - unfold rateLimitCheck in Hr. fold kept in Hr. destruct (maxPerSecond <=? length kept)%nat; injection Hr as <- <-; [by rewrite app_nil_r|done].
Qed.
Lemma fits_later now now' st : fits now st → now <= now' → fits now' st.
Proof.
  intros [A B C D] Hle. split; [|done| |done].
  - intros ch'. destruct (A ch') as (gone & ? & Hg). exists gone. split; [done|]. eapply Forall_impl; [exact Hg|]. simpl. lia.
  - intros ch'. eapply Forall_impl; [exact (C ch')|]. simpl. lia.
Qed.
Lemma fits_step now call st : fits now st → now <= call.1 → fits call.1 (rate_step st call).
Proof.
  intros Hf Hle. destruct call as [now' ch]. cbn in Hle.
  assert (fits now' st) as Hf' by by eapply fits_later.
  clear Hf Hle now. unfold rate_step. cbn [fst snd]. destruct (rateLimitCheck now' ch maxPerSecond st.1) as [ok store] eqn:Hr.
  destruct (checked _ _ _ _ _ Hf' Hr) as ((gone & Hof & Hg) & Hrec & Hok & ->). set (kept := evict _ _) in *.
  destruct Hf' as [A B C D]. split; cbn [fst snd].
  - intros ch'. rewrite js_lookup_insert. destruct (decide (ch = ch')) as [<-|Hne].
    + exists gone. split; [|done]. cbn. destruct ok; [rewrite times_snoc, decide_True by done|rewrite app_nil_r]; rewrite Hof; by rewrite <- ?app_assoc.
    + destruct (A ch') as (gone' & Ho & ?). exists gone'. destruct ok; [rewrite times_snoc, decide_False, app_nil_r by done|]; done.
  - intros ch'. destruct ok; [|done]. rewrite times_snoc. destruct (decide _); [|by rewrite app_nil_r]. apply StronglySorted_snoc; [apply B|apply C].
  - intros ch'. destruct ok; [|done]. rewrite times_snoc. apply Forall_app. split; [apply C|]. destruct (decide _); repeat constructor. simpl. lia.
  - intros ch' t. destruct ok; [|done]. rewrite times_snoc. destruct (decide (ch = ch')) as [<-|]; [|by rewrite app_nil_r].
    destruct (decide (t <= now' <= t + 1000)) as [Hin|Hout].
    + rewrite Hof, <- app_assoc. unfold within. rewrite filter_app. fold (within t (t + 1000) gone). rewrite within_none.
      * etransitivity; [apply length_filter|]. rewrite length_app. cbn.
        symmetry in Hok. apply negb_true_iff, Nat.leb_gt in Hok. lia.
      * eapply Forall_impl; [exact Hg|]. simpl. lia.
    + unfold within. rewrite filter_app, (filter_cons_False _ now') by done. rewrite filter_nil, app_nil_r. apply D.
Qed.
Lemma fits_rates calls lo now st :
  Sorted Z.le (lo :: calls.*1 ++ [now]) → fits lo st → fits now (fold_left rate_step calls st).
Proof.
  revert lo st. induction calls as [|call calls IH]; intros lo st [Hs Hh%HdRel_inv]%Sorted_inv Hf; [by eapply fits_later|].
  cbn [fold_left]. apply (IH call.1); [done|]. by eapply fits_step.
Qed.
Lemma fits_new now : fits now (∅, []).
Proof. split; intros; [by exists []|constructor|constructor|simpl; lia]. Qed.

(** Of the bells (or notifications) an agent sends of a terminal, in the order of the clock, no
    second ever lets through more than the limit, however the terminals alternate; and one is
    refused only when the last second had the limit already. *)
Theorem rate_limited calls now ch :
  Sorted Z.le (calls.*1 ++ [now]) →
  let st := rates calls in
  (∀ ch t, (length (within t (t + 1000) (times_of ch st.2)) <= maxPerSecond)%nat) ∧
  (rateLimitCheck now ch maxPerSecond st.1).1 =
    negb (maxPerSecond <=? length (within (now - 1000) now (times_of ch st.2)))%nat.
Proof.
  intros Hs st. assert (fits now st) as Hf.
  { apply (fits_rates calls (default now (head calls.*1))); [|apply fits_new]. destruct calls as [|call calls]; cbn in *;
      (constructor; [done|constructor; lia]). }
  split; [apply Hf|]. destruct (rateLimitCheck now ch maxPerSecond st.1) as [ok store] eqn:Hr.
  destruct (checked _ _ _ _ _ Hf Hr) as ((gone & Hof & Hg) & Hrec & -> & _). cbn [fst].
  rewrite Hof. unfold within. rewrite filter_app. fold (within (now - 1000) now gone). rewrite within_none by done.
  rewrite filter_all; [done|]. pose proof (ft_past _ _ Hf ch) as Hp. rewrite Hof in Hp. apply Forall_app in Hp as [_ Hp].
  rewrite Forall_forall in Hp, Hrec |- *. intros x Hx. split; [by apply Hrec|by apply Hp].
Qed.
End rates.

(** Two allowed in the last second, and the third refused; one of another terminal is not counted. *)
#[local] Open Scope string_scope.
Definition ex_calls : list (Z * ChannelId) := [(0, "t1"); (100, "t2"); (500, "t1")]%Z.
Lemma rate_limited_witness :
  (rateLimitCheck 900 "t1" 2 (rates 2 ex_calls).1).1 = false ∧ (rateLimitCheck 900 "t2" 2 (rates 2 ex_calls).1).1 = true.
Proof.
  split.
  - destruct (rate_limited 2 ex_calls 900 "t1") as [_ H]; [repeat constructor; vm_compute; discriminate|].
    rewrite H. vm_compute. reflexivity.
  - destruct (rate_limited 2 ex_calls 900 "t2") as [_ H]; [repeat constructor; vm_compute; discriminate|].
    rewrite H. vm_compute. reflexivity.
Defined.
