(* ===== verification/ChannelStarts.v ===== *)
(** * One start of a terminal at a time

    A terminal brought back, by a window or by a restart, is claimed from the check that it may be
    until its start has its answer. [books] is the part of the hub this goes by: what waits, the next
    id, the claims, and the hosts being stopped; most operations leave it alone, and [keep] says so of each. *)

From Stdlib.Strings Require Import Byte.
From S2P Require Import Prelude JsMap ChannelData ChannelTrackers StateBroadcaster ChannelLifecycle ChannelChanges ChannelOps ChannelExample.
#[local] Open Scope lasterm_scope.

Create HintDb books.
Section books.
Context `{!Setup} {Sc Ou : Type} `{!Screens Sc, !Outputs Ou}.
Notation Hub := (Hub Sc Ou Wait).
Implicit Types (h u v : Hub).

Definition books h := (h_waits h, h_nextId h, h_starting h, h_stopping h).
(** [v] has the books of [u]. *)
Definition same u v : Prop := books v = books u.
Lemma same_refl u : same u u.
Proof. done. Qed.
Lemma same_books u v w : books w = books v → same u v → same u w.
Proof. unfold same. congruence. Qed.
Lemma same_fold {A} (f : Hub → A → Hub) l u v : (∀ w x, same u w → same u (f w x)) → same u v → same u (fold_left f l v).
Proof. intros Hf. revert v. induction l as [|x l IH]; intros v Hv; [done|]. simpl. auto. Qed.
Lemma same_each m cs u v : same u v → same u (tell_each m cs v).
Proof. apply same_books. by apply told_field. Qed.
Lemma same_tell m c u v : same u v → same u (tell m c v).
Proof. apply (same_each m [c]). Qed.
Lemma same_broadcast m u v : same u v → same u (broadcastToAllClients m v).
Proof. apply same_each. Qed.
Lemma same_to_channel ch m u v : same u v → same u (broadcastToChannel ch m v).
Proof. unfold broadcastToChannel. destruct (channel_of ch v); [apply same_each|done]. Qed.
Lemma same_on_channel ch f u v : same u v → same u (on_channel ch f v).
Proof. apply same_books. unfold on_channel. by destruct (h_channels v !! ch). Qed.
End books.
#[export] Hint Resolve same_refl same_fold same_each same_tell same_broadcast same_to_channel same_on_channel : books.
(** A field that is not of the books. *)
#[export] Hint Extern 2 (same _ (set_field _ _ ?v)) => simple apply (same_books _ v); [generalize v; reflexivity|] : books.
#[export] Hint Extern 2 (same _ (emit _ ?v)) => simple apply (same_books _ v); [reflexivity|] : books.
#[export] Hint Extern 2 (same _ (on_obj _ _ ?v)) => simple apply (same_books _ v); [reflexivity|] : books.
#[export] Hint Extern 3 (same _ (if ?b then _ else _)) => destruct b : books.
#[export] Hint Extern 3 (same _ (match ?x with _ => _ end)) => destruct x : books.
Ltac keep := intros; cbv beta iota zeta; eauto 40 with books nocore.

Section keeping.
Context `{!Setup} {Sc Ou : Type} `{!Screens Sc, !Outputs Ou}.
Notation Hub := (Hub Sc Ou Wait).
Implicit Types (h u v : Hub).

Lemma same_on_set r f u v : same u v → same u (on_set r f v).
Proof. unfold on_set. keep. Qed.
Lemma same_attach_id c ch u v : same u v → same u (attach_id c ch v).
Proof. unfold attach_id. keep. Qed.
Lemma same_detach_id c ch u v : same u v → same u (detach_id c ch v).
Proof. unfold detach_id. keep. Qed.
Lemma same_session host session status u v : same u v → same u (updateSessionStatus host session status v).
Proof. unfold updateSessionStatus. keep. Qed.
Lemma same_announce host u v : same u v → same u (announceSessionState host v).
Proof. unfold announceSessionState. keep. Qed.
Lemma same_status ch session status exitCode reason u v : same u v → same u (updateChannelStatus ch session status exitCode reason v).
Proof. unfold updateChannelStatus. keep. Qed.
Lemma same_detached host u v : same u v → same u (checkSessionDetached host v).
Proof. pose proof same_session. unfold checkSessionDetached. keep. Qed.
Lemma same_resolved ch u v : same u v → same u (resolveDisplayTitle ch v).2.
Proof. unfold resolveDisplayTitle. intros Hv. destruct (resolved_title ch v); simpl; keep. Qed.
Lemma same_untrack ch u v : same u v → same u (untrack ch v).
Proof. unfold untrack. keep. Qed.
Lemma same_track ch u v : same u v → same u (track ch v).
Proof. unfold track. keep. Qed.
Lemma same_delete ch u v : same u v → same u (delete_channel ch v).
Proof. unfold delete_channel. keep. Qed.
Lemma same_idle host u v : same u v → same u (agentMayBeIdle host v).
Proof. unfold agentMayBeIdle. keep. Qed.
Lemma same_tick u v : same u v → same u (tick v).
Proof. unfold tick. keep. Qed.
Lemma same_put ch c u v : same u v → same u (put_channel ch c v).
Proof. unfold put_channel. keep. Qed.
Lemma same_row_status ch status u v : same u v → same u (row_status ch status v).
Proof. unfold row_status. keep. Qed.
Lemma same_forget_request n u v : same u v → same u (forget_request n v).
Proof. unfold forget_request. keep. Qed.
End keeping.
#[export] Hint Resolve same_on_set same_attach_id same_detach_id same_session same_announce same_status same_detached
  same_untrack same_track same_delete same_idle same_tick same_put same_row_status same_forget_request : books.

Section keeping2.
Context `{!Setup} {Sc Ou : Type} `{!Screens Sc, !Outputs Ou}.
Notation Hub := (Hub Sc Ou Wait).
Implicit Types (h u v : Hub).

Lemma same_detachClient c ch u v : same u v → same u (detachClient c ch v).
Proof. unfold detachClient. keep. Qed.
Lemma same_removeClient c u v : same u v → same u (removeClient c v).
Proof. pose proof same_detachClient. unfold removeClient. keep. Qed.
Lemma same_titles ch u v : same u v → same u (notifyChannelRenamed ch v).
Proof.
  intros Hv. pose proof (same_resolved ch _ _ Hv) as Hr. unfold notifyChannelRenamed.
  destruct (resolveDisplayTitle ch v) as [t w]. destruct (channel_of ch v), (h_rows v !! ch); keep.
Qed.
Lemma same_display u v : same u v → same u (broadcastDisplayTitles v).
Proof.
  unfold broadcastDisplayTitles. apply same_fold. intros w ch Hw%(same_resolved ch).
  destruct (resolveDisplayTitle ch w). keep.
Qed.
Lemma same_title ch t u v : same u v → same u (handleTitleChange ch t v).
Proof.
  intros Hv. unfold handleTitleChange. destruct (channel_of ch v); [|done].
  assert (same u (on_channel ch (λ c, c <{ cs_dynamicTitle := Some t }>) v)) as Hw%(same_resolved ch) by keep.
  destruct (resolveDisplayTitle ch _). keep.
Qed.
Lemma same_process ch t u v : same u v → same u (handleProcessTitle ch t v).
Proof.
  intros Hv. unfold handleProcessTitle. destruct (channel_of ch v); [|done].
  assert (same u (on_channel ch (λ c, c <{ cs_processTitle := Some t }>) v)) as Hw%(same_resolved ch) by keep.
  destruct (resolveDisplayTitle ch _). keep.
Qed.
Lemma same_forgetChannel ch u v : same u v → same u (forgetChannel ch v).
Proof. unfold forgetChannel. keep. Qed.
Lemma same_destroy ch u v : same u v → same u (destroyChannel ch v).
Proof. unfold destroyChannel. keep. Qed.
Lemma same_retire ch session u v : same u v → same u (retireChannel ch session v).
Proof. pose proof same_forgetChannel. unfold retireChannel. keep. Qed.
Lemma same_end_all host ending u v :
  (∀ ch c w, same u w → same u (ending ch c w)) → same u v → same u (end_all host ending v).
Proof. pose proof same_forgetChannel. intros He. unfold end_all. keep. Qed.
Lemma same_stopped host u v : same u v → same u (endChannelsOfStoppedAgent host v).
Proof. apply same_end_all. keep. Qed.
Lemma same_close host session reason u v : same u v → same u (closeSession host session reason v).
Proof.
  intros Hv.
  assert (same u (end_all host (λ ch _, updateChannelStatus ch session dead None reason) (v <{ h_reconnecting ::= set_delete host }>))).
  { apply same_end_all; keep. }
  unfold closeSession. keep.
Qed.
Lemma same_created ch host session config cols rows u v : same u v → same u (created_message ch host session config cols rows v).
Proof. intros Hv%(same_resolved ch). unfold created_message. destruct (resolveDisplayTitle ch v). keep. Qed.
Lemma same_userActs host u v : same u v → same u (userActsOnHost host v).
Proof. unfold userActsOnHost. keep. Qed.
End keeping2.

#[export] Hint Resolve same_detachClient same_removeClient same_titles same_display same_title same_process same_forgetChannel
  same_destroy same_retire same_stopped same_close same_created same_userActs : books.

Section keeping3.
Context `{!Setup} {Sc Ou : Type} `{!Screens Sc, !Outputs Ou}.
Notation Hub := (Hub Sc Ou Wait).
Implicit Types (h u v : Hub).

Lemma same_move from to_ cs u v : same u v → same u (move_clients from to_ cs v).
Proof. unfold move_clients. keep. Qed.
Lemma same_row_if_missing ch session r u v : same u v → same u (row_if_missing ch session r v).
Proof. unfold row_if_missing. keep. Qed.
Lemma same_applied ch r u v : same u v → same u (applyRestartState ch r v).
Proof.
  pose proof same_move. pose proof same_row_if_missing. intros Hv. unfold applyRestartState, new_set.
  destruct (session_at r v) as [s|]; [|done]. cbv zeta.
  destruct (match _ with Some _ => _ | None => _ end) as [set v0] eqn:He.
  assert (same u v0) as Hv0.
  { destruct (rs_obj r ≫= _); injection He as <- <-; [done|]. by apply (same_books u v). }
  clear He Hv. destruct (negb _); keep.
Qed.
Lemma same_attach_ok ch obj cached title c u v : same u v → same u (attach_ok ch obj cached title c v).
Proof. unfold attach_ok. destruct (sizeOf ch obj v). keep. Qed.
Lemma same_letGo c obj ch u v : same u v → same u (letGoOfStaleAttach c obj ch v).
Proof. unfold letGoOfStaleAttach. keep. Qed.
Lemma same_stored ch screen lastSeq u v : same u v → same u (storeSnapshot ch screen lastSeq v).
Proof. unfold storeSnapshot. keep. Qed.
Lemma same_respawned ch obj for_ u v : same u v → same u (respawned ch obj for_ v).
Proof. unfold respawned. keep. Qed.
Lemma same_not_respawned ch obj u v : same u v → same u (not_respawned ch obj v).
Proof. unfold not_respawned. keep. Qed.
Lemma same_reconcile host states a askedAt u v : same u v → same u (reconcileChannelState host states a askedAt v).
Proof. unfold reconcileChannelState, destroyOrphans, judge_one. keep. Qed.
Lemma same_channel_exit host ch exitCode u v : same u v → same u (channel_exit host ch exitCode v).
Proof. unfold channel_exit, clearTitleDebounce, clearProcessTitleDebounce. keep. Qed.
Lemma same_message host m u v : same u v → same u (agent_message host m v).
Proof.
  pose proof same_channel_exit. pose proof same_stored. unfold agent_message, rateLimitCheck, handleCwdChange. destruct m; keep.
Qed.
End keeping3.
#[export] Hint Resolve same_applied same_attach_ok same_letGo same_stored same_respawned same_not_respawned same_reconcile
  same_message : books.

(** ** The claims *)

Definition claim (w : Wait) : option ChannelId :=
  match w with
  | w_spawnOnHost _ _ reuse _ => reuse
  | w_spawnReach _ _ reuse => reuse
  | w_spawn s => sp_reuse s
  | w_restartBegin ch => Some ch
  | w_restartReach r => Some (rs_channel r)
  | w_restart r _ => Some (rs_channel r)
  | _ => None
  end.

Section claims.
Context `{!Setup} {Sc Ou : Type} `{!Screens Sc, !Outputs Ou}.
Notation Hub := (Hub Sc Ou Wait).
Implicit Types (h u v : Hub) (r : option ChannelId).

(** Each start waiting holds the claim of its terminal, alone; and that of [r] is held by nothing
    that waits, whose start is being gone on with. *)
Record ready r h : Prop := {
  rd_fresh n w : h_waits h !! n = Some w → n < h_nextId h;
  rd_claimed n w ch : h_waits h !! n = Some w → claim w = Some ch → ch ∈ h_starting h;
  rd_once n n' w w' ch : h_waits h !! n = Some w → h_waits h !! n' = Some w' →
    claim w = Some ch → claim w' = Some ch → n = n';
  rd_held ch n w : r = Some ch → h_waits h !! n = Some w → claim w ≠ Some ch;
  rd_mine ch : r = Some ch → ch ∈ h_starting h
}.
Lemma ready_keep r u v : same u v → ready r u → ready r v.
Proof. intros [= H1 H2 H3 _] [A B C D E]. split; intros until 0; rewrite ?H1, ?H2, ?H3; eauto. Qed.
Lemma ready_none r h : ready r h → ready None h.
Proof. intros [A B C D E]. by split. Qed.
Lemma ready_drop h n w : ready None h → h_waits h !! n = Some w → ready (claim w) (drop_wait n h).
Proof.
  intros [A B C D E] Hw. split; cbn.
  - intros n' w'. rewrite js_lookup_delete. destruct (decide _); [done|apply A].
  - intros n' w' ch. rewrite js_lookup_delete. destruct (decide _); [done|apply B].
  - intros n1 n2 w1 w2 ch. rewrite !js_lookup_delete. destruct (decide _), (decide _); try done. apply C.
  - intros ch n' w' Hr. rewrite js_lookup_delete. destruct (decide _) as [|Hne]; [done|]. intros Hw' Hc.
    by apply Hne, (C _ _ _ _ _ Hw Hw' Hr Hc).
  - intros ch Hr. by apply (B n w).
Qed.
Lemma ready_dropped h n : ready None h → ready None (drop_wait n h).
Proof.
  intros H1. destruct (h_waits h !! n) as [w|] eqn:Hw; [by eapply ready_none, ready_drop|].
  destruct H1 as [A B C D E]. split; cbn; try done; intros until 0; rewrite !js_lookup_delete; repeat destruct (decide _); try done; eauto.
Qed.
Lemma ready_push r w h : ready r h → claim w = r → ready None (push w h).
Proof.
  intros [A B C D E] Hc. split; cbn; try done.
  - intros n w'. rewrite js_lookup_insert. destruct (decide _) as [<-|]; [lia|]. intros Hw%A. lia.
  - intros n w' ch. rewrite js_lookup_insert. destruct (decide _) as [<-|]; [|apply B]. intros [= <-] Hw. apply E. congruence.
  - intros n1 n2 w1 w2 ch. rewrite !js_lookup_insert.
    destruct (decide (h_nextId h = n1)) as [<-|], (decide (h_nextId h = n2)) as [<-|]; try done.
    + intros [= <-] Hw2 H1 H2. edestruct (D ch n2 w2); congruence.
    + intros Hw1 [= <-] H1 H2. edestruct (D ch n1 w1); congruence.
    + apply C.
Qed.
Lemma ready_ask r a m w h : ready r h → claim w = r → ready None (ask a m w h).
Proof. intros Hr Hc. unfold ask. apply (ready_push r); [|done]. by apply (ready_keep r h). Qed.
Lemma ready_settle n w h :
  (∀ w0, h_waits h !! n = Some w0 → claim w = claim w0) → ready None h → ready None (settle n w h).
Proof.
  intros Hc [A B C D E].
  assert (∀ n' w', h_waits (settle n w h) !! n' = Some w' → ∃ w0, h_waits h !! n' = Some w0 ∧ claim w' = claim w0) as Hs.
  { intros n' w'. cbn. rewrite js_lookup_alter. destruct (decide (n = n')) as [<-|]; [|eauto].
    intros (w0 & Hw0 & ->)%fmap_Some. eauto. }
  split; try done.
  - intros n' w' (w0 & Hw0 & _)%Hs. by eapply A.
  - intros n' w' ch (w0 & Hw0 & ->)%Hs. by apply (B n').
  - intros n1 n2 w1 w2 ch (w01 & Hw1 & ->)%Hs (w02 & Hw2 & ->)%Hs. by apply C.
Qed.
Lemma ready_release r h : ready r h → ready None (release r h).
Proof.
  intros [A B C D E]. destruct r as [ch|]; [|done]. split; cbn; try done. intros n w ch' Hw Hc.
  apply elem_of_set_delete. split; [|by apply (B n w)]. intros ->. by apply (D ch n w).
Qed.
Lemma ready_restart_over ch h : ready (Some ch) h → ready None (restart_over ch h).
Proof. apply (ready_release (Some ch)). Qed.
(** Claimed, what nothing had a claim on. *)
Lemma ready_claim ch h : ch ∉ h_starting h → ready None h → ready (Some ch) (h <{ h_starting ::= set_add ch }>).
Proof.
  intros Hn [A B C D E]. split; cbn; try done.
  - intros n w ch' Hw Hc. apply elem_of_set_add. right. by apply (B n w).
  - intros ch' n w [= <-] Hw Hc. by apply Hn, (B n w).
  - intros ch' [= <-]. apply elem_of_set_add. by left.
Qed.
End claims.
Create HintDb claims.
#[export] Hint Resolve ready_dropped ready_release ready_restart_over : claims.
(** Through an operation that keeps the books, with [v] what it is done to. *)
Ltac through v := simple apply (ready_keep _ v); [keep|].
#[export] Hint Extern 2 (ready _ (tell _ _ ?v)) => through v : claims.
#[export] Hint Extern 2 (ready _ (forget_request _ ?v)) => through v : claims.
#[export] Hint Extern 2 (ready _ (userActsOnHost _ ?v)) => through v : claims.
#[export] Hint Extern 2 (ready _ (attach_ok _ _ _ _ _ ?v)) => through v : claims.
#[export] Hint Extern 2 (ready _ (tick ?v)) => through v : claims.
#[export] Hint Extern 2 (ready _ (emit _ ?v)) => through v : claims.
#[export] Hint Extern 1 (ready _ (push _ _)) => simple eapply ready_push; [|reflexivity] : claims.
#[export] Hint Extern 1 (ready _ (ask _ _ _ _)) => simple eapply ready_ask; [|reflexivity] : claims.
#[export] Hint Extern 3 (ready _ (if ?b then _ else _)) => destruct b : claims.
#[export] Hint Extern 3 (ready _ (match ?x with _ => _ end)) => destruct x : claims.
Ltac claims := intros; cbv beta iota zeta; eauto 40 with claims nocore.

(** ** Every step *)

Section starts.
Context `{!Setup} {Sc Ou : Type} `{!Screens Sc, !Outputs Ou}.
Notation Hub := (Hub Sc Ou Wait).
Implicit Types (h u v : Hub).

Lemma rd_sendSpawn s h : ready (sp_reuse s) h → ready None (sendSpawnAndWait s h).
Proof. unfold sendSpawnAndWait. claims. Qed.
Lemma rd_spawned n s ch h :
  ready None h → h_waits h !! n = Some (w_spawn s) → ready None (spawned n s ch h).
Proof.
  intros Hr Hw. assert (ready (sp_reuse s) (drop_wait n (forget_request n h))) as Hd.
  { apply (ready_drop (forget_request n h) n (w_spawn s)); [|done]. claims. }
  unfold spawned. cbv zeta. destruct (spawned_row s ch _) as [rows|]; [|by eapply ready_none].
  cbn [new_set]. apply ready_release. revert Hd. generalize (drop_wait n (forget_request n h)). intros v Hv.
  eapply ready_keep; [|exact Hv]. keep.
Qed.
Lemma rd_refused n s m h :
  ready None h → h_waits h !! n = Some (w_spawn s) →
  ready None (forget_request n h |> drop_wait n |> tell m (sp_client s) |> release (sp_reuse s)).
Proof.
  intros Hr Hw. apply ready_release. through (drop_wait n (forget_request n h)).
  apply (ready_drop (forget_request n h) n (w_spawn s)); [|done]. claims.
Qed.
Lemma rd_spawn_answer n s m h :
  ready None h → h_waits h !! n = Some (w_spawn s) → ready None (spawn_answer n s m h).
Proof.
  intros Hr Hw. unfold spawn_answer. destruct (h_quitting h); [by apply rd_refused|].
  destruct m; try done; [by apply rd_spawned|by apply rd_refused].
Qed.
Lemma rd_handleSpawn c host reuse automatic h : ready None h → ready None (handleSpawn c host reuse automatic h).
Proof.
  intros Hr. unfold handleSpawn. destruct (negb _); [done|]. destruct (h_quitting h); [claims|].
  destruct reuse as [ch|]; [|claims]. destruct (may_reuse ch host h) eqn:Hm; [|claims].
  apply (ready_push (Some ch)); [|done]. apply ready_claim; [|done]. unfold may_reuse in Hm.
  destruct (getChannelWithHost ch h) as [[? on]|]; [|done]. apply andb_true_iff in Hm as [Hm _].
  by apply bool_decide_eq_true in Hm as [_ Hm].
Qed.
Lemma rd_spawnOnHost n c host reuse automatic h :
  ready None h → h_waits h !! n = Some (w_spawnOnHost c host reuse automatic) →
  ready None (spawnOnHost n c host reuse automatic h).
Proof. intros Hr Hw. pose proof (ready_drop _ _ _ Hr Hw) as Hd. cbn [claim] in Hd. unfold spawnOnHost. claims. Qed.
Lemma rd_restartChannel ch h : ready None h → ready None (restartChannel ch h).
Proof.
  intros Hr. assert (∀ v, ready None v → ch ∉ h_starting v → ready None (v <{ h_starting ::= set_add ch }> |> push (w_restartBegin ch))) as Hc.
  { intros v Hv Hn. apply (ready_push (Some ch)); [|done]. by apply ready_claim. }
  unfold restartChannel. destruct (getChannelWithHost ch h) as [[? host]|].
  - destruct (_ || _); [done|]. assert (ready None (userActsOnHost host h)) as Hu by claims. cbv zeta.
    destruct (decide (ch ∈ h_starting (userActsOnHost host h))); [claims|by apply Hc].
  - destruct (h_quitting h); [done|]. destruct (bool_decide (ch ∈ h_starting h)) eqn:Hn; [done|].
    apply bool_decide_eq_false in Hn. by apply Hc.
Qed.
Lemma rd_restart_send r h : ready (Some (rs_channel r)) h → ready None (restart_send r h).
Proof. unfold restart_send. claims. Qed.
Lemma rd_restart_begin n ch h :
  ready None h → h_waits h !! n = Some (w_restartBegin ch) → ready None (restart_begin n ch h).
Proof.
  intros Hr Hw. pose proof (ready_drop _ _ _ Hr Hw) as Hd. cbn [claim] in Hd. unfold restart_begin. cbv zeta.
  destruct (h_quitting _); [claims|]. destruct (getChannelWithHost ch _) as [[row host]|]; [|claims].
  match goal with |- ready _ (if _ then restart_send ?r ?w else _) => assert (ready (Some (rs_channel r)) w) as Hw' end.
  { destruct (h_agents (drop_wait n h) !! host), (channel_of ch (drop_wait n h)); try done. destruct (_ && _); claims. }
  destruct (agent_up _ _); [by apply rd_restart_send|by apply (ready_push (Some ch))].
Qed.
Lemma rd_restart_reached n r ok h :
  ready None h → h_waits h !! n = Some (w_restartReach r) → ready None (restart_reached n r ok h).
Proof.
  intros Hr Hw. pose proof (ready_drop _ _ _ Hr Hw) as Hd. cbn [claim] in Hd. unfold restart_reached. cbv zeta.
  destruct ok; [by apply rd_restart_send|claims].
Qed.
Lemma rd_restart_answer n r a m h :
  ready None h → h_waits h !! n = Some (w_restart r a) → ready None (restart_answer n r m h).
Proof.
  intros Hr Hw. unfold restart_answer. apply ready_settle; [|claims]. intros w0 Hw0.
  change (h_waits h !! n = Some w0) in Hw0. rewrite Hw in Hw0. by injection Hw0 as <-.
Qed.
Lemma rd_restart_answered n r a answer h :
  ready None h → h_waits h !! n = Some (w_restart r a) → ready None (restart_answered n r answer h).
Proof.
  intros Hr Hw. pose proof (ready_drop _ _ _ Hr Hw) as Hd. cbn [claim] in Hd. unfold restart_answered. cbv zeta.
  destruct answer as [ch|]; [|claims]. destruct (h_quitting _); [claims|]. apply ready_restart_over.
  by apply (ready_keep _ (drop_wait n h)); [keep|].
Qed.
Lemma rd_attach_reached c ch obj title host h : ready None h → ready None (attach_reached c ch obj title host h).
Proof.
  intros Hr. assert (∀ a, ready None (attach_ask c ch obj title a h)) as Ha; [|unfold attach_reached; claims].
  intros a. unfold attach_ask. cbv zeta. match goal with |- ready _ (set_field h_requests ?f ?v) => through v end. claims.
Qed.
Lemma rd_handleAttach c ch h : ready None h → ready None (handleAttach c ch h).
Proof.
  intros Hr. unfold handleAttach. destruct (negb _); [done|]. destruct (h_quitting h); [claims|].
  destruct (h_channels h !! ch) as [obj|]; [|claims]. destruct (channel_of ch h) as [s|]; [|claims].
  destruct (decide (cs_status s = dead)); [claims|]. cbv zeta.
  set (v := if decide (cs_status s = orphan) then _ else _).
  assert (same h v) as Hv by (unfold v; keep). clearbody v.
  assert (same h (restored ch v)) as Hw%(same_resolved ch) by (unfold restored; keep).
  destruct (resolveDisplayTitle ch (restored ch v)) as [title w]. cbn in Hw.
  apply (ready_keep None h w) in Hr; [|done]. destruct (agent_up _ w); [by apply rd_attach_reached|claims].
Qed.
Lemma rd_attach_went n c ch obj title h : ready None h → ready None (attach_went n c ch obj title h).
Proof.
  intros Hr%(ready_dropped _ n). unfold attach_went. cbv zeta. destruct (h_objs _ !! obj); [|done].
  destruct (_ && _); [by apply rd_attach_reached|]. apply rd_handleAttach. revert Hr. apply ready_keep. keep.
Qed.
Lemma rd_attach_settle n ch w w0 h :
  ready None h → h_waits h !! n = Some w0 → claim w = claim w0 → ready None (attach_settle n ch w h).
Proof.
  intros Hr Hw Hc. unfold attach_settle. cbv zeta. apply ready_settle.
  - intros w1 Hw1. assert (h_waits h !! n = Some w1) as H1 by (by destruct (bool_decide _)). congruence.
  - revert Hr. apply ready_keep. keep.
Qed.
Lemma rd_attach_answered n c ch obj title askedAt answer h :
  ready None h → ready None (attach_answered n c ch obj title askedAt answer h).
Proof.
  intros Hr%(ready_dropped _ n). unfold attach_answered. cbv zeta. generalize dependent (drop_wait n h). intros v Hr.
  destruct answer.
  - revert Hr. apply ready_keep. keep.
  - destruct (answerStillApplies _ _ _); [|apply rd_handleAttach]; revert Hr; apply ready_keep; keep.
  - claims.
Qed.
Lemma rd_respawns host a for_ h : ready None h → ready None (spawnChannelsForHost host a for_ h).
Proof.
  intros Hr. unfold spawnChannelsForHost. destruct (_ || _); [done|]. generalize (entries (h_channels h)). intros l.
  revert h Hr. induction l as [|e l IH]; intros h Hr; [done|]. cbn [fold_left]. apply IH. unfold respawn_one. claims.
Qed.
Lemma rd_respawn_answer n ch obj for_ m h : ready None h → ready None (respawn_answer n ch obj for_ m h).
Proof.
  intros Hr. assert (ready None (drop_wait n (forget_request n h))) as Hd by claims. unfold respawn_answer. cbv zeta.
  destruct (h_quitting h); [done|]. revert Hd. generalize (drop_wait n (forget_request n h)). intros v.
  destruct m; apply ready_keep; keep.
Qed.
Lemma rd_states_answered n host a askedAt for_ states h :
  ready None h → ready None (states_answered n host a askedAt for_ states h).
Proof.
  intros Hr%(ready_dropped _ n). unfold states_answered, adoptAgent. cbv zeta. revert Hr. generalize (drop_wait n h). intros v.
  apply ready_keep. destruct for_; [keep|]. destruct (h_quitting v); [keep|]. destruct (_ || _); keep.
Qed.
Lemma rd_timeout n h : ready None h → ready None (timeout n h).
Proof.
  intros Hr. unfold timeout. destruct (h_waits h !! n) as [[| |s| | |r [answer|]|ch obj for_| |c ch obj title askedAt [answer|]|]|] eqn:Hw; try done.
  - by apply rd_refused.
  - apply ready_settle; [|claims]. intros w0 Hw0. change (h_waits h !! n = Some w0) in Hw0. rewrite Hw in Hw0. by injection Hw0 as <-.
  - assert (ready None (drop_wait n (forget_request n h))) as Hd by claims. revert Hd. apply ready_keep. keep.
  - by eapply rd_attach_settle.
Qed.
Lemma rd_from_agent host rid m h : ready None h → ready None (from_agent host rid m h).
Proof.
  intros Hr. unfold from_agent. destruct (answers rid m h) as [[n w]|] eqn:Ha.
  - apply answers_wait in Ha. unfold answered.
    destruct w as [| |s| | |r [answer|]|ch obj for_| |c ch obj title askedAt [answer|]|]; try done.
    + by apply rd_spawn_answer.
    + by eapply rd_restart_answer.
    + by apply rd_respawn_answer.
    + destruct (attach_answer m ch); [by eapply rd_attach_settle|done].
  - revert Hr. apply ready_keep. keep.
Qed.
(** The events that neither start nor wait. *)
Lemma same_exec e h :
  match e with
  | Spawn _ _ _ _ | SpawnGoes _ | SpawnReached _ _ | Attach _ _ | AttachGoes _ | Restart _ | RestartGoes _
  | RestartReached _ _ | Continue _ | Timeout _ | Stopping _ _ | AskStates _ _ _ | States_ _ _ | Respawn _ _ _
  | FromAgent _ _ _ => True
  | _ => same h (exec e h)
  end.
Proof.
  destruct e; try done; cbn [exec]; unfold addClient, handleInput, handleResize, setFilesPanel, title_timer, process_title_timer,
    clearTitleDebounce, clearProcessTitleDebounce, agent_closed, dropDisplacedConnection, adoptAgent; try keep.
  destruct (_ || _); cbv [from_option id]; keep.
Qed.
Lemma rd_exec e h : ready None h → ready None (exec e h).
Proof.
  intros Hr. pose proof (same_exec e h) as Hs.
  assert (∀ v, same h v → ready None v) as Hk by (intros v Hv; by eapply ready_keep).
  destruct e; first [by apply Hk|cbn [exec]].
  - by apply rd_handleSpawn.
  - destruct (h_waits h !! n) as [[]|] eqn:Hw; try done. by apply rd_spawnOnHost.
  - destruct (h_waits h !! n) as [[]|] eqn:Hw; try done. pose proof (ready_drop _ _ _ Hr Hw) as Hd. cbn [claim] in Hd.
    destruct s as [s|]; [|claims]. destruct (decide _) as [(_ & _ & <-)|]; [by apply rd_sendSpawn|done].
  - by apply rd_handleAttach.
  - destruct (h_waits h !! n) as [[]|] eqn:Hw; try done. by apply rd_attach_went.
  - by apply rd_restartChannel.
  - destruct (h_waits h !! n) as [[]|] eqn:Hw; try done. by apply rd_restart_begin.
  - destruct (h_waits h !! n) as [[]|] eqn:Hw; try done. by apply rd_restart_reached.
  - destruct (h_waits h !! n) as [[| | | | |r [answer|]| | |c ch obj title askedAt [answer|]|]|] eqn:Hw; try done;
      [by eapply rd_restart_answered|by apply rd_attach_answered].
  - by apply rd_timeout.
  - destruct Hr as [A B C D E]. by split.
  - unfold ask_states. cbv zeta. claims.
  - destruct (h_waits h !! n) as [[]|] eqn:Hw; try done. by apply rd_states_answered.
  - by apply rd_respawns.
  - by apply rd_from_agent.
Qed.

Lemma restart_refused ch u h : same u h → ch ∈ h_starting u → same u (restartChannel ch h).
Proof.
  intros Hu Hin. assert (ch ∈ h_starting h) as Hin' by by (injection Hu as _ _ -> _). unfold restartChannel.
  destruct (getChannelWithHost ch h) as [[row host]|].
  - destruct (_ || _); [done|]. pose proof (same_userActs host u h Hu) as Hs. cbv zeta. rewrite decide_True; [done|].
    by injection Hs as _ _ -> _.
  - by rewrite (bool_decide_eq_true_2 _ Hin'), orb_true_r.
Qed.

(** C14: A terminal is never being started twice at once: along any life of the hub, of the starts
    that wait (a window bringing it back, a restart; on their way to the host, or their SPAWN sent)
    no two are of one terminal, and each has its claim, so that another, from a window or a restart,
    changes nothing meanwhile. *)
Theorem one_start_at_a_time es h :
  h_waits h = ∅ →
  let h' := run step h es in
  (∀ n n' w w' ch, h_waits h' !! n = Some w → h_waits h' !! n' = Some w' →
     claim w = Some ch → claim w' = Some ch → n = n') ∧
  ∀ n w ch c host automatic t, h_waits h' !! n = Some w → claim w = Some ch →
    may_reuse ch host h' = false ∧ books (step h' (t, Spawn c host (Some ch) automatic)) = books h' ∧ books (step h' (t, Restart ch)) = books h'.
Proof.
  intros H0 h'. assert (ready None h') as Hr.
  { unfold h'. assert (ready None h) as Hr by (split; intros until 0; rewrite ?H0; done). clear H0 h'. revert h Hr.
    induction es as [|[t e] es IH]; intros h Hr; [done|]. apply IH. unfold step. cbn [fst snd]. apply rd_exec.
    revert Hr. apply ready_keep. keep. }
  clearbody h'. split; [apply Hr|]. intros n w ch c host automatic t Hw Hc.
  assert (ch ∈ h_starting h') as Hin by by apply (rd_claimed _ _ Hr n w).
  assert (∀ h'', h_starting h'' = h_starting h' → may_reuse ch host h'' = false) as Hm.
  { intros h'' Hs. unfold may_reuse. destruct (getChannelWithHost ch h'') as [[? on]|]; [|done]. rewrite Hs.
    rewrite bool_decide_eq_false_2; [done|]. by intros []. }
  split_and!; [by apply Hm| |].
  2: { by apply (restart_refused ch h' (set_field h_now (λ _, t) h')). }
  unfold step. cbn [fst snd exec]. unfold handleSpawn. destruct (negb _); [done|]. destruct (h_quitting _).
  - by apply (same_tell _ _ h' (set_field h_now (λ _, t) h')).
  - rewrite Hm by done. by apply (same_tell _ _ h' (set_field h_now (λ _, t) h')).
Qed.
End starts.

(** ** On a hub with one terminal

    It is killed, and a window asks to bring it back; then so does a second. *)
#[local] Existing Instance ex_setup.
#[local] Open Scope string_scope.
Definition ex_bringing : list (Z * Ev) :=
  (0%Z, Connect "w1") :: ex_starts "w1" None "t1" 0 ++ (3%Z, Kill "t1") :: ex_asks "w1" (Some "t1") 3.
Lemma one_start_at_a_time_witness :
  h_waits (run step ex_hub ex_bringing) !! 5 = Some (w_spawn (ex_spawning "w1" (Some "t1"))) ∧
  books (step (run step ex_hub ex_bringing) (4%Z, Spawn "w2" "h" (Some "t1") false)) = books (run step ex_hub ex_bringing).
Proof.
  assert (h_waits (run step ex_hub ex_bringing) !! 5 = Some (w_spawn (ex_spawning "w1" (Some "t1")))) as Hw by (vm_compute; reflexivity).
  split; [exact Hw|].
  destruct (one_start_at_a_time ex_bringing ex_hub) as [_ H]; [reflexivity|]. by destruct (H 5 _ "t1" "w2" "h" false 4%Z Hw eq_refl) as (_ & Hs & _).
Defined.
