(* ===== verification/ChannelsListed.v ===== *)
(** * The list in view, and the fetches of it

    Along any life of a window the list it shows names each terminal once, only the latest fetch
    commits, and it says it is loading exactly while that one is under way ([list_in_view]). *)

From S2P Require Import Prelude JsMap ChannelData StateBroadcaster ChannelsStore.
#[local] Open Scope lasterm_scope.

Implicit Types (s : Store) (l : list Channel).

Record list_ok s : Prop := {
  lo_once : NoDup (w_id <$> st_channels s);
  lo_added : js_keys (st_wsAdded s) = js_keys (st_fetching s);
  lo_past g : g ∈ js_keys (st_fetching s) → g <= st_generation s;
  lo_loading : st_loading s = bool_decide (st_generation s ∈ js_keys (st_fetching s))
}.

Lemma on_listed_ids ch f l : (∀ c, w_id (f c) = w_id c) → w_id <$> on_listed ch f l = w_id <$> l.
Proof. intros Hf. induction l as [|c l IH]; [done|]. csimpl. destruct (decide _); csimpl; congruence. Qed.
Lemma listed_none ch l : listed ch l = None ↔ ch ∉ w_id <$> l.
Proof.
  unfold listed. rewrite fmap_None, list_find_None, Forall_forall, list_elem_of_fmap. naive_solver.
Qed.
Lemma fmap_ids (f : Channel → Channel) l : (∀ c, w_id (f c) = w_id c) → w_id <$> (f <$> l) = w_id <$> l.
Proof. intros Hf. rewrite <- list_fmap_compose. apply list_fmap_ext. intros. apply Hf. Qed.
Lemma with_exit_id exitCode c : w_id (with_exit exitCode c) = w_id c.
Proof. by destruct exitCode. Qed.
(** The same list, and the same fetches. *)
Lemma list_ok_same s s' :
  w_id <$> st_channels s' = w_id <$> st_channels s → js_keys (st_wsAdded s') = js_keys (st_wsAdded s) →
  js_keys (st_fetching s') = js_keys (st_fetching s) → st_generation s' = st_generation s → st_loading s' = st_loading s →
  list_ok s → list_ok s'.
Proof. intros H1 H2 H3 H4 H5 [A B C D]. split; rewrite ?H1, ?H2, ?H3, ?H4, ?H5; done. Qed.
Lemma list_ok_fewer s s' :
  NoDup (w_id <$> st_channels s') → st_wsAdded s' = st_wsAdded s → st_fetching s' = st_fetching s →
  st_generation s' = st_generation s → st_loading s' = st_loading s → list_ok s → list_ok s'.
Proof. intros H1 H2 H3 H4 H5 [A B C D]. split; rewrite ?H2, ?H3, ?H4, ?H5; done. Qed.
Lemma ok_named t ch s : list_ok s → list_ok (named t ch s).
Proof. unfold named. destruct (truthy t); [|done]. apply list_ok_same; try done. by apply on_listed_ids. Qed.
Lemma ok_sync_titles sessions channels s : list_ok s → list_ok (sync_titles sessions channels s).
Proof.
  unfold sync_titles. generalize (fold_left (λ m e, <[e.1.1 := e.1.2]> m) sessions ∅ : jsmap SessionId HostId). intros m.
  revert s. induction channels as [|sc channels IH]; intros s Hs; [done|]. cbn [fold_left]. apply IH.
  assert (∀ host, list_ok (registerChannelHost (sy_id sc) host s)) as Hr.
  { intros host. unfold registerChannelHost. destruct (decide _); [done|]. by apply (list_ok_same s). }
  destruct (m !! sy_session sc) as [host|]; [destruct (truthy host)|]; destruct (sy_displayTitle sc); auto using ok_named.
Qed.
Lemma ok_synced entries s : list_ok s → list_ok (applyStateSync entries s).
Proof.
  unfold applyStateSync. cbv zeta. destruct (st_channels _) as [|c l] eqn:Hl; apply list_ok_same; try done.
  cbn in *. apply fmap_ids. intros c'. unfold sync_listed. destruct (list_find _ _) as [[? sc]|]; destruct (decide _); try done.
  cbn. by rewrite with_exit_id.
Qed.
Lemma ok_created host ch session config cols rows title s :
  list_ok s → list_ok (handleChannelCreated host ch session config cols rows title s).
Proof.
  unfold handleChannelCreated. destruct (negb _); [done|]. cbv zeta. destruct (listed ch _) eqn:Hl.
  - apply list_ok_same; try done. by apply on_listed_ids.
  - apply listed_none in Hl. cbn in Hl. intros [A B C D]. split; cbn; try done.
    + rewrite fmap_app. apply NoDup_app. split_and!; [done| |apply NoDup_singleton].
      intros id Hid ->%list_elem_of_singleton. done.
    + rewrite <- B. unfold js_keys. cbn. by rewrite <- list_fmap_compose.
Qed.
Lemma merged_ids added data l pending ids :
  NoDup (w_id <$> data) → NoDup (w_id <$> l) →
  NoDup (w_id <$> without_absent ids (with_pending pending (with_added added data l))).
Proof.
  intros Hd Hl. assert (w_id <$> without_absent ids (with_pending pending (with_added added data l)) = w_id <$> with_added added data l) as ->.
  { transitivity (w_id <$> with_pending pending (with_added added data l)).
    - unfold without_absent. destruct ids; [|done]. apply fmap_ids. intros c. by destruct (decide _).
    - apply fmap_ids. intros c. destruct (pending !! w_id c) as [[? ?]|]; [by rewrite with_exit_id|done]. }
  unfold with_added. rewrite fmap_app. apply NoDup_app. split_and!; [done| |by apply NoDup_fmap_filter].
  intros id Hid (c & -> & Hc)%list_elem_of_fmap. apply list_elem_of_filter in Hc as [[_ Hc] _]. done.
Qed.
Lemma ok_fetch host s : list_ok s → list_ok (fetchChannels host s).
Proof.
  intros [A B C D]. unfold fetchChannels. cbv zeta.
  match goal with |- context [if ?b then _ else _] => set (changed := b) end. clearbody changed.
  assert (S (st_generation s) ∉ js_keys (st_fetching s)) as Hn by (intros Hin%C; lia).
  split.
  - destruct changed; [constructor|done].
  - destruct changed; cbn; rewrite !js_keys_insert, B; by repeat destruct (decide _).
  - intros g. destruct changed; cbn; rewrite js_keys_insert, decide_False by done;
      intros [Hg%C| ->%list_elem_of_singleton]%elem_of_app; lia.
  - destruct changed; cbn; rewrite js_keys_insert, decide_False by done; symmetry; apply bool_decide_eq_true_2, elem_of_app;
      right; by apply list_elem_of_singleton.
Qed.
(** What the answer of a fetch that was superseded changes: nothing that is shown. *)
Lemma superseded g answer s :
  g ≠ st_generation s →
  let s' := fetch_answered g answer s in
  st_channels s' = st_channels s ∧ st_index s' = st_index s ∧ st_reports s' = st_reports s ∧ st_error s' = st_error s ∧
  st_loading s' = st_loading s ∧ st_selected s' = st_selected s.
Proof.
  intros Hg. unfold fetch_answered. destruct (st_fetching s !! g); [|done]. cbv zeta.
  by rewrite bool_decide_eq_false_2.
Qed.
Lemma ok_answered g answer s :
  match answer with inl data => NoDup (w_id <$> data) | inr _ => True end → list_ok s → list_ok (fetch_answered g answer s).
Proof.
  intros Hd [A B C D]. unfold fetch_answered. destruct (st_fetching s !! g) as [host|] eqn:Hf; [|done]. cbv zeta.
  set (w := match answer with inl _ => _ | inr _ => _ end).
  assert (NoDup (w_id <$> st_channels w) ∧ st_wsAdded w = st_wsAdded s ∧ st_fetching w = st_fetching s ∧ st_generation w = st_generation s)
    as (H1 & H2 & H3 & H4).
  { unfold w. destruct answer; [|done]. unfold commit. cbv zeta.
    assert (NoDup (w_id <$> without_absent (st_lastSyncIds s) (with_pending (st_pending s)
      (with_added (default [] (st_wsAdded s !! g)) l (st_channels s))))) as Hm by by apply merged_ids.
    destruct (st_selected _); [destruct (listed _ _)|]; done. }
  destruct (bool_decide (st_generation s = g)) eqn:Hg.
  - apply bool_decide_eq_true in Hg as <-. split; cbn; rewrite ?H2, ?H3, ?H4, ?js_keys_delete, ?B; try done.
    + intros g' [_ Hg']%list_elem_of_filter. by apply C.
    + symmetry. apply bool_decide_eq_false_2. by intros [? _]%list_elem_of_filter.
  - apply bool_decide_eq_false in Hg. split; cbn; rewrite ?js_keys_delete, ?B; try done.
    + intros g' [_ Hg']%list_elem_of_filter. by apply C.
    + rewrite D. apply bool_decide_ext. rewrite list_elem_of_filter. naive_solver.
Qed.
Lemma ok_step e s :
  match e with Fetched _ (inl data) => NoDup (w_id <$> data) | _ => True end → list_ok s → list_ok (window_step s e).
Proof.
  intros He Hs. destruct e as [m|host|g answer|rows|ch|ch|ch|ch| |tempId host|tempId]; cbn [window_step];
    try (by apply (list_ok_same s)); auto using ok_fetch.
  - destruct m; cbn [hear]; try done.
    + unfold updateChannelStatus. cbv zeta. destruct (listed _ _); apply (list_ok_same s); try done.
      apply on_listed_ids. intros c'. cbn. by rewrite with_exit_id.
    + by apply ok_synced, ok_sync_titles.
    + by apply ok_created.
    + apply ok_named. apply (list_ok_same s); try done. by apply on_listed_ids.
    + apply ok_named. apply (list_ok_same s); try done. by apply on_listed_ids.
  - by apply ok_answered.
  - unfold markUnread. destruct (decide _); [done|]. by apply (list_ok_same s).
  - apply (list_ok_same s); try done. apply on_listed_ids. intros ?. by destruct (decide _).
  - apply (list_ok_fewer s); try done. cbn. apply NoDup_fmap_filter, Hs.
  - apply (list_ok_fewer s); try done. cbn. apply NoDup_fmap_filter, Hs.
Qed.

(** C38: Whatever a window hears, fetches and does, in whatever order its fetches are answered, its list
    names each terminal once (each answer naming each once), it says it is loading exactly while its
    latest fetch is under way, and an answer to any other changes nothing of what it shows. *)
Theorem list_in_view es g answer :
  let s := fold_left window_step es new_store in
  Forall (λ e, match e with Fetched _ (inl data) => NoDup (w_id <$> data) | _ => True end) es →
  NoDup (w_id <$> st_channels s) ∧ st_loading s = js_has (st_generation s) (st_fetching s) ∧
  (g ≠ st_generation s →
   let s' := fetch_answered g answer s in
   st_channels s' = st_channels s ∧ st_index s' = st_index s ∧ st_reports s' = st_reports s ∧ st_error s' = st_error s ∧
   st_loading s' = st_loading s ∧ st_selected s' = st_selected s).
Proof.
  intros s Hes. assert (list_ok s) as [A B C D].
  { unfold s. assert (list_ok new_store) as Hn by (split; [constructor|done|by intros g' ?%not_elem_of_nil|done]).
    clear s. revert Hn. generalize new_store. induction Hes as [|e es He _ IH]; intros s Hs; [done|].
    cbn [fold_left]. by apply IH, ok_step. }
  split_and!; [done| |apply superseded]. rewrite D. apply eq_iff_eq_true. rewrite bool_decide_eq_true, js_has_true. apply js_elem_keys.
Qed.
Lemma list_in_view_witness :
  let data := [MkListed "t1" "s" live (MkConfig None [] None false) 80 24 None None None None None] in
  let s := fold_left window_step [Fetch "h"; Fetch "h2"; Fetched 1 (inl data); Heard (CHANNEL_STATE "t1" "s" dead None None)] new_store in
  st_loading s = true ∧ st_channels (fetch_answered 1 (inl data) s) = [].
Proof.
  intros data s.
  destruct (list_in_view [Fetch "h"; Fetch "h2"; Fetched 1 (inl data); Heard (CHANNEL_STATE "t1" "s" dead None None)] 1 (inl data))
    as (_ & H1 & H2); [do 2 (constructor; [done|]); constructor; [apply NoDup_singleton|by constructor]|].
  split; [unfold s; rewrite H1; vm_compute; reflexivity|].
  destruct H2 as (H2 & _); [vm_compute; lia|]. unfold s. rewrite H2. vm_compute. reflexivity.
Defined.
