(* ===== verification/Validation.v ===== *)
(** * What a message from a window may hold ([shared/src/validation.ts])

    A decoded message holds values of any type: the checks take any. Texts are UTF-16 code units; a
    regular expression is the scan it stands for. A shell and the command that elevates one are
    checked apart, in different words: they are accepted alike, and what is accepted is an absolute
    path that never climbs ([commands_accepted]). *)

From Stdlib Require Import Ascii.
From Stdlib.Strings Require Import Byte.
From Stdlib Require Import QArith.
From stdpp Require Import strings.
From S2P Require Import Prelude Text.
#[local] Open Scope nat_scope.
#[local] Open Scope lasterm_scope.

(** ** Values *)

(** A number: a fraction, or none. *)
Inductive Num := rational (q : Q) | infinite (negative : bool) | NaN.
Inductive Value :=
| undefined | null | boolean (b : bool) | number (n : Num) | string_ (t : text) | bytes (l : list byte)
| array (l : list Value) | object (entries : list (text * Value)).

Definition of_Z (z : Z) : Value := number (rational (inject_Z z)).
Definition isInteger (v : Value) : option Z :=
  match v with
  | number (rational q) => let q := Qred q in if (Qden q =? 1)%positive then Some (Qnum q) else None
  | _ => None
  end.
Definition text_value (v : Value) : option text := match v with string_ t => Some t | _ => None end.

(** ** Ids, sizes, input *)

(** One of [0-9A-HJKMNP-TV-Z], in either case. *)
Definition is_ulid_unit (c : unit_) : bool :=
  let c := ascii_upper c in
  is_digit c || in_range "A"%char "H"%char c || bool_decide (c = ch "J"%char) || bool_decide (c = ch "K"%char) ||
  bool_decide (c = ch "M"%char) || bool_decide (c = ch "N"%char) || in_range "P"%char "T"%char c || in_range "V"%char "Z"%char c.
Definition is_ulid (t : text) : bool := (length t =? 26) && forallb is_ulid_unit t.
Definition isValidUlid (id : Value) : bool :=
  match id with string_ t => is_ulid t | _ => false end.

Definition isValidDimensions (cols rows : Value) : bool :=
  match isInteger cols, isInteger rows with
  | Some c, Some r => ((1 <=? c) && (c <=? 500) && (1 <=? r) && (r <=? 500))%Z
  | _, _ => false
  end.

Definition MAX_INPUT_SIZE : N := 65536.
Definition isValidInputData (data : Value) : bool :=
  match data with bytes l => (N.of_nat (length l) <=? MAX_INPUT_SIZE)%N | _ => false end.

Definition longer_than (n : N) (t : text) : bool := (n <? N.of_nat (length t))%N.
Definition MAX_ENV_COUNT : nat := 256.
Definition isValidEnv (env : Value) : bool :=
  match env with
  | undefined | null => true
  | object entries =>
      (length entries <=? MAX_ENV_COUNT) &&
      forallb (λ kv, match kv.2 with
                     | string_ v => negb (longer_than 256 kv.1) && negb (longer_than 8192 v)
                     | _ => false
                     end) entries
  (* bytes are an object whose entries are numbers *)
  | bytes l => length l =? 0
  | _ => false
  end.

(** The number its digits write; [Number] rounds no smaller one. *)
Definition digits_value (t : text) : Z := fold_left (λ n c, n * 10 + (Z.of_N c - 48))%Z t 0%Z.
Definition sshPortFromText (t : text) : option Z :=
  if bool_decide (t = []) || negb (forallb is_digit t) then None
  else
    let port := digits_value t in
    if ((1 <=? port) && (port <=? 65535))%Z then Some port else None.

(** ** Commands *)

Definition SLASH : unit_ := ch "/"%char.
Definition BACKSLASH : unit_ := ch "\"%char.
Definition DOT : unit_ := ch "."%char.
Definition is_sep (c : unit_) : bool := bool_decide (c = SLASH) || bool_decide (c = BACKSLASH).
Definition endsWith (s t : text) : bool := bool_decide (s `suffix_of` t).

(** [/^[a-zA-Z0-9/\\._ :-]+$/] of a text that is not empty. *)
Definition is_allowed (c : unit_) : bool :=
  is_letter c || is_digit c || is_sep c || bool_decide (c ∈ txt "._ :-").
(** [/[;&|$`()<>\n\r]/] *)
Definition is_meta (c : unit_) : bool := bool_decide (c ∈ txt ";&|$`()<>" ++ [10; 13]%N).
Definition is_absolute (t : text) : bool :=
  startsWith [SLASH] t ||
  match t with l :: colon :: s :: _ => is_letter l && bool_decide (colon = ch ":"%char) && is_sep s | _ => false end.
(** [/(?:^|[/\\])\.\.[/\\]/]; [start] is whether what is left begins the text or follows a separator. *)
Definition dots_then_sep (t : text) : bool :=
  match t with a :: b :: s :: _ => bool_decide (a = DOT) && bool_decide (b = DOT) && is_sep s | _ => false end.
Fixpoint climbs_inside (start : bool) (t : text) : bool :=
  match t with
  | [] => false
  | c :: t' => start && dots_then_sep t || climbs_inside (is_sep c) t'
  end.
Definition climbs (t : text) : bool :=
  climbs_inside true t || endsWith [SLASH; DOT; DOT] t || endsWith [BACKSLASH; DOT; DOT] t.

(** The message it throws, or nothing. *)
Definition validateCustomCommand (cmd : text) : option string :=
  if bool_decide (cmd = []) then Some "custom_command must not be empty"
  else if longer_than 4096 cmd then Some "custom_command exceeds maximum length"
  else if existsb (λ c, (127 <? c)%N) cmd then Some "custom_command must contain only ASCII characters"
  else if includes 0%N cmd then Some "custom_command contains invalid characters"
  else if negb (forallb is_allowed cmd) then Some "custom_command contains invalid characters"
  else if negb (is_absolute cmd) then Some "custom_command must be an absolute path"
  else if climbs cmd then Some "custom_command must not contain path traversal"
  else None.
(** The error, or nothing; it may be left out. *)
Definition validateShell (shell : Value) : option string :=
  match shell with
  | undefined | null => None
  | string_ shell =>
      if bool_decide (shell = []) then Some "shell must not be empty"
      else if longer_than 4096 shell then Some "shell must be 4096 characters or fewer"
      else if includes 0%N shell then Some "shell contains invalid characters"
      else if existsb is_meta shell then Some "shell must be an executable path, not a command"
      else if negb (forallb is_allowed shell) then Some "shell contains invalid characters"
      else if negb (is_absolute shell) then Some "shell must be an absolute path"
      else if climbs shell then Some "shell must not contain path traversal"
      else None
  | _ => Some "shell must be a string"
  end.

(** ** What is accepted *)

(** The parts a path is cut into, at either separator. *)
Fixpoint segments (t : text) : list text :=
  match t with
  | [] => [[]]
  | c :: t =>
      if is_sep c then [] :: segments t
      else match segments t with s :: ss => (c :: s) :: ss | [] => [[c]] end
  end.

Section accepted.
Implicit Types (t : text) (c : unit_).

Lemma is_allowed_plain c : is_allowed c = true → (c <= 127)%N ∧ c ≠ 0%N ∧ is_meta c = false.
Proof.
  intros Hc. assert ((c < 128)%N) as Hlt.
  { unfold is_allowed, is_letter, is_digit, in_range, is_sep in Hc.
    rewrite !orb_true_iff, !andb_true_iff, !N.leb_le, !bool_decide_eq_true in Hc.
    destruct Hc as [[[[[_ ?]|[_ ?]]|[_ ?]]|[->| ->]]|Hc]; try (eapply N.le_lt_trans; [eassumption|done]); [done..|].
    cbn in Hc. rewrite !elem_of_cons in Hc. destruct Hc as [->|[->|[->|[->|[->|[]%elem_of_nil]]]]]; done. }
  assert (∀ n, n < 128 → is_allowed (N.of_nat n) = true → N.of_nat n ≠ 0%N ∧ is_meta (N.of_nat n) = false) as Hall.
  { intros n Hn Ha. do 128 (destruct n as [|n]; [vm_compute in Ha |- *; (done || (split; done))|]). lia. }
  rewrite <- (N2Nat.id c) in Hc |- *. destruct (Hall (N.to_nat c)) as [? ?]; [lia|done|]. split_and!; [lia|done..].
Qed.

Lemma segments_not_nil t : segments t ≠ [].
Proof. destruct t as [|c t]; simpl; [done|]. destruct (is_sep c); [done|]. by destruct (segments t). Qed.

(** Whether a segment of two dots is among them, the first, which goes on what is before, aside. *)
Definition climbing (start : bool) t : Prop :=
  [DOT; DOT] ∈ if start then segments t else tail (segments t).
Definition ends_climbing (start : bool) t : bool :=
  start && bool_decide (t = [DOT; DOT]) || endsWith [SLASH; DOT; DOT] t || endsWith [BACKSLASH; DOT; DOT] t.

Lemma is_sep_true c : is_sep c = true ↔ c = SLASH ∨ c = BACKSLASH.
Proof. unfold is_sep. by rewrite orb_true_iff, !bool_decide_eq_true. Qed.
Lemma endsWith_cons x s c t : endsWith (x :: s) (c :: t) = bool_decide (x :: s = c :: t) || endsWith (x :: s) t.
Proof.
  apply eq_true_iff_eq. unfold endsWith. rewrite orb_true_iff, !bool_decide_eq_true. split.
  - by intros [?|?]%suffix_cons_inv; [left|right].
  - intros [->|?]; [done|by apply suffix_cons_r].
Qed.
Lemma ends_climbing_cons start c t :
  ends_climbing start (c :: t) =
  start && bool_decide (c :: t = [DOT; DOT]) || ends_climbing (is_sep c) t.
Proof.
  unfold ends_climbing at 1. rewrite !endsWith_cons. unfold ends_climbing.
  apply eq_true_iff_eq. rewrite !orb_true_iff, !andb_true_iff, !bool_decide_eq_true, is_sep_true. split.
  - intros [[?|[[= <- <-]|?]]|[[= <- <-]|?]]; tauto.
  - intros [?|[[[[-> | ->] ->]|?]|?]]; tauto.
Qed.
(** Two dots at the start of what is left, and what ends them. *)
Lemma first_segment_dots c t :
  is_sep c = false →
  dots_then_sep (c :: t) || bool_decide (c :: t = [DOT; DOT]) = bool_decide (c = DOT ∧ head (segments t) = Some [DOT]).
Proof.
  intros Hc. apply eq_true_iff_eq. rewrite orb_true_iff, !bool_decide_eq_true.
  assert (∀ t, head (segments t) = Some [] ↔ t = [] ∨ ∃ s t', t = s :: t' ∧ is_sep s = true) as Hnil.
  { intros [|s t']; simpl; [by split; [left|]|]. destruct (is_sep s) eqn:Hs; [split; [right; eauto|done]|].
    destruct (segments t'); (split; [done|]); intros [?|(s' & t0 & [= <- <-] & ?)]; congruence. }
  destruct t as [|b t]; simpl.
  { split; [by intros [?|?]|by intros [_ ?]]. }
  destruct (is_sep b) eqn:Hb; simpl.
  { assert (b ≠ DOT) by (by intros ->). rewrite (bool_decide_false (b = DOT)) by done.
    split; [|by intros [_ ?]]. intros [H'|[= _ ?]]; [|done]. destruct t; [done|]. by rewrite andb_false_r in H'. }
  assert (head (match segments t with s :: ss => (b :: s) :: ss | [] => [[b]] end) = Some [DOT] ↔
          b = DOT ∧ head (segments t) = Some []) as ->.
  { pose proof (segments_not_nil t). destruct (segments t) as [|s ss]; [done|]. simpl.
    split; [by intros [= -> ->]|by intros [-> [= ->]]]. }
  rewrite Hnil. destruct t as [|s t]; simpl.
  - split; [by intros [?|[= -> ->]]; auto|]. intros (-> & -> & _). by right.
  - rewrite !andb_true_iff, !bool_decide_eq_true. split.
    + intros [[[-> ->] ?]|?]; [|done]. split_and!; [done..|]. right. eauto.
    + intros (-> & -> & [?|(s' & t' & [= <- <-] & ?)]); [done|]. by left.
Qed.
Lemma climbs_exact start t : climbs_inside start t || ends_climbing start t = true ↔ climbing start t.
Proof.
  revert start. induction t as [|c t IH]; intros start.
  { unfold climbing. destruct start; simpl; rewrite ?list_elem_of_singleton, ?elem_of_nil; by split. }
  rewrite ends_climbing_cons. cbn [climbs_inside]. unfold climbing. cbn [segments].
  destruct (is_sep c) eqn:Hc.
  - assert (start && dots_then_sep (c :: t) = false) as ->.
    { apply andb_false_iff. right. destruct t as [|b [|s t]]; try done. simpl.
      rewrite bool_decide_false; [done|]. by intros ->. }
    assert (start && bool_decide (c :: t = [DOT; DOT]) = false) as ->.
    { apply andb_false_iff. right. apply bool_decide_eq_false. by intros [= -> _]. }
    cbn [orb]. rewrite IH. unfold climbing. destruct start; [|done]. rewrite elem_of_cons.
    split; [by right|by intros [?|?]].
  - pose proof (first_segment_dots c t Hc) as Hf. pose proof (IH false) as IH'. unfold climbing in IH'.
    assert ((start && dots_then_sep (c :: t) || climbs_inside false t) ||
            (start && bool_decide (c :: t = [DOT; DOT]) || ends_climbing false t) =
            start && bool_decide (c = DOT ∧ head (segments t) = Some [DOT]) ||
            (climbs_inside false t || ends_climbing false t)) as ->.
    { rewrite <- Hf. by destruct start, (dots_then_sep _), (bool_decide _), (climbs_inside _ _), (ends_climbing _ _). }
    rewrite orb_true_iff, IH'. pose proof (segments_not_nil t). destruct (segments t) as [|s ss]; [done|]. simpl.
    destruct start; cbn [andb]; [rewrite bool_decide_eq_true, elem_of_cons|]; split.
    + intros [[-> [= ->]]|?]; [by left|by right].
    + intros [[= <- <-]|?]; [by left|by right].
    + by intros [?|?].
    + by right.
Qed.
(** An absolute path is refused for climbing when a segment of it is "..". *)
Lemma climbs_absolute t : is_absolute t = true → climbs t = false ↔ [DOT; DOT] ∉ segments t.
Proof.
  intros Ha. rewrite <- not_true_iff_false. apply not_iff_compat.
  change ([DOT; DOT] ∈ segments t) with (climbing true t). rewrite <- (climbs_exact true). unfold climbs, ends_climbing.
  rewrite (bool_decide_false (t = _)); [by cbn [andb orb]; rewrite !orb_assoc|]. intros ->. by vm_compute in Ha.
Qed.
Lemma all_allowed t :
  forallb is_allowed t = true →
  existsb (λ c, (127 <? c)%N) t = false ∧ includes 0%N t = false ∧ existsb is_meta t = false.
Proof.
  intros Ht. rewrite forallb_forall in Ht. split_and!.
  - apply not_true_iff_false. rewrite existsb_exists. intros (c & Hc & Hlt).
    destruct (is_allowed_plain c (Ht c Hc)) as (? & _). apply N.ltb_lt in Hlt. lia.
  - apply bool_decide_eq_false. intros Hc%list_elem_of_In. by destruct (is_allowed_plain 0%N (Ht 0%N Hc)) as (_ & ? & _).
  - apply not_true_iff_false. rewrite existsb_exists. intros (c & Hc & Hm).
    destruct (is_allowed_plain c (Ht c Hc)) as (_ & _ & ?). congruence.
Qed.
End accepted.

(** Accepted when every condition holds, refused for one that does not. *)
Ltac verdict := split; [try done; intros _; split_and!; done|intros (? & ? & ? & ? & ?); done].

(** ** Properties *)

(** C36: the two checks of a command, in different words and orders, accept the same texts: those of 1 to
    4096 of the allowed characters that are an absolute path, of which no segment, cut at either
    separator, is [..]. *)
Theorem commands_accepted (t : text) :
  (validateShell (string_ t) = None ↔ validateCustomCommand t = None) ∧
  (validateShell (string_ t) = None ↔
   t ≠ [] ∧ (N.of_nat (length t) <= 4096)%N ∧ forallb is_allowed t = true ∧ is_absolute t = true ∧
   [DOT; DOT] ∉ segments t).
Proof.
  set (fits := t ≠ [] ∧ longer_than 4096 t = false ∧ forallb is_allowed t = true ∧ is_absolute t = true ∧ climbs t = false).
  assert (validateShell (string_ t) = None ↔ fits) as Hs.
  { unfold validateShell, fits. pose proof (all_allowed t) as Hall.
    case_bool_decide; [verdict|]. destruct (longer_than 4096 t); [verdict|].
    destruct (forallb is_allowed t); [destruct (Hall eq_refl) as (_ & -> & ->)|].
    - destruct (is_absolute t); [|verdict]. destruct (climbs t); verdict.
    - destruct (includes 0%N t), (existsb is_meta t); verdict. }
  assert (validateCustomCommand t = None ↔ fits) as Hc.
  { unfold validateCustomCommand, fits. pose proof (all_allowed t) as Hall.
    case_bool_decide; [verdict|]. destruct (longer_than 4096 t); [verdict|].
    destruct (forallb is_allowed t); [destruct (Hall eq_refl) as (-> & -> & _)|].
    - destruct (is_absolute t); [|verdict]. destruct (climbs t); verdict.
    - destruct (existsb (λ c, (127 <? c)%N) t), (includes 0%N t); verdict. }
  split; [by rewrite Hs, Hc|]. rewrite Hs. unfold fits, longer_than. rewrite N.ltb_ge.
  split; intros (? & ? & ? & Ha & Hcl); (split_and!; [done..|]); by apply climbs_absolute.
Qed.
