(* ===== verification/Versions.v ===== *)
(** * The order of versions ([session/agent-retirement.ts])

    Whether an agent is older than the hub, in the order of semver ([isOlderVersion]), over the numbers
    of JavaScript: a part too large for one is rounded, or infinite. *)

From Stdlib Require Import ZArith Ascii.
From S2P Require Import Prelude Text UploadTree KnownHosts Validation.
#[local] Open Scope lasterm_scope.

(** ** Numbers *)

Inductive jsnum := fin (z : Z) | inf.
(** [Number] of digits. *)
Definition Number (t : text) : jsnum :=
  let z := round53 (digits_value t) in if (z <? 2 ^ 1024)%Z then fin z else inf.
(** The sign of [a - b]; [None] is NaN. *)
Definition minus_sign (a b : jsnum) : option comparison :=
  match a, b with
  | fin a, fin b => Some (a ?= b)%Z
  | fin _, inf => Some Lt
  | inf, fin _ => Some Gt
  | inf, inf => None
  end.

(** ** Versions *)

Definition is_number (t : text) : bool := negb (bool_decide (t = [])) && forallb is_digit t.
Definition is_identifier (t : text) : bool :=
  negb (bool_decide (t = [])) && forallb (λ c, is_digit c || is_letter c || (c =? ch "-"%char)%N) t.
Definition is_build (t : text) : bool :=
  negb (bool_decide (t = [])) &&
  forallb (λ c, is_digit c || is_letter c || (c =? ch "-"%char)%N || (c =? ch "."%char)%N) t.
Definition cut (c : unit_) (t : text) : text * option text :=
  match split c t with [] | [_] => (t, None) | s :: ss => (s, Some (join c ss)) end.
(** [SEMVER]: the three numbers, and the identifiers of a pre-release. What comes before its first plus sign
    has no other, and its numbers no hyphen. *)
Definition parts (version : text) : option (list text * list text) :=
  let '(version, build) := cut (ch "+"%char) version in
  let '(core, prerelease) := cut (ch "-"%char) version in
  let core := split (ch "."%char) core in
  let prerelease := match prerelease with Some t => split (ch "."%char) t | None => [] end in
  if bool_decide (length core = 3) && forallb is_number core && forallb is_identifier prerelease
     && match build with Some t => is_build t | None => true end
  then Some (core, prerelease) else None.
Record Semver := MkSemver { sv_core : list jsnum; sv_prerelease : list text }.
Definition parseSemver (version : text) : option Semver :=
  '(core, prerelease) ← parts (trim version); Some (MkSemver (Number <$> core) prerelease).

Definition text_compare (a b : text) : comparison := if decide (a = b) then Eq else if text_leb a b then Lt else Gt.
Definition compareIdentifiers (a b : text) : option comparison :=
  if is_number a && is_number b then minus_sign (Number a) (Number b)
  else if is_number a then Some Lt
  else if is_number b then Some Gt
  else Some (text_compare a b).
(** The first difference; where one list ends first, it is the smaller. *)
Fixpoint compare_list {A} (f : A → A → option comparison) (xs ys : list A) : option comparison :=
  match xs, ys with
  | [], [] => Some Eq
  | [], _ :: _ => Some Lt
  | _ :: _, [] => Some Gt
  | x :: xs, y :: ys => match f x y with Some Eq => compare_list f xs ys | d => d end
  end.
Definition compareSemver (a b : Semver) : option comparison :=
  match compare_list minus_sign (sv_core a) (sv_core b) with
  | Some Eq =>
      if bool_decide (sv_prerelease a = [] ∨ sv_prerelease b = [])
      then Some (length (sv_prerelease b) ?= length (sv_prerelease a))
      else compare_list compareIdentifiers (sv_prerelease a) (sv_prerelease b)
  | d => d
  end.
Definition isOlderVersion (running expected : text) : bool :=
  match parseSemver running, parseSemver expected with
  | Some a, Some b => bool_decide (compareSemver a b = Some Lt)
  | _, _ => false
  end.

Example older_patch : isOlderVersion (txt "1.2.9") (txt "1.2.10") = true.
Proof. vm_compute. reflexivity. Qed.
Example older_prerelease : isOlderVersion (txt " 1.2.3-rc.2+b1 ") (txt "1.2.3") = true.
Proof. vm_compute. reflexivity. Qed.
Example not_a_version : isOlderVersion (txt "1.2") (txt "1.2.3") = false.
Proof. vm_compute. reflexivity. Qed.

(** ** Precedence *)

(** Lists, by their first difference, a shorter one first. *)
Inductive lex {A} (lt eq : A → A → Prop) : list A → list A → Prop :=
| lex_shorter y ys : lex lt eq [] (y :: ys)
| lex_here x y xs ys : lt x y → lex lt eq (x :: xs) (y :: ys)
| lex_later x y xs ys : eq x y → lex lt eq xs ys → lex lt eq (x :: xs) (y :: ys).
(** Identifiers: numbers by value, before words, those in the order of their characters. *)
Inductive id_lt : text → text → Prop :=
| lt_numbers a b : is_number a = true → is_number b = true → (digits_value a < digits_value b)%Z → id_lt a b
| lt_number_word a b : is_number a = true → is_number b = false → id_lt a b
| lt_words a b : is_number a = false → is_number b = false → text_le a b → a ≠ b → id_lt a b.
Definition id_eq (a b : text) : Prop :=
  a = b ∨ is_number a = true ∧ is_number b = true ∧ digits_value a = digits_value b.
Definition value_lt (a b : text) : Prop := (digits_value a < digits_value b)%Z.
Definition value_eq (a b : text) : Prop := digits_value a = digits_value b.
(** The numbers first; then a pre-release before its release, and two of them by their identifiers. *)
Definition precedes (p q : list text * list text) : Prop :=
  lex value_lt value_eq p.1 q.1 ∨
  Forall2 value_eq p.1 q.1 ∧ p.2 ≠ [] ∧ (q.2 = [] ∨ lex id_lt id_eq p.2 q.2).
(** A version whose numbers JavaScript has exactly. *)
Definition small (t : text) : Prop := (digits_value t < 2 ^ 53)%Z.
Definition exact (version : text) : Prop :=
  ∀ core prerelease, parts (trim version) = Some (core, prerelease) → Forall small core ∧ Forall small prerelease.

Section orders.
Context {A : Type} (f : A → A → option comparison).
Definition is_lt x y := f x y = Some Lt.
Definition is_eq x y := f x y = Some Eq.
Lemma compare_lt xs ys : compare_list f xs ys = Some Lt ↔ lex is_lt is_eq xs ys.
Proof.
  split.
  - revert ys. induction xs as [|x xs IH]; intros [|y ys]; try done; [intros _; constructor|]. cbn.
    destruct (f x y) as [[]|] eqn:Hf; try done; intros H; [apply lex_later; auto|by apply lex_here].
  - induction 1 as [|x y xs ys H|x y xs ys H _ IH]; [done| |]; cbn; by rewrite H.
Qed.
Lemma compare_eq xs ys : compare_list f xs ys = Some Eq ↔ Forall2 is_eq xs ys.
Proof.
  split.
  - revert ys. induction xs as [|x xs IH]; intros [|y ys]; try done; cbn.
    destruct (f x y) as [[]|] eqn:Hf; try done. intros H. constructor; auto.
  - induction 1 as [|x y xs ys H _ IH]; [done|]. cbn. by rewrite H.
Qed.

(** What makes a comparison an order; some pairs may not compare. *)
Record ordered : Prop := {
  or_irrefl x : ¬ is_lt x x;
  or_trans x y z : is_lt x y → is_lt y z → is_lt x z;
  or_lt_eq x y z : is_lt x y → is_eq y z → is_lt x z;
  or_eq_lt x y z : is_eq x y → is_lt y z → is_lt x z;
  or_eq x y z : is_eq x y → is_eq y z → is_eq x z
}.
Context (Hf : ordered).
Lemma lists_irrefl xs : ¬ lex is_lt is_eq xs xs.
Proof. induction xs as [|x xs IH]; inversion 1; subst; [by eapply or_irrefl|done]. Qed.
Lemma lists_trans xs ys zs : lex is_lt is_eq xs ys → lex is_lt is_eq ys zs → lex is_lt is_eq xs zs.
Proof.
  intros H. revert zs. induction H as [|x y xs ys H|x y xs ys H _ IH]; intros zs; inversion 1; subst.
  1,2: constructor.
  - apply lex_here. by eapply (or_trans Hf).
  - apply lex_here. by eapply (or_lt_eq Hf).
  - apply lex_here. by eapply (or_eq_lt Hf).
  - apply lex_later; [by eapply (or_eq Hf)|auto].
Qed.
Lemma lists_lt_eq xs ys zs : lex is_lt is_eq xs ys → Forall2 is_eq ys zs → lex is_lt is_eq xs zs.
Proof.
  intros H. revert zs. induction H as [|x y xs ys H|x y xs ys H _ IH]; intros zs; inversion 1; subst.
  - constructor.
  - apply lex_here. by eapply (or_lt_eq Hf).
  - apply lex_later; [by eapply (or_eq Hf)|auto].
Qed.
Lemma lists_eq_lt xs ys zs : Forall2 is_eq xs ys → lex is_lt is_eq ys zs → lex is_lt is_eq xs zs.
Proof.
  intros H. revert zs. induction H as [|x y xs ys H _ IH]; intros zs; inversion 1; subst.
  - constructor.
  - apply lex_here. by eapply (or_eq_lt Hf).
  - apply lex_later; [by eapply (or_eq Hf)|auto].
Qed.
Lemma lists_eq xs ys zs : Forall2 is_eq xs ys → Forall2 is_eq ys zs → Forall2 is_eq xs zs.
Proof.
  intros H. revert zs. induction H as [|x y xs ys H _ IH]; intros zs; inversion 1; subst; constructor;
    [by eapply (or_eq Hf)|auto].
Qed.
End orders.

Lemma minus_ordered : ordered minus_sign.
Proof.
  split; unfold is_lt, is_eq; [intros [a|]; [|done]|intros [a|] [b|] [c|]; try done..]; cbn; rewrite ?Z.compare_refl;
    try done;
    intros [= H1] [= H2]; f_equal; rewrite ?Z.compare_lt_iff, ?Z.compare_eq_iff in *; lia.
Qed.
Lemma text_compare_lt a b : text_compare a b = Lt ↔ text_le a b ∧ a ≠ b.
Proof. unfold text_compare, text_le. destruct (decide (a = b)), (text_leb a b); naive_solver. Qed.
Lemma text_compare_eq a b : text_compare a b = Eq ↔ a = b.
Proof. unfold text_compare. destruct (decide (a = b)), (text_leb a b); naive_solver. Qed.
Lemma identifiers_ordered : ordered compareIdentifiers.
Proof.
  destruct minus_ordered as [M1 M2 M3 M4 M5].
  assert (∀ a b c, text_compare a b = Lt → text_compare b c = Lt → text_compare a c = Lt) as Ht.
  { intros a b c. rewrite !text_compare_lt. intros [H1 N1] [H2 N2]. split; [by etransitivity|].
    intros ->. apply N1. by apply text_le_antisymm. }
  split; unfold is_lt, is_eq, compareIdentifiers in *.
  - intros a. destruct (is_number a); cbn; [apply M1|]. intros [= H%text_compare_lt]. naive_solver.
  - intros a b c. destruct (is_number a), (is_number b), (is_number c); cbn; try done; [apply M2|].
    intros [= H1] [= H2]. f_equal. by eapply Ht.
  - intros a b c. destruct (is_number a), (is_number b), (is_number c); cbn; try done; [apply M3|].
    intros H1 [= ->%text_compare_eq]. done.
  - intros a b c. destruct (is_number a), (is_number b), (is_number c); cbn; try done; [apply M4|].
    intros [= ->%text_compare_eq]. done.
  - intros a b c. destruct (is_number a), (is_number b), (is_number c); cbn; try done; [apply M5|].
    intros [= ->%text_compare_eq]. done.
Qed.

Notation core_lt := (lex (is_lt minus_sign) (is_eq minus_sign)).
Notation ids_lt := (lex (is_lt compareIdentifiers) (is_eq compareIdentifiers)).
Definition sv_lt (a b : Semver) : Prop :=
  core_lt (sv_core a) (sv_core b) ∨
  Forall2 (is_eq minus_sign) (sv_core a) (sv_core b) ∧ sv_prerelease a ≠ [] ∧
    (sv_prerelease b = [] ∨ ids_lt (sv_prerelease a) (sv_prerelease b)).
Lemma compareSemver_lt a b : compareSemver a b = Some Lt ↔ sv_lt a b.
Proof.
  unfold compareSemver, sv_lt. rewrite <- compare_lt, <- compare_eq.
  destruct (compare_list minus_sign _ _) as [[]|]; try naive_solver.
  rewrite <- compare_lt. destruct (sv_prerelease a) as [|x xs], (sv_prerelease b) as [|y ys]; cbn; naive_solver.
Qed.
Lemma sv_irrefl a : ¬ sv_lt a a.
Proof.
  intros [H|(_ & Hn & [H|H])]; [by eapply lists_irrefl; [apply minus_ordered|]|done|].
  by eapply lists_irrefl; [apply identifiers_ordered|].
Qed.
Lemma sv_trans a b c : sv_lt a b → sv_lt b c → sv_lt a c.
Proof.
  pose proof minus_ordered as Hm. pose proof identifiers_ordered as Hi.
  intros [H1|(E1 & N1 & H1)] [H2|(E2 & N2 & H2)].
  - left. by eapply lists_trans.
  - left. by eapply lists_lt_eq.
  - left. by eapply lists_eq_lt.
  - right. split; [by eapply lists_eq|]. split; [done|]. destruct H1 as [H1|H1]; [done|].
    destruct H2 as [H2|H2]; [by left|].
    right. by eapply lists_trans.
Qed.

(** Over exact numbers. *)
Lemma digits_nonneg t : forallb is_digit t = true → (0 <= digits_value t)%Z.
Proof.
  unfold digits_value. intros Ht. assert (∀ n, 0 <= n → 0 <= fold_left (λ n c, n * 10 + (Z.of_N c - 48)) t n)%Z as Hf;
    [|by apply Hf].
  induction t as [|c t IH]; intros n Hn; [done|]. cbn in *. rewrite andb_true_iff in Ht. destruct Ht as [Hc Ht].
  apply IH; [done|]. unfold is_digit, in_range in Hc. rewrite andb_true_iff, !N.leb_le in Hc.
    change (ch "0"%char) with 48%N in Hc. lia.
Qed.
Lemma Number_small t : small t → Number t = fin (digits_value t).
Proof.
  unfold small, Number, round53. intros Ht. destruct (Z.ltb_spec (digits_value t) (2 ^ 53)); [|lia].
  destruct (Z.ltb_spec (digits_value t) (2 ^ 1024)) as [|H1]; [done|].
  exfalso. assert (2 ^ 53 <= 2 ^ 1024)%Z by (apply Z.pow_le_mono_r; lia). lia.
Qed.
Lemma small_sign a b : small a → small b → minus_sign (Number a) (Number b) = Some (digits_value a ?= digits_value b)%Z.
Proof. intros Ha Hb. by rewrite !Number_small. Qed.
Lemma small_identifiers a b : small a → small b →
  (is_lt compareIdentifiers a b ↔ id_lt a b) ∧ (is_eq compareIdentifiers a b ↔ id_eq a b).
Proof.
  intros Ha Hb. unfold is_lt, is_eq, compareIdentifiers. rewrite small_sign by done. split.
  - destruct (is_number a) eqn:Na, (is_number b) eqn:Nb; cbn.
    + split; [intros [= H]; by apply lt_numbers; [..|apply Z.compare_lt_iff]|]. inversion 1; subst; try congruence.
    + split; [intros _; by apply lt_number_word|done].
    + split; [done|]. inversion 1; congruence.
    + split; [intros [= [H1 H2]%text_compare_lt]; by apply lt_words|]. inversion 1; subst; try congruence. f_equal.
      by apply text_compare_lt.
  - unfold id_eq. destruct (is_number a) eqn:Na, (is_number b) eqn:Nb; cbn.
    + split; [intros [= H%Z.compare_eq_iff]; auto|]. intros [->|(_ & _ & ->)]; by rewrite Z.compare_refl.
    + split; [done|intros [->|(_ & ? & _)]; congruence].
    + split; [done|intros [->|(? & _ & _)]; congruence].
    + split; [intros [= H%text_compare_eq]; by left|]. intros [->|?]; [|naive_solver]. f_equal.
      by apply text_compare_eq.
Qed.
Lemma small_values a b : small a → small b →
  (is_lt minus_sign (Number a) (Number b) ↔ value_lt a b) ∧ (is_eq minus_sign (Number a) (Number b) ↔ value_eq a b).
Proof.
  intros Ha Hb. unfold is_lt, is_eq, value_lt, value_eq. rewrite small_sign by done.
  pose proof (Z.compare_lt_iff (digits_value a) (digits_value b)).
    pose proof (Z.compare_eq_iff (digits_value a) (digits_value b)).
  split; split; [intros [= ?]; tauto|intros; f_equal; tauto|intros [= ?]; tauto|intros; f_equal; tauto].
Qed.
(** Two comparisons that agree on the elements there are. *)
Lemma lex_agree {A B} (lt eq : A → A → Prop) (lt' eq' : B → B → Prop) (g : A → B) (P : A → Prop) xs ys :
  (∀ x y, P x → P y → (lt' (g x) (g y) ↔ lt x y) ∧ (eq' (g x) (g y) ↔ eq x y)) → Forall P xs → Forall P ys →
  (lex lt' eq' (g <$> xs) (g <$> ys) ↔ lex lt eq xs ys) ∧ (Forall2 eq' (g <$> xs) (g <$> ys) ↔ Forall2 eq xs ys).
Proof.
  intros Hg Hx. revert ys. induction Hx as [|x xs Hx Hxs IH]; intros [|y ys] Hy; cbn.
  - split; [split; inversion 1|done].
  - split; [split; constructor|split; inversion 1].
  - split; split; inversion 1.
  - inversion Hy as [|?? Py Hys]; subst. destruct (Hg x y Hx Py) as [G1 G2]. destruct (IH ys Hys) as [I1 I2]. split.
    + split; inversion 1; subst; [apply lex_here|apply lex_later|apply lex_here|apply lex_later]; naive_solver.
    + rewrite !Forall2_cons. naive_solver.
Qed.

(** C35: An agent is older than the hub when both versions are, as semver orders them: where JavaScript has
    their numbers exactly, in the precedence of semver, a pre-release before its release, and numbers
    before words; and whatever the numbers, none is older than itself, and older than an older one is
    older: the hub never replaces an agent by one it would replace in turn. *)
Theorem older_versions :
  (∀ a b, exact a → exact b →
     isOlderVersion a b = true ↔ ∃ p q, parts (trim a) = Some p ∧ parts (trim b) = Some q ∧ precedes p q) ∧
  (∀ a, isOlderVersion a a = false) ∧
  (∀ a b c, isOlderVersion a b = true → isOlderVersion b c = true → isOlderVersion a c = true).
Proof.
  unfold isOlderVersion. split; [|split].
  - intros a b Ha Hb. unfold parseSemver. destruct (parts (trim a)) as [[ca pa]|] eqn:Ea; [|naive_solver].
    destruct (parts (trim b)) as [[cb pb]|] eqn:Eb; [|naive_solver]. cbn [mbind option_bind].
    destruct (Ha _ _ Ea) as [Sa Ta]. destruct (Hb _ _ Eb) as [Sb Tb].
    rewrite bool_decide_eq_true, compareSemver_lt. transitivity (precedes (ca, pa) (cb, pb)); [|naive_solver].
    unfold sv_lt, precedes. cbn [sv_core sv_prerelease fst snd].
    destruct (lex_agree value_lt value_eq (is_lt minus_sign) (is_eq minus_sign) Number small ca cb) as [-> ->];
      [|done..|].
    { apply small_values. }
    destruct (lex_agree id_lt id_eq (is_lt compareIdentifiers) (is_eq compareIdentifiers) id small pa pb) as [H _];
      [apply small_identifiers|done..|]. rewrite !list_fmap_id in H. by rewrite H.
  - intros a. destruct (parseSemver a) as [v|]; [|done]. apply bool_decide_eq_false_2. rewrite compareSemver_lt.
    apply sv_irrefl.
  - intros a b c. destruct (parseSemver a), (parseSemver b), (parseSemver c); try done.
    rewrite !bool_decide_eq_true, !compareSemver_lt. apply sv_trans.
Qed.
