(* ===== verification/AgentRetirement.v ===== *)
(** * Retiring an agent older than the hub ([session/agent-retirement.ts])

    With [requestDaemonStop] ([session/daemon-stop.ts]) and what calls it in [session-manager.ts]: a
    SPAWN and a restart, which wait for it and are counted, a session deleted, Replace. The hub is
    [ChannelLifecycle]'s, and tells when an agent may be idle by what it logs. A retirement is cut at
    each [await]: its STOP asked, answered, the agent beside the hub started, over; so is a start
    that waits for one. A timer may fire at any later step. Stop keeping an agent is only that its
    host is being stopped; of Replace, the acquisitions are an argument, and a reconnect begun is
    what the hub hears of it; of a session deleted, its acquisition and its uploads are
    [HostLink]'s. *)

From S2P Require Import Prelude JsMap Text Versions ChannelData ChannelTrackers StateBroadcaster ChannelLifecycle.
#[local] Open Scope lasterm_scope.

(** ** Data *)

(** What an agent answers a STOP, or what came instead. *)
Inductive StopOutcome :=
| st_stopped | st_displaced | st_closed_by_hub | st_refused (otherOwnerChannels : option Z)
| st_error (code : string) | st_timeout | st_unsent.
Inductive Outcome := retired | kept_for_others (otherOwnerChannels : option Z) | unconfirmed (reason : string).
Definition retirementOutcome (stop : StopOutcome) : Outcome :=
  match stop with
  | st_stopped => retired
  | st_refused n => kept_for_others n
  | st_error code => unconfirmed code
  | st_unsent => unconfirmed "unsent"
  | st_displaced => unconfirmed "displaced"
  | st_closed_by_hub => unconfirmed "closed_by_hub"
  | st_timeout => unconfirmed "timeout"
  end.
(** An ERROR of an agent: its code, whether it names a terminal, and the count it states. *)
Record AgentError := MkError { er_code : string; er_channel : bool; er_count : option Z }.
Definition MAX_SAFE_INTEGER : Z := 2 ^ 53 - 1.
Definition countInRefusal (e : AgentError) : option Z :=
  match er_count e with Some n => if (0 <=? n)%Z && (n <=? MAX_SAFE_INTEGER)%Z then Some n else None | None => None end.
(** What an ERROR makes of a STOP that waits; [None]: it is of a terminal, and the STOP waits on. *)
Definition answer_of (e : AgentError) : option StopOutcome :=
  if er_channel e then None
  else Some (if String.eqb (er_code e) "DISPLACED" then st_displaced
             else if String.eqb (er_code e) "OTHER_HUBS_HOLD_CHANNELS" then st_refused (countInRefusal e)
             else st_error (er_code e)).

(** What a STOP is asked for, and how far it is. [running]: the version read as it began. *)
Inductive For := for_retirement (let_go : bool) (running : text) | for_replace (force : bool).
Inductive Phase :=
| asked | answered (stop : StopOutcome) | starting_local (session : SessionId) | commanding | over (o : Outcome).
Record Run := MkRun { ru_host : HostId; ru_agent : nat; ru_for : For; ru_phase : Phase }.
(** A start that is counted: until the SPAWN at [n] has its answer, or a terminal is released. *)
Inductive Until := until_answer (n : nat) | until_released (ch : ChannelId).
(** What waits until no retirement is under way on a host; [true]: it has seen there is none. *)
Inductive Op :=
| op_spawn (n : nat) | op_restart (ch : ChannelId) | op_delete (host : HostId) (session : SessionId)
| op_replace (host : HostId) (force stopTransfers : bool).
Record Settling := MkSettling { se_host : HostId; se_op : Op; se_seen : bool }.
(** A start once its host is reached, and a retirement begun under it: it waits for that, then for
    the host to be reached again. A restart that waits for the one it may have begun. *)
Record Ready := MkReady { rd_wait : nat; rd_spawn : Spawning; rd_after : nat; rd_reaching : bool }.
Record Pending := MkPending { pe_wait : nat; pe_host : option HostId; pe_after : option nat }.
Inductive Answer :=
| busy | replaced | not_connected | on_stdio | transfers_would_stop (n : nat)
| not_older | still_live (n : nat) | same_again | start_under_way
| not_confirmed | stop_failed (stop : StopOutcome).
Inductive Sent := asked_to_stop (a : nat) (force : bool) | ended (a : nat) | interrupted (host :
  HostId) | said (host : HostId) (r : Answer).

Record Ret {Sc Ou : Type} := MkRet {
  rt_hub : StateBroadcaster.Hub Sc Ou Wait;
  rt_closedByHub : list nat; rt_uploads : jsmap HostId nat; rt_keeping : list HostId;
  rt_underWay : jsmap HostId nat; rt_starts : jsmap HostId nat; rt_retired : jsmap HostId text;
  rt_runs : jsmap nat Run; rt_outcomes : jsmap nat Outcome; rt_ends : list (HostId * Until);
  rt_settling : jsmap nat Settling; rt_ready : jsmap nat Ready; rt_pending : jsmap nat Pending;
  rt_replying : list (HostId * nat); rt_next : nat; rt_log : list Sent
}.
Arguments Ret : clear implicits.
#[export] Instance ret_fields {Sc Ou} : Fields (Ret Sc Ou) := λ r,
  MkRet Sc Ou (rt_hub r) (rt_closedByHub r) (rt_uploads r) (rt_keeping r) (rt_underWay r) (rt_starts r) (rt_retired r)
    (rt_runs r) (rt_outcomes r) (rt_ends r) (rt_settling r) (rt_ready r) (rt_pending r) (rt_replying r) (rt_next r)
      (rt_log r).
#[export] Instance set_rt_hub {Sc Ou} : Setter (@rt_hub Sc Ou). Proof. derive_setter. Defined.
#[export] Instance set_rt_closedByHub {Sc Ou} : Setter (@rt_closedByHub Sc Ou). Proof. derive_setter. Defined.
#[export] Instance set_rt_uploads {Sc Ou} : Setter (@rt_uploads Sc Ou). Proof. derive_setter. Defined.
#[export] Instance set_rt_keeping {Sc Ou} : Setter (@rt_keeping Sc Ou). Proof. derive_setter. Defined.
#[export] Instance set_rt_underWay {Sc Ou} : Setter (@rt_underWay Sc Ou). Proof. derive_setter. Defined.
#[export] Instance set_rt_starts {Sc Ou} : Setter (@rt_starts Sc Ou). Proof. derive_setter. Defined.
#[export] Instance set_rt_retired {Sc Ou} : Setter (@rt_retired Sc Ou). Proof. derive_setter. Defined.
#[export] Instance set_rt_runs {Sc Ou} : Setter (@rt_runs Sc Ou). Proof. derive_setter. Defined.
#[export] Instance set_rt_outcomes {Sc Ou} : Setter (@rt_outcomes Sc Ou). Proof. derive_setter. Defined.
#[export] Instance set_rt_ends {Sc Ou} : Setter (@rt_ends Sc Ou). Proof. derive_setter. Defined.
#[export] Instance set_rt_settling {Sc Ou} : Setter (@rt_settling Sc Ou). Proof. derive_setter. Defined.
#[export] Instance set_rt_ready {Sc Ou} : Setter (@rt_ready Sc Ou). Proof. derive_setter. Defined.
#[export] Instance set_rt_pending {Sc Ou} : Setter (@rt_pending Sc Ou). Proof. derive_setter. Defined.
#[export] Instance set_rt_replying {Sc Ou} : Setter (@rt_replying Sc Ou). Proof. derive_setter. Defined.
#[export] Instance set_rt_next {Sc Ou} : Setter (@rt_next Sc Ou). Proof. derive_setter. Defined.
#[export] Instance set_rt_log {Sc Ou} : Setter (@rt_log Sc Ou). Proof. derive_setter. Defined.

(** The version of the hub, and what each connection is known of: the version its agent said, and
    whether it reaches a daemon on a remote host. *)
Class Versions := { HUB_VERSION : text; agentVersion : nat → option text; usedRemoteDaemon : nat → bool }.

Section retirement.
Context `{!Setup} {Sc Ou : Type} `{!Screens Sc, !Outputs Ou} `{!Versions}.
Notation Ret := (Ret Sc Ou).
Notation Hub := (Hub Sc Ou Wait).
Implicit Types (r : Ret) (h : Hub) (host : HostId) (a n p i : nat).

Definition put (s : Sent) r : Ret := r <{ rt_log ::= λ l, l ++ [s] }>.
Definition stopping host r : bool := bool_decide (host ∈ h_stopping (rt_hub r)).
Definition quitting r : bool := h_quitting (rt_hub r).
Definition connected a r : bool := bool_decide (a ∈ h_connected (rt_hub r)).
Definition agent_of host r : option nat := h_agents (rt_hub r) !! host.
Definition exec_hub (e : ChannelLifecycle.Ev) r : Ret := r <{ rt_hub ::= ChannelLifecycle.exec e }>.
Definition set_phase p (ph : Phase) r : Ret := r <{ rt_runs ::= js_alter (λ ru,
  MkRun (ru_host ru) (ru_agent ru) (ru_for ru) ph) p }>.

(** ** Asking for the stop *)

Definition isUnderWay host r : bool := js_has host (rt_underWay r).
Definition starts_on host r : nat := default 0 (rt_starts r !! host).
Definition isStarting host r : bool := 0 <? starts_on host r.
Definition wasRetired host (version : text) r : bool := bool_decide (rt_retired r !! host = Some version).
Definition transfersOn host r : nat := default 0 (rt_uploads r !! host).
Definition live_on host r : nat :=
  length (filter (λ c, cs_hostId c = host ∧ cs_status c ≠ dead) (omap (λ ch,
    channel_of ch (rt_hub r)) (js_keys (h_channels (rt_hub r))))).
Definition is_daemon host a : bool := if host_is_ssh host then usedRemoteDaemon a else true.
Definition qualifies host a r : bool :=
  if quitting r || stopping host r || isStarting host r || negb (connected a r) then false
  else
    match agentVersion a with
    | None => false
    | Some running =>
        isOlderVersion running HUB_VERSION && negb (wasRetired host running r) && host_is_known host && is_daemon host
          a &&
        (live_on host r =? 0) && negb (host_is_ssh host && (0 <? transfersOn host r))
    end.

(** [releaseAgent]; and a connection ended by the hub. *)
Definition releaseAgent host a r : Ret :=
  if bool_decide (agent_of host r = Some a) then
    let r := exec_hub (DropAgent host) r in if quitting r then r else exec_hub (Announce host) r
  else r.
Definition close_agent a r : Ret := r <{ rt_closedByHub ::= set_add a }> |> exec_hub (Down a) |> put (ended a).
(** [requestDaemonStop]: a remote connection that is down throws, one to the agent beside the hub says nothing. *)
Definition requestDaemonStop host a (for_ : For) r : nat * Ret :=
  let p := rt_next r in
  let force := match for_ with for_replace force => force | _ => false end in
  let ph := if host_is_ssh host && negb (connected a r) then answered st_unsent else asked in
  let r := r <{ rt_runs ::= <[p := MkRun host a for_ ph]> }> <{ rt_next ::= S }> in
  (p, if connected a r then put (asked_to_stop a force) r else r).
Definition begin host a (let_go : bool) r : nat * Ret :=
  let r := exec_hub (Stopping host true) r <{ rt_underWay ::= <[host := rt_next r]> }> in
  requestDaemonStop host a (for_retirement let_go (default [] (agentVersion a))) r.
Definition retireIfIdle host r : option nat * Ret :=
  match rt_underWay r !! host with
  | Some p => (Some p, r)
  | None =>
      match agent_of host r with
      | Some a => if qualifies host a r then let '(p, r) := begin host a false r in (Some p, r) else (None, r)
      | None => (None, r)
      end
  end.
Definition retireDetached host a r : bool * Ret :=
  if isUnderWay host r || negb (qualifies host a r) then (false, r) else (true, (begin host a true r).2).

(** ** Starts counted *)

Definition startOn host (u : Until) r : Ret :=
  r <{ rt_starts ::= <[host := S (starts_on host r)]> }> <{ rt_ends ::= λ l, l ++ [(host, u)] }>.
Definition is_over h (u : Until) : bool :=
  match u with
  | until_answer n => match h_waits h !! n with Some (w_spawn _) => false | _ => true end
  | until_released ch => negb (bool_decide (ch ∈ h_starting h))
  end.
(** The function [startOn] returns, called once: what is over is not in [rt_ends] any more. *)
Definition endStart host r : Ret :=
  match pred (default 1 (rt_starts r !! host)) with
  | 0 => (retireIfIdle host (r <{ rt_starts ::= delete host }>)).2
  | S _ as rest => r <{ rt_starts ::= <[host := rest]> }>
  end.
Definition starts_over r : Ret :=
  let ended := filter (λ e, is_over (rt_hub r) e.2 = true) (rt_ends r) in
  fold_left (λ r host, endStart host r) ended.*1 (r <{ rt_ends ::= filter (λ e, is_over (rt_hub r) e.2 = false) }>).
Definition idle_of (o : Output) : option HostId := match o with may_be_idle host => Some host | _ => None end.
(** What happens in the hub, the agents it says may be idle, and the starts it ends. *)
Definition on_hub (e : ChannelLifecycle.Ev) r : Ret :=
  let r' := exec_hub e r in
  let idle := omap idle_of (drop (length (h_log (rt_hub r))) (h_log (rt_hub r'))) in
  fold_left (λ r host, (retireIfIdle host r).2) idle r' |> starts_over.

(** ** A stop answered *)

Definition finish p (stop : StopOutcome) r : Ret :=
  match rt_runs r !! p with
  | Some ru => match ru_phase ru with asked => set_phase p (answered stop) r | _ => r end
  | None => r
  end.
(** [onClose]. *)
Definition stop_closed a r p : Ret :=
  match rt_runs r !! p with
  | Some ru =>
      match ru_phase ru with
      | asked =>
          if negb (bool_decide (ru_agent ru = a)) then r
          else if bool_decide (a ∈ rt_closedByHub r) || quitting r then finish p st_closed_by_hub r
          else r <{ rt_closedByHub ::= set_add a }> |> releaseAgent (ru_host ru) a |> finish p st_stopped
      | _ => r
      end
  | None => r
  end.
Definition stop_error a (e : AgentError) r p : Ret :=
  match rt_runs r !! p, answer_of e with
  | Some ru, Some stop => if bool_decide (ru_agent ru = a) then finish p stop r else r
  | _, _ => r
  end.
(** The listeners put first hear first. *)
Definition listeners r : list nat := rev (js_keys (rt_runs r)).
Definition agent_closes host a (reconnects : bool) r : Ret :=
  fold_left (stop_closed a) (listeners r) (exec_hub (Down a) r) |> on_hub (AgentClosed host a reconnects).
Definition agent_says host a (e : AgentError) r : Ret :=
  let r := fold_left (stop_error a e) (listeners r) r in
  if String.eqb (er_code e) "DISPLACED" then on_hub (Displaced host a) r |> close_agent a else r.

(** [retire], once its STOP has come to something. *)
Definition retire_over p ru (running : text) (let_go : bool) (stop : StopOutcome) r : Ret :=
  let host := ru_host ru in
  let r := exec_hub (Stopping host false) r in
  match retirementOutcome stop with
  | retired =>
      let r := r <{ rt_retired ::= <[host := running]> }> in
      match session_of host (rt_hub r) with
      | Some s =>
          if let_go || quitting r || host_is_ssh host || negb (host_is_known host)
          then set_phase p (over retired) r else set_phase p (starting_local (ss_id s)) r
      | None => set_phase p (over retired) r
      end
  | o => (if let_go then close_agent (ru_agent ru) r else r) |> set_phase p (over o)
  end.
(** Replace's way out: a host left disconnected is reached for; [acquiring]: it has an acquisition open. *)
Definition reconnects host (acquiring : bool) r : Ret :=
  match session_of host (rt_hub r) with
  | Some s =>
      if bool_decide (ss_status s = disconnected ∧ agent_of host r = None ∧ host ∉ h_reconnecting (rt_hub r) ∧
                      host ∉ h_userDisconnected (rt_hub r)) && negb acquiring && negb (quitting r)
      then exec_hub (Reaching host true) r else r
  | None => r
  end.
(** [replaceAgent], once its stop is known. *)
Definition replace_over p host (acquiring : bool) (answer : Answer) r : Ret :=
  let r := match answer with replaced => on_hub (AgentStopped host) r | _ => r end in
  exec_hub (Stopping host false) r <{ rt_runs ::= delete p }> |> put (said host answer) |> reconnects host acquiring.
Definition resume p (acquiring : bool) r : Ret :=
  match rt_runs r !! p with
  | Some ru =>
      match ru_phase ru, ru_for ru with
      | answered stop, for_retirement let_go running => retire_over p ru running let_go stop r
      | answered st_unsent, for_replace _ => set_phase p commanding r
      | answered st_stopped, for_replace _ => replace_over p (ru_host ru) acquiring replaced r
      | answered stop, for_replace _ => replace_over p (ru_host ru) acquiring (stop_failed stop) r
      | _, _ => r
      end
  | None => r
  end.
(** The agent's own [--stop], run over the connection. *)
Definition commanded p (ok acquiring : bool) r : Ret :=
  match rt_runs r !! p with
  | Some ru =>
      match ru_phase ru, ru_for ru with
      | commanding, for_replace _ =>
          if ok
          then close_agent (ru_agent ru) r |> releaseAgent (ru_host ru) (ru_agent ru) |> replace_over p (ru_host ru)
            acquiring replaced
          else replace_over p (ru_host ru) acquiring (stop_failed st_unsent) r
      | _, _ => r
      end
  | None => r
  end.
(** [startLocalAgent] came back. *)
Definition local_started p (ok : bool) r : Ret :=
  match rt_runs r !! p with
  | Some ru =>
      match ru_phase ru with
      | starting_local session =>
          let host := ru_host ru in
          (if ok || quitting r || negb (bool_decide (ss_id <$> session_of host (rt_hub r) = Some session)) then r
           else exec_hub (SessionIs host session disconnected) r) |> set_phase p (over retired)
      | _ => r
      end
  | None => r
  end.
(** What a Replace that waits for the retirement is answered. *)
Definition replaced_by (o : Outcome) : Answer :=
  match o with retired => replaced | kept_for_others n => stop_failed (st_refused n) | unconfirmed _ => not_confirmed
    end.
Definition replies p (o : Outcome) r : Ret :=
  fold_left (λ r e, put (said e.1 (replaced_by o)) r) (filter (λ e, e.2 = p) (rt_replying r))
    (r <{ rt_replying ::= filter (λ e, e.2 ≠ p) }>).
(** Out of the map before who waits hears of it. *)
Definition settled p r : Ret :=
  match rt_runs r !! p with
  | Some ru =>
      match ru_phase ru, ru_for ru with
      | over o, for_retirement _ _ =>
          let r := if bool_decide (rt_underWay r !! ru_host ru = Some p) then r <{ rt_underWay ::= delete (ru_host ru)
            }> else r in
          r <{ rt_runs ::= delete p }> <{ rt_outcomes ::= <[p := o]> }> |> replies p o
      | _, _ => r
      end
  | None => r
  end.

(** ** What waits for it *)

Definition set_agent a (s : Spawning) : Spawning :=
  MkSpawning (sp_client s) (sp_host s) a (sp_session s) (sp_config s) (sp_profile s) (sp_cols s) (sp_rows s) (sp_reuse
    s).
(** Counted with nothing awaited since its agent was chosen, and sent. *)
Definition start n (s : Spawning) r : Ret :=
  startOn (sp_host s) (until_answer (h_nextId (rt_hub r))) r |> on_hub (SpawnReached n (Some s)).
Definition its_spawn n (s : Spawning) h : bool :=
  match h_waits h !! n with
  | Some (w_spawnReach c host reuse) => bool_decide (sp_client s = c ∧ sp_host s = host ∧ sp_reuse s = reuse)
  | _ => false
  end.
Definition not_started n (s : Spawning) r : Ret :=
  if its_spawn n s (rt_hub r) then
  r <{ rt_hub ::= λ h, drop_wait n h
         |> tell (ERROR (if host_is_ssh (sp_host s) then "SSH_CONNECT_FAILED" else "AGENT_ERROR") (sp_reuse s))
           (sp_client s)
         |> ChannelLifecycle.release (sp_reuse s) }>
  else r.
(** [spawnOnHost], its host reached. *)
Definition spawn_reached n (s : Spawning) r : Ret :=
  if its_spawn n s (rt_hub r) && negb (bool_decide (n ∈ rd_wait <$> js_values (rt_ready r))) then
    match retireIfIdle (sp_host s) r with
    | (None, r) => start n s r
    | (Some p, r) => r <{ rt_ready ::= <[rt_next r := MkReady n s p false]> }> <{ rt_next ::= S }>
    end
  else r.
(** [agentAfterRetirement]: the agent there is now, or one reached again. *)
Definition after_retirement i r : Ret :=
  match rt_ready r !! i with
  | Some w =>
      if rd_reaching w || negb (js_has (rd_after w) (rt_outcomes r)) then r
      else
        let s := rd_spawn w in
        let r := r <{ rt_ready ::= delete i }> in
        let again :=
          if quitting r || negb (host_is_ssh (sp_host s)) && negb (js_has (sp_host s) (h_sessions (rt_hub r)))
          then not_started (rd_wait w) s r
          else r <{ rt_ready ::= <[i := MkReady (rd_wait w) s (rd_after w) true]> }> in
        match agent_of (sp_host s) r with
        | Some a => if connected a r then start (rd_wait w) (set_agent a s) r else again
        | None => again
        end
  | None => r
  end.
(** It was, by [reached]: for a remote host, [onReconnectAgent] came back; else, the agent
    [connectDaemonAgent] gave. *)
Definition reached_again i (reached : option nat) r : Ret :=
  match rt_ready r !! i with
  | Some w =>
      if rd_reaching w then
        let s := rd_spawn w in
        let r := r <{ rt_ready ::= delete i }> in
        let a := match reached with
          | Some a =>
              if host_is_ssh (sp_host s) then
                match agent_of (sp_host s) r with Some a => if connected a r then Some a else None | None => None end
              else Some a
          | None => None
          end in
        match a with Some a => start (rd_wait w) (set_agent a s) r | None => not_started (rd_wait w) s r end
      else r
  | None => r
  end.

(** [restartChannel]: claimed, then the agent retired if it is to be, then counted. *)
Definition restart_asked (ch : ChannelId) r : Ret :=
  let n := h_nextId (rt_hub r) in
  let r := on_hub (Restart ch) r in
  match h_waits (rt_hub r) !! n with
  | Some (w_restartBegin _) =>
      let host := snd <$> getChannelWithHost ch (rt_hub r) in
      let '(after, r) := match host with Some host => retireIfIdle host r | None => (None, r) end in
      r <{ rt_pending ::= <[rt_next r := MkPending n host after]> }> <{ rt_next ::= S }>
  | _ => r
  end.
Definition restart_goes i r : Ret :=
  match rt_pending r !! i with
  | Some w =>
      if match pe_after w with Some p => js_has p (rt_outcomes r) | None => true end then
        let r := r <{ rt_pending ::= delete i }> in
        match h_waits (rt_hub r) !! pe_wait w, pe_host w with
        | Some (w_restartBegin ch), Some host => startOn host (until_released ch) r |> on_hub (RestartGoes (pe_wait w))
        | _, _ => on_hub (RestartGoes (pe_wait w)) r
        end
      else r
  | None => r
  end.

(** [closeSession], of a session deleted: its agent let go of first. *)
Definition session_deleted host (session : SessionId) r : Ret :=
  if stopping host r then put (said host busy) r
  else if bool_decide (ss_id <$> session_of host (rt_hub r) = Some session) then
    let a := agent_of host r in
    let r := exec_hub (DropAgent host) r |> on_hub (CloseSession host session (Some killed)) in
    match a with
    | Some a => let '(taken, r) := retireDetached host a r in if taken then r else close_agent a r
    | None => r
    end
  else r.

Definition kept_why host r : option Answer :=
  match agent_of host r with
  | Some a =>
      if negb (connected a r) then Some not_connected
      else match agentVersion a with
           | None => Some not_older
           | Some running =>
               if negb (isOlderVersion running HUB_VERSION) then Some not_older
               else if 0 <? live_on host r then Some (still_live (live_on host r))
               else if wasRetired host running r then Some same_again else None
           end
  | None => Some not_connected
  end.
Definition replaceLocalAgent host r : Ret :=
  match kept_why host r with
  | Some a => put (said host a) r
  | None =>
      match retireIfIdle host r with
      | (None, r) => put (said host start_under_way) r
      | (Some p, r) => r <{ rt_replying ::= λ l, l ++ [(host, p)] }>
      end
  end.
Definition replaceAgent host (force stopTransfers : bool) r : Ret :=
  if stopping host r then put (said host busy) r
  else if host_is_known host && negb (host_is_ssh host) then replaceLocalAgent host r
  else
    match (if host_is_ssh host then agent_of host r else None) with
    | Some a =>
        if negb (connected a r) then put (said host not_connected) r
        else if negb (usedRemoteDaemon a) then put (said host on_stdio) r
        else
          let transfers := transfersOn host r in
          if (0 <? transfers) && negb stopTransfers
          then put (said host (transfers_would_stop transfers)) r |> reconnects host false
          else
            let r := exec_hub (Stopping host true) r in
            let r := if 0 <? transfers then put (interrupted host) r else r in
            (requestDaemonStop host a (for_replace force) r).2
    | None => put (said host not_connected) r
    end.

Definition go (o : Op) r : Ret :=
  match o with
  | op_spawn n => on_hub (SpawnGoes n) r
  | op_restart ch => restart_asked ch r
  | op_delete host session => session_deleted host session r
  | op_replace host force stopTransfers => replaceAgent host force stopTransfers r
  end.
Definition op_host (o : Op) r : option HostId :=
  match o with
  | op_spawn n => match h_waits (rt_hub r) !! n with Some (w_spawnOnHost _ host _ _) => Some host | _ => None end
  | op_restart ch => snd <$> getChannelWithHost ch (rt_hub r)
  | op_delete host session => fst <$> h_sessionRows (rt_hub r) !! session
  | op_replace host _ _ => Some host
  end.
(** [settled]: it looks again each time one is over; its caller goes on at a turn of its own. *)
Definition ask_op (o : Op) r : Ret :=
  match op_host o r with
  | Some host =>
      if isUnderWay host r
      then r <{ rt_settling ::= <[rt_next r := MkSettling host o false]> }> <{ rt_next ::= S }>
      else go o r
  | None => go o r
  end.
Definition seen i r : Ret :=
  match rt_settling r !! i with
  | Some w => if isUnderWay (se_host w) r then r
              else r <{ rt_settling ::= js_alter (λ w, MkSettling (se_host w) (se_op w) true) i }>
  | None => r
  end.
Definition goes_on i r : Ret :=
  match rt_settling r !! i with
  | Some w => if se_seen w then r <{ rt_settling ::= delete i }> |> go (se_op w) else r
  | None => r
  end.

(** ** Steps *)

(** What happens in the hub by itself; the rest goes through the retirement. *)
Definition of_the_hub (e : ChannelLifecycle.Ev) : bool :=
  match e with
  | SpawnGoes _ | SpawnReached _ (Some _) | Restart _ | RestartGoes _ | Stopping _ _ | AgentStopped _
  | AgentClosed _ _ _ | Displaced _ _ => false
  | _ => true
  end.
Inductive REv :=
| OfTheHub (e : ChannelLifecycle.Ev) | Asked (o : Op) | SpawnReady n (s : Spawning) | AfterRetirement i
| ReachedAgain i (reached : option nat) | RestartPasses i | Seen i | GoesOn i
| AgentCloses host a (reconnects : bool) | AgentSays host a (e : AgentError) | StopTimer p
| Resume p (acquiring : bool) | Commanded p (ok acquiring : bool) | LocalStarted p (ok : bool) | Settled p
| Keeping host (on : bool) | Uploads host n.
Definition exec (e : REv) r : Ret :=
  match e with
  | OfTheHub e => if of_the_hub e then on_hub e r else r
  | Asked o => ask_op o r
  | SpawnReady n s => spawn_reached n s r
  | AfterRetirement i => after_retirement i r
  | ReachedAgain i reached => reached_again i reached r
  | RestartPasses i => restart_goes i r
  | Seen i => seen i r
  | GoesOn i => goes_on i r
  | AgentCloses host a reconnects => agent_closes host a reconnects r
  | AgentSays host a e => agent_says host a e r
  | StopTimer p => finish p st_timeout r
  | Resume p acquiring => resume p acquiring r
  | Commanded p ok acquiring => commanded p ok acquiring r
  | LocalStarted p ok => local_started p ok r
  | Settled p => settled p r
  | Keeping host on =>
      if on then
        if stopping host r then r
        else exec_hub (Stopping host true) r <{ rt_keeping ::= set_add host }>
      else if bool_decide (host ∈ rt_keeping r)
           then exec_hub (Stopping host false) r <{ rt_keeping ::= set_delete host }> else r
  | Uploads host n =>
      let r := r <{ rt_uploads ::= <[host := n]> }> in
      if n =? 0 then (retireIfIdle host r).2 else r
  end.
Definition step r (e : Z * REv) : Ret := exec e.2 (r <{ rt_hub ::= set_field h_now (λ _, e.1) }>).
Definition fresh h : Ret := MkRet _ _ h [] ∅ [] ∅ ∅ ∅ ∅ ∅ [] ∅ ∅ ∅ [] 0 [].
End retirement.
