(* ===== verification/RetirementStarts.v ===== *)
(** * What the life of the terminals leaves of the starts a retirement goes by

    A start in flight needs its count ([need]): a SPAWN until its answer, a restart until its terminal
    is released. [leaves]: what an event of the hub leaves of those in flight, but for the starts
    [E] it is given to begin; none sends a SPAWN on a host whose agent is being stopped. *)

From S2P Require Import Prelude JsMap Text Versions ChannelData ChannelTrackers StateBroadcaster ChannelLifecycle ChannelChanges ChannelOps ChannelStarts AgentRetirement.
#[local] Open Scope lasterm_scope.

Definition need (n : nat) (w : Wait) : option (HostId * Until) :=
  match w with
  | w_spawn s => Some (sp_host s, until_answer n)
  | w_restartReach r | w_restart r _ => Some (rs_host r, until_released (rs_channel r))
  | _ => None
  end.
(** A SPAWN of it is out, or its answer not yet gone on with. *)
Definition sends (w : Wait) : bool := match w with w_spawn _ | w_restart _ _ => true | _ => false end.

Create HintDb starts.
Section leaves.
Context `{!Setup} {Sc Ou : Type} `{!Screens Sc, !Outputs Ou}.
Notation Hub := (Hub Sc Ou Wait).
Implicit Types (h u v : Hub) (E : list (HostId * Until)).

Definition in_flight h (e : HostId * Until) : Prop := ∃ n w, h_waits h !! n = Some w ∧ need n w = Some e.
Definition sent h (e : HostId * Until) : Prop :=
  ∃ n w, h_waits h !! n = Some w ∧ sends w = true ∧ need n w = Some e.
Record leaves E u v : Prop := {
  lv_stopping : h_stopping v = h_stopping u;
  lv_flight e : in_flight v e → in_flight u e ∨ e ∈ E;
  lv_sent e : sent v e → sent u e ∨ e.1 ∉ h_stopping u
}.
Lemma leaves_refl E u : leaves E u u.
Proof. split; auto. Qed.
Lemma leaves_same E u v w : same v w → leaves E u v → leaves E u w.
Proof. intros [= H1 _ _ H2] [A B C]. split; unfold in_flight, sent in *; rewrite ?H1, ?H2; auto. Qed.
Lemma leaves_fold {A} (f : Hub → A → Hub) l E u v :
  (∀ w x, leaves E u w → leaves E u (f w x)) → leaves E u v → leaves E u (fold_left f l v).
Proof. intros Hf. revert v. induction l as [|x l IH]; intros v Hv; [done|]. simpl. auto. Qed.
Lemma leaves_drop n E u v : leaves E u v → leaves E u (drop_wait n v).
Proof.
  intros [A B C]. split; [done| |].
  - intros e (n' & w & Hw & Hn). apply B. exists n', w. cbn in Hw. rewrite js_lookup_delete in Hw.
    by destruct (decide _).
  - intros e (n' & w & Hw & Hs & Hn). apply C. exists n', w. cbn in Hw. rewrite js_lookup_delete in Hw.
    by destruct (decide _).
Qed.
(** What waits for no answer of a start; and a start, where none is stopped, that may be. *)
Lemma leaves_push w E u v : need (h_nextId v) w = None → leaves E u v → leaves E u (push w v).
Proof.
  intros Hw [A B C]. split; [done| |].
  - intros e (n & w' & Hl & Hn). cbn in Hl. rewrite js_lookup_insert in Hl. destruct (decide _) as [<-|].
    + injection Hl as <-. congruence.
    + apply B. by exists n, w'.
  - intros e (n & w' & Hl & Hs & Hn). cbn in Hl. rewrite js_lookup_insert in Hl. destruct (decide _) as [<-|].
    + injection Hl as <-. congruence.
    + apply C. by exists n, w'.
Qed.
Lemma leaves_start w e E u v :
  need (h_nextId v) w = Some e → in_flight u e ∨ e ∈ E → (sends w = true → e.1 ∉ h_stopping v) →
  leaves E u v → leaves E u (push w v).
Proof.
  intros Hw He Hs [A B C]. split; [done| |].
  - intros e' (n & w' & Hl & Hn). cbn in Hl. rewrite js_lookup_insert in Hl. destruct (decide _) as [<-|].
    + injection Hl as <-. by rewrite Hw in Hn; injection Hn as <-.
    + apply B. by exists n, w'.
  - intros e' (n & w' & Hl & Hs' & Hn). cbn in Hl. rewrite js_lookup_insert in Hl. destruct (decide _) as [<-|].
    + injection Hl as <-. rewrite Hw in Hn. injection Hn as <-. right. rewrite <- A. auto.
    + apply C. by exists n, w'.
Qed.
Lemma leaves_settle n w w0 E u v :
  h_waits v !! n = Some w0 → need n w = need n w0 → sends w = sends w0 → leaves E u v → leaves E u (settle n w v).
Proof.
  intros Hw Hn Hs [A B C].
  assert (∀ n' w', h_waits (settle n w v) !! n' = Some w' →
    ∃ w1, h_waits v !! n' = Some w1 ∧ need n' w' = need n' w1 ∧ sends w' = sends w1) as Hl.
  { intros n' w'. cbn. rewrite js_lookup_alter. destruct (decide (n = n')) as [<-|]; [|eauto].
    rewrite Hw. intros [= <-]. eauto. }
  split; [done| |].
  - intros e (n' & w' & (w1 & H1 & H2 & _)%Hl & H3). apply B. exists n', w1. split; [done|congruence].
  - intros e (n' & w' & (w1 & H1 & H2 & H4)%Hl & H5 & H3). apply C. exists n', w1. split_and!; [done|congruence..].
Qed.
Lemma leaves_ask a m w E u v : need (h_nextId v) w = None → leaves E u v → leaves E u (ask a m w v).
Proof. intros Hn Hv. unfold ask. apply leaves_push; [done|]. revert Hv. apply leaves_same. keep. Qed.
End leaves.
#[export] Hint Resolve leaves_refl leaves_fold leaves_drop : starts.
#[export] Hint Extern 1 (leaves _ _ (push _ _)) => simple apply leaves_push; [reflexivity|] : starts.
#[export] Hint Extern 1 (leaves _ _ (ask _ _ _ _)) => simple apply leaves_ask; [reflexivity|] : starts.
(** Through an operation that keeps the books, with [v] what it is done to. *)
Ltac past v := simple apply (leaves_same _ _ v); [keep|].
#[export] Hint Extern 2 (leaves _ _ (set_field _ _ ?v)) => past v : starts.
#[export] Hint Extern 2 (leaves _ _ (emit _ ?v)) => past v : starts.
#[export] Hint Extern 2 (leaves _ _ (tell _ _ ?v)) => past v : starts.
#[export] Hint Extern 2 (leaves _ _ (forget_request _ ?v)) => past v : starts.
#[export] Hint Extern 2 (leaves _ _ (userActsOnHost _ ?v)) => past v : starts.
#[export] Hint Extern 2 (leaves _ _ (attach_ok _ _ _ _ _ ?v)) => past v : starts.
#[export] Hint Extern 2 (leaves _ _ (tick ?v)) => past v : starts.
#[export] Hint Extern 2 (leaves _ _ (not_respawned _ _ ?v)) => past v : starts.
#[export] Hint Extern 2 (leaves _ _ (respawned _ _ _ ?v)) => past v : starts.
#[export] Hint Extern 2 (leaves _ _ (applyRestartState _ _ ?v)) => past v : starts.
#[export] Hint Extern 2 (leaves _ _ (letGoOfStaleAttach _ _ _ ?v)) => past v : starts.
#[export] Hint Extern 3 (leaves _ _ (if ?b then _ else _)) => destruct b : starts.
#[export] Hint Extern 3 (leaves _ _ (match ?x with _ => _ end)) => destruct x : starts.
Ltac starts := intros; cbv beta iota zeta; eauto 40 with starts nocore.

Section events.
Context `{!Setup} {Sc Ou : Type} `{!Screens Sc, !Outputs Ou}.
Notation Hub := (Hub Sc Ou Wait).
Implicit Types (h u v : Hub) (E : list (HostId * Until)).

(** A claim let go of: of the books, only the claims change. *)
Lemma leaves_books E u v w : h_waits w = h_waits v → h_stopping w = h_stopping v → leaves E u v → leaves E u w.
Proof. intros H1 H2 [A B C]. split; unfold in_flight, sent in *; rewrite ?H1, ?H2; auto. Qed.
Lemma leaves_release r E u v : leaves E u v → leaves E u (release r v).
Proof. by destruct r; [apply leaves_books|]. Qed.
Lemma leaves_restart_over ch E u v : leaves E u v → leaves E u (restart_over ch v).
Proof. by apply leaves_books. Qed.
Lemma leaves_claim ch E u v : leaves E u v → leaves E u (v <{ h_starting ::= set_add ch }>).
Proof. by apply leaves_books. Qed.
End events.
#[export] Hint Resolve leaves_release leaves_restart_over leaves_claim : starts.

Section every_event.
Context `{!Setup} {Sc Ou : Type} `{!Screens Sc, !Outputs Ou}.
Notation Hub := (Hub Sc Ou Wait).
Implicit Types (h u v : Hub) (E : list (HostId * Until)).

Lemma leaves_refused n s m E u v :
  leaves E u v → leaves E u (forget_request n v |> drop_wait n |> tell m (sp_client s) |> release (sp_reuse s)).
Proof. starts. Qed.
Lemma leaves_spawned n s ch E u v : leaves E u v → leaves E u (spawned n s ch v).
Proof.
  intros Hv. assert (leaves E u (drop_wait n (forget_request n v))) as Hd by starts.
  unfold spawned. cbv zeta. destruct (spawned_row s ch _) as [rows|]; [|done].
  cbn [new_set]. apply leaves_release. revert Hd. generalize (drop_wait n (forget_request n v)). intros w.
  apply leaves_same. keep.
Qed.
Lemma leaves_spawn_answer n s m E u v : leaves E u v → leaves E u (spawn_answer n s m v).
Proof.
  intros Hv. unfold spawn_answer. destruct (h_quitting v); [by apply leaves_refused|].
  destruct m; try done; [by apply leaves_spawned|by apply leaves_refused].
Qed.
Lemma leaves_sendSpawn s E u v :
  (sp_host s, until_answer (h_nextId v)) ∈ E → leaves E u v → leaves E u (sendSpawnAndWait s v).
Proof.
  intros He Hv. unfold sendSpawnAndWait. destruct (decide _) as [|Hn]; [starts|]. destruct (h_quitting v); [starts|].
  unfold ask. eapply leaves_start; [reflexivity|by right|done|]. revert Hv. apply leaves_same. keep.
Qed.
Lemma leaves_restart_send r E u v :
  in_flight u (rs_host r, until_released (rs_channel r)) ∨ (rs_host r, until_released (rs_channel r)) ∈ E →
  leaves E u v → leaves E u (restart_send r v).
Proof.
  intros He Hv. unfold restart_send. destruct (session_at r v) as [s|], (h_agents v !! rs_host r) as [a|];
    try by starts.
  destruct (negb _), (negb _), (bool_decide (rs_host r ∈ h_stopping v)) eqn:Hs, (h_quitting v); cbn [orb];
    try by starts.
  apply bool_decide_eq_false in Hs. unfold ask. eapply leaves_start; [reflexivity|done|done|]. revert Hv.
    apply leaves_same. keep.
Qed.
Lemma leaves_restart_begin n ch E u v :
  (∀ row host, getChannelWithHost ch (drop_wait n v) = Some (row, host) → (host, until_released ch) ∈ E) →
  leaves E u v → leaves E u (restart_begin n ch v).
Proof.
  intros He Hv%(leaves_drop n). unfold restart_begin. cbv zeta.
  destruct (h_quitting _); [starts|]. destruct (getChannelWithHost ch _) as [[row host]|]; [|starts].
  specialize (He row host eq_refl).
  match goal with |- leaves _ _ (if _ then restart_send ?r ?w else _) => assert (leaves E u w) as Hw end.
  { destruct (h_agents (drop_wait n v) !! host), (channel_of ch (drop_wait n v)); try done. destruct (_ && _); starts. }
  destruct (agent_up _ _).
  - apply leaves_restart_send; [by right|done].
  - eapply leaves_start; [reflexivity|by right|done|done].
Qed.
Lemma leaves_restart_reached n r ok E u v :
  in_flight u (rs_host r, until_released (rs_channel r)) → leaves E u v → leaves E u (restart_reached n r ok v).
Proof.
  intros He Hv. unfold restart_reached. cbv zeta. destruct ok; [|starts].
  apply leaves_restart_send; [by left|starts].
Qed.
Lemma leaves_restart_answer n r a m E u v :
  h_waits v !! n = Some (w_restart r a) → leaves E u v → leaves E u (restart_answer n r m v).
Proof. intros Hw Hv. unfold restart_answer. eapply leaves_settle; [exact Hw|done..|]. starts. Qed.
Lemma leaves_restart_answered n r answer E u v : leaves E u v → leaves E u (restart_answered n r answer v).
Proof.
  intros Hv%(leaves_drop n). unfold restart_answered. cbv zeta. destruct answer as [ch|]; [|starts].
    destruct (h_quitting _); starts.
Qed.
Lemma leaves_attach_reached c ch obj title host E u v : leaves E u v →
  leaves E u (attach_reached c ch obj title host v).
Proof. intros Hv. unfold attach_reached, attach_ask. starts. Qed.
Lemma leaves_handleAttach c ch E u v : leaves E u v → leaves E u (handleAttach c ch v).
Proof.
  pose proof leaves_attach_reached. intros Hv. unfold handleAttach. destruct (negb _); [done|].
    destruct (h_quitting v); [starts|].
  destruct (h_channels v !! ch) as [obj|]; [|starts]. destruct (channel_of ch v) as [s|]; [|starts].
  destruct (decide (cs_status s = dead)); [starts|]. cbv zeta.
  set (w := if decide (cs_status s = orphan) then _ else _).
  assert (same v w) as Hw by (unfold w; keep). clearbody w.
  assert (same v (restored ch w)) as Hr%(same_resolved ch) by (unfold restored; keep).
  destruct (resolveDisplayTitle ch (restored ch w)) as [title x]. cbn in Hr.
  pose proof (leaves_same E u v x Hr Hv) as Hx. destruct (agent_up _ x); [auto|starts].
Qed.
Lemma leaves_attach_went n c ch obj title E u v : leaves E u v → leaves E u (attach_went n c ch obj title v).
Proof.
  intros Hv%(leaves_drop n). unfold attach_went. cbv zeta. destruct (h_objs _ !! obj); [|done].
  destruct (_ && _); [by apply leaves_attach_reached|]. apply leaves_handleAttach. starts.
Qed.
Lemma leaves_attach_settle n ch w w0 E u v :
  h_waits v !! n = Some w0 → need n w = need n w0 → sends w = sends w0 → leaves E u v →
    leaves E u (attach_settle n ch w v).
Proof.
  intros Hw Hn Hs Hv. unfold attach_settle. cbv zeta. eapply leaves_settle;
    [|exact Hn|exact Hs|destruct (bool_decide _); starts].
  by destruct (bool_decide _).
Qed.
Lemma leaves_attach_answered n c ch obj title askedAt answer E u v :
  leaves E u v → leaves E u (attach_answered n c ch obj title askedAt answer v).
Proof.
  intros Hv%(leaves_drop n). unfold attach_answered. cbv zeta. generalize dependent (drop_wait n v). intros w Hw.
  destruct answer.
  - revert Hw. apply leaves_same. keep.
  - destruct (answerStillApplies _ _ _); [|apply leaves_handleAttach]; revert Hw; apply leaves_same; keep.
  - starts.
Qed.
Lemma leaves_respawns host a for_ E u v : leaves E u v → leaves E u (spawnChannelsForHost host a for_ v).
Proof. intros Hv. unfold spawnChannelsForHost, respawn_one. starts. Qed.
Lemma leaves_respawn_answer n ch obj for_ m E u v : leaves E u v → leaves E u (respawn_answer n ch obj for_ m v).
Proof.
  intros Hv. assert (leaves E u (drop_wait n (forget_request n v))) as Hd by starts. unfold respawn_answer. cbv zeta.
  destruct (h_quitting v); [done|]. revert Hd. generalize (drop_wait n (forget_request n v)). intros w.
  destruct m; apply leaves_same; keep.
Qed.
Lemma leaves_states n host a askedAt for_ states E u v :
  leaves E u v → leaves E u (states_answered n host a askedAt for_ states v).
Proof.
  intros Hv%(leaves_drop n). unfold states_answered, adoptAgent. cbv zeta. revert Hv. generalize (drop_wait n v).
    intros w.
  apply leaves_same. destruct for_; [keep|]. destruct (h_quitting w); [keep|]. destruct (_ || _); keep.
Qed.
Lemma leaves_timeout n E u v : leaves E u v → leaves E u (timeout n v).
Proof.
  intros Hv. unfold timeout, spawn_timeout. destruct (h_waits v !! n) as [[| |s| | |r [answer|]|ch obj for_| |c ch obj
    title askedAt [answer|]|]|] eqn:Hw; try done.
  - by apply leaves_refused.
  - eapply leaves_settle; [exact Hw|done..|]. starts.
  - starts.
  - by eapply leaves_attach_settle.
Qed.
Lemma leaves_from_agent host rid m E u v : leaves E u v → leaves E u (from_agent host rid m v).
Proof.
  intros Hv. unfold from_agent. destruct (answers rid m v) as [[n w]|] eqn:Ha.
  - apply answers_wait in Ha. unfold ChannelLifecycle.answered.
    destruct w as [| |s| | |r [answer|]|ch obj for_| |c ch obj title askedAt [answer|]|]; try done.
    + by apply leaves_spawn_answer.
    + by eapply leaves_restart_answer.
    + by apply leaves_respawn_answer.
    + destruct (attach_answer m ch); [by eapply leaves_attach_settle|done].
  - revert Hv. apply leaves_same. keep.
Qed.
Lemma leaves_restartChannel ch E u v : leaves E u v → leaves E u (restartChannel ch v).
Proof.
  intros Hv. unfold restartChannel. destruct (getChannelWithHost ch v) as [[? host]|]; destruct (_ || _); starts.
Qed.

(** The starts an event begins. *)
Definition begins (e : Ev) h : list (HostId * Until) :=
  match e with
  | SpawnReached _ (Some s) => [(sp_host s, until_answer (h_nextId h))]
  | RestartGoes n =>
      match h_waits h !! n with
      | Some (w_restartBegin ch) =>
          match getChannelWithHost ch h with Some (_, host) => [(host, until_released ch)] | None => [] end
      | _ => []
      end
  | _ => []
  end.
Definition is_stopping (e : Ev) : bool := match e with Stopping _ _ => true | _ => false end.
Lemma leaves_exec e h : is_stopping e = false → leaves (begins e h) h (ChannelLifecycle.exec e h).
Proof.
  intros He. pose proof (same_exec e h) as Hs. assert (∀ E v, same h v → leaves E h v) as Hk by (intros;
    by eapply leaves_same, leaves_refl).
  destruct e; try done; first [by apply Hk|cbn [ChannelLifecycle.exec]].
  - unfold handleSpawn. starts.
  - destruct (h_waits h !! n) as [[]|] eqn:Hw; try by starts. unfold spawnOnHost. starts.
  - destruct (h_waits h !! n) as [[]|] eqn:Hw; try by starts. destruct s as [s|]; [|starts].
    destruct (decide _) as [(_ & _ & <-)|]; [|starts]. apply leaves_sendSpawn; [by left|starts].
  - apply leaves_handleAttach. starts.
  - destruct (h_waits h !! n) as [[]|] eqn:Hw; try by starts. apply leaves_attach_went. starts.
  - apply leaves_restartChannel. starts.
  - cbn [begins]. destruct (h_waits h !! n) as [[]|] eqn:Hw; try by starts. apply leaves_restart_begin; [|starts].
    intros row host Hg. change (getChannelWithHost ch h = Some (row, host)) in Hg. rewrite Hg. by left.
  - destruct (h_waits h !! n) as [[]|] eqn:Hw; try by starts. apply leaves_restart_reached; [|starts]. eexists n, _.
    by rewrite Hw.
  - destruct (h_waits h !! n) as [[| | | | |r [answer|]| | |c ch obj title askedAt [answer|]|]|] eqn:Hw;
    try (by starts);
      [apply leaves_restart_answered|apply leaves_attach_answered]; starts.
  - apply leaves_timeout. starts.
  - unfold ask_states. starts.
  - destruct (h_waits h !! n) as [[]|] eqn:Hw; try by starts. apply leaves_states. starts.
  - apply leaves_respawns. starts.
  - apply leaves_from_agent. starts.
Qed.
End every_event.
