(* ===== verification/RetirementSafety.v ===== *)
(** * No STOP crosses a start

    [fenced]: of the stops asked for, each is of a host no other is asked of, none of its starts has a
    SPAWN out, and its agent is an old one; [sound]: with that, every start in flight is counted, as
    often as it is. Each operation keeps it ([sound_exec]), so every run does. *)

From S2P Require Import Prelude JsMap Text SpoolDal OutputChunker Replay SnapshotScheduler Versions ChannelData ChannelTrackers StateBroadcaster ChannelLifecycle ChannelChanges ChannelOps ChannelExample ChannelStarts AgentRetirement RetirementStarts.
#[local] Open Scope lasterm_scope.

(** ** Stops *)

(** A stop not yet gone on with: its host is fenced. *)
Definition halts (ph : Phase) : bool := match ph with asked | answered _ | commanding => true | _ => false end.
Definition retires (ru : Run) : bool := match ru_for ru with for_retirement _ _ => true | _ => false end.

Section fenced.
Context {set_up : Setup} {known : AgentRetirement.Versions}.
Implicit Types (S K : list HostId) (X : HostId → Prop) (R : jsmap nat Run) (U : jsmap HostId nat) (T :
  jsmap HostId text)
  (host : HostId) (ru : Run).

(** [S]: the hosts being stopped; [X]: those with a SPAWN out; [K]: those an agent is no more kept on;
    [T]: the versions retired. *)
Record fenced S X R U K T (next : nat) : Prop := {
  fe_fresh p ru : R !! p = Some ru → p < next;
  fe_stopping p ru : R !! p = Some ru → halts (ru_phase ru) = true → ru_host ru ∈ S ∧ ru_host ru ∉ K;
  fe_one p p' ru ru' : R !! p = Some ru → R !! p' = Some ru' → halts (ru_phase ru) = true →
    halts (ru_phase ru') = true →
    ru_host ru = ru_host ru' → p = p';
  fe_why host : host ∈ S → host ∈ K ∨ ∃ p ru, R !! p = Some ru ∧ ru_host ru = host ∧ halts (ru_phase ru) = true;
  fe_kept host : host ∈ K → host ∈ S;
  fe_under host p : U !! host = Some p ↔ ∃ ru, R !! p = Some ru ∧ ru_host ru = host ∧ retires ru = true;
  fe_asked p ru : R !! p = Some ru → retires ru = true → ru_phase ru ≠ commanding;
  fe_crossing p ru : R !! p = Some ru → retires ru = true → halts (ru_phase ru) = true → ¬ X (ru_host ru);
  fe_old p ru l running : R !! p = Some ru → ru_for ru = for_retirement l running →
    agentVersion (ru_agent ru) = Some running ∧ isOlderVersion running HUB_VERSION = true ∧
    is_daemon (ru_host ru) (ru_agent ru) = true ∧ (halts (ru_phase ru) = true → T !! ru_host ru ≠ Some running)
}.
Lemma fenced_sent S X X' R U K T next :
  (∀ host, X' host → X host ∨ host ∉ S) → fenced S X R U K T next → fenced S X' R U K T next.
Proof.
  intros HX [A B C D E F J G I]. split; try done. intros p ru Hp Hr Hh [Hx|Hn]%HX; [by eapply G|].
  by apply Hn, (B p).
Qed.
Lemma fenced_next S X R U K T next next' : next <= next' → fenced S X R U K T next → fenced S X R U K T next'.
Proof. intros Hn [A B C D E F J G I]. split; try done. intros p ru Hp%A. lia. Qed.
(** A stop begins: a retirement, where nothing is on its way and none is under way, or another. *)
Lemma fenced_begins S X R U U' K T next ru :
  ru_host ru ∉ S → halts (ru_phase ru) = true →
  (∀ host p, U' !! host = Some p ↔ U !! host = Some p ∨ p = next ∧ host = ru_host ru ∧ retires ru = true) →
  (retires ru = true → ru_phase ru ≠ commanding ∧ ¬ X (ru_host ru)) →
  (∀ l running, ru_for ru = for_retirement l running → agentVersion (ru_agent ru) = Some running ∧
     isOlderVersion running HUB_VERSION = true ∧ is_daemon (ru_host ru) (ru_agent ru) = true ∧
       T !! ru_host ru ≠ Some running) →
  fenced S X R U K T next →
  fenced (set_add (ru_host ru) S) X (<[next := ru]> R) U' K T (Datatypes.S next).
Proof.
  intros Hn Hh Hu Hx Ho [A B C D E F J G I].
  assert (∀ p ru', <[next := ru]> R !! p = Some ru' → p = next ∧ ru' = ru ∨ p ≠ next ∧ R !! p = Some ru') as Hl.
  { intros p ru'. rewrite js_lookup_insert. destruct (decide (next = p)) as [<-|]; [intros [= <-]; auto|auto]. }
  assert (∀ p ru', R !! p = Some ru' → <[next := ru]> R !! p = Some ru') as Hr'.
  { intros p ru' Hp. rewrite js_lookup_insert_ne; [done|]. apply A in Hp. lia. }
  split.
  - intros p ru' [[-> _]|[_ Hp%A]]%Hl; lia.
  - intros p ru' [[-> ->]|[_ Hp]]%Hl Hh'.
    + split; [apply elem_of_set_add; by left|]. by intros ?%E.
    + destruct (B p ru' Hp Hh'). split; [apply elem_of_set_add; by right|done].
  - intros p p' ru1 ru2 [[-> ->]|[? Hp]]%Hl [[-> ->]|[? Hp']]%Hl H1 H2 He; [done|..|by eapply C].
    + destruct Hn. rewrite He. by apply (B p').
    + destruct Hn. rewrite <- He. by apply (B p).
  - intros host [->|Hs]%elem_of_set_add; [right; exists next, ru; by rewrite js_lookup_insert_eq|].
    destruct (D host Hs) as [|(p & ru' & ? & ? & ?)]; [by left|right; exists p, ru'; auto].
  - intros host Hk%E. apply elem_of_set_add. by right.
  - intros host p. rewrite Hu, F. split.
    + intros [(ru' & ? & ? & ?)|(-> & -> & ?)]; [exists ru'; auto|exists ru; by rewrite js_lookup_insert_eq].
    + intros (ru' & [[-> ->]|[_ Hp]]%Hl & <- & ?); [by right|left; eauto].
  - intros p ru' [[-> ->]|[_ Hp]]%Hl ?; [by apply Hx|by eapply J].
  - intros p ru' [[-> ->]|[_ Hp]]%Hl ? ?; [by apply Hx|by eapply G].
  - intros p ru' l running [[-> ->]|[_ Hp]]%Hl Hf; [naive_solver|by eapply I].
Qed.
(** A stop goes on, and its host is still fenced, or not any more. *)
Lemma fenced_phase S X R U K T next p ph :
  (∀ ru, R !! p = Some ru → halts ph = halts (ru_phase ru) ∧ (retires ru = true → ph ≠ commanding)) →
    fenced S X R U K T next →
  fenced S X (js_alter (λ ru, MkRun (ru_host ru) (ru_agent ru) (ru_for ru) ph) p R) U K T next.
Proof.
  intros Hph [A B C D E F J G I].
  assert (∀ p' ru', js_alter (λ ru, MkRun (ru_host ru) (ru_agent ru) (ru_for ru) ph) p R !! p' = Some ru' →
    ∃ ru, R !! p' = Some ru ∧ ru_host ru' = ru_host ru ∧ ru_agent ru' = ru_agent ru ∧ ru_for ru' = ru_for ru ∧
          halts (ru_phase ru') = halts (ru_phase ru) ∧
          (retires ru = true → ru_phase ru' ≠ commanding)) as Hl.
  { intros p' ru'. rewrite js_lookup_alter. destruct (decide (p = p')) as [<-|]; [|intros H; exists ru'; eauto 10].
    intros (ru & Hru & ->)%fmap_Some. exists ru. split_and!; try done; by apply Hph. }
  assert (∀ p' ru, R !! p' = Some ru →
    ∃ ru', js_alter (λ ru, MkRun (ru_host ru) (ru_agent ru) (ru_for ru) ph) p R !! p' = Some ru' ∧
      ru_host ru' = ru_host ru ∧ retires ru' = retires ru ∧ halts (ru_phase ru') = halts (ru_phase ru)) as Hr.
  { intros p' ru Hru. rewrite js_lookup_alter. destruct (decide (p = p')) as [<-|]; [|eauto 10].
    rewrite Hru. eexists. split_and!; try done. by apply Hph. }
  split; try done.
  - intros p' ru' (ru & Hp & _)%Hl. by eapply A.
  - intros p' ru' (ru & Hp & -> & _ & _ & -> & _)%Hl. by eapply B.
  - intros p1 p2 r1 r2 (ru1 & Hp1 & -> & _ & _ & -> & _)%Hl (ru2 & Hp2 & -> & _ & _ & -> & _)%Hl. by eapply C.
  - intros host [Hk|(p' & ru & (ru' & Hp & <- & _ & <-)%Hr & <- & ?)]%D; [by left|right; eauto].
  - intros host p'. rewrite F. split.
    + intros (ru & (ru' & Hp & <- & <- & _)%Hr & <- & ?). eauto.
    + intros (ru' & (ru & Hp & He & _ & Hf & _)%Hl & <- & Ht). exists ru. split_and!; [done..|]. unfold retires in *.
      by rewrite <- Hf.
  - intros p' ru' (ru & Hp & _ & _ & Hf & _ & Hc)%Hl Ht. apply Hc. unfold retires in *. by rewrite <- Hf.
  - intros p' ru' (ru & Hp & -> & _ & Hf & -> & _)%Hl. unfold retires. rewrite Hf. by apply (G p').
  - intros p' ru' l running (ru & Hp & -> & -> & -> & -> & _)%Hl. by apply (I p').
Qed.
Lemma fenced_free S X R R' U K T T' next p ru :
  R !! p = Some ru → halts (ru_phase ru) = true →
  (∀ p', p' ≠ p → R' !! p' = R !! p') →
  (if retires ru then ∃ ph, halts ph = false ∧ R' !! p = Some (MkRun (ru_host ru) (ru_agent ru) (ru_for ru) ph) else
    R' !! p = None) →
  (∀ host, host ≠ ru_host ru → T' !! host = T !! host) →
  fenced S X R U K T next → fenced (set_delete (ru_host ru) S) X R' U K T' next.
Proof.
  intros Hp Hh Ho Hr Ht [A B C D E F J G I].
  assert (∀ p' ru', R' !! p' = Some ru' → p' ≠ p ∧ R !! p' = Some ru' ∨
    p' = p ∧ halts (ru_phase ru') = false ∧ ru_host ru' = ru_host ru ∧ ru_agent ru' = ru_agent ru ∧
      ru_for ru' = ru_for ru) as Hl.
  { intros p' ru' Hp'. destruct (decide (p' = p)) as [->|Hne]; [|left; split; [done|by rewrite <- Ho]].
    right. destruct (retires ru); [|congruence]. destruct Hr as (ph & Hph & He). rewrite Hp' in He.
      injection He as ->. done. }
  assert (∀ p' ru', p' ≠ p → R !! p' = Some ru' → halts (ru_phase ru') = true → ru_host ru' ≠ ru_host ru) as Hne.
  { intros p' ru' Hne Hp' Hh' He. by apply Hne, (C p' p ru' ru). }
  split.
  - intros p' ru' [[_ Hp']|(-> & _)]%Hl; [by eapply A|by eapply A].
  - intros p' ru' [[Hn Hp']|(-> & ? & _)]%Hl Hh'; [|congruence]. destruct (B _ _ Hp' Hh'). split; [|done].
    apply elem_of_set_delete. split; [by apply (Hne p')|done].
  - intros p1 p2 r1 r2 [[_ H1]|(-> & ? & _)]%Hl [[_ H2]|(-> & ? & _)]%Hl; try congruence. by apply C.
  - intros host [Hd Hs]%elem_of_set_delete. destruct (D host Hs) as [|(p' & ru' & Hp' & He & Hh')]; [by left|right].
    exists p', ru'. split; [|done]. rewrite Ho; [done|]. intros ->. rewrite Hp in Hp'. congruence.
  - intros host Hk. apply elem_of_set_delete. split; [|by apply E]. intros ->. by apply (B p ru).
  - intros host p'. rewrite F. split.
    + intros (ru' & Hp' & He & Hr'). destruct (decide (p' = p)) as [->|Hn]; [|exists ru'; by rewrite Ho].
      rewrite Hp in Hp'. injection Hp' as <-. rewrite Hr' in Hr. destruct Hr as (ph & _ & ->). by eexists.
    + intros (ru' & [[_ Hp']|(-> & _ & He & _ & Hf)]%Hl & <- & Hr'); [by exists ru'|]. exists ru. unfold retires in *.
      by rewrite <- Hf.
  - intros p' ru' [[_ Hp']|(-> & Hh' & _)]%Hl; [by eapply J|]. intros _ He. by rewrite He in Hh'.
  - intros p' ru' [[_ Hp']|(-> & ? & _)]%Hl; [by eapply G|congruence].
  - intros p' ru' l running [[Hn Hp']|(-> & Hh' & -> & -> & ->)]%Hl Hf.
    + destruct (I p' ru' l running Hp' Hf) as (? & ? & ? & Hd). split_and!; [done..|]. intros Hh'.
      rewrite Ht; [auto|by apply (Hne p')].
    + destruct (I p ru l running Hp Hf) as (? & ? & ? & Hd). split_and!; [done..|congruence].
Qed.
(** A retirement is over, and out of the map. *)
Lemma fenced_over S X R U K T next p ru :
  R !! p = Some ru → halts (ru_phase ru) = false → retires ru = true →
  fenced S X R U K T next → fenced S X (delete p R) (delete (ru_host ru) U) K T next.
Proof.
  intros Hp Hh Hr [A B C D E F J G I].
  assert (∀ p' ru', delete p R !! p' = Some ru' → p' ≠ p ∧ R !! p' = Some ru') as Hl.
  { intros p' ru'. rewrite js_lookup_delete. destruct (decide (p = p')); [done|auto]. }
  split; try (intros p' ru' [_ Hp']%Hl; eauto; fail).
  - intros p1 p2 r1 r2 [_ H1]%Hl [_ H2]%Hl. by apply C.
  - intros host [|(p' & ru' & Hp' & ? & ?)]%D; [by left|right]. exists p', ru'. rewrite js_lookup_delete_ne; [done|].
    intros <-. rewrite Hp in Hp'. congruence.
  - done.
  - assert (U !! ru_host ru = Some p) as Hu by (apply F; eauto). intros host p'. rewrite js_lookup_delete.
    destruct (decide (ru_host ru = host)) as [<-|Hne].
    + split; [done|]. intros (ru' & [Hn Hp']%Hl & He & Hr'). destruct Hn.
      enough (U !! ru_host ru = Some p') by congruence. apply F; eauto.
    + rewrite F. split; intros (ru' & Hp' & He & Hr').
      * exists ru'. rewrite js_lookup_delete_ne; [done|]. intros <-. rewrite Hp in Hp'. by injection Hp' as <-.
      * destruct (Hl _ _ Hp'). eauto.
  - intros p' ru' l running [_ Hp']%Hl. by eapply I.
Qed.
Lemma fenced_keep S X R U K T next host :
  host ∉ S → fenced S X R U K T next → fenced (set_add host S) X R U (set_add host K) T next.
Proof.
  intros Hn [A B C D E F J G I]. split; try done.
  - intros p ru Hp Hh. destruct (B p ru Hp Hh). rewrite !elem_of_set_add. split; [by right|].
    intros [He|]; [by rewrite He in *|done].
  - intros host' [->|[Hk|(p & ru & ?)]%D]%elem_of_set_add; [left; apply elem_of_set_add; by left|left;
    apply elem_of_set_add; by right|eauto].
  - intros host' [->|Hk%E]%elem_of_set_add; apply elem_of_set_add; auto.
Qed.
Lemma fenced_unkeep S X R U K T next host :
  host ∈ K → fenced S X R U K T next → fenced (set_delete host S) X R U (set_delete host K) T next.
Proof.
  intros Hk [A B C D E F J G I]. split; try done.
  - intros p ru Hp Hh. destruct (B p ru Hp Hh). rewrite !elem_of_set_delete.
    split; [split; [|done]; intros He; by rewrite He in *|by intros []].
  - intros host' [Hne [Hk'|(p & ru & ?)]%D]%elem_of_set_delete; [left; by apply elem_of_set_delete|eauto].
  - intros host' [Hne Hk'%E]%elem_of_set_delete. by apply elem_of_set_delete.
Qed.
End fenced.

(** ** The starts and the stops *)

Section sound.
Context {set_up : Setup} {Sc Ou : Type} {sc : Screens Sc} {ou : Outputs Ou} {known : AgentRetirement.Versions}.
Notation Ret := (Ret Sc Ou).
Notation Hub := (Hub Sc Ou Wait).
Implicit Types (r : Ret) (h : Hub) (host : HostId) (ex : list HostId).

Definition out_on h host : Prop := ∃ e, sent h e ∧ e.1 = host.
(** [ex]: starts counted whose end is on its way. *)
Record sound ex r : Prop := {
  so_ready : ready None (rt_hub r);
  so_counts host : starts_on host r = length (filter (λ on, on = host) ((rt_ends r).*1 ++ ex));
  so_counted e : in_flight (rt_hub r) e → e ∈ rt_ends r;
  so_fenced : fenced (h_stopping (rt_hub r)) (out_on (rt_hub r)) (rt_runs r) (rt_underWay r) (rt_keeping r)
    (rt_retired r) (rt_next r)
}.
(** What [sound] speaks of. *)
Definition part r := (rt_hub r, rt_ends r, rt_starts r, rt_runs r, rt_underWay r, rt_keeping r, rt_retired r).
Lemma sound_part ex r r' : part r' = part r → rt_next r <= rt_next r' → sound ex r → sound ex r'.
Proof.
  intros [= H1 H2 H3 H4 H5 H6 H7] Hn [A B C D]. split; rewrite ?H1, ?H2, ?H4, ?H5, ?H6, ?H7; try done.
  - intros host. unfold starts_on. rewrite H3. apply B.
  - by eapply fenced_next.
Qed.
Lemma sound_hub ex r v E :
  leaves E (rt_hub r) v → (∀ e, e ∈ E → e ∈ rt_ends r) → ready None v → sound ex r → sound ex (r <{ rt_hub := v }>).
Proof.
  intros [L1 L2 L3] HE Hr [A B C D]. split; cbn; try done.
  - intros e [|]%L2; auto.
  - rewrite L1. eapply fenced_sent; [|exact D]. intros host (e & [|]%L3 & <-); [left; by exists e|by right].
Qed.
Lemma sound_exec_hub ex e r :
  is_stopping e = false → (∀ b, b ∈ begins e (rt_hub r) → b ∈ rt_ends r) → sound ex r → sound ex (exec_hub e r).
Proof.
  intros He Hb Hs. eapply sound_hub; [by apply leaves_exec|done| |done]. apply rd_exec, Hs.
Qed.

Lemma none_counted host r ex : sound ex r → starts_on host r = 0 → ¬ out_on (rt_hub r) host.
Proof.
  intros [A B C D] H0 (e & (n & w & H1 & _ & H2) & <-). rewrite B in H0.
  assert (e ∈ rt_ends r) as He by (apply C; by exists n, w).
  assert (e.1 ∈ filter (λ on, on = e.1) ((rt_ends r).*1 ++ ex)) as Hf.
  { apply list_elem_of_filter. split; [done|]. apply elem_of_app. left. by apply list_elem_of_fmap_2. }
  destruct (filter _ _); [by apply not_elem_of_nil in Hf|done].
Qed.
Lemma qualifies_spec host a r :
  qualifies host a r = true →
  host ∉ h_stopping (rt_hub r) ∧ starts_on host r = 0 ∧ a ∈ h_connected (rt_hub r) ∧ live_on host r = 0 ∧
  ∃ running, agentVersion a = Some running ∧ isOlderVersion running HUB_VERSION = true ∧ is_daemon host a = true ∧
             rt_retired r !! host ≠ Some running.
Proof.
  unfold qualifies, quitting, stopping, isStarting, connected, wasRetired.
  destruct (h_quitting _), (bool_decide (host ∈ _)) eqn:Hs, (0 <? starts_on host r) eqn:H0,
    (bool_decide (a ∈ _)) eqn:Hc; try done.
  cbn. destruct (agentVersion a) as [running|]; [|done].
  rewrite !andb_true_iff, !negb_true_iff, bool_decide_eq_false, Nat.eqb_eq. intros (((((Ho & Hw) & _) & Hd) & Hl) & _).
  apply bool_decide_eq_false in Hs. apply bool_decide_eq_true in Hc. apply Nat.ltb_ge in H0.
  split_and!; [done|lia|done..|eauto].
Qed.
Lemma sound_begin ex host a l r :
  qualifies host a r = true → isUnderWay host r = false → sound ex r → sound ex (begin host a l r).2.
Proof.
  intros Hq%qualifies_spec Hu%js_has_false Hs. destruct Hq as (Hn & H0 & Hc & _ & running & Hv & Ho & Hd & Ht).
  pose proof (none_counted _ _ _ Hs H0) as Hx. destruct Hs as [A B C D].
  unfold begin, requestDaemonStop, connected. cbn [exec_hub ChannelLifecycle.exec].
  rewrite Hv. cbn [default from_option snd]. destruct (bool_decide _) eqn:Hc'; [|by apply bool_decide_eq_false in Hc'].
  rewrite andb_false_r.
  assert (∀ e, in_flight (rt_hub r <{ h_stopping ::= set_add host }>) e → in_flight (rt_hub r) e) as Hf by done.
  split; cbn.
  - destruct A. by split.
  - apply B.
  - intros e He%Hf. auto.
  - apply (fenced_begins _ _ _ (rt_underWay r) _ _ _ _ (MkRun host a (for_retirement l running) asked)); try done.
    + intros host' p. rewrite js_lookup_insert. destruct (decide (host = host')) as [<-|Hne]; cbn.
      * split; [intros [= <-]; by right|]. intros [He|(-> & _)]; [congruence|done].
      * split; [by left|]. intros [|(_ & -> & _)]; done.
    + cbn. by intros l' running' [= <- <-].
Qed.
Lemma sound_retireIfIdle ex host r : sound ex r → sound ex (retireIfIdle host r).2.
Proof.
  intros Hs. unfold retireIfIdle. destruct (rt_underWay r !! host) as [p|] eqn:Hu; [done|].
  destruct (agent_of host r) as [a|]; [|done]. destruct (qualifies host a r) eqn:Hq; [|done].
  pose proof (sound_begin ex host a false r Hq) as Hb. destruct (begin host a false r).
    apply Hb; [by apply js_has_false|done].
Qed.
Lemma sound_idle ex l r : sound ex r → sound ex (fold_left (λ r host, (retireIfIdle host r).2) l r).
Proof. revert r. induction l as [|host l IH]; intros r Hs; [done|]. cbn. by apply IH, sound_retireIfIdle. Qed.
Lemma sound_endStart ex host r : sound (host :: ex) r → sound ex (endStart host r).
Proof.
  intros [A B C D]. pose proof (B host) as Hh. rewrite filter_app, filter_cons, decide_True, app_length in Hh by done.
  cbn [length] in Hh. unfold endStart. unfold starts_on in *.
    destruct (rt_starts r !! host) as [k|] eqn:Hk; cbn in Hh; [|lia].
  assert (∀ k', k = S k' → sound ex (r <{ rt_starts ::= match k' with 0 => delete host | S _ => <[host := k']> end
    }>)) as Hr.
  { intros k' ->. split; try done. intros on. unfold starts_on. pose proof (B on) as Hb.
    rewrite filter_app, filter_cons, app_length in Hb. rewrite filter_app, app_length. cbn.
    destruct (decide (host = on)) as [<-|Hne].
    - rewrite Hk in Hb. cbn in Hb. destruct k'; [rewrite js_lookup_delete_eq|rewrite js_lookup_insert_eq]; cbn in *;
      lia.
    - destruct k'; [rewrite js_lookup_delete_ne|rewrite js_lookup_insert_ne]; done. }
  destruct k as [|k']; [lia|]. specialize (Hr k' eq_refl). cbn [default from_option pred id].
  destruct k'; [by apply sound_retireIfIdle|done].
Qed.
Lemma sound_ends ex l r : sound (l ++ ex) r → sound ex (fold_left (λ r host, endStart host r) l r).
Proof. revert r. induction l as [|host l IH]; intros r Hs; [done|]. cbn. by apply IH, sound_endStart. Qed.
(** What is over is not in flight. *)
Lemma over_gone h e : ready None h → is_over h e.2 = true → ¬ in_flight h e.
Proof.
  intros Hr Ho (n & w & Hw & Hn). destruct w; try done; injection Hn as <-; cbn in Ho.
  - by rewrite Hw in Ho.
  - rewrite bool_decide_eq_true_2 in Ho; [done|]. by eapply rd_claimed.
  - rewrite bool_decide_eq_true_2 in Ho; [done|]. by eapply rd_claimed.
Qed.
Lemma filter_count (l : list (HostId * Until)) (P : Until → bool) host :
  length (filter (λ on, on = host) l.*1) =
  length (filter (λ on, on = host) (filter (λ e, P e.2 = false) l).*1) +
  length (filter (λ on, on = host) (filter (λ e, P e.2 = true) l).*1).
Proof.
  induction l as [|e l IH]; [done|]. rewrite fmap_cons, !filter_cons.
  repeat case_decide; rewrite ?fmap_cons, ?filter_cons; repeat case_decide; try congruence; cbn; try lia.
  all: by destruct (P e.2).
Qed.
Lemma sound_over r : sound [] r → sound [] (starts_over r).
Proof.
  intros [A B C D]. unfold starts_over. apply sound_ends. rewrite app_nil_r. split; cbn; try done.
  - intros host. pose proof (B host) as Hb. rewrite app_nil_r in Hb. unfold starts_on in *. cbn. rewrite Hb.
    rewrite filter_app, app_length. apply (filter_count (rt_ends r) (is_over (rt_hub r))).
  - intros e He. apply list_elem_of_filter. split; [|auto]. destruct (is_over (rt_hub r) e.2) eqn:Ho; [|done].
    by destruct (over_gone _ _ A Ho).
Qed.
Lemma sound_on_hub e r :
  is_stopping e = false → (∀ b, b ∈ begins e (rt_hub r) → b ∈ rt_ends r) → sound [] r → sound [] (on_hub e r).
Proof. intros He Hb Hs. unfold on_hub. apply sound_over, sound_idle. by apply sound_exec_hub. Qed.

(** ** Every step *)

Lemma sound_quiet ex e r :
  is_stopping e = false → begins e (rt_hub r) = [] → sound ex r → sound ex (exec_hub e r).
Proof. intros He Hb. apply sound_exec_hub; [done|]. rewrite Hb. by intros b ?%not_elem_of_nil. Qed.
Lemma sound_quietly e r :
  is_stopping e = false → begins e (rt_hub r) = [] → sound [] r → sound [] (on_hub e r).
Proof. intros He Hb. apply sound_on_hub; [done|]. rewrite Hb. by intros b ?%not_elem_of_nil. Qed.
Lemma sound_same ex r r' : part r' = part r → rt_next r' = rt_next r → sound ex r → sound ex r'.
Proof. intros H1 H2. apply sound_part; [done|by rewrite H2]. Qed.
Lemma sound_set_phase ex p ph r :
  (∀ ru, rt_runs r !! p = Some ru → halts ph = halts (ru_phase ru) ∧ (retires ru = true → ph ≠ commanding)) →
  sound ex r → sound ex (set_phase p ph r).
Proof. intros Hp [A B C D]. split; try done. by apply fenced_phase. Qed.
Lemma sound_releaseAgent ex host a r : sound ex r → sound ex (releaseAgent host a r).
Proof.
  intros Hs. unfold releaseAgent. destruct (bool_decide _); [|done]. cbv zeta.
  assert (sound ex (exec_hub (DropAgent host) r)) by by apply sound_quiet.
  destruct (quitting _); [done|]. by apply sound_quiet.
Qed.
Lemma sound_close_agent ex a r : sound ex r → sound ex (close_agent a r).
Proof.
  intros Hs. unfold close_agent. apply (sound_same _ (exec_hub (Down a) (r <{ rt_closedByHub ::= set_add a }>)));
    [done..|].
  apply sound_quiet; [done..|]. by apply (sound_same _ r).
Qed.
Lemma sound_finish ex p stop r : sound ex r → sound ex (finish p stop r).
Proof.
  intros Hs. unfold finish. destruct (rt_runs r !! p) as [ru|] eqn:Hp; [|done]. destruct (ru_phase ru) eqn:Hf; try done.
  apply sound_set_phase; [|done]. intros ru'. rewrite Hp. intros [= <-]. by rewrite Hf.
Qed.
Lemma sound_stop_closed ex a r p : sound ex r → sound ex (stop_closed a r p).
Proof.
  intros Hs. unfold stop_closed. destruct (rt_runs r !! p) as [ru|]; [|done]. destruct (ru_phase ru); try done.
  destruct (negb _); [done|]. destruct (_ || _); [by apply sound_finish|].
  apply sound_finish, sound_releaseAgent. by apply (sound_same _ r).
Qed.
Lemma sound_stop_error ex a e r p : sound ex r → sound ex (stop_error a e r p).
Proof.
  intros Hs. unfold stop_error. destruct (rt_runs r !! p) as [ru|]; [|done]. destruct (answer_of e); [|done].
  destruct (bool_decide _); [by apply sound_finish|done].
Qed.
Lemma sound_each ex (f : Ret → nat → Ret) l r : (∀ r p, sound ex r → sound ex (f r p)) → sound ex r →
  sound ex (fold_left f l r).
Proof. intros Hf. revert r. induction l as [|p l IH]; intros r Hs; [done|]. cbn. auto. Qed.
(** A stop gone on with: its host is fenced no more. *)
Lemma sound_free ex p ru r r' :
  rt_runs r !! p = Some ru → halts (ru_phase ru) = true →
  rt_hub r' = ChannelLifecycle.exec (Stopping (ru_host ru) false) (rt_hub r) →
  (rt_ends r', rt_starts r', rt_underWay r', rt_keeping r', rt_next r') = (rt_ends r, rt_starts r, rt_underWay r,
    rt_keeping r, rt_next r) →
  (∀ p', p' ≠ p → rt_runs r' !! p' = rt_runs r !! p') →
  (if retires ru then ∃ ph, halts ph = false ∧ rt_runs r' !! p = Some (MkRun (ru_host ru) (ru_agent ru) (ru_for ru) ph)
   else rt_runs r' !! p = None) →
  (∀ host, host ≠ ru_host ru → rt_retired r' !! host = rt_retired r !! host) →
  sound ex r → sound ex r'.
Proof.
  intros Hp Hh Hv [= E1 E2 E3 E4 E5] Ho Hr Ht [A B C D]. split; rewrite ?Hv, ?E1, ?E3, ?E4, ?E5.
  - destruct A. by split.
  - intros host. unfold starts_on. rewrite E2. apply B.
  - exact C.
  - by eapply fenced_free.
Qed.
Lemma sound_retire_over ex p ru l running stop r :
  rt_runs r !! p = Some ru → ru_for ru = for_retirement l running → halts (ru_phase ru) = true →
  sound ex r → sound ex (retire_over p ru running l stop r).
Proof.
  intros Hp Hf Hh Hs. unfold retire_over. cbv zeta.
  assert (∀ ph T, halts ph = false → (∀ host, host ≠ ru_host ru → T !! host = rt_retired r !! host) →
    sound ex (set_phase p ph (exec_hub (Stopping (ru_host ru) false) r <{ rt_retired := T }>))) as Hfree.
  { intros ph T Hph HT. apply (sound_free ex p ru r); try done.
    - intros p' Hn. cbn. rewrite js_lookup_alter. by rewrite decide_False.
    - unfold retires. rewrite Hf. exists ph. split; [done|]. cbn. rewrite js_lookup_alter, decide_True, Hp by done.
      cbn. by rewrite Hf. }
  destruct (retirementOutcome stop).
  - assert (∀ host, host ≠ ru_host ru → <[ru_host ru := running]> (rt_retired r) !! host = rt_retired r !! host) as HT.
    { intros host Hne. by apply js_lookup_insert_ne. }
    destruct (session_of _ _); [destruct (_ || _)|]; by apply (Hfree _ (<[ru_host ru := running]> (rt_retired r))).
  - destruct l; [|by apply (Hfree _ (rt_retired r))]. by apply (sound_close_agent ex (ru_agent ru) _ (Hfree (over _)
    (rt_retired r) eq_refl (λ _ _, eq_refl))).
  - destruct l; [|by apply (Hfree _ (rt_retired r))]. by apply (sound_close_agent ex (ru_agent ru) _ (Hfree (over _)
    (rt_retired r) eq_refl (λ _ _, eq_refl))).
Qed.
(** Stops begun meanwhile are new. *)
Definition grows r r' : Prop := rt_next r <= rt_next r' ∧ ∀ p, p < rt_next r → rt_runs r' !! p = rt_runs r !! p.
Lemma grows_refl r : grows r r.
Proof. by split. Qed.
Lemma grows_trans r1 r2 r3 : grows r1 r2 → grows r2 r3 → grows r1 r3.
Proof. intros [A1 A2] [B1 B2]. split; [lia|]. intros p Hp. rewrite B2 by lia. auto. Qed.
Lemma grows_begin host a l r : grows r (begin host a l r).2.
Proof.
  unfold begin, requestDaemonStop. cbn [exec_hub]. split; [destruct (connected _ _); cbn; lia|].
  intros p Hp. destruct (connected _ _); cbn; rewrite js_lookup_insert_ne; done || lia.
Qed.
Lemma grows_retireIfIdle host r : grows r (retireIfIdle host r).2.
Proof.
  unfold retireIfIdle. destruct (rt_underWay r !! host), (agent_of host r) as [a|]; try apply grows_refl.
  destruct (qualifies host a r); [|apply grows_refl]. pose proof (grows_begin host a false r).
    by destruct (begin _ _ _ _).
Qed.
Lemma grows_fold (f : Ret → HostId → Ret) l r : (∀ r host, grows r (f r host)) → grows r (fold_left f l r).
Proof. intros Hf. revert r. induction l as [|host l IH]; intros r; [apply grows_refl|].
  eapply grows_trans; [apply Hf|apply IH]. Qed.
Lemma grows_endStart host r : grows r (endStart host r).
Proof.
  unfold endStart. destruct (pred _); [|by split].
  apply (grows_trans _ (r <{ rt_starts ::= delete host }>)); [by split|apply grows_retireIfIdle].
Qed.
Lemma grows_on_hub e r : grows r (on_hub e r).
Proof.
  unfold on_hub, starts_over. cbv zeta. set (u := fold_left _ _ (exec_hub e r)).
  assert (grows r u) as Hu.
  { apply (grows_trans _ (exec_hub e r)); [by split|]. apply grows_fold. intros. apply grows_retireIfIdle. }
  eapply grows_trans; [exact Hu|]. eapply grows_trans; [|apply grows_fold; intros; apply grows_endStart]. by split.
Qed.

Lemma sound_reconnects ex host acquiring r : sound ex r → sound ex (reconnects host acquiring r).
Proof. intros Hs. unfold reconnects. destruct (session_of _ _); [|done].
  destruct (_ && _); [by apply sound_quiet|done]. Qed.
Lemma sound_replace_over p ru acquiring answer r :
  rt_runs r !! p = Some ru → retires ru = false → halts (ru_phase ru) = true →
  sound [] r → sound [] (replace_over p (ru_host ru) acquiring answer r).
Proof.
  intros Hp Hr Hh Hs. unfold replace_over. cbv zeta. apply sound_reconnects.
  set (u := match answer with replaced => _ | _ => _ end).
  assert (rt_runs u !! p = Some ru ∧ sound [] u) as [Hu Hsu].
  { unfold u. destruct answer; try done. split; [|by apply sound_quietly].
    destruct (grows_on_hub (AgentStopped (ru_host ru)) r) as [_ Hk]. rewrite Hk; [done|].
      by eapply fe_fresh; [apply Hs|]. }
  apply (sound_free [] p ru u); try done.
  - intros p' Hn. cbn. by rewrite js_lookup_delete_ne.
  - rewrite Hr. cbn. by rewrite js_lookup_delete_eq.
Qed.
Lemma sound_resume p acquiring r : sound [] r → sound [] (resume p acquiring r).
Proof.
  intros Hs. unfold resume. destruct (rt_runs r !! p) as [ru|] eqn:Hp; [|done].
  destruct (ru_phase ru) as [|stop| | |] eqn:Hph; try done.
  assert (halts (ru_phase ru) = true) as Hh by by rewrite Hph.
  destruct (ru_for ru) as [l running|force] eqn:Hf; [destruct stop; by eapply sound_retire_over|].
  assert (retires ru = false) as Hr by (unfold retires; by rewrite Hf).
  destruct stop; try by apply sound_replace_over.
  apply sound_set_phase; [|done]. intros ru'. rewrite Hp. intros [= <-]. split; [by rewrite Hph|congruence].
Qed.
Lemma sound_commanded p ok acquiring r : sound [] r → sound [] (commanded p ok acquiring r).
Proof.
  intros Hs. unfold commanded. destruct (rt_runs r !! p) as [ru|] eqn:Hp; [|done].
  destruct (ru_phase ru) eqn:Hph, (ru_for ru) eqn:Hf; try done.
  assert (halts (ru_phase ru) = true ∧ retires ru = false) as [Hh Hr] by (unfold retires; by rewrite Hph, Hf).
  destruct ok; [|by apply sound_replace_over].
  apply sound_replace_over; [|done..|by apply sound_releaseAgent, sound_close_agent].
  unfold releaseAgent. destruct (bool_decide _); [|done]. cbv zeta. by destruct (quitting _).
Qed.
Lemma sound_local_started ex p ok r : sound ex r → sound ex (local_started p ok r).
Proof.
  intros Hs. unfold local_started. destruct (rt_runs r !! p) as [ru|] eqn:Hp; [|done].
  destruct (ru_phase ru) eqn:Hph; try done. cbv zeta.
  assert (∀ r', rt_runs r' = rt_runs r → sound ex r' → sound ex (set_phase p (over retired) r')) as Ho.
  { intros r' He. apply sound_set_phase. rewrite He, Hp. intros ru' [= <-]. by rewrite Hph. }
  destruct (_ || _); apply Ho; try done. by apply sound_quiet.
Qed.
Lemma sound_replies ex p o r : sound ex r → sound ex (replies p o r).
Proof.
  intros Hs. unfold replies. set (l := filter _ _). assert (sound ex (r <{ rt_replying ::= filter (λ e,
    e.2 ≠ p) }>)) as Hu by by apply (sound_same _ r).
  revert Hu. generalize (r <{ rt_replying ::= filter (λ e, e.2 ≠ p) }>). clear Hs.
    induction l as [|e l IH]; intros u Hu; [done|].
  cbn. apply IH. by apply (sound_same _ u).
Qed.
Lemma sound_settled ex p r : sound ex r → sound ex (settled p r).
Proof.
  intros Hs. unfold settled. destruct (rt_runs r !! p) as [ru|] eqn:Hp; [|done].
  destruct (ru_phase ru) as [| | | |o] eqn:Hph, (ru_for ru) eqn:Hf; try done. cbv zeta. apply sound_replies.
  destruct Hs as [A B C D].
  assert (rt_underWay r !! ru_host ru = Some p) as Hu.
  { apply (fe_under _ _ _ _ _ _ _ D). exists ru. unfold retires. by rewrite Hf. }
  rewrite bool_decide_eq_true_2 by done. split; try done. cbn.
  apply fenced_over; [done|by rewrite Hph|unfold retires; by rewrite Hf|done].
Qed.
Lemma sound_startOn ex host u r : sound ex r → sound ex (startOn host u r).
Proof.
  intros [A B C D]. split; try done.
  - intros on. pose proof (B on) as Hb. pose proof (B host) as Hh. unfold starts_on in *.
    change (rt_ends (startOn host u r)) with (rt_ends r ++ [(host, u)]).
      rewrite fmap_app, !filter_app, !length_app in *.
    change ([(host, u)].*1) with [host]. rewrite filter_cons, filter_nil. cbn. rewrite js_lookup_insert.
    unfold starts_on. destruct (decide (host = on)) as [<-|]; cbn; lia.
  - intros e He. cbn. apply elem_of_app. left. auto.
Qed.
Lemma sound_start n s r : sound [] r → sound [] (start n s r).
Proof.
  intros Hs. unfold start. apply sound_on_hub; [done| |by apply sound_startOn]. cbn.
  intros b ->%list_elem_of_singleton. apply elem_of_app. right. by left.
Qed.
Lemma sound_not_started n s r : sound [] r → sound [] (not_started n s r).
Proof.
  intros Hs. unfold not_started, its_spawn. destruct (h_waits (rt_hub r) !! n) as [[]|] eqn:Hw; try done.
  destruct (bool_decide _) eqn:Hb; [|done]. apply bool_decide_eq_true in Hb as (_ & _ & Hr).
  eapply (sound_hub _ _ _ []); [|by intros e ?%not_elem_of_nil| |done]; cbn; [starts|].
  apply ready_release. rewrite Hr. through (drop_wait n (rt_hub r)).
    by apply (ready_drop _ _ (w_spawnReach client host reuse)), Hw; apply Hs.
Qed.
Lemma sound_spawn_reached n s r : sound [] r → sound [] (spawn_reached n s r).
Proof.
  intros Hs. unfold spawn_reached. destruct (_ && _); [|done].
  pose proof (sound_retireIfIdle [] (sp_host s) r Hs) as Hr. destruct (retireIfIdle (sp_host s) r) as [[p|] u].
  - revert Hr. apply sound_part; [done|]. cbn. lia.
  - by apply sound_start.
Qed.
Lemma sound_ready_again i w r : sound [] r → sound [] (r <{ rt_ready ::= <[i := w]> }>).
Proof. by apply sound_same. Qed.
Lemma sound_after_retirement i r : sound [] r → sound [] (after_retirement i r).
Proof.
  intros Hs. unfold after_retirement. destruct (rt_ready r !! i) as [w|]; [|done]. destruct (_ || _); [done|]. cbv zeta.
  assert (sound [] (r <{ rt_ready ::= delete i }>)) as Hd by by apply (sound_same _ r).
  destruct (agent_of _ _) as [a|]; [destruct (connected a _); [by apply sound_start|]|];
    (destruct (_ || _); [by apply sound_not_started|by apply sound_ready_again]).
Qed.
Lemma sound_reached_again i reached r : sound [] r → sound [] (reached_again i reached r).
Proof.
  intros Hs. unfold reached_again. destruct (rt_ready r !! i) as [w|]; [|done]. destruct (rd_reaching w); [|done].
    cbv zeta.
  assert (sound [] (r <{ rt_ready ::= delete i }>)) as Hd by by apply (sound_same _ r).
  set (a := match reached with Some _ => _ | None => _ end). destruct a;
    [by apply sound_start|by apply sound_not_started].
Qed.
Lemma sound_restart_asked ch r : sound [] r → sound [] (restart_asked ch r).
Proof.
  intros Hs. unfold restart_asked. cbv zeta. assert (sound [] (on_hub (Restart ch) r)) as Hu by by apply sound_quietly.
  destruct (h_waits _ !! _) as [[]|]; try done.
  destruct (snd <$> _) as [host|]; [|revert Hu; apply sound_part; [done|cbn; lia]].
  pose proof (sound_retireIfIdle [] host _ Hu) as Hr. destruct (retireIfIdle host _) as [after u].
  revert Hr. apply sound_part; [done|]. cbn. lia.
Qed.
(** The host of a terminal being restarted is the one read as the restart was asked for. *)
Definition keeps_host (e : REv) r : Prop :=
  match e with
  | RestartPasses i => ∀ w ch, rt_pending r !! i = Some w → h_waits (rt_hub r) !! pe_wait w = Some (w_restartBegin ch) →
                         snd <$> getChannelWithHost ch (rt_hub r) = pe_host w
  | _ => True
  end.
Lemma sound_restart_goes i r : keeps_host (RestartPasses i) r → sound [] r → sound [] (restart_goes i r).
Proof.
  intros Hk Hs. unfold restart_goes. destruct (rt_pending r !! i) as [w|] eqn:Hp; [|done].
  destruct (match pe_after w with Some p => _ | None => _ end); [|done]. cbv zeta. specialize (Hk w).
  assert (sound [] (r <{ rt_pending ::= delete i }>)) as Hd by by apply (sound_same _ r).
  change (rt_hub (r <{ rt_pending ::= delete i }>)) with (rt_hub r).
  destruct (h_waits (rt_hub r) !! pe_wait w) as [[| | |ch| | | | | |]|] eqn:Hw;
    try by (apply sound_quietly; [done| |done]; cbn; rewrite ?Hw).
  specialize (Hk ch Hp eq_refl). destruct (pe_host w) as [host|].
  - apply sound_on_hub; [done| |by apply sound_startOn]. cbn. rewrite Hw.
    destruct (getChannelWithHost ch (rt_hub r)) as [[row on]|]; [|done]. injection Hk as ->.
    intros b ->%list_elem_of_singleton. apply elem_of_app. right. by left.
  - apply sound_quietly; [done| |done]. cbn. rewrite Hw. by destruct (getChannelWithHost ch (rt_hub r)).
Qed.
Lemma sound_session_deleted host session r : sound [] r → sound [] (session_deleted host session r).
Proof.
  intros Hs. unfold session_deleted. destruct (stopping host r); [by apply (sound_same _ r)|].
  destruct (bool_decide _); [|done]. cbv zeta.
  assert (sound [] (on_hub (CloseSession host session (Some killed)) (exec_hub (DropAgent host) r))) as Hc.
  { apply sound_quietly; [done..|]. by apply sound_quiet. }
  destruct (agent_of host r) as [a|]; [|done]. unfold retireDetached.
  destruct (isUnderWay host _) eqn:Hu; cbn [orb]; [by apply sound_close_agent|].
  destruct (qualifies host a _) eqn:Hq; cbn [negb]; [by apply sound_begin|by apply sound_close_agent].
Qed.
Lemma sound_asks host a force r :
  stopping host r = false → connected a r = true → host_is_ssh host = true → sound [] r →
  sound [] (requestDaemonStop host a (for_replace force) (exec_hub (Stopping host true) r)).2.
Proof.
  intros Hn%bool_decide_eq_false Hc Hh [A B C D]. unfold requestDaemonStop, connected in *.
  cbn [exec_hub ChannelLifecycle.exec]. cbn [set_field set_rt_hub rt_hub set_rt_runs set_rt_next].
  cbn. rewrite Hc, Hh. split; cbn; try done.
  - destruct A. by split.
  - apply (fenced_begins _ _ _ (rt_underWay r) _ _ _ _ (MkRun host a (for_replace force) asked)); try done.
    intros host' p. cbn. intuition done.
Qed.
Lemma sound_replaceAgent host force stopTransfers r : sound [] r → sound [] (replaceAgent host force stopTransfers r).
Proof.
  intros Hs. unfold replaceAgent. assert (∀ s, sound [] (put s r)) as Hput by (intros s; by apply (sound_same _ r)).
  destruct (stopping host r) eqn:Hn; [apply Hput|]. destruct (host_is_known host && negb (host_is_ssh host)).
  - unfold replaceLocalAgent. destruct (kept_why host r); [apply Hput|].
    pose proof (sound_retireIfIdle [] host r Hs) as Hr. destruct (retireIfIdle host r) as [[p|] u];
      [by apply (sound_same _ u)|by apply (sound_same _ u)].
  - destruct (host_is_ssh host) eqn:Hh; [|apply Hput]. destruct (agent_of host r) as [a|]; [|apply Hput].
    destruct (connected a r) eqn:Hc; [|apply Hput]. cbn [negb]. destruct (negb (usedRemoteDaemon a)); [apply Hput|].
      cbv zeta.
    destruct (_ && _); [apply sound_reconnects, Hput|].
    destruct (0 <? transfersOn host r); [|by apply sound_asks].
    change (exec_hub (Stopping host true) r |> put (interrupted host)) with (exec_hub (Stopping host true) (put
      (interrupted host) r)).
    by apply sound_asks.
Qed.
Lemma sound_go o r : sound [] r → sound [] (go o r).
Proof.
  destruct o; cbn [go]; [by apply sound_quietly|apply sound_restart_asked|apply sound_session_deleted|apply
    sound_replaceAgent].
Qed.
Lemma sound_ask_op o r : sound [] r → sound [] (ask_op o r).
Proof.
  intros Hs. unfold ask_op. destruct (op_host o r) as [host|]; [|by apply sound_go].
  destruct (isUnderWay host r); [|by apply sound_go]. revert Hs. apply sound_part; [done|cbn; lia].
Qed.
Lemma sound_exec e r : keeps_host e r → sound [] r → sound [] (exec e r).
Proof.
  intros Hk Hs. destruct e; cbn [exec].
  - destruct (of_the_hub e) eqn:He; [|done]. destruct e; try done; try by apply sound_quietly.
    destruct s; [done|by apply sound_quietly].
  - by apply sound_ask_op.
  - by apply sound_spawn_reached.
  - by apply sound_after_retirement.
  - by apply sound_reached_again.
  - by apply sound_restart_goes.
  - unfold seen. destruct (rt_settling r !! i) as [w|]; [|done].
    destruct (isUnderWay _ r); [done|by apply (sound_same _ r)].
  - unfold goes_on. destruct (rt_settling r !! i) as [w|]; [|done]. destruct (se_seen w); [|done]. apply sound_go.
    by apply (sound_same _ r).
  - unfold agent_closes. apply sound_quietly; [done..|]. apply sound_each; [intros; by apply sound_stop_closed|].
    by apply sound_quiet.
  - unfold agent_says. cbv zeta. assert (sound [] (fold_left (stop_error a e) (listeners r) r)) as Hf.
    { apply sound_each; [intros; by apply sound_stop_error|done]. }
    destruct (String.eqb _ _); [|done]. apply sound_close_agent. by apply sound_quietly.
  - by apply sound_finish.
  - by apply sound_resume.
  - by apply sound_commanded.
  - by apply sound_local_started.
  - by apply sound_settled.
  - destruct on.
    + unfold stopping. destruct (bool_decide _) eqn:Hn; [done|]. apply bool_decide_eq_false in Hn.
      destruct Hs as [A B C D]. split; cbn; try done; [destruct A; by split|by apply fenced_keep].
    + destruct (bool_decide _) eqn:Hn; [|done]. apply bool_decide_eq_true in Hn.
      destruct Hs as [A B C D]. split; cbn; try done; [destruct A; by split|by apply fenced_unkeep].
  - assert (sound [] (r <{ rt_uploads ::= <[host := n]> }>)) as Hu by by apply (sound_same _ r).
    cbv zeta. destruct (n =? 0); [by apply sound_retireIfIdle|done].
Qed.
Fixpoint steady r (es : list (Z * REv)) : Prop :=
  match es with [] => True | e :: es => keeps_host e.2 (r <{ rt_hub ::= set_field h_now (λ _, e.1) }>) ∧
    steady (step r e) es end.
Lemma sound_now t r : sound [] r → sound [] (r <{ rt_hub ::= set_field h_now (λ _, t) }>).
Proof.
  intros Hs. eapply (sound_hub _ _ _ []); [|by intros b ?%not_elem_of_nil| |exact Hs].
  - apply (leaves_same _ _ (rt_hub r)); [done|apply leaves_refl].
  - by apply (ready_keep _ (rt_hub r)), Hs.
Qed.
Lemma sound_step r e : keeps_host e.2 (r <{ rt_hub ::= set_field h_now (λ _, e.1) }>) → sound [] r →
  sound [] (step r e).
Proof. intros Hk Hs. apply sound_exec; [done|]. by apply sound_now. Qed.
Lemma sound_run es h :
  h_waits h = ∅ → h_stopping h = [] → steady (fresh h) es → sound [] (run step (fresh h) es).
Proof.
  intros Hw Hst. assert (sound [] (fresh h)) as Hs.
  { split; cbn.
    - split; intros until 0; rewrite ?Hw; done.
    - done.
    - intros e (n & w & He & _). rewrite Hw in He. done.
    - rewrite Hst. split; try done; try by intros host ?%not_elem_of_nil.
      intros host p. split; [done|by intros (ru & ? & _)]. }
  revert Hs. generalize (fresh h). induction es as [|e es IH]; intros r Hs Hk; [done|]. destruct Hk as [Hk Hks].
  apply IH; [by apply sound_step|done].
Qed.

(** C13: In every run of the hub in which a terminal being restarted is still on the host read as its
    restart was asked for when it goes on ([steady]), each stop asked of an agent and not gone on with is of a host
      that is
    fenced, no other being asked of that host. Where the hub asks on its own, no SPAWN of a window or of a
    restart is out there, the agent is older than the hub, and is not of the version last retired
    there. A host stays fenced for no other reason, and every start in flight is counted. *)
Theorem stop_crosses_no_start es h :
  h_waits h = ∅ → h_stopping h = [] → steady (fresh h) es →
  let r := run step (fresh h) es in
  (∀ p ru, rt_runs r !! p = Some ru → halts (ru_phase ru) = true →
     ru_host ru ∈ h_stopping (rt_hub r) ∧
     (∀ p' ru', rt_runs r !! p' = Some ru' → halts (ru_phase ru') = true → ru_host ru' = ru_host ru → p' = p) ∧
     (retires ru = true →
        (∀ n w e, h_waits (rt_hub r) !! n = Some w → sends w = true → need n w = Some e → e.1 ≠ ru_host ru) ∧
        ∃ running, agentVersion (ru_agent ru) = Some running ∧ isOlderVersion running HUB_VERSION = true ∧
                   rt_retired r !! ru_host ru ≠ Some running)) ∧
  (∀ host, host ∈ h_stopping (rt_hub r) →
     host ∈ rt_keeping r ∨ ∃ p ru, rt_runs r !! p = Some ru ∧ ru_host ru = host ∧ halts (ru_phase ru) = true) ∧
  (∀ n w e, h_waits (rt_hub r) !! n = Some w → need n w = Some e → 0 < starts_on e.1 r).
Proof.
  intros Hw Hst Hk r. assert (sound [] r) as Hs by by apply sound_run. clearbody r.
  pose proof (so_fenced _ _ Hs) as [A B C D E F J G I]. split_and!; [|done|].
  - intros p ru Hp Hh. split_and!; [by apply (B p)|by intros; eapply C|]. intros Hr. split.
    + intros n w e He Hse Hn He1. apply (G p ru Hp Hr Hh). exists e. split; [by exists n, w|done].
    + destruct (ru_for ru) as [l running|] eqn:Hf; [|unfold retires in Hr; by rewrite Hf in Hr].
      destruct (I p ru l running Hp Hf) as (? & ? & _ & Ht). exists running. auto.
  - intros n w e He Hn. destruct (starts_on e.1 r) eqn:H0; [|lia].
    assert (e ∈ rt_ends r) as Hin by (apply Hs; by exists n, w). rewrite (so_counts _ _ Hs) in H0.
    assert (e.1 ∈ filter (λ on, on = e.1) ((rt_ends r).*1 ++ [])) as Hf.
    { apply list_elem_of_filter. split; [done|]. apply elem_of_app. left. by apply list_elem_of_fmap_2. }
    destruct (filter _ _); [by apply not_elem_of_nil in Hf|done].
Qed.
End sound.

(** ** On a hub with an agent older than it, beside it and on a remote host *)

#[local] Open Scope string_scope.
Definition rt_setup : Setup :=
  {| titleSource := dynamic; staticTitle := ""; host_is_known := λ _, true;
    host_is_ssh := λ host, String.eqb host "r" |}.
Definition rt_versions : AgentRetirement.Versions :=
  {| HUB_VERSION := txt "0.9.0";
     agentVersion := λ a, nth a [Some (txt "0.8.0"); Some (txt "0.8.5"); Some (txt "0.9.0")] None;
     usedRemoteDaemon := λ _, true |}.
#[local] Existing Instance rt_setup.
#[local] Existing Instance rt_versions.
Definition old_hub : ExHub :=
  MkHub _ _ Wait 0 false (JsMap [("h", 0); ("r", 0)]) [0; 1; 2] (JsMap [("h", 0); ("r", 1)])
    [MkSession "s" "h" active; MkSession "q" "r" active]
    ∅ [] [] ∅ [] [] [] [] 0 ∅ ∅ 0 ∅ (JsMap [("s", ("h", active)); ("q", ("r", active))]) ∅ ∅ [] ∅ ∅
    (SnapshotScheduler.new None) ex_outputs [].
Definition ex_ret (es : list REv) : Ret _ _ := run step (fresh old_hub) ((λ e, (1%Z, e)) <$> es).
Definition a_spawn (host : HostId) (session : SessionId) : Spawning := MkSpawning "w" host 0 session ex_config None 80
  24 None.
(** A window's start finds the agent older than the hub, and a second waits. *)
Definition starts_meet : list REv :=
  [OfTheHub (Connect "w"); OfTheHub (Spawn "w" "h" None false); Asked (op_spawn 0); SpawnReady 1 (a_spawn "h" "s");
   OfTheHub (Spawn "w" "h" None false); Asked (op_spawn 2)].
(** It stops, the one beside the hub is started, and both start there. *)
Definition starts_land : list REv :=
  starts_meet ++ [AgentCloses "h" 0 true; Resume 0 false; OfTheHub (Adopt "h" 2); LocalStarted 0 true; Settled 0;
    AfterRetirement 1; Seen 2; GoesOn 2].
Example agent_replaced_under_starts :
  rt_log (ex_ret starts_meet) = [asked_to_stop 0 false] ∧ h_waits (rt_hub (ex_ret starts_meet)) !! 3 = None ∧
  h_waits (rt_hub (ex_ret starts_land)) !! 3 = Some (w_spawn (set_agent 2 (a_spawn "h" "s"))) ∧
  rt_underWay (ex_ret starts_land) = ∅ ∧ rt_retired (ex_ret starts_land) !! "h" = Some (txt "0.8.0").
Proof. vm_compute. repeat split. Qed.
Lemma stop_crosses_no_start_witness :
  let r := ex_ret starts_meet in
  rt_runs r !! 0 = Some (MkRun "h" 0 (for_retirement false (txt "0.8.0")) asked) ∧
  (∀ n w e, h_waits (rt_hub r) !! n = Some w → sends w = true → need n w = Some e → e.1 ≠ "h").
Proof.
  split; [vm_compute; reflexivity|].
  destruct (stop_crosses_no_start ((λ e, (1%Z, e)) <$> starts_meet) old_hub) as (H & _);
    [reflexivity|reflexivity|vm_compute; repeat split|].
  destruct (H 0 (MkRun "h" 0 (for_retirement false (txt "0.8.0")) asked)) as (_ & _ & Hr); [vm_compute;
    reflexivity|reflexivity|].
  exact (proj1 (Hr eq_refl)).
Defined.
(** Reached again on a daemon another older hub had started meanwhile, which the hub retires in turn: the
    start that waited for the first is refused as though someone had asked for the stop. *)
Definition refused_by_the_hub : list REv :=
  [OfTheHub (Connect "w"); OfTheHub (Spawn "w" "r" None false); Asked (op_spawn 0); SpawnReady 1 (a_spawn "r" "q");
   AgentCloses "r" 0 true; Resume 0 false; Settled 0; AfterRetirement 1;
   OfTheHub (Adopt "r" 1); OfTheHub (AskStates "r" 1 (adopting false)); OfTheHub (States_ 2 []);
     ReachedAgain 1 (Some 1)].
Example start_refused_by_a_retirement :
  let r := ex_ret refused_by_the_hub in
  rt_log r = [asked_to_stop 0 false; asked_to_stop 1 false] ∧
  last (h_log (rt_hub r)) = Some (to_client "w" (ERROR "HOST_BUSY" None)).
Proof. vm_compute. repeat split. Qed.
