(* ===== verification/RetirementEnds.v ===== *)
(** * A retirement ends

    [rank]: how far a stop still has to go. No event sets it back ([ahead]), and a retirement under way
    always has an event of its own that takes it further, its timer at worst, so that whoever waits
    for it goes on. *)

From S2P Require Import Prelude JsMap Text SpoolDal OutputChunker Replay SnapshotScheduler Versions ChannelData ChannelTrackers StateBroadcaster ChannelLifecycle ChannelChanges ChannelOps ChannelExample ChannelStarts AgentRetirement RetirementStarts RetirementSafety.
#[local] Open Scope lasterm_scope.

Create HintDb ahead.
Section ends.
Context {set_up : Setup} {Sc Ou : Type} {sc : Screens Sc} {ou : Outputs Ou} {known : AgentRetirement.Versions}.
Notation Ret := (Ret Sc Ou).
Implicit Types (r u v : Ret) (host : HostId).

Definition phase_rank (ph : Phase) : nat :=
  match ph with asked => 5 | answered _ => 4 | commanding => 3 | starting_local _ => 2 | over _ => 1 end.
Definition rank r (p : nat) : nat := match rt_runs r !! p with Some ru => phase_rank (ru_phase ru) | None => 0 end.
Record ahead r r' : Prop := {
  ah_next : rt_next r <= rt_next r';
  ah_rank p : p < rt_next r → rank r' p <= rank r p
}.
Lemma ahead_refl r : ahead r r.
Proof. by split. Qed.
Lemma ahead_trans r u v : ahead r u → ahead u v → ahead r v.
Proof. intros [A1 A2] [B1 B2]. split; [lia|]. intros p Hp. etrans; [apply B2; lia|auto]. Qed.
Lemma ahead_grows r u v : grows u v → ahead r u → ahead r v.
Proof.
  intros [H1 H2] Hr. eapply ahead_trans; [exact Hr|]. split; [done|]. intros p Hp. unfold rank. by rewrite H2.
Qed.
(** What leaves the stops alone. *)
Lemma ahead_same r u v : rt_runs v = rt_runs u → rt_next u <= rt_next v → ahead r u → ahead r v.
Proof. intros H1 H2. apply ahead_grows. by split; [|intros p _; rewrite H1]. Qed.
Lemma ahead_fold {A} (f : Ret → A → Ret) l r u : (∀ v x, ahead r v → ahead r (f v x)) → ahead r u →
  ahead r (fold_left f l u).
Proof. intros Hf. revert u. induction l as [|x l IH]; intros u Hu; [done|]. cbn. auto. Qed.
Lemma ahead_phase r u p ph :
  (∀ ru, rt_runs u !! p = Some ru → phase_rank ph <= phase_rank (ru_phase ru)) → ahead r u → ahead r (set_phase p ph u).
Proof.
  intros Hp Hr. eapply ahead_trans; [exact Hr|]. split; [done|]. intros p' _. unfold rank. cbn. rewrite js_lookup_alter.
  destruct (decide (p = p')) as [<-|]; [|done]. destruct (rt_runs u !! p) as [ru|]; [|done]. by apply (Hp ru).
Qed.
Lemma ahead_delete r u p : ahead r u → ahead r (u <{ rt_runs ::= delete p }>).
Proof.
  intros Hr. eapply ahead_trans; [exact Hr|]. split; [done|]. intros p' _. unfold rank. cbn. rewrite js_lookup_delete.
  destruct (decide _); [lia|done].
Qed.
Lemma ahead_exec_hub e r u : ahead r u → ahead r (exec_hub e u).
Proof. by apply ahead_same. Qed.
Lemma ahead_put s r u : ahead r u → ahead r (put s u).
Proof. by apply ahead_same. Qed.
Lemma ahead_on_hub e r u : ahead r u → ahead r (on_hub e u).
Proof. apply ahead_grows, grows_on_hub. Qed.
Lemma ahead_retireIfIdle host r u : ahead r u → ahead r (retireIfIdle host u).2.
Proof. apply ahead_grows, grows_retireIfIdle. Qed.
End ends.
#[export] Hint Resolve ahead_refl ahead_fold ahead_delete ahead_exec_hub ahead_put ahead_on_hub ahead_retireIfIdle :
  ahead.
#[export] Hint Extern 2 (ahead _ (set_field _ _ ?v)) => simple apply (ahead_same _ v); [reflexivity|cbn; lia|] : ahead.
#[export] Hint Extern 3 (ahead _ (if ?b then _ else _)) => destruct b : ahead.
#[export] Hint Extern 3 (ahead _ (match ?x with _ => _ end)) => destruct x : ahead.
Ltac onward := intros; cbv beta iota zeta; eauto 40 with ahead nocore.

Section onwards.
Context {set_up : Setup} {Sc Ou : Type} {sc : Screens Sc} {ou : Outputs Ou} {known : AgentRetirement.Versions}.
Notation Ret := (Ret Sc Ou).
Implicit Types (r u v : Ret) (host : HostId).

Lemma ahead_releaseAgent host a r u : ahead r u → ahead r (releaseAgent host a u).
Proof. unfold releaseAgent. onward. Qed.
Lemma ahead_close_agent a r u : ahead r u → ahead r (close_agent a u).
Proof. unfold close_agent. onward. Qed.
Lemma ahead_finish p stop r u : ahead r u → ahead r (finish p stop u).
Proof.
  intros Hu. unfold finish. destruct (rt_runs u !! p) as [ru|] eqn:Hp; [|done].
    destruct (ru_phase ru) eqn:Hph; try done.
  apply ahead_phase; [|done]. intros ru'. rewrite Hp. intros [= <-]. rewrite Hph. cbn. lia.
Qed.
Lemma ahead_stop_closed a p r u : ahead r u → ahead r (stop_closed a u p).
Proof. pose proof ahead_finish. pose proof ahead_releaseAgent. unfold stop_closed. onward. Qed.
Lemma ahead_stop_error a e p r u : ahead r u → ahead r (stop_error a e u p).
Proof. pose proof ahead_finish. unfold stop_error. onward. Qed.
Lemma ahead_reconnects host acquiring r u : ahead r u → ahead r (reconnects host acquiring u).
Proof. unfold reconnects. onward. Qed.
Lemma ahead_replace_over p host acquiring answer r u : ahead r u → ahead r (replace_over p host acquiring answer u).
Proof. pose proof ahead_reconnects. unfold replace_over. onward. Qed.
(** To a phase no further than [n] from its end, whatever else is done before. *)
Lemma ahead_to p ph ru r u v :
  rt_runs u !! p = Some ru → phase_rank ph <= phase_rank (ru_phase ru) → rt_runs v = rt_runs u →
    rt_next u <= rt_next v →
  ahead r u → ahead r (set_phase p ph v).
Proof.
  intros Hp Hph Hv Hn Hu. apply ahead_phase; [|by eapply ahead_same]. rewrite Hv, Hp. by intros ? [= <-].
Qed.
Lemma ahead_retire_over p ru l running stop r u :
  rt_runs u !! p = Some ru → 3 <= phase_rank (ru_phase ru) → ahead r u → ahead r (retire_over p ru running l stop u).
Proof.
  intros Hp Hr Hu. unfold retire_over. cbv zeta.
  assert (∀ ph v, phase_rank ph <= 3 → rt_runs v = rt_runs u → rt_next u <= rt_next v →
    ahead r (set_phase p ph v)) as Ht.
  { intros ph v Hph Hv Hn. eapply ahead_to; [exact Hp|lia|done..]. }
  destruct (retirementOutcome stop).
  - destruct (session_of _ _); [destruct (_ || _)|]; apply Ht; cbn; done || lia.
  - apply Ht; [cbn; lia|by destruct l..].
  - apply Ht; [cbn; lia|by destruct l..].
Qed.
Lemma ahead_resume p acquiring r u : ahead r u → ahead r (resume p acquiring u).
Proof.
  pose proof ahead_replace_over. intros Hu. unfold resume. destruct (rt_runs u !! p) as [ru|] eqn:Hp; [|done].
  destruct (ru_phase ru) as [|stop| | |] eqn:Hph; try done.
  destruct (ru_for ru) as [l running|]; [destruct stop; apply ahead_retire_over; rewrite ?Hph; cbn; done || lia|].
  destruct stop; auto. eapply ahead_to; [exact Hp|rewrite Hph; cbn; lia|done..].
Qed.
Lemma ahead_commanded p ok acquiring r u : ahead r u → ahead r (commanded p ok acquiring u).
Proof.
  pose proof ahead_replace_over. pose proof ahead_releaseAgent. pose proof ahead_close_agent. unfold commanded. onward.
Qed.
Lemma ahead_local_started p ok r u : ahead r u → ahead r (local_started p ok u).
Proof.
  intros Hu. unfold local_started. destruct (rt_runs u !! p) as [ru|] eqn:Hp; [|done].
    destruct (ru_phase ru) eqn:Hph; try done.
  cbv zeta. eapply ahead_to; [exact Hp|rewrite Hph; cbn; lia|by destruct (_ || _)..|done].
Qed.
Definition stops r := (rt_runs r, rt_next r, rt_underWay r, rt_outcomes r).
Lemma stops_replies p o u : stops (replies p o u) = stops u.
Proof.
  unfold replies. change (stops u) with (stops (u <{ rt_replying ::= filter (λ e, e.2 ≠ p) }>)).
  generalize (u <{ rt_replying ::= filter (λ e, e.2 ≠ p) }>). generalize (filter (λ e, e.2 = p) (rt_replying u)).
  intros l. induction l as [|e l IH]; intros v; [done|]. cbn. by rewrite IH.
Qed.
Lemma ahead_replies p o r u : ahead r u → ahead r (replies p o u).
Proof. pose proof (stops_replies p o u) as [= H1 H2 _ _]. apply ahead_same; [done|by rewrite H2]. Qed.
Lemma ahead_settled p r u : ahead r u → ahead r (settled p u).
Proof.
  pose proof ahead_replies. intros Hu. unfold settled. destruct (rt_runs u !! p) as [ru|]; [|done].
  destruct (ru_phase ru), (ru_for ru); try done. cbv zeta.
  apply ahead_replies, (ahead_same _ (u <{ rt_runs ::= delete p }>));
    [by destruct (bool_decide _)|by destruct (bool_decide _)|].
  by apply ahead_delete.
Qed.
Lemma ahead_start n s r u : ahead r u → ahead r (start n s u).
Proof. unfold start, startOn. onward. Qed.
Lemma ahead_not_started n s r u : ahead r u → ahead r (not_started n s u).
Proof. unfold not_started. onward. Qed.
Lemma ahead_begin host a l r u : ahead r u → ahead r (begin host a l u).2.
Proof. apply ahead_grows, grows_begin. Qed.
Lemma ahead_spawn_reached n s r u : ahead r u → ahead r (spawn_reached n s u).
Proof.
  intros Hu. unfold spawn_reached. destruct (_ && _); [|done].
  pose proof (ahead_retireIfIdle (sp_host s) r u Hu) as Hr. destruct (retireIfIdle (sp_host s) u) as [[p|] v];
    [onward|by apply ahead_start].
Qed.
Lemma ahead_restart_asked ch r u : ahead r u → ahead r (restart_asked ch u).
Proof.
  intros Hu%(ahead_on_hub (Restart ch)). unfold restart_asked. cbv zeta. destruct (h_waits _ !! _) as [[]|]; try done.
  destruct (snd <$> _) as [host|]; [|onward].
  pose proof (ahead_retireIfIdle host r _ Hu) as Hr. destruct (retireIfIdle host _) as [after v]. onward.
Qed.
Lemma ahead_session_deleted host session r u : ahead r u → ahead r (session_deleted host session u).
Proof.
  intros Hu. unfold session_deleted. destruct (stopping host u); [onward|]. destruct (bool_decide _); [|done]. cbv zeta.
  assert (ahead r (on_hub (CloseSession host session (Some killed)) (exec_hub (DropAgent host) u))) as Hc by onward.
  destruct (agent_of host u) as [a|]; [|done]. unfold retireDetached.
  destruct (_ || _); [by apply ahead_close_agent|by apply ahead_begin].
Qed.
Lemma ahead_asks host a f r u : ahead r u → ahead r (requestDaemonStop host a f u).2.
Proof.
  intros Hu. eapply ahead_grows; [|exact Hu]. unfold requestDaemonStop.
  split; [destruct (connected _ _); cbn; lia|]. intros p Hp. destruct (connected _ _); cbn;
    rewrite js_lookup_insert_ne; done || lia.
Qed.
Lemma ahead_replaceAgent host force stopTransfers r u : ahead r u → ahead r (replaceAgent host force stopTransfers u).
Proof.
  pose proof ahead_reconnects. intros Hu. unfold replaceAgent, replaceLocalAgent.
  pose proof (ahead_retireIfIdle host r u Hu) as Hr. destruct (retireIfIdle host u) as [[p|] v].
  all: repeat match goal with |- ahead _ (if ?b then _ else _) => destruct b end; try by onward.
  all: repeat match goal with |- ahead _ (match ?x with _ => _ end) => destruct x end; try by onward.
  all: repeat match goal with |- ahead _ (if ?b then _ else _) => destruct b end; try by onward.
  all: cbv zeta; repeat match goal with |- ahead _ (if ?b then _ else _) => destruct b end; try by onward.
  all: apply ahead_asks; onward.
Qed.
Lemma ahead_go o r u : ahead r u → ahead r (go o u).
Proof.
  destruct o; cbn [go]; [apply ahead_on_hub|apply ahead_restart_asked|apply ahead_session_deleted|apply
    ahead_replaceAgent].
Qed.
Lemma ahead_exec e r : ahead r (exec e r).
Proof.
  pose proof ahead_start. pose proof ahead_not_started. pose proof ahead_close_agent. pose proof ahead_go.
  destruct e; cbn [exec].
  - destruct (of_the_hub e); [apply ahead_on_hub|]; apply ahead_refl.
  - unfold ask_op. onward.
  - apply ahead_spawn_reached. onward.
  - unfold after_retirement. onward.
  - unfold reached_again. destruct (rt_ready r !! i) as [w|]; [|onward]. destruct (rd_reaching w); [|onward]. cbv zeta.
    match goal with |- ahead _ (match ?x with _ => _ end) => destruct x end; onward.
  - unfold restart_goes, startOn. destruct (rt_pending r !! i) as [w|]; [|onward].
    match goal with |- ahead _ (if ?x then _ else _) => destruct x end; [|onward]. cbv zeta.
    assert (ahead r (r <{ rt_pending ::= delete i }>)) as Hd by by apply (ahead_same _ r). revert Hd.
    generalize (r <{ rt_pending ::= delete i }>). intros u Hu.
    destruct (h_waits (rt_hub u) !! pe_wait w) as [[]|], (pe_host w); apply ahead_on_hub; onward.
  - unfold seen. onward.
  - unfold goes_on. onward.
  - unfold agent_closes. apply ahead_on_hub, ahead_fold; [intros; by apply ahead_stop_closed|onward].
  - unfold agent_says. cbv zeta. assert (ahead r (fold_left (stop_error a e) (listeners r) r)) as Hf.
    { apply ahead_fold; [intros; by apply ahead_stop_error|onward]. }
    destruct (String.eqb _ _); [by apply ahead_close_agent, ahead_on_hub|done].
  - apply ahead_finish. onward.
  - apply ahead_resume. onward.
  - apply ahead_commanded. onward.
  - apply ahead_local_started. onward.
  - apply ahead_settled. onward.
  - onward.
  - onward.
Qed.
Lemma ahead_step e r : ahead r (step r e).
Proof. eapply ahead_trans; [|apply ahead_exec]. by apply (ahead_same _ r). Qed.

(** What a retirement goes on by. *)
Definition own (p : nat) (e : REv) : Prop := e ∈ [StopTimer p; Resume p false; LocalStarted p false; Settled p].
Lemma timer_fires t p ru r :
  rt_runs r !! p = Some ru → ru_phase ru = asked →
  rt_runs (step r (t, StopTimer p)) !! p = Some (MkRun (ru_host ru) (ru_agent ru) (ru_for ru) (answered st_timeout)).
Proof.
  intros Hp Hph. unfold step. cbn [fst snd exec]. unfold finish. cbn. rewrite Hp, Hph. cbn.
  by rewrite js_lookup_alter, decide_True, Hp.
Qed.
Lemma resumes t p ru stop r :
  rt_runs r !! p = Some ru → ru_phase ru = answered stop → retires ru = true →
  ∃ ph, rt_runs (step r (t, Resume p false)) !! p = Some (MkRun (ru_host ru) (ru_agent ru) (ru_for ru) ph) ∧
    phase_rank ph <= 2.
Proof.
  intros Hp Hph Hr. unfold step. cbn [fst snd exec]. unfold resume. cbn [set_field set_rt_hub]. cbn. rewrite Hp, Hph.
  unfold retires in Hr. destruct (ru_for ru) as [l running|] eqn:Hf; [|done].
  set (u := set_rt_hub _ r).
  assert (∃ ph, rt_runs (retire_over p ru running l stop u) !! p = Some (MkRun (ru_host ru) (ru_agent ru) (ru_for ru)
    ph) ∧ phase_rank ph <= 2) as Ho.
  { assert (∀ ph v, phase_rank ph <= 2 → rt_runs v = rt_runs r →
      ∃ ph', rt_runs (set_phase p ph v) !! p = Some (MkRun (ru_host ru) (ru_agent ru) (ru_for ru) ph') ∧
        phase_rank ph' <= 2) as Ht.
    { intros ph v Hr' Hv. exists ph. cbn. rewrite js_lookup_alter, decide_True, Hv, Hp by done. done. }
    unfold retire_over. cbv zeta. destruct (retirementOutcome stop).
    - destruct (session_of _ _); [destruct (_ || _)|]; by apply Ht; [cbn; lia|].
    - by apply Ht; [cbn; lia|destruct l].
    - by apply Ht; [cbn; lia|destruct l]. }
  rewrite Hf in Ho. by destruct stop.
Qed.
Lemma start_over t p ru session r :
  rt_runs r !! p = Some ru → ru_phase ru = starting_local session →
  rt_runs (step r (t, LocalStarted p false)) !! p = Some (MkRun (ru_host ru) (ru_agent ru) (ru_for ru) (over retired)).
Proof.
  intros Hp Hph. unfold step. cbn [fst snd exec]. unfold local_started. cbn. rewrite Hp, Hph. cbn.
  destruct (_ || _); cbn; by rewrite js_lookup_alter, decide_True, Hp.
Qed.
Lemma settles t p ru o r :
  sound [] r → rt_runs r !! p = Some ru → ru_phase ru = over o → retires ru = true →
  rt_underWay (step r (t, Settled p)) !! ru_host ru = None ∧ rt_outcomes (step r (t, Settled p)) !! p = Some o.
Proof.
  intros Hs Hp Hph Hr. assert (rt_underWay r !! ru_host ru = Some p) as Hu.
  { eapply fe_under; [apply Hs|]. by exists ru. }
  unfold step. cbn [fst snd exec].
  assert (∀ u, rt_runs u = rt_runs r → rt_underWay u = rt_underWay r →
    rt_underWay (settled p u) !! ru_host ru = None ∧ rt_outcomes (settled p u) !! p = Some o) as Hx; [|by apply Hx].
  intros u H1 H2. unfold settled. rewrite H1, Hp, Hph. unfold retires in Hr. destruct (ru_for ru); [|done].
  rewrite bool_decide_eq_true_2 by by rewrite H2.
  assert (∀ v, rt_underWay (replies p o v) = rt_underWay v ∧ rt_outcomes (replies p o v) = rt_outcomes v) as Hv.
  { intros v. by pose proof (stops_replies p o v) as [= _ _ -> ->]. }
  destruct (Hv (set_field rt_outcomes <[p:=o]> (set_field rt_runs (delete p) (set_field rt_underWay (delete (ru_host
    ru)) u)))) as [E1 E2].
  rewrite E1, E2. cbn. by rewrite js_lookup_delete_eq, js_lookup_insert_eq.
Qed.

(** It comes out, by at most [k] events of its own. *)
Definition comes_out t k host p r : Prop :=
  ∃ es, length es <= k ∧ Forall (own p) es ∧
    rt_underWay (run step r ((λ e, (t, e)) <$> es)) !! host = None ∧
      is_Some (rt_outcomes (run step r ((λ e, (t, e)) <$> es)) !! p).
Lemma comes_out_by t k host p e r : own p e → comes_out t k host p (step r (t, e)) → comes_out t (S k) host p r.
Proof. intros He (es & Hl & Ho & H). exists (e :: es). cbn. split_and!; [lia|by constructor|apply H..]. Qed.
Lemma own_sound t p e r : own p e → sound [] r → sound [] (step r (t, e)).
Proof.
  intros He. apply sound_step. cbn. unfold own in He. rewrite !elem_of_cons in He.
    by destruct He as [->|[->|[->|[->|?%elem_of_nil]]]].
Qed.
Ltac owns := unfold own; rewrite !elem_of_cons; by auto.
Lemma comes_out_over t p ru o r :
  sound [] r → rt_runs r !! p = Some ru → retires ru = true → ru_phase ru = over o → comes_out t 1 (ru_host ru) p r.
Proof.
  intros Hs Hp Hr Hph. apply (comes_out_by _ _ _ _ (Settled p)); [owns|]. exists []. split_and!; [done..| |];
    destruct (settles t p ru o r Hs Hp Hph Hr) as [H1 H2]; [done|by eexists].
Qed.
Lemma comes_out_late t p ru r :
  sound [] r → rt_runs r !! p = Some ru → retires ru = true → phase_rank (ru_phase ru) <= 2 →
    comes_out t 2 (ru_host ru) p r.
Proof.
  intros Hs Hp Hr Hk. destruct (ru_phase ru) as [| |session| |o] eqn:Hph; try (cbn in Hk; lia).
  - apply (comes_out_by _ _ _ _ (LocalStarted p false)); [owns|].
    apply (comes_out_over t p (MkRun (ru_host ru) (ru_agent ru) (ru_for ru) (over retired)) retired);
      [|by eapply start_over|done..].
    apply (own_sound _ p); [owns|done].
  - destruct (comes_out_over t p ru o r Hs Hp Hr Hph) as (es & ? & ?). exists es. split; [lia|done].
Qed.
Lemma comes_out_answered t p ru stop r :
  sound [] r → rt_runs r !! p = Some ru → retires ru = true → ru_phase ru = answered stop →
    comes_out t 3 (ru_host ru) p r.
Proof.
  intros Hs Hp Hr Hph. destruct (resumes t p ru stop r Hp Hph Hr) as (ph & Hp' & Hk).
  apply (comes_out_by _ _ _ _ (Resume p false)); [owns|].
  apply (comes_out_late t p (MkRun (ru_host ru) (ru_agent ru) (ru_for ru) ph)); [|done..].
    apply (own_sound _ p); [owns|done].
Qed.
Lemma retirement_comes_out t host p r : sound [] r → rt_underWay r !! host = Some p → comes_out t 4 host p r.
Proof.
  intros Hs Hu. pose proof (so_fenced _ _ Hs) as Hf. apply (fe_under _ _ _ _ _ _ _ Hf) in Hu as (ru & Hp & <- & Hr).
  assert (∀ k, k <= 4 → comes_out t k (ru_host ru) p r → comes_out t 4 (ru_host ru) p r) as Hle.
  { intros k Hk (es & ? & ?). exists es. split; [lia|done]. }
  destruct (ru_phase ru) as [|stop|session| |o] eqn:Hph.
  - apply (comes_out_by _ _ _ _ (StopTimer p)); [owns|].
    apply (comes_out_answered t p (MkRun (ru_host ru) (ru_agent ru) (ru_for ru) (answered st_timeout)) st_timeout);
      [|by eapply timer_fires|done..].
    apply (own_sound _ p); [owns|done].
  - apply (Hle 3); [lia|]. by eapply comes_out_answered.
  - apply (Hle 2); [lia|]. apply comes_out_late; [done..|]. rewrite Hph. cbn. lia.
  - by destruct (fe_asked _ _ _ _ _ _ _ Hf p ru Hp Hr).
  - apply (Hle 1); [lia|]. by eapply comes_out_over.
Qed.

(** C31: In every run in which a terminal being restarted is still on the host read as its restart was asked
    for when it goes on ([steady]): no event sets a stop back;
      a retirement under way comes out by at most four events of its
    own, its timer the first at worst; and once none is under way on its host, what waited for it is
    done. *)
Theorem waiters_go_on es h t :
  h_waits h = ∅ → h_stopping h = [] → steady (fresh h) es →
  let r := run step (fresh h) es in
  (∀ e p, p < rt_next r → rank (step r e) p <= rank r p) ∧
  (∀ host p, rt_underWay r !! host = Some p → 0 < rank r p ∧ comes_out t 4 host p r) ∧
  (∀ i w, rt_settling r !! i = Some w → isUnderWay (se_host w) r = false →
     ∃ u, run step r [(t, Seen i); (t, GoesOn i)] = go (se_op w) u ∧
       part u = part (r <{ rt_hub ::= set_field h_now (λ _, t) }>) ∧ rt_settling u !! i = None).
Proof.
  intros Hw Hst Hk r. assert (sound [] r) as Hs by by apply sound_run. clearbody r. split_and!.
  - intros e p. apply ahead_step.
  - intros host p Hu. split; [|by apply retirement_comes_out].
    apply (fe_under _ _ _ _ _ _ _ (so_fenced _ _ Hs)) in Hu as (ru & Hp & _). unfold rank. rewrite Hp.
      destruct (ru_phase ru); cbn; lia.
  - intros i w Hi Hu. eexists. split_and!.
    + cbn [run fold_left]. unfold step at 2. cbn [fst snd exec]. unfold seen. cbn [set_field set_rt_hub]. cbn.
      rewrite Hi.
      change (isUnderWay (se_host w) _) with (isUnderWay (se_host w) r). rewrite Hu.
      unfold step. cbn [fst snd exec]. unfold goes_on. cbn. rewrite js_lookup_alter, decide_True, Hi by done. cbn.
        reflexivity.
    + done.
    + cbn. by rewrite js_lookup_delete_eq.
Qed.
End onwards.

(** ** On the hub with an old agent *)
#[local] Existing Instance rt_setup.
#[local] Existing Instance rt_versions.
#[local] Open Scope string_scope.
Lemma waiters_go_on_witness :
  let r := ex_ret starts_meet in
  rt_underWay r !! "h" = Some 0 ∧ rank r 0 = 5 ∧ comes_out 2%Z 4 "h" 0 r ∧ is_Some (rt_settling r !! 2).
Proof.
  split_and!; [vm_compute; reflexivity|vm_compute; reflexivity| |vm_compute; by eexists].
  destruct (waiters_go_on ((λ e, (1%Z, e)) <$> starts_meet) old_hub 2%Z) as (_ & H & _);
    [reflexivity|reflexivity|vm_compute; repeat split|].
  apply (H "h" 0). vm_compute. reflexivity.
Defined.
