(* ===== verification/WsHandler.v ===== *)
(** * The sockets of the windows ([ws/ws-handler.ts], [ws/handlers/], [api/tokens.ts])

    One socket per window: its sign-in over [Auth], the check of its credential before each frame,
    and what each frame does to the write locks ([WriteLock]) and to the terminals
    ([ChannelLifecycle]). What a handler hands to the prompts ([PromptContext]), to a test of a host or
    to the uploads ([TransferFlow]) is logged as a request. Ids are the text of a ULID; ids drawn for
    sockets are new. [None] is what throws, out of the socket's listener, before anything is done. *)

From Stdlib Require Import Ascii.
From Stdlib.Strings Require Import Byte.
From Stdlib Require Import QArith.
From S2P Require Import Prelude JsMap Text KnownHosts Auth WriteLock ChannelData ChannelTrackers StateBroadcaster ChannelLifecycle Validation.
#[local] Open Scope string_scope.
#[local] Open Scope list_scope.
#[local] Open Scope nat_scope.
#[local] Open Scope lasterm_scope.

(** ** Frames *)

(** The messages a window may send, each field as it was decoded; [f_null] is a frame that is no
    object at all. The id a lock is granted to, or denied, is taken as it is said. *)
Inductive TransferFrame :=
| TRANSFER_START (requestId : Value) | TRANSFER_RESUME (transferIds : Value) | TRANSFER_DISCARD (transferIds : Value)
| TRANSFER_RESOLVE (transferId : Value) | TRANSFER_RETRY (transferId : Value) | TRANSFER_CANCEL (transferId : Value).
Record TestConnect := MkTestConnect {
  tc_hostId : Value; tc_sshProxyHostId : Value; tc_sshProxySpec : Value; tc_hostname : Value; tc_port : Value;
  tc_sshAuth : Value; tc_sshKeyPath : Value; tc_sshUser : Value
}.
Record SpawnFrame := MkSpawnFrame {
  sf_requestId : Value; sf_hostId : Value; sf_cols : Value; sf_rows : Value; sf_shell : Value; sf_cwd : Value;
  sf_env : Value; sf_reuseChannelId : option string; sf_automatic : bool
}.
Inductive Frame :=
| f_malformed | f_null
| f_AUTH (token windowId : Value)
| f_SPAWN (m : SpawnFrame)
| f_ATTACH (channelId : Value) | f_DETACH (channelId : Value)
| f_INPUT (channelId data : Value) | f_RESIZE (channelId cols rows : Value) | f_FILES_PANEL (channelId open : Value)
| f_WRITE_CLAIM (channelId : Value) | f_WRITE_RELEASE (channelId : Value) | f_WRITE_FORCE (channelId : Value)
| f_WRITE_GRANT (channelId : Value) (toClientId : string) | f_WRITE_DENY (channelId : Value) (toClientId : string)
| f_PING
| f_AUTH_PROMPT_RESPONSE (hostId secret promptId deliveryEpoch : Value)
| f_HOST_VERIFY_RESPONSE (promptId action : Value) | f_AGENT_BINARY_VERIFY_RESPONSE (promptId action : Value)
| f_TEST_CONNECT (m : TestConnect)
| f_TRANSFER (m : TransferFrame)
| f_other.

(** ** What is sent, closed, recorded and asked *)

Inductive Reply :=
| r_lock (m : WriteLock.message)
| r_AUTH_OK | r_AUTH_FAIL (message : string) | r_PONG
| r_ERROR (code message : string) (channelId : option ChannelId) (requestId : option text)
| r_TEST_CONNECT_FAIL (hostId : text) (message : string)
| r_TRANSFER_ERROR (target : text + text).
Inductive SecurityEvent :=
| authFailed (c : ClientId) (reason : string) (status : option InvalidTokenReason)
| authSucceeded (c : ClientId) (tokenId : string)
| writeLockForced (channelId by_ from : string)
| tokenRevocation (tokenId outcome : string).
(** To the prompts, to a test of a host, to the uploads. *)
Inductive Request :=
| q_auth_prompt (hostId promptId : text) (secret : option text) (deliveryEpoch : Q)
| q_host_verify (promptId action : text) | q_agent_verify (promptId action : text)
| q_test_connect (m : TestConnect)
| q_transfer (tokenId : option string) (m : TransferFrame).
Inductive Out :=
| sends (c : ClientId) (m : Reply)
| closes (c : ClientId) (code : option Z)
| records (e : SecurityEvent)
| asks (c : ClientId) (q : Request)
| clientGone (c : ClientId) | lockChanged (ch : ChannelId)
| throws (c : ClientId).

(** ** The route *)

Record HeldCredential := MkHeld { hc_id : string; hc_tokenHash : string; hc_touchedAt : Z }.
(** [so_open] is [readyState = OPEN]; after [so_gone], its close or its failure, nothing comes of it. *)
Record Socket := MkSocket {
  so_open : bool; so_gone : bool; so_authenticated : bool; so_credential : option HeldCredential;
  so_ending : bool; so_released : bool; so_authTimeout : bool
}.
#[export] Instance socket_fields : Fields Socket := λ s,
  MkSocket (so_open s) (so_gone s) (so_authenticated s) (so_credential s) (so_ending s) (so_released s) (so_authTimeout s).
#[export] Instance set_so_open : Setter so_open. Proof. derive_setter. Defined.
#[export] Instance set_so_gone : Setter so_gone. Proof. derive_setter. Defined.
#[export] Instance set_so_authenticated : Setter so_authenticated. Proof. derive_setter. Defined.
#[export] Instance set_so_credential : Setter so_credential. Proof. derive_setter. Defined.
#[export] Instance set_so_ending : Setter so_ending. Proof. derive_setter. Defined.
#[export] Instance set_so_released : Setter so_released. Proof. derive_setter. Defined.
#[export] Instance set_so_authTimeout : Setter so_authTimeout. Proof. derive_setter. Defined.

(** What waits for the session manager's answer: a lock follows it. *)
Inductive Promise := p_attach (c : ClientId) (ch : ChannelId) | p_spawn (c : ClientId).
(** [ro_registry] is the clients of [clientSendRegistry]; each is sent to through its socket. *)
Record Route {Sc Ou : Type} := MkRoute {
  ro_sockets : jsmap ClientId Socket; ro_registry : list ClientId; ro_tokenSockets : jsmap ClientId string;
  ro_locks : WriteLockManager; ro_hub : StateBroadcaster.Hub Sc Ou Wait; ro_store : Auth.Hub;
  ro_promises : list Promise; ro_log : list Out
}.
Arguments Route : clear implicits.
#[export] Instance route_fields {Sc Ou} : Fields (Route Sc Ou) := λ r,
  MkRoute Sc Ou (ro_sockets r) (ro_registry r) (ro_tokenSockets r) (ro_locks r) (ro_hub r) (ro_store r)
    (ro_promises r) (ro_log r).
#[export] Instance set_ro_sockets {Sc Ou} : Setter (@ro_sockets Sc Ou). Proof. derive_setter. Defined.
#[export] Instance set_ro_registry {Sc Ou} : Setter (@ro_registry Sc Ou). Proof. derive_setter. Defined.
#[export] Instance set_ro_tokenSockets {Sc Ou} : Setter (@ro_tokenSockets Sc Ou). Proof. derive_setter. Defined.
#[export] Instance set_ro_locks {Sc Ou} : Setter (@ro_locks Sc Ou). Proof. derive_setter. Defined.
#[export] Instance set_ro_hub {Sc Ou} : Setter (@ro_hub Sc Ou). Proof. derive_setter. Defined.
#[export] Instance set_ro_store {Sc Ou} : Setter (@ro_store Sc Ou). Proof. derive_setter. Defined.
#[export] Instance set_ro_promises {Sc Ou} : Setter (@ro_promises Sc Ou). Proof. derive_setter. Defined.
#[export] Instance set_ro_log {Sc Ou} : Setter (@ro_log Sc Ou). Proof. derive_setter. Defined.

(** How the hub was started: with a token or open to anyone, with a store or not; [hashToken] throws
    of what is not text or bytes; [transfers] is whether uploads are on, where they are served. *)
Class RouteSetup := {
  authToken : bool; has_db : bool; ttlDays : Z; hashToken : Value → option string; transfers : option bool
}.

(** The characters of an id; a ULID's are all ASCII. *)
Definition id_of (t : text) : string := String.string_of_list_ascii (Ascii.ascii_of_N <$> t).
(** The id, of what [isValidUlid] takes. *)
Definition ulid (v : Value) : option string := if isValidUlid v then id_of <$> text_value v else None.

Section route.
Context `{!Setup} {Sc Ou : Type} `{!Screens Sc, !Outputs Ou} `{!RouteSetup}.
Notation Route := (Route Sc Ou).
Implicit Types (r : Route) (c : ClientId).

Definition socket_open c r : bool := match ro_sockets r !! c with Some s => so_open s | None => false end.
Definition on_socket c (f : Socket → Socket) r : Route := r <{ ro_sockets ::= js_alter f c }>.
Definition log (o : Out) r : Route := r <{ ro_log ::= λ l, l ++ [o] }>.
Definition send c (m : Reply) r : Route := if socket_open c r then log (sends c m) r else r.
Definition close c (code : option Z) r : Route :=
  if socket_open c r then on_socket c (λ s, s <{ so_open := false }>) r |> log (closes c code) else r.
(** [sendTo]: to one socket, if it is registered. *)
Definition sendTo c (m : Reply) r : Route := if decide (c ∈ ro_registry r) then send c m r else r.
Definition error c (code message : string) r : Route := send c (r_ERROR code message None None) r.
Definition invalid_input c (message : string) r : Route := error c "INVALID_INPUT" message r.

(** The session manager, and the write locks: what it calls back is done as it is called. *)
Definition hub_exec (e : ChannelLifecycle.Ev) r : Route := r <{ ro_hub ::= ChannelLifecycle.exec e }>.
Definition deliver (e : WriteLock.effect) r : Route :=
  match e with
  | SendToClient c m => sendTo c (r_lock m) r
  | BroadcastToChannel ch m => fold_left (λ r c, send c (r_lock m) r) (getClientsForChannel ch (ro_hub r)) r
  | OnForce ch by_ from => log (records (writeLockForced ch by_ from)) r
  | OnChange ch => match transfers with Some _ => log (lockChanged ch) r | None => r end
  end.
Definition lock_op (o : WriteLock.op) r : Route :=
  let m := ro_locks r in
  let m' := WriteLock.exec m o in
  fold_left (λ r e, deliver e r) (drop (length (WriteLock.effects m)) (WriteLock.effects m')) (r <{ ro_locks := m' }>).

(** ** The end of a socket *)

Definition release c r : Route :=
  match ro_sockets r !! c with
  | Some s =>
      if so_released s then r
      else
        let r := on_socket c (λ s, s <{ so_released := true }> <{ so_authTimeout := false }>) r
                   <{ ro_registry ::= set_delete c }> <{ ro_tokenSockets ::= delete c }> in
        if so_authenticated s then
          let r := r |> lock_op (Disconnect c) |> hub_exec (Gone c) in
          match transfers with Some _ => log (clientGone c) r | None => r end
        else r
  | None => r
  end.
Definition end_ c (code : Z) r : Route :=
  match ro_sockets r !! c with
  | Some s =>
      if so_ending s then r
      else on_socket c (λ s, s <{ so_ending := true }>) r |> release c |> close c (Some code)
  | None => r
  end.
Definition WS_CLOSE_TRY_AGAIN_LATER : Z := 1013.
Definition WS_CLOSE_POLICY_VIOLATION : Z := 1008.
Definition refuse c (status : InvalidTokenReason) r : Route :=
  match ro_sockets r !! c with
  | Some s =>
      if so_ending s then r
      else log (records (authFailed c "token_no_longer_valid" (Some status))) r |> end_ c WS_CLOSE_POLICY_VIOLATION
  | None => r
  end.

(** ** The credential of a socket *)

Definition SOCKET_TOKEN_TOUCH_INTERVAL_MS : Z := 60000.
Definition store_read (a : Auth.Hub) : option Database := if reads a then Some (Auth.db a) else None.
Definition with_store (a : Auth.Hub) (d : Database) (rep : Reports) : Auth.Hub :=
  Auth.MkHub d (Auth.now a) (reads a) (writes a) rep.
Definition stillValid c (held : HeldCredential) r : Route * bool :=
  let a := ro_store r in
  let v := validateTokenHash (store_read a) (hc_tokenHash held) (Auth.now a) in
  let rep := reportTokenStore v (reports a) in
  let r := r <{ ro_store := with_store a (Auth.db a) rep }> in
  match v with
  | valid _ =>
      (if (SOCKET_TOKEN_TOUCH_INTERVAL_MS <=? Auth.now a - hc_touchedAt held)%Z then
         let '(d, rep) := touchTokenBestEffort (writes a) (hc_id held) ttlDays (Auth.now a) (Auth.db a, rep) in
         on_socket c (λ s, s <{ so_credential := Some (MkHeld (hc_id held) (hc_tokenHash held) (Auth.now a)) }>) r
           <{ ro_store := with_store a d rep }>
       else r, true)
  | unavailable => (end_ c WS_CLOSE_TRY_AGAIN_LATER r, false)
  | invalid reason => (refuse c reason r, false)
  end.

(** ** The sign-in *)

Definition not_auth_first c r : Route :=
  log (records (authFailed c "not_auth_first" None)) r
  |> send c (r_AUTH_FAIL "First message must be AUTH") |> close c None.
Definition signed_in c (hash tokenId : string) (windowId : Value) r : Route :=
  let held := MkHeld tokenId hash (Auth.now (ro_store r)) in
  let r := on_socket c (λ s, s <{ so_authenticated := true }> <{ so_credential := Some held }> <{ so_authTimeout := false }>) r
             <{ ro_tokenSockets ::= <[c := tokenId]> }> in
  let r := match ulid windowId with
           | Some w => lock_op (Identify c {| WriteLock.tokenId := tokenId; WriteLock.windowId := w |}) r
           | None => r
           end in
  r |> log (records (authSucceeded c tokenId)) |> send c r_AUTH_OK |> hub_exec (Connect c).
Definition auth_frame c (token windowId : Value) r : option Route :=
  if negb has_db then
    Some (log (records (authFailed c "database_unavailable" None)) r
          |> send c (r_AUTH_FAIL "Database unavailable") |> close c None)
  else
    hash ← hashToken token;
    let '(a, answer) := authenticate ttlDays hash (ro_store r) in
    let r := r <{ ro_store := a }> in
    Some match answer with
         | refused_503 => close c (Some WS_CLOSE_TRY_AGAIN_LATER) r
         | refused_401 reason =>
             log (records (authFailed c "invalid_token" (Some reason))) r
             |> send c (r_AUTH_FAIL "Invalid token") |> close c None
         | accepted tokenId => signed_in c hash tokenId windowId r
         end.
Definition auth_timeout c r : Route :=
  match ro_sockets r !! c with
  | Some s =>
      if so_authTimeout s then
        let r := on_socket c (λ s, s <{ so_authTimeout := false }>) r in
        if so_authenticated s then r
        else log (records (authFailed c "auth_timeout" None)) r |> close c (Some 4001%Z)
      else r
  | None => r
  end.

(** ** The handlers *)

Definition with_channel c (v : Value) (k : ChannelId → Route → Route) r : Route :=
  match ulid v with Some ch => k ch r | None => invalid_input c "Invalid channelId" r end.

Definition is_undefined (v : Value) : bool := match v with undefined => true | _ => false end.
Definition text_up_to (n : N) (v : Value) : bool := match v with string_ t => negb (longer_than n t) | _ => false end.
(** The texts [answeringSpawn] marks an error with. *)
Definition handleSpawn c (m : SpawnFrame) r : Route :=
  if negb (is_undefined (sf_requestId m)) && negb (isValidUlid (sf_requestId m)) then invalid_input c "Invalid requestId" r
  else
    let refuse_spawn message := send c (r_ERROR "INVALID_INPUT" message None (text_value (sf_requestId m))) r in
    match ulid (sf_hostId m) with
    | None => refuse_spawn "Invalid hostId"
    | Some host =>
        if (negb (is_undefined (sf_cols m)) || negb (is_undefined (sf_rows m))) &&
           negb (isValidDimensions (sf_cols m) (sf_rows m)) then refuse_spawn "Invalid dimensions"
        else match validateShell (sf_shell m) with
             | Some shellError => refuse_spawn shellError
             | None =>
                 if negb (is_undefined (sf_cwd m)) && negb (text_up_to 4096 (sf_cwd m))
                 then refuse_spawn "cwd must be a string ≤ 4096 chars"
                 else if negb (isValidEnv (sf_env m)) then refuse_spawn "Invalid env"
                 else hub_exec (Spawn c host (sf_reuseChannelId m) (sf_automatic m)) r
                        <{ ro_promises ::= λ l, l ++ [p_spawn c] }>
             end
    end.
Definition handleAttach c (channelId : Value) : Route → Route :=
  with_channel c channelId (λ ch r, hub_exec (Attach c ch) r <{ ro_promises ::= λ l, l ++ [p_attach c ch] }>).
Definition handleDetach c (channelId : Value) : Route → Route :=
  with_channel c channelId (λ ch r, r |> lock_op (WriteLock.Detach ch c) |> hub_exec (Detach c ch)).
Definition write_lock_denied c (ch : ChannelId) r : Route :=
  send c (r_ERROR "WRITE_LOCK_DENIED" "You do not hold the write lock for this channel" (Some ch) None) r.
Definition handleInput c (channelId data : Value) : Route → Route :=
  with_channel c channelId (λ ch r,
    match data with
    | bytes l =>
        if negb (isValidInputData data) then invalid_input c "Invalid or oversized input data" r
        else if negb (isWriteLockHolder ch c (ro_locks r)) then write_lock_denied c ch r
        else hub_exec (Input ch l) r
    | _ => invalid_input c "Invalid or oversized input data" r
    end).
Definition handleResize c (channelId cols rows : Value) : Route → Route :=
  with_channel c channelId (λ ch r,
    match isInteger cols, isInteger rows with
    | Some w, Some h =>
        if negb (isValidDimensions cols rows) then invalid_input c "Invalid dimensions" r
        else if negb (isHolder ch c (ro_locks r)) then r
        else hub_exec (Resize ch w h) r
    | _, _ => invalid_input c "Invalid dimensions" r
    end).
Definition handleFilesPanel c (channelId open : Value) : Route → Route :=
  with_channel c channelId (λ ch r,
    match open with
    | boolean open =>
        if negb (isHolder ch c (ro_locks r)) then write_lock_denied c ch r
        else
          let r := if open then
              fold_left (λ r other, if decide (other = ch) then r else hub_exec (FilesPanel other false) r)
                (heldBy c (ro_locks r)) r
            else r in
          hub_exec (FilesPanel ch open) r
    | _ => invalid_input c "Invalid open" r
    end).
Definition handleWriteClaim c (channelId : Value) := with_channel c channelId (λ ch, lock_op (Claim ch c)).
Definition handleWriteRelease c (channelId : Value) := with_channel c channelId (λ ch, lock_op (Release ch c)).
Definition handleWriteForce c (channelId : Value) := with_channel c channelId (λ ch, lock_op (Force ch c)).
Definition handleWriteGrant c (channelId : Value) (to : string) := with_channel c channelId (λ ch, lock_op (Grant ch c to)).
Definition handleWriteDeny c (channelId : Value) (to : string) := with_channel c channelId (λ ch, lock_op (Deny ch c to)).

(** The answers to what was asked of a person. *)
Definition handleAuthPromptResponse c (hostId secret promptId deliveryEpoch : Value) r : Route :=
  match hostId with
  | string_ host =>
      if negb (is_ulid host) then invalid_input c "Invalid hostId" r
      else match secret with
           | null | string_ _ =>
               if match secret with string_ t => longer_than 4096 t | _ => false end
               then invalid_input c "secret must be a string ≤ 4096 chars or null" r
               else match promptId with
                    | string_ prompt =>
                        if negb (is_ulid prompt) then invalid_input c "Invalid promptId" r
                        else match deliveryEpoch with
                             | number (rational q) =>
                                 if negb (Qle_bool 0 q) then invalid_input c "deliveryEpoch must be a finite non-negative number" r
                                 else log (asks c (q_auth_prompt host prompt (text_value secret) q)) r
                             | _ => invalid_input c "deliveryEpoch must be a finite non-negative number" r
                             end
                    | _ => invalid_input c "Invalid promptId" r
                    end
           | _ => invalid_input c "secret must be a string ≤ 4096 chars or null" r
           end
  | _ => invalid_input c "Invalid hostId" r
  end.
Definition VERIFY_ACTIONS : list text := txt <$> ["trust_permanent"; "trust_once"; "reject"].
Definition verify_response c (promptId action : Value) (q : text → text → Request) r : Route :=
  match promptId with
  | string_ prompt =>
      if bool_decide (prompt = []) || longer_than 128 prompt then invalid_input c "Invalid promptId" r
      else match action with
           | string_ action =>
               if bool_decide (action ∈ VERIFY_ACTIONS) then log (asks c (q prompt action)) r
               else invalid_input c "Invalid action" r
           | _ => invalid_input c "Invalid action" r
           end
  | _ => invalid_input c "Invalid promptId" r
  end.
Definition handleHostVerifyResponse c (promptId action : Value) := verify_response c promptId action q_host_verify.
Definition handleAgentBinaryVerifyResponse c (promptId action : Value) := verify_response c promptId action q_agent_verify.

(** A text of 1 to [n] units. *)
Definition text_within (n : N) (v : Value) : bool :=
  match v with string_ t => negb (bool_decide (t = [])) && negb (longer_than n t) | _ => false end.
Definition proxy_ok (n : N) (v : Value) : bool :=
  is_undefined v ||
  match v with string_ t => negb (forallb is_space t) && negb (longer_than n t) | _ => false end.
(** [NaN] is neither below 1 nor above 65535. *)
Definition port_ok (v : Value) : bool :=
  match v with
  | number (rational q) => Qle_bool 1 q && Qle_bool q 65535
  | number NaN => true
  | _ => false
  end.
Definition optional_text (n : N) (v : Value) : bool := is_undefined v || text_up_to n v.
Definition handleTestConnect c (m : TestConnect) r : Route :=
  match tc_hostId m with
  | string_ host =>
      let fails message := send c (r_TEST_CONNECT_FAIL host message) r in
      if bool_decide (host = []) || longer_than 128 host then invalid_input c "Invalid hostId" r
      else if negb (proxy_ok 128 (tc_sshProxyHostId m)) then fails "Invalid sshProxyHostId"
      else if negb (proxy_ok 4096 (tc_sshProxySpec m)) then fails "Invalid sshProxySpec"
      else if negb (is_undefined (tc_sshProxyHostId m)) && negb (is_undefined (tc_sshProxySpec m))
      then fails "Cannot specify both sshProxyHostId and sshProxySpec"
      else if negb (text_within 4096 (tc_hostname m)) then invalid_input c "Invalid hostname" r
      else if negb (port_ok (tc_port m)) then invalid_input c "Invalid port" r
      else if negb match tc_sshAuth m with
                   | string_ a => bool_decide (a ∈ txt <$> ["agent"; "key"; "password"]) | _ => false end
      then invalid_input c "Invalid sshAuth" r
      else if negb (optional_text 4096 (tc_sshKeyPath m)) then invalid_input c "Invalid sshKeyPath" r
      else if negb (optional_text 256 (tc_sshUser m)) then invalid_input c "Invalid sshUser" r
      else log (asks c (q_test_connect m)) r
  | _ => invalid_input c "Invalid hostId" r
  end.

(** The upload a refusal names: a start's request, or an upload. *)
Definition refusalTarget (m : TransferFrame) : text + text :=
  let text_or v := default [] (text_value v) in
  match m with
  | TRANSFER_START requestId => inl (text_or requestId)
  | TRANSFER_RESUME ids | TRANSFER_DISCARD ids =>
      inr match ids with array (first :: _) => text_or first | _ => [] end
  | TRANSFER_RESOLVE id | TRANSFER_RETRY id | TRANSFER_CANCEL id => inr (text_or id)
  end.
Definition handleTransfer c (tokenId : option string) (m : TransferFrame) r : Route :=
  match transfers with
  | Some true => log (asks c (q_transfer tokenId m)) r
  | _ => send c (r_TRANSFER_ERROR (refusalTarget m)) r
  end.

(** ** A frame *)

Definition dispatch c (tokenId : option string) (f : Frame) : Route → Route :=
  match f with
  | f_SPAWN m => handleSpawn c m
  | f_ATTACH ch => handleAttach c ch
  | f_DETACH ch => handleDetach c ch
  | f_INPUT ch data => handleInput c ch data
  | f_RESIZE ch cols rows => handleResize c ch cols rows
  | f_FILES_PANEL ch open => handleFilesPanel c ch open
  | f_WRITE_CLAIM ch => handleWriteClaim c ch
  | f_WRITE_RELEASE ch => handleWriteRelease c ch
  | f_WRITE_FORCE ch => handleWriteForce c ch
  | f_WRITE_GRANT ch to => handleWriteGrant c ch to
  | f_WRITE_DENY ch to => handleWriteDeny c ch to
  | f_PING => send c r_PONG
  | f_AUTH_PROMPT_RESPONSE h s p e => handleAuthPromptResponse c h s p e
  | f_HOST_VERIFY_RESPONSE p a => handleHostVerifyResponse c p a
  | f_AGENT_BINARY_VERIFY_RESPONSE p a => handleAgentBinaryVerifyResponse c p a
  | f_TEST_CONNECT m => handleTestConnect c m
  | f_TRANSFER m => handleTransfer c tokenId m
  | f_malformed | f_null | f_AUTH _ _ | f_other => λ r, r
  end.
Definition message c (f : Frame) r : option Route :=
  match ro_sockets r !! c with
  | None => Some r
  | Some s =>
      if so_ending s then Some r
      else match f with
           | f_malformed => Some (error c "MALFORMED_MESSAGE" "Failed to decode MessagePack message" r)
           | f_null => None
           | _ =>
               if negb (so_authenticated s) then
                 match f with f_AUTH token windowId => auth_frame c token windowId r | _ => Some (not_auth_first c r) end
               else
                 Some match so_credential s with
                      | None => dispatch c None f r
                      | Some held =>
                          let '(r, ok) := stillValid c held r in
                          if ok then dispatch c (Some (hc_id held)) f r else r
                      end
           end
  end.

(** ** What the rest of the hub asks of the sockets *)

(** [closeSocketsForToken]: over the entries as they go, the refused one deleted. *)
Definition closeSocketsForToken (tid : string) r : Route * nat :=
  fold_left (λ acc e, if decide (e.2 = tid) then (refuse e.1 revoked acc.1, S acc.2) else acc)
    (entries (ro_tokenSockets r)) (r, 0).
Inductive WriterCheck := holder | unknown_client | not_holder.
Definition writerCheck (ch : ChannelId) c (tid : option string) r : WriterCheck :=
  let known :=
    if authToken then match tid with Some t => bool_decide (ro_tokenSockets r !! c = Some t) | None => false end
    else bool_decide (c ∈ ro_registry r) in
  if negb known then unknown_client
  else if isHolder ch c (ro_locks r) then holder else not_holder.
Definition mayWrite (ch : ChannelId) c r : bool := isWriteLockHolder ch c (ro_locks r).
(** [None] is undefined, [Some None] null. *)
Definition clientToken c r : option (option string) :=
  if negb (bool_decide (c ∈ ro_registry r)) then None
  else if negb authToken then Some None
  else Some <$> ro_tokenSockets r !! c.

(** [DELETE /api/auth/tokens/:id], and the status it answers; a store that cannot write throws. *)
Definition delete_token (tid : string) r : Route * Z :=
  let a := ro_store r in
  if bool_decide (tid = PRIMARY_TOKEN_ID) then (log (records (tokenRevocation tid "not_revocable")) r, 409%Z)
  else if negb (writes a) then (r, 500%Z)
  else
    let '(d, changed) := revokeToken tid (Auth.now a) (Auth.db a) in
    let r := r <{ ro_store := set_db d a }> in
    if negb changed then (log (records (tokenRevocation tid "not_found")) r, 404%Z)
    else ((closeSocketsForToken tid (log (records (tokenRevocation tid "revoked")) r)).1, 200%Z).

(** ** Steps *)

(** A socket opens, and the window of a hub that asks no token is there at once. *)
Definition opens c r : Route :=
  match ro_sockets r !! c with
  | Some _ => r
  | None =>
      let r := r <{ ro_sockets ::= <[c := MkSocket true false (negb authToken) None false false authToken]> }>
                 <{ ro_registry ::= set_add c }> in
      if authToken then r else r <{ ro_hub ::= addClient c }>
  end.
(** Its close, or an error: nothing more comes of it. *)
Definition goes c r : Route :=
  match ro_sockets r !! c with
  | Some _ => on_socket c (λ s, s <{ so_open := false }> <{ so_gone := true }>) r |> release c
  | None => r
  end.
Inductive Resolution := r_attached (ok : bool) | r_spawned (ch : option ChannelId) | r_rejected.
(** A request the session manager answers; the lock follows the answer, whoever is there still. *)
Definition resolves (i : nat) (v : Resolution) r : Route :=
  match ro_promises r !! i with
  | Some p =>
      let r := r <{ ro_promises ::= delete i }> in
      match p, v with
      | p_attach c ch, r_attached true => lock_op (WriteLock.Attach ch c) r
      | p_spawn c, r_spawned (Some ch) => lock_op (WriteLock.Attach ch c) r
      | _, _ => r
      end
  | None => r
  end.

(** What the hub does that no window's frame makes it do. *)
Definition of_the_hub (e : ChannelLifecycle.Ev) : bool :=
  match e with
  | Connect _ | Gone _ | Spawn _ _ _ _ | Attach _ _ | Detach _ _ | Input _ _ | Resize _ _ _ | FilesPanel _ _ => false
  | _ => true
  end.
(** What becomes of the store while the hub runs, its clock and the revocations aside. *)
Definition of_the_store (e : Auth.event) : bool :=
  match e with EvTick _ | EvRestart _ | EvRevoke _ => false | _ => true end.
Inductive Ev :=
| Opens (c : ClientId) | Frame_ (c : ClientId) (f : Frame) | AuthTimeout (c : ClientId) | Goes (c : ClientId)
| Resolves (i : nat) (v : Resolution) | GraceEnds (t : nat) | Stops
| DeleteToken (tid : string) | SendTo (c : ClientId) (m : Reply)
| OfTheHub (e : ChannelLifecycle.Ev) | OfTheStore (e : Auth.event).
Definition exec_at (e : Ev) r : Route :=
  match e with
  | Opens c => opens c r
  | Frame_ c f =>
      match ro_sockets r !! c with
      | Some s => if so_gone s then r
          else match message c f r with Some r' => r' | None => log (throws c) r end
      | None => r
      end
  | AuthTimeout c => auth_timeout c r
  | Goes c => goes c r
  | Resolves i v => resolves i v r
  | GraceEnds t => lock_op (GraceTimer t) r
  | Stops => lock_op Shutdown r
  | DeleteToken tid => (delete_token tid r).1
  | SendTo c m => sendTo c m r
  | OfTheHub e => if of_the_hub e then hub_exec e r else r
  | OfTheStore e => if of_the_store e then r <{ ro_store ::= λ a, Auth.step ttlDays a e }> else r
  end.
(** So many milliseconds later. *)
Definition passes (ms : N) r : Route :=
  let a := Auth.step ttlDays (ro_store r) (EvTick ms) in
  r <{ ro_store := a }> <{ ro_hub ::= set_field h_now (λ _, Auth.now a) }>.
Definition step r (e : N * Ev) : Route := exec_at e.2 (passes e.1 r).

(** A route as it is registered, over a hub and a store. *)
Definition registered (hub : StateBroadcaster.Hub Sc Ou Wait) (store : Auth.Hub) : Route :=
  MkRoute _ _ ∅ [] ∅ WriteLock.init hub store [] [].
End route.
