(* ===== verification/WsExample.v ===== *)
(** * Windows to evaluate the definitions on

    One host, its agent connected, and a store of two tokens: the primary one and a paired one. A window
    signs in, starts a terminal and types into it. The last lemmas are runs in which the code does
    something else than it means. *)

From Stdlib.Strings Require Import Byte.
From S2P Require Import Prelude JsMap Text SpoolDal OutputChunker Replay SnapshotScheduler Auth WriteLock ChannelData ChannelTrackers StateBroadcaster ChannelLifecycle ChannelChanges Validation WsHandler.
#[local] Open Scope string_scope.
#[local] Open Scope list_scope.
#[local] Open Scope nat_scope.
#[local] Open Scope lasterm_scope.

Definition ws_host : string := "01ARZ3NDEKTSV4RRFFQ69G5HST".
Definition ws_channel : string := "01ARZ3NDEKTSV4RRFFQ69G5CHN".
Definition ws_window : string := "01ARZ3NDEKTSV4RRFFQ69G5WND".
Definition ws_setup : Setup :=
  {| titleSource := dynamic; staticTitle := ""; host_is_known := λ host, String.eqb host ws_host; host_is_ssh := λ _, false |}.
Definition ws_route : RouteSetup :=
  {| authToken := true; has_db := true; ttlDays := 7; hashToken := λ v, id_of <$> text_value v; transfers := None |}.
#[export] Existing Instance ws_setup.
#[export] Existing Instance ws_route.

Definition ws_outputs : Replay.Hub :=
  {| chunker := {| OutputChunker.channels := ∅; spoolDal := SpoolDal.Build_Db [] 0 0 |};
     cacheIndex := ∅ |}.
Notation WsHub := (StateBroadcaster.Hub SnapshotScheduler Replay.Hub Wait).
Notation WsRoute := (Route SnapshotScheduler Replay.Hub).
Definition ws_hub : WsHub :=
  MkHub _ _ Wait 0 false (JsMap [(ws_host, 0)]) [0] (JsMap [(ws_host, 0)]) [MkSession "s" ws_host active]
    ∅ [] [] ∅ [] [] [] [] 0 ∅ ∅ 0 ∅ (JsMap [("s", (ws_host, active))]) ∅ ∅ [] ∅ ∅ (SnapshotScheduler.new None) ws_outputs [].
Definition ws_store : Auth.Hub :=
  Auth.MkHub [Token PRIMARY_TOKEN_ID "hp" "Primary" 0 None None None None;
              Token "t1" "h1" "Paired" 0 (Some 1000000%Z) None None None] 0 true true no_reports.
Lemma ws_store_ok : db_ok (Auth.db ws_store).
Proof. split; apply (bool_decide_unpack _); vm_compute; exact I. Qed.

Notation ws_run es := (run step (registered ws_hub ws_store) es).
Definition says (s : string) : Value := string_ (txt s).
Definition ws_signs_in (c : ClientId) (token : string) : list (N * Ev) :=
  [(1%N, Opens c); (1%N, Frame_ c (f_AUTH (says token) (says ws_window)))].
Definition ws_config : Config := MkConfig (Some "bash") [] None false.
(** A window starts a terminal; the agent answers, and the lock follows. *)
Definition ws_starts (c : ClientId) : list (N * Ev) :=
  [(1%N, Frame_ c (f_SPAWN (MkSpawnFrame undefined (says ws_host) undefined undefined undefined undefined undefined None false)));
   (1%N, OfTheHub (SpawnGoes 0));
   (1%N, OfTheHub (SpawnReached 1 (Some (MkSpawning c ws_host 0 "s" ws_config None 80 24 None))));
   (1%N, OfTheHub (FromAgent ws_host (Some 2) (m_SPAWN_OK ws_channel)));
   (1%N, Resolves 0 (r_spawned (Some ws_channel)))].
Definition ws_types (c : ClientId) : N * Ev := (1%N, Frame_ c (f_INPUT (says ws_channel) (bytes ["l"; "s"]%byte))).
Definition ws_life : list (N * Ev) := ws_signs_in "w1" "h1" ++ ws_starts "w1".

Example ws_writer_types : typed (ro_hub (ws_run (ws_life ++ [ws_types "w1"]))) = [typed_input ws_channel ["l"; "s"]%byte].
Proof. vm_compute. reflexivity. Qed.
(** A second window does not type into the first one's terminal. *)
Example ws_other_denied :
  let r := ws_run (ws_life ++ ws_signs_in "w2" "hp" ++ [ws_types "w2"]) in
  typed (ro_hub r) = [] ∧
  last (ro_log r) = Some (sends "w2" (r_ERROR "WRITE_LOCK_DENIED" "You do not hold the write lock for this channel" (Some ws_channel) None)).
Proof. vm_compute. done. Qed.
(** Its token revoked, the window's lock and its socket are gone. *)
Example ws_revoked :
  let r := ws_run (ws_life ++ [(1%N, DeleteToken "t1")]) in
  ro_tokenSockets r = ∅ ∧ getHolder ws_channel (ro_locks r) = None ∧ last (ro_log r) = Some (closes "w1" (Some 1008%Z)).
Proof. vm_compute. done. Qed.

(** ** Where the code does something else *)

(** A window that leaves while its SPAWN is answered is given the lock all the same, and keeps it. *)
Example ghost_holder :
  let r := ws_run (ws_signs_in "w1" "h1" ++ take 4 (ws_starts "w1") ++
    [(1%N, Goes "w1"); (1%N, Resolves 0 (r_spawned (Some ws_channel)))] ++ ws_signs_in "w2" "h1" ++ [ws_types "w2"]) in
  getHolder ws_channel (ro_locks r) = Some "w1" ∧ ro_registry r = ["w2"] ∧ typed (ro_hub r) = [].
Proof. vm_compute. done. Qed.
(** A socket told that AUTH comes first, and shut, signs in with the next frame, and acts. *)
Example shut_then_signed_in :
  let r := ws_run ((1%N, Opens "w1") :: (1%N, Frame_ "w1" f_PING) ::
    (1%N, Frame_ "w1" (f_AUTH (says "h1") undefined)) :: ws_starts "w1" ++ [ws_types "w1"]) in
  nth_error (ro_log r) 2 = Some (closes "w1" None) ∧ typed (ro_hub r) = [typed_input ws_channel ["l"; "s"]%byte].
Proof. vm_compute. done. Qed.
(** One frame that is no object makes the listener throw, before anyone signed in. *)
Example null_throws : ro_log (ws_run [(1%N, Opens "w1"); (1%N, Frame_ "w1" f_null)]) = [throws "w1"].
Proof. vm_compute. done. Qed.
(** So does an AUTH without a token. *)
Example auth_without_token_throws :
  ro_log (ws_run [(1%N, Opens "w1"); (1%N, Frame_ "w1" (f_AUTH undefined undefined))]) = [throws "w1"].
Proof. vm_compute. done. Qed.
(** A lock is granted to whatever id is said: nobody there is its holder. *)
Example granted_to_nobody :
  let r := ws_run (ws_life ++ [(1%N, Frame_ "w1" (f_WRITE_GRANT (says ws_channel) "nobody"))]) in
  getHolder ws_channel (ro_locks r) = Some "nobody" ∧ ro_registry r = ["w1"].
Proof. vm_compute. done. Qed.
