(* ===== verification/WsFrames.v ===== *)
(** * What a frame does, once its window may act ([WsHandler])

    A handler leaves the sockets and the store as they are, and has a terminal typed into, or resized,
    only where its window holds the lock ([dispatch_served]); nothing but INPUT and RESIZE types. *)

From Stdlib.Strings Require Import Byte.
From S2P Require Import Prelude JsMap Text Auth WriteLock ChannelData ChannelTrackers StateBroadcaster ChannelLifecycle ChannelChanges ChannelOps ChannelTruth Validation WsHandler.
#[local] Open Scope nat_scope.
#[local] Open Scope lasterm_scope.

(** ** What a step of the hub has typed *)

Section typing.
Context `{!Setup} {Sc Ou : Type} `{!Screens Sc, !Outputs Ou}.
Notation Hub := (StateBroadcaster.Hub Sc Ou Wait).
Implicit Types (h : Hub).

Lemma typed_told m cs h : typed (tell_each m cs h) = typed h.
Proof.
  unfold tell_each. revert h. induction cs as [|c cs IH]; intros h; [done|]. cbn [fold_left]. rewrite IH.
  unfold tell. destruct (js_has c (h_clients h)); [|done]. unfold typed, emit. cbn. by rewrite omap_app, app_nil_r.
Qed.
Lemma typed_status ch session status exitCode reason h : typed (updateChannelStatus ch session status exitCode reason h) = typed h.
Proof.
  unfold updateChannelStatus, broadcastToAllClients. rewrite typed_told. unfold on_channel.
  by destruct (h_channels h !! ch).
Qed.
Lemma change_typed may h h' :
  change may h h' → typed h' = typed h ∨ ∃ w, may (types w).
Proof.
  intros [h0 h1 K|? ? ? ? ? h0 ?|ch session h0 ?|ch session h0|ch h0 ?|ch session h0 h1 ? K|? ? ? ? ? ? h0|out w h0 Hout ?|c h0|c h0|h0];
    try (by left); try (by left; apply typed_status).
  - left. by destruct K.
  - left. unfold broadcastToAllClients. rewrite typed_told. by destruct K.
  - left. unfold typed, emit. cbn. by rewrite omap_app, app_nil_r.
  - right. eauto.
  - left. apply (typed_told _ [c] (addClient c h0)).
Qed.
(** What no window types has nothing typed. *)
Lemma exec_typed e h : typed_by e = None → typed (ChannelLifecycle.exec e h) = typed h.
Proof.
  intros He. pose proof (ev_exec e h) as Hev.
  assert (∀ w, ¬ may_at e h (types w)) as Hno by (intros w Hw; simpl in Hw; congruence).
  induction Hev as [|? ? ? Hc _ IH]; [done|].
  rewrite IH. by destruct (change_typed _ _ _ Hc) as [?|(w & Hw)]; [|destruct (Hno w)].
Qed.
Lemma typed_emit o w h : typed_of o = Some w → typed (emit o h) = typed h ++ [w].
Proof. intros Ho. unfold typed, emit. cbn. rewrite omap_app. cbn. by rewrite Ho. Qed.
Lemma input_typed ch data h :
  typed (ChannelLifecycle.exec (Input ch data) h) = typed h ∨
  typed (ChannelLifecycle.exec (Input ch data) h) = typed h ++ [typed_input ch data].
Proof.
  cbn [ChannelLifecycle.exec]. unfold ChannelLifecycle.handleInput. destruct (channel_of ch h) as [c|]; [|by left].
  destruct (h_agents h !! cs_hostId c); [|by left]. right. by apply typed_emit.
Qed.
Lemma resize_typed ch cols rows h :
  typed (ChannelLifecycle.exec (Resize ch cols rows) h) = typed h ∨
  typed (ChannelLifecycle.exec (Resize ch cols rows) h) = typed h ++ [typed_size ch cols rows].
Proof.
  cbn [ChannelLifecycle.exec]. unfold ChannelLifecycle.handleResize. destruct (channel_of ch h) as [c|]; [|by left].
  destruct (h_agents h !! cs_hostId c) as [a|]; [|by left]. right. cbv zeta.
  assert (∀ w : Hub, typed w = typed h ++ [typed_size ch cols rows] →
    typed (if decide (cs_cols c = cols ∧ cs_rows c = rows) then w else broadcastToChannel ch (CHANNEL_SIZE ch cols rows) w)
    = typed h ++ [typed_size ch cols rows]) as Hb.
  { intros w Hw. destruct (decide _); [done|]. unfold broadcastToChannel. destruct (channel_of ch w); [|done].
    by rewrite typed_told. }
  apply Hb. rewrite <- (typed_emit (to_agent a (RESIZE ch cols rows)) _ h eq_refl). unfold on_channel. simpl.
  by destruct (h_channels h !! ch).
Qed.
End typing.

(** ** What the operations of the route touch *)

Section route.
Context `{!Setup} {Sc Ou : Type} `{!Screens Sc, !Outputs Ou} `{!RouteSetup}.
Notation Route := (Route Sc Ou).
Implicit Types (r : Route) (c : ClientId).

Definition request_of (o : Out) : option Request := match o with asks _ q => Some q | _ => None end.
(** What was handed to the prompts, to a test of a host, to the uploads. *)
Definition requests r : list Request := omap request_of (ro_log r).
(** The sockets and the two registries of them. *)
Definition core r := (ro_sockets r, ro_registry r, ro_tokenSockets r).
(** Nothing but what is said, closed and recorded. *)
Record said r r' : Prop := {
  sa_core : core r' = core r; sa_locks : ro_locks r' = ro_locks r; sa_hub : ro_hub r' = ro_hub r;
  sa_store : ro_store r' = ro_store r; sa_promises : ro_promises r' = ro_promises r; sa_requests : requests r' = requests r
}.
Lemma said_refl r : said r r.
Proof. done. Qed.
Lemma said_trans r1 r2 r3 : said r1 r2 → said r2 r3 → said r1 r3.
Proof. intros [] []. split; congruence. Qed.
Lemma said_log o r : request_of o = None → said r (log o r).
Proof. intros Ho. split; try done. unfold requests. cbn. rewrite omap_app. cbn. by rewrite Ho, app_nil_r. Qed.
Lemma said_send c m r : said r (send c m r).
Proof. unfold send. destruct (socket_open c r); [by apply said_log|apply said_refl]. Qed.
Lemma said_sendTo c m r : said r (sendTo c m r).
Proof. unfold sendTo. destruct (decide _); [apply said_send|apply said_refl]. Qed.
Lemma said_fold {A} (f : Route → A → Route) l r : (∀ r x, said r (f r x)) → said r (fold_left f l r).
Proof.
  intros Hf. revert r. induction l as [|x l IH]; intros r; [apply said_refl|]. cbn [fold_left].
  eapply said_trans; [apply Hf|apply IH].
Qed.
Lemma said_deliver e r : said r (deliver e r).
Proof.
  destruct e; simpl; [apply said_sendTo|apply said_fold; intros; apply said_send|by apply said_log|].
  destruct transfers; [by apply said_log|apply said_refl].
Qed.
Lemma lock_op_said o r : said (r <{ ro_locks := WriteLock.exec (ro_locks r) o }>) (lock_op o r).
Proof. apply said_fold. intros. apply said_deliver. Qed.

(** What a frame of a window that may act changes: neither the sockets nor the store; the locks by
    their operations; nothing typed. *)
Record acted r r' : Prop := {
  ac_core : core r' = core r; ac_store : ro_store r' = ro_store r;
  ac_locks : WriteLock.wf (ro_locks r) → WriteLock.wf (ro_locks r'); ac_typed : typed (ro_hub r') = typed (ro_hub r)
}.
Lemma acted_refl r : acted r r.
Proof. done. Qed.
Lemma acted_trans r1 r2 r3 : acted r1 r2 → acted r2 r3 → acted r1 r3.
Proof. intros [] []. split; [congruence..|auto|congruence]. Qed.
Lemma acted_said r r1 r' : acted r r1 → said r1 r' → acted r r'.
Proof. intros [] []. split; try congruence. by rewrite sa_locks0. Qed.
Lemma acted_send c m r r1 : acted r r1 → acted r (send c m r1).
Proof. intros. eapply acted_said; [done|apply said_send]. Qed.
Lemma acted_log o r r1 : acted r r1 → acted r (log o r1).
Proof. intros []. by split. Qed.
Lemma acted_lock_op o r r1 : acted r r1 → acted r (lock_op o r1).
Proof.
  intros []. eapply acted_said; [|apply lock_op_said]. split; try done. cbn. intros Hw.
  by apply exec_conforms, ac_locks0.
Qed.
Lemma acted_hub_exec e r r1 : typed_by e = None → acted r r1 → acted r (hub_exec e r1).
Proof. intros He []. split; try done. cbn. by rewrite exec_typed. Qed.
Lemma acted_promises f r r1 : acted r r1 → acted r (r1 <{ ro_promises ::= f }>).
Proof. intros []. by split. Qed.
Lemma acted_fold {A} (f : Route → A → Route) l r r1 :
  (∀ r1 x, acted r r1 → acted r (f r1 x)) → acted r r1 → acted r (fold_left f l r1).
Proof. intros Hf. revert r1. induction l as [|x l IH]; intros r1 Hr1; [done|]. simpl. auto. Qed.
Lemma acted_with_channel c v k r r1 :
  (∀ ch, ulid v = Some ch → acted r (k ch r1)) → acted r r1 → acted r (with_channel c v k r1).
Proof.
  intros Hk Hr. unfold with_channel. destruct (ulid v) as [ch|]; [by apply Hk|]. by apply acted_send.
Qed.

(** A typed frame and the terminal it is of. *)
Definition types_with (f : Frame) (w : Typed) c (m : WriteLockManager) : Prop :=
  match w with
  | typed_input ch data =>
      ∃ v, f = f_INPUT v (bytes data) ∧ ulid v = Some ch ∧ (N.of_nat (length data) <= MAX_INPUT_SIZE)%N ∧
        isWriteLockHolder ch c m = true
  | typed_size ch cols rows =>
      ∃ v x y, f = f_RESIZE v x y ∧ ulid v = Some ch ∧ isInteger x = Some cols ∧ isInteger y = Some rows ∧
        (1 <= cols <= 500)%Z ∧ (1 <= rows <= 500)%Z ∧ getHolder ch m = Some c
  end.
End route.
#[local] Hint Resolve acted_refl acted_send acted_log acted_lock_op acted_hub_exec acted_promises acted_fold : ws.
(** Through the branches of a handler. *)
Ltac handled := repeat first
  [ progress auto with ws
  | apply acted_hub_exec; [reflexivity|]
  | apply acted_fold; [intros ? ? ?|]
  | match goal with |- context [match ?x with _ => _ end] => destruct x end ].

Section frames.
Context `{!Setup} {Sc Ou : Type} `{!Screens Sc, !Outputs Ou} `{!RouteSetup}.
Notation Route := (Route Sc Ou).
Implicit Types (r : Route) (c : ClientId).

Lemma spawn_acted c m r : acted r (handleSpawn c m r).
Proof. unfold handleSpawn, invalid_input, error. handled. Qed.
Lemma files_panel_acted c ch open r : acted r (handleFilesPanel c ch open r).
Proof.
  apply acted_with_channel; [|auto with ws]. intros id _. unfold write_lock_denied, invalid_input, error. handled.
Qed.
Lemma prompt_acted c host secret prompt epoch r : acted r (handleAuthPromptResponse c host secret prompt epoch r).
Proof. unfold handleAuthPromptResponse, invalid_input, error. handled. Qed.
Lemma verify_acted c prompt action q r : acted r (verify_response c prompt action q r).
Proof. unfold verify_response, invalid_input, error. handled. Qed.
Lemma test_connect_acted c m r : acted r (handleTestConnect c m r).
Proof. unfold handleTestConnect, invalid_input, error. handled. Qed.
Lemma transfer_acted c t m r : acted r (handleTransfer c t m r).
Proof. unfold handleTransfer. handled. Qed.
Lemma channel_acted c v k r : (∀ ch, acted r (k ch r)) → acted r (with_channel c v k r).
Proof. intros. apply acted_with_channel; auto with ws. Qed.

Lemma input_acts c v data r :
  let r' := handleInput c v data r in
  acted r r' ∨ core r' = core r ∧ ro_store r' = ro_store r ∧ ro_locks r' = ro_locks r ∧
    ∃ w, types_with (f_INPUT v data) w c (ro_locks r) ∧ typed (ro_hub r') = typed (ro_hub r) ++ [w].
Proof.
  unfold handleInput, with_channel, invalid_input, error, write_lock_denied. destruct (ulid v) as [ch|] eqn:Hv; [|left; handled].
  destruct data as [| | | | |l| |]; try (left; handled; fail).
  destruct (isValidInputData (bytes l)) eqn:Hl; cbn [negb]; [|left; handled].
  destruct (isWriteLockHolder ch c (ro_locks r)) eqn:Hh; cbn [negb]; [|left; handled].
  destruct (input_typed ch l (ro_hub r)) as [Ht|Ht]; [left; by split|right]. split_and!; [done..|].
  exists (typed_input ch l). split; [|done]. exists v. split_and!; [done..| |done]. by apply N.leb_le.
Qed.
Lemma resize_acts c v x y r :
  let r' := handleResize c v x y r in
  acted r r' ∨ core r' = core r ∧ ro_store r' = ro_store r ∧ ro_locks r' = ro_locks r ∧
    ∃ w, types_with (f_RESIZE v x y) w c (ro_locks r) ∧ typed (ro_hub r') = typed (ro_hub r) ++ [w].
Proof.
  unfold handleResize, with_channel, invalid_input, error. destruct (ulid v) as [ch|] eqn:Hv; [|left; handled].
  destruct (isInteger x) as [cols|] eqn:Hx; [|left; handled]. destruct (isInteger y) as [rows|] eqn:Hy; [|left; handled].
  destruct (isValidDimensions x y) eqn:Hd; cbn [negb]; [|left; handled].
  destruct (isHolder ch c (ro_locks r)) eqn:Hh; cbn [negb]; [|left; handled].
  destruct (resize_typed ch cols rows (ro_hub r)) as [Ht|Ht]; [left; by split|right]. split_and!; [done..|].
  exists (typed_size ch cols rows). split; [|done]. exists v, x, y.
  unfold isValidDimensions in Hd. rewrite Hx, Hy, !andb_true_iff, !Z.leb_le in Hd.
  apply bool_decide_eq_true in Hh. split_and!; (done || lia).
Qed.
(** A handler leaves the sockets and the store; at most one terminal is typed into, by a window that
    may. *)
Record served c (f : Frame) r r' : Prop := {
  sv_core : core r' = core r; sv_store : ro_store r' = ro_store r;
  sv_locks : WriteLock.wf (ro_locks r) → WriteLock.wf (ro_locks r');
  sv_typed : typed (ro_hub r') = typed (ro_hub r) ∨
    ∃ w, types_with f w c (ro_locks r) ∧ typed (ro_hub r') = typed (ro_hub r) ++ [w]
}.
Lemma acted_served c f r r' : acted r r' → served c f r r'.
Proof. intros []. split; auto. Qed.
Lemma dispatch_served c t f r : served c f r (dispatch c t f r).
Proof.
  destruct f; simpl; try apply acted_served, verify_acted;
    try (apply acted_served; auto using spawn_acted, files_panel_acted, prompt_acted, verify_acted,
      test_connect_acted, transfer_acted with ws; apply channel_acted; intros; handled; fail).
  - destruct (input_acts c channelId data r) as [?|(? & ? & Hl & ?)]; [by apply acted_served|].
    split; [done..|by rewrite Hl|by right].
  - destruct (resize_acts c channelId cols rows r) as [?|(? & ? & Hl & ?)]; [by apply acted_served|].
    split; [done..|by rewrite Hl|by right].
Qed.
End frames.
