(* ===== verification/WsSockets.v ===== *)
(** * What is true of the sockets, whatever happens ([WsHandler])

    The rows of the store stay while the hub runs ([store_goes]); a socket is in the registries while it
    was not let go of, under the credential it signed in with, which has a row ([inv]); a frame comes
    to one of a few things ([outcome], [message_outcome]). Every step keeps the invariant, and what a
    socket signed in with ([goes_step]). *)

From S2P Require Import Prelude JsMap Auth WriteLock ChannelData ChannelTrackers StateBroadcaster ChannelLifecycle ChannelChanges ChannelTruth Validation WsHandler WsFrames.
#[local] Open Scope nat_scope.
#[local] Open Scope lasterm_scope.

(** ** The store, while the hub runs *)

Section store.
Implicit Types (a : Auth.Hub).

(** Its rows stay, and what is refused, but for the primary token, stays refused. *)
Record store_goes a a' : Prop := {
  sg_ok : db_ok (Auth.db a) → db_ok (Auth.db a');
  sg_now : (Auth.now a <= Auth.now a')%Z;
  sg_rows : db_ok (Auth.db a) → ∀ row, row ∈ Auth.db a → ∃ row', row' ∈ Auth.db a' ∧ id row' = id row ∧
    tokenHash row' = tokenHash row ∧ (id row ≠ PRIMARY_TOKEN_ID → Auth.dead row (Auth.now a) → Auth.dead row' (Auth.now a'))
}.
Lemma store_goes_same a a' : Auth.db a' = Auth.db a → Auth.now a' = Auth.now a → store_goes a a'.
Proof. intros Hd Hn. split; rewrite ?Hd, ?Hn; [done|lia|]. intros _ row Hrow. by exists row. Qed.
Lemma store_goes_trans a1 a2 a3 : store_goes a1 a2 → store_goes a2 a3 → store_goes a1 a3.
Proof.
  intros [A1 A2 A3] [B1 B2 B3]. split; [auto|lia|]. intros Hok row Hrow.
  destruct (A3 Hok row Hrow) as (row2 & Hr2 & Hi2 & Hh2 & Hd2).
  destruct (B3 (A1 Hok) row2 Hr2) as (row3 & ? & ? & ? & Hd3). exists row3. split_and!; [done|congruence..|].
  intros Hp Hd. apply Hd3; [congruence|auto].
Qed.
Lemma step_goes ttl a e : match e with EvRestart _ => False | _ => True end → store_goes a (Auth.step ttl a e).
Proof.
  intros He. split; [apply step_ok|apply step_time|]. intros Hok row Hrow.
  assert (∃ row', row' ∈ Auth.db (Auth.step ttl a e) ∧ id row' = id row ∧ tokenHash row' = tokenHash row)
    as (row' & Hin & Hid & Hh).
  { destruct e as [ms|hash|i hash lbl x|tid|hash|rd w]; simpl; [by eauto|done| | | |by eauto].
    - destruct (writes a); [|by eauto]. destruct (createToken _ _ _ _ _ _) eqn:Hc; [|by eauto].
      apply insert_Some in Hc as [-> _]. exists row. split; [|done]. apply elem_of_app. by left.
    - destruct (writes a); [|by eauto]. simpl. eexists. split; [by apply (update_image _ _ _ row Hrow)|].
      cbv beta. by case_bool_decide.
    - destruct (authenticate_db ttl hash a) as (_ & _ & [-> |(r0 & _ & _ & ->)]); [by eauto|].
      destruct (touch_image (id r0) ttl (Auth.now a) (Auth.db a) row Hrow) as (row' & ? & ? & ? & _). eauto. }
  destruct (decide (id row = PRIMARY_TOKEN_ID)) as [Hp|Hp]; [by exists row'|].
  destruct (step_row ttl a e row Hok Hrow Hp) as (row2 & ? & ? & ? & ?). exists row2. split_and!; auto.
Qed.
(** A row that is taken, used. *)
Lemma touch_goes ttl a row rep :
  db_ok (Auth.db a) → row ∈ Auth.db a → ¬ Auth.dead row (Auth.now a) →
  let d := touchTokenBestEffort (writes a) (id row) ttl (Auth.now a) (Auth.db a, rep) in
  store_goes a (with_store a d.1 d.2).
Proof.
  intros Hok Hrow Halive. unfold touchTokenBestEffort. destruct (writes a); simpl; [|by apply store_goes_same].
  split; simpl; [intros _; by apply db_ok_touch|lia|]. intros _ row1 Hrow1.
  destruct (touch_image (id row) ttl (Auth.now a) (Auth.db a) row1 Hrow1) as (row' & ? & ? & ? & _ & _ & _ & Hother).
  exists row'. split_and!; [done..|]. intros _ Hdead. rewrite Hother; [done|]. intros Heq.
  by rewrite (row_by_id _ _ _ Hok Hrow1 Hrow Heq) in Hdead.
Qed.
Lemma accepted_row ttl hash a tid :
  (authenticate ttl hash a).2 = accepted tid → ∃ row, row ∈ Auth.db (authenticate ttl hash a).1 ∧ id row = tid ∧ tokenHash row = hash.
Proof.
  unfold authenticate, validateTokenHash. destruct (reads a); [|done].
  destruct (getTokenByHash hash (Auth.db a)) as [row|] eqn:Hg; [|done].
  destruct (check_total row (Auth.now a)) as [[reason ->]|Hv]; [done|]. rewrite Hv.
  apply getTokenByHash_Some in Hg as [Hrow Hh]. unfold touchTokenBestEffort. destruct (writes a); simpl; intros [= <-]; [|by eauto].
  destruct (touch_image (id row) ttl (Auth.now a) (Auth.db a) row Hrow) as (row' & ? & ? & ? & _). exists row'.
  split_and!; [done..|congruence].
Qed.
(** The verdict of the row a credential is of. *)
Lemma verdict_row a row :
  db_ok (Auth.db a) → row ∈ Auth.db a → validateTokenHash (Some (Auth.db a)) (tokenHash row) (Auth.now a) = check_record row (Auth.now a).
Proof. intros Hok Hrow. simpl. by rewrite getTokenByHash_elem. Qed.
End store.

(** ** The sockets and the registries *)

Section route.
Context `{!Setup} {Sc Ou : Type} `{!Screens Sc, !Outputs Ou} `{!RouteSetup}.
Notation Route := (Route Sc Ou).
Implicit Types (r : Route) (c : ClientId) (s : Socket).

(** Of a socket: what ended it, and what it holds; what the registries say of it. *)
Record sound c s r : Prop := {
  so_ends : so_released s = so_gone s || so_ending s;
  so_held : is_Some (so_credential s) ↔ so_authenticated s = true ∧ authToken = true;
  so_gate : authToken = false → so_authenticated s = true;
  so_sends : c ∈ ro_registry r ↔ so_released s = false;
  so_token tid : ro_tokenSockets r !! c = Some tid ↔ so_released s = false ∧ hc_id <$> so_credential s = Some tid
}.
Definition has_row (held : HeldCredential) (d : Database) : Prop :=
  ∃ row, row ∈ d ∧ id row = hc_id held ∧ tokenHash row = hc_tokenHash held.
Record inv r : Prop := {
  i_store : db_ok (Auth.db (ro_store r));
  i_locks : WriteLock.wf (ro_locks r);
  i_sound c s : ro_sockets r !! c = Some s → sound c s r;
  i_wf : js_wf (ro_tokenSockets r);
  i_unknown c : ro_sockets r !! c = None → c ∉ ro_registry r ∧ ro_tokenSockets r !! c = None;
  i_rows c s held : ro_sockets r !! c = Some s → so_credential s = Some held → has_row held (Auth.db (ro_store r))
}.
(** One socket changed, and the registries at most of it. *)
Record changes c s' r r' : Prop := {
  ch_one c' : ro_sockets r' !! c' = if decide (c = c') then Some s' else ro_sockets r !! c';
  ch_registry c' : c' ≠ c → c' ∈ ro_registry r' ↔ c' ∈ ro_registry r;
  ch_tokens c' : c' ≠ c → ro_tokenSockets r' !! c' = ro_tokenSockets r !! c';
  ch_wf : js_wf (ro_tokenSockets r) → js_wf (ro_tokenSockets r')
}.
Lemma has_row_goes a a' held : store_goes a a' → db_ok (Auth.db a) → has_row held (Auth.db a) → has_row held (Auth.db a').
Proof.
  intros Hg Hok (row & Hin & Hi & Hh). destruct (sg_rows _ _ Hg Hok row Hin) as (row' & ? & ? & ? & _).
  exists row'. split_and!; [done|congruence..].
Qed.
Lemma inv_changes c s' r r' :
  inv r → changes c s' r r' → store_goes (ro_store r) (ro_store r') → WriteLock.wf (ro_locks r') →
  sound c s' r' → (∀ held, so_credential s' = Some held → has_row held (Auth.db (ro_store r'))) → inv r'.
Proof.
  intros [I1 I2 I3 I0 I4 I5] [C1 C2 C3 C4] Hg Hw Hs Hr. split; [by apply (sg_ok _ _ Hg)|done| |by apply C4| |].
  - intros c' s. rewrite C1. destruct (decide (c = c')) as [<-|Hne]; [by intros [= <-]|]. intros Hc.
    destruct (I3 _ _ Hc) as [S1 S2 S0 S3 S4]. split; [done..| |].
    + by rewrite C2 by congruence.
    + intros tid. by rewrite C3 by congruence.
  - intros c'. rewrite C1. destruct (decide (c = c')) as [<-|Hne]; [done|]. intros Hc.
    rewrite C2, C3 by congruence. by apply I4.
  - intros c' s held. rewrite C1. destruct (decide (c = c')) as [<-|Hne]; [intros [= <-]; apply Hr|].
    intros Hc Hh. eapply has_row_goes; [done..|]. by eapply I5.
Qed.
(** No socket changed. *)
Lemma inv_same_route r r' :
  inv r → core r' = core r → store_goes (ro_store r) (ro_store r') → WriteLock.wf (ro_locks r') → inv r'.
Proof.
  intros [I1 I2 I3 I0 I4 I5] [= Es Er Et] Hg Hw. split; rewrite ?Es; [by apply (sg_ok _ _ Hg)|done| |by rewrite Et| |].
  - intros c s Hc. destruct (I3 _ _ Hc). by split; rewrite ?Er, ?Et.
  - intros c. rewrite Er, Et. apply I4.
  - intros c s held Hc Hh. eapply has_row_goes; [done..|]. by eapply I5.
Qed.

(** ** What ends a socket *)

(** All a socket's end does: what it holds is let go of. *)
Record leaves c s s' r r' : Prop := {
  lv_one c' : ro_sockets r' !! c' = if decide (c = c') then Some s' else ro_sockets r !! c';
  lv_registry : ro_registry r' = set_delete c (ro_registry r);
  lv_tokens : ro_tokenSockets r' = delete c (ro_tokenSockets r);
  lv_locks : ro_locks r' = if so_authenticated s then onClientDisconnect c (ro_locks r) else ro_locks r;
  lv_hub : ro_hub r' = if so_authenticated s then removeClient c (ro_hub r) else ro_hub r;
  lv_store : ro_store r' = ro_store r; lv_promises : ro_promises r' = ro_promises r; lv_requests : requests r' = requests r
}.
Lemma leaves_said c s s' r r1 r' : leaves c s s' r r1 → said r1 r' → leaves c s s' r r'.
Proof.
  intros [L1 L2 L3 L4 L5 L6 L7 L8] [[= E1 E2 E3] A1 A2 A3 A4 A5].
  split; rewrite ?E1, ?E2, ?E3, ?A1, ?A2, ?A3, ?A4, ?A5; done.
Qed.
Lemma said_leaves c s s' r r1 r' : said r r1 → leaves c s s' r1 r' → leaves c s s' r r'.
Proof.
  intros [[= E1 E2 E3] A1 A2 A3 A4 A5] [L1 L2 L3 L4 L5 L6 L7 L8].
  split; rewrite <- ?E1, <- ?E2, <- ?E3, <- ?A1, <- ?A2, <- ?A3, <- ?A4, <- ?A5; done.
Qed.
Lemma release_leaves c s r :
  ro_sockets r !! c = Some s → so_released s = false →
  leaves c s (s <{ so_released := true }> <{ so_authTimeout := false }>) r (release c r).
Proof.
  intros Hc Hr. unfold release. rewrite Hc, Hr.
  set (r1 := set_field ro_tokenSockets _ _).
  assert (∀ c', ro_sockets r1 !! c' = if decide (c = c') then Some (s <{ so_released := true }> <{ so_authTimeout := false }>)
    else ro_sockets r !! c') as Ho.
  { intros c'. cbn. rewrite js_lookup_alter, Hc. done. }
  destruct (so_authenticated s) eqn:Ha; [|by split; rewrite ?Ha].
  pose proof (lock_op_said (Disconnect c) r1) as Hl.
  set (r2 := lock_op (Disconnect c) r1) in *.
  assert (leaves c s (s <{ so_released := true }> <{ so_authTimeout := false }>) r (hub_exec (Gone c) r2)) as H2.
  { destruct Hl as [[= E1 E2 E3] E4 E5 E6 E7 E8].
    split; rewrite ?Ha; unfold hub_exec; cbn -[lookup]; rewrite ?E1, ?E2, ?E3, ?E4, ?E5, ?E6, ?E7; [exact Ho|done..|].
    unfold requests in *. cbn. by rewrite E8. }
  destruct transfers; [|done]. eapply leaves_said; [done|by apply said_log].
Qed.
Lemma leaves_close c s s' code r r1 :
  leaves c s s' r r1 → leaves c s (s' <{ so_open := false }>) r (close c code r1).
Proof.
  intros L. unfold close, socket_open. rewrite (lv_one _ _ _ _ _ L), decide_True by done.
  destruct (so_open s') eqn:Ho.
  - eapply leaves_said; [|by apply said_log]. destruct L. split; cbn; try done. intros c'.
    rewrite js_lookup_alter, !lv_one0, (decide_True (P := c = c)) by done. by destruct (decide (c = c')).
  - destruct s'; simpl in *; by subst.
Qed.
Lemma leaves_mark c s f r :
  ro_sockets r !! c = Some s → so_released (f s) = false → so_authenticated (f s) = so_authenticated s →
  leaves c s (f s <{ so_released := true }> <{ so_authTimeout := false }>) r (release c (on_socket c f r)).
Proof.
  intros Hc Hr Ha. assert (ro_sockets (on_socket c f r) !! c = Some (f s)) as Hf.
  { cbn. by rewrite js_lookup_alter, decide_True, Hc. }
  destruct (release_leaves c (f s) _ Hf Hr) as [L1 L2 L3 L4 L5 L6 L7 L8]. rewrite Ha in *. split; try done.
  intros c'. rewrite L1. cbn. rewrite js_lookup_alter. by destruct (decide (c = c')).
Qed.
Definition ended_socket s : Socket :=
  MkSocket false (so_gone s) (so_authenticated s) (so_credential s) true true false.
Lemma end_leaves c s code r :
  ro_sockets r !! c = Some s → so_ending s = false → so_released s = false →
  leaves c s (ended_socket s) r (end_ c code r).
Proof.
  intros Hc He Hr. unfold end_. rewrite Hc, He.
  change (ended_socket s) with ((s <{ so_ending := true }> <{ so_released := true }> <{ so_authTimeout := false }>) <{ so_open := false }>).
  apply leaves_close.
  by apply (leaves_mark c s (λ s, s <{ so_ending := true }>)).
Qed.
Lemma refuse_leaves c s status r :
  ro_sockets r !! c = Some s → so_ending s = false → so_released s = false →
  leaves c s (ended_socket s) r (refuse c status r).
Proof.
  intros Hc He Hr. unfold refuse. rewrite Hc, He.
  eapply said_leaves; [by apply (said_log (records (authFailed c "token_no_longer_valid" (Some status))))|].
  by apply end_leaves.
Qed.

(** ** What a frame comes to *)

(** Everything but one socket, what is said of it, and the store. *)
Record only_socket c s' a r r' : Prop := {
  on_one c' : ro_sockets r' !! c' = if decide (c = c') then Some s' else ro_sockets r !! c';
  on_registry : ro_registry r' = ro_registry r; on_tokens : ro_tokenSockets r' = ro_tokenSockets r;
  on_locks : ro_locks r' = ro_locks r; on_hub : ro_hub r' = ro_hub r; on_store : ro_store r' = a;
  on_promises : ro_promises r' = ro_promises r; on_requests : requests r' = requests r
}.
(** A frame does nothing, or ends the socket for a credential the store does not take, or a refused
    sign-in shuts it, or it signs in, or its handler runs for a credential the store takes. *)
Inductive outcome c (f : Frame) s r : Route → Prop :=
| oc_nothing r' : said r r' →
    (so_ending s = false → f = f_malformed ∨ f = f_null) → outcome c f s r r'
| oc_shut a r' : so_authenticated s = false → store_goes (ro_store r) a →
    only_socket c (s <{ so_open := false }>) a r r' → outcome c f s r r'
| oc_ended held a r' : so_ending s = false → so_credential s = Some held →
    Auth.db a = Auth.db (ro_store r) → Auth.now a = Auth.now (ro_store r) → ro_store r' = a →
    leaves c s (ended_socket s) (r <{ ro_store := a }>) r' → outcome c f s r r'
| oc_signed token windowId hash tokenId r' :
    f = f_AUTH token windowId → so_ending s = false → so_authenticated s = false → hashToken token = Some hash →
    (authenticate ttlDays hash (ro_store r)).2 = accepted tokenId →
    r' = signed_in c hash tokenId windowId (r <{ ro_store := (authenticate ttlDays hash (ro_store r)).1 }>) →
    outcome c f s r r'
| oc_served held' s' a r1 r' : so_ending s = false → so_authenticated s = true →
    s' = s <{ so_credential := held' }> →
    (λ h, (hc_id h, hc_tokenHash h)) <$> held' = (λ h, (hc_id h, hc_tokenHash h)) <$> so_credential s →
    (∀ held, so_credential s = Some held →
       ∃ row, validateTokenHash (store_read (ro_store r)) (hc_tokenHash held) (Auth.now (ro_store r)) = valid row) →
    store_goes (ro_store r) a → only_socket c s' a r r1 → served c f r1 r' → outcome c f s r r'.

Lemma only_socket_same c s r : ro_sockets r !! c = Some s → only_socket c s (ro_store r) r r.
Proof. intros Hc. split; try done. intros c'. by destruct (decide (c = c')) as [<-|]. Qed.
Lemma only_socket_said c s a r r1 r' : only_socket c s a r r1 → said r1 r' → only_socket c s a r r'.
Proof.
  intros [L1 L2 L3 L4 L5 L6 L7 L8] [[= E1 E2 E3] A1 A2 A3 A4 A5].
  split; rewrite ?E1, ?E2, ?E3, ?A1, ?A2, ?A3, ?A4, ?A5; done.
Qed.
Lemma only_socket_close c s a code r r1 :
  only_socket c s a r r1 → only_socket c (s <{ so_open := false }>) a r (close c code r1).
Proof.
  intros L. unfold close, socket_open. rewrite (on_one _ _ _ _ _ L), decide_True by done.
  destruct (so_open s) eqn:Ho.
  - eapply only_socket_said; [|by apply said_log]. destruct L. split; cbn; try done. intros c'.
    rewrite js_lookup_alter, !on_one0, (decide_True (P := c = c)) by done. by destruct (decide (c = c')).
  - destruct s; simpl in *; by subst.
Qed.
(** Refused before it signed in: something is recorded, said, and the socket shut. *)
Lemma only_socket_store c s r a :
  ro_sockets r !! c = Some s → only_socket c s a r (r <{ ro_store := a }>).
Proof. intros Hc. split; try done. intros c'. cbn. by destruct (decide (c = c')) as [<-|]. Qed.

Lemma auth_outcome c s token windowId r r' :
  ro_sockets r !! c = Some s → so_ending s = false → so_authenticated s = false →
  auth_frame c token windowId r = Some r' → outcome c (f_AUTH token windowId) s r r'.
Proof.
  intros Hc He Ha. unfold auth_frame. destruct has_db; cbn [negb].
  2: { intros [= <-]. eapply (oc_shut _ _ _ _ (ro_store r)); [done|by apply store_goes_same|]. apply only_socket_close.
       do 2 (eapply only_socket_said; [|(by apply said_log) || apply said_send]). by apply only_socket_same. }
  destruct (hashToken token) as [hash|] eqn:Hh; [|done]. cbn [mbind option_bind].
  pose proof (oc_signed c (f_AUTH token windowId) s r token windowId hash) as Hsigned.
  pose proof (step_goes ttlDays (ro_store r) (EvRequest hash) I) as Hg.
  cbn [Auth.step] in Hg. destruct (authenticate ttlDays hash (ro_store r)) as [a answer]. cbn [fst snd] in *.
  intros [= <-]. destruct answer as [tid|reason|]; [by eapply Hsigned| |].
  - eapply oc_shut; [done..|]. apply only_socket_close.
    do 2 (eapply only_socket_said; [|(by apply said_log) || apply said_send]). by apply only_socket_store.
  - eapply oc_shut; [done..|]. apply only_socket_close. by apply only_socket_store.
Qed.
Lemma valid_row a held row :
  db_ok (Auth.db a) → has_row held (Auth.db a) →
  validateTokenHash (store_read a) (hc_tokenHash held) (Auth.now a) = valid row →
  ∃ row, row ∈ Auth.db a ∧ id row = hc_id held ∧ ¬ Auth.dead row (Auth.now a).
Proof.
  intros Hok (row1 & Hin & Hi & Hh). unfold store_read. destruct (reads a); [|done].
  rewrite <- Hh, verdict_row by done. intros Hv. exists row1. split_and!; [done..|]. apply check_alive.
  destruct (check_total row1 (Auth.now a)) as [[? Hc]|Hc]; congruence.
Qed.
(** The credential is taken, and maybe touched; or its socket ends. *)
Lemma stillValid_spec c s held r :
  inv r → ro_sockets r !! c = Some s → so_ending s = false → so_released s = false → so_credential s = Some held →
  let v := validateTokenHash (store_read (ro_store r)) (hc_tokenHash held) (Auth.now (ro_store r)) in
  if (stillValid c held r).2 then
    (∃ row, v = valid row) ∧ ∃ held' a, hc_id held' = hc_id held ∧ hc_tokenHash held' = hc_tokenHash held ∧
      store_goes (ro_store r) a ∧ only_socket c (s <{ so_credential := Some held' }>) a r (stillValid c held r).1
  else
    (∀ row, v ≠ valid row) ∧ ∃ a, Auth.db a = Auth.db (ro_store r) ∧ Auth.now a = Auth.now (ro_store r) ∧
      leaves c s (ended_socket s) (r <{ ro_store := a }>) (stillValid c held r).1.
Proof.
  intros Hi Hc He Hr Hh. cbv zeta. unfold stillValid.
  destruct (validateTokenHash _ _ _) as [row|reason|] eqn:Hv.
  - assert (∃ row, row ∈ Auth.db (ro_store r) ∧ id row = hc_id held ∧ ¬ Auth.dead row (Auth.now (ro_store r))) as (row1 & Hin & Hid & Hal).
    { eapply valid_row; [apply Hi| |done]. by eapply i_rows. }
    set (rep := reportTokenStore _ _). destruct (_ <=? _)%Z.
    + pose proof (touch_goes ttlDays (ro_store r) row1 rep (i_store _ Hi) Hin Hal) as Hg. rewrite Hid in Hg. cbv zeta in Hg.
      destruct (touchTokenBestEffort _ _ _ _ _) as [d rep'] eqn:Ht. cbn [fst snd] in *. split; [by eauto|].
      eexists (MkHeld (hc_id held) (hc_tokenHash held) _), _. split; [done|]. split; [done|]. split; [exact Hg|].
      split; try done. intros c'. cbn. rewrite js_lookup_alter, Hc. by destruct (decide (c = c')).
    + cbn [fst snd]. split; [by eauto|]. exists held, (with_store (ro_store r) (Auth.db (ro_store r)) rep).
      split_and!; [done..|by apply store_goes_same|]. destruct s; simpl in *; subst. by apply only_socket_store.
  - cbn [fst snd]. split; [by intros|]. eexists. split; [|split; [|by apply refuse_leaves]]; done.
  - cbn [fst snd]. split; [by intros|]. eexists. split; [|split; [|by apply end_leaves]]; done.
Qed.
(** What a decoded frame is, past the checks of [message] on the socket. *)
Definition checked c f s r : option Route :=
  if negb (so_authenticated s) then
    match f with f_AUTH token windowId => auth_frame c token windowId r | _ => Some (not_auth_first c r) end
  else
    Some match so_credential s with
         | None => dispatch c None f r
         | Some held =>
             let '(r, ok) := stillValid c held r in if ok then dispatch c (Some (hc_id held)) f r else r
         end.
Lemma checked_outcome c f s r r' :
  inv r → ro_sockets r !! c = Some s → so_ending s = false → so_released s = false →
  checked c f s r = Some r' → outcome c f s r r'.
Proof.
  intros Hi Hc He Hr. unfold checked. destruct (so_authenticated s) eqn:Ha; cbn [negb].
  - intros [= <-]. destruct (so_credential s) as [held|] eqn:Hh.
    + pose proof (stillValid_spec c s held r Hi Hc He Hr Hh) as Hv. cbv zeta in Hv.
      destruct (stillValid c held r) as [r1 []]; cbn [fst snd] in Hv.
      * destruct Hv as (Hv & held' & a & Hid & Hhash & Hg & Ho).
        eapply (oc_served _ _ _ _ (Some held')); [done|done|reflexivity|by rewrite Hh; cbn; rewrite Hid, Hhash| |done..|apply dispatch_served].
        intros held0. rewrite Hh. by intros [= <-].
      * destruct Hv as (_ & a & Hd & Hn & L). eapply oc_ended; [done..| |exact L]. by rewrite (lv_store _ _ _ _ _ L).
    + eapply (oc_served _ _ _ _ None s); [done|done| | | |by apply store_goes_same|by apply only_socket_same|apply dispatch_served].
      * destruct s; simpl in *; by subst.
      * by rewrite Hh.
      * by rewrite Hh.
  - destruct f; intros Hf; try (by eapply auth_outcome); injection Hf as <-;
      (eapply (oc_shut _ _ _ _ (ro_store r)); [done|by apply store_goes_same|]); apply only_socket_close;
      (do 2 (eapply only_socket_said; [|(by apply said_log) || apply said_send])); by apply only_socket_same.
Qed.
Lemma message_outcome c f s r r' :
  inv r → ro_sockets r !! c = Some s → so_gone s = false → message c f r = Some r' → outcome c f s r r'.
Proof.
  intros Hi Hc Hg. unfold message. rewrite Hc.
  destruct (so_ending s) eqn:He; [intros [= <-]; eapply oc_nothing; [apply said_refl|congruence]|].
  assert (so_released s = false) as Hr by (rewrite (so_ends _ _ _ (i_sound _ Hi _ _ Hc)), Hg; done).
  destruct f; try (intros Hf; by apply checked_outcome).
  intros [= <-]. eapply oc_nothing; [apply said_send|by left].
Qed.

(** ** Every step *)

Definition key s : option (string * string) := (λ h, (hc_id h, hc_tokenHash h)) <$> so_credential s.
(** The invariant stays, the store goes on, and what a socket signed in with is what it holds. *)
Record goes_on r r' : Prop := {
  go_inv : inv r';
  go_store : store_goes (ro_store r) (ro_store r');
  go_keys c s : ro_sockets r !! c = Some s → ∃ s', ro_sockets r' !! c = Some s' ∧ (so_credential s = None ∨ key s' = key s)
}.
Lemma goes_on_refl r : inv r → goes_on r r.
Proof. intros Hi. split; [done|by apply store_goes_same|]. intros c s Hc. exists s. auto. Qed.
Lemma goes_on_trans r1 r2 r3 : goes_on r1 r2 → goes_on r2 r3 → goes_on r1 r3.
Proof.
  intros [A1 A2 A3] [B1 B2 B3]. split; [done|by eapply store_goes_trans|]. intros c s Hc.
  destruct (A3 c s Hc) as (s2 & Hc2 & Hk2). destruct (B3 c s2 Hc2) as (s3 & Hc3 & Hk3). exists s3. split; [done|].
  destruct Hk2 as [?|Hk2]; [by left|]. destruct Hk3 as [Hn|Hk3]; [|right; congruence].
  unfold key in Hk2. rewrite Hn in Hk2. destruct (so_credential s); [done|by left].
Qed.
Lemma goes_core r r' :
  inv r → core r' = core r → store_goes (ro_store r) (ro_store r') → WriteLock.wf (ro_locks r') → goes_on r r'.
Proof.
  intros Hi Hcore Hg Hw. split; [by eapply inv_same_route|done|]. injection Hcore as Es _ _. intros c s Hc. exists s.
  rewrite Es. auto.
Qed.
Lemma goes_said r r' : inv r → said r r' → goes_on r r'.
Proof.
  intros Hi [A1 A2 A3 A4 A5 A6]. apply goes_core; rewrite ?A2, ?A4; [done|done|by apply store_goes_same|apply Hi].
Qed.
Lemma goes_lock_op o r : inv r → goes_on r (lock_op o r).
Proof.
  intros Hi. destruct (lock_op_said o r) as [A1 A2 A3 A4 A5 A6]. apply goes_core; rewrite ?A1, ?A2, ?A4; try done.
  - by apply store_goes_same.
  - apply exec_conforms, Hi.
Qed.
Lemma goes_changes c s s' r r' :
  inv r → ro_sockets r !! c = Some s → changes c s' r r' → store_goes (ro_store r) (ro_store r') →
  WriteLock.wf (ro_locks r') → sound c s' r' → key s' = key s → goes_on r r'.
Proof.
  intros Hi Hc Hch Hg Hw Hs Hk. split; [|done|].
  - eapply inv_changes; [done..|]. intros held Hh. eapply has_row_goes; [done|apply Hi|].
    unfold key in Hk. rewrite Hh in Hk. destruct (so_credential s) as [held0|] eqn:Hh0; [|done].
    destruct (i_rows _ Hi _ _ _ Hc Hh0) as (row & ? & ? & ?). injection Hk as Hid Hhash. exists row. split_and!; congruence.
  - intros c' s0. rewrite (ch_one _ _ _ _ Hch). destruct (decide (c = c')) as [<-|Hne]; [|by eauto].
    rewrite Hc. intros [= <-]. eauto.
Qed.
(** A socket changed in what no registry says. *)
Lemma goes_only_socket c s s' a r r' :
  inv r → ro_sockets r !! c = Some s → only_socket c s' a r r' → store_goes (ro_store r) a →
  so_released s' = so_released s → so_released s' = so_gone s' || so_ending s' →
  so_authenticated s' = so_authenticated s → key s' = key s → goes_on r r'.
Proof.
  intros Hi Hc [O1 O2 O3 O4 O5 O6 O7 O8] Hg E1 E2 E4 Ek.
  assert (hc_id <$> so_credential s' = hc_id <$> so_credential s ∧ (is_Some (so_credential s') ↔ is_Some (so_credential s))) as [E5 E6].
  { unfold key in Ek. destruct (so_credential s'), (so_credential s); try done. injection Ek as ? ?.
    split; [by simpl; f_equal|split; by eexists]. }
  destruct (i_sound _ Hi _ _ Hc) as [S1 S2 S0 S3 S4].
  eapply goes_changes; [done..| | | | |done].
  - split; [done|by rewrite O2|by rewrite O3|by rewrite O3].
  - by rewrite O6.
  - rewrite O4. apply Hi.
  - split; rewrite ?O2, ?O3, ?E4; [done|by rewrite E6|done|by rewrite E1|]. intros tid. by rewrite E1, E5.
Qed.
Lemma goes_leaves c s s' r r' :
  inv r → ro_sockets r !! c = Some s → leaves c s s' r r' →
  so_released s' = true → so_gone s' || so_ending s' = true → so_authenticated s' = so_authenticated s →
  so_credential s' = so_credential s → goes_on r r'.
Proof.
  intros Hi Hc L E1 E2 E3 E4. destruct (i_sound _ Hi _ _ Hc) as [S1 S2 S0 S3 S4].
  destruct L as [L1 L2 L3 L4 L5 L6 L7 L8]. eapply goes_changes; [done..| | | | |].
  - split; [done| | |rewrite L3; apply js_wf_delete].
    + intros c' Hne. rewrite L2. unfold set_delete. rewrite list_elem_of_filter. naive_solver.
    + intros c' Hne. rewrite L3. by apply js_lookup_delete_ne.
  - rewrite L6. by apply store_goes_same.
  - rewrite L4. destruct (so_authenticated s); [|apply Hi]. apply (exec_conforms _ (Disconnect c)), Hi.
  - split; rewrite ?E1, ?E2, ?E3, ?E4; [done..| |].
    + rewrite L2. unfold set_delete. rewrite list_elem_of_filter. naive_solver.
    + intros tid. rewrite L3, js_lookup_delete_eq. naive_solver.
  - unfold key. by rewrite E4.
Qed.
Lemma only_socket_mark c f s r : ro_sockets r !! c = Some s → only_socket c (f s) (ro_store r) r (on_socket c f r).
Proof.
  intros Hc. split; try done. intros c'. cbn. rewrite js_lookup_alter, Hc. by destruct (decide (c = c')).
Qed.
Lemma goes_refuse c status r : inv r → goes_on r (refuse c status r).
Proof.
  intros Hi. destruct (ro_sockets r !! c) as [s|] eqn:Hc.
  2: { unfold refuse. rewrite Hc. by apply goes_on_refl. }
  destruct (so_ending s) eqn:He. { unfold refuse. rewrite Hc, He. by apply goes_on_refl. }
  destruct (so_released s) eqn:Hr.
  2: { eapply goes_leaves; [done|done|by apply refuse_leaves|..]; simpl; try done. by rewrite orb_true_r. }
  pose proof (so_ends _ _ _ (i_sound _ Hi _ _ Hc)) as Hg. rewrite Hr, He, orb_false_r in Hg.
  set (r1 := log (records (authFailed c "token_no_longer_valid" (Some status))) r).
  assert (ro_sockets r1 !! c = Some s) as Hc1 by done.
  assert (only_socket c (s <{ so_ending := true }> <{ so_open := false }>) (ro_store r) r1 (refuse c status r)) as Ho.
  { unfold refuse, end_. rewrite Hc, He. fold r1. rewrite Hc1, He. apply only_socket_close.
    unfold release. cbn -[on_socket]. cbn. rewrite js_lookup_alter, decide_True, Hc by done. cbn. rewrite Hr.
    exact (only_socket_mark c (λ s, s <{ so_ending := true }>) s r1 Hc). }
  eapply goes_on_trans; [apply (goes_said _ r1 Hi); by apply said_log|].
  eapply (goes_only_socket c s); [apply (go_inv r), goes_said; [done|by apply said_log]|done|exact Ho|by apply store_goes_same|..]; simpl; try done.
  by rewrite Hr, <- Hg.
Qed.
Lemma goes_fold {A} (f : Route → A → Route) l r :
  (∀ r x, inv r → goes_on r (f r x)) → inv r → goes_on r (fold_left f l r).
Proof.
  intros Hf. revert r. induction l as [|x l IH]; intros r Hi; [by apply goes_on_refl|]. cbn [fold_left].
  pose proof (Hf r x Hi) as Hx. eapply goes_on_trans; [exact Hx|]. apply IH, Hx.
Qed.

(** The sign-in. *)
Lemma signed_spec c s hash tid windowId r :
  ro_sockets r !! c = Some s →
  let r' := signed_in c hash tid windowId r in
  (∀ c', ro_sockets r' !! c' =
     if decide (c = c')
     then Some (s <{ so_authenticated := true }> <{ so_credential := Some (MkHeld tid hash (Auth.now (ro_store r))) }> <{ so_authTimeout := false }>)
     else ro_sockets r !! c') ∧
  ro_registry r' = ro_registry r ∧ ro_tokenSockets r' = <[c := tid]> (ro_tokenSockets r) ∧ ro_store r' = ro_store r ∧
  (WriteLock.wf (ro_locks r) → WriteLock.wf (ro_locks r')) ∧
  ro_hub r' = ChannelLifecycle.exec (Connect c) (ro_hub r) ∧ requests r' = requests r ∧ ro_promises r' = ro_promises r.
Proof.
  intros Hc. cbv zeta. unfold signed_in. set (held := MkHeld _ _ _).
  set (r1 := set_field ro_tokenSockets _ _).
  set (r2 := match ulid windowId with Some _ => _ | None => r1 end).
  assert (core r2 = core r1 ∧ ro_store r2 = ro_store r1 ∧ ro_hub r2 = ro_hub r1 ∧ requests r2 = requests r1 ∧
    ro_promises r2 = ro_promises r1 ∧ (WriteLock.wf (ro_locks r1) → WriteLock.wf (ro_locks r2))) as ([= E1 E2 E3] & E4 & E5 & E6 & E7 & Hw).
  { unfold r2. destruct (ulid windowId) as [w|]; [|done].
    destruct (lock_op_said (Identify c {| WriteLock.tokenId := tid; WriteLock.windowId := w |}) r1) as [A1 A2 A3 A4 A5 A6].
    split_and!; [done..|]. rewrite A2. intros Hw. by apply exec_conforms. }
  pose proof (said_trans _ _ _ (said_log (records (authSucceeded c tid)) r2 eq_refl) (said_send c r_AUTH_OK _)) as [[= S1 S2 S3] S4 S5 S6 S7 S8].
  set (r3 := send c r_AUTH_OK _) in *. unfold hub_exec. cbn -[r3 lookup]. unfold requests in *. cbn -[r3 r2 r1 lookup].
  rewrite S1, S2, S3, S4, S5, S6, S7, S8, E1, E2, E3, E4, E5, E6, E7. split_and!; try done.
  intros c'. cbn. rewrite js_lookup_alter, Hc. by destruct (decide (c = c')).
Qed.
Lemma goes_outcome c f s r r' :
  inv r → ro_sockets r !! c = Some s → so_gone s = false → outcome c f s r r' → goes_on r r'.
Proof.
  intros Hi Hc Hg Ho. pose proof (i_sound _ Hi _ _ Hc) as [S1 S2 S0 S3 S4]. rewrite Hg in S1.
  destruct Ho as [r' Hs|a r' Ha Hst Ho|held a r' He Hh Hd Hn Hst L|token windowId hash tid r' -> He Ha Hh Hacc ->
    |held' s' a r1 r' He Ha -> Hk _ Hst Ho [D1 D2 D3 D4]].
  - by apply goes_said.
  - eapply goes_only_socket; try done. simpl. by rewrite S1, Hg.
  - assert (goes_on r (r <{ ro_store := a }>)) as H1.
    { apply goes_core; [done|done|by apply store_goes_same|apply Hi]. }
    eapply goes_on_trans; [exact H1|]. eapply goes_leaves; [apply H1|done|exact L|..]; simpl; try done. by rewrite orb_true_r.
  - set (a := authenticate ttlDays hash (ro_store r)) in *.
    assert (store_goes (ro_store r) a.1) as Hst by apply (step_goes ttlDays (ro_store r) (EvRequest hash) I).
    set (r0 := r <{ ro_store := a.1 }>).
    destruct (signed_spec c s hash tid windowId r0 Hc) as (O1 & O2 & O3 & O4 & O5 & _).
    assert (so_credential s = None) as Hn.
    { destruct (so_credential s); [|done]. destruct (proj1 S2 ltac:(by eexists)). congruence. }
    set (r' := signed_in _ _ _ _ _) in *. clearbody r'.
    change (ro_sockets r0) with (ro_sockets r) in O1. change (ro_registry r0) with (ro_registry r) in O2.
    change (ro_tokenSockets r0) with (ro_tokenSockets r) in O3. change (ro_locks r0) with (ro_locks r) in O5.
    change (ro_store r0) with a.1 in O1, O4. clearbody r0. split.
    + eapply (inv_changes c _ r); [done| | | | |].
      * split; [exact O1| | |rewrite O3; apply js_wf_insert]; intros c' Hne; rewrite ?O2, ?O3; [done|].
        by apply js_lookup_insert_ne.
      * by rewrite O4.
      * apply O5, Hi.
      * assert (so_released s = false) as Hrel by by rewrite S1, He.
        assert (authToken = true) as Ht.
        { destruct authToken eqn:Ht; [done|]. by rewrite S0 in Ha. }
        split; cbn; rewrite ?O2, ?O3; [by rewrite S1, Hg| |done|exact S3|].
        -- split; [done|by eexists].
        -- intros tid'. rewrite js_lookup_insert_eq. split; [by intros [= <-]|by intros [_ [= <-]]].
      * cbn. intros held [= <-]. rewrite O4. destruct (accepted_row _ _ _ _ Hacc) as (row & ? & ? & ?). by exists row.
    + by rewrite O4.
    + intros c' s0. rewrite O1. destruct (decide (c = c')) as [<-|Hne]; [|by eauto].
      rewrite Hc. intros [= <-]. eauto.
  - assert (goes_on r r1) as H1.
    { eapply goes_only_socket; try done. simpl. by rewrite S1, Hg. }
    eapply goes_on_trans; [exact H1|]. apply goes_core; [apply H1|done| |apply D3, H1].
    rewrite D2. by apply store_goes_same.
Qed.
Lemma goes_on_goes c r : inv r → goes_on r (goes c r).
Proof.
  intros Hi. unfold goes. destruct (ro_sockets r !! c) as [s|] eqn:Hc; [|by apply goes_on_refl].
  pose proof (i_sound _ Hi _ _ Hc) as [S1 S2 S0 S3 S4].
  destruct (so_released s) eqn:Hr.
  - assert (only_socket c (s <{ so_open := false }> <{ so_gone := true }>) (ro_store r) r
      (release c (on_socket c (λ s, s <{ so_open := false }> <{ so_gone := true }>) r))) as Ho.
    { pose proof (only_socket_mark c (λ s, s <{ so_open := false }> <{ so_gone := true }>) s r Hc) as Hm.
      unfold release. rewrite (on_one _ _ _ _ _ Hm), decide_True by done. cbn -[on_socket]. by rewrite Hr. }
    eapply goes_only_socket; [done|done|exact Ho|by apply store_goes_same|..]; done.
  - eapply goes_leaves; [done|done|by apply (leaves_mark c s (λ s, s <{ so_open := false }> <{ so_gone := true }>))|..]; done.
Qed.
Lemma goes_auth_timeout c r : inv r → goes_on r (auth_timeout c r).
Proof.
  intros Hi. unfold auth_timeout. destruct (ro_sockets r !! c) as [s|] eqn:Hc; [|by apply goes_on_refl].
  pose proof (i_sound _ Hi _ _ Hc) as [S1 S2 S0 S3 S4].
  destruct (so_authTimeout s); [|by apply goes_on_refl].
  pose proof (only_socket_mark c (λ s, s <{ so_authTimeout := false }>) s r Hc) as Hm.
  destruct (so_authenticated s).
  - eapply goes_only_socket; [done|done|exact Hm|by apply store_goes_same|..]; done.
  - assert (only_socket c (s <{ so_authTimeout := false }> <{ so_open := false }>) (ro_store r) r
      (close c (Some 4001%Z) (log (records (authFailed c "auth_timeout" None)) (on_socket c (λ s, s <{ so_authTimeout := false }>) r)))) as Ho.
    { apply only_socket_close. eapply only_socket_said; [exact Hm|by apply said_log]. }
    eapply goes_only_socket; [done|done|exact Ho|by apply store_goes_same|..]; done.
Qed.
Lemma goes_opens c r : inv r → goes_on r (opens c r).
Proof.
  intros Hi. unfold opens. destruct (ro_sockets r !! c) as [s|] eqn:Hc; [by apply goes_on_refl|].
  destruct (i_unknown _ Hi _ Hc) as [Hreg Htok]. set (s := MkSocket _ _ _ _ _ _ _).
  set (r1 := set_field ro_registry _ _).
  assert (∀ c', ro_sockets r1 !! c' = if decide (c = c') then Some s else ro_sockets r !! c') as Ho.
  { intros c'. cbn. by rewrite js_lookup_insert. }
  assert (goes_on r r1) as H1.
  { split; [|by apply store_goes_same|].
    - eapply (inv_changes c s r); [done| |by apply store_goes_same|apply Hi| |done].
      + split; [done| |done|done]. intros c' Hne. cbn. rewrite elem_of_set_add. naive_solver.
      + split; cbn; [done| | | |].
        * split; [by intros [? ?]|]. by destruct authToken; intros [? ?].
        * by intros ->.
        * rewrite elem_of_set_add. split; [done|by left].
        * intros tid. rewrite Htok. naive_solver.
    - intros c' s0. rewrite Ho. destruct (decide (c = c')) as [<-|]; [by rewrite Hc|by eauto]. }
  clearbody r1. destruct authToken; [done|]. eapply goes_on_trans; [exact H1|].
  apply goes_core; [apply H1|done|by apply store_goes_same|apply H1].
Qed.
Lemma goes_closes tid r : inv r → goes_on r (closeSocketsForToken tid r).1.
Proof.
  intros Hi. unfold closeSocketsForToken.
  assert (∀ l r n, inv r → goes_on r (fold_left (λ acc (e : ClientId * string),
    if decide (e.2 = tid) then (refuse e.1 revoked acc.1, S acc.2) else acc) l (r, n)).1) as Hl; [|by apply Hl].
  induction l as [|e l IH]; intros r0 n Hi0; [by apply goes_on_refl|]. cbn [fold_left fst snd].
  destruct (decide (e.2 = tid)); [|by apply IH].
  pose proof (goes_refuse e.1 revoked r0 Hi0) as H1. eapply goes_on_trans; [exact H1|]. apply IH, H1.
Qed.
Lemma goes_store a r : inv r → store_goes (ro_store r) a → goes_on r (r <{ ro_store := a }>).
Proof. intros Hi Hg. apply goes_core; [done|done|done|apply Hi]. Qed.
Lemma goes_delete_token tid r : inv r → goes_on r (delete_token tid r).1.
Proof.
  intros Hi. unfold delete_token. destruct (bool_decide _); [by apply goes_said; [|apply said_log]|].
  destruct (writes (ro_store r)) eqn:Hw; cbn [negb]; [|by apply goes_on_refl].
  pose proof (step_goes ttlDays (ro_store r) (EvRevoke tid) I) as Hg. cbn [Auth.step] in Hg. rewrite Hw in Hg.
  destruct (revokeToken tid _ _) as [d changed]. cbn [fst] in *.
  pose proof (goes_store _ r Hi Hg) as H1. destruct changed; cbn [negb fst].
  - eapply goes_on_trans; [exact H1|].
    assert (goes_on (r <{ ro_store := set_db d (ro_store r) }>)
      (log (records (tokenRevocation tid "revoked")) (r <{ ro_store := set_db d (ro_store r) }>))) as H2.
    { apply goes_said; [apply H1|by apply said_log]. }
    eapply goes_on_trans; [exact H2|]. apply goes_closes, H2.
  - eapply goes_on_trans; [exact H1|]. apply goes_said; [apply H1|by apply said_log].
Qed.
Lemma goes_resolves i v r : inv r → goes_on r (resolves i v r).
Proof.
  intros Hi. unfold resolves. destruct (ro_promises r !! i) as [p|]; [|by apply goes_on_refl].
  assert (goes_on r (r <{ ro_promises ::= delete i }>)) as H1.
  { apply goes_core; [done|done|by apply store_goes_same|apply Hi]. }
  destruct p, v as [[]|[]|]; try exact H1; (eapply goes_on_trans; [exact H1|apply goes_lock_op, H1]).
Qed.
Lemma goes_exec e r : inv r → goes_on r (exec_at e r).
Proof.
  intros Hi. destruct e; cbn [exec_at].
  - by apply goes_opens.
  - destruct (ro_sockets r !! c) as [s|] eqn:Hc; [|by apply goes_on_refl].
    destruct (so_gone s) eqn:Hg; [by apply goes_on_refl|].
    destruct (message c f r) as [r'|] eqn:Hm; [|by apply goes_said; [|apply said_log]].
    eapply goes_outcome; [done..|]. by eapply message_outcome.
  - by apply goes_auth_timeout.
  - by apply goes_on_goes.
  - by apply goes_resolves.
  - by apply goes_lock_op.
  - by apply goes_lock_op.
  - by apply goes_delete_token.
  - apply goes_said; [done|apply said_sendTo].
  - destruct (of_the_hub e); [|by apply goes_on_refl]. apply goes_core; [done|done|by apply store_goes_same|apply Hi].
  - destruct (of_the_store e) eqn:He; [|by apply goes_on_refl]. apply goes_store; [done|]. apply step_goes. by destruct e.
Qed.
Lemma goes_passes ms r : inv r → goes_on r (passes ms r).
Proof. intros Hi. apply goes_core; [done|done|by apply (step_goes ttlDays (ro_store r) (EvTick ms))|apply Hi]. Qed.
Lemma goes_step e r : inv r → goes_on r (step r e).
Proof.
  intros Hi. pose proof (goes_passes e.1 r Hi) as H1. eapply goes_on_trans; [exact H1|]. apply goes_exec, H1.
Qed.
Lemma goes_run es r : inv r → goes_on r (run step r es).
Proof. intros Hi. apply goes_fold; [|done]. intros. by apply goes_step. Qed.
Lemma inv_registered hub store : db_ok (Auth.db store) → inv (registered hub store).
Proof. intros Hok. split; [done|apply wf_init|done|apply js_wf_empty| |done]. intros c _. split; [apply not_elem_of_nil|done]. Qed.
Lemma inv_run hub store es : db_ok (Auth.db store) → inv (run step (registered hub store) es).
Proof. intros Hok. by apply goes_run, inv_registered. Qed.
End route.
