(* ===== verification/WsSafety.v ===== *)
(** * Who may act through a socket ([WsHandler])

    A terminal is typed into, or resized, only by a frame of a socket that signed in, whose credential
    the store still takes, and that holds the lock ([only_the_writer_types]); a credential that is
    refused ends its sockets with their next frame, which does nothing else
    ([refused_sockets_act_no_more]), and its revocation at once ([revocation_ends_sockets]); and the REST
    routes are told of a window what its socket is ([writer_check_exact]). *)

From Stdlib.Strings Require Import Byte.
From S2P Require Import Prelude JsMap Text SnapshotScheduler Replay Auth WriteLock ChannelData ChannelTrackers StateBroadcaster ChannelLifecycle ChannelChanges ChannelOps ChannelTruth Validation WsHandler WsExample WsFrames WsSockets.
#[local] Open Scope nat_scope.
#[local] Open Scope lasterm_scope.

(** ** Leaving the locks and the terminals *)

Section locks.
Implicit Types (m : WriteLockManager).

Lemma attached_disconnect ch c m : attachedTo ch (onClientDisconnect c m) = set_delete c (attachedTo ch m).
Proof.
  unfold onClientDisconnect. pose proof (free_held_loop c (entries (holders m)) (with_windows (delete c) m) []) as Hf.
  unfold free_held. cbn [holders with_windows] in *. destruct (fold_left _ _ _) as [m1 freed]. destruct Hf as (_ & Heq & _).
  cbn [fst snd] in Heq. set (m2 := with_attached _ m1).
  assert (attachedTo ch m2 = set_delete c (attachedTo ch m)) as <-.
  { unfold m2. rewrite Heq. unfold attachedTo. cbn. rewrite lookup_detach_all. by destruct (attached m !! ch). }
  clearbody m2. revert m2. induction freed as [|ch0 freed IH]; intros m2; [done|]. cbn [fold_left]. rewrite IH.
  unfold after_leaving, _keepFor, _grantToSoleAttachedClient, attachedTo. by repeat case_match.
Qed.
Lemma after_disconnect_in w st wins clients x : after_disconnect w st wins clients = Held x → x ∈ clients.
Proof.
  assert (handed_on clients = Held x → x ∈ clients) as Hh.
  { destruct clients as [|y []]; try done. intros [= ->]. by left. }
  unfold after_disconnect. destruct w as [w|]; [|done]. destruct st; [done|].
  destruct (list_find _ _) as [[i y]|] eqn:Hf; [|done]. intros [= ->].
  apply list_find_Some in Hf as (Hl & _). by eapply list_elem_of_lookup_2.
Qed.
(** Neither attached to a channel nor the holder of its lock. *)
Definition absent c m : Prop := ∀ ch, getHolder ch m ≠ Some c ∧ c ∉ attachedTo ch m.
Lemma disconnect_absent c c' m : WriteLock.wf m → c' = c ∨ absent c' m → absent c' (onClientDisconnect c m).
Proof.
  intros Hw Habs ch. destruct (exec_conforms m (Disconnect c) Hw) as [Hw' Hc]. cbn [WriteLock.exec] in *.
  rewrite attached_disconnect. unfold getHolder. rewrite <- lock_of_Held by done. destruct (Hc ch) as [-> _]. cbn [lock_spec].
  assert (c' ∉ set_delete c (attachedTo ch m)) as Hn.
  { unfold set_delete. rewrite list_elem_of_filter. destruct Habs as [->|Ha]; [tauto|]. destruct (Ha ch). tauto. }
  split; [|done]. destruct (decide _) as [_|Hne].
  - by intros ?%after_disconnect_in.
  - destruct Habs as [->|Ha]; [done|]. rewrite lock_of_Held by done. apply Ha.
Qed.
End locks.

Section windows.
Context `{!Setup} {Sc Ou : Type} `{!Screens Sc, !Outputs Ou}.
Notation Hub := (StateBroadcaster.Hub Sc Ou Wait).
Implicit Types (h : Hub).

Definition connected c h : Prop := c ∈ js_keys (h_clients h).
Lemma change_connected may c h h' : change may h h' → ¬ may (connects c) → connected c h' → connected c h.
Proof.
  unfold connected.
  intros [h0 h1 K|? ? ? ? ? h0 ?|ch session h0 ?|ch session h0|ch h0 ?|ch session h0 h1 ? K|? ? ? ? ? ? h0|out w h0 Hout ?|c0 h0|c0 h0|h0] Hn;
    rewrite ?clients_status; try done.
  - by rewrite (kp_clients _ _ K).
  - unfold broadcastToAllClients. by rewrite told_clients, (sd_clients _ _ _ K).
  - assert (c ≠ c0) as Hne by (intros ->; done).
    change (ChannelLifecycle.exec (Connect c0) h0) with (tell_each (getStateSnapshot (addClient c0 h0)) [c0] (addClient c0 h0)).
    rewrite told_clients. cbn. rewrite js_keys_insert. case_decide; [done|]. rewrite elem_of_app, list_elem_of_singleton. tauto.
  - cbn. rewrite !js_elem_keys, js_lookup_delete. case_decide; [by intros [? ?]|done].
Qed.
Lemma gone_connected c c' h : connected c' (removeClient c h) → connected c' h ∧ c' ≠ c.
Proof.
  intros Hc. split.
  - pose proof (ev_exec (Gone c) h) as Hev. cbn [ChannelLifecycle.exec] in Hev.
    induction Hev as [|? ? ? Hch _ IH]; [done|]. eapply change_connected; [done|by intros [=]|auto].
  - intros ->. unfold connected, removeClient in Hc. destruct (h_clients h !! c) eqn:Hl; rewrite js_elem_keys in Hc; destruct Hc as [? Hc].
    + cbn in Hc. by rewrite js_lookup_delete_eq in Hc.
    + congruence.
Qed.
End windows.

(** ** The properties *)

Section properties.
Context `{!Setup} {Sc Ou : Type} `{!Screens Sc, !Outputs Ou} `{!RouteSetup}.
Notation Route := (Route Sc Ou).
Implicit Types (r : Route) (c : ClientId) (s : Socket).

(** Ending a socket types nothing. *)
Definition quiet r r' : Prop := typed (ro_hub r') = typed (ro_hub r).
Lemma quiet_trans r1 r2 r3 : quiet r1 r2 → quiet r2 r3 → quiet r1 r3.
Proof. unfold quiet. congruence. Qed.
Lemma quiet_said r r' : said r r' → quiet r r'.
Proof. intros []. unfold quiet. congruence. Qed.
Lemma quiet_gone c (h : StateBroadcaster.Hub Sc Ou Wait) : typed (removeClient c h) = typed h.
Proof. by apply (exec_typed (Gone c)). Qed.
Lemma quiet_lock_op o r : quiet r (lock_op o r).
Proof. destruct (lock_op_said o r). unfold quiet. by rewrite sa_hub. Qed.
Lemma quiet_release c r : quiet r (release c r).
Proof.
  unfold release. destruct (ro_sockets r !! c) as [s|]; [|done]. destruct (so_released s); [done|].
  set (r1 := set_field ro_tokenSockets _ _). destruct (so_authenticated s); [|done].
  assert (quiet r (hub_exec (Gone c) (lock_op (Disconnect c) r1))) as H1.
  { unfold quiet, hub_exec. cbn. by rewrite quiet_gone, (quiet_lock_op _ r1). }
  cbv zeta. by destruct transfers.
Qed.
Lemma quiet_close c code r : quiet r (close c code r).
Proof. unfold close. by destruct (socket_open c r). Qed.
Lemma quiet_refuse c status r : quiet r (refuse c status r).
Proof.
  unfold refuse, end_. destruct (ro_sockets r !! c) as [s|] eqn:Hc; [|done]. destruct (so_ending s) eqn:He; [done|].
  change (ro_sockets (log _ r)) with (ro_sockets r). rewrite Hc, He.
  eapply quiet_trans; [|apply quiet_close]. by apply (quiet_release c (on_socket c _ (log _ r))).
Qed.
Lemma quiet_delete_token tid r : quiet r (delete_token tid r).1.
Proof.
  unfold delete_token. destruct (bool_decide _); [done|]. destruct (negb _); [done|].
  destruct (revokeToken _ _ _) as [d changed]. destruct changed; [|done]. cbn [negb fst]. unfold closeSocketsForToken.
  assert (∀ l r n, quiet r (fold_left (λ acc (e : ClientId * string),
    if decide (e.2 = tid) then (refuse e.1 revoked acc.1, S acc.2) else acc) l (r, n)).1) as Hl.
  2: { exact (Hl _ (log (records (tokenRevocation tid "revoked")) (r <{ ro_store := set_db d (ro_store r) }>)) 0). }
  induction l as [|e l IH]; intros r0 n; [done|]. cbn [fold_left fst snd].
  destruct (decide _); [|apply IH]. eapply quiet_trans; [apply quiet_refuse|apply IH].
Qed.
Lemma quiet_resolves i v r : quiet r (resolves i v r).
Proof.
  unfold resolves. destruct (ro_promises r !! i) as [p|]; [|done].
  destruct p, v as [[]|[]|]; try done; (eapply quiet_trans; [|apply quiet_lock_op]); done.
Qed.
Lemma quiet_event e r : (∀ c f, e ≠ Frame_ c f) → quiet r (exec_at e r).
Proof.
  intros Hf. destruct e; cbn [exec_at].
  - unfold opens. destruct (ro_sockets r !! c); [done|]. by destruct authToken.
  - by destruct (Hf c f).
  - unfold auth_timeout. destruct (ro_sockets r !! c) as [s|]; [|done]. destruct (so_authTimeout s); [|done].
    destruct (so_authenticated s); [done|]. apply (quiet_close c (Some 4001%Z) (log _ (on_socket c _ r))).
  - unfold goes. destruct (ro_sockets r !! c); [|done]. apply (quiet_release c (on_socket c _ r)).
  - apply quiet_resolves.
  - apply quiet_lock_op.
  - apply quiet_lock_op.
  - apply quiet_delete_token.
  - apply quiet_said, said_sendTo.
  - destruct (of_the_hub e) eqn:He; [|done]. unfold quiet, hub_exec. cbn. apply exec_typed. by destruct e.
  - by destruct (of_the_store e).
Qed.

(** C3: Only the writer types. Whatever happens, what reaches an agent as typed into a terminal, or as its
    size, is one frame's: of a socket that is there, signed in and not ended, whose credential the
    store takes at that moment (where the hub asks for one), and, of an input, of at most 64 KiB, from
    the holder of the terminal's write lock or while it is nobody's and kept for nobody; of a size,
    from 1 to 500 both ways, from its holder. *)
Theorem only_the_writer_types hub store es ms e :
  db_ok (Auth.db store) →
  let r := run step (registered hub store) es in
  let r' := step r (ms, e) in
  typed (ro_hub r') = typed (ro_hub r) ∨
  ∃ c f s w, e = Frame_ c f ∧ typed (ro_hub r') = typed (ro_hub r) ++ [w] ∧ types_with f w c (ro_locks r) ∧
    ro_sockets r !! c = Some s ∧ so_authenticated s = true ∧ so_gone s = false ∧ so_ending s = false ∧
    (authToken = true → ∃ held row, so_credential s = Some held ∧
       let a := ro_store (passes ms r) in
       validateTokenHash (store_read a) (hc_tokenHash held) (Auth.now a) = valid row).
Proof.
  intros Hok r r'. pose proof (inv_run hub store es Hok) as Hi. fold r in Hi. pose proof (go_inv _ _ (goes_passes ms r Hi)) as Hi1.
  assert (quiet r (passes ms r)) as Hq by done.
  assert ((∃ c f, e = Frame_ c f) ∨ ∀ c f, e ≠ Frame_ c f) as [(c & f & ->)|Hn] by (destruct e; eauto).
  2: { left. by apply (quiet_event e (passes ms r)). }
  unfold r', step. cbn [fst snd exec_at]. change (ro_sockets r) with (ro_sockets (passes ms r)).
  change (ro_locks r) with (ro_locks (passes ms r)).
  unfold quiet in Hq. rewrite <- Hq. clear Hq. generalize dependent (passes ms r). clear r r' Hi. intros r Hi1.
  destruct (ro_sockets r !! c) as [s|] eqn:Hc; [|by left].
  destruct (so_gone s) eqn:Hg; [by left|].
  destruct (message c f r) as [r2|] eqn:Hm; [|by left].
  destruct (message_outcome c f s _ r2 Hi1 Hc Hg Hm) as [r2 Hs|a r2 Ha _ Ho|held a r2 He Hh _ _ _ L|token windowId hash tid r2 -> He Ha Hh Hacc ->
    |held' s' a r1 r2 He Ha -> Hk Hv _ Ho [D1 D2 D3 D4]].
  - left. apply (quiet_said _ _ Hs).
  - left. by rewrite (on_hub _ _ _ _ _ Ho).
  - left. rewrite (lv_hub _ _ _ _ _ L). destruct (so_authenticated s); [by rewrite quiet_gone|done].
  - left. set (r0 := set_field ro_store _ r).
    destruct (signed_spec c s hash tid windowId r0 Hc) as (_ & _ & _ & _ & _ & -> & _). by rewrite exec_typed.
  - rewrite (on_hub _ _ _ _ _ Ho) in D4. rewrite (on_locks _ _ _ _ _ Ho) in D4.
    destruct D4 as [D4|(w & Hw & Ht)]; [by left|right]. exists c, f, s, w. split_and!; try done.
    intros Hat. assert (is_Some (so_credential s)) as [held Hheld].
    { apply (so_held _ _ _ (i_sound _ Hi1 _ _ Hc)). done. }
    destruct (Hv held Hheld) as [row Hrow]. by exists held, row.
Qed.

(** Nothing comes of it, the end of one socket at most. *)
Record only_ends c r r' : Prop := {
  oe_left : ro_locks r' = ro_locks r ∧ ro_hub r' = ro_hub r ∨
    ro_locks r' = onClientDisconnect c (ro_locks r) ∧ ro_hub r' = removeClient c (ro_hub r);
  oe_promises : ro_promises r' = ro_promises r; oe_requests : requests r' = requests r;
  oe_db : Auth.db (ro_store r') = Auth.db (ro_store r);
  oe_others c' : c' ≠ c → ro_sockets r' !! c' = ro_sockets r !! c'
}.
Lemma only_ends_said c r r' : said r r' → only_ends c r r'.
Proof. intros [[= E1 E2 E3] A1 A2 A3 A4 A5]. split; [by left|done|done|by rewrite A3|by rewrite E1]. Qed.
(** What a credential is refused for, later. *)
Lemma refused_later r r' held :
  inv r → goes_on r r' → hc_id held ≠ PRIMARY_TOKEN_ID → has_row held (Auth.db (ro_store r)) →
  (∃ reason, validateTokenHash (Some (Auth.db (ro_store r))) (hc_tokenHash held) (Auth.now (ro_store r)) = invalid reason) →
  ∃ reason, validateTokenHash (Some (Auth.db (ro_store r'))) (hc_tokenHash held) (Auth.now (ro_store r')) = invalid reason.
Proof.
  intros Hi Hg Hp (row & Hin & Hid & Hh). rewrite <- Hh, verdict_row, check_dead by (done || apply Hi). intros Hd.
  destruct (sg_rows _ _ (go_store _ _ Hg) (i_store _ Hi) row Hin) as (row' & Hin' & Hid' & Hh' & Hd').
  rewrite <- Hh', verdict_row, check_dead by (done || apply Hg). apply Hd'; [congruence|done].
Qed.

(** C9: A credential refused ends its sockets. Once the store refuses the credential a socket signed in
    with, for a reason other than an outage, and it is not the primary token, no frame of the
    socket is acted on any more, then or at any later time: a decoded frame at most ends it, letting go of
    its locks and of its terminals; nothing is asked of the terminals, of the prompts or of the
    uploads, no row changes, no other socket does; and after it, the socket is ended. *)
Theorem refused_sockets_act_no_more hub store es c s held es' ms f :
  db_ok (Auth.db store) →
  let r := run step (registered hub store) es in
  ro_sockets r !! c = Some s → so_credential s = Some held → hc_id held ≠ PRIMARY_TOKEN_ID →
  (∃ reason, validateTokenHash (Some (Auth.db (ro_store r))) (hc_tokenHash held) (Auth.now (ro_store r)) = invalid reason) →
  let r1 := passes ms (run step r es') in
  let r2 := exec_at (Frame_ c f) r1 in
  only_ends c r1 r2 ∧
  (f ≠ f_malformed → f ≠ f_null → ∃ s', ro_sockets r2 !! c = Some s' ∧ so_released s' = true).
Proof.
  intros Hok r Hc Hh Hp Hv r1 r2. pose proof (inv_run hub store es Hok) as Hi. fold r in Hi.
  assert (goes_on r r1) as Hg. { eapply goes_on_trans; [by apply (goes_run es')|]. by apply goes_passes, goes_run. }
  pose proof (go_inv _ _ Hg) as Hi1. destruct (go_keys _ _ Hg _ _ Hc) as (s1 & Hc1 & Hk); clearbody r1.
  destruct Hk as [?|Hk]; [congruence|]. unfold key in Hk. rewrite Hh in Hk.
  destruct (so_credential s1) as [held1|] eqn:Hh1; [|done]. injection Hk as Hid1 Hhash1.
  assert (∃ reason, validateTokenHash (Some (Auth.db (ro_store r1))) (hc_tokenHash held1) (Auth.now (ro_store r1)) = invalid reason) as [reason Hv1].
  { rewrite Hhash1. apply (refused_later r r1 held Hi Hg Hp); [by eapply i_rows|done]. }
  assert (so_authenticated s1 = true) as Ha1.
  { apply (so_held _ _ _ (i_sound _ Hi1 _ _ Hc1)). by eexists. }
  pose proof (so_ends _ _ _ (i_sound _ Hi1 _ _ Hc1)) as He1.
  unfold r2. cbn [exec_at]. rewrite Hc1. destruct (so_gone s1) eqn:Hg1.
  { split; [by apply only_ends_said|]. intros _ _. eauto. }
  destruct (message c f r1) as [r3|] eqn:Hm.
  2: { split; [by apply only_ends_said, said_log|]. intros _ Hf. unfold message in Hm. rewrite Hc1 in Hm.
       destruct (so_ending s1); [done|]. destruct f; try done; rewrite Ha1 in Hm; done. }
  destruct (message_outcome c f s1 r1 r3 Hi1 Hc1 Hg1 Hm) as [r3 Hs Hf|a r3 Ha _ Ho|held2 a r3 He Hh2 Hd Hn Hst L|token windowId hash tid r3 -> He Ha
    |held' s' a r4 r3 He Ha -> Hk Hvalid _ Ho _].
  - split; [by apply only_ends_said|]. intros Hf1 Hf2. destruct (so_ending s1) eqn:Hen.
    + exists s1. destruct Hs as [[= Es _ _]]. rewrite Es. auto.
    + destruct Hf as [?|?]; done.
  - congruence.
  - split.
    + split; [right; rewrite (lv_locks _ _ _ _ _ L), (lv_hub _ _ _ _ _ L), Ha1; done|by rewrite (lv_promises _ _ _ _ _ L)
        |by rewrite (lv_requests _ _ _ _ _ L)|by rewrite Hst, Hd|].
      intros c' Hne. rewrite (lv_one _ _ _ _ _ L), decide_False by congruence. done.
    + intros _ _. exists (ended_socket s1). by rewrite (lv_one _ _ _ _ _ L), decide_True.
  - congruence.
  - destruct (Hvalid held1 Hh1) as [row Hrow]. unfold store_read in Hrow. destruct (reads (ro_store r1)); [congruence|done].
Qed.

(** A socket that was ended: shut, in no registry, let go of by the locks and the terminals. *)
Record ended c r : Prop := {
  en_socket : ∃ s, ro_sockets r !! c = Some s ∧ so_ending s = true ∧ so_released s = true ∧ so_open s = false;
  en_registry : c ∉ ro_registry r; en_tokens : ro_tokenSockets r !! c = None;
  en_locks : absent c (ro_locks r); en_hub : ¬ connected c (ro_hub r)
}.
Lemma refuse_ended c status r s :
  inv r → ro_sockets r !! c = Some s → so_authenticated s = true → so_released s = false → ended c (refuse c status r).
Proof.
  intros Hi Hc Ha Hr. pose proof (so_ends _ _ _ (i_sound _ Hi _ _ Hc)) as He. rewrite Hr in He.
  symmetry in He. apply orb_false_iff in He as [_ He].
  destruct (refuse_leaves c s status r Hc He Hr) as [L1 L2 L3 L4 L5 _ _ _]. rewrite Ha in *. split.
  - exists (ended_socket s). by rewrite L1, decide_True.
  - rewrite L2. unfold set_delete. rewrite list_elem_of_filter. tauto.
  - by rewrite L3, js_lookup_delete_eq.
  - rewrite L4. apply disconnect_absent; [apply Hi|by left].
  - rewrite L5. intros Hcon%gone_connected. tauto.
Qed.
(** The end of a socket leaves another as it was, and ended if it was. *)
Lemma refuse_other c c' status r s :
  inv r → ro_sockets r !! c = Some s → so_authenticated s = true → so_released s = false → c' ≠ c →
  let r' := refuse c status r in
  ro_sockets r' !! c' = ro_sockets r !! c' ∧ (c' ∈ ro_registry r' ↔ c' ∈ ro_registry r) ∧
  ro_tokenSockets r' !! c' = ro_tokenSockets r !! c' ∧ ro_store r' = ro_store r ∧ (ended c' r → ended c' r').
Proof.
  intros Hi Hc Ha Hr Hne. cbv zeta. pose proof (so_ends _ _ _ (i_sound _ Hi _ _ Hc)) as He. rewrite Hr in He.
  symmetry in He. apply orb_false_iff in He as [_ He].
  destruct (refuse_leaves c s status r Hc He Hr) as [L1 L2 L3 L4 L5 L6 _ _]. rewrite Ha in *.
  assert (ro_sockets (refuse c status r) !! c' = ro_sockets r !! c') as E1 by (by rewrite L1, decide_False by congruence).
  assert (c' ∈ ro_registry (refuse c status r) ↔ c' ∈ ro_registry r) as E2.
  { rewrite L2. unfold set_delete. rewrite list_elem_of_filter. tauto. }
  assert (ro_tokenSockets (refuse c status r) !! c' = ro_tokenSockets r !! c') as E3 by (by rewrite L3, js_lookup_delete_ne by done).
  split_and!; [done..|]. intros [N1 N2 N3 N4 N5]. split; rewrite ?E1, ?E2, ?E3; [done..| |].
  - rewrite L4. apply disconnect_absent; [apply Hi|by right].
  - rewrite L5. intros Hcon%gone_connected. tauto.
Qed.
Definition open_under c r : Prop :=
  ∃ s, ro_sockets r !! c = Some s ∧ so_authenticated s = true ∧ so_released s = false.
(** Untouched, as a socket. *)
Definition same_socket c r r' : Prop :=
  ro_sockets r' !! c = ro_sockets r !! c ∧ (c ∈ ro_registry r' ↔ c ∈ ro_registry r) ∧
  ro_tokenSockets r' !! c = ro_tokenSockets r !! c.
Lemma refuse_ended_same c status r : ended c r → refuse c status r = r.
Proof. intros [(s & Hc & He & _) _ _ _ _]. unfold refuse. by rewrite Hc, He. Qed.
Lemma closes_fold tid l r n :
  inv r → (∀ c, (c, tid) ∈ l → ended c r ∨ open_under c r) →
  let r' := (fold_left (λ acc (e : ClientId * string),
    if decide (e.2 = tid) then (refuse e.1 revoked acc.1, S acc.2) else acc) l (r, n)).1 in
  ro_store r' = ro_store r ∧ (∀ c, (c, tid) ∈ l ∨ ended c r → ended c r') ∧
  (∀ c, (c, tid) ∉ l → same_socket c r r').
Proof.
  revert r n. induction l as [|[c t] l IH]; intros r n Hi Hl; cbn [fold_left fst snd].
  { split_and!; [done| |done]. intros c' [Hn|?]; [by apply elem_of_nil in Hn|done]. }
  destruct (decide (t = tid)) as [->|Hne].
  2: { destruct (IH r n Hi) as (E1 & E2 & E3); [intros c' Hc'; apply Hl; by right|]. split_and!; [done| |].
       - intros c' [Hc'|?]; apply E2; [left|by right]. apply elem_of_cons in Hc' as [Heq|?]; [|done]. congruence.
       - intros c' [_ Hc']%not_elem_of_cons. by apply E3. }
  assert (ended c (refuse c revoked r) ∧ inv (refuse c revoked r) ∧ ro_store (refuse c revoked r) = ro_store r ∧
    (∀ c', c' ≠ c → same_socket c' r (refuse c revoked r) ∧ (ended c' r → ended c' (refuse c revoked r)))) as (Hen & Hi' & Hst & Ho).
  { destruct (Hl c) as [He|(s & Hc & Ha & Hr)]; [by left|by rewrite (refuse_ended_same c _ r He)|].
    split_and!; [by eapply refuse_ended|by apply goes_refuse| |].
    - destruct (decide (so_ending s = false)) as [He|He].
      + by rewrite (lv_store _ _ _ _ _ (refuse_leaves c s revoked r Hc He Hr)).
      + unfold refuse. rewrite Hc. by destruct (so_ending s).
    - intros c' Hne. destruct (refuse_other c c' revoked r s Hi Hc Ha Hr Hne) as (? & ? & ? & _ & ?). by split. }
  destruct (IH (refuse c revoked r) (S n) Hi') as (E1 & E2 & E3).
  { intros c' Hc'. destruct (decide (c' = c)) as [->|Hne]; [by left|]. destruct (Ho c' Hne) as [(S1 & _) Hend].
    destruct (Hl c') as [?|Hop]; [by right|left; auto|right]. unfold open_under. by rewrite S1. }
  split_and!; [congruence| |].
  - intros c' Hc'. apply E2. destruct (decide (c' = c)) as [->|Hne]; [by right|].
    destruct Hc' as [Hc'|He]; [left|right; by apply Ho]. apply elem_of_cons in Hc' as [Heq|?]; [congruence|done].
  - intros c' [Hc Hin]%not_elem_of_cons. assert (c' ≠ c) as Hne by congruence.
    destruct (Ho c' Hne) as [(S1 & S2 & S3) _]. destruct (E3 c' Hin) as (T1 & T2 & T3).
    split_and!; [congruence|by rewrite T2|congruence].
Qed.

(** C19: A token revoked ends its sockets at once. Revoking a token that is not the primary one, and was not
    revoked, while the store can be written: is answered 200; every socket signed in with it and still
    there is ended, shut, out of both registries, the holder of no lock and attached to no channel,
    and no window of the hub any more; every other socket is as it was; and the token's row is revoked. *)
Theorem revocation_ends_sockets hub store es tid :
  db_ok (Auth.db store) →
  let r := run step (registered hub store) es in
  tid ≠ PRIMARY_TOKEN_ID → writes (ro_store r) = true →
  (∃ row, row ∈ Auth.db (ro_store r) ∧ id row = tid ∧ revokedAt row = None) →
  let r' := (delete_token tid r).1 in
  (delete_token tid r).2 = 200%Z ∧
  (∀ c s, ro_sockets r !! c = Some s → so_released s = false → hc_id <$> so_credential s = Some tid → ended c r') ∧
  (∀ c s, ro_sockets r !! c = Some s → so_released s = true ∨ hc_id <$> so_credential s ≠ Some tid → same_socket c r r') ∧
  (∀ row, row ∈ Auth.db (ro_store r') → id row = tid → revokedAt row ≠ None).
Proof.
  intros Hok r Hp Hw (row & Hrow & Hid & Hrev) r'. pose proof (inv_run hub store es Hok) as Hi. fold r in Hi.
  unfold r', delete_token. rewrite bool_decide_false, Hw by done. cbn [negb]. unfold revokeToken.
  set (P := λ row, bool_decide (id row = tid ∧ id row ≠ PRIMARY_TOKEN_ID ∧ revokedAt row = None)).
  assert (existsb P (Auth.db (ro_store r)) = true) as ->.
  { apply existsb_exists. exists row. split; [by apply list_elem_of_In|]. apply bool_decide_eq_true_2. split_and!; congruence. }
  cbn [negb fst snd]. split; [done|]. set (a := set_db _ _).
  set (r1 := log _ _). assert (goes_on r r1) as H1.
  { eapply goes_on_trans; [apply (goes_store a r Hi)|].
    - pose proof (step_goes ttlDays (ro_store r) (EvRevoke tid) I) as Hg. cbn [Auth.step] in Hg. by rewrite Hw in Hg.
    - apply goes_said; [|by apply said_log]. apply goes_store; [done|].
      pose proof (step_goes ttlDays (ro_store r) (EvRevoke tid) I) as Hg. cbn [Auth.step] in Hg. by rewrite Hw in Hg. }
  assert (∀ c, (c, tid) ∈ entries (ro_tokenSockets r) ↔ ∃ s, ro_sockets r !! c = Some s ∧ so_released s = false ∧ hc_id <$> so_credential s = Some tid) as Hin.
  { intros c. split.
    - intros He%(js_elem_lookup _ _ _ (i_wf _ Hi)). destruct (ro_sockets r !! c) as [s|] eqn:Hc.
      + exists s. by apply (so_token _ _ _ (i_sound _ Hi _ _ Hc)) in He.
      + destruct (i_unknown _ Hi _ Hc). congruence.
    - intros (s & Hc & Hr & Hh). apply js_lookup_elem. by apply (so_token _ _ _ (i_sound _ Hi _ _ Hc)). }
  destruct (closes_fold tid (entries (ro_tokenSockets r)) r1 0 (go_inv _ _ H1)) as (E1 & E2 & E3).
  { intros c (s & Hc & Hr & Hh)%Hin. right. exists s. split_and!; [done| |done].
    apply (so_held _ _ _ (i_sound _ Hi _ _ Hc)). by destruct (so_credential s). }
  unfold closeSocketsForToken. change (ro_tokenSockets r1) with (ro_tokenSockets r). split_and!.
  - intros c s Hc Hr Hh. apply E2. left. apply Hin. eauto.
  - intros c s Hc Hs. apply (E3 c). intros (s' & Hc' & ? & ?)%Hin. rewrite Hc in Hc'. injection Hc' as ->. naive_solver congruence.
  - intros row'. rewrite E1. intros (row0 & Hrow0 & ->)%elem_of_update. unfold P. case_bool_decide as Hb; simpl; [done|].
    intros Hid0 Hrev0. apply Hb. split_and!; congruence.
Qed.

(** What a REST request is told of the window it names. [writerCheck] answers that the window holds the
    lock exactly when a socket of that id is there, not ended, signed in with the request's own
    credential where the hub asks for one, and it is the holder; that the window is unknown exactly
    when there is no such socket; and [clientToken] names the credential of such a socket. *)
Theorem writer_check_exact hub store es ch c tid :
  db_ok (Auth.db store) →
  let r := run step (registered hub store) es in
  let speaks := ∃ s, ro_sockets r !! c = Some s ∧ so_released s = false ∧
    (authToken = true → tid ≠ None ∧ hc_id <$> so_credential s = tid) in
  (writerCheck ch c tid r = holder ↔ speaks ∧ getHolder ch (ro_locks r) = Some c) ∧
  (writerCheck ch c tid r = not_holder ↔ speaks ∧ getHolder ch (ro_locks r) ≠ Some c) ∧
  (authToken = true → ∀ t, clientToken c r = Some (Some t) ↔
     ∃ s, ro_sockets r !! c = Some s ∧ so_released s = false ∧ hc_id <$> so_credential s = Some t).
Proof.
  intros Hok r speaks. pose proof (inv_run hub store es Hok) as Hi. fold r in Hi.
  assert (∀ t, ro_tokenSockets r !! c = Some t ↔ ∃ s, ro_sockets r !! c = Some s ∧ so_released s = false ∧ hc_id <$> so_credential s = Some t) as Htok.
  { intros t. destruct (ro_sockets r !! c) as [s|] eqn:Hc.
    - rewrite (so_token _ _ _ (i_sound _ Hi _ _ Hc)). naive_solver.
    - destruct (i_unknown _ Hi _ Hc) as [_ ->]. naive_solver. }
  assert (c ∈ ro_registry r ↔ ∃ s, ro_sockets r !! c = Some s ∧ so_released s = false) as Hreg.
  { destruct (ro_sockets r !! c) as [s|] eqn:Hc.
    - rewrite (so_sends _ _ _ (i_sound _ Hi _ _ Hc)). naive_solver.
    - destruct (i_unknown _ Hi _ Hc) as [Hn _]. naive_solver. }
  assert (if (if authToken then match tid with Some t => bool_decide (ro_tokenSockets r !! c = Some t) | None => false end
    else bool_decide (c ∈ ro_registry r)) then speaks else ¬ speaks) as Hk.
  { unfold speaks. destruct authToken; [destruct tid as [t|]|].
    - case_bool_decide as Hb; rewrite Htok in Hb; naive_solver.
    - naive_solver.
    - case_bool_decide as Hb; rewrite Hreg in Hb; naive_solver. }
  assert (authToken = true → ∀ t, clientToken c r = Some (Some t) ↔
    ∃ s, ro_sockets r !! c = Some s ∧ so_released s = false ∧ hc_id <$> so_credential s = Some t) as Hct.
  { intros Ht t. rewrite <- Htok. unfold clientToken. rewrite Ht. case_bool_decide as Hb; cbn [negb].
    - destruct (ro_tokenSockets r !! c); simpl; naive_solver.
    - split; [done|]. rewrite Htok. rewrite Hreg in Hb. naive_solver. }
  unfold writerCheck. destruct (if authToken then _ else _); cbn [negb]; (split_and!; [..|done]).
  - unfold isHolder, getHolder. case_bool_decide; naive_solver.
  - unfold isHolder, getHolder. case_bool_decide; naive_solver.
  - naive_solver.
  - naive_solver.
Qed.
End properties.

(** ** At a run *)

#[local] Open Scope string_scope.
#[local] Open Scope list_scope.

Lemma only_the_writer_types_witness :
  ∃ c s w, ro_sockets (ws_run ws_life) !! c = Some s ∧ so_authenticated s = true ∧
    typed (ro_hub (step (ws_run ws_life) (ws_types "w1"))) = typed (ro_hub (ws_run ws_life)) ++ [w].
Proof.
  destruct (only_the_writer_types ws_hub ws_store ws_life 1 (ws_types "w1").2 ws_store_ok)
    as [H|(c & f & s & w & _ & Ht & _ & Hc & Ha & _)].
  - vm_compute in H. discriminate H.
  - exists c, s, w. split; [exact Hc|]. split; [exact Ha|exact Ht].
Defined.

(** The token expires, and the window types on. *)
Lemma refused_sockets_act_no_more_witness :
  let r := run step (registered ws_hub ws_store) (ws_life ++ [(604800001%N, OfTheStore (EvStore true true))]) in
  only_ends "w1" (passes 1 (run step r [])) (exec_at (ws_types "w1").2 (passes 1 (run step r []))).
Proof.
  refine (proj1 (refused_sockets_act_no_more ws_hub ws_store (ws_life ++ [(604800001%N, OfTheStore (EvStore true true))]) "w1"
    (MkSocket true false true (Some (MkHeld "t1" "h1" 2)) false false false) (MkHeld "t1" "h1" 2) [] 1 _ ws_store_ok _ _ _ _)).
  - vm_compute. reflexivity.
  - reflexivity.
  - discriminate.
  - exists expired. vm_compute. reflexivity.
Defined.

Lemma revocation_ends_sockets_witness :
  (delete_token "t1" (ws_run ws_life)).2 = 200%Z ∧ ended "w1" (delete_token "t1" (ws_run ws_life)).1.
Proof.
  destruct (revocation_ends_sockets ws_hub ws_store ws_life "t1" ws_store_ok) as (H1 & H2 & _).
  - discriminate.
  - vm_compute. reflexivity.
  - eexists. split; [|split]; [vm_compute; right; left|reflexivity|reflexivity].
  - split; [exact H1|].
    assert (ro_sockets (run step (registered ws_hub ws_store) ws_life) !! "w1" =
      Some (MkSocket true false true (Some (MkHeld "t1" "h1" 2)) false false false)) as Hc by (vm_compute; reflexivity).
    exact (H2 "w1" _ Hc eq_refl eq_refl).
Defined.

Lemma writer_check_exact_witness :
  writerCheck ws_channel "w1" (Some "t1") (ws_run ws_life) = holder ∧
  getHolder ws_channel (ro_locks (ws_run ws_life)) = Some "w1".
Proof.
  assert (writerCheck ws_channel "w1" (Some "t1") (ws_run ws_life) = holder) as H by (vm_compute; reflexivity).
  split; [exact H|].
  destruct (writer_check_exact ws_hub ws_store ws_life ws_channel "w1" (Some "t1") ws_store_ok) as ((Hw & _) & _).
  exact (proj2 (Hw H)).
Defined.
