(* ===== verification/HostWires.v ===== *)
(** * What the life of the terminals leaves of the connections

    [calm]: of what [HostLink] goes by in the hub, the time, the agents, the hosts disconnected and
    reconnecting, nothing changes, and nothing new waits on a host. Most events of [ChannelLifecycle] are
    ([calm_exec]). *)

From Stdlib.Strings Require Import Byte.
From S2P Require Import Prelude JsMap ChannelData ChannelTrackers StateBroadcaster ChannelLifecycle ChannelChanges ChannelOps.
#[local] Open Scope lasterm_scope.

(** What waits on a host. *)
Definition wants (w : Wait) : bool :=
  match w with w_spawnReach _ _ _ | w_restartBegin _ | w_restartReach _ => true | _ => false end.

Create HintDb wires.
Section calm.
Context `{!Setup} {Sc Ou : Type} `{!Screens Sc, !Outputs Ou}.
Notation Hub := (Hub Sc Ou Wait).
Implicit Types (h u v : Hub).

Definition wires h := (h_now h, h_agents h, h_userDisconnected h, h_reconnecting h).
Record calm u v : Prop := {
  ca_wires : wires v = wires u;
  ca_wants n w : h_waits v !! n = Some w → wants w = true → h_waits u !! n = Some w
}.
Lemma calm_refl u : calm u u.
Proof. by split. Qed.
Lemma calm_trans u v w : calm u v → calm v w → calm u w.
Proof. intros [A B] [C D]. split; [congruence|eauto]. Qed.
Lemma calm_same u v w : wires w = wires v → h_waits w = h_waits v → calm u v → calm u w.
Proof. intros H1 H2 [A B]. split; [congruence|]. rewrite H2. exact B. Qed.
Lemma calm_fold {A} (f : Hub → A → Hub) l u v : (∀ w x, calm u w → calm u (f w x)) → calm u v →
  calm u (fold_left f l v).
Proof. intros Hf. revert v. induction l as [|x l IH]; intros v Hv; [done|]. simpl. auto. Qed.
Lemma calm_each m cs u v : calm u v → calm u (tell_each m cs v).
Proof. by apply calm_same; apply told_field. Qed.
Lemma calm_tell m c u v : calm u v → calm u (tell m c v).
Proof. apply (calm_each m [c]). Qed.
Lemma calm_broadcast m u v : calm u v → calm u (broadcastToAllClients m v).
Proof. apply calm_each. Qed.
Lemma calm_to_channel ch m u v : calm u v → calm u (broadcastToChannel ch m v).
Proof. unfold broadcastToChannel. destruct (channel_of ch v); [apply calm_each|done]. Qed.
Lemma calm_on_channel ch f u v : calm u v → calm u (on_channel ch f v).
Proof. by apply calm_same; unfold on_channel; destruct (h_channels v !! ch). Qed.
(** What waits for nothing of a host may start to wait, or be settled. *)
Lemma calm_push w u v : wants w = false → calm u v → calm u (push w v).
Proof.
  intros Hw [A B]. split; [done|]. intros n w'. cbn. rewrite js_lookup_insert. destruct (decide _); [|apply B].
  intros [= <-]. congruence.
Qed.
Lemma calm_settle n w u v : wants w = false → calm u v → calm u (settle n w v).
Proof.
  intros Hw [A B]. split; [done|]. intros n' w'. cbn. rewrite js_lookup_alter. destruct (decide _); [|apply B].
  intros (? & _ & ->)%fmap_Some. congruence.
Qed.
Lemma calm_drop n u v : calm u v → calm u (drop_wait n v).
Proof. intros [A B]. split; [done|]. intros n' w'. cbn. rewrite js_lookup_delete. destruct (decide _); [done|apply B].
  Qed.
End calm.
#[export] Hint Resolve calm_refl calm_fold calm_each calm_tell calm_broadcast calm_to_channel calm_on_channel
  calm_drop : wires.
#[export] Hint Extern 1 (calm _ (push _ _)) => simple apply calm_push; [reflexivity|] : wires.
#[export] Hint Extern 1 (calm _ (settle _ _ _)) => simple apply calm_settle; [reflexivity|] : wires.
(** A field that is not of the wires. *)
#[export] Hint Extern 2 (calm _ (set_field _ _ ?v)) => simple apply (calm_same _ v); [generalize v;
  reflexivity..|] : wires.
#[export] Hint Extern 2 (calm _ (emit _ ?v)) => simple apply (calm_same _ v); [reflexivity..|] : wires.
#[export] Hint Extern 2 (calm _ (on_obj _ _ ?v)) => simple apply (calm_same _ v); [reflexivity..|] : wires.
#[export] Hint Extern 3 (calm _ (if ?b then _ else _)) => destruct b : wires.
#[export] Hint Extern 3 (calm _ (match ?x with _ => _ end)) => destruct x : wires.
Ltac calms := intros; cbv beta iota zeta; eauto 40 with wires nocore.

Section broadcasts.
Context `{!Setup} {Sc Ou : Type} `{!Screens Sc, !Outputs Ou}.
Notation Hub := (Hub Sc Ou Wait).
Implicit Types (h u v : Hub).

Lemma calm_on_set r f u v : calm u v → calm u (on_set r f v).
Proof. unfold on_set. calms. Qed.
Lemma calm_attach_id c ch u v : calm u v → calm u (attach_id c ch v).
Proof. unfold attach_id. calms. Qed.
Lemma calm_detach_id c ch u v : calm u v → calm u (detach_id c ch v).
Proof. unfold detach_id. calms. Qed.
Lemma calm_session host session status u v : calm u v → calm u (updateSessionStatus host session status v).
Proof. unfold updateSessionStatus. calms. Qed.
Lemma calm_announce host u v : calm u v → calm u (announceSessionState host v).
Proof. unfold announceSessionState. calms. Qed.
Lemma calm_status ch session status exitCode reason u v : calm u v →
  calm u (updateChannelStatus ch session status exitCode reason v).
Proof. unfold updateChannelStatus. calms. Qed.
Lemma calm_detached host u v : calm u v → calm u (checkSessionDetached host v).
Proof. pose proof calm_session. unfold checkSessionDetached. calms. Qed.
Lemma calm_resolved ch u v : calm u v → calm u (resolveDisplayTitle ch v).2.
Proof. unfold resolveDisplayTitle. intros Hv. destruct (resolved_title ch v); simpl; calms. Qed.
Lemma calm_untrack ch u v : calm u v → calm u (untrack ch v).
Proof. unfold untrack. calms. Qed.
Lemma calm_track ch u v : calm u v → calm u (track ch v).
Proof. unfold track. calms. Qed.
Lemma calm_delete ch u v : calm u v → calm u (delete_channel ch v).
Proof. unfold delete_channel. calms. Qed.
Lemma calm_idle host u v : calm u v → calm u (agentMayBeIdle host v).
Proof. unfold agentMayBeIdle. calms. Qed.
Lemma calm_tick u v : calm u v → calm u (tick v).
Proof. unfold tick. calms. Qed.
Lemma calm_put ch c u v : calm u v → calm u (put_channel ch c v).
Proof. unfold put_channel. calms. Qed.
Lemma calm_row_status ch status u v : calm u v → calm u (row_status ch status v).
Proof. unfold row_status. calms. Qed.
Lemma calm_forget_request n u v : calm u v → calm u (forget_request n v).
Proof. unfold forget_request. calms. Qed.
Lemma calm_release reuse u v : calm u v → calm u (release reuse v).
Proof. unfold release. calms. Qed.
Lemma calm_restart_over ch u v : calm u v → calm u (restart_over ch v).
Proof. unfold restart_over. calms. Qed.
Lemma calm_ask a m w u v : wants w = false → calm u v → calm u (ask a m w v).
Proof. intros Hw Hv. unfold ask. apply calm_push; [done|]. calms. Qed.
End broadcasts.
#[export] Hint Resolve calm_on_set calm_attach_id calm_detach_id calm_session calm_announce calm_status calm_detached
  calm_untrack calm_track calm_delete calm_idle calm_tick calm_put calm_row_status calm_forget_request calm_release
  calm_restart_over : wires.
#[export] Hint Extern 1 (calm _ (ask _ _ _ _)) => simple apply calm_ask; [reflexivity|] : wires.

Section terminals.
Context `{!Setup} {Sc Ou : Type} `{!Screens Sc, !Outputs Ou}.
Notation Hub := (Hub Sc Ou Wait).
Implicit Types (h u v : Hub).

Lemma calm_detachClient c ch u v : calm u v → calm u (detachClient c ch v).
Proof. unfold detachClient. calms. Qed.
Lemma calm_removeClient c u v : calm u v → calm u (removeClient c v).
Proof. pose proof calm_detachClient. unfold removeClient. calms. Qed.
Lemma calm_titles ch u v : calm u v → calm u (notifyChannelRenamed ch v).
Proof.
  intros Hv. pose proof (calm_resolved ch _ _ Hv) as Hr. unfold notifyChannelRenamed.
  destruct (resolveDisplayTitle ch v) as [t w]. destruct (channel_of ch v), (h_rows v !! ch); calms.
Qed.
Lemma calm_display u v : calm u v → calm u (broadcastDisplayTitles v).
Proof.
  unfold broadcastDisplayTitles. apply calm_fold. intros w ch Hw%(calm_resolved ch).
  destruct (resolveDisplayTitle ch w). calms.
Qed.
Lemma calm_title ch t u v : calm u v → calm u (handleTitleChange ch t v).
Proof.
  intros Hv. unfold handleTitleChange. destruct (channel_of ch v); [|done].
  assert (calm u (on_channel ch (λ c, c <{ cs_dynamicTitle := Some t }>) v)) as Hw%(calm_resolved ch) by calms.
  destruct (resolveDisplayTitle ch _). calms.
Qed.
Lemma calm_process ch t u v : calm u v → calm u (handleProcessTitle ch t v).
Proof.
  intros Hv. unfold handleProcessTitle. destruct (channel_of ch v); [|done].
  assert (calm u (on_channel ch (λ c, c <{ cs_processTitle := Some t }>) v)) as Hw%(calm_resolved ch) by calms.
  destruct (resolveDisplayTitle ch _). calms.
Qed.
Lemma calm_forgetChannel ch u v : calm u v → calm u (forgetChannel ch v).
Proof. unfold forgetChannel. calms. Qed.
Lemma calm_destroy ch u v : calm u v → calm u (destroyChannel ch v).
Proof. unfold destroyChannel. calms. Qed.
Lemma calm_retire ch session u v : calm u v → calm u (retireChannel ch session v).
Proof. pose proof calm_forgetChannel. unfold retireChannel. calms. Qed.
Lemma calm_end_all host ending u v :
  (∀ ch c w, calm u w → calm u (ending ch c w)) → calm u v → calm u (end_all host ending v).
Proof. pose proof calm_forgetChannel. intros He. unfold end_all. calms. Qed.
Lemma calm_stopped host u v : calm u v → calm u (endChannelsOfStoppedAgent host v).
Proof. apply calm_end_all. calms. Qed.
Lemma calm_created ch host session config cols rows u v : calm u v →
  calm u (created_message ch host session config cols rows v).
Proof. intros Hv%(calm_resolved ch). unfold created_message. destruct (resolveDisplayTitle ch v). calms. Qed.
Lemma calm_move from to_ cs u v : calm u v → calm u (move_clients from to_ cs v).
Proof. unfold move_clients. calms. Qed.
Lemma calm_row_if_missing ch session r u v : calm u v → calm u (row_if_missing ch session r v).
Proof. unfold row_if_missing. calms. Qed.
End terminals.
#[export] Hint Resolve calm_detachClient calm_removeClient calm_titles calm_display calm_title calm_process
  calm_forgetChannel
  calm_destroy calm_retire calm_stopped calm_created calm_move calm_row_if_missing : wires.

Section waits.
Context `{!Setup} {Sc Ou : Type} `{!Screens Sc, !Outputs Ou}.
Notation Hub := (Hub Sc Ou Wait).
Implicit Types (h u v : Hub).

Lemma calm_applied ch r u v : calm u v → calm u (applyRestartState ch r v).
Proof.
  intros Hv. unfold applyRestartState, new_set. destruct (session_at r v) as [s|]; [|done]. cbv zeta.
  destruct (match _ with Some _ => _ | None => _ end) as [set v0] eqn:He.
  assert (calm u v0) as Hv0.
  { destruct (rs_obj r ≫= _); injection He as <- <-; [done|]. by apply (calm_same u v). }
  clear He Hv. destruct (negb _); calms.
Qed.
Lemma calm_attach_ok ch obj cached title c u v : calm u v → calm u (attach_ok ch obj cached title c v).
Proof. unfold attach_ok. destruct (sizeOf ch obj v). calms. Qed.
Lemma calm_letGo c obj ch u v : calm u v → calm u (letGoOfStaleAttach c obj ch v).
Proof. unfold letGoOfStaleAttach. calms. Qed.
Lemma calm_stored ch screen lastSeq u v : calm u v → calm u (storeSnapshot ch screen lastSeq v).
Proof. unfold storeSnapshot. calms. Qed.
Lemma calm_respawned ch obj for_ u v : calm u v → calm u (respawned ch obj for_ v).
Proof. unfold respawned. calms. Qed.
Lemma calm_not_respawned ch obj u v : calm u v → calm u (not_respawned ch obj v).
Proof. unfold not_respawned. calms. Qed.
Lemma calm_reconcile host states a askedAt u v : calm u v → calm u (reconcileChannelState host states a askedAt v).
Proof. unfold reconcileChannelState, destroyOrphans, judge_one. calms. Qed.
Lemma calm_channel_exit host ch exitCode u v : calm u v → calm u (channel_exit host ch exitCode v).
Proof. unfold channel_exit, clearTitleDebounce, clearProcessTitleDebounce. calms. Qed.
Lemma calm_sendSpawn s u v : calm u v → calm u (sendSpawnAndWait s v).
Proof. unfold sendSpawnAndWait. calms. Qed.
Lemma calm_restart_send r u v : calm u v → calm u (restart_send r v).
Proof. unfold restart_send. calms. Qed.
Lemma calm_respawns host a for_ u v : calm u v → calm u (spawnChannelsForHost host a for_ v).
Proof. unfold spawnChannelsForHost, respawn_one. calms. Qed.
Lemma calm_attach_ask c ch obj title a u v : calm u v → calm u (attach_ask c ch obj title a v).
Proof. unfold attach_ask. calms. Qed.
Lemma calm_attach_settle n ch w u v : wants w = false → calm u v → calm u (attach_settle n ch w v).
Proof. intros Hw Hv. unfold attach_settle. cbv zeta. apply calm_settle; [done|]. destruct (bool_decide _); calms. Qed.
End waits.
#[export] Hint Resolve calm_applied calm_attach_ok calm_letGo calm_stored calm_respawned calm_not_respawned
  calm_reconcile
  calm_channel_exit calm_sendSpawn calm_restart_send calm_respawns calm_attach_ask : wires.
#[export] Hint Extern 1 (calm _ (attach_settle _ _ _ _)) => simple apply calm_attach_settle; [reflexivity|] : wires.

Section events.
Context `{!Setup} {Sc Ou : Type} `{!Screens Sc, !Outputs Ou}.
Notation Hub := (Hub Sc Ou Wait).
Implicit Types (h u v : Hub).

Lemma calm_message host m u v : calm u v → calm u (agent_message host m v).
Proof. unfold agent_message, rateLimitCheck, handleCwdChange. destruct m; calms. Qed.
Lemma calm_attach_reached c ch obj title host u v : calm u v → calm u (attach_reached c ch obj title host v).
Proof. unfold attach_reached. calms. Qed.
Lemma calm_handleAttach c ch u v : calm u v → calm u (handleAttach c ch v).
Proof.
  pose proof calm_attach_reached. intros Hv. unfold handleAttach. destruct (negb _); [done|].
    destruct (h_quitting v); [calms|].
  destruct (h_channels v !! ch) as [obj|]; [|calms]. destruct (channel_of ch v) as [s|]; [|calms].
  destruct (decide (cs_status s = dead)); [calms|]. cbv zeta.
  set (w := if decide (cs_status s = orphan) then _ else _).
  assert (calm u w) as Hw by (unfold w; calms). clearbody w.
  assert (calm u (restored ch w)) as Hr%(calm_resolved ch) by (unfold restored; calms).
  destruct (resolveDisplayTitle ch (restored ch w)). calms.
Qed.
Lemma calm_spawned n s ch u v : calm u v → calm u (spawned n s ch v).
Proof.
  intros Hv. unfold spawned. cbv zeta. destruct (spawned_row s ch _) as [rows|]; [|calms]. cbn [new_set]. calms.
Qed.
Lemma calm_answered n w m u v : calm u v → calm u (answered n w m v).
Proof.
  pose proof calm_spawned. intros Hv. unfold answered, spawn_answer, restart_answer, respawn_answer.
  destruct w as [| |s| | |r [|]|ch obj for_| |c ch obj title askedAt [|]|]; try done; [calms..| |].
  - assert (calm u (drop_wait n (forget_request n v))) as Hd by calms. revert Hd.
    generalize (drop_wait n (forget_request n v)). calms.
  - destruct (attach_answer m ch); [|done]. by apply calm_attach_settle.
Qed.
Lemma calm_from_agent host rid m u v : calm u v → calm u (from_agent host rid m v).
Proof. pose proof calm_answered. pose proof calm_message. unfold from_agent. calms. Qed.
Lemma calm_timeout n u v : calm u v → calm u (timeout n v).
Proof. unfold timeout, spawn_timeout. calms. Qed.

(** The events that are, whatever the hub. *)
Definition is_calm (e : Ev) : bool :=
  match e with
  | SpawnGoes _ | Restart _ | RestartGoes _ | UserDisconnects _ | UserActs _ _ | Reaching _ _ | DropAgent _ | Adopt _ _
  | CloseSession _ _ _ | AgentClosed _ _ _ | Displaced _ _ | States_ _ _ | Quit => false
  | _ => true
  end.
Lemma calm_exec e h : is_calm e = true → calm h (exec e h).
Proof.
  pose proof calm_handleAttach. pose proof calm_from_agent. pose proof calm_timeout. pose proof calm_attach_reached.
  assert (∀ n c ch obj title, calm h (attach_went n c ch obj title h)).
  { intros n c ch obj title. assert (calm h (drop_wait n h)) as Hd by calms. revert Hd. unfold attach_went.
    generalize (drop_wait n h). calms. }
  assert (∀ n c ch obj title askedAt a, calm h (attach_answered n c ch obj title askedAt a h)).
  { intros n c ch obj title askedAt a. assert (calm h (drop_wait n h)) as Hd by calms. revert Hd.
    unfold attach_answered.
    generalize (drop_wait n h). calms. }
  intros He. destruct e; try done; cbn [exec]; unfold addClient, handleInput, handleResize, setFilesPanel, title_timer,
    process_title_timer, clearTitleDebounce, clearProcessTitleDebounce, handleSpawn, restart_reached,
      restart_answered, ask_states; calms.
Qed.
End events.
