(* ===== verification/HostLink.v ===== *)
(** * How a host is reached ([session/session-manager.ts], [ssh-connection-manager.ts])

    With [session-acquisition.ts], [host-connection.ts], [remote-daemon.ts], and the end of an agent's
    connection in [agent-connection-manager.ts]. An SSH host is dialled for a window that starts a
    terminal or asks for the host, through its acquisition ([Acquisition]); for a terminal restarted
    or attached to; and by the hub, after a lost link, on a timer. What is done to the terminals and to
    the sessions is events of [ChannelLifecycle], so that the hub here goes on as the hub there does.
    A dial is what waits on [SshAgent.start], and then on the list of what a daemon holds. A timer or an
    abort controller that no map holds any more is still there, as its callback is. No agent is being
    replaced; the agent beside the hub is reached by the events of [ChannelLifecycle] alone; prompts,
    messages of failure and the sessions table of a session no longer live are left out. *)

From Stdlib Require Import ZArith.
From S2P Require Import Prelude JsMap Acquisition ChannelData ChannelTrackers StateBroadcaster ChannelLifecycle.
#[local] Open Scope lasterm_scope.

(** ** What waits *)

Record Timer := MkTimer {
  tm_host : HostId; tm_session : SessionId; tm_attempt : nat; tm_start : Z; tm_due : Z
}.
(** Who waits for [onReconnectAgent]: a restart, by what it waits on in the hub, or attaches. *)
Inductive Waiter := restart_waits (n : nat) | attach_waits.
(** What a connection is for, and what calls it off: a controller [ac], or an acquisition. A session
    being created is also held as the object it is. *)
Inductive DialFor :=
| for_retry (session : SessionId) (attempt : nat) (start : Z) (ac : nat)
| for_pane (session : SessionId) (w : Waiter) (ac : nat)
| for_spawn (n : nat) (lease : nat) (session : SessionId) (obj : nat) (acq : nat)
| for_request (lease : nat) (session : SessionId) (neverConnected : bool) (acq : nat).
Inductive Phase := dialing | adopting (agent : nat) (states : nat).
Record Dial := MkDial { di_host : HostId; di_for : DialFor; di_phase : Phase }.
(** Who waits for an acquisition under way: a SPAWN or a request, with a lease, or a pane. *)
Inductive FollowFor := follow_spawn (n lease : nat) | follow_request (lease : nat) | follow_pane (w : Waiter).
Record Follower := MkFollower { fo_host : HostId; fo_acq : nat; fo_for : FollowFor }.
(** A SPAWN sent, whose lease its answer releases. *)
Record Held := MkHeld { he_wait : nat; he_lease : nat; he_host : HostId; he_session : SessionId }.

(** [ag_daemon]: it was reached through a daemon that outlives its connection. *)
Record Agent := MkAgent { ag_host : HostId; ag_daemon : bool; ag_told : bool; ag_others : bool }.
(** A connection made: its agent, and whether its version is not the one just deployed. *)
Record Opened := MkOpened { op_daemon : bool; op_told : bool; op_others : bool; op_mismatch : bool }.

Record Link {Sc Ou : Type} := MkLink {
  li_hub : StateBroadcaster.Hub Sc Ou Wait; li_acq : Acquisition.Ctx;
  li_timers : jsmap nat Timer; li_timerOf : jsmap HostId nat;
  li_controllers : list bool; li_controllerOf : jsmap HostId nat;
  li_dials : jsmap nat Dial; li_followers : jsmap nat Follower; li_held : list Held;
  li_agents : list Agent; li_closed : list nat; li_attaching : list HostId;
  li_refusals : jsmap HostId string; li_uploads : jsmap HostId nat; li_next : nat
}.
Arguments Link : clear implicits.
#[export] Instance link_fields {Sc Ou} : Fields (Link Sc Ou) := λ l,
  MkLink Sc Ou (li_hub l) (li_acq l) (li_timers l) (li_timerOf l) (li_controllers l) (li_controllerOf l) (li_dials l)
    (li_followers l) (li_held l) (li_agents l) (li_closed l) (li_attaching l) (li_refusals l) (li_uploads l) (li_next
      l).
#[export] Instance set_li_hub {Sc Ou} : Setter (@li_hub Sc Ou). Proof. derive_setter. Defined.
#[export] Instance set_li_acq {Sc Ou} : Setter (@li_acq Sc Ou). Proof. derive_setter. Defined.
#[export] Instance set_li_timers {Sc Ou} : Setter (@li_timers Sc Ou). Proof. derive_setter. Defined.
#[export] Instance set_li_timerOf {Sc Ou} : Setter (@li_timerOf Sc Ou). Proof. derive_setter. Defined.
#[export] Instance set_li_controllers {Sc Ou} : Setter (@li_controllers Sc Ou). Proof. derive_setter. Defined.
#[export] Instance set_li_controllerOf {Sc Ou} : Setter (@li_controllerOf Sc Ou). Proof. derive_setter. Defined.
#[export] Instance set_li_dials {Sc Ou} : Setter (@li_dials Sc Ou). Proof. derive_setter. Defined.
#[export] Instance set_li_followers {Sc Ou} : Setter (@li_followers Sc Ou). Proof. derive_setter. Defined.
#[export] Instance set_li_held {Sc Ou} : Setter (@li_held Sc Ou). Proof. derive_setter. Defined.
#[export] Instance set_li_agents {Sc Ou} : Setter (@li_agents Sc Ou). Proof. derive_setter. Defined.
#[export] Instance set_li_closed {Sc Ou} : Setter (@li_closed Sc Ou). Proof. derive_setter. Defined.
#[export] Instance set_li_attaching {Sc Ou} : Setter (@li_attaching Sc Ou). Proof. derive_setter. Defined.
#[export] Instance set_li_refusals {Sc Ou} : Setter (@li_refusals Sc Ou). Proof. derive_setter. Defined.
#[export] Instance set_li_uploads {Sc Ou} : Setter (@li_uploads Sc Ou). Proof. derive_setter. Defined.
#[export] Instance set_li_next {Sc Ou} : Setter (@li_next Sc Ou). Proof. derive_setter. Defined.

(** What is read of the tables: whether a host keeps a daemon, by its setting and the hub's; the route
    a refusal of socket forwarding is seen on; whether its jump is refused; and what the SPAWN that
    waits at a place resolves to. [drawn] is the ids drawn for sessions. *)
Class Hosts := {
  hostKeepsDaemon : HostId → bool; forwardingRoute : HostId → string; jump_refused : HostId → bool;
  drawn : nat → SessionId; asked : nat → Config * option string * Z * Z
}.

Definition RECONNECT_BACKOFF_MS : list Z := [1000; 2000; 4000; 8000; 16000; 30000]%Z.
Definition RECONNECT_TIMEOUT_MS : Z := 5 * 60 * 1000.
Definition backoff (attempt : nat) : Z :=
  default 30000%Z (RECONNECT_BACKOFF_MS !! Nat.min attempt (length RECONNECT_BACKOFF_MS - 1)).

Section link.
Context `{!Setup} {Sc Ou : Type} `{!Screens Sc, !Outputs Ou} `{!Hosts}.
Notation Link := (Link Sc Ou).
Implicit Types (l : Link) (host : HostId) (a n : nat).

Definition on_hub (e : ChannelLifecycle.Ev) l : Link := l <{ li_hub ::= ChannelLifecycle.exec e }>.
Definition on_acq (f : Acquisition.Ctx → Acquisition.Ctx) l : Link := l <{ li_acq ::= f }>.
Definition now l : Z := h_now (li_hub l).
Definition stopping host l : bool := bool_decide (host ∈ h_stopping (li_hub l)).
Definition up host l : bool := agent_up host (li_hub l).
Definition quitting l : bool := h_quitting (li_hub l).
Definition user_disconnected host l : bool := bool_decide (host ∈ h_userDisconnected (li_hub l)).
Definition session_id host l : option SessionId := ss_id <$> session_of host (li_hub l).
Definition current host (session : SessionId) l : bool := bool_decide (session_id host l = Some session).
Definition acquisition host l : option nat := acquisitions (li_acq l) !! host.

(** ** Reconnects: their timers and their controllers *)

Definition reaching host l : bool := js_has host (li_timerOf l) || js_has host (li_controllerOf l).
(** [hostReconnecting] reads the two maps: the hub is told what they hold. *)
Definition said_reaching host l : Link := on_hub (Reaching host (reaching host l)) l.
Definition cancel_timer host l : Link :=
  match li_timerOf l !! host with
  | Some t => l <{ li_timers ::= delete t }> <{ li_timerOf ::= delete host }> |> said_reaching host
  | None => l
  end.
Definition abort (ac : nat) l : Link := l <{ li_controllers ::= alter (λ _, true) ac }>.
Definition abort_controller host l : Link :=
  match li_controllerOf l !! host with
  | Some ac => abort ac l <{ li_controllerOf ::= delete host }> |> said_reaching host
  | None => l
  end.
Definition cancelReconnect host l : Link := l |> cancel_timer host |> abort_controller host.
(** A new controller takes the place of another, which it aborts. *)
Definition new_controller host l : nat * Link :=
  let l := match li_controllerOf l !! host with Some ac => abort ac l | None => l end in
  let ac := length (li_controllers l) in
  (ac, l <{ li_controllers ::= λ c, c ++ [false] }> <{ li_controllerOf ::= <[host := ac]> }> |> said_reaching host).
Definition controller_over host (ac : nat) l : Link :=
  if bool_decide (li_controllerOf l !! host = Some ac)
  then l <{ li_controllerOf ::= delete host }> |> said_reaching host else l.
Definition aborted (ac : nat) l : bool := default false (li_controllers l !! ac).
Definition acq_aborted (q : nat) l : bool :=
  match acqs (li_acq l) !! q with Some q => Acquisition.aborted q | None => false end.

(** [ChannelLifecycleManager.closeSession]. *)
Definition close_session host (session : SessionId) (reason : option ChannelEndReason) l : Link :=
  l |> cancelReconnect host |> on_hub (CloseSession host session reason).
Definition close_agent a l : Link := l <{ li_closed ::= λ c, c ++ [a] }> |> on_hub (Down a).
Definition push_dial (d : Dial) l : Link := l <{ li_dials ::= <[li_next l := d]> }> <{ li_next ::= S }>.
Definition push_follower (f : Follower) l : Link := l <{ li_followers ::= <[li_next l := f]> }> <{ li_next ::= S }>.

Definition scheduleReconnect host (session : SessionId) (attempt : nat) (start : Z) l : Link :=
  if quitting l || user_disconnected host l || stopping host l then l
  else if (RECONNECT_TIMEOUT_MS <=? now l - start)%Z then close_session host session None l
  else
    let t := li_next l in
    l <{ li_timers ::= <[t := MkTimer host session attempt start (now l + backoff attempt)]> }>
      <{ li_timerOf ::= <[host := t]> }> <{ li_next ::= S }> |> said_reaching host.
(** What a retry that failed does. *)
Definition retry_failed host (session : SessionId) (attempt : nat) (start : Z) (ac : nat) l : Link :=
  (if aborted ac l then l
   else if (RECONNECT_TIMEOUT_MS <=? now l - start)%Z then
     if current host session l then close_session host session None l else l
   else scheduleReconnect host session (S attempt) start l)
  |> controller_over host ac.
Definition dial_again (tm : Timer) l : Link :=
  let host := tm_host tm in
  let '(ac, l) := new_controller host l in
  if jump_refused host then retry_failed host (tm_session tm) (tm_attempt tm) (tm_start tm) ac l
  else push_dial (MkDial host (for_retry (tm_session tm) (tm_attempt tm) (tm_start tm) ac) dialing) l.
(** The callback of a timer. *)
Definition timer_fires (t : nat) l : Link :=
  match li_timers l !! t with
  | Some tm =>
      let host := tm_host tm in
      let l := l <{ li_timers ::= delete t }> <{ li_timerOf ::= delete host }> |> said_reaching host in
      if stopping host l || up host l then l
      else match session_of host (li_hub l) with
           | None => l
           | Some s =>
               if bool_decide (ss_status s = closed ∨ ss_id s ≠ tm_session tm) || user_disconnected host l then l
               else if negb (host_is_known host) then close_session host (tm_session tm) None l
               else dial_again tm l
           end
  | None => l
  end.

(** ** For a terminal restarted or attached to *)

Definition hostTriesDaemon host l : bool :=
  hostKeepsDaemon host && negb (bool_decide (li_refusals l !! host = Some (forwardingRoute host))).
Definition answer_waiter host (w : Waiter) (ok : bool) l : Link :=
  match w with
  | restart_waits n => on_hub (RestartReached n ok) l
  | attach_waits => l <{ li_attaching ::= set_delete host }>
  end.
(** [onReconnectAgent]; a hub that quits throws, which its callers take as [false]. *)
Definition reconnectAgent host (w : Waiter) l : Link :=
  if stopping host l || quitting l || negb (host_is_ssh host && host_is_known host) then answer_waiter host w false l
  else if up host l then answer_waiter host w true l
  else match acquisition host l with
       | Some q => push_follower (MkFollower host q (follow_pane w)) l
       | None =>
           match session_id host l with
           | None => answer_waiter host w false l
           | Some session =>
               if jump_refused host || bool_decide (js_keys (h_clients (li_hub l)) = []) then answer_waiter host w
                 false l
               else
                 let '(ac, l) := new_controller host l in
                 push_dial (MkDial host (for_pane session w ac) dialing) l
           end
       end.
Definition reconnectForAttach host l : Link :=
  if stopping host l || user_disconnected host l || negb (hostTriesDaemon host l && host_is_known host) then l
  else if bool_decide (host ∈ li_attaching l) || up host l then l
  else l <{ li_attaching ::= set_add host }> |> reconnectAgent host attach_waits.

(** ** For a window, through the acquisition of the host *)

Definition transfersOn host l : nat := default 0 (li_uploads l !! host).
Definition live_on host l : list ChannelId :=
  filter (λ ch, match channel_of ch (li_hub l) with
                | Some c => bool_decide (cs_hostId c = host ∧
                  cs_status c ≠ dead) | None => false end = true) (js_keys (h_channels (li_hub l))).
Definition holdsHost host l : bool := negb (bool_decide (live_on host l = [])) || (0 <? transfersOn host l).
Definition holds_session host (session : SessionId) l : bool :=
  existsb (λ ch, match channel_of ch (li_hub l) with
                 | Some c => bool_decide (cs_sessionId c = session) | None => false end) (js_keys (h_channels (li_hub
                   l)))
  || (0 <? transfersOn host l).
(** Whether it was let go of for good with this lease. *)
Definition release_lease (lease : nat) (holds : bool) l : bool * Link :=
  let '(reaped, c) := Acquisition.release lease holds (li_acq l) in (reaped, l <{ li_acq := c }>).
Definition failConnectingAcq (q : nat) (lease : nat) (holds : bool) l : Link :=
  (release_lease lease holds (on_acq (Acquisition.fail q "SSH connection failed") l)).2.
(** The session there is, or a new one under an id drawn; a hub that quits throws rather than create. *)
Definition createSession host l : option (SessionId * Link) :=
  if quitting l then None
  else Some (drawn (li_next l), on_hub (OpenSession host (drawn (li_next l)) starting) l <{ li_next ::= S }>).
Definition getOrCreateSession host (isSsh : bool) l : option (SessionId * Link) :=
  match session_of host (li_hub l) with
  | Some s =>
      if bool_decide (ss_status s = active ∨ ss_status s = disconnected ∨ (isSsh = false ∧ ss_status s = starting))
      then Some (ss_id s, l) else createSession host l
  | None => createSession host l
  end.
Definition session_obj host l : nat := default 0 (h_sessions (li_hub l) !! host).
Definition not_spawned n l : Link := on_hub (SpawnReached n None) l.

(** The terminal, once its host is reached: unless its window has gone, and took the host with it. *)
Definition spawn_ready n host (session : SessionId) a (lease : option (nat * nat)) l : Link :=
  match h_waits (li_hub l) !! n with
  | Some (w_spawnReach c _ reuse) =>
      if js_has c (h_clients (li_hub l)) then
        let '(config, profile, cols, rows) := asked n in
        let k := h_nextId (li_hub l) in
        let l := on_hub (SpawnReached n (Some (MkSpawning c host a session config profile cols rows reuse))) l in
        match lease with
        | Some (lease, _) => l <{ li_held ::= λ h, h ++ [MkHeld k lease host session] }>
        | None => l
        end
      else
        let holds := holds_session host session l in
        let '(kept, l) :=
          match lease with
          | Some (lease, q) =>
              let '(reaped, l) := release_lease lease holds l in
              (reaped || negb (bool_decide (leases_of q (li_acq l) = [])), l)
          | None => (false, l)
          end in
        let l := if negb kept && negb holds && current host session l then
            (match h_agents (li_hub l) !! host with
             | Some a => l |> close_agent a |> on_hub (DropAgent host) | None => l end)
            |> on_hub (SessionIs host session closed) |> on_hub (DropSession host)
          else l in
        not_spawned n l
  | _ => l
  end.
(** A session put back as it was before a connection asked for failed. *)
Definition settleFailedConnect host (session : SessionId) (neverConnected : bool) l : Link :=
  if negb (current host session l) then l
  else if neverConnected then l |> on_hub (SessionIs host session closed) |> on_hub (DropSession host)
  else on_hub (SessionIs host session disconnected) l.
Definition session_starting (obj : nat) l : bool :=
  match h_sessionObjs (li_hub l) !! obj with Some s => bool_decide (ss_status s = starting) | None => false end.
(** It did not connect. *)
Definition dial_fails host (f : DialFor) l : Link :=
  match f with
  | for_retry session attempt start ac => retry_failed host session attempt start ac l
  | for_pane _ w ac => l |> controller_over host ac |> answer_waiter host w false
  | for_spawn n lease session obj q =>
      (if session_starting obj l then l |> on_hub (SessionIs host session closed) |> on_hub (DropSession host) else l)
      |> failConnectingAcq q lease false |> not_spawned n
  | for_request lease session neverConnected q =>
      let l := settleFailedConnect host session neverConnected l in failConnectingAcq q lease (holdsHost host l) l
  end.
(** The first to want the host: it dials. *)
Definition spawn_leads n (c : ClientId) host l : Link :=
  let '(q, lease, acq) := Acquisition.acquire host c (li_acq l) in
  let l := l <{ li_acq := acq }> in
  match getOrCreateSession host true l with
  | Some (session, l) =>
      let f := for_spawn n lease session (session_obj host l) q in
      if stopping host l || jump_refused host then dial_fails host f l else push_dial (MkDial host f dialing) l
  | None => l |> failConnectingAcq q lease false |> not_spawned n
  end.
(** [spawnOnHost], once a host that is away was turned down. *)
Definition reach_for_spawn n (c : ClientId) host l : Link :=
  if host_is_ssh host && negb (up host l) then
    match acquisition host l with
    | Some q =>
        match Acquisition.join q c (li_acq l) with
        | Some (lease, acq) => l <{ li_acq := acq }> |> push_follower (MkFollower host q (follow_spawn n lease))
        | None => spawn_leads n c host l
        end
    | None => spawn_leads n c host l
    end
  else match getOrCreateSession host (host_is_ssh host) l with
       | Some (session, l) =>
           match h_agents (li_hub l) !! host with
           | Some a => if up host l then spawn_ready n host session a None l else l
           | None => l
           end
       | None => not_spawned n l
       end.

(** ** What a dial comes to *)

Definition closeAcquisition host l : Link := on_acq (λ c, (Acquisition.close host c).2) l.
(** It connected for nobody: called off meanwhile, its session gone, or the host's agent being stopped. *)
Definition dial_stale host (f : DialFor) l : Link :=
  match f with for_retry _ _ _ ac => controller_over host ac l | _ => dial_fails host f l end.
Definition called_off host (f : DialFor) l : bool :=
  match f with
  | for_retry _ _ _ ac | for_pane _ _ ac => aborted ac l || negb (bool_decide (li_controllerOf l !! host = Some ac))
  | for_spawn _ _ _ _ q | for_request _ _ _ q => acq_aborted q l
  end.
Definition session_of_dial (f : DialFor) : SessionId :=
  match f with
  | for_retry session _ _ _ | for_pane session _ _ | for_spawn _ _ session _ _ | for_request _ session _ _ => session
  end.
(** [commits.adoptAgent]; [false] is what it throws. *)
Definition adopt host a l : Link * bool :=
  if quitting l then (l, false)
  else if stopping host l then (close_agent a l, false)
  else
    let told := match li_agents l !! a with Some ag => ag_daemon ag || ag_told ag | None => false end in
    let l := on_hub (Adopt host a) l in
    (if told && bool_decide (a ∈ h_connected (li_hub l)) &&
        bool_decide (ss_status <$> session_of host (li_hub l) = Some active) then on_hub (Announce host) l else l,
          true).
(** [adoptAgent] threw: a SPAWN leaves the session as it is. *)
Definition not_adopted host (f : DialFor) l : Link :=
  match f with
  | for_spawn n lease _ _ q => l |> failConnectingAcq q lease false |> not_spawned n
  | _ => dial_fails host f l
  end.
(** An acquisition still connecting, and the one its host has. *)
Definition acq_current host (q : nat) l : bool :=
  bool_decide (acquisition host l = Some q) &&
  match acqs (li_acq l) !! q with
  | Some q => bool_decide (Acquisition.state q = CONNECTING) && negb (Acquisition.aborted q) | None => false end.
(** The agent is the host's, and what its daemon holds, if it has one, was taken up. *)
Definition adopted host (f : DialFor) a (by_daemon : bool) l : Link :=
  let again session l := if by_daemon then l else on_hub (Respawn host a (reattaching session)) l in
  match f with
  | for_retry session _ _ ac => l |> again session |> controller_over host ac
  | for_pane _ w ac => l |> controller_over host ac |> answer_waiter host w true
  | for_spawn n lease session _ q =>
      let l := on_acq (Acquisition.commit q session) l in
      if current host session l && bool_decide (a ∈ h_connected (li_hub l))
      then spawn_ready n host session a (Some (lease, q)) l
      else l |> not_spawned n |> (λ l, (release_lease lease (holds_session host session l) l).2)
  | for_request lease session _ q =>
      (if match acqs (li_acq l) !! q with Some q => bool_decide (Acquisition.state q = CONNECTING) | None => false end
          && bool_decide (h_agents (li_hub l) !! host = Some a)
       then l |> again session |> on_acq (Acquisition.commit q session) else l)
      |> (λ l, (release_lease lease (holdsHost host l) l).2)
  end.
(** A SPAWN or a request checks once more that its acquisition is the one. *)
Definition acquired host (f : DialFor) l : bool :=
  match f with
  | for_spawn _ _ session _ q | for_request _ session _ q => acq_current host q l && current host session l
  | _ => true
  end.
Definition not_acquired host (f : DialFor) a l : Link :=
  let l := close_agent a l in
  match f with
  | for_spawn n lease session _ q =>
      (if current host session l then on_hub (DropSession host) l else l)
      |> failConnectingAcq q lease false |> not_spawned n
  | _ => dial_fails host f l
  end.
Definition taken (d : nat) host (f : DialFor) a (o : Opened) l : Link :=
  let '(l, ok) := adopt host a l in
  if negb ok then not_adopted host f l
  else if op_daemon o then
    let w := h_nextId (li_hub l) in
    (l |> on_hub (AskStates host a (ChannelLifecycle.adopting (op_others o))))
      <{ li_dials ::= <[d := MkDial host f (adopting a w)]> }>
  else adopted host f a false l.
Definition opened (d : nat) (dl : Dial) (o : Opened) l : Link :=
  let host := di_host dl in
  let f := di_for dl in
  let a := length (li_agents l) in
  let l := l <{ li_dials ::= delete d }> <{ li_agents ::= λ g,
    g ++ [MkAgent host (op_daemon o) (op_told o) (op_others o)] }>
             |> on_hub (Up a) in
  if stopping host l || called_off host f l || negb (current host (session_of_dial f) l)
  then l |> close_agent a |> dial_stale host f
  else
    let l := on_hub (SessionIs host (session_of_dial f) active) l in
    if op_mismatch o then l |> close_agent a |> close_session host (session_of_dial f) None |> dial_fails host f
    else if negb (acquired host f l) then not_acquired host f a l
    else taken d host f a o l.
(** The list it asked for, or the word that there is none to have. *)
Definition states_come (d : nat) (states : option (list (ChannelId * bool))) l : Link :=
  match li_dials l !! d with
  | Some (MkDial host f (adopting a w)) =>
      let l := l <{ li_dials ::= delete d }> in
      (match states, h_waits (li_hub l) !! w with
       | Some states, Some (w_states _ _ _ (ChannelLifecycle.adopting _)) => on_hub (States_ w states) l
       | _, _ => l
       end) |> adopted host f a true
  | _ => l
  end.
(** The acquisition another leads is settled. *)
Definition follows (i : nat) l : Link :=
  match li_followers l !! i with
  | Some (MkFollower host q for_) =>
      match acqs (li_acq l) !! q ≫= connectPromise with
      | None => l
      | Some answer =>
          let l := l <{ li_followers ::= delete i }> in
          match for_, answer with
          | follow_spawn n lease, Resolved session =>
              match h_agents (li_hub l) !! host with
              | Some a =>
                  if current host session l && up host l then spawn_ready n host session a (Some (lease, q)) l
                  else l |> not_spawned n |> (λ l, (release_lease lease (holds_session host session l) l).2)
              | None => l |> not_spawned n |> (λ l, (release_lease lease (holds_session host session l) l).2)
              end
          | follow_spawn n lease, Rejected _ =>
              l |> not_spawned n |> (λ l, (release_lease lease (0 <? transfersOn host l) l).2)
          | follow_request lease, _ => (release_lease lease (holdsHost host l) l).2
          | follow_pane w, Resolved _ => answer_waiter host w (negb (stopping host l) && up host l) l
          | follow_pane w, Rejected _ => answer_waiter host w false l
          end
      end
  | None => l
  end.
(** The SPAWN a lease was held for has its answer. *)
Definition lease_over (i : nat) l : Link :=
  match li_held l !! i with
  | Some he =>
      if js_has (he_wait he) (h_waits (li_hub l)) then l
      else (release_lease (he_lease he) (holds_session (he_host he) (he_session he) l)
              (l <{ li_held ::= delete i }>)).2
  | None => l
  end.

(** ** Connect, Reconnect, Disconnect *)

Definition request_leads (c : ClientId) host l : Link :=
  let '(q, lease, acq) := Acquisition.acquire host c (li_acq l) in
  let l := l <{ li_acq := acq }> in
  match getOrCreateSession host true l with
  | Some (session, l) =>
      let neverConnected := bool_decide (ss_status <$> session_of host (li_hub l) = Some starting) in
      let l := on_hub (SessionIs host session starting) l in
      if stopping host l || jump_refused host
      then dial_fails host (for_request lease session neverConnected q) l
      else push_dial (MkDial host (for_request lease session neverConnected q) dialing) l
  | None => failConnectingAcq q lease (holdsHost host l) l
  end.
Definition reachHostOnRequest (c : ClientId) host l : Link :=
  if quitting l then l
  else
    let l := cancelReconnect host l in
    match acquisition host l with
    | Some q =>
        match Acquisition.join q c (li_acq l) with
        | Some (lease, acq) => l <{ li_acq := acq }> |> push_follower (MkFollower host q (follow_request lease))
        | None => request_leads c host l
        end
    | None => request_leads c host l
    end.

Inductive Outcome :=
| o_busy | o_not_ssh | o_quitting | o_terminals_would_end (terminals transfers : nat) | o_transfers_would_stop (n : nat)
| o_connected | o_connecting (ended : nat) | o_disconnected (ended : nat).
Definition connected_agent host l : option Agent :=
  if up host l then h_agents (li_hub l) !! host ≫= λ a, li_agents l !! a else None.
(** A connection that is up says it itself; with none, the setting says what the next would do. *)
Definition terminalsOutliveConnection host l : bool :=
  match connected_agent host l with Some ag => ag_daemon ag | None => hostTriesDaemon host l end.
Definition terminalsEndedByDisconnect host l : nat :=
  if terminalsOutliveConnection host l then 0 else length (live_on host l).
Definition terminalsEndedByReconnect host l : nat :=
  match connected_agent host l with Some ag => if ag_daemon ag then 0 else length (live_on host l) | None => 0 end.
Definition wouldStop (terminals transfers : nat) (force : bool) : option Outcome :=
  if force then None
  else if 0 <? terminals then Some (o_terminals_would_end terminals transfers)
  else if 0 <? transfers then Some (o_transfers_would_stop transfers) else None.
Definition refused host l : option Outcome :=
  if stopping host l then Some o_busy
  else if negb (host_is_ssh host && host_is_known host) then Some o_not_ssh
  else if quitting l then Some o_quitting else None.
Definition interruptOn host l : Link := l <{ li_uploads ::= delete host }>.
Definition askServerAgain host l : Link := l <{ li_refusals ::= delete host }>.
(** Let go of first, so that its end is read as the hub's doing. *)
Definition letGoOfConnection host a l : Link := l |> on_hub (Displaced host a) |> close_agent a.
Definition dropConnection host a l : Link :=
  let l := letGoOfConnection host a l in
  match session_id host l with Some session => on_hub (SessionIs host session disconnected) l | None => l end.
Definition endHostSession host (reason : ChannelEndReason) l : Link :=
  let l := match h_agents (li_hub l) !! host with Some a => letGoOfConnection host a l | None => l end in
  let l := closeAcquisition host l in
  match session_id host l with Some session => close_session host session (Some reason) l | None => l end.

Definition connectHost (c : ClientId) host l : Outcome * Link :=
  match refused host l with
  | Some o => (o, l)
  | None =>
      if up host l then (o_connected, on_hub (UserActs host true) l)
      else (o_connecting 0, l |> on_hub (UserActs host false) |> askServerAgain host |> reachHostOnRequest c host)
  end.
Definition reconnectHost (c : ClientId) host (force : bool) l : Outcome * Link :=
  match refused host l with
  | Some o => (o, l)
  | None =>
      let ending := terminalsEndedByReconnect host l in
      let transfers := if up host l then transfersOn host l else 0 in
      match wouldStop ending transfers force with
      | Some o => (o, l)
      | None =>
          let outlive := terminalsOutliveConnection host l in
          let l := if 0 <? transfers then interruptOn host l else l in
          let l := l |> on_hub (UserActs host false) |> askServerAgain host in
          let l := match h_agents (li_hub l) !! host with
                   | Some a => if up host l then if outlive then dropConnection host a l else endHostSession host
                     stopped l
                               else l
                   | None => l
                   end in
          (o_connecting ending, reachHostOnRequest c host l)
      end
  end.
Definition disconnectHost host (force : bool) l : Outcome * Link :=
  match refused host l with
  | Some o => (o, l)
  | None =>
      let ending := terminalsEndedByDisconnect host l in
      let transfers := transfersOn host l in
      match wouldStop ending transfers force with
      | Some o => (o, l)
      | None =>
          let outlive := terminalsOutliveConnection host l in
          let l := if 0 <? transfers then interruptOn host l else l in
          let agent := h_agents (li_hub l) !! host in
          match session_of host (li_hub l), agent, acquisition host l with
          | None, None, None => (o_disconnected 0, l)
          | session, _, _ =>
              let l := l |> on_hub (UserDisconnects host) |> cancelReconnect host |> closeAcquisition host in
              (o_disconnected ending,
               match session with
               | Some s =>
                   if outlive && negb (bool_decide (ss_status s = starting)) then
                     match agent with
                     | Some a => dropConnection host a l
                     | None => on_hub (SessionIs host (ss_id s) disconnected) l
                     end
                   else endHostSession host stopped l
               | None => endHostSession host stopped l
               end)
          end
      end
  end.

(** ** The end of a session, of a connection, of the hub *)

Inductive CloseOutcome := c_closed | c_busy | c_transfersWouldStop (n : nat).
Definition closeSession (session : SessionId) (force : bool) l : CloseOutcome * Link :=
  let recorded := fst <$> h_sessionRows (li_hub l) !! session in
  let ssh := match recorded with Some host => host_is_ssh host && host_is_known host | None => false end in
  let transfers := match recorded with Some host => if ssh then transfersOn host l else 0 | None => 0 end in
  if match recorded with Some host => stopping host l | None => false end then (c_busy, l)
  else if (0 <? transfers) && negb force then (c_transfersWouldStop transfers, l)
  else
    let l := match recorded with Some host => if 0 <? transfers then interruptOn host l else l | None => l end in
    match find (λ host, current host session l) (js_keys (h_sessions (li_hub l))) with
    | None => (c_closed, l)
    | Some host =>
        let agent := h_agents (li_hub l) !! host in
        let l := match agent with Some a => on_hub (DropAgent host) l | None => l end in
        let l := l |> closeAcquisition host |> close_session host session (Some killed) in
        (c_closed, match agent with Some a => close_agent a l | None => l end)
    end.
(** The connection of an agent is over: the hub reaches for the host again. *)
Definition agent_closes a l : Link :=
  match li_agents l !! a with
  | Some ag =>
      let host := ag_host ag in
      let l := on_hub (Down a) l in
      if quitting l && stopping host l then l
      else
        let was := bool_decide (h_agents (li_hub l) !! host = Some a) in
        let l := on_hub (AgentClosed host a true) l in
        match session_id host l with
        | Some session =>
            if was && host_is_ssh host && negb (stopping host l) then scheduleReconnect host session 0 (now l) l else l
        | None => l
        end
  | None => l
  end.
Definition agent_displaced a l : Link :=
  match li_agents l !! a with Some ag => letGoOfConnection (ag_host ag) a l | None => l end.
Definition beginQuit l : Link :=
  if quitting l then l
  else
    let l := on_acq Acquisition.beginQuit l in
    let l := fold_left (λ l t, l <{ li_timers ::= delete t }>) (js_values (li_timerOf l)) l <{ li_timerOf := ∅ }> in
    fold_left (λ l ac, abort ac l) (js_values (li_controllerOf l)) l <{ li_controllerOf := ∅ }> |> on_hub Quit.

(** ** Steps *)

(** A host reached for by what an event of the hub left waiting. *)
Definition reach_one l n : Link :=
  match h_waits (li_hub l) !! n with
  | Some (w_attachReach _ _ obj _) =>
      match h_objs (li_hub l) !! obj with Some c => reconnectForAttach (cs_hostId c) l | None => l end
  | Some (w_restartReach r) => reconnectAgent (rs_host r) (restart_waits n) l
  | Some (w_spawnReach c host _) => reach_for_spawn n c host l
  | _ => l
  end.
Definition news (since : nat) l : list nat := seq since (h_nextId (li_hub l) - since).
(** No agent is being replaced: a restart goes on as it is asked for. *)
Definition goes_on l n : Link :=
  match h_waits (li_hub l) !! n with
  | Some (w_restartBegin _) =>
      let since := h_nextId (li_hub l) in
      let l := on_hub (RestartGoes n) l in fold_left reach_one (news since l) l
  | _ => reach_one l n
  end.
Definition hub_event (e : ChannelLifecycle.Ev) l : Link :=
  let since := h_nextId (li_hub l) in
  let l := on_hub e l in fold_left goes_on (news since l) l.
(** What the terminals do, and the agent beside the hub; the rest is the link's to do. *)
Definition of_the_hub (e : ChannelLifecycle.Ev) l : bool :=
  let beside host := negb (host_is_ssh host) in
  let its host a := beside host && bool_decide (ag_host <$> li_agents l !! a = Some host) in
  match e with
  | SpawnReached n _ => match h_waits (li_hub l) !! n with Some (w_spawnReach _ host _) => beside host | _ => true end
  | States_ n _ => match h_waits (li_hub l) !! n with Some (w_states host _ _ _) => beside host | _ => true end
  | CloseSession host _ _ | OpenSession host _ _ | SessionIs host _ _ => beside host
  | Adopt host a | AskStates host a _ | Respawn host a _ | AgentClosed host a _ | Displaced host a => its host a
  | RestartGoes _ | RestartReached _ _ | Up _ | UserDisconnects _ | UserActs _ _ | Reaching _ _ | DropSession _ |
    DropAgent _
  | Announce _ | Quit => false
  | _ => true
  end.
Inductive Ev :=
| OfTheHub (e : ChannelLifecycle.Ev) | TimerFires (t : nat)
| Opens (d : nat) (o : Opened) | Fails (d : nat) | StatesCome (d : nat) (states : option (list (ChannelId * bool)))
| Follows (i : nat) | LeaseOver (i : nat)
| ConnectHost (c : ClientId) host | ReconnectHost (c : ClientId) host (force : bool) | DisconnectHost host (force :
  bool)
| DeleteSession (session : SessionId) (force : bool)
| AgentCloses a | AgentDisplaced a | LocalAgent host | ForwardingRefused host | Uploads host n | BeginQuit.
Definition exec (e : Ev) l : Link :=
  match e with
  | OfTheHub e =>
      if of_the_hub e l then
        match e with CloseSession host session reason => close_session host session reason l | _ => hub_event e l end
      else l
  | TimerFires t =>
      match li_timers l !! t with Some tm => if (tm_due tm <=? now l)%Z then timer_fires t l else l | None => l end
  | Opens d o => match li_dials l !! d with
                 | Some dl => match di_phase dl with dialing => opened d dl o l | _ => l end | None => l end
  | Fails d => match li_dials l !! d with
               | Some dl => match di_phase dl with
                            | dialing => l <{ li_dials ::= delete d }> |> dial_fails (di_host dl) (di_for dl) | _ => l
                              end
               | None => l end
  | StatesCome d states => states_come d states l
  | Follows i => follows i l
  | LeaseOver i => lease_over i l
  | ConnectHost c host => (connectHost c host l).2
  | ReconnectHost c host force => (reconnectHost c host force l).2
  | DisconnectHost host force => (disconnectHost host force l).2
  | DeleteSession session force => (closeSession session force l).2
  | AgentCloses a => agent_closes a l
  | AgentDisplaced a => agent_displaced a l
  | LocalAgent host =>
      if host_is_ssh host then l
      else l <{ li_agents ::= λ g, g ++ [MkAgent host true false false] }> |> on_hub (Up (length (li_agents l)))
  | ForwardingRefused host => l <{ li_refusals ::= <[host := forwardingRoute host]> }>
  | Uploads host n => l <{ li_uploads ::= <[host := n]> }>
  | BeginQuit => beginQuit l
  end.
(** So many milliseconds later. *)
Definition passes (ms : N) l : Link := l <{ li_hub ::= set_field h_now (λ t, t + Z.of_N ms)%Z }>.
Definition step l (e : N * Ev) : Link := exec e.2 (passes e.1 l).
(** A hub as it starts. *)
Definition started (h : StateBroadcaster.Hub Sc Ou Wait) : Link :=
  MkLink _ _ h Acquisition.new ∅ ∅ [] ∅ ∅ ∅ [] [] [] [] ∅ ∅ 0.
End link.
