(* ===== verification/HostLinkExample.v ===== *)
(** * A hub that reaches a remote host, to evaluate the definitions on

    One SSH host that keeps a daemon, one that does not; a window; and runs of [HostLink], those in
    which the code does something else than it means among them. *)

From S2P Require Import Prelude JsMap SpoolDal OutputChunker Replay SnapshotScheduler Acquisition ChannelData ChannelTrackers StateBroadcaster ChannelLifecycle HostLink.
#[local] Open Scope lasterm_scope.
#[local] Open Scope string_scope.

Definition hl_setup : Setup :=
  {| titleSource := dynamic; staticTitle := ""; host_is_known := λ host,
    String.eqb host "kept" || String.eqb host "stdio";
     host_is_ssh := λ _, true |}.
Definition hl_hosts : Hosts :=
  {| hostKeepsDaemon := λ host, String.eqb host "kept"; forwardingRoute := λ _, "route"; jump_refused := λ _, false;
     drawn := λ n, "s" ++ String (Ascii.ascii_of_nat (48 + n)) "";
     asked := λ _, (MkConfig (Some "bash") [] None false, None, 80, 24)%Z |}.
#[local] Existing Instance hl_setup.
#[local] Existing Instance hl_hosts.
Definition hl_outputs : Replay.Hub :=
  {| chunker := {| OutputChunker.channels := ∅; spoolDal := SpoolDal.Build_Db [] 0 0 |}; cacheIndex := ∅ |}.
Definition hl_hub : Hub SnapshotScheduler Replay.Hub Wait :=
  MkHub _ _ Wait 0 false ∅ [] ∅ [] ∅ [] [] ∅ [] [] [] [] 0 ∅ ∅ 0 ∅ ∅ ∅ ∅ [] ∅ ∅ (SnapshotScheduler.new None)
    hl_outputs [].
Notation ExLink := (Link SnapshotScheduler Replay.Hub).
Definition hl_run (es : list (N * Ev)) : ExLink := run step (started hl_hub) es.
Notation hub e := (1%N, OfTheHub e).
Definition over (daemon : bool) : Opened := MkOpened daemon false false false.
(** A window connects, and starts a terminal on a host of that name, which is reached for it. *)
Definition hl_starts (host : HostId) (daemon : bool) : list (N * Ev) :=
  [hub (Connect "w1"); hub (Spawn "w1" host None false); hub (SpawnGoes 0); (1%N, Opens 1 (over daemon))].
Definition hl_kept : list (N * Ev) :=
  hl_starts "kept" true ++ [(1%N, StatesCome 1 (Some [])); hub (FromAgent "kept" (Some 3) (m_SPAWN_OK "t1"))].

Notation at1 e := (1%N, e).
(** The terminals of the hub, and what it asked agents to end. *)
Definition hl_terminals (l : ExLink) : list (ChannelId * ChannelStatus) :=
  omap (λ ch, (λ c, (ch, cs_status c)) <$> channel_of ch (li_hub l)) (js_keys (h_channels (li_hub l))).
Definition hl_destroys (l : ExLink) : list (nat * ChannelId) :=
  omap (λ o, match o with to_agent a (DESTROY ch) => Some (a, ch) | _ => None end) (h_log (li_hub l)).
Definition hl_dials (l : ExLink) : list (HostId * DialFor) := (λ d, (di_host d, di_for d)) <$> js_values (li_dials l).

(** A terminal started on a host with a daemon. *)
Example kept_running : hl_terminals (hl_run hl_kept) = [("t1", live)].
Proof. vm_compute. reflexivity. Qed.
(** Disconnect leaves it; a second one, as the host is being reached again, says it ends none, and has it
    destroyed once the host is reached. *)
Definition hl_twice : list (N * Ev) :=
  hl_kept ++ [at1 (DisconnectHost "kept" false); at1 (ConnectHost "w1" "kept"); at1 (DisconnectHost "kept" false)].
Definition hl_back : list (N * Ev) :=
  hl_twice ++ [at1 (Fails 2); at1 (ConnectHost "w1" "kept"); at1 (Opens 4 (over true));
    at1 (StatesCome 4 (Some [("t1", true)]))].
Example disconnect_while_reaching_destroys :
  (disconnectHost "kept" false (hl_run (take 8 hl_twice))).1 = o_disconnected 0 ∧
  hl_terminals (hl_run (take 8 hl_twice)) = [("t1", live)] ∧
  hl_terminals (hl_run hl_twice) = [] ∧ hl_destroys (hl_run hl_back) = [(1, "t1")].
Proof. vm_compute. auto. Qed.
(** A pane brings a lost host back before the hub's own retry is due; lost again, two timers are set, the
    first of which a Connect no longer cancels: two connections are made at once. *)
Definition hl_leak : list (N * Ev) :=
  hl_kept ++ [at1 (AgentCloses 0); hub (Attach "w1" "t1"); at1 (Opens 3 (over true));
    at1 (StatesCome 3 (Some [("t1", true)])); at1 (AgentCloses 1); (1000%N, TimerFires 2);
      at1 (ConnectHost "w1" "kept");
    at1 (Fails 5); (5%N, TimerFires 4)].
Example two_dials_of_a_host :
  map fst (hl_dials (hl_run hl_leak)) = ["kept"; "kept"] ∧
  forallb (λ d, negb (called_off d.1 d.2 (hl_run hl_leak))) (hl_dials (hl_run hl_leak)) = true.
Proof. vm_compute. auto. Qed.
(** Every window went; a new one starts a terminal: the host's session is another, that stays starting, and
    a restart of either terminal ends it without starting it again. *)
Definition hl_another : list (N * Ev) :=
  hl_kept ++ [hub (Gone "w1"); hub (Connect "w2"); hub (Spawn "w2" "kept" None false); hub (SpawnGoes 4);
    hub (FromAgent "kept" (Some 6) (m_SPAWN_OK "t2"))].
Example session_left_starting :
  ss_status <$> session_of "kept" (li_hub (hl_run hl_another)) = Some starting ∧
  js_keys (h_channels (li_hub (hl_run hl_another))) = ["t1"; "t2"] ∧
  hl_destroys (hl_run (hl_another ++ [hub (Restart "t2")])) = [(0, "t2")] ∧
  h_waits (li_hub (hl_run (hl_another ++ [hub (Restart "t2")]))) = ∅.
Proof. vm_compute. auto. Qed.
