(* ===== verification/HostLinkRuns.v ===== *)
(** * A link's hub lives as [ChannelLifecycle] has it

    Everything [HostLink] does to its hub is an event of [ChannelLifecycle], so what is shown of every run
    there holds here; and the hosts the hub says it reconnects are those with a timer or a controller, so
    that what [ChannelLifecycle] goes by is what [host-reachability.ts] reads
    ([link_refines_lifecycle]). *)

From S2P Require Import Prelude JsMap Acquisition ChannelData ChannelTrackers StateBroadcaster ChannelLifecycle ChannelChanges ChannelOps HostWires HostLink HostLinkExample.
#[local] Open Scope lasterm_scope.

Create HintDb link.
Section onward.
Context `{!Setup} {Sc Ou : Type} `{!Screens Sc, !Outputs Ou} `{!Hosts}.
Notation Link := (Link Sc Ou).
Notation Hub := (StateBroadcaster.Hub Sc Ou Wait).
Implicit Types (l u v : Link) (host : HostId).

(** The hub says it reconnects the hosts the maps hold, of those other than [but]. *)
Definition told_but (but : option HostId) l : Prop :=
  ∀ host, Some host ≠ but → host ∈ h_reconnecting (li_hub l) ↔ reaching host l = true.
Definition told l : Prop := told_but None l.
(** [v] is what [u] may go on to be, but for what the hub says of [but]. *)
Record onward_but (but : option HostId) u v : Prop := {
  on_runs : ∃ es, li_hub v = run ChannelLifecycle.step (li_hub u) es;
  on_told : told u → told_but but v
}.
Notation onward := (onward_but None).
Lemma onward_refl u : onward u u.
Proof. split; [by exists []|done]. Qed.
Lemma onward_weaken but u v : onward u v → onward_but but u v.
Proof. intros [H1 H2]. split; [done|]. intros Ht k _. by apply (H2 Ht k). Qed.
Lemma onward_trans u v w : onward u v → onward v w → onward u w.
Proof.
  intros [(es & H1) H2] [(es' & H3) H4]. split; [|intros Ht; by apply H4, H2]. exists (es ++ es').
    by rewrite H3, H1, run_app.
Qed.
Lemma exec_runs (h : Hub) e : ChannelLifecycle.exec e h = run ChannelLifecycle.step h [(h_now h, e)].
Proof. by destruct h. Qed.
(** Something else than the hub and the two maps. *)
Lemma onward_same but u v w :
  li_hub w = li_hub v → li_timerOf w = li_timerOf v → li_controllerOf w = li_controllerOf v → onward_but but u v →
    onward_but but u w.
Proof.
  intros H1 H2 H3 [H4 H5]. split; [by rewrite H1|]. intros Ht host Hh. unfold reaching. rewrite H1, H2, H3. by apply H5.
Qed.
(** The maps, at a host. *)
Lemma onward_maps host u v w :
  li_hub w = li_hub v →
  (∀ k, k ≠ host → li_timerOf w !! k = li_timerOf v !! k ∧ li_controllerOf w !! k = li_controllerOf v !! k) →
  onward_but (Some host) u v → onward_but (Some host) u w.
Proof.
  intros H1 H2 [H4 H5]. split; [by rewrite H1|]. intros Ht k Hk. destruct (H2 k) as [H6 H7]; [congruence|].
  rewrite H1. unfold reaching, js_has. rewrite H6, H7. by apply H5.
Qed.
(** An event of the hub, which may change what it says of [but]. *)
Lemma onward_event but e u v :
  (∀ k, Some k ≠ but → k ∈ h_reconnecting (ChannelLifecycle.exec e (li_hub v)) ↔ k ∈ h_reconnecting (li_hub v)) →
  onward_but but u v → onward_but but u (on_hub e v).
Proof.
  intros He [(es & H1) H2]. split.
  - exists (es ++ [(h_now (li_hub v), e)]). rewrite run_app, <- H1. apply exec_runs.
  - intros Ht k Hk. etransitivity; [exact (He k Hk)|]. by apply H2.
Qed.
Lemma onward_said host u v : onward_but (Some host) u v → onward u (said_reaching host v).
Proof.
  intros [(es & H1) H2]. split.
  - exists (es ++ [(h_now (li_hub v), Reaching host (reaching host v))]). rewrite run_app, <- H1. apply exec_runs.
  - intros Ht k _. transitivity (reaching k v = true); [|done].
    change (li_hub (said_reaching host v)) with (ChannelLifecycle.exec (Reaching host (reaching host v)) (li_hub v)).
    cbn. destruct (decide (k = host)) as [->|Hk].
    + destruct (reaching host v); rewrite ?elem_of_set_add, ?elem_of_set_delete; naive_solver.
    + rewrite <- (H2 Ht k) by congruence. destruct (reaching host v); rewrite ?elem_of_set_add, ?elem_of_set_delete;
      naive_solver.
Qed.

Lemma reconnecting_close host session reason (h : Hub) :
  h_reconnecting (ChannelLifecycle.exec (CloseSession host session reason) h) = set_delete host (h_reconnecting h).
Proof.
  cbn [ChannelLifecycle.exec]. unfold ChannelLifecycle.closeSession.
  assert (calm (h <{ h_reconnecting ::= set_delete host }>)
            (updateSessionStatus host session closed
               (end_all host (λ ch _, updateChannelStatus ch session dead None reason) (h <{ h_reconnecting ::=
                 set_delete host }>)))) as [[= _ _ _ Hw] _].
  { apply calm_session. apply calm_end_all; calms. }
  exact Hw.
Qed.
Definition reconnects_same (e : ChannelLifecycle.Ev) : bool :=
  match e with Reaching _ _ | CloseSession _ _ _ | AgentClosed _ _ _ | Quit => false | _ => true end.
Lemma reconnecting_calm (u v : Hub) : calm u v → h_reconnecting v = h_reconnecting u.
Proof. by intros [[= _ _ _ Hw] _]. Qed.
Lemma reconnecting_userActs host (h : Hub) : h_reconnecting (userActsOnHost host h) = h_reconnecting h.
Proof.
  unfold userActsOnHost. destruct (decide _); [|done].
  by rewrite (reconnecting_calm (h <{ h_userDisconnected ::= set_delete host }>)) by calms.
Qed.
Lemma reconnecting_exec e (h : Hub) : reconnects_same e = true →
  h_reconnecting (ChannelLifecycle.exec e h) = h_reconnecting h.
Proof.
  intros He. destruct (is_calm e) eqn:Hc; [by apply reconnecting_calm, calm_exec|].
  assert (∀ c (w : Hub), h_reconnecting w = h_reconnecting h →
    h_reconnecting (push c w) = h_reconnecting h) as Hpush by done.
  destruct e; try done; cbn [ChannelLifecycle.exec].
  - destruct (h_waits h !! n) as [[]|]; try done. unfold spawnOnHost. cbv zeta.
    assert (∀ m r (w : Hub), h_reconnecting w = h_reconnecting h →
      h_reconnecting (ChannelLifecycle.release r (tell m client w)) = h_reconnecting h) as Href.
    { intros m r w <-. apply reconnecting_calm. calms. }
    destruct (decide _); [by apply Href|]. destruct (negb _); [by apply Href|]. destruct (_ && _); [by apply Href|].
    destruct (hostReconnecting _ _); [apply Href|apply Hpush]; by rewrite reconnecting_userActs.
  - unfold restartChannel. destruct (getChannelWithHost ch h) as [[? host]|].
    + destruct (_ || _); [done|]. cbv zeta. destruct (decide _); [by rewrite reconnecting_userActs|].
      apply Hpush. cbn. apply reconnecting_userActs.
    + by destruct (_ || _).
  - destruct (h_waits h !! n) as [[]|]; try done. unfold restart_begin. cbv zeta.
    destruct (h_quitting _); [done|]. destruct (getChannelWithHost _ _) as [[row host]|]; [|done].
    match goal with |- h_reconnecting (if _ then restart_send _ ?w else _) = _ => assert (h_reconnecting w =
      h_reconnecting h) as Hw end.
    { destruct (h_agents (drop_wait n h) !! host); [|done]. destruct (channel_of (Sc:=Sc) _ _); [|done].
      by destruct (_ && _). }
    destruct (agent_up _ _); [|by apply Hpush]. rewrite <- Hw. apply reconnecting_calm. calms.
  - destruct announce; [apply reconnecting_userActs|done].
  - unfold adoptAgent. by destruct (_ || _).
  - unfold dropDisplacedConnection. destruct (bool_decide _); [|done]. destruct (h_quitting _); [done|].
    by rewrite (reconnecting_calm (h <{ h_agents ::= delete host }>)) by calms.
  - destruct (h_waits h !! n) as [[]|]; try done. unfold states_answered, adoptAgent. cbv zeta. destruct for_.
    + apply reconnecting_calm. destruct (_ && _); calms.
    + destruct (h_quitting _); [done|].
      assert (h_reconnecting (reconcileChannelState host states agent (Some askedAt) (drop_wait n h)) = h_reconnecting
        h) as Hr.
      { apply reconnecting_calm. calms. }
      destruct (_ || _); [done|]. cbv [from_option id].
      match goal with |- h_reconnecting (agentMayBeIdle _ (updateSessionStatus _ _ _ ?w)) = _ =>
        transitivity (h_reconnecting w); [|exact Hr] end. apply reconnecting_calm. calms.
Qed.
Lemma onward_hub e but u v : reconnects_same e = true → onward_but but u v → onward_but but u (on_hub e v).
Proof. intros He. apply onward_event. intros k _. by rewrite reconnecting_exec. Qed.
End onward.
Notation onward := (onward_but None).
#[export] Hint Resolve onward_refl I : link.
#[export] Hint Extern 1 (onward_but _ _ (on_hub _ _)) => simple apply onward_hub; [reflexivity|] : link.
#[export] Hint Extern 2 (onward_but _ _ (set_field _ _ ?v)) => simple apply (onward_same _ _ v); [generalize v;
  reflexivity..|] : link.
#[export] Hint Extern 3 (onward_but _ _ (if ?b then _ else _)) => destruct b : link.
#[export] Hint Extern 3 (onward_but _ _ (match ?x with _ => _ end)) => destruct x : link.
Ltac onwards := intros; cbv beta iota zeta delta [fst snd]; eauto 40 with link nocore.

Section connections.
Context `{!Setup} {Sc Ou : Type} `{!Screens Sc, !Outputs Ou} `{!Hosts}.
Notation Link := (Link Sc Ou).
Implicit Types (l u v : Link) (host : HostId).

Lemma hub_on e l : li_hub (on_hub e l) = ChannelLifecycle.exec e (li_hub l).
Proof. done. Qed.
(** The maps change at a host, and the hub is told. *)
Lemma onward_said_maps host u v w :
  li_hub w = li_hub v →
  (∀ k, k ≠ host → li_timerOf w !! k = li_timerOf v !! k ∧ li_controllerOf w !! k = li_controllerOf v !! k) →
  onward u v → onward u (said_reaching host w).
Proof. intros H1 H2 Hv. apply onward_said, (onward_maps _ _ v); [done..|]. by apply onward_weaken. Qed.
Lemma onward_cancel_timer host u v : onward u v → onward u (cancel_timer host v).
Proof.
  intros Hv. unfold cancel_timer. destruct (li_timerOf v !! host); [|done].
    apply (onward_said_maps _ _ v); [done| |done].
  intros k Hk. cbn. by rewrite js_lookup_delete_ne by done.
Qed.
Lemma onward_abort but ac u v : onward_but but u v → onward_but but u (abort ac v).
Proof. unfold abort. onwards. Qed.
Lemma onward_abort_controller host u v : onward u v → onward u (abort_controller host v).
Proof.
  intros Hv. unfold abort_controller. destruct (li_controllerOf v !! host); [|done].
    apply (onward_said_maps _ _ v); [done| |done].
  intros k Hk. cbn. by rewrite js_lookup_delete_ne by done.
Qed.
Lemma onward_cancel host u v : onward u v → onward u (cancelReconnect host v).
Proof. intros Hv. by apply onward_abort_controller, onward_cancel_timer. Qed.
Lemma onward_controller host u v : onward u v → onward u (new_controller host v).2.
Proof.
  intros Hv. cbn. apply (onward_said_maps _ _ v); [| |done].
  - by destruct (li_controllerOf v !! host).
  - intros k Hk. cbn. rewrite js_lookup_insert_ne by done. by destruct (li_controllerOf v !! host).
Qed.
Lemma onward_controller_over host ac u v : onward u v → onward u (controller_over host ac v).
Proof.
  intros Hv. unfold controller_over. destruct (bool_decide _); [|done]. apply (onward_said_maps _ _ v); [done| |done].
  intros k Hk. cbn. by rewrite js_lookup_delete_ne by done.
Qed.
(** Nothing reaches for a host that no longer has a session. *)
Lemma cancelled host v : reaching host (cancelReconnect host v) = false.
Proof.
  unfold cancelReconnect. set (w := cancel_timer host v).
  assert (li_timerOf w !! host = None) as Hw.
  { unfold w, cancel_timer. destruct (li_timerOf v !! host) eqn:Ht; [|done]. cbn. apply js_lookup_delete_eq. }
  unfold reaching. rewrite orb_false_iff, !js_has_false. unfold abort_controller.
  destruct (li_controllerOf w !! host) eqn:Hc; [|done]. split; [exact Hw|]. cbn. apply js_lookup_delete_eq.
Qed.
Lemma onward_close host session reason u v : onward u v → onward u (close_session host session reason v).
Proof.
  intros Hv%(onward_cancel host). unfold close_session. split.
  - apply (onward_event (Some host)); [|by apply onward_weaken]. intros k Hk.
    rewrite reconnecting_close, elem_of_set_delete. naive_solver.
  - intros Ht k _. pose proof (on_told _ _ _ Hv Ht k) as Hk. destruct (decide (k = host)) as [->|Hne].
    + change (reaching host (on_hub ?e ?w)) with (reaching host w). rewrite cancelled, hub_on.
      rewrite reconnecting_close, elem_of_set_delete. naive_solver.
    + etransitivity; [|apply Hk; done]. rewrite hub_on, reconnecting_close, elem_of_set_delete. naive_solver.
Qed.
End connections.
#[export] Hint Resolve onward_cancel onward_abort onward_controller onward_controller_over onward_close : link.

Section dials.
Context `{!Setup} {Sc Ou : Type} `{!Screens Sc, !Outputs Ou} `{!Hosts}.
Notation Link := (Link Sc Ou).
Implicit Types (l u v : Link) (host : HostId).

Lemma onward_close_agent a u v : onward u v → onward u (close_agent a v).
Proof. unfold close_agent. onwards. Qed.
Lemma onward_acq f u v : onward u v → onward u (on_acq f v).
Proof. unfold on_acq. onwards. Qed.
Lemma onward_push d u v : onward u v → onward u (push_dial d v).
Proof. unfold push_dial. onwards. Qed.
Lemma onward_push_follower f u v : onward u v → onward u (push_follower f v).
Proof. unfold push_follower. onwards. Qed.
Lemma onward_release lease holds u v : onward u v → onward u (release_lease lease holds v).2.
Proof. unfold release_lease. destruct (Acquisition.release _ _ _). onwards. Qed.
(** A timer set: a host whose end the hub announced as it heard of it. *)
Lemma onward_schedule host session attempt start u v : onward u v →
  onward u (scheduleReconnect host session attempt start v).
Proof.
  intros Hv. unfold scheduleReconnect. destruct (_ || _); [done|]. destruct (_ <=? _)%Z; [by apply onward_close|].
  apply (onward_said_maps _ _ v); [done| |done]. intros k Hk. cbn. by rewrite js_lookup_insert_ne by done.
Qed.
Lemma onward_retry host session attempt start ac u v : onward u v →
  onward u (retry_failed host session attempt start ac v).
Proof. intros Hv. pose proof onward_schedule. unfold retry_failed. onwards. Qed.
Lemma onward_answer host w ok u v : onward u v → onward u (answer_waiter host w ok v).
Proof. unfold answer_waiter. onwards. Qed.
End dials.
#[export] Hint Resolve onward_close_agent onward_acq onward_push onward_push_follower onward_release onward_schedule
  onward_retry onward_answer : link.

Section reaches.
Context `{!Setup} {Sc Ou : Type} `{!Screens Sc, !Outputs Ou} `{!Hosts}.
Notation Link := (Link Sc Ou).
Implicit Types (l u v : Link) (host : HostId).

Lemma onward_timer t u v : onward u v → onward u (timer_fires t v).
Proof.
  intros Hv. unfold timer_fires. destruct (li_timers v !! t) as [tm|]; [|done]. cbv zeta.
  match goal with |- context [said_reaching ?h ?w] => assert (onward u (said_reaching h w)) as Hw end.
  { apply (onward_said_maps _ _ v); [done| |done]. intros k Hk. cbn. by rewrite js_lookup_delete_ne by done. }
  revert Hw. generalize (said_reaching (tm_host tm)
    (v <{ li_timers ::= delete t }> <{ li_timerOf ::= delete (tm_host tm) }>)). intros w Hw.
  pose proof (onward_controller (tm_host tm) _ _ Hw) as Hc. unfold dial_again.
    destruct (new_controller (tm_host tm) w). onwards.
Qed.
Lemma onward_reconnect host w u v : onward u v → onward u (reconnectAgent host w v).
Proof.
  intros Hv. unfold reconnectAgent. pose proof (onward_controller host _ _ Hv). destruct (new_controller host v).
    onwards.
Qed.
Lemma onward_reconnectForAttach host u v : onward u v → onward u (reconnectForAttach host v).
Proof. intros Hv. pose proof onward_reconnect. unfold reconnectForAttach. onwards. Qed.
Lemma onward_fail_acq q lease holds u v : onward u v → onward u (failConnectingAcq q lease holds v).
Proof. unfold failConnectingAcq. onwards. Qed.
Lemma onward_session host ssh u v :
  onward u v → match getOrCreateSession host ssh v with Some (_, w) => onward u w | None => True end.
Proof.
  intros Hv. unfold getOrCreateSession, createSession.
  destruct (session_of host _); [destruct (bool_decide _); [done|]|]; destruct (quitting v); onwards.
Qed.
End reaches.
#[export] Hint Resolve onward_timer onward_reconnect onward_reconnectForAttach onward_fail_acq : link.

Section spawns.
Context `{!Setup} {Sc Ou : Type} `{!Screens Sc, !Outputs Ou} `{!Hosts}.
Notation Link := (Link Sc Ou).
Implicit Types (l u v : Link) (host : HostId).

Lemma onward_not_spawned n u v : onward u v → onward u (not_spawned n v).
Proof. unfold not_spawned. onwards. Qed.
Lemma onward_spawn_ready n host session a lease u v : onward u v → onward u (spawn_ready n host session a lease v).
Proof.
  pose proof onward_not_spawned. intros Hv. unfold spawn_ready. destruct (h_waits _ !! n) as [[]|]; try done.
  destruct (js_has _ _); [destruct (asked n) as [[[? ?] ?] ?]; onwards|]. cbv zeta.
  match goal with |- context [let '(kept, l) := ?x in _] => assert (onward u x.2) as Hx end.
  { destruct lease as [[lease q]|]; [|done].
    pose proof (onward_release lease (holds_session host session v) _ _ Hv). by destruct (release_lease _ _ _). }
  revert Hx. match goal with |- context [let '(kept, l) := ?x in _] => destruct x as [kept w] end. cbn. onwards.
Qed.
Lemma onward_settle host session never u v : onward u v → onward u (settleFailedConnect host session never v).
Proof. unfold settleFailedConnect. onwards. Qed.
Lemma onward_dial_fails host f u v : onward u v → onward u (dial_fails host f v).
Proof. pose proof onward_not_spawned. pose proof onward_settle. unfold dial_fails. onwards. Qed.
Lemma onward_leads n c host u v : onward u v → onward u (spawn_leads n c host v).
Proof.
  pose proof onward_not_spawned. pose proof onward_dial_fails. intros Hv. unfold spawn_leads.
  destruct (Acquisition.acquire host c _) as [[q lease] acq]. cbv zeta.
  assert (onward u (v <{ li_acq := acq }>)) as Hw by onwards. revert Hw. generalize (v <{ li_acq := acq }>).
    intros w Hw.
  pose proof (onward_session host true _ _ Hw) as Hs. destruct (getOrCreateSession host true w) as [[]|]; onwards.
Qed.
Lemma onward_reach_for n c host u v : onward u v → onward u (reach_for_spawn n c host v).
Proof.
  pose proof onward_not_spawned. pose proof onward_spawn_ready. pose proof onward_leads. intros Hv.
    unfold reach_for_spawn.
  pose proof (onward_session host (host_is_ssh host) _ _ Hv) as Hs.
  destruct (getOrCreateSession host _ v) as [[]|]; onwards.
Qed.
End spawns.
#[export] Hint Resolve onward_not_spawned onward_spawn_ready onward_settle onward_dial_fails onward_reach_for : link.

Section outcomes.
Context `{!Setup} {Sc Ou : Type} `{!Screens Sc, !Outputs Ou} `{!Hosts}.
Notation Link := (Link Sc Ou).
Implicit Types (l u v : Link) (host : HostId).

Lemma onward_stale host f u v : onward u v → onward u (dial_stale host f v).
Proof. unfold dial_stale. onwards. Qed.
Lemma onward_adopt host a u v : onward u v → onward u (adopt host a v).1.
Proof. intros Hv. unfold adopt. destruct (quitting v); [done|]. destruct (stopping host v); onwards. Qed.
Lemma onward_not_adopted host f u v : onward u v → onward u (not_adopted host f v).
Proof. unfold not_adopted. onwards. Qed.
Lemma onward_adopted host f a by_ u v : onward u v → onward u (adopted host f a by_ v).
Proof. intros Hv. unfold adopted. cbv zeta. destruct f; onwards. Qed.
Lemma onward_not_acquired host f a u v : onward u v → onward u (not_acquired host f a v).
Proof. unfold not_acquired. onwards. Qed.
Lemma onward_close_acq host u v : onward u v → onward u (closeAcquisition host v).
Proof. unfold closeAcquisition. onwards. Qed.
Lemma onward_opened d dl o u v : onward u v → onward u (opened d dl o v).
Proof.
  pose proof onward_stale. pose proof onward_not_adopted. pose proof onward_adopted. pose proof onward_not_acquired.
  intros Hv. unfold opened, taken. cbv zeta. set (a := length (li_agents v)).
  match goal with |- context [on_hub (Up a) ?x] => assert (onward u (on_hub (Up a) x)) as Hw by onwards;
    revert Hw; generalize (on_hub (Up a) x) end.
  intros w Hw. destruct (_ || _); [onwards|].
  assert (onward u (on_hub (SessionIs (di_host dl) (session_of_dial (di_for dl)) active) w)) as Hx by onwards.
    revert Hx.
  generalize (on_hub (SessionIs (di_host dl) (session_of_dial (di_for dl)) active) w). intros x Hx.
  pose proof (onward_adopt (di_host dl) a _ _ Hx) as Hy. destruct (adopt (di_host dl) a x) as [y ok]. cbn in Hy.
    onwards.
Qed.
Lemma onward_states d states u v : onward u v → onward u (states_come d states v).
Proof.
  intros Hv. unfold states_come. destruct (li_dials v !! d) as [[host f [|a w]]|]; try done. cbv zeta.
    apply onward_adopted. onwards.
Qed.
Lemma onward_follows i u v : onward u v → onward u (follows i v).
Proof. intros Hv. unfold follows. onwards. Qed.
Lemma onward_lease_over i u v : onward u v → onward u (lease_over i v).
Proof. intros Hv. unfold lease_over. onwards. Qed.
End outcomes.
#[export] Hint Resolve onward_close_acq onward_opened onward_states onward_follows onward_lease_over : link.

Section requests.
Context `{!Setup} {Sc Ou : Type} `{!Screens Sc, !Outputs Ou} `{!Hosts}.
Notation Link := (Link Sc Ou).
Implicit Types (l u v : Link) (host : HostId).

Lemma onward_request_leads c host u v : onward u v → onward u (request_leads c host v).
Proof.
  intros Hv. unfold request_leads. destruct (Acquisition.acquire host c _) as [[q lease] acq]. cbv zeta.
  assert (onward u (v <{ li_acq := acq }>)) as Hx by onwards. revert Hx. generalize (v <{ li_acq := acq }>).
    intros x Hx.
  pose proof (onward_session host true _ _ Hx) as Hs. destruct (getOrCreateSession host true x) as [[]|]; onwards.
Qed.
Lemma onward_request c host u v : onward u v → onward u (reachHostOnRequest c host v).
Proof. pose proof onward_request_leads. intros Hv. unfold reachHostOnRequest. onwards. Qed.
Lemma onward_letGo host a u v : onward u v → onward u (letGoOfConnection host a v).
Proof. unfold letGoOfConnection. onwards. Qed.
Lemma onward_dropConnection host a u v : onward u v → onward u (dropConnection host a v).
Proof. pose proof onward_letGo. unfold dropConnection. onwards. Qed.
Lemma onward_endHost host reason u v : onward u v → onward u (endHostSession host reason v).
Proof. pose proof onward_letGo. intros Hv. unfold endHostSession. onwards. Qed.
Lemma onward_connect c host u v : onward u v → onward u (connectHost c host v).2.
Proof.
  pose proof onward_request. intros Hv. unfold connectHost, askServerAgain. destruct (refused host v); [done|].
    destruct (up host v); onwards.
Qed.
Lemma onward_reconnectHost c host force u v : onward u v → onward u (reconnectHost c host force v).2.
Proof.
  pose proof onward_request. pose proof onward_dropConnection. pose proof onward_endHost. intros Hv.
  unfold reconnectHost, askServerAgain, interruptOn. destruct (refused host v); [done|]. cbv zeta.
  destruct (wouldStop _ _ _); [done|]. cbn [snd]. onwards.
Qed.
Lemma onward_disconnectHost host force u v : onward u v → onward u (disconnectHost host force v).2.
Proof.
  pose proof onward_dropConnection. pose proof onward_endHost. intros Hv.
  unfold disconnectHost, interruptOn. destruct (refused host v); [done|]. cbv zeta. destruct (wouldStop _ _ _); [done|].
  match goal with |- context [session_of host (li_hub ?x)] => assert (onward u x) as Hx by (destruct (_ <? _); onwards);
    revert Hx; generalize x end. intros w Hw.
  destruct (session_of host _), (h_agents (li_hub w) !! host), (acquisition host w); cbn [snd]; onwards.
Qed.
Lemma onward_closeSession session force u v : onward u v → onward u (closeSession session force v).2.
Proof.
  intros Hv. unfold closeSession, interruptOn. cbv zeta. destruct (match _ with Some _ => _ | None => _ end); [done|].
  destruct (_ && negb force); [done|].
  match goal with |- context [find (λ h, current h session ?x)] => assert (onward u x) as Hx by onwards; revert Hx;
    generalize x end.
  intros w Hw. destruct (find _ _); [|done]. cbn [snd]. onwards.
Qed.
Lemma onward_displaced a u v : onward u v → onward u (agent_displaced a v).
Proof. pose proof onward_letGo. unfold agent_displaced. onwards. Qed.
End requests.
#[export] Hint Resolve onward_connect onward_reconnectHost onward_disconnectHost onward_closeSession onward_displaced
  : link.

Section ends.
Context `{!Setup} {Sc Ou : Type} `{!Screens Sc, !Outputs Ou} `{!Hosts}.
Notation Link := (Link Sc Ou).
Notation Hub := (StateBroadcaster.Hub Sc Ou Wait).
Implicit Types (l u v : Link) (host : HostId).

(** A session's state changes, its id does not. *)
Lemma session_id_status k host session status (h : Hub) :
  ss_id <$> session_of k (updateSessionStatus host session status h) = ss_id <$> session_of k h.
Proof.
  assert (∀ (w : Hub) m, ss_id <$> session_of k (broadcastToAllClients m w) = ss_id <$> session_of k w) as Hb.
  { intros w m. unfold session_of, broadcastToAllClients. f_equal.
    by rewrite (told_field h_sessions), (told_field h_sessionObjs) by done. }
  unfold updateSessionStatus. rewrite Hb. destruct (h_sessions h !! host) as [r|]; [|done].
  change (ss_id <$> (h_sessions h !! k ≫= λ q, alter (λ s, if decide (ss_id s = session) then MkSession (ss_id s)
    (ss_hostId s) status else s) r
            (h_sessionObjs h) !! q) = ss_id <$> (h_sessions h !! k ≫= λ q, h_sessionObjs h !! q)).
  destruct (h_sessions h !! k) as [q|]; [|done]. cbn. destruct (decide (q = r)) as [->|Hq].
  - rewrite list_lookup_alter, decide_True by done. destruct (h_sessionObjs h !! r) as [s|]; [|done]. cbn.
    by destruct (decide _).
  - by rewrite list_lookup_alter, decide_False by congruence.
Qed.
(** Whether the end of a connection, after it, has the hub reach for the host. *)
Definition reaches_again host (a : nat) (h w : Hub) : bool :=
  negb (h_quitting h && bool_decide (host ∈ h_stopping h)) && bool_decide (h_agents h !! host = Some a) &&
  bool_decide (is_Some (session_of host h)) && host_is_ssh host &&
  negb (h_quitting w || bool_decide (host ∈ h_userDisconnected w ∨ host ∈ h_stopping w)).
Lemma reconnecting_closed host a (h : Hub) :
  h_reconnecting (agent_closed host a true h)
  = if reaches_again host a h (agent_closed host a true h) then set_add host (h_reconnecting h) else h_reconnecting h.
Proof.
  unfold reaches_again, agent_closed. destruct (_ && bool_decide (host ∈ h_stopping h)); [done|].
  destruct (bool_decide (h_agents h !! host = Some a)); [|done]. cbv zeta.
  change (session_of host (h <{ h_agents ::= delete host }>)) with (session_of host h).
  destruct (session_of host h) as [s|] eqn:Hs; [|done]. rewrite (bool_decide_eq_true_2 (is_Some (Some s))) by eauto.
    cbn [negb andb].
  set (w := updateSessionStatus host (ss_id s) disconnected _).
  assert (h_reconnecting w = h_reconnecting h) as Hw.
  { exact (reconnecting_calm _ _ (calm_session host (ss_id s) disconnected _ _ (calm_refl (h <{ h_agents ::= delete
    host }>)))). }
  rewrite <- Hw. clearbody w. destruct (host_is_ssh host); [|done]. cbn [andb].
  destruct (negb _) eqn:Hq; cbn; [|by rewrite Hq]. fold (set_add host (h_reconnecting w)).
  change (negb (h_quitting w || bool_decide (host ∈ h_userDisconnected w ∨ host ∈ h_stopping w)) = true) in Hq.
    by rewrite Hq.
Qed.
Lemma closed_session_id k host a reconnects (h : Hub) :
  ss_id <$> session_of k (agent_closed host a reconnects h) = ss_id <$> session_of k h.
Proof.
  unfold agent_closed. destruct (_ && _); [done|]. destruct (bool_decide _); [|done]. cbv zeta.
  destruct (session_of host _) as [s|]; [|done]. destruct reconnects; [|done].
  set (x := updateSessionStatus _ _ _ _).
  assert (ss_id <$> session_of k x = ss_id <$> session_of k h) as Hx by (etransitivity; [apply session_id_status|done]).
  by destruct (_ && _).
Qed.
Lemma onward_agent_closes a u v : onward u v → onward u (agent_closes a v).
Proof.
  intros Hv. unfold agent_closes. destruct (li_agents v !! a) as [ag|]; [|done]. cbv zeta. set (host := ag_host ag).
  assert (onward u (on_hub (Down a) v)) as Hw by onwards. revert Hw. generalize (on_hub (Down a) v). intros w Hw.
  destruct (quitting w && stopping host w) eqn:Hq; [done|]. set (x := on_hub (AgentClosed host a true) w).
  pose proof (reconnecting_closed host a (li_hub w)) as Hr. destruct (reaches_again _ _ _ _) eqn:Hg.
  - assert (onward_but (Some host) u x) as Hx.
    { apply onward_event; [|by apply onward_weaken]. intros k Hk. cbn [ChannelLifecycle.exec].
      rewrite Hr, elem_of_set_add.
      naive_solver. }
    unfold reaches_again in Hg. rewrite !andb_true_iff, !negb_true_iff, orb_false_iff in Hg.
    destruct Hg as ((((_ & Ha) & Hs%bool_decide_eq_true_1) & Hssh) & Hq' & Hd%bool_decide_eq_false_1).
    assert (session_id host x = ss_id <$> session_of host (li_hub w)) as -> by apply closed_session_id.
    destruct Hs as [s ->]. cbn [fmap option_fmap option_map].
    assert (stopping host x = false) as Hst by (apply bool_decide_eq_false_2; intros ?; apply Hd; by right).
    rewrite Ha, Hssh, Hst. cbn [andb negb]. unfold scheduleReconnect.
    assert (user_disconnected host x = false) as -> by (apply bool_decide_eq_false_2; intros ?; apply Hd; by left).
    assert (quitting x = false) as -> by exact Hq'. rewrite Hst, Z.sub_diag. cbn [orb].
    apply onward_said, (onward_maps _ _ x); [done| |done]. intros k Hk. cbn. by rewrite js_lookup_insert_ne by done.
  - assert (onward u x) as Hx.
    { apply onward_event; [|done]. intros k _. cbn [ChannelLifecycle.exec]. by rewrite Hr. }
    clearbody x. onwards.
Qed.
End ends.
#[export] Hint Resolve onward_agent_closes : link.

Section runs.
Context `{!Setup} {Sc Ou : Type} `{!Screens Sc, !Outputs Ou} `{!Hosts}.
Notation Link := (Link Sc Ou).
Notation Hub := (StateBroadcaster.Hub Sc Ou Wait).
Implicit Types (l u v : Link) (host : HostId).

Lemma onward_fold {A} (f : Link → A → Link) xs u v :
  (∀ w x, onward u w → onward u (f w x)) → onward u v → onward u (fold_left f xs v).
Proof. intros Hf. revert v. induction xs as [|x xs IH]; intros v Hv; [done|]. simpl. auto. Qed.
Lemma onward_quit u v : onward u v → onward u (beginQuit v).
Proof.
  intros Hv. unfold beginQuit. destruct (quitting v); [done|]. cbv zeta.
  match goal with |- context [fold_left (λ l t, l <{ li_timers ::= delete t }>) ?ts ?x] =>
    assert (onward u (fold_left (λ l t, l <{ li_timers ::= delete t }>) ts x)) as Hw by (apply onward_fold;
      onwards) end.
  revert Hw. generalize (fold_left (λ l t, l <{ li_timers ::= delete t }>) (js_values (li_timerOf (on_acq
    Acquisition.beginQuit v)))
    (on_acq Acquisition.beginQuit v)). intros w Hw.
  assert (onward u (fold_left (λ l ac, abort ac l) (js_values (li_controllerOf w)) w)) as Hx by (apply onward_fold;
    onwards).
  change (li_controllerOf (w <{ li_timerOf := ∅ }>)) with (li_controllerOf w).
  assert (∀ acs x, fold_left (λ l ac, abort ac l) acs (x <{ li_timerOf := ∅ }>) = fold_left (λ l ac,
    abort ac l) acs x <{ li_timerOf := ∅ }>)
    as -> by (intros acs; induction acs as [|ac acs IH]; intros x; [done|]; exact (IH (abort ac x))).
  revert Hx. generalize (fold_left (λ l ac, abort ac l) (js_values (li_controllerOf w)) w). intros x [(es & H1) _].
    split.
  - exists (es ++ [(h_now (li_hub x), Quit)]). rewrite run_app, <- H1, <- exec_runs. done.
  - intros _ k _. cbn. unfold reaching. split; [intros []%elem_of_nil|done].
Qed.
Lemma onward_reach_one n u v : onward u v → onward u (reach_one v n).
Proof. intros Hv. unfold reach_one. onwards. Qed.
Lemma onward_goes_on n u v : onward u v → onward u (goes_on v n).
Proof.
  pose proof onward_reach_one. intros Hv. unfold goes_on. destruct (h_waits _ !! n) as [[]|]; auto.
  apply onward_fold; [auto|]. onwards.
Qed.
Lemma onward_hub_event e u v :
  reconnects_same e = true ∨ (∃ host a r, e = AgentClosed host a r ∧ host_is_ssh host = false) →
  onward u v → onward u (hub_event e v).
Proof.
  intros He Hv. unfold hub_event. apply onward_fold; [intros; by apply onward_goes_on|].
  apply onward_event; [|done]. intros k _. destruct He as [He|(host & a & r & -> & Hssh)];
    [by rewrite reconnecting_exec|].
  cbn [ChannelLifecycle.exec]. destruct r.
  - rewrite reconnecting_closed. unfold reaches_again. by rewrite Hssh, andb_false_r.
  - unfold agent_closed. destruct (_ && _); [done|]. destruct (bool_decide _); [|done]. cbv zeta.
    by destruct (session_of _ _).
Qed.
Lemma onward_exec e u v : onward u v → onward u (exec e v).
Proof.
  intros Hv. destruct e; cbn [exec]; try (by onwards); [|by apply onward_quit].
  destruct (of_the_hub e v) eqn:He; [|done].
  destruct e; try (by apply onward_hub_event; [left|]); try done; [by apply onward_close|].
  apply onward_hub_event; [right|done]. cbn in He. rewrite andb_true_iff, negb_true_iff in He. naive_solver.
Qed.
(** An event that only lets the time pass. *)
Lemma onward_passes ms u v : onward u v → onward u (passes ms v).
Proof.
  intros [(es & H1) H2]. split; [|done].
  set (x := fresh (h_connected (li_hub v))).
  exists (es ++ [((h_now (li_hub v) + Z.of_N ms)%Z, Down x)]). rewrite run_app, <- H1.
  assert (set_delete x (h_connected (li_hub v)) = h_connected (li_hub v)) as Hx.
  { unfold set_delete. pose proof (infinite_is_fresh (h_connected (li_hub v))) as Hf. fold x in Hf. clearbody x.
    revert Hf.
    induction (h_connected (li_hub v)) as [|y ys IH]; [done|]. intros [Hy Hf]%not_elem_of_cons.
    rewrite filter_cons_True by congruence. by rewrite IH. }
  transitivity (li_hub v <{ h_now := (h_now (li_hub v) + Z.of_N ms)%Z }> <{ h_connected := set_delete x (h_connected
    (li_hub v)) }>);
    [|done]. rewrite Hx. by destruct v as [[]].
Qed.

(** The copy [ChannelLifecycle] keeps of what reaches for hosts is true: whatever happens, by a window, by a
    timer, by a restart or by none, [h_reconnecting] holds the hosts a timer or a controller is held for,
    which is what [hostReconnecting] reads of the two maps; and the hub is that of a run there. *)
Theorem link_refines_lifecycle (h : Hub) (es : list (N * Ev)) :
  h_reconnecting h = [] →
  (∃ es', li_hub (run step (started h) es) = run ChannelLifecycle.step h es') ∧
  (∀ host, host ∈ h_reconnecting (li_hub (run step (started h) es)) ↔ reaching host (run step (started h) es) = true).
Proof.
  intros Hh. assert (onward (started h) (run step (started h) es)) as [H1 H2].
  { induction es as [|e es IH] using rev_ind; [apply onward_refl|]. rewrite run_app. cbn. unfold step.
    by apply onward_exec, onward_passes. }
  split; [exact H1|]. intros host. apply H2; [|done]. intros k _. cbn. rewrite Hh. split; [intros []%elem_of_nil|done].
Qed.
End runs.

#[local] Existing Instance hl_setup.
#[local] Existing Instance hl_hosts.
Lemma link_refines_lifecycle_witness :
  (∃ es', li_hub (hl_run hl_leak) = run ChannelLifecycle.step hl_hub es') ∧
  ("kept"%string ∈ h_reconnecting (li_hub (hl_run hl_leak)) ↔ reaching "kept"%string (hl_run hl_leak) = true).
Proof. destruct (link_refines_lifecycle hl_hub hl_leak eq_refl) as [H1 H2]. split; [exact H1|apply H2]. Defined.
