(* ===== verification/HostQuiet.v ===== *)
(** * What leaves a host the user disconnected alone

    [quiet K P]: of a host [K] flagged disconnected that nothing reaches for, no timer, no controller, no
    acquisition, nothing comes to reach; it is given no agent and no dial of it starts; provided [P],
    which names what it is that an operation must not do to it. With it, the retries of every host keep
    within their time. One lemma per operation of [HostLink], gathered in the hint database [quiet]. *)

From Stdlib Require Import ZArith.
From S2P Require Import Prelude JsMap Acquisition ChannelData ChannelTrackers StateBroadcaster ChannelLifecycle ChannelChanges ChannelOps HostWires HostLink HostLinkRuns.
#[local] Open Scope lasterm_scope.

Create HintDb quiet.

(** ** Of the hub *)
Section hub.
Context `{!Setup} {Sc Ou : Type} `{!Screens Sc, !Outputs Ou}.
Notation Hub := (StateBroadcaster.Hub Sc Ou Wait).
Implicit Types (h u v : Hub) (host : HostId).

(** No host is flagged, and [K] is given no agent; nothing new waits on a host. *)
Record gentle (K : HostId) u v : Prop := {
  ge_now : h_now v = h_now u;
  ge_flag : K ∈ h_userDisconnected v → K ∈ h_userDisconnected u;
  ge_agent a : h_agents v !! K = Some a → h_agents u !! K = Some a;
  ge_wants n w : h_waits v !! n = Some w → wants w = true → h_waits u !! n = Some w
}.
Lemma gentle_refl K u : gentle K u u.
Proof. by split. Qed.
Lemma gentle_calm K u v w : calm v w → gentle K u v → gentle K u w.
Proof. intros [[= H1 H2 H3 _] H4] [H5 H6 H7 H8]. split; [by rewrite H1|by rewrite H3|by rewrite H2|by eauto]. Qed.
(** The agents of the others, the flags, or what the hub says. *)
Lemma gentle_field K u v w :
  h_now w = h_now v → (∀ a, h_agents w !! K = Some a → h_agents v !! K = Some a) →
  (K ∈ h_userDisconnected w → K ∈ h_userDisconnected v) → h_waits w = h_waits v → gentle K u v → gentle K u w.
Proof. intros H1 H2 H3 H4 [H5 H6 H7 H8]. split; [by rewrite H1|by auto|by auto|by rewrite H4]. Qed.
Lemma gentle_drop_agent K host u v : gentle K u v → gentle K u (v <{ h_agents ::= delete host }>).
Proof. apply gentle_field; try done. intros a. cbn. rewrite js_lookup_delete. by destruct (decide _). Qed.
Lemma gentle_adopt K host a u v : host ≠ K → gentle K u v → gentle K u (v <{ h_agents ::= <[host := a]> }>).
Proof. intros Hh. apply gentle_field; try done. intros b. cbn. by rewrite js_lookup_insert_ne. Qed.
End hub.

Section events.
Context `{!Setup} {Sc Ou : Type} `{!Screens Sc, !Outputs Ou}.
Notation Hub := (StateBroadcaster.Hub Sc Ou Wait).
Implicit Types (h u v : Hub) (host : HostId).

(** The events that are [gentle] to [K]. *)
Definition spares (K : HostId) (e : ChannelLifecycle.Ev) h : Prop :=
  match e with
  | SpawnGoes _ | Restart _ | RestartGoes _ => False
  | UserDisconnects host | Adopt host _ => host ≠ K
  | States_ n _ => match h_waits h !! n with Some (w_states host _ _ (attaching _)) => host ≠ K | _ => True end
  | _ => True
  end.
Lemma gentle_userActs K host u v : gentle K u v → gentle K u (userActsOnHost host v).
Proof.
  intros Hv. unfold userActsOnHost. destruct (decide _); [|done].
  apply (gentle_calm _ _ (v <{ h_userDisconnected ::= set_delete host }>)); [calms|]. revert Hv.
    apply gentle_field; try done.
  cbn. by intros [_ ?]%elem_of_set_delete.
Qed.
Lemma gentle_exec K e h : spares K e h → gentle K h (ChannelLifecycle.exec e h).
Proof.
  intros He. pose proof (gentle_refl K h) as Hr. destruct (is_calm e) eqn:Hc; [by apply (gentle_calm _ _ h);
    [apply calm_exec|]|].
  destruct e; try done; cbn [ChannelLifecycle.exec spares] in *.
  - unfold ChannelLifecycle.closeSession.
    match goal with |- gentle _ _ (set_field _ _ ?w) => apply (gentle_field _ _ w); try done end.
    apply (gentle_calm _ _ (h <{ h_reconnecting ::= set_delete host }>)); [|by revert Hr; apply gentle_field].
    apply calm_session, calm_end_all; calms.
  - revert Hr. apply gentle_field; try done. cbn. rewrite elem_of_set_add. naive_solver.
  - destruct announce; [by apply gentle_userActs|]. revert Hr. apply gentle_field; try done. cbn.
    by intros [_ ?]%elem_of_set_delete.
  - by apply gentle_drop_agent.
  - unfold adoptAgent. destruct (_ || _); [done|]. by apply gentle_adopt.
  - unfold agent_closed. destruct (_ && _); [done|]. destruct (bool_decide _); [|done]. cbv zeta.
    pose proof (gentle_drop_agent _ host _ _ Hr) as Hd. destruct (session_of host _) as [s|]; [|done].
      destruct reconnects; [|done].
    match goal with |- gentle _ _ (if _ then set_field _ _ ?w else _) => assert (gentle K h w) as Hw by (by apply
      (gentle_calm _ _ (h <{ h_agents ::= delete host }>)); [calms|]) end.
    destruct (_ && _); [|done]. by revert Hw; apply gentle_field.
  - unfold dropDisplacedConnection. destruct (bool_decide _); [|done]. cbv zeta.
    pose proof (gentle_drop_agent _ host _ _ Hr) as Hd. destruct (h_quitting _); [done|].
    by apply (gentle_calm _ _ (h <{ h_agents ::= delete host }>)); [calms|].
  - destruct (h_waits h !! n) as [[]|] eqn:Hn; try done. unfold states_answered, adoptAgent. cbv zeta. destruct for_.
    + apply (gentle_calm _ _ h); [|done]. destruct (_ && _); calms.
    + destruct (h_quitting _); [by apply (gentle_calm _ _ h); [calms|]|].
      match goal with |- gentle _ _ (match (if _ then None else Some (set_field _ _ ?w)) with _ => _ end) =>
        assert (gentle K h w) as Hw by (apply (gentle_calm _ _ h); [calms|done]); revert Hw; generalize w end.
      intros w Hw. destruct (_ || _); [done|].
      match goal with |- gentle _ _ (agentMayBeIdle _ (updateSessionStatus _ _ _ ?x)) => apply (gentle_calm _ _ x);
        [calms|] end.
      by apply gentle_adopt.
Qed.
End events.

(** ** Of the acquisitions *)
Section acquisitions.
Implicit Types (c : Acquisition.Ctx).
Definition untaken (K : HostId) c c' : Prop := acquisitions c !! K = None → acquisitions c' !! K = None.
Lemma untaken_drop K host q c : untaken K c (drop_current host q c).
Proof. unfold untaken. rewrite lookup_drop_current. by case_decide. Qed.
Lemma untaken_fail K q err c : untaken K c (Acquisition.fail q err c).
Proof. unfold Acquisition.fail. destruct (acqs c !! q); [|exact id]. apply (untaken_drop K _ _ (with_acqs _ c)). Qed.
Lemma untaken_commit K q session c : untaken K c (Acquisition.commit q session c).
Proof. unfold Acquisition.commit. destruct (acqs c !! q); [|exact id]. apply untaken_drop. Qed.
Lemma untaken_close_acq K q host err c : untaken K c (close_acq q host err c).
Proof. apply (untaken_drop K _ _ (with_acqs _ c)). Qed.
Lemma untaken_close K host c : untaken K c (Acquisition.close host c).2.
Proof. unfold Acquisition.close. destruct (acquisitions c !! host); [apply untaken_close_acq|exact id]. Qed.
Lemma closed_untaken host c : acquisitions (Acquisition.close host c).2 !! host = None.
Proof.
  unfold Acquisition.close. destruct (acquisitions c !! host) eqn:Hq; [|done]. cbn. unfold close_acq. cbn.
  rewrite lookup_drop_current. by rewrite decide_True.
Qed.
Lemma untaken_release K lease holds c : untaken K c (Acquisition.release lease holds c).2.
Proof.
  unfold Acquisition.release. destruct (leaseObjs c !! lease) as [o|]; [|exact id].
    destruct (released o); [exact id|]. cbv zeta.
  destruct (negb _); [exact id|]. destruct (_ && _); [|exact id].
    apply (untaken_close_acq K _ _ _ (with_acqs _ (mark_released _ _ c))).
Qed.
Lemma untaken_join K q client c lease c' : Acquisition.join q client c = Some (lease, c') → untaken K c c'.
Proof. unfold Acquisition.join. destruct (acqs c !! q) as [a|]; [|done].
  destruct (Acquisition.state a); intros [= <- <-]; exact id. Qed.
Lemma untaken_acquire K host client c : host ≠ K → untaken K c (Acquisition.acquire host client c).2.
Proof. intros Hh Hc. cbn. by rewrite js_lookup_insert_ne. Qed.
Lemma untaken_quit K c : untaken K c (Acquisition.beginQuit c).
Proof. unfold Acquisition.beginQuit. destruct (Acquisition.quitting c); [exact id|done]. Qed.
End acquisitions.

(** ** Of a retry *)

(** The time the tries before this one waited, at least. *)
Fixpoint waited (attempt : nat) : Z := match attempt with 0%nat => 0 | S n => waited n + backoff n end.
(** A try still waiting: it was put off after those before it, within the time there is. *)
Definition in_time (now : Z) (tm : Timer) : Prop :=
  let set := (tm_due tm - backoff (tm_attempt tm))%Z in
  (tm_start tm + waited (tm_attempt tm) <= set /\ set < tm_start tm + RECONNECT_TIMEOUT_MS /\ set <= now)%Z.
(** One under way: all those waits are over. *)
Definition tried (now : Z) (f : DialFor) : Prop :=
  match f with
  | for_retry _ attempt start _ => (start + waited (S attempt) <= now /\ waited attempt < RECONNECT_TIMEOUT_MS)%Z
  | _ => True
  end.

Section quiet.
Context `{!Setup} {Sc Ou : Type} `{!Screens Sc, !Outputs Ou} `{!Hosts}.
Notation Link := (Link Sc Ou).
Implicit Types (l u v : Link) (host : HostId).

Record timed l : Prop := {
  ti_timers t tm : li_timers l !! t = Some tm → in_time (now l) tm;
  ti_dials d dl : li_dials l !! d = Some dl → tried (now l) (di_for dl)
}.
Definition flagged (K : HostId) l : Prop := K ∈ h_userDisconnected (li_hub l).
(** Nothing reaches for [K]. *)
Record inert (K : HostId) l : Prop := {
  in_timer : li_timerOf l !! K = None; in_controller : li_controllerOf l !! K = None; in_acq : acquisition K l = None
}.
(** [K] is given no agent, and no dial of it starts. *)
Record untouched (K : HostId) u v : Prop := {
  un_agent a : h_agents (li_hub v) !! K = Some a → h_agents (li_hub u) !! K = Some a;
  un_dial d dl : li_dials v !! d = Some dl → di_host dl = K → li_dials u !! d = Some dl
}.
Record quiet0 (K : HostId) (P T : Prop) u v : Prop := {
  q_now : now v = now u;
  q_flag : flagged K v → flagged K u;
  q_inert : P → flagged K v → inert K u → inert K v ∧ untouched K u v;
  q_timed : T → timed u → timed v
}.
Record quiet (K : HostId) (P T : Prop) u v : Prop := {
  q_quiet0 : quiet0 K P T u v;
  q_wants n w : h_waits (li_hub v) !! n = Some w → wants w = true → h_waits (li_hub u) !! n = Some w
}.
Lemma quiet0_refl K P T u : quiet0 K P T u u.
Proof. by split. Qed.
Lemma quiet_refl K P T u : quiet K P T u u.
Proof. by split; [apply quiet0_refl|]. Qed.
Lemma quiet0_trans K P T u v w : quiet0 K P T u v → quiet0 K P T v w → quiet0 K P T u w.
Proof.
  intros [A1 A2 A3 A4] [B1 B2 B3 B4]. split; [congruence|by auto| |by auto]. intros HP Hf Hu.
  destruct (A3 HP (B2 Hf) Hu) as [Hv [H1 H2]]. destruct (B3 HP Hf Hv) as [Hw [H3 H4]]. split; [done|]. split; eauto.
Qed.
(** What an operation must not do to [K] matters only while [K] is flagged, and inert before. *)
Lemma quiet0_if K P T u v : quiet0 K (P ∧ flagged K v ∧ inert K u) T u v → quiet0 K P T u v.
Proof. intros [A1 A2 A3 A4]. split; try done. intros HP Hf Hu. by apply A3. Qed.
Lemma quiet_if K P T u v : quiet K (P ∧ flagged K v ∧ inert K u) T u v → quiet K P T u v.
Proof. intros [A B]. split; [by apply quiet0_if|done]. Qed.
(** What is done for [host], unless it is [K], and flagged. *)
Lemma quiet_act K P T (fact : Link → Prop) host (op : Link → Link) u v :
  (∀ Q R w, (Q → host ≠ K) → (R → fact w) → quiet K Q R w v → quiet K Q R w (op v)) →
  (P → inert K u → flagged K v → inert K v → host ≠ K) → (T → fact u) → quiet K P T u v → quiet K P T u (op v).
Proof.
  intros Hop Hhost Ht Hv. apply quiet_if, Hop; [|done|].
  - intros (HP & Hf & Hu).
    assert (quiet K False False v (op v)) as [[_ Hfl _ _] _] by (by apply Hop; [| |apply quiet_refl]).
    apply Hhost; [done|done|by apply Hfl|]. apply Hv; [done|by apply Hfl|done].
  - destruct Hv as [[A1 A2 A3 A4] B]. split; [|done]. split; [done..| |done]. intros (HP & _ & _). by apply A3.
Qed.
End quiet.

Section changes.
Context `{!Setup} {Sc Ou : Type} `{!Screens Sc, !Outputs Ou} `{!Hosts}.
Notation Link := (Link Sc Ou).
Implicit Types (l u v : Link) (host : HostId).

(** Something else than the hub. *)
Lemma quiet_link K P T u v w :
  li_hub w = li_hub v → (P → flagged K v → inert K v → inert K w) →
  (∀ d dl, li_dials w !! d = Some dl → li_dials v !! d = Some dl ∨ (P → di_host dl ≠ K) ∧ (T → timed u →
    tried (now u) (di_for dl))) →
  (∀ t tm, li_timers w !! t = Some tm → li_timers v !! t = Some tm ∨ (T → timed u → in_time (now u) tm)) →
  quiet K P T u v → quiet K P T u w.
Proof.
  intros H1 H2 H3 H4 [[A1 A2 A3 A4] B].
  assert (flagged K w → flagged K v) as Hf by (unfold flagged; by rewrite H1).
  assert (now w = now v) as Hn by (unfold now; by rewrite H1).
  split; [|by rewrite H1]. split; [congruence|by auto| |].
  - intros HP Hw Hu. destruct (A3 HP (Hf Hw) Hu) as [Hi [C1 C2]]. split; [by auto|]. split; [by rewrite H1|].
    intros d dl Hd Hk. destruct (H3 _ _ Hd) as [?|[Hne _]]; [by apply C2|]. by destruct (Hne HP).
  - intros HT Hu. pose proof (A4 HT Hu) as Hv. pose proof Hv as [D1 D2]. split; rewrite Hn.
    + intros t tm Ht. destruct (H4 _ _ Ht) as [?|?]; [by eapply D1|rewrite A1; by auto].
    + intros d dl Hd. destruct (H3 _ _ Hd) as [?|[_ ?]]; [by eapply D2|rewrite A1; by auto].
Qed.
Lemma inert_same K (v w : Link) :
  li_timerOf w = li_timerOf v → li_controllerOf w = li_controllerOf v → untaken K (li_acq v) (li_acq w) → inert K v →
    inert K w.
Proof. intros H1 H2 H3 [A B C]. split; [by rewrite H1|by rewrite H2|by apply H3]. Qed.
Lemma untaken_same K (v w : Link) : li_acq w = li_acq v → untaken K (li_acq v) (li_acq w).
Proof. intros ->. exact id. Qed.
Lemma quiet_same K P T u v w :
  li_hub w = li_hub v → li_timers w = li_timers v → li_timerOf w = li_timerOf v →
    li_controllerOf w = li_controllerOf v →
  li_acq w = li_acq v → li_dials w = li_dials v → quiet K P T u v → quiet K P T u w.
Proof.
  intros H1 H2 H3 H4 H5 H6. apply quiet_link; [done| |rewrite H6; by left|rewrite H2; by left].
  intros _ _. by apply inert_same, untaken_same.
Qed.
Lemma quiet_acq K P T u v f : untaken K (li_acq v) (f (li_acq v)) → quiet K P T u v → quiet K P T u (on_acq f v).
Proof. intros Hf. apply quiet_link; [done| |by left..]. intros _ _. by apply inert_same. Qed.
(** An event of the hub. *)
Lemma quiet_hub K P T u v w :
  li_timers w = li_timers v → li_timerOf w = li_timerOf v → li_controllerOf w = li_controllerOf v →
    li_acq w = li_acq v →
  li_dials w = li_dials v → h_now (li_hub w) = h_now (li_hub v) → (flagged K w → flagged K v) →
  (P → ∀ a, h_agents (li_hub w) !! K = Some a → h_agents (li_hub v) !! K = Some a) →
  (∀ n x, h_waits (li_hub w) !! n = Some x → wants x = true → h_waits (li_hub v) !! n = Some x) →
  quiet K P T u v → quiet K P T u w.
Proof.
  intros H1 H2 H3 H4 H5 H6 H7 H8 H9 [[A1 A2 A3 A4] B]. assert (now w = now v) as Hn by done. split; [|by eauto].
  split; [congruence|by auto| |].
  - intros HP Hw Hu. destruct (A3 HP (H7 Hw) Hu) as [Hi [C1 C2]]. split; [|split; [by eauto|by rewrite H5]].
    revert Hi. by apply inert_same, untaken_same.
  - intros HT Hu. destruct (A4 HT Hu) as [D1 D2]. by split; rewrite Hn, ?H1, ?H5.
Qed.
Lemma quiet_gentle K P T e u v : gentle K (li_hub v) (ChannelLifecycle.exec e (li_hub v)) → quiet K P T u v →
  quiet K P T u (on_hub e v).
Proof. intros [H1 H2 H3 H4]. by apply quiet_hub. Qed.
Lemma quiet_on_hub K P T e u v : spares K e (li_hub v) → quiet K P T u v → quiet K P T u (on_hub e v).
Proof. intros He. by apply quiet_gentle, gentle_exec. Qed.
Lemma quiet_adopt_event K P T host a u v : (P → host ≠ K) → quiet K P T u v → quiet K P T u (on_hub (Adopt host a) v).
Proof.
  intros Hh. cbn. apply quiet_hub; try done; unfold flagged; rewrite hub_on; cbn; unfold ChannelLifecycle.adoptAgent;
    destruct (_ || _); try done.
  intros HP b. cbn. by rewrite js_lookup_insert_ne by auto.
Qed.
Lemma quiet_push K P T d u v :
  (P → di_host d ≠ K) → (T → timed u → tried (now u) (di_for d)) → quiet K P T u v → quiet K P T u (push_dial d v).
Proof.
  intros Hd Ht. apply quiet_link; [done|intros _ _; by apply inert_same, untaken_same|  |by left].
  intros d' dl. cbn. rewrite js_lookup_insert. destruct (decide _); [intros [= <-]; by right|by left].
Qed.
Lemma quiet_fold {A} K P T (f : Link → A → Link) xs u v :
  (∀ w x, quiet K P T u w → quiet K P T u (f w x)) → quiet K P T u v → quiet K P T u (fold_left f xs v).
Proof. intros Hf. revert v. induction xs as [|x xs IH]; intros v Hv; [done|]. simpl. auto. Qed.
End changes.
#[export] Hint Resolve quiet_refl I : quiet.
#[export] Hint Extern 1 (quiet _ _ _ _ (on_hub _ _)) => simple apply quiet_on_hub; [exact I|] : quiet.
#[export] Hint Extern 2 (quiet _ _ _ _ (set_field _ _ ?v)) => simple apply (quiet_same _ _ _ _ v); [generalize v;
  reflexivity..|] : quiet.
#[export] Hint Extern 3 (quiet _ _ _ _ (if ?b then _ else _)) => destruct b : quiet.
#[export] Hint Extern 3 (quiet _ _ _ _ (match ?x with _ => _ end)) => destruct x : quiet.
Ltac quiets := intros; cbv beta iota zeta delta [fst snd]; eauto 40 with quiet nocore.

Section connections.
Context `{!Setup} {Sc Ou : Type} `{!Screens Sc, !Outputs Ou} `{!Hosts} (K : HostId) (P T : Prop).
Notation Link := (Link Sc Ou).
Notation quiet := (quiet K P T).
Implicit Types (l u v : Link) (host : HostId).

Lemma quiet_said_reaching host u v : quiet u v → quiet u (said_reaching host v).
Proof. unfold said_reaching. quiets. Qed.
(** What goes out of the maps. *)
Lemma quiet_forget host u v w :
  li_hub w = li_hub v → li_dials w = li_dials v → li_acq w = li_acq v →
  (∀ t tm, li_timers w !! t = Some tm → li_timers v !! t = Some tm) →
  (li_timerOf v !! K = None → li_timerOf w !! K = None) → (li_controllerOf v !! K = None →
    li_controllerOf w !! K = None) →
  quiet u v → quiet u (said_reaching host w).
Proof.
  intros H1 H2 H3 H4 H5 H6 Hv. apply quiet_said_reaching. revert Hv.
    apply quiet_link; [done| |rewrite H2; by left|by left; auto].
  intros _ _ [A B C]. split; [by auto|by auto|]. unfold acquisition. by rewrite H3.
Qed.
Lemma quiet_cancel_timer host u v : quiet u v → quiet u (cancel_timer host v).
Proof.
  unfold cancel_timer. destruct (li_timerOf v !! host); [|done]. apply quiet_forget; try done.
  - intros t tm. cbn. rewrite js_lookup_delete. by destruct (decide _).
  - cbn. rewrite js_lookup_delete. by destruct (decide _).
Qed.
Lemma quiet_abort ac u v : quiet u v → quiet u (abort ac v).
Proof. unfold abort. quiets. Qed.
Lemma quiet_abort_controller host u v : quiet u v → quiet u (abort_controller host v).
Proof.
  unfold abort_controller. destruct (li_controllerOf v !! host); [|done]. apply quiet_forget; try done.
  cbn. rewrite js_lookup_delete. by destruct (decide _).
Qed.
Lemma quiet_cancel host u v : quiet u v → quiet u (cancelReconnect host v).
Proof. intros Hv. by apply quiet_abort_controller, quiet_cancel_timer. Qed.
Lemma quiet_controller host u v : (P → host ≠ K) → quiet u v → quiet u (new_controller host v).2.
Proof.
  intros Hh Hv. cbn. apply quiet_said_reaching.
  match goal with |- context [match li_controllerOf v !! host with Some ac => abort ac v | None => v end] =>
    assert (quiet u (match li_controllerOf v !! host with Some ac => abort ac v | None => v end)) as Hw
      by (destruct (li_controllerOf v !! host); [by apply quiet_abort|done]);
    revert Hw; generalize (match li_controllerOf v !! host with Some ac => abort ac v | None => v end) end.
  intros w. apply quiet_link; [done| |by left..]. intros HP _ [A B C]. split; [done| |done]. cbn.
  by rewrite js_lookup_insert_ne by auto.
Qed.
Lemma quiet_controller_over host ac u v : quiet u v → quiet u (controller_over host ac v).
Proof.
  unfold controller_over. destruct (bool_decide _); [|done]. apply quiet_forget; try done.
  cbn. rewrite js_lookup_delete. by destruct (decide _).
Qed.
Lemma quiet_close_session host session reason u v : quiet u v → quiet u (close_session host session reason v).
Proof. intros Hv%(quiet_cancel host). unfold close_session. quiets. Qed.
Lemma quiet_close_agent a u v : quiet u v → quiet u (close_agent a v).
Proof. unfold close_agent. quiets. Qed.
Lemma quiet_push_follower f u v : quiet u v → quiet u (push_follower f v).
Proof. unfold push_follower. quiets. Qed.
Lemma quiet_release_lease lease holds u v : quiet u v → quiet u (release_lease lease holds v).2.
Proof.
  intros Hv. unfold release_lease. pose proof (untaken_release K lease holds (li_acq v)) as Hu.
  destruct (Acquisition.release _ _ _) as [reaped c]. cbn in *. exact (quiet_acq _ _ _ u v (λ _, c) Hu Hv).
Qed.
Lemma quiet_close_acq host u v : quiet u v → quiet u (closeAcquisition host v).
Proof. apply quiet_acq, untaken_close. Qed.
Lemma quiet_fail_acq q lease holds u v : quiet u v → quiet u (failConnectingAcq q lease holds v).
Proof. intros Hv. unfold failConnectingAcq. by apply quiet_release_lease, quiet_acq; [apply untaken_fail|]. Qed.
Lemma quiet_commit q session u v : quiet u v → quiet u (on_acq (Acquisition.commit q session) v).
Proof. apply quiet_acq, untaken_commit. Qed.
End connections.
#[export] Hint Resolve quiet_cancel quiet_abort quiet_controller quiet_controller_over quiet_close_session
  quiet_close_agent
  quiet_push_follower quiet_release_lease quiet_close_acq quiet_fail_acq quiet_commit quiet_said_reaching : quiet.

Section dials.
Context `{!Setup} {Sc Ou : Type} `{!Screens Sc, !Outputs Ou} `{!Hosts} (K : HostId) (P T : Prop).
Notation Link := (Link Sc Ou).
Notation quiet := (quiet K P T).
Implicit Types (l u v : Link) (host : HostId).

(** A try is put off only for a host that is not flagged, and while there is time. *)
Lemma quiet_schedule host session attempt start u v :
  (T → timed u → start + waited attempt <= now u)%Z → quiet u v →
    quiet u (scheduleReconnect host session attempt start v).
Proof.
  intros Hw Hv. assert (now v = now u) as Hn by apply Hv. unfold scheduleReconnect. destruct (_ || _) eqn:Hq; [done|].
    destruct (Z.leb_spec RECONNECT_TIMEOUT_MS (now v - start)).
  { by apply quiet_close_session. }
  rewrite !orb_false_iff in Hq. destruct Hq as [[_ Hf%bool_decide_eq_false_1] _].
  apply quiet_said_reaching. revert Hv. apply quiet_link; [done| |by left|].
  - intros _ Hk [A B C]. split; [|done..]. cbn. rewrite js_lookup_insert_ne; [done|]. by intros ->.
  - intros t tm. cbn. rewrite js_lookup_insert. destruct (decide _); [intros [= <-]; right|by left].
    intros HT Hu. specialize (Hw HT Hu). unfold in_time. cbn. lia.
Qed.
Lemma quiet_retry host session attempt start ac u v :
  (T → timed u → tried (now u) (for_retry session attempt start ac)) → quiet u v →
  quiet u (retry_failed host session attempt start ac v).
Proof.
  intros Ht Hv. unfold retry_failed. apply quiet_controller_over. destruct (aborted ac v); [done|].
  destruct (_ <=? _)%Z; [destruct (current _ _ _); [by apply quiet_close_session|done]|]. apply quiet_schedule; [|done].
  intros HT Hu. by apply Ht.
Qed.
Lemma quiet_answer host w ok u v : quiet u v → quiet u (answer_waiter host w ok v).
Proof. unfold answer_waiter. quiets. Qed.
Lemma quiet_not_spawned n u v : quiet u v → quiet u (not_spawned n v).
Proof. unfold not_spawned. quiets. Qed.
Lemma quiet_settle host session never u v : quiet u v → quiet u (settleFailedConnect host session never v).
Proof. unfold settleFailedConnect. quiets. Qed.
End dials.
#[export] Hint Resolve quiet_answer quiet_not_spawned quiet_settle : quiet.

Section tries.
Context `{!Setup} {Sc Ou : Type} `{!Screens Sc, !Outputs Ou} `{!Hosts} (K : HostId) (P T : Prop).
Notation Link := (Link Sc Ou).
Notation quiet := (quiet K P T).
Implicit Types (l u v : Link) (host : HostId).

Lemma quiet_dial_fails host f u v :
  (T → timed u → tried (now u) f) → quiet u v → quiet u (dial_fails host f v).
Proof. intros Ht Hv. unfold dial_fails. destruct f; [by apply quiet_retry|quiets..]. Qed.
Lemma quiet_again tm u v :
  (P → tm_host tm ≠ K) → (T → timed u → in_time (now u) tm /\ (tm_due tm <= now u)%Z) → quiet u v →
    quiet u (dial_again tm v).
Proof.
  intros Hh Ht Hv. unfold dial_again. cbv zeta. set (host := tm_host tm).
  assert (∀ ac, T → timed u → tried (now u) (for_retry (tm_session tm) (tm_attempt tm) (tm_start tm) ac)) as Hf.
  { intros ac HT Hu. destruct (Ht HT Hu) as [(H1 & H2 & H3) H4]. cbn. lia. }
  pose proof (quiet_controller _ _ _ _ _ _ Hh Hv) as Hw. fold host in Hw. destruct (new_controller host v) as [ac w].
  destruct (jump_refused host); [apply quiet_retry; [apply Hf|done]|apply quiet_push; [done|apply Hf|done]].
Qed.
Lemma quiet_reconnect host w u v : (P → host ≠ K) → quiet u v → quiet u (reconnectAgent host w v).
Proof.
  intros Hh Hv. unfold reconnectAgent. destruct (_ || _); [quiets|]. destruct (up host v); [quiets|].
  destruct (acquisition host v); [quiets|]. destruct (session_id host v); [|quiets]. destruct (_ || _); [quiets|].
  pose proof (quiet_controller _ _ _ host _ _ Hh Hv). destruct (new_controller host v). by apply quiet_push.
Qed.
Lemma quiet_session host ssh u v :
  quiet u v → match getOrCreateSession host ssh v with Some (_, w) => quiet u w | None => True end.
Proof.
  intros Hv. unfold getOrCreateSession, createSession.
  destruct (session_of host _); [destruct (bool_decide _); [done|]|]; destruct (quitting v); quiets.
Qed.
Lemma quiet_spawn_ready n host session a lease u v : quiet u v → quiet u (spawn_ready n host session a lease v).
Proof.
  intros Hv. unfold spawn_ready. destruct (h_waits _ !! n) as [[]|]; try done.
  destruct (js_has _ _); [destruct (asked n) as [[[? ?] ?] ?]; quiets|]. cbv zeta.
  match goal with |- context [let '(kept, l) := ?x in _] => assert (quiet u x.2) as Hx end.
  { destruct lease as [[lease q]|]; [|done].
    pose proof (quiet_release_lease _ _ _ lease (holds_session host session v) _ _ Hv).
      by destruct (release_lease _ _ _). }
  revert Hx. match goal with |- context [let '(kept, l) := ?x in _] => destruct x as [kept w] end. cbn. quiets.
Qed.
(** An acquisition begun. *)
Lemma quiet_acquire host c u v acq q lease :
  Acquisition.acquire host c (li_acq v) = (q, lease, acq) → (P → host ≠ K) → quiet u v →
    quiet u (v <{ li_acq := acq }>).
Proof.
  intros Ha Hh. apply quiet_link; [done| |by left..]. intros HP _ [A B C]. split; [done..|].
  pose proof (untaken_acquire K host c (li_acq v) (Hh HP) C) as Hq. rewrite Ha in Hq. exact Hq.
Qed.
Lemma quiet_join c u v acq q lease :
  Acquisition.join q c (li_acq v) = Some (lease, acq) → quiet u v → quiet u (v <{ li_acq := acq }>).
Proof. intros Ha. apply quiet_link; [done| |by left..]. intros _ _. apply inert_same; [done..|].
  by eapply untaken_join. Qed.
End tries.
#[export] Hint Resolve quiet_spawn_ready quiet_join : quiet.
#[export] Hint Extern 2 (_ → timed _ → tried _ _) => intros _ _; exact I : quiet.

Section outcomes.
Context `{!Setup} {Sc Ou : Type} `{!Screens Sc, !Outputs Ou} `{!Hosts} (K : HostId) (P T : Prop).
Notation Link := (Link Sc Ou).
Notation quiet := (quiet K P T).
Implicit Types (l u v : Link) (host : HostId).

Lemma quiet_leads n c host u v : (P → host ≠ K) → quiet u v → quiet u (spawn_leads n c host v).
Proof.
  intros Hh Hv. unfold spawn_leads. destruct (Acquisition.acquire host c _) as [[q lease] acq] eqn:Ha. cbv zeta.
  pose proof (quiet_acquire _ _ _ _ _ _ _ _ _ _ Ha Hh Hv) as Hw. revert Hw. generalize (v <{ li_acq := acq }>).
    intros w Hw.
  pose proof (quiet_session _ _ _ host true _ _ Hw) as Hs. destruct (getOrCreateSession host true w) as [[session x]|].
  - destruct (_ || _); [by apply quiet_dial_fails|by apply quiet_push].
  - quiets.
Qed.
Lemma quiet_request_leads c host u v : (P → host ≠ K) → quiet u v → quiet u (request_leads c host v).
Proof.
  intros Hh Hv. unfold request_leads. destruct (Acquisition.acquire host c _) as [[q lease] acq] eqn:Ha. cbv zeta.
  pose proof (quiet_acquire _ _ _ _ _ _ _ _ _ _ Ha Hh Hv) as Hw. revert Hw. generalize (v <{ li_acq := acq }>).
    intros w Hw.
  pose proof (quiet_session _ _ _ host true _ _ Hw) as Hs. destruct (getOrCreateSession host true w) as [[session
    x]|]; [|quiets].
  assert (quiet u (on_hub (SessionIs host session starting) x)) by quiets.
  destruct (_ || _); [by apply quiet_dial_fails|by apply quiet_push].
Qed.
Lemma quiet_reach_for n c host u v : (P → host ≠ K) → quiet u v → quiet u (reach_for_spawn n c host v).
Proof.
  intros Hh Hv. unfold reach_for_spawn. pose proof (quiet_leads n c host _ _ Hh Hv).
  pose proof (quiet_session _ _ _ host (host_is_ssh host) _ _ Hv) as Hs.
  destruct (_ && _).
  - destruct (acquisition host v) as [q|]; [|done]. destruct (Acquisition.join q c _) as [[lease acq]|] eqn:Hj; quiets.
  - destruct (getOrCreateSession host _ v) as [[]|]; quiets.
Qed.
Lemma quiet_adopt host a u v : (P → host ≠ K) → quiet u v → quiet u (adopt host a v).1.
Proof.
  intros Hh Hv. unfold adopt. destruct (quitting v); [done|]. destruct (stopping host v); [quiets|].
  assert (quiet u (on_hub (Adopt host a) v)) by (by apply quiet_adopt_event). quiets.
Qed.
Lemma quiet_stale host f u v : quiet u v → (T → timed u → tried (now u) f) → quiet u (dial_stale host f v).
Proof. intros Hv Hf. unfold dial_stale. destruct f; [quiets|by apply quiet_dial_fails..]. Qed.
Lemma quiet_adopted host f a by_ u v : quiet u v → quiet u (adopted host f a by_ v).
Proof. intros Hv. unfold adopted. cbv zeta. destruct f; quiets. Qed.
Lemma quiet_taken d host f a o u v :
  (P → host ≠ K) → (T → timed u → tried (now u) f) → quiet u v → quiet u (taken d host f a o v).
Proof.
  pose proof quiet_dial_fails. intros Hh Hf Hv. unfold taken. pose proof (quiet_adopt host a _ _ Hh Hv) as Hw.
  destruct (adopt host a v) as [w ok]. cbn [fst] in Hw. destruct (negb ok); [unfold not_adopted; destruct f; quiets|].
  destruct (op_daemon o); [|by apply quiet_adopted]. cbv zeta.
  match goal with |- quiet _ (set_field _ _ ?x) => assert (quiet u x) as Hx by quiets; revert Hx; generalize x end.
  intros x. apply quiet_link; [done|by intros _ _; apply inert_same, untaken_same| |by left].
  intros d' dl. cbn. rewrite js_lookup_insert. destruct (decide _); [intros [= <-]; by right|by left].
Qed.
End outcomes.

Section arrivals.
Context `{!Setup} {Sc Ou : Type} `{!Screens Sc, !Outputs Ou} `{!Hosts} (K : HostId) (P T : Prop).
Notation Link := (Link Sc Ou).
Notation quiet := (quiet K P T).
Implicit Types (l u v : Link) (host : HostId).

Lemma quiet_drop_dial d u v : quiet u v → quiet u (v <{ li_dials ::= delete d }>).
Proof.
  apply quiet_link; [done|by intros _ _; apply inert_same, untaken_same| |by left].
  intros d' dl. cbn. rewrite js_lookup_delete. destruct (decide _); [done|by left].
Qed.
(** A dial taken up is one that was not called off, whose acquisition is its host's. *)
Lemma acquired_awake host f u v :
  called_off host f u = false → acquired host f v = true → li_controllerOf v = li_controllerOf u →
  li_acq v = li_acq u → inert host v → False.
Proof.
  intros Hc Ha H1 H2 [_ A2 A3]. unfold called_off, acquired, acq_current in *. rewrite <- H1 in Hc.
  destruct f; rewrite ?orb_false_iff, ?andb_true_iff, ?negb_false_iff, ?bool_decide_eq_true in *; intuition congruence.
Qed.
Lemma quiet_opened d dl o u v : li_dials v !! d = Some dl → quiet u v → quiet u (opened d dl o v).
Proof.
  intros Hd Hv. pose proof quiet_dial_fails as Hfails. unfold opened. cbv zeta.
  set (host := di_host dl). set (f := di_for dl). set (a := length (li_agents v)).
  assert (T → timed u → tried (now u) f) as Hf.
  { intros HT Hu. destruct Hv as [[A1 _ _ A4] _]. rewrite <- A1. by eapply ti_dials, Hd; apply A4. }
  match goal with |- context [on_hub (Up a) ?x] => assert (quiet u (on_hub (Up a) x)) as Hw end.
  { apply (quiet_drop_dial d) in Hv. quiets. }
  revert Hw. generalize (on_hub (Up a) (v <{ li_dials ::= delete d }> <{ li_agents ::= λ g,
    g ++ [MkAgent host (op_daemon o) (op_told o) (op_others o)] }>)).
  intros w Hw. destruct (_ || _) eqn:Hc; [by apply quiet_stale; [quiets|]|].
  rewrite !orb_false_iff in Hc. destruct Hc as [[_ Hc] _].
  assert (quiet u (on_hub (SessionIs host (session_of_dial f) active) w)) as Hx by quiets.
  assert (li_controllerOf (on_hub (SessionIs host (session_of_dial f) active) w) = li_controllerOf w) as H1 by done.
  assert (li_acq (on_hub (SessionIs host (session_of_dial f) active) w) = li_acq w) as H2 by done.
  revert Hx H1 H2. generalize (on_hub (SessionIs host (session_of_dial f) active) w). intros x Hx H1 H2.
  destruct (op_mismatch o); [apply Hfails; [done|quiets]|].
  destruct (acquired host f x) eqn:Ha; cbn [negb].
  - apply (quiet_act K P T (λ w, timed w → tried (now w) f) host); [|..|done|done].
    + intros Q R w' Hh Hf' Hq. by apply quiet_taken.
    + intros _ _ _ Hi ->. by eapply acquired_awake.
  - unfold not_acquired. assert (quiet u (close_agent a x)) by quiets.
    destruct f; [by apply Hfails..|quiets|by apply Hfails].
Qed.
Lemma quiet_states d states u v : quiet u v → quiet u (states_come d states v).
Proof.
  intros Hv. unfold states_come. destruct (li_dials v !! d) as [[host f [|a w]]|]; try done. cbv zeta.
    apply quiet_adopted.
  apply (quiet_drop_dial d) in Hv. revert Hv. generalize (v <{ li_dials ::= delete d }>). intros x Hx.
  destruct states as [states|]; [|done]. destruct (h_waits (li_hub x) !! w) as [x0|] eqn:Hw; [|done].
  destruct x0; try done. destruct for_; [|done].
  apply quiet_on_hub; [|done]. cbn. by rewrite Hw.
Qed.
Lemma quiet_follows i u v : quiet u v → quiet u (follows i v).
Proof. intros Hv. unfold follows. quiets. Qed.
Lemma quiet_lease_over i u v : quiet u v → quiet u (lease_over i v).
Proof. intros Hv. unfold lease_over. quiets. Qed.
Lemma quiet_timer t u v :
  (∀ tm, li_timers v !! t = Some tm → (tm_due tm <= now v)%Z) → quiet u v → quiet u (timer_fires t v).
Proof.
  intros Hdue Hv. unfold timer_fires. destruct (li_timers v !! t) as [tm|] eqn:Ht; [|done]. cbv zeta.
  match goal with |- context [said_reaching ?h ?w] => assert (quiet u (said_reaching h w)) as Hw end.
  { revert Hv. apply quiet_forget; try done.
    - intros t' tm'. cbn. rewrite js_lookup_delete. by destruct (decide _).
    - cbn. rewrite js_lookup_delete. by destruct (decide _). }
  assert (T → timed u → in_time (now u) tm ∧ (tm_due tm <= now u)%Z) as Hi.
  { intros HT Hu. destruct Hv as [[A1 _ _ A4] _]. rewrite <- A1. split; [|by apply Hdue].
    by eapply ti_timers, Ht; apply A4. }
  revert Hw. generalize (said_reaching (tm_host tm)
    (v <{ li_timers ::= delete t }> <{ li_timerOf ::= delete (tm_host tm) }>)). intros w Hw.
  destruct (_ || _); [done|]. destruct (session_of _ _); [|done]. destruct (_ || _) eqn:Hq; [done|].
  destruct (negb _); [quiets|]. rewrite orb_false_iff in Hq. destruct Hq as [_ Hq%bool_decide_eq_false_1].
  apply (quiet_act K P T (λ w, timed w → in_time (now w) tm ∧ (tm_due tm <= now w)%Z) (tm_host tm)); [|..|done|done].
  - intros Q R w' Hh Hf Hx. by apply quiet_again.
  - intros _ _ Hk _ Heq. apply Hq. by rewrite Heq.
Qed.
Lemma quiet_for_attach host u v : quiet u v → quiet u (reconnectForAttach host v).
Proof.
  intros Hv. unfold reconnectForAttach. destruct (_ || _) eqn:Hq; [done|].
    destruct (bool_decide _ || up host v); [done|].
  rewrite !orb_false_iff in Hq. destruct Hq as [[_ Hq%bool_decide_eq_false_1] _].
  assert (quiet u (v <{ li_attaching ::= set_add host }>)) as Hw by quiets.
  apply (quiet_act K P T (λ _, True) host (reconnectAgent host attach_waits)); [|..|done|done].
  - intros Q R w' Hh _ Hx. by apply quiet_reconnect.
  - by intros _ _ Hk _ ->.
Qed.
End arrivals.
#[export] Hint Resolve quiet_states quiet_follows quiet_lease_over quiet_for_attach : quiet.

Section requests.
Context `{!Setup} {Sc Ou : Type} `{!Screens Sc, !Outputs Ou} `{!Hosts} (K : HostId) (P T : Prop).
Notation Link := (Link Sc Ou).
Notation quiet := (quiet K P T).
Implicit Types (l u v : Link) (host : HostId).

Lemma quiet_request c host u v : (P → host ≠ K) → quiet u v → quiet u (reachHostOnRequest c host v).
Proof.
  intros Hh Hv. unfold reachHostOnRequest. destruct (quitting v); [done|]. cbv zeta.
  apply (quiet_cancel _ _ _ host) in Hv. revert Hv. generalize (cancelReconnect host v). intros w Hw.
  pose proof (quiet_request_leads _ _ _ c host _ _ Hh Hw). destruct (acquisition host w) as [q|]; [|done].
  destruct (Acquisition.join q c _) as [[lease acq]|] eqn:Hj; quiets.
Qed.
End requests.

Section asked.
Context `{!Setup} {Sc Ou : Type} `{!Screens Sc, !Outputs Ou} `{!Hosts} (K : HostId) (P T : Prop).
Notation Link := (Link Sc Ou).
Notation quiet := (quiet K P T).
Implicit Types (l u v : Link) (host : HostId).

(** Asked for by a user, of whatever host. *)
Lemma quiet_asked c host u v : (flagged K v → host ≠ K) → quiet u v → quiet u (reachHostOnRequest c host v).
Proof.
  intros Hh Hv. apply (quiet_act K P T (λ _, True) host); [|by auto|done|done]. intros Q R w Hq _ Hw.
    by apply quiet_request.
Qed.
Lemma quiet_letGo host a u v : quiet u v → quiet u (letGoOfConnection host a v).
Proof. unfold letGoOfConnection. quiets. Qed.
Lemma quiet_dropConnection host a u v : quiet u v → quiet u (dropConnection host a v).
Proof. pose proof quiet_letGo. unfold dropConnection. quiets. Qed.
Lemma quiet_endHost host reason u v : quiet u v → quiet u (endHostSession host reason v).
Proof. pose proof quiet_letGo. intros Hv. unfold endHostSession. quiets. Qed.
Lemma quiet_displaced a u v : quiet u v → quiet u (agent_displaced a v).
Proof. pose proof quiet_letGo. unfold agent_displaced. quiets. Qed.
Lemma unflagged host u v : quiet (on_hub (UserActs host false) u) v → flagged K v → host ≠ K.
Proof. intros [[_ Hf _ _] _] Hk%Hf ->. revert Hk. unfold flagged. rewrite hub_on. cbn. rewrite elem_of_set_delete.
  naive_solver. Qed.
End asked.
#[export] Hint Resolve quiet_displaced : quiet.

Section hosts.
Context `{!Setup} {Sc Ou : Type} `{!Screens Sc, !Outputs Ou} `{!Hosts} (K : HostId) (P T : Prop).
Notation Link := (Link Sc Ou).
Notation quiet := (quiet K P T).
Implicit Types (l u v : Link) (host : HostId).

Lemma quiet_connect c host u v : quiet u v → quiet u (connectHost c host v).2.
Proof.
  intros Hv. unfold connectHost, askServerAgain. destruct (refused host v); [done|].
    destruct (up host v); cbn [snd]; [quiets|].
  apply quiet_asked; [|quiets]. apply (unflagged K True True host v). quiets.
Qed.
Lemma quiet_reconnectHost c host force u v : quiet u v → quiet u (reconnectHost c host force v).2.
Proof.
  intros Hv. unfold reconnectHost, askServerAgain, interruptOn. destruct (refused host v); [done|]. cbv zeta.
  destruct (wouldStop _ _ _); [done|]. cbn [snd].
  set (w0 := if _ <? _ then _ else v). assert (quiet u w0) as Hw by (unfold w0; quiets). clearbody w0.
  set (w := on_hub (UserActs host false) w0 <{ li_refusals ::= delete host }>).
  assert (∀ P T x, HostQuiet.quiet K P T x (on_hub (UserActs host false) w0) → HostQuiet.quiet K P T x
    match h_agents (li_hub w) !! host with
    | Some a => if up host w then if terminalsOutliveConnection host v then dropConnection host a w else
      endHostSession host stopped w else w
    | None => w
    end) as Hx.
  { intros P' T' x Hx. pose proof (quiet_dropConnection K P' T'). pose proof (quiet_endHost K P' T').
    assert (HostQuiet.quiet K P' T' x w) as Hy by (unfold w; quiets). quiets. }
  apply quiet_asked; [|apply Hx; quiets]. apply (unflagged K True True host w0). apply Hx. quiets.
Qed.
(** Disconnecting: another host, and this one, which nothing reaches for after. *)
Lemma quiet_interrupted host n u v : quiet u v → quiet u (if 0 <? n then interruptOn host v else v).
Proof. unfold interruptOn. quiets. Qed.
Lemma quiet_let_go host (outlive : bool) session agent u v :
  quiet u v →
  quiet u match session with
          | Some s =>
              if outlive && negb (bool_decide (ss_status s = starting)) then
                match agent with Some a => dropConnection host a v | None => on_hub (SessionIs host (ss_id s)
                  disconnected) v end
              else endHostSession host stopped v
          | None => endHostSession host stopped v
          end.
Proof. pose proof (quiet_dropConnection K P T). pose proof (quiet_endHost K P T). quiets. Qed.
Lemma quiet_disconnect_other host force u v : host ≠ K → quiet u v → quiet u (disconnectHost host force v).2.
Proof.
  intros Hh Hv. unfold disconnectHost. destruct (refused host v); [done|]. cbv zeta.
    destruct (wouldStop _ _ _); [done|].
  apply (quiet_interrupted host (transfersOn host v)) in Hv. revert Hv.
  generalize (if 0 <? transfersOn host v then interruptOn host v else v). intros w Hw.
  assert (quiet u (closeAcquisition host (cancelReconnect host (on_hub (UserDisconnects host) w)))) as Hx.
  { apply quiet_close_acq, quiet_cancel, quiet_on_hub; [|done]. done. }
  destruct (session_of host _), (h_agents (li_hub w) !! host), (acquisition host w); cbn [snd]; try done;
    try (by apply (quiet_let_go host _ (Some _) (Some _))); try (by apply (quiet_let_go host _ (Some _) None));
    by apply (quiet_let_go host true None None).
Qed.
Lemma quiet_closeSession session force u v : quiet u v → quiet u (closeSession session force v).2.
Proof.
  intros Hv. unfold closeSession, interruptOn. cbv zeta. destruct (match _ with Some _ => _ | None => _ end); [done|].
  destruct (_ && negb force); [done|].
  match goal with |- context [find (λ h, current h session ?x)] => assert (quiet u x) as Hx by quiets; revert Hx;
    generalize x end.
  intros w Hw. destruct (find _ _); [|done]. cbn [snd]. quiets.
Qed.
Lemma quiet_agent_closes a u v : quiet u v → quiet u (agent_closes a v).
Proof.
  intros Hv. unfold agent_closes. destruct (li_agents v !! a) as [ag|]; [|done]. cbv zeta.
  assert (quiet u (on_hub (Down a) v)) as Hw by quiets. revert Hw. generalize (on_hub (Down a) v). intros w Hw.
  destruct (_ && _); [done|].
  assert (quiet u (on_hub (AgentClosed (ag_host ag) a true) w)) as Hx by quiets. revert Hx.
  generalize (on_hub (AgentClosed (ag_host ag) a true) w). intros x Hx. destruct (session_id _ x); [|done].
  destruct (_ && _); [|done]. apply quiet_schedule; [|done]. intros _ _. assert (now x = now u) by apply Hx. cbn. lia.
Qed.
Lemma quiet_quit u v : quiet u v → quiet u (beginQuit v).
Proof.
  intros Hv. unfold beginQuit. destruct (quitting v); [done|]. cbv zeta.
  assert (quiet u (on_acq Acquisition.beginQuit v)) as Hw by (apply quiet_acq; [apply untaken_quit|done]). revert Hw.
  generalize (on_acq Acquisition.beginQuit v). intros w Hw.
  apply quiet_on_hub; [exact I|].
  match goal with |- quiet _ (set_field _ _ ?x) => assert (quiet u x) as Hx end.
  { apply quiet_fold; [quiets|].
    match goal with |- quiet _ (set_field _ _ ?x) => assert (quiet u x) as Hx end.
    { apply quiet_fold; [|done]. intros y t. apply quiet_link; [done|by intros _ _;
      apply inert_same, untaken_same|by left|].
      intros t' tm. cbn. rewrite js_lookup_delete. destruct (decide _); [done|by left]. }
    revert Hx. apply quiet_link; [done| |by left..]. by intros _ _ [A B C]. }
  revert Hx. apply quiet_link; [done| |by left..]. by intros _ _ [A B C].
Qed.
End hosts.
#[export] Hint Resolve quiet_connect quiet_reconnectHost quiet_closeSession quiet_agent_closes quiet_quit : quiet.
