(* ===== verification/HostSafety.v ===== *)
(** * A host the user disconnected stays so, and retries come to an end

    Nothing reaches for a host flagged disconnected, it is given no connection and none is made for it,
    until the user acts on it ([disconnected_host_left_alone]); and the hub gives up on a lost host
    within its time ([retries_bounded]). *)

From Stdlib Require Import ZArith.
From S2P Require Import Prelude JsMap Acquisition ChannelData ChannelTrackers StateBroadcaster ChannelLifecycle ChannelChanges ChannelOps ChannelJudging HostWires HostLink HostLinkExample HostLinkRuns HostQuiet.
#[local] Open Scope lasterm_scope.

Section news.
Context `{!Setup} {Sc Ou : Type} `{!Screens Sc, !Outputs Ou}.
Notation Hub := (StateBroadcaster.Hub Sc Ou Wait).
Implicit Types (h u v x : Hub) (host : HostId).

Lemma nextId_userActs host h : h_nextId (userActsOnHost host h) = h_nextId h.
Proof.
  unfold userActsOnHost, announceSessionState. destruct (decide _); [|done]. destruct (session_of _ _); [|done].
  unfold broadcastToAllClients. by rewrite (told_field h_nextId) by done.
Qed.
Lemma host_userActs ch host h : getChannelWithHost ch (userActsOnHost host h) = getChannelWithHost ch h.
Proof.
  unfold userActsOnHost, announceSessionState. destruct (decide _); [|done]. destruct (session_of _ _); [|done].
  unfold getChannelWithHost, broadcastToAllClients. by rewrite (told_field h_rows), (told_field h_sessionRows) by done.
Qed.
Lemma acted_unflagged host h : host ∉ h_userDisconnected (userActsOnHost host h).
Proof.
  unfold userActsOnHost, announceSessionState. destruct (decide _) as [|Hn]; [|done].
  assert (host ∉ h_userDisconnected (h <{ h_userDisconnected ::= set_delete host }>)) as Hd.
  { cbn. rewrite elem_of_set_delete. naive_solver. }
  destruct (session_of _ _); [|done]. unfold broadcastToAllClients. by rewrite (told_field h_userDisconnected) by done.
Qed.
(** The host a wait reaches for was not disconnected by a user. *)
Definition acted w h : Prop :=
  match w with
  | w_spawnReach _ host _ => host ∉ h_userDisconnected h
  | w_restartBegin ch => ∀ row host, getChannelWithHost ch h = Some (row, host) → host ∉ h_userDisconnected h
  | w_restartReach r => rs_host r ∉ h_userDisconnected h
  | _ => False
  end.
(** An event leaves nothing that waits on a host, or the one wait of a user who acts on it. *)
Definition reaches_for (K : HostId) h v : Prop :=
  gentle K h v ∨ ∃ x w, gentle K h x ∧ h_nextId x = h_nextId h ∧ v = push w x ∧ acted w x.
Lemma gentle_to_calm K h v : calm h v → gentle K h v.
Proof. intros Hc. apply (gentle_calm _ _ h); [done|apply gentle_refl]. Qed.
Lemma spawn_goes K n h : reaches_for K h (ChannelLifecycle.exec (SpawnGoes n) h).
Proof.
  cbn [ChannelLifecycle.exec]. destruct (h_waits h !! n) as [w|]; [|left; apply gentle_refl].
  destruct w as [c host reuse automatic| | | | | | | | |]; try (left; apply gentle_refl).
  unfold spawnOnHost. cbv zeta. assert (gentle K h (drop_wait n h)) as Hd by (apply gentle_to_calm; calms).
  destruct (decide _); [left; apply gentle_to_calm; calms|]. destruct (negb _); [left; apply gentle_to_calm; calms|].
  destruct (_ && automatic); [left; apply gentle_to_calm; calms|].
  apply (gentle_userActs _ host) in Hd. destruct (hostReconnecting _ _).
  - left. eapply gentle_calm; [|exact Hd]. calms.
  - right. eexists _, _. split; [exact Hd|]. split_and!; [by rewrite nextId_userActs|done|]. apply acted_unflagged.
Qed.
Lemma restart_asked K ch h : reaches_for K h (ChannelLifecycle.exec (Restart ch) h).
Proof.
  pose proof (gentle_refl K h) as Hr. cbn [ChannelLifecycle.exec]. unfold restartChannel.
  destruct (getChannelWithHost ch h) as [[row host]|] eqn:Hg; (destruct (_ || _); [by left|]).
  - cbv zeta. pose proof (gentle_userActs _ host _ _ Hr) as Hu. destruct (decide _); [by left|]. right.
    eexists (userActsOnHost host h <{ h_starting ::= set_add ch }>), _.
      split_and!; [|cbn; by rewrite nextId_userActs|done|].
    + revert Hu. by apply gentle_field.
    + intros row' host' Hg'. change (getChannelWithHost ch (userActsOnHost host h) = Some (row', host')) in Hg'.
      rewrite host_userActs, Hg in Hg'. injection Hg' as <- <-. exact (acted_unflagged _ _).
  - right. eexists (h <{ h_starting ::= set_add ch }>), _. split_and!; [|done|done|].
    + revert Hr. by apply gentle_field.
    + cbn. intros row' host'. change (getChannelWithHost ch h = Some (row', host') → host' ∉ h_userDisconnected h).
      by rewrite Hg.
Qed.
Lemma restart_goes K n ch h : h_waits h !! n = Some (w_restartBegin ch) → acted (w_restartBegin ch) h →
  reaches_for K h (ChannelLifecycle.exec (RestartGoes n) h).
Proof.
  intros Hn Ha. cbn [ChannelLifecycle.exec]. rewrite Hn. unfold restart_begin. cbv zeta.
  assert (gentle K h (drop_wait n h)) as Hd by (apply gentle_to_calm; calms).
  destruct (h_quitting _); [left; apply gentle_to_calm; calms|].
  destruct (getChannelWithHost ch (drop_wait n h)) as [[row host]|] eqn:Hg; [|left; apply gentle_to_calm; calms].
  match goal with |- reaches_for _ _ (if _ then restart_send _ ?w else _) => assert (calm h w ∧
    h_nextId w = h_nextId h ∧ h_userDisconnected w = h_userDisconnected h) as (Hw & Hi & Hu) end.
  { destruct (h_agents (drop_wait n h) !! host); [|split; [calms|done]].
    destruct (channel_of (Sc:=Sc) _ _); [|split; [calms|done]].
    destruct (_ && _); split; try done; calms. }
  revert Hw Hi Hu. match goal with |- calm _ ?w → _ => generalize w end. intros w Hw Hi Hu. destruct (agent_up _ _).
  - left. apply gentle_to_calm. calms.
  - right. eexists _, _. split_and!; [by apply gentle_to_calm|done|done|]. cbn. rewrite Hu. eapply Ha, Hg.
Qed.
End news.

Section steps.
Context `{!Setup} {Sc Ou : Type} `{!Screens Sc, !Outputs Ou} `{!Hosts} (K : HostId).
Notation Link := (Link Sc Ou).
Implicit Types (l u v : Link) (host : HostId).

(** Nothing that is news waits on a host. *)
Definition nothing_wants (since : nat) l : Prop :=
  ∀ n w, h_waits (li_hub l) !! n = Some w → since <= n → wants w = false.
Lemma nothing_wants_later P T since u v : nothing_wants since u → quiet K P T u v → nothing_wants since v.
Proof.
  intros Hu [_ Hw] n w Hn Hs. destruct (wants w) eqn:He; [|done]. rewrite <- He. by eapply Hu; [apply Hw|].
Qed.
Lemma quiet_reach_one P T n since u v :
  since <= n → nothing_wants since v → quiet K P T u v → quiet K P T u (reach_one v n).
Proof.
  intros Hn Hw Hv. unfold reach_one. destruct (h_waits (li_hub v) !! n) as [w|] eqn:He; [|done].
  pose proof (Hw _ _ He Hn) as Hf. destruct w; try done. destruct (h_objs _ !! _); [by apply quiet_for_attach|done].
Qed.
Lemma goes_on_reach n since v : since <= n → nothing_wants since v → goes_on v n = reach_one v n.
Proof.
  intros Hn Hw. unfold goes_on. destruct (h_waits (li_hub v) !! n) as [w|] eqn:He; [|done].
  pose proof (Hw _ _ He Hn) as Hf. by destruct w.
Qed.
Lemma quiet_news P T since ns u v (f : Link → nat → Link) :
  (∀ w n, since <= n → nothing_wants since w → f w n = reach_one w n) →
  Forall (λ n, since <= n) ns → nothing_wants since v → quiet K P T u v → quiet K P T u (fold_left f ns v).
Proof.
  intros Hf Hns. revert v. induction Hns as [|n ns Hn Hns IH]; intros v Hw Hv; [done|]. cbn. rewrite Hf by done.
    apply IH.
  - eapply (nothing_wants_later True True); [exact Hw|]. by apply (quiet_reach_one _ _ _ since); [| |apply quiet_refl].
  - by eapply quiet_reach_one.
Qed.
Lemma news_since since (v : Link) : Forall (λ n, since <= n) (news since v).
Proof. unfold news. apply Forall_forall. intros n [? _]%elem_of_seq. done. Qed.
Lemma news_push w x (v : Link) : li_hub v = push w x → news (h_nextId x) v = [h_nextId x].
Proof. intros Hv. unfold news. rewrite Hv. cbn. by rewrite Nat.sub_succ_l, Nat.sub_diag by done. Qed.
Lemma waits_push w x (v : Link) : li_hub v = push w x → h_waits (li_hub v) !! h_nextId x = Some w.
Proof. intros ->. cbn. apply js_lookup_insert_eq. Qed.
(** Whoever waits is of a host no user disconnected: it may be reached for. *)
Lemma quiet_reached P T w x v : li_hub v = push w x → acted w x → quiet K P T v (reach_one v (h_nextId x)).
Proof.
  intros Hv Ha. unfold reach_one. rewrite (waits_push _ _ _ Hv).
  assert (∀ host, host ∉ h_userDisconnected x → flagged K v → host ≠ K) as Hf.
  { intros host Hh Hk ->. apply Hh. unfold flagged in Hk. by rewrite Hv in Hk. }
  destruct w; try apply quiet_refl; try done.
  - apply (quiet_act K P T (λ _, True) host); [intros; by apply quiet_reach_for|by eauto|done|apply quiet_refl].
  - apply (quiet_act K P T (λ _, True) (rs_host r) (reconnectAgent (rs_host r) (restart_waits (h_nextId x))));
      [intros; by apply quiet_reconnect|by eauto|done|apply quiet_refl].
Qed.
Lemma quiet0_pushed P T e w x u :
  gentle K (li_hub u) x → ChannelLifecycle.exec e (li_hub u) = push w x → quiet0 K P T u (on_hub e u).
Proof.
  intros [H1 H2 H3 H4] He. assert (now (on_hub e u) = now u) as Hn by (unfold now; by rewrite hub_on, He).
  split; [done|unfold flagged; rewrite hub_on, He; exact H2| |].
  - intros _ _ [A B C]. split; [done|]. split; [|done]. rewrite hub_on, He. exact H3.
  - intros _ [A B]. by split; rewrite Hn.
Qed.
Lemma timely_wants e u : timely (li_hub u) → gentle K (li_hub u) (ChannelLifecycle.exec e (li_hub u)) →
  nothing_wants (h_nextId (li_hub u)) (on_hub e u).
Proof.
  intros Ht [_ _ _ H4] n w Hn Hs. destruct (wants w) eqn:He; [|done]. destruct (Ht _ _ (H4 _ _ Hn He)). lia.
Qed.
Lemma quiet_event_news P T (f : Link → nat → Link) e u :
  (∀ since w n, since <= n → nothing_wants since w → f w n = reach_one w n) →
  timely (li_hub u) → reaches_for K (li_hub u) (ChannelLifecycle.exec e (li_hub u)) →
  (∀ w x, li_hub (on_hub e u) = push w x → acted w x → quiet0 K P T (on_hub e u) (f (on_hub e u) (h_nextId x))) →
  quiet0 K P T u (fold_left f (news (h_nextId (li_hub u)) (on_hub e u)) (on_hub e u)).
Proof.
  intros Hf Ht [Hg|(x & w & Hx & Hi & He & Ha)] Hpush.
  - apply q_quiet0, (quiet_news _ _ (h_nextId (li_hub u))); [by eauto|apply news_since|by apply timely_wants|].
    by apply quiet_gentle; [|apply quiet_refl].
  - rewrite <- Hi, (news_push w) by (by rewrite hub_on). cbn [fold_left].
    eapply quiet0_trans; [by eapply quiet0_pushed|]. by eapply Hpush.
Qed.
Lemma timely_event e u : timely (li_hub u) → timely (li_hub (on_hub e u)).
Proof. intros Ht. rewrite hub_on, exec_runs. by apply run_timely. Qed.
Lemma quiet_hub_event P T e u :
  timely (li_hub u) → reaches_for K (li_hub u) (ChannelLifecycle.exec e (li_hub u)) → quiet0 K P T u (hub_event e u).
Proof.
  intros Ht Hr. unfold hub_event. apply quiet_event_news; [by intros; eapply goes_on_reach|done..|].
  intros w x Hv Ha. set (v := on_hub e u) in *. unfold goes_on. rewrite (waits_push _ _ _ Hv).
  pose proof (quiet_reached P T w x v Hv Ha) as [Hq _].
  destruct w; try exact Hq. cbv zeta. apply quiet_event_news; [done|by apply timely_event| |].
  - apply (restart_goes _ _ ch); [exact (waits_push _ _ _ Hv)|]. rewrite Hv. exact Ha.
  - intros w' x' Hv' Ha'. by apply q_quiet0, (quiet_reached _ _ w').
Qed.
End steps.

Section safety.
Context `{!Setup} {Sc Ou : Type} `{!Screens Sc, !Outputs Ou} `{!Hosts} (K : HostId).
Notation Link := (Link Sc Ou).
Implicit Types (l u v : Link) (host : HostId).

(** What a step keeps: of what is flagged after it. *)
Record keeps u v : Prop := {
  ke_inert : (flagged K u → inert K u) → flagged K v → inert K v;
  ke_untouched : flagged K u → inert K u → flagged K v → untouched K u v;
  ke_timed : timed u → timed v
}.
Lemma keeps_quiet u v : quiet0 K True True u v → keeps u v.
Proof. intros [A B C D]. split; [|by intros _ Hi Hf; apply C|by apply D]. intros Hu Hv. apply C; auto. Qed.
(** Disconnected: nothing reaches for it any more, and it is given nothing. *)
Lemma keeps_disconnect force u : keeps u (disconnectHost K force u).2.
Proof.
  unfold disconnectHost. destruct (refused K u); [by apply keeps_quiet, quiet0_refl|]. cbv zeta.
  destruct (wouldStop _ _ _); [by apply keeps_quiet, quiet0_refl|].
  set (w := if 0 <? transfersOn K u then interruptOn K u else u).
  assert (quiet K True True u w) as Hw by apply quiet_interrupted, quiet_refl.
  assert (flagged K u → flagged K w) as Hfw by (unfold w, flagged; by destruct (0 <? transfersOn K u)).
  clearbody w.
  set (w1 := on_hub (UserDisconnects K) w). set (x := closeAcquisition K (cancelReconnect K w1)).
  assert (∀ v, quiet K True True x v → keeps u v) as Hgoal.
  { intros v [[C1 C2 C3 C4] _].
    assert (quiet K True True w1 x) as [[B1 B2 B3 B4] _] by (apply quiet_close_acq, quiet_cancel, quiet_refl).
    assert (inert K x) as Hi.
    { pose proof (cancelled K w1) as Hc. unfold reaching in Hc. rewrite orb_false_iff, !js_has_false in Hc.
      destruct Hc as [H1 H2]. split; [exact H1|exact H2|]. apply closed_untaken. }
    destruct Hw as [[A1 A2 A3 A4] _]. split.
    - intros _ Hf. by apply C3.
    - intros Hu Hiu Hf. destruct (C3 I Hf Hi) as [_ [D1 D2]]. destruct (A3 I (Hfw Hu) Hiu) as [[E1 E2 E3] [E4 E5]].
      assert (inert K w1) as Hi1 by by split. destruct (B3 I (C2 Hf) Hi1) as [_ [F1 F2]].
      split; [intros a Ha; by apply E4, F1, D1|intros d dl Hd Hk; by apply E5; [apply F2; [apply D2|]|]].
    - intros Ht. apply C4; [done|]. apply B4; [done|]. destruct (A4 I Ht). by split. }
  destruct (session_of K _), (h_agents (li_hub w) !! K), (acquisition K w); cbn [snd]; try (by apply keeps_quiet, Hw);
    apply Hgoal; try (by apply (quiet_let_go K True True K _ (Some _) (Some _)), quiet_refl);
    try (by apply (quiet_let_go K True True K _ (Some _) None), quiet_refl);
    by apply (quiet_let_go K True True K true None None), quiet_refl.
Qed.
(** Every other event. *)
Lemma quiet_exec e u :
  host_is_ssh K = true → timely (li_hub u) → (∀ force, e ≠ DisconnectHost K force) → quiet0 K True True u (exec e u).
Proof.
  intros Hssh Ht He. pose proof (quiet_refl K True True u) as Hr. destruct e; cbn [exec];
    try (by apply q_quiet0; quiets).
  - destruct (of_the_hub e u) eqn:Ho; [|apply Hr].
    assert (reaches_for K (li_hub u) (ChannelLifecycle.exec e (li_hub u)) →
      quiet0 K True True u (hub_event e u)) as Hq by (by apply quiet_hub_event).
    destruct e; try (by apply Hq; left; apply gentle_exec); cbn in Ho; try done.
    + apply Hq, spawn_goes.
    + apply Hq, restart_asked.
    + by apply q_quiet0, quiet_close_session.
    + apply Hq. left. apply gentle_exec. cbn. intros ->. by rewrite Hssh in Ho.
    + apply Hq. left. apply gentle_exec. cbn. destruct (h_waits (li_hub u) !! n) as [[]|]; try done.
      destruct for_; [done|]. intros ->. by rewrite Hssh in Ho.
  - destruct (li_timers u !! t) as [tm|] eqn:Htm; [|apply Hr]. destruct (Z.leb_spec (tm_due tm) (now u)); [|apply Hr].
    apply q_quiet0, quiet_timer; [|done]. intros tm'. by rewrite Htm; intros [= <-].
  - destruct (li_dials u !! d) as [dl|] eqn:Hd; [|apply Hr]. destruct (di_phase dl); [|apply Hr].
    by apply q_quiet0, quiet_opened.
  - destruct (li_dials u !! d) as [dl|] eqn:Hd; [|apply Hr]. destruct (di_phase dl); [|apply Hr].
    apply q_quiet0, quiet_dial_fails; [|by apply quiet_drop_dial]. intros _ [_ Hti]. by eapply Hti.
  - apply q_quiet0, quiet_disconnect_other; [|done]. intros ->. by eapply He.
Qed.
Lemma link_keeps_step e u : host_is_ssh K = true → timely (li_hub u) → keeps u (step u e).
Proof.
  intros Hssh Ht. unfold step. set (w := passes e.1 u).
  assert (keeps w (exec e.2 w)) as [A B C].
  { destruct e.2 as [| | | | | | | |host force| | | | | | | |] eqn:He; try (by apply keeps_quiet, quiet_exec).
    destruct (decide (host = K)) as [->|Hh]; [by apply keeps_disconnect|]. apply keeps_quiet, quiet_exec; [done..|].
      naive_solver. }
  split.
  - intros Hu. apply A. intros Hf. destruct (Hu Hf). by split.
  - intros Hu [I1 I2 I3] Hf. assert (inert K w) as Hi by by split. by destruct (B Hu Hi Hf).
  - intros [T1 T2]. assert (now u <= now w)%Z as Hn by (unfold w, now, passes; cbn; lia). apply C. split.
    + intros t tm Htm. destruct (T1 _ _ Htm) as (D1 & D2 & D3). split_and!; [done..|]. lia.
    + intros d dl Hd. specialize (T2 _ _ Hd). unfold tried in *. destruct (di_for dl); try done. lia.
Qed.
(** What holds of every run. *)
Record settled u : Prop := { se_timely : timely (li_hub u); se_inert : flagged K u → inert K u; se_timed : timed u }.
Lemma settled_run (h : StateBroadcaster.Hub Sc Ou Wait) es :
  host_is_ssh K = true → h_waits h = ∅ → settled (run step (started h) es).
Proof.
  intros Hssh Hh. induction es as [|e es IH] using rev_ind.
  - split; [|by split|by split; intros ? ? ?]. intros n w. cbn. by rewrite Hh.
  - destruct IH as [A B C]. pose proof (link_keeps_step e _ Hssh A) as [D _ F]. rewrite run_app. cbn.
    split; [|by apply D|by apply F].
    destruct (onward_exec e.2 _ _ (onward_passes e.1 _ _ (onward_refl (run step (started h) es)))) as [(es' & H1) _].
    unfold step at 1. rewrite H1. by apply run_timely.
Qed.

(** C12: Once a user disconnects a remote host, and as long as no user acts on it, nothing the hub does reaches
    for it: no reconnect is on a timer or under way, no acquisition of it is open, and whatever comes
    next, a retry's callback, a terminal attached to, a connection that was being made and comes up,
    gives it no connection and starts none. *)
Theorem disconnected_host_left_alone (h : StateBroadcaster.Hub Sc Ou Wait) (es : list (N * Ev)) (e : N * Ev) :
  let u := run step (started h) es in
  host_is_ssh K = true → h_waits h = ∅ → user_disconnected K u = true →
  reaching K u = false ∧ acquisition K u = None ∧
  (user_disconnected K (step u e) = true →
   (∀ a, h_agents (li_hub (step u e)) !! K = Some a → h_agents (li_hub u) !! K = Some a) ∧
   (∀ d dl, li_dials (step u e) !! d = Some dl → di_host dl = K → li_dials u !! d = Some dl)).
Proof.
  intros u Hssh Hh Hf%bool_decide_eq_true_1. destruct (settled_run h es Hssh Hh) as [A B C]. fold u in A, B, C.
  destruct (B Hf) as [I1 I2 I3]. split; [|split; [done|]].
  - unfold reaching. by rewrite orb_false_iff, !js_has_false.
  - intros Hf'%bool_decide_eq_true_1. destruct (link_keeps_step e _ Hssh A) as [_ D _]. by destruct (D Hf (B Hf) Hf').
Qed.
End safety.

#[local] Open Scope string_scope.
#[local] Existing Instance hl_setup.
#[local] Existing Instance hl_hosts.
(** A retry under way as the user disconnects comes up, and is let go of. *)
Definition hl_too_late : list (N * Ev) :=
  hl_kept ++ [at1 (AgentCloses 0); (1000%N, TimerFires 2); at1 (DisconnectHost "kept" false)].
Lemma disconnected_host_left_alone_witness :
  js_keys (li_dials (hl_run hl_too_late)) = [3] ∧ h_agents (li_hub (hl_run hl_too_late)) !! "kept" = None ∧
  reaching "kept" (hl_run hl_too_late) = false ∧ acquisition "kept" (hl_run hl_too_late) = None ∧
  (∀ a, h_agents (li_hub (step (hl_run hl_too_late) (at1 (Opens 3 (over true))))) !! "kept" = Some a →
     h_agents (li_hub (hl_run hl_too_late)) !! "kept" = Some a).
Proof.
  destruct (disconnected_host_left_alone "kept" hl_hub hl_too_late (at1 (Opens 3 (over true)))) as (H1 & H2 & H3);
    [vm_compute; reflexivity..|]. split; [vm_compute; reflexivity|]. split; [vm_compute; reflexivity|].
  split; [exact H1|]. split; [exact H2|]. apply H3. vm_compute. reflexivity.
Defined.
