(* ===== verification/HostEnds.v ===== *)
(** * What a retry comes to, and what a disconnect leaves

    A retry that fails is put off, the next time later, or ends the session ([retry_goes_on_or_gives_up]),
    within the time there is ([retries_bounded]). Disconnect is told on every branch: what it refuses, what it
    leaves alone, and whose terminals it keeps, those of a daemon under a session not still starting
    ([disconnect_exact]). *)

From Stdlib Require Import ZArith.
From S2P Require Import Prelude JsMap Acquisition ChannelData ChannelTrackers StateBroadcaster ChannelLifecycle ChannelChanges ChannelOps ChannelJudging HostWires HostLink HostLinkExample HostLinkRuns HostQuiet HostSafety.
#[local] Open Scope lasterm_scope.

Section ended.
Context `{!Setup} {Sc Ou : Type} `{!Screens Sc, !Outputs Ou}.
Notation Hub := (StateBroadcaster.Hub Sc Ou Wait).
Implicit Types (h u v : Hub) (host : HostId).

Definition host_of (ch : ChannelId) h : option HostId := cs_hostId <$> channel_of ch h.
Lemma host_of_status k ch session status exitCode reason h :
  host_of k (updateChannelStatus ch session status exitCode reason h) = host_of k h.
Proof.
  unfold host_of, updateChannelStatus. rewrite channel_of_broadcast. unfold on_channel.
  destruct (h_channels h !! ch) as [r|]; [|done].
  change (cs_hostId <$> (h_channels h !! k ≫= λ q, alter (λ c, c <{ cs_status := status }>) r (h_objs h) !! q) =
    cs_hostId <$> (h_channels h !! k ≫= λ q, h_objs h !! q)).
  destruct (h_channels h !! k) as [q|]; [|done]. cbn. rewrite list_lookup_alter. destruct (decide _) as [->|]; [|done].
  by destruct (h_objs h !! q).
Qed.
Lemma host_of_forget k ch h : host_of k (forgetChannel ch h) = if decide (k = ch) then None else host_of k h.
Proof.
  unfold forgetChannel. set (w := match channel_of ch h with Some _ => _ | None => _ end).
  assert (h_channels w = h_channels h ∧ h_objs w = h_objs h) as [H1 H2].
  { unfold w. destruct (channel_of ch h) as [c|]; [|done]. generalize (clients_of c h) as ids. intros ids.
    assert (∀ u, h_channels u = h_channels h ∧ h_objs u = h_objs h →
      let v := fold_left (λ h id, detach_id id ch h) ids u in h_channels v = h_channels h ∧ h_objs v = h_objs h) as Hf.
    { induction ids as [|id ids IH]; intros u Hu; [done|]. cbn. by apply IH. }
    by apply Hf. }
  clearbody w. unfold host_of, channel_of. cbn. rewrite js_lookup_delete, H1, H2.
    destruct (decide _), (decide _); naive_solver.
Qed.
(** Every terminal of the host is forgotten. *)
Lemma host_of_end_all host k ending h :
  (∀ ch c w, host_of k (ending ch c w) = host_of k w) → host_of k (end_all host ending h) ≠ Some host.
Proof.
  intros He. unfold end_all.
  assert (∀ ks w, host_of k (fold_left (λ h ch,
      match channel_of ch h with
      | Some c => if decide (cs_hostId c = host) then forgetChannel ch (if decide (cs_status c = dead) then h else
        ending ch c h) else h
      | None => h
      end) ks w) = Some host → host_of k w = Some host ∧ k ∉ ks) as Hf.
  { induction ks as [|ch ks IH]; intros w Hk; [split; [done|apply not_elem_of_nil]|]. cbn in Hk.
    apply IH in Hk as [Hk Hn].
    rewrite not_elem_of_cons. destruct (channel_of ch w) as [c|] eqn:Hc.
    - destruct (decide (cs_hostId c = host)) as [Hh|Hh].
      + rewrite host_of_forget in Hk. destruct (decide (k = ch)) as [|Hne]; [done|]. split; [|done].
        destruct (decide (cs_status c = dead)); [done|]. by rewrite He in Hk.
      + split; [done|]. split; [|done]. intros ->. unfold host_of in Hk. rewrite Hc in Hk. cbn in Hk. congruence.
    - split; [done|]. split; [|done]. intros ->. unfold host_of in Hk. by rewrite Hc in Hk. }
  intros Hk. apply Hf in Hk as [Hk Hn]. apply Hn. rewrite js_elem_keys. unfold host_of, channel_of in Hk.
  destruct (h_channels h !! k); [by eexists|done].
Qed.
Lemma host_of_closed host session reason k h : host_of k (ChannelLifecycle.closeSession host session reason h) ≠ Some
  host.
Proof.
  unfold ChannelLifecycle.closeSession. set (w := end_all _ _ _).
  assert (host_of k w ≠ Some host) as Hw by (apply host_of_end_all; intros; apply host_of_status).
  intros Hk. apply Hw. rewrite <- Hk. unfold host_of.
  change (channel_of k (updateSessionStatus host session closed w <{ h_sessions ::= delete host }>)) with
    (channel_of k (updateSessionStatus host session closed w)). by rewrite channel_of_session.
Qed.
Lemma sessions_closed host session reason h : h_sessions (ChannelLifecycle.closeSession host session reason h) !! host
  = None.
Proof. unfold ChannelLifecycle.closeSession. cbn. apply js_lookup_delete_eq. Qed.
Lemma sessions_reconnecting s h : h_sessions (h <{ h_reconnecting := s }>) = h_sessions h.
Proof. done. Qed.
Lemma host_of_reconnecting s k h : host_of k (h <{ h_reconnecting := s }>) = host_of k h.
Proof. done. Qed.
End ended.

Section retries.
Context `{!Setup} {Sc Ou : Type} `{!Screens Sc, !Outputs Ou} `{!Hosts}.
Notation Link := (Link Sc Ou).
Implicit Types (l u v : Link) (host : HostId).

Lemma backoff_range n : (1000 <= backoff n <= 30000)%Z.
Proof.
  unfold backoff. assert (Nat.min n (length RECONNECT_BACKOFF_MS - 1) <= 5) as Hm by (cbn; lia).
  revert Hm. generalize (Nat.min n (length RECONNECT_BACKOFF_MS - 1)). intros m Hm.
  do 6 (destruct m as [|m]; [cbn; lia|]). lia.
Qed.
Lemma waited_mono n m : n <= m → (waited n <= waited m)%Z.
Proof. induction 1 as [|m _ IH]; [lia|]. cbn. pose proof (backoff_range m). lia. Qed.
Lemma tries_bounded n : (waited n < RECONNECT_TIMEOUT_MS)%Z → n <= 13.
Proof.
  intros Hn. destruct (Nat.le_gt_cases n 13) as [|Hgt]; [done|]. pose proof (waited_mono 14 n Hgt) as Hm.
  assert (waited 14 = 301000)%Z as Hw by reflexivity. unfold RECONNECT_TIMEOUT_MS in Hn. lia.
Qed.

(** C33: The hub gives up on a lost host in time: in every run, each retry put off is at most the fourteenth,
    due within thirty seconds and five minutes and a half of the loss at the latest, and one under way
    comes after all the waits before it. *)
Theorem retries_bounded (h : StateBroadcaster.Hub Sc Ou Wait) (es : list (N * Ev)) host :
  let u := run step (started h) es in
  host_is_ssh host = true → h_waits h = ∅ →
  (∀ t tm, li_timers u !! t = Some tm → tm_host tm = host →
     tm_attempt tm <= 13 ∧ (tm_due tm <= now u + 30000 ∧ tm_due tm < tm_start tm + RECONNECT_TIMEOUT_MS + 30000)%Z) ∧
  (∀ d session attempt start ac phase,
     li_dials u !! d = Some (MkDial host (for_retry session attempt start ac) phase) →
     attempt <= 13 ∧ (start + waited (S attempt) <= now u)%Z).
Proof.
  intros u Hssh Hh. destruct (settled_run host h es Hssh Hh) as [_ _ [A B]]. fold u in A, B. split.
  - intros t tm Ht _. destruct (A _ _ Ht) as (H1 & H2 & H3). pose proof (backoff_range (tm_attempt tm)).
    split; [apply tries_bounded; lia|lia].
  - intros d session attempt start ac phase Hd. destruct (B _ _ Hd) as [H1 H2]. split; [by apply tries_bounded|done].
Qed.

Lemma over_timers host ac v : li_timers (controller_over host ac v) = li_timers v ∧
  li_timerOf (controller_over host ac v) = li_timerOf v ∧
  li_dials (controller_over host ac v) = li_dials v.
Proof. unfold controller_over. by destruct (bool_decide _). Qed.
Lemma over_controller host ac v : li_controllerOf (controller_over host ac v) !! host ≠ Some ac.
Proof.
  unfold controller_over. destruct (bool_decide _) eqn:Hc; [|by apply bool_decide_eq_false_1 in Hc]. cbn.
  by rewrite js_lookup_delete_eq.
Qed.
Lemma over_hub host ac v : ∃ s, li_hub (controller_over host ac v) = li_hub v <{ h_reconnecting := s }>.
Proof.
  unfold controller_over. destruct (bool_decide _); [by eexists|]. exists (h_reconnecting (li_hub v)).
    by destruct v as [[]].
Qed.
Lemma cancel_dials host v : li_dials (cancelReconnect host v) = li_dials v.
Proof. unfold cancelReconnect, abort_controller, cancel_timer.
  destruct (li_timerOf v !! host); by destruct (_ !! host). Qed.

Lemma hub_closed host session reason v :
  li_hub (close_session host session reason v) = ChannelLifecycle.closeSession host session reason (li_hub
    (cancelReconnect host v)).
Proof. done. Qed.
Lemma on_hub_maps e host v : reaching host (on_hub e v) = reaching host v.
Proof. done. Qed.
Lemma on_hub_dials e v : li_dials (on_hub e v) = li_dials v.
Proof. done. Qed.
Lemma closed_dials host session reason v : li_dials (close_session host session reason v) = li_dials v.
Proof. unfold close_session. by rewrite on_hub_dials, cancel_dials. Qed.

(** C32: On a hub not quitting, of a host its user did not disconnect and whose agent is not being stopped, a
    retry that fails and was not called off, of a session still the host's,
      goes on: while there is time it is put off, the next
    wait longer, on a timer that when it is due dials again (where the host is known and not yet up, its
    session is not closed and its jump is allowed), and once the time is over it ends the
    session and every terminal of the host, and nothing reaches for it. *)
Theorem retry_goes_on_or_gives_up l host session attempt start :
  quitting l = false → user_disconnected host l = false → stopping host l = false → current host session l = true →
  (∀ d ac, li_dials l !! d = Some (MkDial host (for_retry session attempt start ac) dialing) → aborted ac l = false →
   let v := exec (Fails d) l in
   li_dials v !! d = None ∧ li_controllerOf v !! host ≠ Some ac ∧
   if (RECONNECT_TIMEOUT_MS <=? now l - start)%Z
   then h_sessions (li_hub v) !! host = None ∧ reaching host v = false ∧ ∀ ch, host_of ch (li_hub v) ≠ Some host
   else ∃ t, li_timerOf v !! host = Some t ∧
          li_timers v !! t = Some (MkTimer host session (S attempt) start (now l + backoff (S attempt)))) ∧
  (∀ t due, li_timers l !! t = Some (MkTimer host session attempt start due) → (due <= now l)%Z →
   up host l = false → ss_status <$> session_of host (li_hub l) ≠ Some closed → host_is_known host = true →
     jump_refused host = false →
   let v := exec (TimerFires t) l in
   li_timers v !! t = None ∧ ∃ d ac, li_dials v !! d = Some (MkDial host (for_retry session attempt start ac) dialing) ∧
     li_controllerOf v !! host = Some ac ∧ aborted ac v = false).
Proof.
  intros Hq Hu Hs Hc. split.
  - intros d ac Hd Ha v. unfold v. cbn [exec]. rewrite Hd. cbn [di_phase di_host di_for dial_fails].
    set (w := l <{ li_dials ::= delete d }>). unfold retry_failed.
    change (aborted ac w) with (aborted ac l). change (now w) with (now l).
      change (current host session w) with (current host session l).
    rewrite Ha, Hc. destruct (Z.leb_spec RECONNECT_TIMEOUT_MS (now l - start)) as [Ht|Ht].
    + destruct (over_timers host ac (close_session host session None w)) as (O1 & O2 & O3).
      split; [rewrite O3, closed_dials; apply js_lookup_delete_eq|].
      split; [apply over_controller|]. destruct (over_hub host ac (close_session host session None w)) as [s ->].
      rewrite hub_closed, sessions_reconnecting. split; [apply sessions_closed|].
        split; [|intros ch; rewrite host_of_reconnecting; apply host_of_closed].
      assert (reaching host (close_session host session None w) = false) as Hr by (unfold close_session;
        rewrite on_hub_maps; apply cancelled).
      unfold reaching, controller_over in *. rewrite orb_false_iff, !js_has_false in *. destruct Hr as [H1 H2].
      destruct (bool_decide _); [|done]. split; [exact H1|]. cbn. apply js_lookup_delete_eq.
    + unfold scheduleReconnect. change (quitting w) with (quitting l).
      change (user_disconnected host w) with (user_disconnected host l).
      change (stopping host w) with (stopping host l). rewrite Hq, Hu, Hs. change (now w) with (now l). cbn [orb].
      destruct (Z.leb_spec RECONNECT_TIMEOUT_MS (now l - start)); [lia|].
      match goal with |- context [controller_over host ac ?x] => destruct (over_timers host ac x) as (O1 & O2 & O3) end.
      split; [rewrite O3; apply js_lookup_delete_eq|]. split; [apply over_controller|]. exists (li_next l).
        rewrite O1, O2.
      split; apply js_lookup_insert_eq.
  - intros t due Ht Hdue Hup Hst Hk Hj v. unfold v. cbn [exec]. rewrite Ht. cbn [tm_due].
    destruct (Z.leb_spec due (now l)); [|lia].
    unfold timer_fires. rewrite Ht. cbn [tm_host tm_session]. cbv zeta.
    set (w := said_reaching host _). change (stopping host w) with (stopping host l).
      change (up host w) with (up host l).
    change (session_of host (li_hub w)) with (session_of host (li_hub l)).
    change (user_disconnected host w) with (user_disconnected host l). rewrite Hs, Hup, Hu, Hk. cbn [orb negb].
    unfold current, session_id in Hc. apply bool_decide_eq_true_1 in Hc.
      destruct (session_of host (li_hub l)) as [s|]; [|done].
    injection Hc as Hid. cbn [fmap option_fmap option_map] in Hst.
      rewrite bool_decide_eq_false_2 by (intros [?|?]; congruence). cbn [orb].
    unfold dial_again. cbn [tm_host tm_session tm_attempt tm_start].
    destruct (new_controller host w) as [ac x] eqn:Hx. rewrite Hj. unfold new_controller in Hx.
    set (y := match li_controllerOf w !! host with Some _ => _ | None => _ end) in Hx.
    assert (li_timers y = li_timers w) as Hy by (unfold y; by destruct (li_controllerOf w !! host)).
    clearbody y. injection Hx as <- <-. split; [|eexists _, _; split; [apply js_lookup_insert_eq|split]].
    + change (li_timers y !! t = None). rewrite Hy. apply js_lookup_delete_eq.
    + apply js_lookup_insert_eq.
    + unfold aborted. cbn. by rewrite list_lookup_middle.
Qed.
End retries.

Section let_go.
Context `{!Setup} {Sc Ou : Type} `{!Screens Sc, !Outputs Ou}.
Notation Hub := (StateBroadcaster.Hub Sc Ou Wait).
Implicit Types (h u v : Hub) (host : HostId).

(** The terminals, and the hosts flagged. *)
Definition lasting h := (h_channels h, h_objs h, h_userDisconnected h, h_sessions h).
Lemma lasting_broadcast m h : lasting (broadcastToAllClients m h) = lasting h.
Proof.
  unfold lasting, broadcastToAllClients.
  by rewrite (told_field h_channels), (told_field h_objs), (told_field h_userDisconnected),
    (told_field h_sessions) by done.
Qed.
Lemma lasting_announce host h : lasting (announceSessionState host h) = lasting h.
Proof. unfold announceSessionState. destruct (session_of host h); [apply lasting_broadcast|done]. Qed.
Lemma lasting_displaced host a h : lasting (dropDisplacedConnection host a h) = lasting h.
Proof.
  unfold dropDisplacedConnection. destruct (bool_decide _); [|done]. cbv zeta. destruct (h_quitting _); [done|].
  by rewrite lasting_announce.
Qed.
Lemma displaced_agent host a h : h_agents h !! host = Some a →
  h_agents (dropDisplacedConnection host a h) !! host = None.
Proof.
  intros Ha. unfold dropDisplacedConnection. rewrite bool_decide_eq_true_2 by done. cbv zeta.
  assert (h_agents (h <{ h_agents ::= delete host }>) !! host = None) as Hn by (cbn; apply js_lookup_delete_eq).
  destruct (h_quitting _); [done|]. unfold announceSessionState. destruct (session_of _ _); [|done].
  unfold broadcastToAllClients. by rewrite (told_field h_agents) by done.
Qed.
Lemma displaced_session_id k host a h : ss_id <$> session_of k (dropDisplacedConnection host a h) = ss_id <$>
  session_of k h.
Proof.
  unfold dropDisplacedConnection. destruct (bool_decide _); [|done]. cbv zeta. destruct (h_quitting _); [done|].
  unfold announceSessionState. destruct (session_of host _); [|done]. unfold session_of, broadcastToAllClients.
  by rewrite (told_field h_sessions), (told_field h_sessionObjs) by done.
Qed.
Lemma lasting_status host session status h : lasting (updateSessionStatus host session status h) = lasting h.
Proof. unfold updateSessionStatus. rewrite lasting_broadcast. by destruct (h_sessions h !! host). Qed.
Lemma agents_status host session status h : h_agents (updateSessionStatus host session status h) = h_agents h.
Proof. assert (calm h (updateSessionStatus host session status h)) as [[= _ Ha _ _] _] by calms. done. Qed.
Lemma status_after host session status h :
  ss_id <$> session_of host h = Some session →
  ss_status <$> session_of host (updateSessionStatus host session status h) = Some status.
Proof.
  intros Hid. unfold updateSessionStatus.
  assert (∀ (w : Hub) m, session_of host (broadcastToAllClients m w) = session_of host w) as Hb.
  { intros w m. unfold session_of, broadcastToAllClients. by rewrite (told_field h_sessions),
    (told_field h_sessionObjs) by done. }
  rewrite Hb. unfold session_of in *. destruct (h_sessions h !! host) as [r|] eqn:Hr; [|done]. cbn in *. rewrite Hr.
    cbn.
  rewrite list_lookup_alter, decide_True by done. destruct (h_sessionObjs h !! r) as [s|]; [|done].
    injection Hid as <-. cbn.
  by rewrite decide_True.
Qed.
Lemma closed_wires host session reason h :
  h_agents (ChannelLifecycle.closeSession host session reason h) = h_agents h ∧
  h_userDisconnected (ChannelLifecycle.closeSession host session reason h) = h_userDisconnected h.
Proof.
  unfold ChannelLifecycle.closeSession. set (x := end_all _ _ _).
  assert (calm (h <{ h_reconnecting ::= set_delete host }>) (updateSessionStatus host session closed x)) as [[= _ H1
    H2 _] _].
  { apply calm_session. apply calm_end_all; calms. }
  done.
Qed.
End let_go.

Section disconnects.
Context `{!Setup} {Sc Ou : Type} `{!Screens Sc, !Outputs Ou} `{!Hosts}.
Notation Link := (Link Sc Ou).
Implicit Types (l u v : Link) (host : HostId).

(** What is the link's own. *)
Definition own l := (li_timerOf l, li_controllerOf l, li_acq l, li_uploads l).
Lemma own_hub e l : own (on_hub e l) = own l.
Proof. done. Qed.
Lemma letGo_exact host a u :
  h_agents (li_hub u) !! host = Some a → let v := letGoOfConnection host a u in
  own v = own u ∧ lasting (li_hub v) = lasting (li_hub u) ∧ session_id host v = session_id host u ∧
  h_agents (li_hub v) !! host = None ∧ a ∈ li_closed v.
Proof.
  intros Ha v. split; [done|]. split; [exact (lasting_displaced host a (li_hub u))|].
  split; [exact (displaced_session_id host host a (li_hub u))|]. split; [exact (displaced_agent host a (li_hub u) Ha)|].
  unfold v, letGoOfConnection, close_agent. cbn. apply elem_of_app. right. by apply list_elem_of_singleton.
Qed.
Lemma drop_exact host a session u :
  h_agents (li_hub u) !! host = Some a → session_id host u = Some session → let v := dropConnection host a u in
  own v = own u ∧ lasting (li_hub v) = lasting (li_hub u) ∧ h_agents (li_hub v) !! host = None ∧ a ∈ li_closed v ∧
  ss_status <$> session_of host (li_hub v) = Some disconnected.
Proof.
  intros Ha Hs. destruct (letGo_exact host a u Ha) as (H1 & H2 & H3 & H4 & H5). unfold dropConnection. rewrite Hs in H3.
  revert H1 H2 H3 H4 H5. generalize (letGoOfConnection host a u). intros x H1 H2 H3 H4 H5. cbv zeta. rewrite H3.
  split; [done|]. rewrite hub_on. cbn [ChannelLifecycle.exec]. rewrite lasting_status, agents_status.
  split_and!; [done..|]. by apply status_after.
Qed.
(** Of a host no longer reached for, the maps and what the hub says of it are all that changes. *)
Lemma cancel_frame host v :
  li_acq (cancelReconnect host v) = li_acq v ∧ li_uploads (cancelReconnect host v) = li_uploads v ∧
  li_closed (cancelReconnect host v) = li_closed v ∧ ∃ s, li_hub (cancelReconnect host v) = li_hub v <{ h_reconnecting
    := s }>.
Proof.
  assert (∀ h : StateBroadcaster.Hub Sc Ou Wait, h = h <{ h_reconnecting := h_reconnecting h }>) as Hid by by intros [].
  assert (∀ u, ∃ s, li_hub (cancel_timer host u) = li_hub u <{ h_reconnecting := s }>) as H1.
  { intros u. unfold cancel_timer. destruct (li_timerOf u !! host); [by eexists|]. exists (h_reconnecting (li_hub u)).
    apply Hid. }
  assert (∀ u, ∃ s, li_hub (abort_controller host u) = li_hub u <{ h_reconnecting := s }>) as H2.
  { intros u. unfold abort_controller. destruct (li_controllerOf u !! host); [by eexists|].
    exists (h_reconnecting (li_hub u)). apply Hid. }
  split_and!; [unfold cancelReconnect, abort_controller, cancel_timer; destruct (li_timerOf v !! host);
    by destruct (_ !! host)..|].
  unfold cancelReconnect. destruct (H2 (cancel_timer host v)) as [s ->], (H1 v) as [s' ->]. by exists s.
Qed.
Lemma endHost_exact host reason session u :
  session_id host u = Some session → let v := endHostSession host reason u in
  reaching host v = false ∧ acquisition host v = None ∧ li_uploads v = li_uploads u ∧
  h_userDisconnected (li_hub v) = h_userDisconnected (li_hub u) ∧
  h_agents (li_hub v) !! host = None ∧ (∀ a, h_agents (li_hub u) !! host = Some a → a ∈ li_closed v) ∧
  h_sessions (li_hub v) !! host = None ∧ ∀ ch, host_of ch (li_hub v) ≠ Some host.
Proof.
  intros Hs v. unfold v, endHostSession. set (x := match h_agents (li_hub u) !! host with Some _ => _ | None => _ end).
  assert (li_uploads x = li_uploads u ∧ h_userDisconnected (li_hub x) = h_userDisconnected (li_hub u) ∧
    session_id host x = Some session ∧
    h_agents (li_hub x) !! host = None ∧ ∀ a, h_agents (li_hub u) !! host = Some a →
      a ∈ li_closed x) as (H1 & H2 & H3 & H4 & H5).
  { unfold x. destruct (h_agents (li_hub u) !! host) as [a|] eqn:Ha; [|by split_and!].
    destruct (letGo_exact host a u Ha) as (G1 & G2 & G3 & G4 & G5). rewrite Hs in G3. unfold lasting in G2.
      injection G2 as _ _ G2 _.
    split_and!; try done. by intros ? [= <-]. }
  clearbody x. cbv zeta. change (session_id host (closeAcquisition host x)) with (session_id host x). rewrite H3.
  set (y := closeAcquisition host x). pose proof (closed_untaken host (li_acq x)) as Hq.
  assert (reaching host (close_session host session (Some reason) y) = false) as Hr.
  { unfold close_session. rewrite on_hub_maps. apply cancelled. }
  destruct (closed_wires host session (Some reason) (li_hub (cancelReconnect host y))) as [C1 C2].
  rewrite hub_closed, C1, C2. split; [exact Hr|].
  destruct (cancel_frame host y) as (K1 & K2 & K3 & s & K4). rewrite K4.
  split; [exact (eq_trans (f_equal (λ c, acquisitions c !! host) K1) Hq)|].
  split; [exact (eq_trans K2 H1)|]. split; [exact H2|]. split; [exact H4|].
  split; [intros a Ha; change (a ∈ li_closed (cancelReconnect host y)); rewrite K3; by apply H5|].
  split; [apply sessions_closed|intros ch; apply host_of_closed].
Qed.

(** Disconnect, once it is not refused: the host flagged, nothing on its way, nothing left to come back. *)
Definition gives_up host l : Link := l |> on_hub (UserDisconnects host) |> cancelReconnect host |> closeAcquisition
  host.
Lemma gives_up_exact host u : let v := gives_up host u in
  (user_disconnected host v = true ∧ reaching host v = false ∧ acquisition host v = None) ∧
  li_uploads v = li_uploads u ∧ session_of host (li_hub v) = session_of host (li_hub u) ∧
  h_agents (li_hub v) = h_agents (li_hub u) ∧ h_channels (li_hub v) = h_channels (li_hub u) ∧
  h_objs (li_hub v) = h_objs (li_hub u) ∧ h_sessions (li_hub v) = h_sessions (li_hub u).
Proof.
  intros v. destruct (cancel_frame host (on_hub (UserDisconnects host) u)) as (K1 & K2 & K3 & rs & K4).
  rewrite hub_on in K4.
  assert (li_hub v = li_hub u <{ h_userDisconnected ::= set_add host }> <{ h_reconnecting := rs }>) as Hv by exact K4.
  split; [split_and!|split; [exact K2|by rewrite Hv]].
  - apply bool_decide_eq_true_2. rewrite Hv. cbn. rewrite elem_of_set_add. by left.
  - exact (cancelled host (on_hub (UserDisconnects host) u)).
  - apply closed_untaken.
Qed.
(** A host let go of by its user: [u] as it was, [v] as it is. *)
Definition let_go_of host u v : Prop :=
  user_disconnected host v = true ∧ reaching host v = false ∧ acquisition host v = None ∧
  h_agents (li_hub v) !! host = None ∧ ∀ a, h_agents (li_hub u) !! host = Some a → a ∈ li_closed v.
(** Its terminals each as they were, and its session the same. *)
Definition terminals_kept u v : Prop :=
  h_channels (li_hub v) = h_channels (li_hub u) ∧ h_objs (li_hub v) = h_objs (li_hub u) ∧
  h_sessions (li_hub v) = h_sessions (li_hub u).
(** Given up first, what lets go of the connection leaves the rest alone. *)
Lemma given_up host u v : let x := gives_up host u in
  own v = own x → lasting (li_hub v) = lasting (li_hub x) → h_agents (li_hub v) !! host = None →
  (∀ a, h_agents (li_hub x) !! host = Some a → a ∈ li_closed v) →
  li_uploads v = li_uploads u ∧ let_go_of host u v ∧ terminals_kept u v.
Proof.
  intros x Ho Hl Hn Hc. destruct (gives_up_exact host u) as ((X1 & X2 & X3) & X4 & _ & X5 & X6 & X7 & X8).
  fold x in X1, X2, X3, X4, X5, X6, X7, X8. clearbody x. unfold own in Ho. injection Ho as V1 V2 V3 V4.
  unfold lasting in Hl. injection Hl as L1 L2 L3 L4.
  split; [by rewrite V4|]. unfold let_go_of, terminals_kept, user_disconnected, reaching, acquisition in *.
  rewrite V1, V2, V3, L1, L2, L3, L4, <- X5. split_and!; done.
Qed.
(** With no session there, only the connection goes. *)
Lemma endHost_without host reason u : session_id host u = None → acquisition host u = None →
  let v := endHostSession host reason u in
  own v = own u ∧ lasting (li_hub v) = lasting (li_hub u) ∧ h_agents (li_hub v) !! host = None ∧
  ∀ a, h_agents (li_hub u) !! host = Some a → a ∈ li_closed v.
Proof.
  intros Hs Hq v. unfold v, endHostSession. set (x := match h_agents (li_hub u) !! host with Some _ => _ | None => _
    end).
  assert (own x = own u ∧ lasting (li_hub x) = lasting (li_hub u) ∧ session_id host x = None ∧
    h_agents (li_hub x) !! host = None ∧ ∀ a, h_agents (li_hub u) !! host = Some a → a ∈ li_closed x)
    as (H1 & H2 & H3 & H4 & H5).
  { unfold x. destruct (h_agents (li_hub u) !! host) as [a|] eqn:Ha; [|by split_and!].
    destruct (letGo_exact host a u Ha) as (G1 & G2 & G3 & G4 & G5). rewrite Hs in G3.
    split_and!; try done. by intros ? [= <-]. }
  clearbody x. cbv zeta. change (session_id host (closeAcquisition host x)) with (session_id host x). rewrite H3.
  split; [|by split_and!]. rewrite <- H1. unfold own, closeAcquisition, on_acq. cbn.
  assert (acquisitions (li_acq x) !! host = None) as Hx.
  { unfold own in H1. injection H1 as _ _ -> _. exact Hq. }
  unfold Acquisition.close. by rewrite Hx.
Qed.

(** What follows the flag, of each session there may be. *)
Definition let_go host (s : option SessionState) (outlive : bool) (agent : option nat) l : Link :=
  match s with
  | Some s =>
      if outlive && negb (bool_decide (ss_status s = starting)) then
        match agent with
        | Some a => dropConnection host a l
        | None => on_hub (SessionIs host (ss_id s) disconnected) l
        end
      else endHostSession host stopped l
  | None => endHostSession host stopped l
  end.
Lemma let_go_exact host (outlive : bool) u :
  let v := let_go host (session_of host (li_hub u)) outlive (h_agents (li_hub u) !! host) (gives_up host u) in
  li_uploads v = li_uploads u ∧ let_go_of host u v ∧
  match session_of host (li_hub u) with
  | None => terminals_kept u v
  | Some s =>
      if outlive && negb (bool_decide (ss_status s = starting))
      then terminals_kept u v ∧ ss_status <$> session_of host (li_hub v) = Some disconnected
      else h_sessions (li_hub v) !! host = None ∧ ∀ ch, host_of ch (li_hub v) ≠ Some host
  end.
Proof.
  intros v. subst v. destruct (gives_up_exact host u) as ((X1 & X2 & X3) & X4 & X5 & X6 & _).
  pose proof (given_up host u) as Hkeep. cbv zeta in Hkeep. revert Hkeep X1 X2 X3 X4 X5 X6.
  generalize (gives_up host u). intros x Hkeep X1 X2 X3 X4 X5 X6. rewrite <- X6.
  assert (session_id host x = ss_id <$> session_of host (li_hub u)) as Hid by (by rewrite <- X5).
  destruct (session_of host (li_hub u)) as [s|]; cbn [let_go].
  - destruct (_ && _).
    + destruct (h_agents (li_hub x) !! host) as [a|] eqn:Ha.
      * destruct (drop_exact host a _ x Ha Hid) as (D1 & D2 & D3 & D4 & D5).
        destruct (Hkeep _ D1 D2 D3) as (E1 & E2 & E3); [by intros ? [= <-]|by split_and!].
      * destruct (Hkeep (on_hub (SessionIs host (ss_id s) disconnected) x)) as (E1 & E2 & E3);
          [done|by rewrite hub_on; apply lasting_status|by rewrite hub_on; cbn; rewrite agents_status|done|].
        split_and!; try done. rewrite hub_on. by apply status_after.
    + destruct (endHost_exact host stopped _ x Hid) as (D1 & D2 & D3 & D4 & D5 & D6 & D7 & D8).
      unfold let_go_of, user_disconnected in *. rewrite <- X6, D3, D4. by split_and!.
  - destruct (endHost_without host stopped x Hid X3) as (D1 & D2 & D3 & D4). by apply Hkeep.
Qed.
Lemma interrupted_exact host l :
  let w := if 0 <? transfersOn host l then interruptOn host l else l in
  li_hub w = li_hub l ∧ li_acq w = li_acq l ∧ transfersOn host w = 0.
Proof.
  cbv zeta. unfold interruptOn, transfersOn. destruct (Nat.ltb_spec 0 (default 0 (li_uploads l !! host))) as [|Hz].
  - split_and!; [done..|]. cbn. by rewrite js_lookup_delete_eq.
  - split_and!; [done..|]. lia.
Qed.

(** C16: Disconnect, on every branch. Refused, because the host is being stopped, is no SSH host or the hub
    quits, or because it would end terminals or stop transfers and was not told to, it says which and does
    nothing. Else the host's transfers are stopped. With no session, no agent and no acquisition there,
    that is all: it answers that nothing ended, and the host is not flagged. Otherwise the host is
    flagged, nothing reaches for it, its acquisition is closed and its connection let go of; and of its
    terminals: with no session they are as they were; where the connection says a daemon outlives it, or
    with none the setting does, and the session is not still starting, each is as it was, under the same
    session, now disconnected; else every one is forgotten with the session. A session still starting
    so loses even the terminals a daemon keeps, which are not counted in the answer. *)
Theorem disconnect_exact host (force : bool) l :
  let ending := terminalsEndedByDisconnect host l in
  let '(o, v) := disconnectHost host force l in
  match refused host l, wouldStop ending (transfersOn host l) force with
  | Some why, _ | None, Some why => o = why ∧ v = l
  | None, None =>
      transfersOn host v = 0 ∧
      match session_of host (li_hub l), h_agents (li_hub l) !! host, acquisition host l with
      | None, None, None =>
          o = o_disconnected 0 ∧ v = if 0 <? transfersOn host l then interruptOn host l else l
      | session, _, _ =>
          o = o_disconnected ending ∧ let_go_of host l v ∧
          match session with
          | None => terminals_kept l v
          | Some s =>
              if terminalsOutliveConnection host l && negb (bool_decide (ss_status s = starting))
              then terminals_kept l v ∧ ss_status <$> session_of host (li_hub v) = Some disconnected
              else h_sessions (li_hub v) !! host = None ∧ ∀ ch, host_of ch (li_hub v) ≠ Some host
          end
      end
  end.
Proof.
  cbv zeta. unfold disconnectHost. destruct (refused host l); [done|]. cbv zeta.
  destruct (wouldStop _ _ _) as [why|]; [done|].
  set (w := if 0 <? transfersOn host l then interruptOn host l else l).
  destruct (interrupted_exact host l) as (Hw1 & Hw2 & Hw3). fold w in Hw1, Hw2, Hw3. clearbody w. rewrite Hw1.
  destruct (let_go_exact host (terminalsOutliveConnection host l) w) as (H1 & H2 & H3).
  unfold let_go_of, terminals_kept in *. rewrite Hw1 in H1, H2, H3.
  assert (transfersOn host (let_go host (session_of host (li_hub l)) (terminalsOutliveConnection host l)
    (h_agents (li_hub l) !! host) (gives_up host w)) = 0) as Hup by (unfold transfersOn; by rewrite H1).
  replace (acquisition host w) with (acquisition host l) by (unfold acquisition; by rewrite Hw2).
  pose proof (conj Hup (conj (eq_refl (o_disconnected (terminalsEndedByDisconnect host l))) (conj H2 H3))) as Hv.
  destruct (session_of host (li_hub l)); [exact Hv|]. destruct (h_agents (li_hub l) !! host); [exact Hv|].
  destruct (acquisition host l); [exact Hv|by split_and!].
Qed.
End disconnects.

#[local] Open Scope string_scope.
#[local] Existing Instance hl_setup.
#[local] Existing Instance hl_hosts.
(** A host lost, and its first retry under way. *)
Definition hl_lost : list (N * Ev) := hl_kept ++ [at1 (AgentCloses 0)].
Definition hl_retried : list (N * Ev) := hl_lost ++ [(1000%N, TimerFires 2)].
Lemma retries_bounded_witness :
  js_keys (li_timers (run step (started hl_hub) hl_lost)) = [2] ∧
  (∀ t tm, li_timers (run step (started hl_hub) hl_lost) !! t = Some tm → tm_host tm = "kept" →
     tm_attempt tm <= 13 ∧ (tm_due tm <= now (run step (started hl_hub) hl_lost) + 30000 ∧
       tm_due tm < tm_start tm + RECONNECT_TIMEOUT_MS + 30000)%Z).
Proof.
  destruct (retries_bounded hl_hub hl_lost "kept") as [H _]; [vm_compute; reflexivity..|].
    split; [vm_compute; reflexivity|exact H].
Defined.
Lemma retry_goes_on_or_gives_up_witness :
  (let v := exec (Fails 3) (hl_run hl_retried) in ∃ t, li_timerOf v !! "kept" = Some t ∧
     li_timers v !! t = Some (MkTimer "kept" "s0" 1 7 (now (hl_run hl_retried) + backoff 1))) ∧
  (let v := exec (TimerFires 2) (passes 1000 (hl_run hl_lost)) in
   ∃ d ac, li_dials v !! d = Some (MkDial "kept" (for_retry "s0" 0 7 ac) dialing) ∧
     li_controllerOf v !! "kept" = Some ac ∧ aborted ac v = false).
Proof.
  split.
  - destruct (retry_goes_on_or_gives_up (hl_run hl_retried) "kept" "s0" 0 7) as [H _]; [vm_compute; reflexivity..|].
    destruct (H 3 0) as (_ & _ & H1); [vm_compute; reflexivity..|].
    assert ((RECONNECT_TIMEOUT_MS <=? now (hl_run hl_retried) - 7)%Z = false) as Hn by (vm_compute; reflexivity).
    rewrite Hn in H1. exact H1.
  - destruct (retry_goes_on_or_gives_up (passes 1000 (hl_run hl_lost)) "kept" "s0" 0 7) as [_ H]; [vm_compute;
    reflexivity..|].
    destruct (H 2 1007%Z) as [_ H2]; [vm_compute; reflexivity|vm_compute; discriminate|vm_compute; reflexivity|
      vm_compute; discriminate|vm_compute; reflexivity..|]. exact H2.
Defined.
Definition hl_running : Link SnapshotScheduler.SnapshotScheduler Replay.Hub := hl_run hl_kept.
(** A terminal kept by its daemon, under its session; and a host nothing holds, which is not flagged. *)
Example disconnect_keeps :
  let '(o, v) := disconnectHost "kept" false hl_running in
  o = o_disconnected 0 ∧ user_disconnected "kept" v = true ∧
  h_channels (li_hub v) = h_channels (li_hub hl_running) ∧
  ss_status <$> session_of "kept" (li_hub v) = Some disconnected.
Proof. vm_compute. done. Qed.
Example disconnect_nothing_there :
  let '(o, v) := disconnectHost "kept" false (started hl_hub) in
  o = o_disconnected 0 ∧ user_disconnected "kept" v = false.
Proof. vm_compute. done. Qed.
